(* ===== verification/_CoqProject ===== *)
-Q . S2P
Prelude.v
Text.v
Boundary.v
CharOffsets.v
Sha.v
ShaSpec.v
Encoding.v
Otp.v
OtpSpec.v
Telnet.v
TelnetLogin.v
Xymodem.v
XymodemSpec.v
XymodemDelivery.v
Zmodem.v
Mailbox.v
EventQueue.v
TmuxControl.v
TmuxHandshake.v
TmuxInput.v
Policy.v
PolicySpec.v
OutputStore.v
Capability.v
Approvals.v
ApprovalsSpec.v
Prompt.v
InputTracker.v
InputTrackerSpec.v
ShellEdit.v
ShellEditSpec.v
CommandShell.v
HexDocument.v
TextEdit.v
TextEditSpec.v
ShellArgs.v
AgentCapture.v
AgentCaptureSpec.v
CaptureFilters.v
SyncTypes.v
SyncEffects.v
SyncLogic.v
SyncHeads.v
SyncHeadsSpec.v
SyncProtocol.v
SyncReadSpec.v
SyncUpload.v
SyncSafety.v
CloudSync.v
CloudSafety.v
CloudConflict.v
CloudConflictSafety.v
SyncWorld.v
SyncTotal.v
SyncConverge.v
SyncSpec.v
AutoSync.v
AutoSyncRun.v
BlockingJobs.v
BlockingJobsSpec.v
RemoteFrame.v
RemoteRects.v
RemoteBudget.v
RemoteIpc.v
RemoteIpcSpec.v
RemoteQueue.v
RemoteReader.v
RemoteReaderSpec.v
RemoteHandshake.v
RemoteProgress.v
RemoteTrial.v
RemoteHeartbeat.v
RemoteHelper.v
RemoteWriter.v
