(* ===== verification/Prelude.v ===== *)
(** * ZzClawTerm: verification of the transports, the OTP library, the terminal
    protocols, the capability gate, the editors, synchronisation, background jobs
    and remote desktop sessions

    ZzClawTerm is a terminal application in Rust: a desktop shell over session
    transports (local shells, SSH, Telnet, serial, tmux control mode), file
    transfer protocols, an OTP library, stores and synchronisation.  This
    library models the parts whose behaviour is decided by the code itself, as
    executable definitions translated from [src/], and proves what makes them
    correct.  Paths below are relative to [src/crates/].

    ** Conventions.  A [u8] is a [Z] in [0, 256), a [Vec<u8>] or a string the list
    of its (UTF-8) bytes, a wider integer a [Z] with its wrapping or saturation
    written out.  [Result] is [result]; a panic is [None] of an [option].  A
    mutating method returns the new value.  What a thread does under a mutex is
    one definition, and threads are the interleavings of a step relation.
    Loops that are not structural carry fuel; every such loop has a lemma that
    the fuel given is enough (named in its file's header).

    ** Files, and the sources they model

    - [Prelude]: notations, integers, slices, UTF-8 validity, shared tactics and
      the hint database [rust].
    - [Text]: the functions of [str] and [char] that the sources call.
    - [Sha], [ShaSpec]: zzclawterm-otp/src/alg (SHA-1, SHA-256, SHA-512) and FIPS
      180-4, written from the standard: its constants are computed from the roots
      of primes, its functions are its own.  [Encoding]: zzclawterm-otp/src/encoding (base32, hex, url).
      [Otp], [OtpSpec]: hotp.rs, totp.rs, the HMAC and the key URIs, against RFC
      2104 and RFC 4226.  Theorems: the digests, codes and verification windows
      are the standards' ones, with the exact lengths for which they are not; URI
      round trips; inputs that panic.
    - [Telnet], [TelnetLogin]: telnet_codec.rs, telnet_input.rs,
      telnet_prompts.rs and the automatic login of transport_io.rs, in
      zzclawterm-transport/src.  Theorems: the decoder inverts the encoder, typed
      text never becomes a command, the login is bounded, and what breaks at read
      boundaries.
    - [Xymodem], [XymodemSpec], [XymodemDelivery]: xymodem/mod.rs, the X/YMODEM
      sender.  Theorems: no panic and a single outcome under any receiver,
      success only when exactly the frames of the files were acknowledged, a
      receiver that checks block numbers gets the file and its padding.
    - [Zmodem]: the detector of zmodem.rs.  Theorems: conservation of bytes,
      detection however reads cut a header.
    - [Mailbox]: writer_mailbox.rs, ssh_mailbox.rs and tmux/mailbox.rs as step
      systems over an abstract counter and a channel interface ([Channel]).
      Theorems: exact bounded accounts under any interleaving, no underflow, no
      command of an earlier attachment.
    - [EventQueue]: session_event_queue.rs, producers, consumers and the
      backpressure gate.  Theorems: every session's stream is conserved and
      ordered, the account is exact, producers are not parked for ever.
    - [TmuxControl], [TmuxHandshake], [TmuxInput]: tmux/control.rs,
      tmux/handshake.rs and tmux/input.rs.  Theorems: the line parser refines a
      byte queue, output and layouts round-trip, the probe is confirmed only by
      its token, input is conserved, pastes stay literal, batching cuts no key.
    - [Boundary], [CharOffsets]: where UTF-8 text may be cut, the nearest
      boundary at or before an index, and byte offsets counted in characters;
      shared by the output store and the editors.
    - [Policy], [PolicySpec]: zzclawterm-core/src/capabilities/policy.rs and
      sftp.rs, the permission modes, decision tables and the risk of shell
      commands and remote file operations.  Theorems: joining commands never
      lowers their risk, only listed commands run unasked, system paths need
      approval however they are spelt, and what substitution hides.
    - [OutputStore]: capabilities/output_store.rs.  Theorems: the store is
      bounded and its account exact in every reachable state, paging returns the
      text, and where a read stalls.
    - [Capability], [Approvals], [ApprovalsSpec]: the tool registry, argument
      contracts and session scopes (zzclawterm-mcp-protocol/src/lib.rs,
      capabilities/scope.rs and tools.rs), and the authorization of calls
      (capability_runtime.rs and mcp/mod.rs of zzclawterm-desktop/src/features)
      as a step system with a log of decisions.  Theorems: every executed call
      was allowed, approved or granted, and a disconnection revokes everything
      of its connection and nothing else.
    - [Prompt], [CommandShell]: prompt stripping and the recognition of
      interactive programs (command_suggestion_suppression.rs).  Theorems: the
      recognition terminates, unwrapping is safe but for a dangling option.
    - [InputTracker], [InputTrackerSpec]: terminal/input_tracker.rs.  Theorems:
      the tracker is well formed after any input, follows a line editor while it
      is in step, and reading a line back keeps what was typed.
    - [ShellEdit], [ShellEditSpec]: terminal/editing.rs with the keys that
      smart_input.rs sends.  Theorems: a plan's keys give its prediction, and a
      plan is accepted only for the line it was made for.
    - [HexDocument]: hex_document.rs.  Theorems: edits keep the document well
      formed, copied bytes are pasted back, and where a stale anchor panics.
    - [TextEdit], [TextEditSpec]: text_edit.rs.  Theorems: the byte-offset editor
      refines a list of characters with a caret and a mark; a double click selects
      one whole run.
    - [ShellArgs]: terminal/connection_input.rs.  Theorem: quoted arguments are
      parsed back.
    - [AgentCapture], [AgentCaptureSpec], [CaptureFilters]:
      zzclawterm-terminal/src/agent_capture.rs, the capture of a command's output
      between markers.  Theorems: the output is delivered once however it is cut
      into chunks, control strings are opaque, late markers are removed and
      nothing else.
    - [SyncTypes], [SyncEffects], [SyncHeads], [SyncProtocol], [SyncUpload],
      [CloudSync], [CloudConflict]: configuration synchronisation, in
      zzclawterm-core/src/cloud_sync (heads.rs, protocol.rs, gc.rs, control.rs,
      conflict.rs, cache.rs, mod.rs, and the paths and options of remote.rs and
      settings.rs) and portable_snapshot (sync_clock.rs and the hashes and checks
      of mod.rs).  An operation is a program that asks the remote store, the local
      store, the clock and the control cell, and continues with any answer; the
      traits are records of such programs, and the wrappers (cancellation,
      conflict resolution) are functions between them.  A run is the list of the
      questions with their answers.
    - [SyncLogic], [SyncHeadsSpec], [SyncReadSpec], [SyncSafety], [CloudSafety],
      [CloudConflictSafety]: a program logic for these programs, with one
      specification per operation, proved against the interfaces [RemoteSpec] and
      [StoreSpec] that both the raw and the wrapped stores satisfy.  [SyncSpec]:
      for every run of every operation against arbitrary answers, heads are
      published only after a verified upload, files are deleted only when
      superseded, local edits survive, a push supersedes the heads it read, a
      resolution is confirmed, cancelling is effective, and nothing panics.
    - [SyncWorld], [SyncTotal], [SyncConverge]: an environment in which the stores
      behave, total triples for the operations in it, and convergence: push on one
      device and pull on another.
    - [AutoSync], [AutoSyncRun]: when to synchronise (coordinator.rs of
      zzclawterm-desktop/src/app_shell/controller/auto_sync) and the job it starts
      (features/sync/auto_sync.rs), as a function of what its calls return.
      Theorems: a change counts as settled only on the ground of what a job did
      that had seen it, and a tick that is late enough starts a job.
    - [BlockingJobs], [BlockingJobsSpec]: zzclawterm-desktop/src/blocking_jobs.rs,
      submitters, workers, cancellation and shutdown as interleaved atomic steps.
      Theorems: every accepted job has exactly one outcome and every task one
      result, the queue is bounded and its depth exact, a shutdown drains.
    - [RemoteFrame], [RemoteRects], [RemoteBudget]: frame.rs and pixel_memory.rs of
      zzclawterm-remote-desktop/src.  Theorems: an update paints its rectangle and
      nothing else and never panics, merged dirty rectangles cover what was dirty,
      the memory budget holds under interleaved reservations.
    - [RemoteIpc], [RemoteIpcSpec]: ipc.rs.  Theorems: frames, cursors and streams
      of packets round-trip however the bytes are cut, and a received frame can be
      applied.
    - [RemoteQueue], [RemoteReader], [RemoteReaderSpec], [RemoteHandshake],
      [RemoteProgress], [RemoteTrial]: the RDP session of session.rs: the event
      queue, and the reader, the supervisor, the view and a close as interleaved
      sections under its locks.  Theorems: the view replays exactly the helper's
      desktop, one error ends a session, credentials leave only after the
      handshake, a closed session leaves no prompt, the reader is never stuck.
      [RemoteTrial] holds concrete runs.
    - [RemoteHeartbeat], [RemoteWriter]: heartbeat.rs and the writer of
      helper_process.rs.  Theorems: a silent helper is given up and a responsive
      one kept; lost input is always followed by the release of all input.
    - [RemoteHelper]: the output of zzclawterm-rdp-helper/src/main.rs.  Theorems: what
      fits arrives, and a large clipboard text ends the output.

    ** Bounds and fuel.  Fuel is always the length of the input that the loop
    consumes (plus one where a turn may consume nothing at the end), so it is
    never reached: see [strip_controls_enough], [parse_cell_fuel],
    [feed_loop_fuel], [scan_fuel], [chars_fuel_enough], [line_editor_total],
    [back_loop_run], [forward_loop_run], [strip_env_done], [remove_fuel_enough],
    [process_loop_fuel]; merging
    rectangles carries the square of their number ([merge_into_spec]).  Programs of synchronisation are finite trees and need
    none; their bounded retries are structural.  Twenty decimal digits
    hold a [u64].  Machine integers are bounded where the sources can reach the
    bound; counters of detachments and the like, which cannot, are unbounded.

    ** Not modelled.  The desktop, UI and rendering crates (state of a third-party
    UI framework), the SSH, SFTP, RDP, VNC and plugin drivers (third-party
    libraries and network I/O; the VNC session manager repeats the RDP one),
    stores (SQLite) and processes.  Third-party code that a modelled part relies on is an interface or an argument: channels
    ([Mailbox]), regular expressions ([TelnetLogin], and [PromptMatchers] in
    [Prompt]), case, alphanumeric and grapheme tables, digests, random tokens and
    clocks (arguments).  Of the capability runtime the tools themselves, the audit
    log, the terminal executions and the result schemas are not modelled.  Some
    of these crates also hold pure code (import parsers, natural ordering, prompt
    recognition of network devices) that could be modelled in the same way and is
    not.  Of synchronisation the providers, the metadata cache, encryption, the
    archive format and the newer document engine are not modelled; hashing, JSON
    and the codecs are interfaces ([SyncLib], [SyncCodec]), and waiting between
    attempts and the log of I/O events have no effect in the model.  Poisoned
    locks, failed allocations (but for those of frames and packets) and stack
    exhaustion are not modelled.  Of remote desktops the helper processes, their
    standard error, the registry of sessions and the key tables are not modelled;
    the JSON of control messages is an argument. *)
From stdpp Require Import base list numbers strings gmap.
From Stdlib Require Import ZArith Lia.
Open Scope Z_scope.

(** ** Rust results and panics

    [result A E] is Rust's [Result<A, E>].  A computation that can also panic
    returns [option _], with [None] standing for the panic. *)
Inductive result (A E : Type) : Type :=
| Ok (a : A)
| Err (e : E).
Arguments Ok {A E} a.
Arguments Err {A E} e.

#[global] Instance result_eq_dec {A E} `{EqDecision A} `{EqDecision E} :
  EqDecision (result A E).
Proof. solve_decision. Defined.

Declare Scope rust_scope.
Delimit Scope rust_scope with rust.

(** Rust's [?] operator on [Result]. *)
Definition result_bind {A B E} (r : result A E) (k : A -> result B E) : result B E :=
  match r with Ok a => k a | Err e => Err e end.
Notation "'let?' x ':=' r 'in' k" := (result_bind r (fun x => k))
  (at level 10, x pattern, r at level 100, k at level 200) : rust_scope.

(** Rust's [?] operator on [Option], and sequencing after a possible panic. *)
Notation "'let*' x ':=' r 'in' k" :=
  (match r with Some x => k | None => None end)
  (at level 10, x pattern, r at level 100, k at level 200) : rust_scope.
Open Scope rust_scope.

(** [Option::ok_or] and [Result::map_err]. *)
Definition ok_or {A E} (o : option A) (e : E) : result A E :=
  match o with Some a => Ok a | None => Err e end.
Definition map_err {A E F} (f : E -> F) (r : result A E) : result A F :=
  match r with Ok a => Ok a | Err e => Err (f e) end.

(** ** Bytes and strings

    A [u8] is a [Z] in [0, 256); a [Vec<u8>] or [&[u8]] is a [list Z]; a Rust
    [String] or [&str] is its UTF-8 bytes, again a [list Z]. *)
Definition byte_ok (b : Z) : Prop := 0 <= b < 256.
Abbreviation bytes_ok := (Forall byte_ok).

#[global] Instance byte_ok_dec b : Decision (byte_ok b).
Proof. unfold byte_ok. apply _. Defined.

(** The bytes of an ASCII literal. *)
Definition bs (s : string) : list Z :=
  map (fun a => Z.of_N (Ascii.N_of_ascii a)) (String.list_ascii_of_string s).

(** [slice.len()] as a machine integer. *)
Abbreviation len l := (Z.of_nat (length l)).

Definition beq (l1 l2 : list Z) : bool := bool_decide (l1 = l2).

(** ** Slice and string operations of the standard library *)

(** [slice::strip_prefix] and [str::strip_prefix]. *)
Fixpoint strip_prefix (p l : list Z) : option (list Z) :=
  match p, l with
  | [], _ => Some l
  | x :: p', y :: l' => if x =? y then strip_prefix p' l' else None
  | _ :: _, [] => None
  end.

Definition starts_with (p l : list Z) : bool :=
  match strip_prefix p l with Some _ => true | None => false end.

Definition ends_with (s l : list Z) : bool := starts_with (rev s) (rev l).

(** [str::split_once] with a one-byte pattern. *)
Fixpoint split_once (c : Z) (l : list Z) : option (list Z * list Z) :=
  match l with
  | [] => None
  | x :: l' =>
      if x =? c then Some ([], l')
      else match split_once c l' with
           | Some (a, b) => Some (x :: a, b)
           | None => None
           end
  end.

(** [str::split] with a one-byte pattern: always at least one piece. *)
Fixpoint split_on (c : Z) (l : list Z) : list (list Z) :=
  match l with
  | [] => [[]]
  | x :: l' =>
      if x =? c then [] :: split_on c l'
      else match split_on c l' with
           | p :: ps => (x :: p) :: ps
           | [] => [[x]]
           end
  end.

(** [Iterator::position]. *)
Fixpoint position {A} (f : A -> bool) (l : list A) : option nat :=
  match l with
  | [] => None
  | x :: l' => if f x then Some 0%nat else S <$> position f l'
  end.

(** [slice::chunks]: consecutive pieces of [n] elements, the last one shorter.
    The fuel [length l] is enough because every piece takes an element. *)
Fixpoint chunks_fuel {A} (fuel n : nat) (l : list A) : list (list A) :=
  match fuel, l with
  | S fuel', _ :: _ => take n l :: chunks_fuel fuel' n (drop n l)
  | _, _ => []
  end.
Definition chunks {A} (n : nat) (l : list A) : list (list A) :=
  chunks_fuel (length l) n l.

(** [Vec::resize]. *)
Definition resize {A} (n : nat) (x : A) (l : list A) : list A :=
  take n l ++ replicate (n - length l) x.

(** [last] of a slice. *)
Definition slice_last (l : list Z) : option Z := last l.

(** ** Machine words *)

Definition wrap (w x : Z) : Z := x mod 2 ^ w.
Definition wrapping_add (w x y : Z) : Z := wrap w (x + y).
Definition rotate_left (w x n : Z) : Z :=
  Z.lor (wrap w (Z.shiftl x n)) (Z.shiftr x (w - n)).
Definition rotate_right (w x n : Z) : Z :=
  Z.lor (Z.shiftr x n) (wrap w (Z.shiftl x (w - n))).
(** Rust's [!x] on an unsigned integer of [w] bits. *)
Definition bitnot (w x : Z) : Z := Z.ones w - x.

(** [to_be_bytes] of an [n]-byte integer and [from_be_bytes]. *)
Fixpoint to_be_bytes (n : nat) (x : Z) : list Z :=
  match n with
  | O => []
  | S n' => wrap 8 (Z.shiftr x (8 * Z.of_nat n')) :: to_be_bytes n' x
  end.
Definition from_be_bytes (l : list Z) : Z :=
  fold_left (fun acc b => Z.lor (Z.shiftl acc 8) b) l 0.

Abbreviation U8_MAX := 255.
Abbreviation U16_MAX := 65535.
Abbreviation U32_MAX := 4294967295.
Abbreviation U64_MAX := 18446744073709551615.

(** [usize::saturating_sub] and friends on 64-bit targets. *)
Definition saturating_sub (x y : Z) : Z := Z.max 0 (x - y).
Definition saturating_add (mx x y : Z) : Z := Z.min mx (x + y).
Definition saturating_mul (mx x y : Z) : Z := Z.min mx (x * y).
Abbreviation USIZE_MAX := 18446744073709551615.

(** ** Numbers as text: [FromStr], [from_str_radix] and [Display] *)

Definition digit_val (b : Z) : option Z :=
  if (48 <=? b) && (b <=? 57) then Some (b - 48)
  else if (97 <=? b) && (b <=? 122) then Some (b - 97 + 10)
  else if (65 <=? b) && (b <=? 90) then Some (b - 65 + 10)
  else None.

Fixpoint parse_digits (radix mx acc : Z) (l : list Z) : option Z :=
  match l with
  | [] => Some acc
  | b :: l' =>
      match digit_val b with
      | Some d =>
          if d <? radix then
            let acc' := acc * radix + d in
            if acc' <=? mx then parse_digits radix mx acc' l' else None
          else None
      | None => None
      end
  end.

(** [uN::from_str_radix]: no digits is an error, a leading [+] is accepted
    when something follows it, and every step is checked for overflow. *)
Definition from_str_radix (radix mx : Z) (l : list Z) : option Z :=
  match l with
  | [] => None
  | [b] => if (b =? 43) || (b =? 45) then None else parse_digits radix mx 0 l
  | b :: l' => if b =? 43 then parse_digits radix mx 0 l' else parse_digits radix mx 0 l
  end.

(** [Display] of an unsigned integer.  Twenty digits are enough for a [u64]. *)
Fixpoint show_digits (fuel : nat) (n : Z) : list Z :=
  match fuel with
  | O => []
  | S fuel' =>
      if n <? 10 then [48 + n]
      else show_digits fuel' (n / 10) ++ [48 + n mod 10]
  end.
Definition show_u64 (n : Z) : list Z := show_digits 20 n.

(** ** UTF-8 validity, as [str::from_utf8] decides it *)

Definition cont (b : Z) : bool := (128 <=? b) && (b <=? 191).

(** The number of bytes of the well-formed character at the head of [l]. *)
Definition utf8_char_len (l : list Z) : option nat :=
  match l with
  | b0 :: l1 =>
      if b0 <=? 127 then Some 1%nat
      else match l1 with
      | b1 :: l2 =>
          if (194 <=? b0) && (b0 <=? 223) then
            (if cont b1 then Some 2%nat else None)
          else match l2 with
          | b2 :: l3 =>
              if ((b0 =? 224) && (160 <=? b1) && (b1 <=? 191))
                 || (((225 <=? b0) && (b0 <=? 236)) && cont b1)
                 || ((b0 =? 237) && (128 <=? b1) && (b1 <=? 159))
                 || (((238 <=? b0) && (b0 <=? 239)) && cont b1)
              then (if cont b2 then Some 3%nat else None)
              else match l3 with
              | b3 :: _ =>
                  if (((b0 =? 240) && (144 <=? b1) && (b1 <=? 191))
                      || (((241 <=? b0) && (b0 <=? 243)) && cont b1)
                      || ((b0 =? 244) && (128 <=? b1) && (b1 <=? 143)))
                     && cont b2 && cont b3
                  then Some 4%nat else None
              | [] => None
              end
          | [] => None
          end
      | [] => None
      end
  | [] => None
  end.

Fixpoint utf8_valid_fuel (fuel : nat) (l : list Z) : bool :=
  match l with
  | [] => true
  | _ :: _ =>
      match fuel with
      | O => false
      | S fuel' =>
          match utf8_char_len l with
          | Some n => utf8_valid_fuel fuel' (drop n l)
          | None => false
          end
      end
  end.
Definition utf8_valid (l : list Z) : bool := utf8_valid_fuel (length l) l.

(** [str::is_char_boundary]: the ends, and every index whose byte does not
    continue a character. *)
Definition is_char_boundary (l : list Z) (i : nat) : bool :=
  match l !! i with
  | Some b => (i =? 0)%nat || negb (cont b)
  | None => (i =? length l)%nat
  end.

(** ** Shared lemmas *)

Create HintDb rust.

(** Case analysis on the boolean comparisons of the code. *)
Ltac bool_cases :=
  repeat match goal with
  | |- context [?x =? ?y] => destruct (Z.eqb_spec x y)
  | |- context [?x <=? ?y] => destruct (Z.leb_spec x y)
  | |- context [?x <? ?y] => destruct (Z.ltb_spec x y)
  end; cbn [andb orb negb].

(** The same, on every hypothesis as well, keeping the facts. *)
Ltac bool_to_prop :=
  repeat match goal with
  | H : (_ =? _) = true |- _ => apply Z.eqb_eq in H
  | H : (_ =? _) = false |- _ => apply Z.eqb_neq in H
  | H : (_ <=? _) = true |- _ => apply Z.leb_le in H
  | H : (_ <=? _) = false |- _ => apply Z.leb_gt in H
  | H : (_ <? _) = true |- _ => apply Z.ltb_lt in H
  | H : (_ <? _) = false |- _ => apply Z.ltb_ge in H
  | H : _ && _ = true |- _ => apply andb_true_iff in H as [? ?]
  | H : _ || _ = false |- _ => apply orb_false_iff in H as [? ?]
  | H : negb _ = true |- _ => apply negb_true_iff in H
  | H : negb _ = false |- _ => apply negb_false_iff in H
  | H : bool_decide _ = true |- _ => apply bool_decide_eq_true in H
  | H : bool_decide _ = false |- _ => apply bool_decide_eq_false in H
  end.

Lemma beq_true l1 l2 : beq l1 l2 = true <-> l1 = l2.
Proof. apply bool_decide_eq_true. Qed.

Lemma beq_refl l : beq l l = true.
Proof. by apply beq_true. Qed.
#[export] Hint Rewrite beq_refl : rust.

(** *** Words *)

Lemma wrap_range w x : 0 <= w -> 0 <= wrap w x < 2 ^ w.
Proof. intros. apply Z.mod_pos_bound. by apply Z.pow_pos_nonneg. Qed.

Lemma wrap_small w x : 0 <= x < 2 ^ w -> wrap w x = x.
Proof. apply Z.mod_small. Qed.

Lemma wrap8_ok x : byte_ok (wrap 8 x).
Proof. apply (wrap_range 8 x). lia. Qed.
#[export] Hint Resolve wrap8_ok : rust.

Lemma range_bits w x :
  0 <= w -> 0 <= x < 2 ^ w <-> (0 <= x /\ forall i, w <= i -> Z.testbit x i = false).
Proof.
  intros Hw. split.
  - intros [H0 H1]. split; [done |]. intros i Hi.
    destruct (decide (x = 0)) as [-> | Hx]; [apply Z.bits_0 |].
    apply Z.bits_above_log2; [done |].
    apply Z.log2_lt_pow2; [lia |]. eapply Z.lt_le_trans; [done |].
    by apply Z.pow_le_mono_r.
  - intros [H0 Hb]. split; [done |].
    destruct (decide (x = 0)) as [-> | Hx]; [by apply Z.pow_pos_nonneg |].
    apply Z.log2_lt_pow2; [lia |].
    destruct (Z.lt_ge_cases (Z.log2 x) w) as [| Hge]; [done |].
    specialize (Hb _ Hge). rewrite Z.bit_log2 in Hb; [done | lia].
Qed.

Lemma lor_range w x y :
  0 <= w -> 0 <= x < 2 ^ w -> 0 <= y < 2 ^ w -> 0 <= Z.lor x y < 2 ^ w.
Proof.
  intros Hw Hx Hy. apply range_bits; [done |].
  apply range_bits in Hx as [? Hx]; [| done]. apply range_bits in Hy as [? Hy]; [| done].
  split; [by apply Z.lor_nonneg |]. intros i Hi. by rewrite Z.lor_spec, Hx, Hy.
Qed.

Lemma lxor_range w x y :
  0 <= w -> 0 <= x < 2 ^ w -> 0 <= y < 2 ^ w -> 0 <= Z.lxor x y < 2 ^ w.
Proof.
  intros Hw Hx Hy. apply range_bits; [done |].
  apply range_bits in Hx as [? Hx]; [| done]. apply range_bits in Hy as [? Hy]; [| done].
  split; [by apply Z.lxor_nonneg |]. intros i Hi. by rewrite Z.lxor_spec, Hx, Hy.
Qed.

Lemma land_range w x y :
  0 <= w -> 0 <= x < 2 ^ w -> 0 <= y -> 0 <= Z.land x y < 2 ^ w.
Proof.
  intros Hw Hx Hy. apply range_bits; [done |].
  apply range_bits in Hx as [? Hx]; [| done].
  split; [apply Z.land_nonneg; by left |]. intros i Hi. by rewrite Z.land_spec, Hx.
Qed.

Lemma shiftr_range w x n : 0 <= n -> 0 <= x < 2 ^ w -> 0 <= Z.shiftr x n < 2 ^ w.
Proof.
  intros Hn Hx. rewrite Z.shiftr_div_pow2 by done.
  assert (0 < 2 ^ n) by (by apply Z.pow_pos_nonneg).
  split; [apply Z.div_pos; lia |].
  apply Z.div_lt_upper_bound; nia.
Qed.

Lemma wrapping_add_range w x y : 0 <= w -> 0 <= wrapping_add w x y < 2 ^ w.
Proof. apply wrap_range. Qed.

Lemma rotate_left_range w x n :
  0 <= n <= w -> 0 <= x < 2 ^ w -> 0 <= rotate_left w x n < 2 ^ w.
Proof. intros. apply lor_range; [lia | apply wrap_range; lia | apply shiftr_range; lia]. Qed.

Lemma rotate_right_range w x n :
  0 <= n <= w -> 0 <= x < 2 ^ w -> 0 <= rotate_right w x n < 2 ^ w.
Proof. intros. apply lor_range; [lia | apply shiftr_range; lia | apply wrap_range; lia]. Qed.

Lemma bitnot_range w x : 0 <= w -> 0 <= x < 2 ^ w -> 0 <= bitnot w x < 2 ^ w.
Proof. intros. unfold bitnot. rewrite Z.ones_equiv. lia. Qed.

Lemma bitnot_bits w x i :
  0 <= x < 2 ^ w -> 0 <= i < w -> Z.testbit (bitnot w x) i = negb (Z.testbit x i).
Proof.
  intros Hx Hi. unfold bitnot.
  replace (Z.ones w - x) with (wrap w (Z.lnot x)).
  - unfold wrap. by rewrite Z.mod_pow2_bits_low, Z.lnot_spec by lia.
  - unfold wrap. rewrite Z.ones_equiv, Z.lnot_eq_pred_opp by lia.
    replace (- x - 1) with ((Z.pred (2 ^ w) - x) + (-1) * 2 ^ w) by lia.
    rewrite Z_mod_plus_full. apply Z.mod_small. lia.
Qed.

Lemma mod_idemp_mid a b c n : (a + (b mod n + c)) mod n = (a + (b + c)) mod n.
Proof.
  rewrite !Z.add_assoc, (Z.add_comm a), <- Z.add_assoc, Zplus_mod_idemp_l. f_equal. lia.
Qed.

(** Sums of words: inner reductions modulo [2 ^ w] can be dropped. *)
Ltac mod_sums :=
  repeat (progress rewrite <- ?Z.add_assoc, ?Zplus_mod_idemp_l, ?Zplus_mod_idemp_r, ?mod_idemp_mid).

(** *** Big-endian bytes *)

Lemma length_to_be_bytes n x : length (to_be_bytes n x) = n.
Proof. induction n; simpl; congruence. Qed.
#[export] Hint Rewrite length_to_be_bytes : rust.

Lemma to_be_bytes_ok n x : bytes_ok (to_be_bytes n x).
Proof. induction n; simpl; constructor; auto with rust. Qed.
#[export] Hint Resolve to_be_bytes_ok : rust.

Lemma lor_shiftl_add a b : 0 <= b < 256 -> Z.lor (Z.shiftl a 8) b = a * 256 + b.
Proof.
  intros Hb. change 256 with (2 ^ 8). rewrite <- Z.shiftl_mul_pow2 by lia.
  destruct (proj1 (range_bits 8 b ltac:(lia)) Hb) as [_ Hz].
  assert (Hd : Z.land (Z.shiftl a 8) b = 0).
  { apply Z.bits_inj'. intros i Hi. rewrite Z.land_spec, Z.bits_0.
    destruct (Z.lt_ge_cases i 8); [by rewrite Z.shiftl_spec_low |].
    rewrite Hz by lia. apply andb_false_r. }
  rewrite Z.add_nocarry_lxor by done. symmetry. by apply Z.lxor_lor.
Qed.

Lemma from_be_bytes_snoc l b :
  byte_ok b -> from_be_bytes (l ++ [b]) = from_be_bytes l * 256 + b.
Proof. intros. unfold from_be_bytes. rewrite fold_left_app. simpl. by apply lor_shiftl_add. Qed.

Lemma from_be_bytes_range l : bytes_ok l -> 0 <= from_be_bytes l < 2 ^ (8 * len l).
Proof.
  induction l as [| b l IH] using rev_ind; [done |].
  intros [Hl Hb]%Forall_app. inversion Hb; subst.
  rewrite from_be_bytes_snoc, length_app by done. cbn [length].
  specialize (IH Hl). unfold byte_ok in *.
  replace (8 * Z.of_nat (length l + 1)) with (8 * len l + 8) by lia.
  rewrite Z.pow_add_r by lia. change (2 ^ 8) with 256. nia.
Qed.

(** A decidable fact about bytes is checked on the 256 values. *)
Lemma byte_forall (P : Z -> bool) b :
  forallb (fun i => P (Z.of_nat i)) (seq 0 256) = true -> byte_ok b -> P b = true.
Proof.
  unfold byte_ok. intros Hall Hb. rewrite forallb_forall in Hall.
  specialize (Hall (Z.to_nat b)). rewrite in_seq, Z2Nat.id in Hall by lia. apply Hall. lia.
Qed.

(** *** Lists *)

Lemma resize_le {A} n (x : A) l : (n <= length l)%nat -> resize n x l = take n l.
Proof. intros. unfold resize. replace (n - length l)%nat with 0%nat by lia. by rewrite app_nil_r. Qed.

Lemma resize_ge {A} n (x : A) l :
  (length l <= n)%nat -> resize n x l = l ++ replicate (n - length l) x.
Proof. intros. unfold resize. by rewrite take_ge. Qed.

Lemma length_resize {A} n (x : A) l : length (resize n x l) = n.
Proof. unfold resize. rewrite length_app, length_take, length_replicate. lia. Qed.

Lemma chunks_fuel_concat {A} fuel n (l : list A) :
  (0 < n)%nat -> (length l <= fuel)%nat -> concat (chunks_fuel fuel n l) = l.
Proof.
  intros Hn. revert l. induction fuel as [| f IH]; intros [| x l] Hl; simpl in *; try done; [lia |].
  rewrite IH; [by rewrite <- (take_drop n (x :: l)) at 3 |].
  rewrite length_drop. simpl. lia.
Qed.

Lemma chunks_concat {A} n (l : list A) : (0 < n)%nat -> concat (chunks n l) = l.
Proof. intros. by apply chunks_fuel_concat. Qed.

Lemma chunks_fuel_bound {A} fuel n (l : list A) :
  (0 < n)%nat ->
  Forall (fun c => (0 < length c <= n)%nat) (chunks_fuel fuel n l).
Proof.
  intros Hn. revert l. induction fuel as [| f IH]; intros [| x l]; simpl; try constructor; auto.
  destruct n; [lia |]. rewrite length_take. simpl. lia.
Qed.

Lemma chunks_bound {A} n (l : list A) :
  (0 < n)%nat -> Forall (fun c => (0 < length c <= n)%nat) (chunks n l).
Proof. apply chunks_fuel_bound. Qed.

Lemma chunks_fuel_full {A} fuel n k (l : list A) :
  (0 < n)%nat -> length l = (k * n)%nat -> (length l <= fuel)%nat ->
  Forall (fun c => length c = n) (chunks_fuel fuel n l).
Proof.
  intros Hn. revert k l. induction fuel as [| f IH]; intros k [| x l] Hk Hl;
    cbn [chunks_fuel]; try constructor.
  - rewrite length_take. destruct k; simpl in *; lia.
  - destruct k as [| k]; [simpl in Hk; lia |].
    apply (IH k); rewrite length_drop; simpl in *; lia.
Qed.

Lemma chunks_full {A} n k (l : list A) :
  (0 < n)%nat -> length l = (k * n)%nat -> Forall (fun c => length c = n) (chunks n l).
Proof. intros. by apply (chunks_fuel_full _ _ k). Qed.

Lemma strip_prefix_app p l : strip_prefix p (p ++ l) = Some l.
Proof. induction p as [| x p IH]; simpl; [by destruct l |]. by rewrite Z.eqb_refl. Qed.

Lemma strip_prefix_Some p l r : strip_prefix p l = Some r -> l = p ++ r.
Proof.
  revert l. induction p as [| x p IH]; intros [| y l]; simpl; try congruence.
  destruct (Z.eqb_spec x y) as [-> |]; [| done]. intros H. by rewrite (IH _ H).
Qed.

Lemma split_once_app c a b : ~ In c a -> split_once c (a ++ c :: b) = Some (a, b).
Proof.
  induction a as [| x a IH]; simpl; intros Hn; [by rewrite Z.eqb_refl |].
  destruct (Z.eqb_spec x c) as [-> |]; [naive_solver |]. rewrite IH; naive_solver.
Qed.

Lemma split_once_None c l : ~ In c l -> split_once c l = None.
Proof.
  induction l as [| x l IH]; simpl; intros Hn; [done |].
  destruct (Z.eqb_spec x c) as [-> |]; [naive_solver |]. rewrite IH; naive_solver.
Qed.

Lemma split_on_nil c l : split_on c l <> [].
Proof. destruct l as [| x l]; simpl; [done |]. destruct (x =? c); [done |]. by destruct (split_on c l). Qed.

Lemma split_on_none c l : ~ In c l -> split_on c l = [l].
Proof.
  induction l as [| x l IH]; simpl; intros Hn; [done |].
  destruct (Z.eqb_spec x c) as [-> |]; [naive_solver |]. rewrite IH; naive_solver.
Qed.

Lemma split_on_app c a b : ~ In c a -> split_on c (a ++ c :: b) = a :: split_on c b.
Proof.
  induction a as [| x a IH]; simpl; intros Hn; [by rewrite Z.eqb_refl |].
  destruct (Z.eqb_spec x c) as [-> |]; [naive_solver |]. rewrite IH; naive_solver.
Qed.

Lemma position_Some {A} (f : A -> bool) l i :
  position f l = Some i ->
  exists x, l = take i l ++ x :: drop (S i) l /\ f x = true /\ Forall (fun y => f y = false) (take i l)
  /\ (i < length l)%nat.
Proof.
  revert i. induction l as [| x l IH]; intros i; simpl; [done |].
  destruct (f x) eqn:E.
  - intros [= <-]. exists x. simpl. rewrite drop_0. repeat split; auto. lia.
  - destruct (position f l) as [j |]; [| done]. intros [= <-].
    destruct (IH j eq_refl) as (y & Hl & Hy & Hf & Hlt).
    exists y. simpl. repeat split; [by f_equal | done | by constructor | lia].
Qed.

Lemma position_None {A} (f : A -> bool) l :
  position f l = None -> Forall (fun y => f y = false) l.
Proof.
  induction l as [| x l IH]; simpl; [constructor |].
  destruct (f x) eqn:E; [done |]. destruct (position f l); [done |]. auto.
Qed.

Lemma omap_snoc {A B} (f : A -> option B) l x : omap f (l ++ [x]) = omap f l ++ option_list (f x).
Proof. rewrite omap_app. cbn. by destruct (f x). Qed.

Lemma omap_head {A B} (f : A -> option B) x l : omap f (x :: l) = option_list (f x) ++ omap f l.
Proof. cbn. by destruct (f x). Qed.

(** *** Decimal text round trip *)

Lemma digit_val_dec d : 0 <= d < 10 -> digit_val (48 + d) = Some d.
Proof. intros. unfold digit_val. bool_cases; try lia. f_equal. lia. Qed.

Lemma parse_digits_app radix mx acc l1 l2 :
  parse_digits radix mx acc (l1 ++ l2) =
  match parse_digits radix mx acc l1 with
  | Some a => parse_digits radix mx a l2
  | None => None
  end.
Proof.
  revert acc. induction l1 as [| b l1 IH]; intros acc; simpl; [done |].
  destruct (digit_val b) as [d |]; [| done]. destruct (d <? radix); [| done].
  destruct (acc * radix + d <=? mx); [| done]. apply IH.
Qed.

Lemma parse_show_digits fuel mx n :
  0 <= n <= mx -> n < 10 ^ Z.of_nat fuel ->
  parse_digits 10 mx 0 (show_digits fuel n) = Some n.
Proof.
  revert n. induction fuel as [| f IH]; intros n Hn Hf; [simpl in *; f_equal; lia |].
  rewrite Nat2Z.inj_succ, Z.pow_succ_r in Hf by lia.
  cbn [show_digits]. destruct (Z.ltb_spec n 10).
  - simpl. rewrite digit_val_dec by lia. bool_cases; try lia. f_equal.
  - rewrite parse_digits_app, IH; [| | apply Z.div_lt_upper_bound; lia].
    + cbn [parse_digits]. rewrite digit_val_dec by (apply Z.mod_pos_bound; lia).
      pose proof (Z.mod_pos_bound n 10 ltac:(lia)).
      pose proof (Z.div_mod n 10 ltac:(lia)). bool_cases; try lia. f_equal. lia.
    + split; [apply Z.div_pos; lia |].
      apply Z.le_trans with n; [| lia]. apply Z.div_le_upper_bound; lia.
Qed.

Lemma show_digits_ascii fuel n :
  0 <= n -> Forall (fun b => 48 <= b <= 57) (show_digits fuel n).
Proof.
  revert n. induction fuel as [| f IH]; intros n Hn; cbn [show_digits]; [constructor |].
  destruct (Z.ltb_spec n 10); [repeat constructor; lia |].
  pose proof (Z.mod_pos_bound n 10 ltac:(lia)).
  apply Forall_app; split; [apply IH, Z.div_pos; lia | repeat constructor; lia].
Qed.

Lemma show_digits_nonempty fuel n : show_digits (S fuel) n <> [].
Proof. simpl. destruct (n <? 10); [done |]. by destruct (show_digits fuel (n / 10)). Qed.

Lemma show_u64_ascii n : 0 <= n -> Forall (fun b => 48 <= b <= 57) (show_u64 n).
Proof. apply show_digits_ascii. Qed.

(** [n.to_string().parse()] gives [n] back at any width that holds it. *)
Lemma from_str_show mx n :
  0 <= n <= mx -> mx <= U64_MAX -> from_str_radix 10 mx (show_u64 n) = Some n.
Proof.
  intros Hn Hm. unfold show_u64.
  assert (Hp : parse_digits 10 mx 0 (show_digits 20 n) = Some n).
  { apply parse_show_digits; [done |]. simpl. lia. }
  pose proof (show_digits_ascii 20 n ltac:(lia)) as Ha.
  pose proof (show_digits_nonempty 19 n) as Hne.
  destruct (show_digits 20 n) as [| b l]; [done |].
  apply Forall_cons in Ha as [Hb _].
  assert ((b =? 43) = false /\ (b =? 45) = false) as [E1 E2] by (split; apply Z.eqb_neq; lia).
  destruct l; cbn [from_str_radix]; by rewrite ?E1, ?E2.
Qed.

(** *** UTF-8 *)

Lemma utf8_char_len_bound l n :
  utf8_char_len l = Some n -> (0 < n <= length l)%nat.
Proof.
  unfold utf8_char_len.
  destruct l as [| b0 [| b1 [| b2 [| b3 l]]]]; simpl; intros H;
    repeat case_match; simplify_eq/=; lia.
Qed.

Lemma utf8_valid_fuel_enough f1 f2 l :
  (length l <= f1)%nat -> (length l <= f2)%nat ->
  utf8_valid_fuel f1 l = utf8_valid_fuel f2 l.
Proof.
  revert f2 l. induction f1 as [| f1 IH]; intros [| f2] [| b l] H1 H2;
    cbn [length utf8_valid_fuel] in *; try done; try lia.
  destruct (utf8_char_len (b :: l)) as [n |] eqn:E; [| done].
  apply utf8_char_len_bound in E. apply IH; rewrite length_drop; simpl in *; lia.
Qed.

Lemma utf8_valid_cons_ascii b l :
  0 <= b <= 127 -> utf8_valid (b :: l) = utf8_valid l.
Proof.
  intros Hb. unfold utf8_valid. cbn [length utf8_valid_fuel utf8_char_len].
  destruct (Z.leb_spec b 127); [| lia]. done.
Qed.

Lemma utf8_valid_ascii l : Forall (fun b => 0 <= b <= 127) l -> utf8_valid l = true.
Proof. induction 1; [done |]. by rewrite utf8_valid_cons_ascii. Qed.

Lemma utf8_char_len_app l1 l2 n :
  utf8_char_len l1 = Some n -> utf8_char_len (l1 ++ l2) = Some n.
Proof.
  unfold utf8_char_len.
  destruct l1 as [| b0 [| b1 [| b2 [| b3 l]]]]; simpl; intros H; try done;
    repeat (case_match; simplify_eq/=; try done).
Qed.

Lemma utf8_valid_step l n :
  utf8_char_len l = Some n -> utf8_valid l = utf8_valid (drop n l).
Proof.
  intros E. pose proof (utf8_char_len_bound _ _ E). unfold utf8_valid.
  destruct l as [| b l]; [simpl in *; lia |]. cbn [length utf8_valid_fuel]. rewrite E.
  apply utf8_valid_fuel_enough; rewrite length_drop; simpl in *; lia.
Qed.

Lemma utf8_valid_app l1 l2 :
  utf8_valid l1 = true -> utf8_valid l2 = true -> utf8_valid (l1 ++ l2) = true.
Proof.
  intros H1 H2. remember (length l1) as m eqn:Hm.
  revert l1 Hm H1. induction m as [m IH] using lt_wf_ind. intros [| b l1] Hm H1; [done |].
  destruct (utf8_char_len (b :: l1)) as [n |] eqn:E.
  - pose proof (utf8_char_len_bound _ _ E).
    rewrite (utf8_valid_step _ _ E) in H1.
    rewrite (utf8_valid_step _ _ (utf8_char_len_app _ l2 _ E)), drop_app_le by lia.
    eapply IH; [| done | done]. rewrite length_drop. simpl in *. lia.
  - unfold utf8_valid in H1. cbn [length utf8_valid_fuel] in H1. by rewrite E in H1.
Qed.
