(* ===== verification/Text.v ===== *)
(** * Text: the functions of [str] and [char] that the sources call

    A string is its UTF-8 bytes and a character the bytes of its encoding, so
    that every function here is total on any byte list and agrees with the
    standard library on well-formed ones. *)
From stdpp Require Import base list numbers strings.
From Stdlib Require Import ZArith Lia.
From S2P Require Import Prelude.

(** The characters of a UTF-8 string; a byte that starts no character stands
    for itself, which valid strings never need. *)
Fixpoint chars_fuel (fuel : nat) (l : list Z) : list (list Z) :=
  match fuel, l with
  | S fuel', _ :: _ =>
      let n := match utf8_char_len l with Some n => n | None => 1%nat end in
      take n l :: chars_fuel fuel' (drop n l)
  | _, _ => []
  end.
Definition chars (l : list Z) : list (list Z) := chars_fuel (length l) l.

(** [char::is_control]: the categories Cc, U+0000..U+001F and U+007F..U+009F. *)
Definition is_control (ch : list Z) : bool :=
  match ch with
  | [b] => (b <=? 31) || (b =? 127)
  | [b0; b1] => (b0 =? 194) && (b1 <=? 159)
  | _ => false
  end.

(** [char::is_whitespace] (the White_Space property). *)
Definition is_whitespace (ch : list Z) : bool :=
  match ch with
  | [b] => ((9 <=? b) && (b <=? 13)) || (b =? 32)
  | [b0; b1] => (b0 =? 194) && ((b1 =? 133) || (b1 =? 160))
  | [b0; b1; b2] =>
      ((b0 =? 225) && (b1 =? 154) && (b2 =? 128))
      || ((b0 =? 226) && (b1 =? 128)
          && ((b2 <=? 138) || (b2 =? 168) || (b2 =? 169) || (b2 =? 175)))
      || ((b0 =? 226) && (b1 =? 129) && (b2 =? 159))
      || ((b0 =? 227) && (b1 =? 128) && (b2 =? 128))
  | _ => false
  end.

Fixpoint drop_whitespace (cs : list (list Z)) : list (list Z) :=
  match cs with
  | c :: cs' => if is_whitespace c then drop_whitespace cs' else cs
  | [] => []
  end.

(** [str::trim]. *)
Definition trim (l : list Z) : list Z :=
  concat (rev (drop_whitespace (rev (drop_whitespace (chars l))))).

(** [str::lines]: the pieces between newlines, without the carriage return
    before a newline and without a final empty piece. *)
Definition strip_cr (l : list Z) : list Z :=
  match rev l with 13 :: r => rev r | _ => l end.
Definition str_lines (l : list Z) : list (list Z) :=
  let ps := split_on 10 l in
  map strip_cr (removelast ps) ++ (if beq (List.last ps []) [] then [] else [List.last ps []]).

(** [str::find]. *)
Fixpoint find_sub (p l : list Z) : option nat :=
  if starts_with p l then Some 0%nat
  else match l with [] => None | _ :: l' => S <$> find_sub p l' end.

(** The bytes that [String::from_utf8_lossy] replaces at an invalid position:
    the longest prefix that could start a character, or one byte. *)
Definition invalid_len (l : list Z) : nat :=
  match l with
  | b0 :: b1 :: l2 =>
      if ((b0 =? 224) && (160 <=? b1) && (b1 <=? 191))
         || (((225 <=? b0) && (b0 <=? 236)) && cont b1)
         || ((b0 =? 237) && (128 <=? b1) && (b1 <=? 159))
         || (((238 <=? b0) && (b0 <=? 239)) && cont b1)
      then 2%nat
      else if ((b0 =? 240) && (144 <=? b1) && (b1 <=? 191))
              || (((241 <=? b0) && (b0 <=? 243)) && cont b1)
              || ((b0 =? 244) && (128 <=? b1) && (b1 <=? 143))
      then match l2 with b2 :: _ => if cont b2 then 3%nat else 2%nat | [] => 2%nat end
      else 1%nat
  | _ => 1%nat
  end.

Fixpoint lossy_fuel (fuel : nat) (l : list Z) : list Z :=
  match fuel, l with
  | S fuel', _ :: _ =>
      match utf8_char_len l with
      | Some n => take n l ++ lossy_fuel fuel' (drop n l)
      | None => [239; 191; 189] ++ lossy_fuel fuel' (drop (invalid_len l) l)
      end
  | _, _ => []
  end.
Definition from_utf8_lossy (l : list Z) : list Z := lossy_fuel (length l) l.

(** [str::trim_start] and [str::trim_end_matches] for a byte. *)
Definition trim_start (l : list Z) : list Z := concat (drop_whitespace (chars l)).
Fixpoint drop_byte (b : Z) (l : list Z) : list Z :=
  match l with
  | c :: l' => if c =? b then drop_byte b l' else l
  | [] => []
  end.
Definition trim_end_matches (b : Z) (l : list Z) : list Z := rev (drop_byte b (rev l)).

(** [str::split_whitespace]: the maximal runs of other characters. *)
Fixpoint words (cs : list (list Z)) (cur : list Z) : list (list Z) :=
  match cs with
  | [] => if beq cur [] then [] else [cur]
  | c :: cs' =>
      if is_whitespace c then (if beq cur [] then words cs' [] else cur :: words cs' [])
      else words cs' (cur ++ c)
  end.
Definition split_whitespace (l : list Z) : list (list Z) := words (chars l) [].

(** [str::contains], [str::to_ascii_lowercase], [str::replace] of a carriage
    return (before a newline, or alone) by a newline, and the part of a name
    behind its last separator. *)
Definition contains (p l : list Z) : bool :=
  match find_sub p l with Some _ => true | None => false end.
Definition has_byte (b : Z) (l : list Z) : bool := existsb (Z.eqb b) l.
Definition ascii_lower (b : Z) : Z := if (65 <=? b) && (b <=? 90) then b + 32 else b.
Definition to_ascii_lowercase (l : list Z) : list Z := map ascii_lower l.
Fixpoint replace_crlf (l : list Z) : list Z :=
  match l with
  | [] => []
  | b :: l' =>
      match l' with
      | c :: l'' => if (b =? 13) && (c =? 10) then 10 :: replace_crlf l'' else b :: replace_crlf l'
      | [] => [b]
      end
  end.
Definition replace_byte (b c : Z) (l : list Z) : list Z := map (fun x => if x =? b then c else x) l.
(** [str::replace] of a pattern by nothing. *)
Fixpoint remove_fuel (fuel : nat) (p l : list Z) : list Z :=
  match fuel, l with
  | S fuel', b :: l' =>
      if starts_with p l then remove_fuel fuel' p (drop (length p) l) else b :: remove_fuel fuel' p l'
  | _, _ => []
  end.
Definition remove_sub (p l : list Z) : list Z := remove_fuel (length l) p l.
Fixpoint drop_while {A} (f : A -> bool) (l : list A) : list A :=
  match l with
  | x :: l' => if f x then drop_while f l' else l
  | [] => []
  end.
Fixpoint take_while {A} (f : A -> bool) (l : list A) : list A :=
  match l with
  | x :: l' => if f x then x :: take_while f l' else []
  | [] => []
  end.
Definition after_last (sep : Z -> bool) (l : list Z) : list Z :=
  rev (take_while (fun b => negb (sep b)) (rev l)).

(** [slice::join] with a separator. *)
Fixpoint join_with (sep : list Z) (ls : list (list Z)) : list Z :=
  match ls with
  | [] => []
  | [l] => l
  | l :: ls' => l ++ sep ++ join_with sep ls'
  end.

(** A string is one of the listed literals. *)
Definition one_of (l : list Z) (names : list string) : bool := existsb (fun s => beq l (bs s)) names.

(** ** Lemmas on ASCII text *)
#[local] Arguments chars : simpl never.

(** A byte of an ASCII word. *)
Definition word_byte (b : Z) : Prop := 33 <= b <= 126.

Lemma chars_fuel_enough f1 f2 l :
  (length l <= f1)%nat -> (length l <= f2)%nat -> chars_fuel f1 l = chars_fuel f2 l.
Proof.
  revert f2 l. induction f1 as [| f1 IH]; intros [| f2] [| b l] H1 H2;
    cbn [length chars_fuel] in *; try done; try lia.
  f_equal. assert (Hn : (0 < match utf8_char_len (b :: l) with Some n => n | None => 1 end)%nat).
  { destruct (utf8_char_len (b :: l)) eqn:E; [| lia]. apply utf8_char_len_bound in E. lia. }
  apply IH; rewrite length_drop; cbn [length]; lia.
Qed.

Lemma chars_cons_ascii b l : 0 <= b <= 127 -> chars (b :: l) = [b] :: chars l.
Proof.
  intros Hb. unfold chars. cbn [length chars_fuel utf8_char_len].
  destruct (Z.leb_spec b 127); [| lia]. cbn. rewrite take_0, drop_0. done.
Qed.

Lemma whitespace_word b : word_byte b -> is_whitespace [b] = false.
Proof. unfold word_byte, is_whitespace. intros. lia. Qed.

Lemma words_word w cs cur :
  Forall word_byte w -> words (map (fun b => [b]) w ++ cs) cur = words cs (cur ++ w).
Proof.
  revert cur. induction w as [| b w IH]; intros cur Hw; [by rewrite app_nil_r |].
  apply Forall_cons in Hw as [Hb Hw]. cbn [map app words]. rewrite (whitespace_word b Hb), IH by done.
  by rewrite <- app_assoc.
Qed.

Lemma chars_word w l : Forall word_byte w -> chars (w ++ l) = map (fun b => [b]) w ++ chars l.
Proof.
  induction 1 as [| b w Hb _ IH]; [done |]. cbn. rewrite chars_cons_ascii, IH; [done |].
  unfold word_byte in Hb. lia.
Qed.

Lemma split_whitespace_cons w l :
  Forall word_byte w -> w <> [] -> split_whitespace (w ++ 32 :: l) = w :: split_whitespace l.
Proof.
  intros Hw Hne. unfold split_whitespace. rewrite chars_word, words_word by done.
  rewrite chars_cons_ascii by lia. cbn [words is_whitespace app]. cbn.
  unfold beq. by rewrite bool_decide_eq_false_2.
Qed.

Lemma split_whitespace_one w : Forall word_byte w -> w <> [] -> split_whitespace w = [w].
Proof.
  intros Hw Hne. unfold split_whitespace. rewrite <- (app_nil_r w) at 1. rewrite chars_word, words_word by done.
  change (words (chars []) ([] ++ w)) with (if beq w [] then [] else [w]).
  unfold beq. by rewrite bool_decide_eq_false_2.
Qed.

Lemma trim_start_word b l : word_byte b -> Forall (fun c => 0 <= c <= 127) l -> trim_start (b :: l) = b :: l.
Proof.
  intros Hb Hl. unfold trim_start. rewrite chars_cons_ascii by (unfold word_byte in Hb; lia).
  cbn [drop_whitespace]. rewrite (whitespace_word b Hb). cbn. f_equal.
  induction Hl as [| c l Hc _ IH]; [done |]. rewrite chars_cons_ascii by done. cbn. by f_equal.
Qed.

Lemma trim_end_matches_last b l c : c <> b -> trim_end_matches b (l ++ [c]) = l ++ [c].
Proof.
  intros Hc. unfold trim_end_matches. rewrite rev_app_distr. cbn.
  destruct (Z.eqb_spec c b); [done |]. cbn [rev]. by rewrite rev_involutive.
Qed.

(** Lossy decoding keeps ASCII text. *)
Lemma from_utf8_lossy_ascii l : Forall (fun b => 0 <= b <= 127) l -> from_utf8_lossy l = l.
Proof.
  unfold from_utf8_lossy. induction 1 as [| b l Hb _ IH]; [done |].
  cbn [length lossy_fuel utf8_char_len]. destruct (Z.leb_spec b 127); [| lia].
  cbn. rewrite take_0, drop_0. cbn. by f_equal.
Qed.

(** An ASCII byte ends the character before it, so a text can be cut there. *)
Lemma utf8_char_len_ascii_tail a c b :
  a <> [] -> 0 <= c <= 127 -> utf8_char_len (a ++ c :: b) = utf8_char_len a.
Proof.
  intros Ha Hc. assert (cont c = false) by (unfold cont; lia).
  assert (Hlo : (128 <=? c) = false) by lia. assert (H2 : (160 <=? c) = false) by lia.
  assert (H3 : (144 <=? c) = false) by lia.
  destruct a as [| b0 [| b1 [| b2 [| b3 a]]]]; [done | ..]; cbn [app utf8_char_len];
    rewrite ?H, ?Hlo, ?H2, ?H3; cbn [andb]; rewrite ?andb_false_r, ?andb_false_l;
    repeat case_match; try done.
Qed.

Lemma chars_app_ascii a c b :
  0 <= c <= 127 -> chars (a ++ c :: b) = chars a ++ [c] :: chars b.
Proof.
  intros Hc. induction a as [a IH] using (induction_ltof1 _ (@length Z)). unfold ltof in IH.
  destruct a as [| x a]; [by apply chars_cons_ascii |].
  unfold chars at 1 2. cbn [app length chars_fuel].
  change (x :: a ++ c :: b) with ((x :: a) ++ c :: b).
  rewrite utf8_char_len_ascii_tail by done.
  set (n := match utf8_char_len (x :: a) with Some n => n | None => 1%nat end).
  assert (Hn : (0 < n <= length (x :: a))%nat).
  { unfold n. destruct (utf8_char_len (x :: a)) eqn:E; [| cbn; lia].
    by apply utf8_char_len_bound in E. }
  rewrite take_app_le, drop_app_le by lia. cbn [app]. f_equal.
  rewrite (chars_fuel_enough _ (length (drop n (x :: a) ++ c :: b))), (chars_fuel_enough (length a) (length (drop n (x :: a))))
    by (rewrite ?length_app, ?length_drop in *; cbn [length] in *; rewrite ?length_app; cbn [length]; lia).
  apply IH. rewrite length_drop. lia.
Qed.

Lemma concat_chars l : concat (chars l) = l.
Proof.
  unfold chars. assert (H : forall f l, (length l <= f)%nat -> concat (chars_fuel f l) = l).
  { clear l. induction f as [| f IH]; intros [| b l] Hl; cbn [length] in *; try done; try lia.
    cbn [chars_fuel]. set (n := match utf8_char_len (b :: l) with Some n => n | None => 1%nat end).
    assert (Hn : (0 < n)%nat).
    { unfold n. destruct (utf8_char_len (b :: l)) eqn:E; [| lia]. apply utf8_char_len_bound in E. lia. }
    cbn [concat]. rewrite IH; [apply take_drop |]. rewrite length_drop. cbn [length]. lia. }
  by apply H.
Qed.

Lemma chars_nonempty l : Forall (fun c => c <> []) (chars l).
Proof.
  unfold chars. generalize (length l) at 1 as f. intros f. revert l.
  induction f as [| f IH]; intros [| b l]; cbn [chars_fuel]; try done.
  constructor; [| apply IH]. destruct (utf8_char_len (b :: l)) as [[| n] |] eqn:E; try done.
  apply utf8_char_len_bound in E. lia.
Qed.

(** [contains] is being a factor. *)
Lemma starts_with_app p l : starts_with p (p ++ l) = true.
Proof. unfold starts_with. by rewrite strip_prefix_app. Qed.

Lemma contains_spec p l : contains p l = true <-> exists x y, l = x ++ p ++ y.
Proof.
  unfold contains. induction l as [| b l IH]; cbn [find_sub].
  - unfold starts_with. destruct (strip_prefix p []) as [r |] eqn:E.
    + apply strip_prefix_Some in E. split; [| done]. intros _. by exists [], r.
    + split; [done |]. intros (x & y & H). symmetry in H. apply app_nil in H as [-> H].
      apply app_nil in H as [-> ->]. done.
  - unfold starts_with at 1. destruct (strip_prefix p (b :: l)) as [r |] eqn:E.
    + apply strip_prefix_Some in E. split; [| done]. intros _. by exists [], r.
    + transitivity (exists x y, l = x ++ p ++ y).
      { rewrite <- IH. by destruct (find_sub p l). }
      split; intros (x & y & H).
      * exists (b :: x), y. by rewrite H.
      * destruct x as [| x0 x]; [| injection H as -> H; by exists x, y].
        cbn in H. rewrite H in E. by rewrite strip_prefix_app in E.
Qed.

Lemma contains_app p l a b : contains p l = true -> contains p (a ++ l ++ b) = true.
Proof.
  rewrite !contains_spec. intros (x & y & ->). exists (a ++ x), (y ++ b). by rewrite <- !app_assoc.
Qed.

Lemma one_of_In l names : one_of l names = true <-> In l (map bs names).
Proof.
  unfold one_of. rewrite existsb_exists, in_map_iff. split.
  - intros (s & Hs & E). apply beq_true in E. by exists s.
  - intros (s & <- & Hs). exists s. by rewrite beq_refl.
Qed.

(** A text that [trim] keeps neither starts nor ends with white space. *)
Definition clen (cs : list (list Z)) : nat := length (concat cs).

Lemma clen_app a b : clen (a ++ b) = (clen a + clen b)%nat.
Proof. unfold clen. by rewrite concat_app, length_app. Qed.

Lemma clen_rev cs : clen (rev cs) = clen cs.
Proof.
  induction cs as [| c cs IH]; [done |]. cbn [rev]. rewrite clen_app, IH.
  change (c :: cs) with ([c] ++ cs). rewrite clen_app. lia.
Qed.

Lemma clen_drop_whitespace cs : (clen (drop_whitespace cs) <= clen cs)%nat.
Proof.
  induction cs as [| c cs IH]; [done |]. cbn [drop_whitespace]. case_match; [| done].
  change (c :: cs) with ([c] ++ cs). rewrite clen_app. lia.
Qed.

Definition no_leading_space (cs : list (list Z)) : Prop :=
  exists c cs', cs = c :: cs' /\ is_whitespace c = false.

Lemma drop_whitespace_fixed cs :
  Forall (fun c => c <> []) cs -> clen (drop_whitespace cs) = clen cs -> cs <> [] -> no_leading_space cs.
Proof.
  intros Hne E Hcs. destruct cs as [| c cs]; [done |]. exists c, cs. split; [done |].
  destruct (is_whitespace c) eqn:W; [| done]. cbn [drop_whitespace] in E. rewrite W in E.
  apply Forall_cons in Hne as [Hc _]. pose proof (clen_drop_whitespace cs) as H.
  change (c :: cs) with ([c] ++ cs) in E. rewrite clen_app in E. unfold clen at 2 in E. cbn in E.
  rewrite app_nil_r in E. destruct c; [done |]. cbn in E. lia.
Qed.

Lemma drop_whitespace_keep cs r : no_leading_space cs -> drop_whitespace (cs ++ r) = cs ++ r.
Proof. intros (c & cs' & -> & W). cbn. by rewrite W. Qed.

Lemma trim_fixed a : trim a = a -> a <> [] ->
  no_leading_space (chars a) /\ no_leading_space (rev (chars a)).
Proof.
  intros E Ha. unfold trim in E. apply (f_equal length) in E.
  fold (clen (rev (drop_whitespace (rev (drop_whitespace (chars a)))))) in E.
  assert (Hc : clen (chars a) = length a) by (unfold clen; by rewrite concat_chars).
  assert (Hn : chars a <> []) by (intros H; apply Ha; rewrite <- (concat_chars a), H; done).
  assert (H1 : clen (drop_whitespace (chars a)) = clen (chars a)).
  { pose proof (clen_drop_whitespace (chars a)). rewrite clen_rev in E.
    pose proof (clen_drop_whitespace (rev (drop_whitespace (chars a)))). rewrite clen_rev in H0. lia. }
  pose proof (drop_whitespace_fixed _ (chars_nonempty a) H1 Hn) as Hf. split; [done |].
  assert (Hd : drop_whitespace (chars a) = chars a).
  { rewrite <- (app_nil_r (chars a)). by apply drop_whitespace_keep. }
  rewrite Hd in E. apply drop_whitespace_fixed.
  - apply Forall_rev, chars_nonempty.
  - rewrite clen_rev in *. lia.
  - intros H. apply Hn. by rewrite <- (rev_involutive (chars a)), H.
Qed.

Lemma trim_join a m b :
  trim a = a -> trim b = b -> a <> [] -> b <> [] ->
  trim (a ++ 32 :: m ++ 32 :: b) = a ++ 32 :: m ++ 32 :: b.
Proof.
  intros Ha Hb Na Nb. destruct (trim_fixed a Ha Na) as [H1 _]. destruct (trim_fixed b Hb Nb) as [_ H2].
  unfold trim. rewrite <- (concat_chars (a ++ 32 :: m ++ 32 :: b)) at 2.
  rewrite (chars_app_ascii a), (chars_app_ascii m) by lia.
  rewrite drop_whitespace_keep by done. f_equal.
  set (ca := chars a) in *. set (cm := chars m). set (cb := chars b) in *.
  assert (E : ca ++ [32] :: cm ++ [32] :: cb = (ca ++ [32] :: cm ++ [[32]]) ++ cb)
    by (rewrite <- app_assoc; cbn; by rewrite <- app_assoc).
  rewrite E, rev_app_distr, drop_whitespace_keep by done.
  by rewrite <- rev_app_distr, rev_involutive.
Qed.

Lemma trim_keep l : no_leading_space (chars l) -> no_leading_space (rev (chars l)) -> trim l = l.
Proof.
  intros H1 H2. unfold trim.
  assert (E : forall cs, no_leading_space cs -> drop_whitespace cs = cs).
  { intros cs H. rewrite <- (app_nil_r cs). by apply drop_whitespace_keep. }
  by rewrite (E (chars l)), (E (rev (chars l))), rev_involutive, concat_chars.
Qed.

Lemma replace_byte_id b c l : ~ In b l -> replace_byte b c l = l.
Proof.
  unfold replace_byte. induction l as [| x l IH]; [done |]. cbn. intros H.
  destruct (Z.eqb_spec x b) as [-> |]; [exfalso; auto |]. f_equal. auto.
Qed.

Lemma replace_crlf_id l : ~ In 13 l -> replace_crlf l = l.
Proof.
  induction l as [| x l IH]; [done |]. cbn [In]. intros H. cbn [replace_crlf]. destruct l as [| y l]; [done |].
  destruct (Z.eqb_spec x 13) as [-> |]; [exfalso; auto |]. cbn [andb]. f_equal. auto.
Qed.
