(* ===== verification/Boundary.v ===== *)
(** Character boundaries of UTF-8 text: where a string may be cut, and the
    nearest boundary at or before an index, which the output store, the editors
    and the document model all compute by stepping back. *)
From stdpp Require Import base list numbers strings.
From Stdlib Require Import ZArith Lia.
From S2P Require Import Prelude Text.

(** ** Stepping back to a boundary *)
Fixpoint floor_loop (text : list Z) (index : nat) : nat :=
  match index with
  | O => O
  | S i => if is_char_boundary text index then index else floor_loop text i
  end.

(** [boundary_at_or_before]: clamp to the text, then step back. *)
Definition floor_boundary (text : list Z) (index : nat) : nat :=
  floor_loop text (Nat.min index (length text)).

(** ** Characters of valid text *)
Lemma utf8_char_len_4 l n : utf8_char_len l = Some n -> (n <= 4)%nat.
Proof.
  unfold utf8_char_len. intros H. repeat case_match; simplify_eq; lia.
Qed.

Lemma utf8_char_len_head l n : utf8_char_len l = Some n -> exists b, l !! 0%nat = Some b /\ cont b = false.
Proof.
  unfold utf8_char_len. intros H. destruct l as [| b0 l]; [done |]. exists b0. split; [done |].
  unfold cont. destruct (Z.leb_spec b0 127); [lia |]. destruct (Z.leb_spec b0 191); [| lia].
  exfalso. repeat case_match; simplify_eq; bool_to_prop; lia.
Qed.

Lemma utf8_char_len_tail l n j :
  utf8_char_len l = Some n -> (0 < j < n)%nat -> exists b, l !! j = Some b /\ cont b = true.
Proof.
  intros H Hj. pose proof (utf8_char_len_4 _ _ H) as H4. unfold utf8_char_len in H.
  destruct l as [| b0 [| b1 [| b2 [| b3 l]]]]; cbn in *; try done;
    destruct j as [| [| [| [| j]]]]; try lia; cbn;
    repeat case_match; simplify_eq; try lia; eexists; (split; [reflexivity |]);
    unfold cont in *; bool_to_prop; lia.
Qed.

Lemma utf8_char_len_take l n : utf8_char_len l = Some n -> utf8_char_len (take n l) = Some n.
Proof.
  intros H. pose proof (utf8_char_len_bound _ _ H) as Hn. rewrite <- H. rewrite <- (take_drop n l) in H.
  rewrite <- (take_drop n l) at 2. revert H Hn. generalize (drop n l) as r. intros r H Hn.
  assert (Hl : length (take n l) = n) by (rewrite length_take; lia). revert Hl H. generalize (take n l) as t.
  intros t Hl H. rewrite H. clear Hn l. unfold utf8_char_len in *.
  destruct t as [| b0 [| b1 [| b2 [| b3 [| b4 t]]]]]; cbn in Hl; subst n; cbn [app] in H;
    repeat (case_match; simplify_eq); try done.
Qed.

Lemma utf8_valid_ind (P : list Z -> Prop) :
  P [] ->
  (forall l n, utf8_char_len l = Some n -> utf8_valid (drop n l) = true -> P (drop n l) -> P l) ->
  forall l, utf8_valid l = true -> P l.
Proof.
  intros H0 HS l. induction l as [l IH] using (induction_ltof1 _ (@length Z)). unfold ltof in IH. intros Hv.
  destruct l as [| b l]; [done |]. destruct (utf8_char_len (b :: l)) as [n |] eqn:E.
  - pose proof (utf8_char_len_bound _ _ E) as Hb. rewrite (utf8_valid_step _ _ E) in Hv.
    apply (HS _ n E Hv). apply IH; [| done]. rewrite length_drop. lia.
  - unfold utf8_valid in Hv. cbn [length utf8_valid_fuel] in Hv. by rewrite E in Hv.
Qed.

Lemma boundary_0 l : is_char_boundary l 0 = true.
Proof. unfold is_char_boundary. by destruct l. Qed.

Lemma boundary_length l : is_char_boundary l (length l) = true.
Proof. unfold is_char_boundary. rewrite lookup_ge_None_2 by lia. apply Nat.eqb_refl. Qed.

Lemma boundary_le l i : is_char_boundary l i = true -> (i <= length l)%nat.
Proof.
  unfold is_char_boundary. destruct (l !! i) eqn:E; [apply lookup_lt_Some in E; lia |].
  intros H%Nat.eqb_eq. lia.
Qed.

(** Inside a character there is no boundary; behind it, boundaries are those of
    the rest. *)
Lemma boundary_inside l n i :
  utf8_char_len l = Some n -> (0 < i < n)%nat -> is_char_boundary l i = false.
Proof.
  intros E Hi. destruct (utf8_char_len_tail l n i E Hi) as (b & Hb & Hc). unfold is_char_boundary.
  rewrite Hb, Hc. destruct (Nat.eqb_spec i 0); [lia | done].
Qed.

Lemma valid_head l : utf8_valid l = true -> l <> [] -> exists b, l !! 0%nat = Some b /\ cont b = false.
Proof.
  intros Hv Hl. destruct l as [| b l]; [done |]. destruct (utf8_char_len (b :: l)) as [n |] eqn:E.
  - by apply utf8_char_len_head in E.
  - unfold utf8_valid in Hv. cbn [length utf8_valid_fuel] in Hv. by rewrite E in Hv.
Qed.

Lemma boundary_behind l n i :
  (0 < n <= length l)%nat -> utf8_valid (drop n l) = true ->
  is_char_boundary l (n + i) = is_char_boundary (drop n l) i.
Proof.
  intros Hn Hv. unfold is_char_boundary. rewrite lookup_drop, length_drop.
  destruct (l !! (n + i)%nat) as [b |] eqn:E.
  - destruct (Nat.eqb_spec (n + i) 0); [lia |]. destruct (Nat.eqb_spec i 0) as [-> |]; [| done].
    rewrite Nat.add_0_r in E. cbn. destruct (valid_head (drop n l) Hv) as (b' & Hb' & Hc).
    + intros H%(f_equal length). rewrite length_drop in H. cbn in H. apply lookup_lt_Some in E. lia.
    + rewrite lookup_drop, Nat.add_0_r in Hb'. simplify_eq. by rewrite Hc.
  - destruct (Nat.eqb_spec (n + i) (length l)), (Nat.eqb_spec i (length l - n)); try done; lia.
Qed.

(** Cutting at a boundary leaves two valid texts. *)
Lemma boundary_cut l i :
  utf8_valid l = true -> is_char_boundary l i = true ->
  utf8_valid (take i l) = true /\ utf8_valid (drop i l) = true.
Proof.
  intros Hv. revert i. revert l Hv. refine (utf8_valid_ind _ _ _); [| intros l n E Hv' IH]; intros i Hi.
  { by rewrite take_nil, drop_nil. }
  pose proof (utf8_char_len_bound _ _ E) as Hn.
  destruct (decide (i = 0%nat)) as [-> |].
  { rewrite take_0, drop_0. split; [done |]. by rewrite (utf8_valid_step _ _ E). }
  destruct (decide (i < n)%nat).
  { rewrite (boundary_inside l n i) in Hi by (done || lia). done. }
  replace i with (n + (i - n))%nat in * by lia. rewrite boundary_behind in Hi by done.
  destruct (IH _ Hi) as [H1 H2]. rewrite <- take_take_drop, <- drop_drop. split; [| done].
  apply utf8_valid_app; [| done].
  pose proof (utf8_char_len_take _ _ E) as Et.
  rewrite (utf8_valid_step _ _ Et), drop_ge; [done |]. rewrite length_take. lia.
Qed.

Lemma boundary_app a b :
  utf8_valid b = true -> is_char_boundary (a ++ b) (length a) = true.
Proof.
  intros Hb. destruct b as [| x b]; [rewrite app_nil_r; apply boundary_length |].
  destruct (valid_head (x :: b) Hb) as (y & Hy & Hc); [done |]. unfold is_char_boundary.
  rewrite lookup_app_r, Nat.sub_diag, Hy, Hc by lia. by rewrite orb_true_r.
Qed.

(** ** The nearest boundary *)
Lemma floor_loop_spec l i :
  (floor_loop l i <= i)%nat /\ is_char_boundary l (floor_loop l i) = true
  /\ forall j, (floor_loop l i < j <= i)%nat -> is_char_boundary l j = false.
Proof.
  induction i as [| i (H1 & H2 & H3)]; cbn [floor_loop].
  { split_and!; [lia | apply boundary_0 | lia]. }
  destruct (is_char_boundary l (S i)) eqn:E; [split_and!; [lia | done | lia] |].
  split_and!; [lia | done |]. intros j Hj. destruct (decide (j = S i)) as [-> |]; [done |]. apply H3. lia.
Qed.

Lemma floor_boundary_spec l i :
  (floor_boundary l i <= i)%nat /\ is_char_boundary l (floor_boundary l i) = true
  /\ forall j, is_char_boundary l j = true -> (j <= i)%nat -> (j <= floor_boundary l i)%nat.
Proof.
  unfold floor_boundary. destruct (floor_loop_spec l (Nat.min i (length l))) as (H1 & H2 & H3).
  split_and!; [lia | done |]. intros j Hj Hi. apply boundary_le in Hj as Hl.
  destruct (decide (j <= floor_loop l (Nat.min i (length l)))%nat); [done |].
  rewrite H3 in Hj by lia. done.
Qed.

Lemma floor_boundary_id l i : is_char_boundary l i = true -> floor_boundary l i = i.
Proof.
  intros H. destruct (floor_boundary_spec l i) as (H1 & _ & H3). specialize (H3 i H). lia.
Qed.

(** A boundary is never more than one character back. *)
Lemma floor_boundary_progress l o r :
  utf8_valid l = true -> is_char_boundary l o = true -> (o < length l)%nat -> (4 <= r)%nat ->
  (o < floor_boundary l (o + r))%nat.
Proof.
  intros Hv Ho Hlt Hr. destruct (boundary_cut l o Hv Ho) as [_ Hd].
  destruct (drop o l) as [| b d] eqn:Ed.
  { apply (f_equal length) in Ed. rewrite length_drop in Ed. cbn in Ed. lia. }
  destruct (utf8_char_len (b :: d)) as [n |] eqn:E.
  2: { unfold utf8_valid in Hd. cbn [length utf8_valid_fuel] in Hd. by rewrite E in Hd. }
  pose proof (utf8_char_len_bound _ _ E) as Hn. pose proof (utf8_char_len_4 _ _ E).
  assert (Hb : is_char_boundary l (o + n) = true).
  { rewrite <- (take_drop o l), Ed. rewrite <- (take_drop n (b :: d)), app_assoc.
    replace (o + n)%nat with (length (take o l ++ take n (b :: d)))
      by (rewrite length_app, !length_take; lia).
    apply boundary_app. by rewrite <- (utf8_valid_step _ _ E). }
  destruct (floor_boundary_spec l (o + r)) as (_ & _ & H3). specialize (H3 _ Hb). lia.
Qed.

(** ** The characters of the text and its boundaries *)
#[local] Arguments chars : simpl never.

Lemma chars_step l n : utf8_char_len l = Some n -> chars l = take n l :: chars (drop n l).
Proof.
  intros E. pose proof (utf8_char_len_bound _ _ E) as Hn. destruct l as [| b l]; [done |].
  unfold chars at 1. cbn [length chars_fuel]. rewrite E. f_equal. apply chars_fuel_enough; [| done].
  rewrite length_drop. cbn [length] in *. lia.
Qed.

(** Boundaries are exactly the sums of the lengths of some first characters. *)
Lemma boundary_nth l k :
  utf8_valid l = true -> is_char_boundary l (clen (take k (chars l))) = true.
Proof.
  intros Hv. revert k. revert l Hv. refine (utf8_valid_ind _ _ _); [| intros l n E Hv IH]; intros k.
  { change (chars []) with (@nil (list Z)). by rewrite take_nil. }
  pose proof (utf8_char_len_bound _ _ E) as Hn. rewrite (chars_step l n E).
  destruct k as [| k]; [apply boundary_0 |]. unfold clen. cbn [take concat]. rewrite length_app, length_take, Nat.min_l by lia.
  rewrite boundary_behind by done. apply IH.
Qed.

Lemma boundary_index l i :
  utf8_valid l = true -> is_char_boundary l i = true ->
  exists k, (k <= length (chars l))%nat /\ i = clen (take k (chars l)).
Proof.
  intros Hv. revert i. revert l Hv. refine (utf8_valid_ind _ _ _); [| intros l n E Hv IH]; intros i Hi.
  { apply boundary_le in Hi. exists 0%nat. split; [lia |]. destruct i; [done | cbn in Hi; lia]. }
  pose proof (utf8_char_len_bound _ _ E) as Hn. destruct (decide (i = 0)%nat) as [-> | Hne].
  { exists 0%nat. split; [lia | done]. }
  destruct (decide (i < n)%nat); [rewrite (boundary_inside l n i E) in Hi by lia; done |].
  replace i with (n + (i - n))%nat in Hi by lia. rewrite boundary_behind in Hi by done.
  destruct (IH _ Hi) as (k & Hk & Ek). exists (S k). rewrite (chars_step l n E). split; [cbn; lia |].
  unfold clen in *. cbn [take concat]. rewrite length_app, length_take. lia.
Qed.

Lemma chars_take_drop l k :
  utf8_valid l = true ->
  chars (take (clen (take k (chars l))) l) = take k (chars l)
  /\ chars (drop (clen (take k (chars l))) l) = drop k (chars l).
Proof.
  intros Hv. revert k. revert l Hv. refine (utf8_valid_ind _ _ _); [| intros l n E Hv IH]; intros k.
  { change (chars []) with (@nil (list Z)). by rewrite !take_nil, !drop_nil. }
  pose proof (utf8_char_len_bound _ _ E) as Hn. rewrite (chars_step l n E).
  destruct k as [| k]; [unfold clen; cbn [take concat length drop]; rewrite take_0, drop_0; split; [done | by apply chars_step] |].
  unfold clen. cbn [take drop concat]. rewrite length_app, length_take, Nat.min_l by lia.
  destruct (IH k) as [IH1 IH2]. rewrite <- drop_drop. split; [| exact IH2].
  set (m := length (concat (take k (chars (drop n l))))) in *.
  assert (E' : utf8_char_len (take (n + m) l) = Some n).
  { rewrite <- (take_drop n (take (n + m) l)). apply utf8_char_len_app.
    rewrite take_take, Nat.min_l by lia. by apply utf8_char_len_take. }
  rewrite (chars_step _ _ E'). rewrite take_take, Nat.min_l by lia. f_equal.
  rewrite skipn_firstn_comm. replace (n + m - n)%nat with m by lia. exact IH1.
Qed.

Lemma chars_app a b : utf8_valid a = true -> chars (a ++ b) = chars a ++ chars b.
Proof.
  intros Hv. revert a Hv. refine (utf8_valid_ind _ _ _); [done |]. intros a n E _ IH.
  pose proof (utf8_char_len_bound _ _ E) as Hn. rewrite (chars_step a n E).
  rewrite (chars_step _ _ (utf8_char_len_app _ b _ E)), take_app_le, drop_app_le by lia. cbn. by rewrite IH.
Qed.

(** ** Valid text from valid characters *)
Lemma chars_valid l : utf8_valid l = true -> Forall (fun c => utf8_valid c = true) (chars l).
Proof.
  intros Hv. revert l Hv. refine (utf8_valid_ind _ _ _); [constructor |]. intros l n E _ IH.
  rewrite (chars_step l n E). constructor; [| done].
  rewrite (utf8_valid_step _ _ (utf8_char_len_take _ _ E)), drop_ge; [done |]. rewrite length_take. lia.
Qed.

Lemma concat_valid cs : Forall (fun c => utf8_valid c = true) cs -> utf8_valid (concat cs) = true.
Proof. induction 1; [done |]. by apply utf8_valid_app. Qed.

Lemma drop_whitespace_suffix cs : exists n, drop_whitespace cs = drop n cs.
Proof.
  induction cs as [| c cs [n IH]]; [by exists 0%nat |]. cbn [drop_whitespace].
  destruct (is_whitespace c); [by exists (S n) | by exists 0%nat].
Qed.

Lemma trim_start_valid l : utf8_valid l = true -> utf8_valid (trim_start l) = true.
Proof.
  intros Hv. unfold trim_start. destruct (drop_whitespace_suffix (chars l)) as [n ->].
  by apply concat_valid, Forall_drop, chars_valid.
Qed.

Lemma trim_valid l : utf8_valid l = true -> utf8_valid (trim l) = true.
Proof.
  intros Hv. unfold trim. destruct (drop_whitespace_suffix (chars l)) as [n ->].
  destruct (drop_whitespace_suffix (rev (drop n (chars l)))) as [m ->].
  apply concat_valid, Forall_rev, Forall_drop, Forall_rev, Forall_drop. by apply chars_valid.
Qed.

Lemma trim_start_length l : (length (trim_start l) <= length l)%nat.
Proof.
  unfold trim_start. change (length (concat ?x)) with (clen x).
  pose proof (clen_drop_whitespace (chars l)) as H. unfold clen at 2 in H. by rewrite concat_chars in H.
Qed.

(** A function that passes non-ASCII bytes through keeps text valid as soon as it
    does so at ASCII bytes. *)
Lemma utf8_high_bytes l n j b :
  utf8_char_len l = Some n -> (2 <= n)%nat -> (j < n)%nat -> l !! j = Some b -> 128 <= b.
Proof.
  intros E Hn Hj Hb. destruct (decide (j = 0)%nat) as [-> |].
  - destruct l as [| b0 l]; [done |]. cbn in Hb. simplify_eq. unfold utf8_char_len in E.
    destruct (Z.leb_spec b 127); [simplify_eq; lia | lia].
  - destruct (utf8_char_len_tail l n j E ltac:(lia)) as (b' & Hb' & Hc). rewrite Hb in Hb'. simplify_eq.
    unfold cont in Hc. lia.
Qed.

Section Ascii.
Context (f : list Z -> list Z) (Hnil : f [] = []) (Hhigh : forall b l, 128 <= b -> f (b :: l) = b :: f l).
Context (Hlow : forall b l,
  b <= 127 -> utf8_valid l = true ->
  (forall l', (length l' <= length l)%nat -> utf8_valid l' = true -> utf8_valid (f l') = true) ->
  utf8_valid (f (b :: l)) = true).

Lemma pass_high a l : Forall (fun b => 128 <= b) a -> f (a ++ l) = a ++ f l.
Proof. induction 1 as [| b a Hb _ IH]; [done |]. cbn. by rewrite Hhigh, IH. Qed.

Lemma pass_valid l : utf8_valid l = true -> utf8_valid (f l) = true.
Proof.
  induction l as [l IH] using (induction_ltof1 _ (@length Z)). unfold ltof in IH. intros Hv.
  destruct l as [| b l]; [by rewrite Hnil |]. destruct (utf8_char_len (b :: l)) as [n |] eqn:E;
    [| unfold utf8_valid in Hv; cbn [length utf8_valid_fuel] in Hv; by rewrite E in Hv].
  pose proof (utf8_char_len_bound _ _ E) as Hn. rewrite (utf8_valid_step _ _ E) in Hv.
  destruct (decide (n = 1)%nat) as [-> |].
  - cbn [drop] in Hv. rewrite drop_0 in Hv. apply Hlow; [| done | intros l' Hl'; apply IH; cbn; lia].
    unfold utf8_char_len in E. destruct (Z.leb_spec b 127); [done |]. repeat case_match; simplify_eq; lia.
  - rewrite <- (take_drop n (b :: l)), pass_high.
    + rewrite (utf8_valid_step _ _ (utf8_char_len_app _ _ _ (utf8_char_len_take _ _ E))).
      rewrite drop_app_length' by (rewrite length_take; lia). apply IH; [| done]. rewrite length_drop. lia.
    + apply Forall_lookup. intros j x Hj. apply lookup_take_Some in Hj as [Hj Hlt].
      by apply (utf8_high_bytes (b :: l) n j x E ltac:(lia)).
Qed.
End Ascii.

Lemma trim_length l : (length (trim l) <= length l)%nat.
Proof.
  unfold trim. change (length (concat ?x)) with (clen x). rewrite clen_rev.
  etrans; [apply clen_drop_whitespace |]. rewrite clen_rev. etrans; [apply clen_drop_whitespace |].
  unfold clen. by rewrite concat_chars.
Qed.

(** ** Replacements keep text valid *)
Lemma utf8_valid_cons_low b l : b <= 127 -> utf8_valid (b :: l) = utf8_valid l.
Proof.
  intros Hb. rewrite (utf8_valid_step (b :: l) 1); [cbn [drop]; by rewrite drop_0 |].
  cbn. by destruct (Z.leb_spec b 127); [| lia].
Qed.

Lemma utf8_valid_app_low a l : Forall (fun b => b <= 127) a -> utf8_valid (a ++ l) = utf8_valid l.
Proof. induction 1; [done |]. cbn [app]. by rewrite utf8_valid_cons_low. Qed.

Lemma replace_byte_valid b c l : b <= 127 -> c <= 127 -> utf8_valid l = true -> utf8_valid (replace_byte b c l) = true.
Proof.
  intros Hb Hc. apply pass_valid; [done | |].
  - intros x r Hx. unfold replace_byte. cbn [map]. by destruct (Z.eqb_spec x b); [lia |].
  - intros x r Hx Hv IH. unfold replace_byte. cbn [map].
    rewrite utf8_valid_cons_low by (case_match; lia). by apply IH.
Qed.

Lemma replace_crlf_valid l : utf8_valid l = true -> utf8_valid (replace_crlf l) = true.
Proof.
  apply pass_valid; [done | |].
  - intros x r Hx. cbn [replace_crlf]. destruct r; [done |]. by destruct (Z.eqb_spec x 13); [lia |].
  - intros x r Hx Hv IH. cbn [replace_crlf]. destruct r as [| y r]; [by rewrite utf8_valid_cons_low |].
    destruct ((x =? 13) && (y =? 10)) eqn:E; rewrite utf8_valid_cons_low by lia; [| by apply IH].
    apply andb_true_iff in E as [_ ->%Z.eqb_eq]. apply IH; [cbn; lia |]. by rewrite utf8_valid_cons_low in Hv.
Qed.

Lemma remove_fuel_enough f1 f2 p l :
  p <> [] -> (length l <= f1)%nat -> (length l <= f2)%nat -> remove_fuel f1 p l = remove_fuel f2 p l.
Proof.
  intros Hp. revert f2 l. induction f1 as [| f1 IH]; intros [| f2] [| b l] H1 H2; cbn [length remove_fuel] in *;
    try done; try lia.
  destruct p; [done |]. case_match; [apply IH; cbn [drop length]; rewrite length_drop; lia |]. f_equal. apply IH; lia.
Qed.

Lemma remove_sub_cons p b l :
  p <> [] ->
  remove_sub p (b :: l) = if starts_with p (b :: l) then remove_sub p (drop (length p) (b :: l)) else b :: remove_sub p l.
Proof.
  intros Hp. unfold remove_sub at 1. cbn [length remove_fuel]. case_match; [| done].
  apply remove_fuel_enough; [done | | done]. destruct p; [done |]. cbn [drop length]. rewrite length_drop. lia.
Qed.

(** A pattern of ASCII characters. *)
Lemma remove_sub_valid p l :
  p <> [] -> Forall (fun b => b <= 127) p -> utf8_valid l = true -> utf8_valid (remove_sub p l) = true.
Proof.
  intros Hp Ha. apply pass_valid; [done | |].
  - intros b r Hb. rewrite remove_sub_cons by done. destruct p as [| x p]; [done |].
    apply Forall_cons in Ha as [Hx _]. unfold starts_with. cbn [strip_prefix].
    by destruct (Z.eqb_spec x b); [lia |].
  - intros b r Hb Hv IH. rewrite remove_sub_cons by done. destruct (starts_with p (b :: r)) eqn:E.
    + apply IH.
      * destruct p; [done |]. cbn [drop length]. rewrite length_drop. lia.
      * unfold starts_with in E. destruct (strip_prefix p (b :: r)) as [q |] eqn:Eq; [| done].
        apply strip_prefix_Some in Eq. rewrite Eq, drop_app_length.
        assert (Hv' : utf8_valid (b :: r) = true) by (by rewrite utf8_valid_cons_low).
        by rewrite Eq, utf8_valid_app_low in Hv'.
    + rewrite utf8_valid_cons_low by done. by apply IH.
Qed.

(** A match of valid text lies at a boundary. *)
Lemma find_sub_drop p l pos : find_sub p l = Some pos -> exists y, drop pos l = p ++ y.
Proof.
  revert pos. induction l as [| b l IH]; intros pos; cbn [find_sub]; unfold starts_with.
  - destruct (strip_prefix p []) as [r |] eqn:E; [| done]. intros [= <-]. apply strip_prefix_Some in E. by exists r.
  - destruct (strip_prefix p (b :: l)) as [r |] eqn:E; [intros [= <-]; apply strip_prefix_Some in E; by exists r |].
    destruct (find_sub p l) as [q |]; [| done]. intros [= <-]. by apply IH.
Qed.

Lemma find_sub_valid p l pos :
  p <> [] -> utf8_valid p = true -> utf8_valid l = true -> find_sub p l = Some pos -> utf8_valid (drop pos l) = true.
Proof.
  intros Hp Hvp Hvl E. apply find_sub_drop in E as [y E]. apply (boundary_cut l pos Hvl).
  destruct (valid_head p Hvp Hp) as (b & Hb & Hc). unfold is_char_boundary.
  assert (Hl : l !! pos = Some b).
  { replace (l !! pos) with (drop pos l !! 0%nat) by (rewrite lookup_drop; f_equal; lia).
    rewrite E. by destruct p. }
  rewrite Hl, Hc. apply orb_true_r.
Qed.
