(* ===== verification/CharOffsets.v ===== *)
(** Byte offsets of characters: the text as the list of its characters, the
    offset of the k-th one, and the number of characters wholly before an
    offset. The editors keep byte offsets and are specified in characters. *)
From stdpp Require Import base list numbers strings.
From Stdlib Require Import ZArith Lia.
From S2P Require Import Prelude Text Boundary.

#[local] Arguments chars : simpl never.
#[local] Arguments clen : simpl never.

(** ** Slicing *)
(** Slicing a string, which panics inside a character. *)
Definition slice_to (l : list Z) (i : nat) : option (list Z) :=
  if is_char_boundary l i then Some (take i l) else None.
Definition slice_from (l : list Z) (i : nat) : option (list Z) :=
  if is_char_boundary l i then Some (drop i l) else None.

(** [String::replace_range]: both ends on boundaries and in order. *)
Definition replace_range (start stop : nat) (text l : list Z) : option (list Z) :=
  if is_char_boundary l start && is_char_boundary l stop && (start <=? stop)%nat
  then Some (take start l ++ text ++ drop stop l) else None.

(** ** Offsets *)
Definition offset (cs : list (list Z)) (k : nat) : nat := clen (take k cs).

(** The characters that lie wholly before a byte offset. *)
Fixpoint whole_chars (cs : list (list Z)) (n : nat) : nat :=
  match cs with
  | c :: cs' => if (length c <=? n)%nat then S (whole_chars cs' (n - length c)) else O
  | [] => O
  end.

(** ** Offsets of characters *)
Lemma offset_0 cs : offset cs 0 = 0%nat.
Proof. done. Qed.

Lemma offset_S c cs k : offset (c :: cs) (S k) = (length c + offset cs k)%nat.
Proof. unfold offset, clen. cbn [take concat]. by rewrite length_app. Qed.

Lemma offset_nth cs k c : cs !! k = Some c -> offset cs (S k) = (offset cs k + length c)%nat.
Proof.
  revert k. induction cs as [| d cs IH]; intros [| k] E; cbn in E; simplify_eq.
  - rewrite offset_S, !offset_0. lia.
  - rewrite !offset_S, (IH _ E). lia.
Qed.

Lemma offset_all cs : offset cs (length cs) = clen cs.
Proof. unfold offset. by rewrite firstn_all. Qed.

Section Offsets.
Context (cs : list (list Z)) (Hcs : Forall (fun c => c <> []) cs).

Lemma offset_lt i j : (i < j <= length cs)%nat -> (offset cs i < offset cs j)%nat.
Proof.
  intros [Hij Hj]. revert i Hij. induction j as [| j IH]; intros i Hij; [lia |].
  destruct (lookup_lt_is_Some_2 cs j) as [c Ec]; [lia |]. rewrite (offset_nth _ _ _ Ec).
  assert (Hc : c <> []) by (eapply Forall_lookup_1 in Hcs; eauto). destruct c; [done |]. cbn [length].
  destruct (decide (i = j)) as [-> |]; [lia |]. specialize (IH ltac:(lia) i ltac:(lia)). lia.
Qed.

Lemma offset_le i j : (i <= j <= length cs)%nat -> (offset cs i <= offset cs j)%nat.
Proof. intros H. destruct (decide (i = j)) as [-> |]; [lia |]. pose proof (offset_lt i j). lia. Qed.

Lemma offset_inj i j :
  (i <= length cs)%nat -> (j <= length cs)%nat -> offset cs i = offset cs j -> i = j.
Proof.
  intros Hi Hj E. destruct (lt_eq_lt_dec i j) as [[H | H] | H]; [| done |].
  - pose proof (offset_lt i j). lia.
  - pose proof (offset_lt j i). lia.
Qed.

Lemma offset_ltb i j :
  (i <= length cs)%nat -> (j <= length cs)%nat -> (offset cs i <? offset cs j)%nat = (i <? j)%nat.
Proof.
  intros Hi Hj. destruct (Nat.ltb_spec i j).
  - apply Nat.ltb_lt, offset_lt. lia.
  - apply Nat.ltb_ge, offset_le. lia.
Qed.

Lemma offset_leb i j :
  (i <= length cs)%nat -> (j <= length cs)%nat -> (offset cs i <=? offset cs j)%nat = (i <=? j)%nat.
Proof. intros Hi Hj. rewrite !Nat.leb_antisym. by rewrite offset_ltb. Qed.

Lemma offset_eqb i j :
  (i <= length cs)%nat -> (j <= length cs)%nat -> (offset cs i =? offset cs j)%nat = (i =? j)%nat.
Proof.
  intros Hi Hj. destruct (Nat.eqb_spec i j) as [-> | Hne]; [apply Nat.eqb_refl |].
  apply Nat.eqb_neq. intros E. by apply offset_inj in E.
Qed.

Lemma offset_max i j :
  (i <= length cs)%nat -> (j <= length cs)%nat ->
  Nat.max (offset cs i) (offset cs j) = offset cs (Nat.max i j).
Proof.
  intros Hi Hj. destruct (decide (i <= j)%nat).
  - pose proof (offset_le i j). rewrite !Nat.max_r by lia. done.
  - pose proof (offset_le j i). rewrite !Nat.max_l by lia. done.
Qed.
End Offsets.

Lemma length_offset cs : Forall (fun c => c <> []) cs -> (length cs <= clen cs)%nat.
Proof.
  induction 1 as [| c cs Hc _ IH]; [done |]. unfold clen in *. cbn [length concat]. rewrite length_app.
  destruct c; [done |]. cbn [length]. lia.
Qed.

(** ** Stepping back to a boundary, counted in characters *)
Lemma whole_chars_length cs n : (whole_chars cs n <= length cs)%nat.
Proof.
  revert n. induction cs as [| c cs IH]; intros n; cbn; [done |]. case_match; [| lia].
  specialize (IH (n - length c)%nat). lia.
Qed.

Lemma whole_chars_le cs n : (offset cs (whole_chars cs n) <= n)%nat.
Proof.
  revert n. induction cs as [| c cs IH]; intros n; cbn [whole_chars]; [rewrite offset_0; lia |].
  destruct (Nat.leb_spec (length c) n); [| rewrite offset_0; lia].
  rewrite offset_S. specialize (IH (n - length c)%nat). lia.
Qed.

Lemma whole_chars_ge cs k n : (k <= length cs)%nat -> (offset cs k <= n)%nat -> (k <= whole_chars cs n)%nat.
Proof.
  revert k n. induction cs as [| c cs IH]; intros [| k] n Hk Hn; cbn [whole_chars length] in *; try lia.
  rewrite offset_S in Hn. destruct (Nat.leb_spec (length c) n); [| lia].
  specialize (IH k (n - length c)%nat). lia.
Qed.

Lemma floor_whole l n :
  utf8_valid l = true -> floor_boundary l n = offset (chars l) (whole_chars (chars l) n).
Proof.
  intros Hv. destruct (floor_boundary_spec l n) as (H1 & H2 & H3).
  destruct (boundary_index l _ Hv H2) as (k & Hk & Ek).
  specialize (H3 _ (boundary_nth l (whole_chars (chars l) n) Hv) (whole_chars_le _ _)).
  fold (offset (chars l) (whole_chars (chars l) n)) in H3. fold (offset (chars l) k) in Ek.
  pose proof (whole_chars_ge (chars l) k n Hk ltac:(lia)) as Hw. pose proof (whole_chars_length (chars l) n).
  pose proof (offset_le (chars l) (chars_nonempty l) k (whole_chars (chars l) n)). lia.
Qed.

Lemma floor_offset l k :
  utf8_valid l = true -> (k <= length (chars l))%nat ->
  floor_boundary l (offset (chars l) k) = offset (chars l) k.
Proof. intros Hv Hk. apply floor_boundary_id. by apply boundary_nth. Qed.

(** ** Slices at characters *)
Section Slices.
Context (l : list Z) (Hv : utf8_valid l = true).

Lemma slice_to_chars k :
  slice_to l (offset (chars l) k) = Some (take (offset (chars l) k) l)
  /\ chars (take (offset (chars l) k) l) = take k (chars l).
Proof.
  unfold slice_to, offset. rewrite (boundary_nth l k Hv). split; [done | by apply chars_take_drop].
Qed.

Lemma slice_from_chars k :
  slice_from l (offset (chars l) k) = Some (drop (offset (chars l) k) l)
  /\ chars (drop (offset (chars l) k) l) = drop k (chars l).
Proof.
  unfold slice_from, offset. rewrite (boundary_nth l k Hv). split; [done | by apply chars_take_drop].
Qed.

Lemma last_char_start k :
  (k <= length (chars l))%nat ->
  clen (removelast (chars (take (offset (chars l) k) l))) = offset (chars l) (k - 1).
Proof.
  intros Hk. destruct (slice_to_chars k) as [_ ->]. unfold offset. f_equal.
  destruct k as [| k]; [done |]. destruct (lookup_lt_is_Some_2 (chars l) k) as [c Ec]; [lia |].
  rewrite (take_S_r _ _ _ Ec), removelast_last. by replace (S k - 1)%nat with k by lia.
Qed.

Lemma length_chars : length l = offset (chars l) (length (chars l)).
Proof. rewrite offset_all. unfold clen. by rewrite concat_chars. Qed.

(** Replacing a range of characters by a text. *)
Lemma splice_chars a b t :
  utf8_valid t = true -> (a <= b <= length (chars l))%nat ->
  exists l', replace_range (offset (chars l) a) (offset (chars l) b) t l = Some l'
    /\ utf8_valid l' = true
    /\ chars l' = take a (chars l) ++ chars t ++ drop b (chars l)
    /\ (offset (chars l) a + length t)%nat = offset (chars l') (a + length (chars t))
    /\ l' = take (offset (chars l) a) l ++ t ++ drop (offset (chars l) b) l.
Proof.
  intros Hvt [Hab Hb]. unfold replace_range.
  rewrite !(boundary_nth _ _ Hv : is_char_boundary _ (offset _ _) = true).
  rewrite (proj2 (Nat.leb_le _ _)) by (apply offset_le; [apply chars_nonempty | lia]).
  destruct (boundary_cut _ _ Hv (boundary_nth _ a Hv)) as [Hv1 _].
  destruct (boundary_cut _ _ Hv (boundary_nth _ b Hv)) as [_ Hv2].
  assert (Ec : chars (take (offset (chars l) a) l ++ t ++ drop (offset (chars l) b) l)
    = take a (chars l) ++ chars t ++ drop b (chars l)).
  { rewrite !chars_app by done. f_equal; [by apply chars_take_drop |]. f_equal. by apply chars_take_drop. }
  eexists. split; [reflexivity |]. split; [by apply utf8_valid_app, utf8_valid_app |].
  split; [exact Ec |]. split; [| done]. rewrite Ec. unfold offset.
  rewrite app_assoc, take_app_length', clen_app.
  - f_equal. unfold clen. by rewrite concat_chars.
  - rewrite length_app, length_take. lia.
Qed.
End Slices.
