(* ===== verification/Sha.v ===== *)
(** * The hash functions of zzclawterm-otp ([src/alg])

    [Sha1] models [sha1.rs]; [Sha2] models the code that [sha256.rs] and
    [sha512.rs] share line for line, as a record of the constants in which the
    two files differ.  The padding step is the same in the three files and is
    [pad].  The bit length is computed modulo the width of its field, which no
    message that fits in memory reaches. *)
From stdpp Require Import base list numbers.
From Stdlib Require Import ZArith Lia.
From S2P Require Import Prelude.

(** ** Padding *)

(** [pad block len_bytes input]: the buffer the code hashes.  [usize] is 64
    bits wide, so [!63_usize] is [bitnot 64 63]. *)
Definition pad (block len_bytes : Z) (input : list Z) : list Z :=
  let bit_len := wrap (8 * len_bytes) (len input * 8) in
  let padded := input ++ [0x80] in
  let target := Z.land (len padded + block) (bitnot 64 (block - 1)) - len_bytes in
  resize (Z.to_nat target) 0 padded ++ to_be_bytes (Z.to_nat len_bytes) bit_len.

(** [words[0..16]]: sixteen big-endian words of [wb] bytes each. *)
Definition prep_words (wb : nat) (chunk : list Z) : list Z :=
  map (fun i => from_be_bytes (take wb (drop (i * wb) chunk))) (seq 0 16).

(** The loop that fills the rest of [words]: iteration [i] computes [words[i]]
    from the entries below [i]. *)
Fixpoint extend_schedule (f : list Z -> Z) (n : nat) (words : list Z) : list Z :=
  match n with
  | O => words
  | S n' => extend_schedule f n' (words ++ [f words])
  end.

Definition word_at (words : list Z) (i : nat) : Z := nth i words 0.

(** ** SHA-1 ([alg/sha1.rs]) *)
Module Sha1.

Definition state : Type := Z * Z * Z * Z * Z.

Definition init : state :=
  (0x67452301, 0xEFCDAB89, 0x98BADCFE, 0x10325476, 0xC3D2E1F0).

Definition next_word (words : list Z) : Z :=
  let i := length words in
  rotate_left 32
    (Z.lxor (Z.lxor (Z.lxor (word_at words (i - 3)) (word_at words (i - 8)))
                    (word_at words (i - 14))) (word_at words (i - 16))) 1.

Definition schedule (chunk : list Z) : list Z :=
  extend_schedule next_word 64 (prep_words 4 chunk).

Definition round_fk (i : nat) (b c d : Z) : Z * Z :=
  if (i <? 20)%nat then (Z.lor (Z.land b c) (Z.land (bitnot 32 b) d), 0x5A827999)
  else if (i <? 40)%nat then (Z.lxor (Z.lxor b c) d, 0x6ED9EBA1)
  else if (i <? 60)%nat then
    (Z.lor (Z.lor (Z.land b c) (Z.land b d)) (Z.land c d), 0x8F1BBCDC)
  else (Z.lxor (Z.lxor b c) d, 0xCA62C1D6).

Definition round (words : list Z) (s : state) (i : nat) : state :=
  let '(a, b, c, d, e) := s in
  let (f, k) := round_fk i b c d in
  let temp :=
    wrapping_add 32
      (wrapping_add 32
         (wrapping_add 32 (wrapping_add 32 (rotate_left 32 a 5) f) e) k)
      (word_at words i) in
  (temp, a, rotate_left 32 b 30, c, d).

Definition compress (s : state) (chunk : list Z) : state :=
  let words := schedule chunk in
  let '(a, b, c, d, e) := fold_left (round words) (seq 0 80) s in
  let '(s0, s1, s2, s3, s4) := s in
  (wrapping_add 32 s0 a, wrapping_add 32 s1 b, wrapping_add 32 s2 c,
   wrapping_add 32 s3 d, wrapping_add 32 s4 e).

Definition digest (s : state) : list Z :=
  let '(s0, s1, s2, s3, s4) := s in
  concat (map (to_be_bytes 4) [s0; s1; s2; s3; s4]).

Definition sha1 (input : list Z) : list Z :=
  digest (fold_left compress (chunks 64 (pad 64 8 input)) init).

End Sha1.

(** ** SHA-256 and SHA-512 ([alg/sha256.rs], [alg/sha512.rs]) *)
Module Sha2.

(** The constants in which the two files differ. *)
Record params := {
  word : Z;                 (* bits of a word *)
  block : nat;              (* BLOCK_SIZE *)
  len_bytes : Z;            (* bytes of the length field *)
  rounds : nat;             (* COMPRESSION_ROUNDS *)
  small0 : Z * Z * Z;       (* rotate, rotate, shift of the schedule's s0 *)
  small1 : Z * Z * Z;
  big0 : Z * Z * Z;         (* rotations of the round's s0 *)
  big1 : Z * Z * Z;
  K : list Z;
  init : list Z
}.

Definition state : Type := Z * Z * Z * Z * Z * Z * Z * Z.

Definition state_of (l : list Z) : state :=
  (nth 0 l 0, nth 1 l 0, nth 2 l 0, nth 3 l 0, nth 4 l 0, nth 5 l 0, nth 6 l 0, nth 7 l 0).

Section Code.
Context (p : params).
Let w := word p.
Let wb : nat := Z.to_nat (word p / 8).

Definition schedule_sigma (r : Z * Z * Z) (x : Z) : Z :=
  let '(r1, r2, s) := r in
  Z.lxor (Z.lxor (rotate_right w x r1) (rotate_right w x r2)) (Z.shiftr x s).

Definition round_sigma (r : Z * Z * Z) (x : Z) : Z :=
  let '(r1, r2, r3) := r in
  Z.lxor (Z.lxor (rotate_right w x r1) (rotate_right w x r2)) (rotate_right w x r3).

Definition next_word (words : list Z) : Z :=
  let i := length words in
  let s0 := schedule_sigma (small0 p) (word_at words (i - 15)) in
  let s1 := schedule_sigma (small1 p) (word_at words (i - 2)) in
  wrapping_add w
    (wrapping_add w (wrapping_add w (word_at words (i - 16)) s0) (word_at words (i - 7)))
    s1.

Definition schedule (chunk : list Z) : list Z :=
  extend_schedule next_word (rounds p - 16) (prep_words wb chunk).

Definition round (words : list Z) (st : state) (i : nat) : state :=
  let '(a, b, c, d, e, f, g, h) := st in
  let s1 := round_sigma (big1 p) e in
  let ch := Z.lxor (Z.land e f) (Z.land (bitnot w e) g) in
  let temp1 :=
    wrapping_add w
      (wrapping_add w (wrapping_add w (wrapping_add w h s1) ch) (word_at (K p) i))
      (word_at words i) in
  let s0 := round_sigma (big0 p) a in
  let maj := Z.lxor (Z.lxor (Z.land a b) (Z.land a c)) (Z.land b c) in
  let temp2 := wrapping_add w s0 maj in
  (wrapping_add w temp1 temp2, a, b, c, wrapping_add w d temp1, e, f, g).

Definition compress (st : state) (chunk : list Z) : state :=
  let words := schedule chunk in
  let '(a, b, c, d, e, f, g, h) := fold_left (round words) (seq 0 (rounds p)) st in
  let '(s0, s1, s2, s3, s4, s5, s6, s7) := st in
  (wrapping_add w s0 a, wrapping_add w s1 b, wrapping_add w s2 c, wrapping_add w s3 d,
   wrapping_add w s4 e, wrapping_add w s5 f, wrapping_add w s6 g, wrapping_add w s7 h).

Definition digest (st : state) : list Z :=
  let '(s0, s1, s2, s3, s4, s5, s6, s7) := st in
  concat (map (to_be_bytes wb) [s0; s1; s2; s3; s4; s5; s6; s7]).

Definition sha2 (input : list Z) : list Z :=
  digest (fold_left compress
            (chunks (block p) (pad (Z.of_nat (block p)) (len_bytes p) input))
            (state_of (init p))).
End Code.

(** [const K: [u32; 64]] of [sha256.rs], one list per line of the source. *)
Definition K256 : list Z := concat [
  [0x428a2f98; 0x71374491; 0xb5c0fbcf; 0xe9b5dba5; 0x3956c25b; 0x59f111f1; 0x923f82a4];
  [0xab1c5ed5; 0xd807aa98; 0x12835b01; 0x243185be; 0x550c7dc3; 0x72be5d74; 0x80deb1fe];
  [0x9bdc06a7; 0xc19bf174; 0xe49b69c1; 0xefbe4786; 0x0fc19dc6; 0x240ca1cc; 0x2de92c6f];
  [0x4a7484aa; 0x5cb0a9dc; 0x76f988da; 0x983e5152; 0xa831c66d; 0xb00327c8; 0xbf597fc7];
  [0xc6e00bf3; 0xd5a79147; 0x06ca6351; 0x14292967; 0x27b70a85; 0x2e1b2138; 0x4d2c6dfc];
  [0x53380d13; 0x650a7354; 0x766a0abb; 0x81c2c92e; 0x92722c85; 0xa2bfe8a1; 0xa81a664b];
  [0xc24b8b70; 0xc76c51a3; 0xd192e819; 0xd6990624; 0xf40e3585; 0x106aa070; 0x19a4c116];
  [0x1e376c08; 0x2748774c; 0x34b0bcb5; 0x391c0cb3; 0x4ed8aa4a; 0x5b9cca4f; 0x682e6ff3];
  [0x748f82ee; 0x78a5636f; 0x84c87814; 0x8cc70208; 0x90befffa; 0xa4506ceb; 0xbef9a3f7];
  [0xc67178f2] ].

(** [const K: [u64; 80]] of [sha512.rs]. *)
Definition K512 : list Z :=
  [ 0x428a2f98d728ae22; 0x7137449123ef65cd; 0xb5c0fbcfec4d3b2f;
    0xe9b5dba58189dbbc; 0x3956c25bf348b538; 0x59f111f1b605d019;
    0x923f82a4af194f9b; 0xab1c5ed5da6d8118; 0xd807aa98a3030242;
    0x12835b0145706fbe; 0x243185be4ee4b28c; 0x550c7dc3d5ffb4e2;
    0x72be5d74f27b896f; 0x80deb1fe3b1696b1; 0x9bdc06a725c71235;
    0xc19bf174cf692694; 0xe49b69c19ef14ad2; 0xefbe4786384f25e3;
    0x0fc19dc68b8cd5b5; 0x240ca1cc77ac9c65; 0x2de92c6f592b0275;
    0x4a7484aa6ea6e483; 0x5cb0a9dcbd41fbd4; 0x76f988da831153b5;
    0x983e5152ee66dfab; 0xa831c66d2db43210; 0xb00327c898fb213f;
    0xbf597fc7beef0ee4; 0xc6e00bf33da88fc2; 0xd5a79147930aa725;
    0x06ca6351e003826f; 0x142929670a0e6e70; 0x27b70a8546d22ffc;
    0x2e1b21385c26c926; 0x4d2c6dfc5ac42aed; 0x53380d139d95b3df;
    0x650a73548baf63de; 0x766a0abb3c77b2a8; 0x81c2c92e47edaee6;
    0x92722c851482353b; 0xa2bfe8a14cf10364; 0xa81a664bbc423001;
    0xc24b8b70d0f89791; 0xc76c51a30654be30; 0xd192e819d6ef5218;
    0xd69906245565a910; 0xf40e35855771202a; 0x106aa07032bbd1b8;
    0x19a4c116b8d2d0c8; 0x1e376c085141ab53; 0x2748774cdf8eeb99;
    0x34b0bcb5e19b48a8; 0x391c0cb3c5c95a63; 0x4ed8aa4ae3418acb;
    0x5b9cca4f7763e373; 0x682e6ff3d6b2b8a3; 0x748f82ee5defb2fc;
    0x78a5636f43172f60; 0x84c87814a1f0ab72; 0x8cc702081a6439ec;
    0x90befffa23631e28; 0xa4506cebde82bde9; 0xbef9a3f7b2c67915;
    0xc67178f2e372532b; 0xca273eceea26619c; 0xd186b8c721c0c207;
    0xeada7dd6cde0eb1e; 0xf57d4f7fee6ed178; 0x06f067aa72176fba;
    0x0a637dc5a2c898a6; 0x113f9804bef90dae; 0x1b710b35131c471b;
    0x28db77f523047d84; 0x32caab7b40c72493; 0x3c9ebe0a15c9bebc;
    0x431d67c49c100d4c; 0x4cc5d4becb3e42b6; 0x597f299cfc657e2a;
    0x5fcb6fab3ad6faec; 0x6c44198c4a475817 ].

Definition params256 : params := {|
  word := 32; block := 64; len_bytes := 8; rounds := 64;
  small0 := (7, 18, 3); small1 := (17, 19, 10);
  big0 := (2, 13, 22); big1 := (6, 11, 25);
  K := K256;
  init := [ 0x6a09e667; 0xbb67ae85; 0x3c6ef372; 0xa54ff53a;
            0x510e527f; 0x9b05688c; 0x1f83d9ab; 0x5be0cd19 ] |}.

Definition params512 : params := {|
  word := 64; block := 128; len_bytes := 16; rounds := 80;
  small0 := (1, 8, 7); small1 := (19, 61, 6);
  big0 := (28, 34, 39); big1 := (14, 18, 41);
  K := K512;
  init := [ 0x6a09e667f3bcc908; 0xbb67ae8584caa73b; 0x3c6ef372fe94f82b;
            0xa54ff53a5f1d36f1; 0x510e527fade682d1; 0x9b05688c2b3e6c1f;
            0x1f83d9abfb41bd6b; 0x5be0cd19137e2179 ] |}.

Definition sha256 : list Z -> list Z := sha2 params256.
Definition sha512 : list Z -> list Z := sha2 params512.

End Sha2.
