(* ===== verification/ShaSpec.v ===== *)
(** * FIPS 180-4 and the hash code of zzclawterm-otp

    [Fips] states SHA-1, SHA-256 and SHA-512 from the standard, without the
    definitions of [Sha.v]: its rotations are arithmetic and its SHA-2 constants
    are computed from the roots of the primes they are defined by.  [agrees]
    relates the code's tables, rotation counts and sizes to it.  The theorems
    show for which message lengths the code of [Sha.v] computes those
    functions, and what it computes for the other lengths. *)
From stdpp Require Import base list numbers.
From Stdlib Require Import ZArith Lia.
From S2P Require Import Prelude Sha.

Module Fips.

(** *** Section 2.2.2: rotations and shifts of [w]-bit words, and the complement. *)
Definition ROTR (w n x : Z) : Z := Z.lor (x / 2 ^ n) ((x * 2 ^ (w - n)) mod 2 ^ w).
Definition ROTL (w n x : Z) : Z := Z.lor ((x * 2 ^ n) mod 2 ^ w) (x / 2 ^ (w - n)).
Definition SHR (n x : Z) : Z := x / 2 ^ n.
Definition NOT (w x : Z) : Z := 2 ^ w - 1 - x.

(** *** Section 4.1: the logical functions. *)
Definition ch (w x y z : Z) : Z := Z.lxor (Z.land x y) (Z.land (NOT w x) z).
Definition parity (x y z : Z) : Z := Z.lxor (Z.lxor x y) z.
Definition maj (x y z : Z) : Z := Z.lxor (Z.lxor (Z.land x y) (Z.land x z)) (Z.land y z).

Definition xor3 (x y z : Z) : Z := Z.lxor (Z.lxor x y) z.
Definition Sigma0_256 (x : Z) : Z := xor3 (ROTR 32 2 x) (ROTR 32 13 x) (ROTR 32 22 x).
Definition Sigma1_256 (x : Z) : Z := xor3 (ROTR 32 6 x) (ROTR 32 11 x) (ROTR 32 25 x).
Definition sigma0_256 (x : Z) : Z := xor3 (ROTR 32 7 x) (ROTR 32 18 x) (SHR 3 x).
Definition sigma1_256 (x : Z) : Z := xor3 (ROTR 32 17 x) (ROTR 32 19 x) (SHR 10 x).
Definition Sigma0_512 (x : Z) : Z := xor3 (ROTR 64 28 x) (ROTR 64 34 x) (ROTR 64 39 x).
Definition Sigma1_512 (x : Z) : Z := xor3 (ROTR 64 14 x) (ROTR 64 18 x) (ROTR 64 41 x).
Definition sigma0_512 (x : Z) : Z := xor3 (ROTR 64 1 x) (ROTR 64 8 x) (SHR 7 x).
Definition sigma1_512 (x : Z) : Z := xor3 (ROTR 64 19 x) (ROTR 64 61 x) (SHR 6 x).

(** *** Sections 4.2 and 5.3: the constants.

    SHA-1's are given by the standard as numbers.  Those of SHA-256 and
    SHA-512 are the first bits of the fractional parts of the cube roots of
    the first primes, and their initial values those of the square roots of
    the first eight primes; they are computed here as such. *)
Definition k1 (t : nat) : Z :=
  if (t <? 20)%nat then 0x5A827999
  else if (t <? 40)%nat then 0x6ED9EBA1
  else if (t <? 60)%nat then 0x8F1BBCDC
  else 0xCA62C1D6.
Definition H1 : Z * Z * Z * Z * Z :=
  (0x67452301, 0xEFCDAB89, 0x98BADCFE, 0x10325476, 0xC3D2E1F0).

Definition is_prime (n : nat) : bool :=
  (2 <=? n)%nat && forallb (fun d => negb (n mod d =? 0)%nat) (seq 2 (n - 2)).
(** The first eighty primes are those up to 409. *)
Definition primes : list Z := map Z.of_nat (List.filter is_prime (seq 0 410)).

(** The integer cube root, bit by bit from bit [k - 1] down. *)
Fixpoint cbrt_from (k : nat) (r n : Z) : Z :=
  match k with
  | O => r
  | S k' => cbrt_from k' (if (r + 2 ^ Z.of_nat k') ^ 3 <=? n then r + 2 ^ Z.of_nat k' else r) n
  end.
Definition cbrt (n : Z) : Z := cbrt_from (Z.to_nat (Z.log2 n + 1)) 0 n.

(** The first [w] bits of the fractional part of a root of [n]. *)
Definition frac_sqrt (w n : Z) : Z := Z.sqrt (n * 2 ^ (2 * w)) mod 2 ^ w.
Definition frac_cbrt (w n : Z) : Z := cbrt (n * 2 ^ (3 * w)) mod 2 ^ w.

(** *** Section 5.1: append [1], then the fewest zero bits that leave room for
    the length field, then the length in bits. *)
Definition zero_bytes (block len_bytes l : Z) : Z := (block - len_bytes - 1 - l) mod block.
Definition pad (block len_bytes : Z) (m : list Z) : list Z :=
  m ++ [0x80] ++ replicate (Z.to_nat (zero_bytes block len_bytes (len m))) 0
    ++ to_be_bytes (Z.to_nat len_bytes) (8 * len m).

(** *** Section 5.2: the padded message parsed into blocks of words. *)
Definition blocks (block : nat) (m : list Z) : list (list Z) :=
  map (fun i => take block (drop (i * block) m)) (seq 0 (length m / block)).
Definition block_word (wb : nat) (blk : list Z) (t : nat) : Z :=
  from_be_bytes (take wb (drop (t * wb) blk)).

(** *** Section 6.1: SHA-1. *)
Definition f1 (t : nat) (x y z : Z) : Z :=
  if (t <? 20)%nat then ch 32 x y z
  else if (t <? 40)%nat then parity x y z
  else if (t <? 60)%nat then maj x y z
  else parity x y z.

(** The message schedule, by the standard's recursion; [fuel] above [t] is
    enough because the recursion only descends. *)
Fixpoint w1 (blk : list Z) (fuel t : nat) : Z :=
  match fuel with
  | O => 0
  | S fuel' =>
      if (t <? 16)%nat then block_word 4 blk t
      else ROTL 32 1
             (Z.lxor (Z.lxor (Z.lxor (w1 blk fuel' (t - 3)) (w1 blk fuel' (t - 8)))
                             (w1 blk fuel' (t - 14))) (w1 blk fuel' (t - 16)))
  end.

Definition step1 (blk : list Z) (s : Z * Z * Z * Z * Z) (t : nat) : Z * Z * Z * Z * Z :=
  let '(a, b, c, d, e) := s in
  ((ROTL 32 5 a + f1 t b c d + e + k1 t + w1 blk (S t) t) mod 2 ^ 32,
   a, ROTL 32 30 b, c, d).

Definition hash_block1 (s : Z * Z * Z * Z * Z) (blk : list Z) : Z * Z * Z * Z * Z :=
  let '(a, b, c, d, e) := fold_left (step1 blk) (seq 0 80) s in
  let '(h0, h1, h2, h3, h4) := s in
  ((h0 + a) mod 2 ^ 32, (h1 + b) mod 2 ^ 32, (h2 + c) mod 2 ^ 32,
   (h3 + d) mod 2 ^ 32, (h4 + e) mod 2 ^ 32).

Definition sha1 (m : list Z) : list Z :=
  let '(h0, h1, h2, h3, h4) := fold_left hash_block1 (blocks 64 (pad 64 8 m)) H1 in
  to_be_bytes 4 h0 ++ to_be_bytes 4 h1 ++ to_be_bytes 4 h2 ++ to_be_bytes 4 h3
    ++ to_be_bytes 4 h4.

(** *** Sections 6.2 and 6.4: SHA-256 and SHA-512, which differ in the word
    size, the number of rounds, the functions and the constants. *)
Record variant := {
  w : Z;
  rounds : nat;
  Sigma0 : Z -> Z; Sigma1 : Z -> Z;
  sigma0 : Z -> Z; sigma1 : Z -> Z
}.
Definition v256 : variant :=
  {| w := 32; rounds := 64; Sigma0 := Sigma0_256; Sigma1 := Sigma1_256;
     sigma0 := sigma0_256; sigma1 := sigma1_256 |}.
Definition v512 : variant :=
  {| w := 64; rounds := 80; Sigma0 := Sigma0_512; Sigma1 := Sigma1_512;
     sigma0 := sigma0_512; sigma1 := sigma1_512 |}.

Section Sha2Spec.
Context (v : variant).

Definition K2 (t : nat) : Z := frac_cbrt (w v) (nth t primes 0).
Definition H2 (i : nat) : Z := frac_sqrt (w v) (nth i primes 0).

(** The bytes of a word; a block is sixteen words and the length field two. *)
Definition word_bytes : Z := w v / 8.

Fixpoint w2 (blk : list Z) (fuel t : nat) : Z :=
  match fuel with
  | O => 0
  | S fuel' =>
      if (t <? 16)%nat then block_word (Z.to_nat word_bytes) blk t
      else (sigma1 v (w2 blk fuel' (t - 2)) + w2 blk fuel' (t - 7)
            + sigma0 v (w2 blk fuel' (t - 15)) + w2 blk fuel' (t - 16)) mod 2 ^ w v
  end.

Definition step2 (blk : list Z) (s : Z * Z * Z * Z * Z * Z * Z * Z) (t : nat)
    : Z * Z * Z * Z * Z * Z * Z * Z :=
  let '(a, b, c, d, e, f, g, h) := s in
  let T1 := h + Sigma1 v e + ch (w v) e f g + K2 t + w2 blk (S t) t in
  let T2 := Sigma0 v a + maj a b c in
  ((T1 + T2) mod 2 ^ w v, a, b, c, (d + T1) mod 2 ^ w v, e, f, g).

Definition hash_block2 (s : Z * Z * Z * Z * Z * Z * Z * Z) (blk : list Z)
    : Z * Z * Z * Z * Z * Z * Z * Z :=
  let '(a, b, c, d, e, f, g, h) := fold_left (step2 blk) (seq 0 (rounds v)) s in
  let '(h0, h1, h2, h3, h4, h5, h6, h7) := s in
  let add x y := (x + y) mod 2 ^ w v in
  (add h0 a, add h1 b, add h2 c, add h3 d, add h4 e, add h5 f, add h6 g, add h7 h).

Definition sha2 (m : list Z) : list Z :=
  let block := 16 * word_bytes in
  let '(h0, h1, h2, h3, h4, h5, h6, h7) :=
    fold_left hash_block2
      (blocks (Z.to_nat block) (pad block (2 * word_bytes) m))
      (H2 0, H2 1, H2 2, H2 3, H2 4, H2 5, H2 6, H2 7) in
  concat (map (to_be_bytes (Z.to_nat word_bytes)) [h0; h1; h2; h3; h4; h5; h6; h7]).
End Sha2Spec.

Definition sha256 : list Z -> list Z := sha2 v256.
Definition sha512 : list Z -> list Z := sha2 v512.

End Fips.

(** ** The standard's words and constants *)

(** [cbrt] is the integer cube root: below [(2 ^ k) ^ 3] the search over [k]
    bits ends at the largest [r] with [r ^ 3 <= n]. *)
Lemma cbrt_from_spec k r n :
  0 <= r -> r ^ 3 <= n < (r + 2 ^ Z.of_nat k) ^ 3 ->
  Fips.cbrt_from k r n ^ 3 <= n < (Fips.cbrt_from k r n + 1) ^ 3.
Proof.
  revert r. induction k as [| k IH]; intros r Hr Hn; cbn [Fips.cbrt_from]; [exact Hn |].
  rewrite Nat2Z.inj_succ, Z.pow_succ_r in Hn by lia.
  pose proof (Z.pow_pos_nonneg 2 (Z.of_nat k) ltac:(lia) ltac:(lia)).
  destruct (Z.leb_spec ((r + 2 ^ Z.of_nat k) ^ 3) n); apply IH; try lia.
Qed.

Lemma cbrt_spec n : 0 <= n -> Fips.cbrt n ^ 3 <= n < (Fips.cbrt n + 1) ^ 3.
Proof.
  intros Hn. apply cbrt_from_spec; [lia |]. split; [done |].
  rewrite Z2Nat.id by (pose proof (Z.log2_nonneg n); lia). rewrite Z.add_0_l.
  assert (n < 2 ^ (Z.log2 n + 1)).
  { destruct (Z.eq_dec n 0) as [-> | Hz]; [done |]. apply (Z.log2_spec n). lia. }
  assert (1 <= 2 ^ (Z.log2 n + 1)) by lia. nia.
Qed.

Lemma rotate_right_ROTR w x n : 0 <= n <= w -> rotate_right w x n = Fips.ROTR w n x.
Proof.
  intros Hn. unfold rotate_right, Fips.ROTR, wrap.
  by rewrite Z.shiftr_div_pow2, Z.shiftl_mul_pow2 by lia.
Qed.

Lemma rotate_left_ROTL w x n : 0 <= n <= w -> rotate_left w x n = Fips.ROTL w n x.
Proof.
  intros Hn. unfold rotate_left, Fips.ROTL, wrap.
  by rewrite Z.shiftr_div_pow2, Z.shiftl_mul_pow2 by lia.
Qed.

Lemma bitnot_NOT w x : 0 <= w -> bitnot w x = Fips.NOT w x.
Proof. intros. unfold bitnot, Fips.NOT. rewrite Z.ones_equiv. lia. Qed.

(** What makes a record of the code's constants the standard's variant. *)
Record agrees (p : Sha2.params) (v : Fips.variant) : Prop := {
  ag_word : Sha2.word p = Fips.w v;
  ag_width : 0 < Fips.w v;
  ag_block : Z.of_nat (Sha2.block p) = 16 * Fips.word_bytes v;
  ag_len : Sha2.len_bytes p = 2 * Fips.word_bytes v;
  ag_rounds : Sha2.rounds p = Fips.rounds v;
  ag_rounds_min : (16 <= Sha2.rounds p)%nat;
  ag_small0 x : Sha2.schedule_sigma p (Sha2.small0 p) x = Fips.sigma0 v x;
  ag_small1 x : Sha2.schedule_sigma p (Sha2.small1 p) x = Fips.sigma1 v x;
  ag_big0 x : Sha2.round_sigma p (Sha2.big0 p) x = Fips.Sigma0 v x;
  ag_big1 x : Sha2.round_sigma p (Sha2.big1 p) x = Fips.Sigma1 v x;
  ag_K t : (t < Sha2.rounds p)%nat -> word_at (Sha2.K p) t = Fips.K2 v t;
  ag_init : Sha2.init p = map (Fips.H2 v) (seq 0 8)
}.

Ltac sigma_eq :=
  intros x; cbn [Sha2.params256 Sha2.params512 Fips.v256 Fips.v512 Sha2.small0 Sha2.small1
                 Sha2.big0 Sha2.big1 Sha2.word Fips.sigma0 Fips.sigma1 Fips.Sigma0 Fips.Sigma1];
  unfold Sha2.schedule_sigma, Sha2.round_sigma; cbn [Sha2.word Sha2.params256 Sha2.params512];
  rewrite !rotate_right_ROTR by lia; try rewrite Z.shiftr_div_pow2 by lia; reflexivity.

Lemma table_at (f : nat -> Z) l n :
  map f (seq 0 n) = l -> forall t, (t < n)%nat -> word_at l t = f t.
Proof.
  intros <- t Ht. unfold word_at.
  rewrite (nth_indep _ 0 (f 0%nat)) by (by rewrite length_map, length_seq).
  by rewrite (map_nth f), seq_nth.
Qed.

Lemma agrees256 : agrees Sha2.params256 Fips.v256.
Proof.
  split; try sigma_eq; try (cbn; lia); [reflexivity.. | | vm_compute; reflexivity].
  apply (table_at _ _ 64). vm_compute. reflexivity.
Qed.

Lemma agrees512 : agrees Sha2.params512 Fips.v512.
Proof.
  split; try sigma_eq; try (cbn; lia); [reflexivity.. | | vm_compute; reflexivity].
  apply (table_at _ _ 80). vm_compute. reflexivity.
Qed.

(** ** The padding step *)

Lemma land_bitnot_ones k x :
  0 <= k <= 64 -> 0 <= x < 2 ^ 64 -> Z.land x (bitnot 64 (2 ^ k - 1)) = x - x mod 2 ^ k.
Proof.
  intros Hk Hx.
  assert (Hp : 0 < 2 ^ k <= 2 ^ 64) by (split; [apply Z.pow_pos_nonneg; lia |
    apply Z.pow_le_mono_r; lia]).
  replace (x - x mod 2 ^ k) with (Z.shiftl (Z.shiftr x k) k).
  2: { rewrite Z.shiftl_mul_pow2, Z.shiftr_div_pow2 by lia.
       pose proof (Z.div_mod x (2 ^ k) ltac:(lia)). lia. }
  apply Z.bits_inj'. intros i Hi. rewrite Z.land_spec.
  replace (2 ^ k - 1) with (Z.ones k) by (rewrite Z.ones_equiv; lia).
  assert (Hr : 0 <= Z.ones k < 2 ^ 64) by (rewrite Z.ones_equiv; lia).
  destruct (Z.lt_ge_cases i 64).
  - rewrite bitnot_bits by lia. destruct (Z.lt_ge_cases i k).
    + rewrite Z.ones_spec_low, Z.shiftl_spec_low by lia. apply andb_false_r.
    + rewrite Z.ones_spec_high, Z.shiftl_spec, Z.shiftr_spec by lia.
      rewrite andb_true_r. f_equal. lia.
  - destruct (proj1 (range_bits 64 x ltac:(lia)) Hx) as [_ Hz].
    rewrite Z.shiftl_spec, Z.shiftr_spec, !Hz by lia. done.
Qed.

(** What the code's size computation comes to: the padded length is rounded
    down to a block, one block is added, and the length field is taken off. *)
Lemma pad_target k len_bytes m :
  0 <= k < 64 -> len m + 1 + 2 ^ k < 2 ^ 64 ->
  Z.land (len (m ++ [0x80]) + 2 ^ k) (bitnot 64 (2 ^ k - 1)) - len_bytes
  = len m + 1 - (len m + 1) mod 2 ^ k + 2 ^ k - len_bytes.
Proof.
  intros Hk Hl. rewrite length_app. cbn [length].
  assert (0 < 2 ^ k) by (apply Z.pow_pos_nonneg; lia).
  rewrite land_bitnot_ones by lia.
  replace (Z.of_nat (length m + 1) + 2 ^ k) with (len m + 1 + 1 * 2 ^ k) by lia.
  rewrite Z_mod_plus_full. lia.
Qed.

(** Lengths for which the marker and the length field fit the last block. *)
Definition pad_fits (block len_bytes l : Z) : Prop := (l + 1) mod block <= block - len_bytes.

Lemma pad_fits_fips k len_bytes m :
  0 <= k < 64 -> 0 < len_bytes <= 2 ^ k -> len m + 1 + 2 ^ k < 2 ^ 64 ->
  len m * 8 < 2 ^ (8 * len_bytes) ->
  pad_fits (2 ^ k) len_bytes (len m) ->
  pad (2 ^ k) len_bytes m = Fips.pad (2 ^ k) len_bytes m.
Proof.
  intros Hk Hlb Hl Hbits Hfit. unfold pad, Fips.pad, pad_fits in *.
  assert (0 < 2 ^ k) by (apply Z.pow_pos_nonneg; lia).
  rewrite pad_target by done. rewrite (app_assoc m [128]).
  pose proof (Z.mod_pos_bound (len m + 1) (2 ^ k) ltac:(lia)) as Hm.
  rewrite resize_ge by (rewrite length_app; cbn [length]; lia).
  rewrite <- !app_assoc. do 3 f_equal.
  - apply f_equal2; [| done]. unfold Fips.zero_bytes.
    rewrite length_app. cbn [length].
    replace (2 ^ k - len_bytes - 1 - len m)
      with ((2 ^ k - len_bytes - (len m + 1) mod 2 ^ k) + (- ((len m + 1) / 2 ^ k)) * 2 ^ k)
      by (pose proof (Z.div_mod (len m + 1) (2 ^ k) ltac:(lia)); lia).
    rewrite Z_mod_plus_full.
    rewrite (Z.mod_small (2 ^ k - _ - _)) by lia. lia.
  - unfold wrap. rewrite Z.mod_small by lia. f_equal. lia.
Qed.

(** When the length field does not fit, the buffer is cut instead of grown. *)
Lemma pad_cut k len_bytes m :
  0 <= k < 64 -> 0 <= len_bytes < 2 ^ k -> len m + 1 + 2 ^ k < 2 ^ 64 ->
  ~ pad_fits (2 ^ k) len_bytes (len m) ->
  let lost := (len m + 1) mod 2 ^ k - (2 ^ k - len_bytes) - 1 in
  0 <= lost <= len m /\
  pad (2 ^ k) len_bytes m =
    take (Z.to_nat (len m - lost)) m
      ++ to_be_bytes (Z.to_nat len_bytes) (wrap (8 * len_bytes) (len m * 8)).
Proof.
  intros Hk Hlb Hl Hfit lost. unfold pad, pad_fits in *.
  assert (0 < 2 ^ k) by (apply Z.pow_pos_nonneg; lia).
  pose proof (Z.mod_pos_bound (len m + 1) (2 ^ k) ltac:(lia)).
  pose proof (Z.mod_le (len m + 1) (2 ^ k) ltac:(lia) ltac:(lia)).
  split; [lia |]. rewrite pad_target by done.
  replace (len m + 1 - (len m + 1) mod 2 ^ k + 2 ^ k - len_bytes) with (len m - lost) by lia.
  rewrite resize_le by (rewrite length_app; cbn [length]; lia).
  f_equal. apply take_app_le. lia.
Qed.

(** The buffer is always a whole number of blocks, so [chunk[i * 4 + 3]] and
    its like never index past the end. *)
Lemma pad_blocks k len_bytes m :
  0 <= k < 64 -> 0 <= len_bytes <= 2 ^ k -> len m + 1 + 2 ^ k < 2 ^ 64 ->
  exists n, (0 < n)%nat /\ length (pad (2 ^ k) len_bytes m) = (n * Z.to_nat (2 ^ k))%nat.
Proof.
  intros Hk Hlb Hl. assert (0 < 2 ^ k) by (apply Z.pow_pos_nonneg; lia).
  exists (Z.to_nat ((len m + 1) / 2 ^ k + 1)).
  unfold pad. rewrite length_app, length_resize, length_to_be_bytes, pad_target by done.
  pose proof (Z.mod_pos_bound (len m + 1) (2 ^ k) ltac:(lia)).
  pose proof (Z.div_mod (len m + 1) (2 ^ k) ltac:(lia)).
  pose proof (Z.div_pos (len m + 1) (2 ^ k) ltac:(lia) ltac:(lia)). split; [lia |]. nia.
Qed.

(** ** Blocks and schedules *)

Lemma chunks_fuel_blocks {A} fuel n k (l : list A) :
  (0 < n)%nat -> length l = (k * n)%nat -> (length l <= fuel)%nat ->
  chunks_fuel fuel n l = map (fun i => take n (drop (i * n) l)) (seq 0 k).
Proof.
  intros Hn. revert fuel l. induction k as [| k IH]; intros fuel l Hk Hf.
  - destruct l; [by destruct fuel | simpl in Hk; lia].
  - destruct l as [| x l]; [simpl in Hk; lia |]. destruct fuel as [| f]; [simpl in Hf; lia |].
    cbn [chunks_fuel seq map]. f_equal.
    rewrite IH by (rewrite length_drop; simpl in *; lia).
    rewrite <- seq_shift, map_map. apply map_ext. intros i.
    by rewrite drop_drop.
Qed.

Lemma chunks_blocks n m k :
  (0 < n)%nat -> length m = (k * n)%nat -> chunks n m = Fips.blocks n m.
Proof.
  intros Hn Hk. unfold chunks, Fips.blocks. rewrite (chunks_fuel_blocks _ n k) by lia.
  by rewrite Hk, Nat.div_mul by lia.
Qed.

Lemma length_extend_schedule f n ws : length (extend_schedule f n ws) = (length ws + n)%nat.
Proof.
  revert ws. induction n as [| n IH]; intros ws; simpl; [lia |].
  rewrite IH, length_app. simpl. lia.
Qed.

Lemma extend_schedule_prefix f n ws :
  exists tl, extend_schedule f n ws = ws ++ tl.
Proof.
  revert ws. induction n as [| n IH]; intros ws; simpl; [exists []; by rewrite app_nil_r |].
  destruct (IH (ws ++ [f ws])) as [tl ->]. exists (f ws :: tl). by rewrite <- app_assoc.
Qed.

(** Entry [t] of the filled array is [f] of the entries below it. *)
Lemma extend_schedule_at f n ws t :
  (length ws <= t < length ws + n)%nat ->
  word_at (extend_schedule f n ws) t = f (take t (extend_schedule f n ws)).
Proof.
  revert ws. induction n as [| n IH]; intros ws Ht; [lia |]. cbn [extend_schedule].
  destruct (decide (t = length ws)) as [-> | Hne].
  - destruct (extend_schedule_prefix f n (ws ++ [f ws])) as [tl ->].
    rewrite <- app_assoc. cbn [app]. unfold word_at.
    rewrite nth_middle. by rewrite take_app_length.
  - apply IH. rewrite length_app. simpl. lia.
Qed.

Lemma extend_schedule_low f n ws t :
  (t < length ws)%nat -> word_at (extend_schedule f n ws) t = word_at ws t.
Proof.
  intros Ht. destruct (extend_schedule_prefix f n ws) as [tl ->].
  unfold word_at. by rewrite app_nth1.
Qed.

Lemma word_at_take ws t i : (i < t)%nat -> word_at (take t ws) i = word_at ws i.
Proof.
  intros Hi. unfold word_at.
  rewrite <- (take_drop t ws) at 2.
  destruct (Nat.lt_ge_cases i (length (take t ws))).
  - by rewrite app_nth1.
  - rewrite length_take in *.
    rewrite !nth_overflow; [done | |]; rewrite ?take_drop, ?length_take; lia.
Qed.

Lemma prep_words_at wb chunk t :
  (t < 16)%nat -> word_at (prep_words wb chunk) t = Fips.block_word wb chunk t.
Proof.
  intros Ht. unfold prep_words, word_at, Fips.block_word.
  rewrite nth_indep with (d' := from_be_bytes (take wb (drop (0 * wb) chunk)))
    by (by rewrite length_map, length_seq).
  rewrite (map_nth (fun i => from_be_bytes (take wb (drop (i * wb) chunk)))).
  by rewrite seq_nth.
Qed.

(** ** SHA-1 *)

Lemma schedule1_at chunk t :
  (16 <= t < 80)%nat ->
  word_at (Sha1.schedule chunk) t = Sha1.next_word (take t (Sha1.schedule chunk)).
Proof. intros Ht. unfold Sha1.schedule. rewrite extend_schedule_at; [done |]. cbn [prep_words length map seq]. lia. Qed.

Lemma schedule1_spec chunk t fuel :
  (t < 80)%nat -> (t < fuel)%nat -> word_at (Sha1.schedule chunk) t = Fips.w1 chunk fuel t.
Proof.
  assert (Hlen : length (Sha1.schedule chunk) = 80%nat)
    by (unfold Sha1.schedule; by rewrite length_extend_schedule).
  assert (Hl : length (prep_words 4 chunk) = 16%nat) by done.
  revert fuel. induction t as [t IH] using lt_wf_ind. intros [| fuel] Ht Hf; [lia |].
  cbn [Fips.w1]. destruct (Nat.ltb_spec t 16).
  - unfold Sha1.schedule. rewrite extend_schedule_low by lia. by apply prep_words_at.
  - rewrite schedule1_at by lia. unfold Sha1.next_word. rewrite length_take_le by lia.
    rewrite !word_at_take by lia. rewrite rotate_left_ROTL by lia. by rewrite <- !IH by lia.
Qed.

Lemma maj_or_xor b c d :
  Z.lor (Z.lor (Z.land b c) (Z.land b d)) (Z.land c d) = Fips.maj b c d.
Proof.
  unfold Fips.maj. apply Z.bits_inj'. intros i _.
  rewrite ?Z.lor_spec, ?Z.lxor_spec, ?Z.land_spec, ?Z.lor_spec, ?Z.lxor_spec, ?Z.land_spec.
  by destruct (Z.testbit b i), (Z.testbit c i), (Z.testbit d i).
Qed.

Lemma ch_or_xor w b c d :
  0 <= w -> 0 <= b < 2 ^ w ->
  Z.lor (Z.land b c) (Z.land (bitnot w b) d) = Fips.ch w b c d.
Proof.
  intros Hw Hb. unfold Fips.ch. rewrite <- bitnot_NOT by done. apply Z.bits_inj'. intros i Hi.
  rewrite ?Z.lor_spec, ?Z.lxor_spec, ?Z.land_spec.
  destruct (Z.lt_ge_cases i w).
  - rewrite bitnot_bits by lia. by destruct (Z.testbit b i), (Z.testbit c i), (Z.testbit d i).
  - destruct (proj1 (range_bits w b Hw) Hb) as [_ ->]; [| lia]. by destruct (Z.testbit _ i).
Qed.

Lemma round_fk_spec i b c d :
  0 <= b < 2 ^ 32 -> Sha1.round_fk i b c d = (Fips.f1 i b c d, Fips.k1 i).
Proof.
  intros Hb. unfold Sha1.round_fk, Fips.f1, Fips.k1, Fips.parity.
  rewrite ch_or_xor, maj_or_xor by (done || lia). by repeat case_match.
Qed.

(** Words stay in range, which is what makes [!b] the standard's complement. *)
Definition word_ok (w x : Z) : Prop := 0 <= x < 2 ^ w.
Definition state1_ok (s : Sha1.state) : Prop :=
  let '(a, b, c, d, e) := s in
  word_ok 32 a /\ word_ok 32 b /\ word_ok 32 c /\ word_ok 32 d /\ word_ok 32 e.

Lemma round1_spec chunk s i :
  (i < 80)%nat -> state1_ok s ->
  Sha1.round (Sha1.schedule chunk) s i = Fips.step1 chunk s i
  /\ state1_ok (Sha1.round (Sha1.schedule chunk) s i).
Proof.
  destruct s as [[[[a b] c] d] e]. intros Hi (Ha & Hb & Hc & Hd & He).
  unfold Sha1.round, Fips.step1. rewrite round_fk_spec by done.
  rewrite (schedule1_spec _ i (S i)) by lia. cbv beta match zeta.
  rewrite <- !rotate_left_ROTL by lia. split.
  - unfold wrapping_add, wrap. by mod_sums.
  - unfold state1_ok, word_ok in *. split_and!; try lia;
      try (apply wrapping_add_range; lia); apply rotate_left_range; lia.
Qed.

Lemma rounds1_spec chunk l s :
  Forall (fun i => (i < 80)%nat) l -> state1_ok s ->
  fold_left (Sha1.round (Sha1.schedule chunk)) l s = fold_left (Fips.step1 chunk) l s.
Proof.
  intros Hl. revert s. induction Hl as [| i l Hi Hl IH]; intros s Hs; cbn [fold_left]; [reflexivity |].
  destruct (round1_spec chunk s i Hi Hs) as [Heq Hok]. rewrite <- Heq. exact (IH _ Hok).
Qed.

Lemma Forall_seq_lt n : Forall (fun i => (i < n)%nat) (seq 0 n).
Proof. apply Forall_seq. lia. Qed.

Lemma compress1_spec s chunk :
  state1_ok s ->
  Sha1.compress s chunk = Fips.hash_block1 s chunk /\ state1_ok (Sha1.compress s chunk).
Proof.
  intros Hs. unfold Sha1.compress, Fips.hash_block1.
  rewrite rounds1_spec by (done || apply Forall_seq_lt).
  destruct (fold_left (Fips.step1 chunk) _ s) as [[[[a b] c] d] e].
  destruct s as [[[[s0 s1] s2] s3] s4].
  split; [done |]. cbn. split_and!; by apply wrapping_add_range.
Qed.

Lemma compress1_fold l s :
  state1_ok s -> fold_left Sha1.compress l s = fold_left Fips.hash_block1 l s.
Proof.
  revert s. induction l as [| c l IH]; intros s Hs; cbn [fold_left]; [reflexivity |].
  destruct (compress1_spec s c Hs) as [Heq Hok]. rewrite <- Heq. exact (IH _ Hok).
Qed.

Lemma sha1_fips m :
  len m < 2 ^ 61 -> pad_fits 64 8 (len m) -> Sha1.sha1 m = Fips.sha1 m.
Proof.
  intros Hl Hfit. unfold Sha1.sha1, Fips.sha1.
  destruct (pad_blocks 6 8 m) as (n & _ & Hn); [lia | lia | change (2 ^ 6) with 64; lia |].
  change (Z.to_nat (2 ^ 6)) with 64%nat in Hn. change (2 ^ 6) with 64 in Hn.
  assert (Hp : pad 64 8 m = Fips.pad 64 8 m).
  { apply (pad_fits_fips 6 8 m); change (2 ^ 6) with 64; [lia.. | | done].
    change (2 ^ (8 * 8)) with (2 ^ 61 * 8). lia. }
  rewrite (chunks_blocks 64 _ n) by (done || lia).
  rewrite compress1_fold by (cbn; unfold word_ok; lia). rewrite Hp.
  change Sha1.init with Fips.H1.
  destruct (fold_left Fips.hash_block1 _ Fips.H1) as [[[[h0 h1] h2] h3] h4].
  unfold Sha1.digest. cbn [map concat]. by rewrite app_nil_r.
Qed.

(** ** SHA-256 and SHA-512 *)
Section Sha2Proof.
Context (p : Sha2.params) (v : Fips.variant).
Hypothesis Hag : agrees p v.

Lemma schedule2_at chunk t :
  (16 <= t < Sha2.rounds p)%nat ->
  word_at (Sha2.schedule p chunk) t = Sha2.next_word p (take t (Sha2.schedule p chunk)).
Proof using Hag.
  intros Ht. unfold Sha2.schedule. rewrite extend_schedule_at; [done |].
  cbn [prep_words length map seq]. lia.
Qed.

Lemma schedule2_spec chunk t fuel :
  (t < Sha2.rounds p)%nat -> (t < fuel)%nat ->
  word_at (Sha2.schedule p chunk) t = Fips.w2 v chunk fuel t.
Proof using Hag.
  pose proof (ag_rounds_min _ _ Hag) as Hmin.
  assert (Hlen : length (Sha2.schedule p chunk) = (16 + (Sha2.rounds p - 16))%nat)
    by (unfold Sha2.schedule; by rewrite length_extend_schedule).
  revert fuel. induction t as [t IH] using lt_wf_ind. intros [| fuel] Ht Hf; [lia |].
  cbn [Fips.w2]. destruct (Nat.ltb_spec t 16).
  - unfold Sha2.schedule. rewrite extend_schedule_low by done. rewrite prep_words_at by done.
    unfold Fips.word_bytes. by rewrite (ag_word _ _ Hag).
  - rewrite schedule2_at by lia. unfold Sha2.next_word. rewrite length_take_le by lia.
    rewrite !word_at_take by lia. rewrite <- !IH by lia.
    rewrite (ag_small0 _ _ Hag), (ag_small1 _ _ Hag), (ag_word _ _ Hag).
    unfold wrapping_add, wrap. mod_sums. f_equal. lia.
Qed.

Lemma rounds2_spec chunk l s :
  Forall (fun i => (i < Sha2.rounds p)%nat) l ->
  fold_left (Sha2.round p (Sha2.schedule p chunk)) l s = fold_left (Fips.step2 v chunk) l s.
Proof using Hag.
  intros Hl. revert s. induction Hl as [| i l Hi Hl IH]; intros s; cbn [fold_left]; [reflexivity |].
  rewrite <- IH. f_equal. destruct s as [[[[[[[a b] c] d] e] f] g] h].
  unfold Sha2.round, Fips.step2.
  rewrite (schedule2_spec _ i (S i)), (ag_big0 _ _ Hag), (ag_big1 _ _ Hag), (ag_K _ _ Hag),
    (ag_word _ _ Hag) by lia.
  unfold Fips.ch. rewrite <- bitnot_NOT by (pose proof (ag_width _ _ Hag); lia).
  unfold wrapping_add, wrap, Fips.maj. by mod_sums.
Qed.

Lemma compress2_spec s chunk : Sha2.compress p s chunk = Fips.hash_block2 v s chunk.
Proof using Hag.
  unfold Sha2.compress, Fips.hash_block2. rewrite rounds2_spec by apply Forall_seq_lt.
  by rewrite (ag_rounds _ _ Hag), (ag_word _ _ Hag).
Qed.

Lemma compress2_fold l s :
  fold_left (Sha2.compress p) l s = fold_left (Fips.hash_block2 v) l s.
Proof using Hag.
  revert s. induction l as [| c l IH]; intros s; cbn [fold_left]; [reflexivity |].
  by rewrite compress2_spec, IH.
Qed.

Lemma sha2_fips k m :
  0 <= k < 64 -> Z.of_nat (Sha2.block p) = 2 ^ k ->
  0 < Sha2.len_bytes p <= 2 ^ k -> len m + 1 + 2 ^ k < 2 ^ 64 ->
  len m * 8 < 2 ^ (8 * Sha2.len_bytes p) ->
  pad_fits (2 ^ k) (Sha2.len_bytes p) (len m) ->
  Sha2.sha2 p m = Fips.sha2 v m.
Proof using Hag.
  intros Hk Hb Hlb Hl Hbits Hfit. unfold Sha2.sha2, Fips.sha2.
  rewrite <- (ag_block _ _ Hag), <- (ag_len _ _ Hag), Nat2Z.id, Hb.
  destruct (pad_blocks k (Sha2.len_bytes p) m) as (n & _ & Hn); [done | lia | done |].
  rewrite <- Hb, Nat2Z.id in Hn. rewrite Hb in Hn.
  assert (0 < 2 ^ k) by (apply Z.pow_pos_nonneg; lia).
  rewrite (chunks_blocks _ _ n) by (done || lia).
  rewrite (pad_fits_fips k), compress2_fold by done.
  rewrite (ag_init _ _ Hag). cbn [map seq]. unfold Sha2.state_of. cbn [nth].
  destruct (fold_left (Fips.hash_block2 v) _ _) as [[[[[[[h0 h1] h2] h3] h4] h5] h6] h7].
  unfold Sha2.digest, Fips.word_bytes. by rewrite (ag_word _ _ Hag).
Qed.
End Sha2Proof.
