(* ===== verification/Encoding.v ===== *)
(** * The text encodings of zzclawterm-otp ([src/encoding])

    [Base32], [Hex] and [Url] model [base32.rs], [hex.rs] and [url.rs].  A
    [String] is its UTF-8 bytes.  The decoders' error values are those of the
    code; [Hex.decode] can also panic, on a slice that would cut a character. *)
From stdpp Require Import base list numbers strings.
From Stdlib Require Import ZArith Lia.
From S2P Require Import Prelude.

Module Base32.

Definition ALPHABET : list Z := bs "ABCDEFGHIJKLMNOPQRSTUVWXYZ234567".

Inductive error := InvalidChar (c : Z).

#[global] Instance error_eq_dec : EqDecision error.
Proof. solve_decision. Defined.

(** The inner [while bits_left >= 5] loop.  Each turn takes five bits, so the
    bit count itself is enough fuel. *)
Fixpoint emit (fuel : nat) (buffer bits_left : Z) (encoded : list Z) : Z * list Z :=
  match fuel with
  | O => (bits_left, encoded)
  | S fuel' =>
      if 5 <=? bits_left then
        let index := Z.land (Z.shiftr buffer (bits_left - 5)) 0x1F in
        emit fuel' buffer (bits_left - 5) (encoded ++ [nth (Z.to_nat index) ALPHABET 0])
      else (bits_left, encoded)
  end.

(** One turn of [for &byte in data]; [buffer] is a [u16]. *)
Definition encode_byte (st : Z * Z * list Z) (byte : Z) : Z * Z * list Z :=
  let '(buffer, bits_left, encoded) := st in
  let buffer := Z.lor (wrap 16 (Z.shiftl buffer 8)) byte in
  let bits_left := bits_left + 8 in
  let (bits_left, encoded) := emit (Z.to_nat bits_left) buffer bits_left encoded in
  (buffer, bits_left, encoded).

Definition encode (data : list Z) : list Z :=
  let '(buffer, bits_left, encoded) := fold_left encode_byte data (0, 0, []) in
  if 0 <? bits_left then
    let index := Z.land (wrap 16 (Z.shiftl buffer (5 - bits_left))) 0x1F in
    encoded ++ [nth (Z.to_nat index) ALPHABET 0]
  else encoded.

Definition char_value (b : Z) : option Z :=
  if (65 <=? b) && (b <=? 90) then Some (b - 65)
  else if (97 <=? b) && (b <=? 122) then Some (b - 97)
  else if (50 <=? b) && (b <=? 55) then Some (b - 50 + 26)
  else None.

(** The decoder's buffer is a [u32]. *)
Definition decode_char (buffer bits_left : Z) (output : list Z) (val : Z)
  : Z * Z * list Z :=
  let buffer := Z.lor (wrap 32 (Z.shiftl buffer 5)) val in
  let bits_left := bits_left + 5 in
  if 8 <=? bits_left then
    (buffer, bits_left - 8, output ++ [wrap 8 (Z.shiftr buffer (bits_left - 8))])
  else (buffer, bits_left, output).

Fixpoint decode_loop (data : list Z) (buffer bits_left : Z) (output : list Z)
  : result (list Z) error :=
  match data with
  | [] => Ok output
  | b :: data' =>
      match char_value b with
      | None => Err (InvalidChar b)
      | Some val =>
          let '(buffer, bits_left, output) := decode_char buffer bits_left output val in
          decode_loop data' buffer bits_left output
      end
  end.

Definition decode (data : list Z) : result (list Z) error := decode_loop data 0 0 [].

End Base32.

Module Hex.

(** [const HEX_BYTES]: the two digits of every byte value, in order. *)
Definition HEX_BYTES : list Z :=
  bs "000102030405060708090a0b0c0d0e0f101112131415161718191a1b1c1d1e1f"
  ++ bs "202122232425262728292a2b2c2d2e2f303132333435363738393a3b3c3d3e3f"
  ++ bs "404142434445464748494a4b4c4d4e4f505152535455565758595a5b5c5d5e5f"
  ++ bs "606162636465666768696a6b6c6d6e6f707172737475767778797a7b7c7d7e7f"
  ++ bs "808182838485868788898a8b8c8d8e8f909192939495969798999a9b9c9d9e9f"
  ++ bs "a0a1a2a3a4a5a6a7a8a9aaabacadaeafb0b1b2b3b4b5b6b7b8b9babbbcbdbebf"
  ++ bs "c0c1c2c3c4c5c6c7c8c9cacbcccdcecfd0d1d2d3d4d5d6d7d8d9dadbdcdddedf"
  ++ bs "e0e1e2e3e4e5e6e7e8e9eaebecedeeeff0f1f2f3f4f5f6f7f8f9fafbfcfdfeff".

(** [HEX_BYTES.get_unchecked(2 * b .. 2 * b + 2)]. *)
Definition hex_pair (b : Z) : list Z := take 2 (drop (Z.to_nat (2 * b)) HEX_BYTES).

Definition encode (data : list Z) : list Z := concat (map hex_pair data).

Inductive error := InvalidLength | ParseInt.

#[global] Instance hex_error_eq_dec : EqDecision error.
Proof. solve_decision. Defined.

(** The mapped closure on each [i] of [(0..data.len()).step_by(2)], collected
    until the first error.  [&data[i..i + 2]] panics unless [i + 2] is a
    character boundary of [data]; [i] is 0 or the previous end. *)
Fixpoint decode_pairs (data : list Z) : option (result (list Z) error) :=
  match data with
  | x :: y :: rest =>
      if match rest with z :: _ => cont z | [] => false end then None
      else
        match from_str_radix 16 U8_MAX [x; y] with
        | None => Some (Err ParseInt)
        | Some b =>
            let* r := decode_pairs rest in
            Some (let? bytes := r in Ok (b :: bytes))
        end
  | _ => Some (Ok [])
  end.

Definition decode (data : list Z) : option (result (list Z) error) :=
  if Z.odd (len data) then Some (Err InvalidLength) else decode_pairs data.

End Hex.

Module Url.

Definition SAFE_CHARS : list Z :=
  bs "ABCDEFGHIJKLMNOPQRSTUVWXYZabcdefghijklmnopqrstuvwxyz0123456789-_.~".

(** [format!("{b:02X}")] for a byte. *)
Definition upper_digit (d : Z) : Z := if d <? 10 then 48 + d else 55 + d.
Definition upper_hex (b : Z) : list Z := [upper_digit (b / 16); upper_digit (b mod 16)].

Definition encode_byte (b : Z) : list Z :=
  if bool_decide (b ∈ SAFE_CHARS) then [b] else 37 :: upper_hex b.

Definition encode (data : list Z) : list Z := concat (map encode_byte data).

Inductive error := InvalidHex (s : list Z) | UnexpectedEnd | InvalidUtf8.

#[global] Instance url_error_eq_dec : EqDecision error.
Proof. solve_decision. Defined.

(** The [while i < input.len()] loop. *)
Fixpoint decode_bytes (input : list Z) : result (list Z) error :=
  match input with
  | [] => Ok []
  | b :: rest =>
      if b =? 37 then
        match rest with
        | h1 :: h2 :: rest' =>
            let hex_str := if utf8_valid [h1; h2] then [h1; h2] else [] in
            let? byte := ok_or (from_str_radix 16 U8_MAX hex_str) (InvalidHex hex_str) in
            let? bytes := decode_bytes rest' in
            Ok (byte :: bytes)
        | _ => Err UnexpectedEnd
        end
      else
        let? bytes := decode_bytes rest in
        Ok (b :: bytes)
  end.

Definition decode (data : list Z) : result (list Z) error :=
  let? bytes := decode_bytes data in
  if utf8_valid bytes then Ok bytes else Err InvalidUtf8.

End Url.

(** ** Base 32 *)

(** A number in base [B], most significant digit first. *)
Definition from_base (B : Z) (l : list Z) : Z := fold_left (fun acc v => acc * B + v) l 0.

Lemma from_base_snoc B l v : from_base B (l ++ [v]) = from_base B l * B + v.
Proof. unfold from_base. by rewrite fold_left_app. Qed.

Lemma from_base_inj B l1 l2 :
  0 < B -> length l1 = length l2 ->
  Forall (fun v => 0 <= v < B) l1 -> Forall (fun v => 0 <= v < B) l2 ->
  from_base B l1 = from_base B l2 -> l1 = l2.
Proof.
  intros HB. revert l2. induction l1 as [| x l1 IH] using rev_ind; intros l2 Hl H1 H2 Heq.
  - by destruct l2.
  - destruct l2 as [| y l2 _] using rev_ind; [rewrite length_app in Hl; simpl in Hl; lia |].
    rewrite !length_app in Hl. simpl in Hl.
    apply Forall_app in H1 as [H1 Hx]. apply Forall_app in H2 as [H2 Hy].
    apply Forall_cons in Hx as [Hx _]. apply Forall_cons in Hy as [Hy _].
    rewrite !from_base_snoc in Heq.
    assert (x = y /\ from_base B l1 = from_base B l2) as [-> He].
    { assert (from_base B l1 = from_base B l2) by nia. lia. }
    f_equal. apply IH; (done || lia).
Qed.

Lemma alphabet_value v :
  0 <= v < 32 -> Base32.char_value (nth (Z.to_nat v) Base32.ALPHABET 0) = Some v.
Proof.
  intros Hv.
  assert (Hall : forallb (fun i => bool_decide
            (Base32.char_value (nth i Base32.ALPHABET 0) = Some (Z.of_nat i))) (seq 0 32) = true)
    by (vm_compute; done).
  rewrite forallb_forall in Hall. specialize (Hall (Z.to_nat v)).
  rewrite in_seq in Hall. specialize (Hall ltac:(lia)). apply bool_decide_eq_true in Hall.
  by rewrite Z2Nat.id in Hall by lia.
Qed.

Lemma lor_shiftl_small x v n :
  0 <= n -> 0 <= v < 2 ^ n -> Z.lor (Z.shiftl x n) v = x * 2 ^ n + v.
Proof.
  intros Hn Hv. rewrite <- Z.shiftl_mul_pow2 by lia.
  destruct (proj1 (range_bits n v ltac:(lia)) Hv) as [_ Hz].
  assert (Hd : Z.land (Z.shiftl x n) v = 0).
  { apply Z.bits_inj'. intros i Hi. rewrite Z.land_spec, Z.bits_0.
    destruct (Z.lt_ge_cases i n); [by rewrite Z.shiftl_spec_low |].
    rewrite Hz by lia. apply andb_false_r. }
  rewrite Z.add_nocarry_lxor by done. symmetry. by apply Z.lxor_lor.
Qed.

(** Shifting a buffer of [w] bits that keeps a number modulo [2 ^ w]. *)
Lemma buffer_shift w x v n :
  0 <= n <= w -> 0 <= v < 2 ^ n ->
  Z.lor (wrap w (Z.shiftl (x mod 2 ^ w) n)) v = (x * 2 ^ n + v) mod 2 ^ w.
Proof.
  intros Hn Hv.
  assert (Hsplit : 2 ^ w = 2 ^ (w - n) * 2 ^ n) by (rewrite <- Z.pow_add_r by lia; f_equal; lia).
  assert (0 < 2 ^ n) by (apply Z.pow_pos_nonneg; lia).
  assert (0 < 2 ^ (w - n)) by (apply Z.pow_pos_nonneg; lia).
  unfold wrap. rewrite Z.shiftl_mul_pow2 by lia.
  rewrite Z.mul_mod_idemp_l by lia.
  rewrite Hsplit, Z.mul_mod_distr_r by lia.
  rewrite <- Z.shiftl_mul_pow2 by lia. rewrite lor_shiftl_small by lia.
  pose proof (Z.mod_pos_bound x (2 ^ (w - n)) ltac:(lia)).
  pose proof (Z.div_mod x (2 ^ (w - n)) ltac:(lia)).
  apply Zmod_unique with (q := x / 2 ^ (w - n)); nia.
Qed.

(** Reading [k] bits at offset [s] of such a buffer reads them of the number. *)
Lemma buffer_bits w x s k :
  0 <= s -> 0 <= k -> s + k <= w ->
  Z.shiftr (x mod 2 ^ w) s mod 2 ^ k = Z.shiftr x s mod 2 ^ k.
Proof.
  intros Hs Hk Hw. apply Z.bits_inj'. intros i Hi.
  destruct (Z.lt_ge_cases i k).
  - rewrite !Z.mod_pow2_bits_low, !Z.shiftr_spec, Z.mod_pow2_bits_low by lia. done.
  - by rewrite !Z.mod_pow2_bits_high by lia.
Qed.

Lemma shiftr_digit x s k :
  0 <= s -> 0 <= k -> Z.shiftr x s = Z.shiftr x (s + k) * 2 ^ k + Z.shiftr x s mod 2 ^ k.
Proof.
  intros Hs Hk. rewrite <- Z.shiftr_shiftr by lia. rewrite (Z.shiftr_div_pow2 _ k) by lia.
  assert (0 < 2 ^ k) by (apply Z.pow_pos_nonneg; lia).
  pose proof (Z.div_mod (Z.shiftr x s) (2 ^ k) ltac:(lia)). lia.
Qed.

(** *** The decoder: its output is the number it read, less the bits it holds *)

Definition dec_inv (vs : list Z) (st : Z * Z * list Z) : Prop :=
  let '(buffer, bits_left, output) := st in
  let D := from_base 32 vs in
  buffer = D mod 2 ^ 32 /\ 0 <= bits_left < 8
  /\ 8 * len output + bits_left = 5 * len vs
  /\ bytes_ok output /\ from_base 256 output = Z.shiftr D bits_left.

Lemma dec_inv_step vs buffer bits_left output v :
  0 <= v < 32 -> dec_inv vs (buffer, bits_left, output) ->
  dec_inv (vs ++ [v]) (Base32.decode_char buffer bits_left output v).
Proof.
  intros Hv (-> & Hb & Hlen & Hok & Hout). unfold Base32.decode_char.
  rewrite (buffer_shift 32 _ v 5) by lia. change (2 ^ 5) with 32.
  rewrite <- from_base_snoc.
  set (D' := from_base 32 (vs ++ [v])).
  assert (HD : D' = from_base 32 vs * 32 + v) by apply from_base_snoc.
  assert (Hsh : Z.shiftr D' 5 = from_base 32 vs).
  { rewrite Z.shiftr_div_pow2, HD by lia. change (2 ^ 5) with 32.
    rewrite Z.div_add_l, Z.div_small by lia. lia. }
  destruct (Z.leb_spec 8 (bits_left + 5)); unfold dec_inv; rewrite length_app; cbn [length].
  - split_and!; try (done || lia).
    + rewrite length_app. cbn [length]. lia.
    + apply Forall_app. split; [done |]. repeat constructor; apply wrap8_ok.
    + rewrite from_base_snoc, Hout, <- Hsh, Z.shiftr_shiftr by lia.
      unfold wrap. rewrite buffer_bits by lia. fold D'.
      pose proof (shiftr_digit D' (bits_left + 5 - 8) 8 ltac:(lia) ltac:(lia)) as Hd.
      replace (bits_left + 5 - 8 + 8) with (5 + bits_left) in Hd by lia. lia.
  - split_and!; try (done || lia). rewrite Hout, <- Hsh, Z.shiftr_shiftr by lia.
    f_equal. lia.
Qed.

Lemma decode_loop_inv vs vs' buffer bits_left output :
  Forall (fun v => 0 <= v < 32) vs' -> dec_inv vs (buffer, bits_left, output) ->
  exists st, dec_inv (vs ++ vs') st /\
  Base32.decode_loop (map (fun v => nth (Z.to_nat v) Base32.ALPHABET 0) vs')
    buffer bits_left output = Ok st.2.
Proof.
  intros Hvs. revert vs buffer bits_left output.
  induction Hvs as [| v vs' Hv Hvs IH]; intros vs buffer bits_left output Hinv.
  - exists (buffer, bits_left, output). by rewrite app_nil_r.
  - cbn [map Base32.decode_loop]. rewrite alphabet_value by done.
    pose proof (dec_inv_step vs buffer bits_left output v Hv Hinv) as Hinv'.
    destruct (Base32.decode_char buffer bits_left output v) as [[b' n'] o'].
    destruct (IH _ _ _ _ Hinv') as (st & Hst & Heq).
    exists st. by rewrite <- app_assoc in Hst.
Qed.

(** *** The encoder: its characters are the number it read, less the bits it holds *)

Definition alpha (vs : list Z) : list Z := map (fun v => nth (Z.to_nat v) Base32.ALPHABET 0) vs.

Definition enc_inv (E n bits_left : Z) (encoded : list Z) : Prop :=
  exists vs, encoded = alpha vs /\ Forall (fun v => 0 <= v < 32) vs
  /\ 5 * len vs + bits_left = 8 * n /\ from_base 32 vs = Z.shiftr E bits_left.

Lemma land_31 x : Z.land x 31 = x mod 2 ^ 5.
Proof. change 31 with (Z.ones 5). by rewrite Z.land_ones by lia. Qed.

Lemma emit_inv fuel E n bits_left encoded :
  0 <= bits_left <= 16 -> (Z.to_nat bits_left <= fuel)%nat ->
  enc_inv E n bits_left encoded ->
  let '(bits', encoded') := Base32.emit fuel (E mod 2 ^ 16) bits_left encoded in
  0 <= bits' < 5 /\ enc_inv E n bits' encoded'.
Proof.
  revert bits_left encoded. induction fuel as [| f IH]; intros bits_left encoded Hb Hf Hinv;
    cbn [Base32.emit]; [split; [lia | done] |].
  destruct (Z.leb_spec 5 bits_left); [| split; [lia | done]].
  apply IH; [lia | lia |]. destruct Hinv as (vs & -> & Hvs & Hlen & Hval).
  rewrite land_31, buffer_bits by lia.
  pose proof (Z.mod_pos_bound (Z.shiftr E (bits_left - 5)) (2 ^ 5) ltac:(lia)).
  exists (vs ++ [Z.shiftr E (bits_left - 5) mod 2 ^ 5]). split_and!.
  - unfold alpha. by rewrite map_app.
  - apply Forall_app. split; [done |]. by apply Forall_singleton.
  - rewrite length_app. cbn [length]. lia.
  - rewrite from_base_snoc, Hval.
    pose proof (shiftr_digit E (bits_left - 5) 5 ltac:(lia) ltac:(lia)) as Hd.
    replace (bits_left - 5 + 5) with bits_left in Hd by lia. lia.
Qed.

Definition enc_state (l : list Z) (st : Z * Z * list Z) : Prop :=
  let '(buffer, bits_left, encoded) := st in
  buffer = from_base 256 l mod 2 ^ 16 /\ 0 <= bits_left < 5
  /\ enc_inv (from_base 256 l) (len l) bits_left encoded.

Lemma encode_byte_inv l st b :
  byte_ok b -> enc_state l st -> enc_state (l ++ [b]) (Base32.encode_byte st b).
Proof.
  destruct st as [[buffer bits_left] encoded]. unfold byte_ok.
  intros Hb (-> & Hbits & vs & -> & Hvs & Hlen & Hval). unfold Base32.encode_byte.
  rewrite (buffer_shift 16 _ b 8) by lia. change (2 ^ 8) with 256.
  rewrite <- from_base_snoc.
  assert (Hinv : enc_inv (from_base 256 (l ++ [b])) (len (l ++ [b])) (bits_left + 8) (alpha vs)).
  { exists vs. rewrite length_app. cbn [length]. split_and!; try (done || lia).
    rewrite Hval, from_base_snoc, (Z.add_comm bits_left 8), <- Z.shiftr_shiftr by lia.
    f_equal. rewrite Z.shiftr_div_pow2 by lia. change (2 ^ 8) with 256.
    rewrite Z.div_add_l, Z.div_small by lia. lia. }
  pose proof (fun h1 h2 => emit_inv (Z.to_nat (bits_left + 8)) _ _ _ _ h1 h2 Hinv) as He.
  specialize (He ltac:(lia) ltac:(lia)).
  destruct (Base32.emit _ _ _ _) as [bits' encoded']. by destruct He.
Qed.

Lemma encode_fold_inv l l' st :
  bytes_ok l' -> enc_state l st -> enc_state (l ++ l') (fold_left Base32.encode_byte l' st).
Proof.
  intros Hl'. revert l st. induction Hl' as [| b l' Hb Hl' IH]; intros l st Hst; cbn [fold_left].
  - by rewrite app_nil_r.
  - rewrite (app_assoc l [b] l' : l ++ b :: l' = _). apply IH. by apply encode_byte_inv.
Qed.

(** The characters [encode] produces, as digits: the number shifted up to a
    multiple of five bits. *)
Lemma encode_digits l :
  bytes_ok l -> exists vs pad, Base32.encode l = alpha vs /\ Forall (fun v => 0 <= v < 32) vs
  /\ 0 <= pad < 5 /\ 5 * len vs = 8 * len l + pad
  /\ from_base 32 vs = from_base 256 l * 2 ^ pad.
Proof.
  intros Hl. pose proof (encode_fold_inv [] l (0, 0, []) Hl) as Hst.
  unfold Base32.encode. destruct (fold_left _ l _) as [[buffer bits_left] encoded].
  destruct Hst as (-> & Hb & vs & -> & Hvs & Hlen & Hval); [by repeat (split || exists []) |].
  cbn [app] in *. destruct (Z.ltb_spec 0 bits_left).
  - set (E := from_base 256 l) in *.
    set (v := Z.shiftl E (5 - bits_left) mod 2 ^ 5).
    pose proof (Z.mod_pos_bound (Z.shiftl E (5 - bits_left)) (2 ^ 5) ltac:(lia)) as Hv.
    exists (vs ++ [v]), (5 - bits_left). split_and!; try lia.
    + unfold alpha. rewrite map_app. cbn [map]. do 4 f_equal.
      rewrite land_31. unfold v, wrap. rewrite !Z.shiftl_mul_pow2 by lia.
      change (2 ^ 16) with (2 ^ 11 * 2 ^ 5). rewrite Z.mul_mod_idemp_l by lia.
      by rewrite Z.mod_mod_divide by (by exists (2 ^ 11)).
    + apply Forall_app. split; [done |]. by apply Forall_singleton.
    + rewrite length_app. cbn [length]. lia.
    + rewrite from_base_snoc, Hval.
      assert (Hpow : 2 ^ 5 = 2 ^ bits_left * 2 ^ (5 - bits_left))
        by (rewrite <- Z.pow_add_r by lia; f_equal; lia).
      assert (0 < 2 ^ bits_left) by (apply Z.pow_pos_nonneg; lia).
      assert (0 < 2 ^ (5 - bits_left)) by (apply Z.pow_pos_nonneg; lia).
      unfold v. rewrite Z.shiftl_mul_pow2, Z.shiftr_div_pow2 by lia.
      rewrite Hpow, Z.mul_mod_distr_r by lia.
      pose proof (Z.div_mod E (2 ^ bits_left) ltac:(lia)).
      change 32 with (2 ^ 5). rewrite Hpow. nia.
  - assert (bits_left = 0) as -> by lia. exists vs, 0. rewrite Z.shiftr_0_r in Hval.
    change (2 ^ 0) with 1. split_and!; try (done || lia).
Qed.

Lemma base32_roundtrip l : bytes_ok l -> Base32.decode (Base32.encode l) = Ok l.
Proof.
  intros Hl. destruct (encode_digits l Hl) as (vs & pd & -> & Hvs & Hpd & Hlen & Hval).
  unfold Base32.decode.
  destruct (decode_loop_inv [] vs 0 0 [] Hvs) as (((b & n) & o) & Hinv & Heq);
    [by repeat (split || constructor) |].
  unfold alpha. rewrite Heq. cbn [app] in Hinv.
  destruct Hinv as (_ & Hn & Hl2 & Hok & Ho). cbn [snd]. f_equal.
  apply (from_base_inj 256); [lia | lia | done | done |].
  rewrite Ho, Hval. assert (n = pd) as -> by lia.
  assert (0 < 2 ^ pd) by (apply Z.pow_pos_nonneg; lia).
  rewrite Z.shiftr_div_pow2, Z.div_mul by lia. done.
Qed.

(** Which strings decode, and which byte an error names. *)
Lemma decode_loop_error data buffer bits_left output :
  match position (fun b => bool_decide (Base32.char_value b = None)) data with
  | Some i => Base32.decode_loop data buffer bits_left output
              = Err (Base32.InvalidChar (nth i data 0))
  | None => exists o, Base32.decode_loop data buffer bits_left output = Ok o
  end.
Proof.
  revert buffer bits_left output. induction data as [| b data IH]; intros; [by eexists |].
  cbn [position Base32.decode_loop].
  destruct (Base32.char_value b) as [v |] eqn:E; cbn [bool_decide].
  - rewrite bool_decide_eq_false_2 by done.
    destruct (Base32.decode_char buffer bits_left output v) as [[b' n'] o'].
    specialize (IH b' n' o'). by destruct (position _ data).
  - by rewrite bool_decide_eq_true_2.
Qed.

Lemma alpha_ascii vs :
  Forall (fun v => 0 <= v < 32) vs ->
  Forall (fun c => is_Some (Base32.char_value c)) (alpha vs).
Proof.
  induction 1 as [| v vs Hv _ IH]; cbn [alpha map]; constructor; [| done].
  rewrite alphabet_value by done. by eexists.
Qed.

Lemma encode_chars l :
  bytes_ok l -> Forall (fun c => is_Some (Base32.char_value c)) (Base32.encode l).
Proof.
  intros Hl. destruct (encode_digits l Hl) as (vs & pd & -> & Hvs & _). by apply alpha_ascii.
Qed.

(** ** Hexadecimal *)

Definition pair_parses (p : Z -> list Z) (b : Z) : bool :=
  bool_decide (length (p b) = 2%nat
    /\ Forall (fun c => 48 <= c <= 127) (p b)
    /\ from_str_radix 16 U8_MAX (p b) = Some b).

Lemma hex_pair_parses b : byte_ok b -> pair_parses Hex.hex_pair b = true.
Proof. apply (byte_forall (pair_parses Hex.hex_pair)). vm_compute. done. Qed.

Lemma upper_hex_parses b : byte_ok b -> pair_parses Url.upper_hex b = true.
Proof. apply (byte_forall (pair_parses Url.upper_hex)). vm_compute. done. Qed.

Lemma pair_parses_spec p b :
  pair_parses p b = true ->
  exists x y, p b = [x; y] /\ 48 <= x <= 127 /\ 48 <= y <= 127
  /\ from_str_radix 16 U8_MAX [x; y] = Some b.
Proof.
  intros (Hl & Ha & Hp)%bool_decide_eq_true.
  destruct (p b) as [| x [| y [|]]]; try discriminate Hl.
  apply Forall_cons in Ha as [Hx Ha]. apply Forall_cons in Ha as [Hy _].
  by exists x, y.
Qed.

Lemma cont_ascii c : 0 <= c <= 127 -> cont c = false.
Proof. intros. unfold cont. by bool_cases; lia. Qed.

Lemma hex_encode_head l :
  bytes_ok l -> match Hex.encode l with z :: _ => cont z | [] => false end = false.
Proof.
  destruct 1 as [| b l Hb Hl]; [done |]. unfold Hex.encode. cbn [map concat].
  destruct (pair_parses_spec _ b (hex_pair_parses b Hb)) as (x & y & -> & Hx & _).
  apply cont_ascii. lia.
Qed.

Lemma hex_length_even l : bytes_ok l -> Z.odd (len (Hex.encode l)) = false.
Proof.
  induction 1 as [| b l Hb Hl IH]; [done |]. unfold Hex.encode in *. cbn [map concat].
  destruct (pair_parses_spec _ b (hex_pair_parses b Hb)) as (x & y & -> & _).
  cbn [app length]. rewrite !Nat2Z.inj_succ, Z.odd_succ_succ. done.
Qed.

Lemma hex_roundtrip l : bytes_ok l -> Hex.decode (Hex.encode l) = Some (Ok l).
Proof.
  intros Hl. unfold Hex.decode. rewrite hex_length_even by done.
  induction Hl as [| b l Hb Hl IH]; [done |].
  pose proof (hex_encode_head l Hl) as Hh. unfold Hex.encode in *. cbn [map concat].
  destruct (pair_parses_spec _ b (hex_pair_parses b Hb)) as (x & y & -> & _ & _ & Hp).
  cbn [app Hex.decode_pairs]. by rewrite Hh, Hp, IH.
Qed.

Lemma hex_decode_ascii_total data :
  Forall (fun c => 0 <= c <= 127) data -> is_Some (Hex.decode data).
Proof.
  intros Ha. unfold Hex.decode. destruct (Z.odd (len data)); [by eexists |].
  assert (Hn : forall n, (length data <= n)%nat -> is_Some (Hex.decode_pairs data)).
  2: by apply (Hn (length data)).
  intros n. revert data Ha. induction n as [| n IH]; intros [| x [| y rest]] Ha Hlen;
    cbn [Hex.decode_pairs length] in *; try (by eexists); [lia |].
  apply Forall_cons in Ha as [_ Ha]. apply Forall_cons in Ha as [_ Ha].
  assert (Hc : match rest with z :: _ => cont z | [] => false end = false).
  { destruct Ha; [done |]. by apply cont_ascii. }
  rewrite Hc. destruct (from_str_radix 16 255 [x; y]); [| by eexists].
  destruct (IH rest Ha ltac:(lia)) as [r ->]. by eexists.
Qed.

(** ** Percent encoding *)

Definition url_out (c : Z) : Prop := c ∈ 37 :: Url.SAFE_CHARS.

Lemma upper_digit_safe d : 0 <= d < 16 -> Url.upper_digit d ∈ Url.SAFE_CHARS.
Proof.
  intros Hd. rewrite <- (bool_decide_eq_true (Url.upper_digit d ∈ Url.SAFE_CHARS)).
  assert (Hall : forallb (fun i => bool_decide (Url.upper_digit (Z.of_nat i) ∈ Url.SAFE_CHARS))
                   (seq 0 16) = true) by (vm_compute; done).
  rewrite forallb_forall in Hall. specialize (Hall (Z.to_nat d)).
  rewrite in_seq, Z2Nat.id in Hall by lia. apply Hall. lia.
Qed.

Lemma url_encode_out l : bytes_ok l -> Forall url_out (Url.encode l).
Proof.
  unfold byte_ok. induction 1 as [| b l Hb Hl IH]; [constructor |].
  unfold Url.encode in *. cbn [map concat]. apply Forall_app. split; [| done].
  unfold Url.encode_byte, url_out. case_bool_decide.
  - apply Forall_singleton. by right.
  - pose proof (Z.mod_pos_bound b 16 ltac:(lia)).
    assert (0 <= b / 16 < 16) by (split; [apply Z.div_pos | apply Z.div_lt_upper_bound]; lia).
    repeat apply Forall_cons_2; [by left | right.. | constructor];
      by apply upper_digit_safe.
Qed.

Lemma url_out_not c x : url_out x -> bool_decide (c ∈ 37 :: Url.SAFE_CHARS) = false -> x <> c.
Proof. unfold url_out. intros Hx Hc ->. by apply bool_decide_eq_false in Hc. Qed.

Lemma url_encode_absent c l :
  bytes_ok l -> bool_decide (c ∈ 37 :: Url.SAFE_CHARS) = false -> ~ In c (Url.encode l).
Proof.
  intros Hl Hc Hin. pose proof (url_encode_out l Hl) as Hall.
  rewrite Forall_forall in Hall. apply list_elem_of_In in Hin.
  by apply (url_out_not c c (Hall c Hin) Hc).
Qed.

Lemma url_decode_encode_bytes l : bytes_ok l -> Url.decode_bytes (Url.encode l) = Ok l.
Proof.
  induction 1 as [| b l Hb Hl IH]; [done |].
  unfold Url.encode in *. cbn [map concat]. unfold Url.encode_byte at 1. case_bool_decide as Hs.
  - cbn [app Url.decode_bytes]. destruct (Z.eqb_spec b 37) as [-> | _].
    + exfalso. revert Hs. apply (bool_decide_eq_false (37 ∈ Url.SAFE_CHARS)). by vm_compute.
    + by rewrite IH.
  - destruct (pair_parses_spec _ b (upper_hex_parses b Hb)) as (x & y & -> & Hx & Hy & Hp).
    cbn [app Url.decode_bytes]. rewrite Z.eqb_refl.
    rewrite utf8_valid_ascii by (repeat constructor; lia). rewrite Hp. cbn. by rewrite IH.
Qed.

Lemma url_roundtrip l :
  bytes_ok l -> utf8_valid l = true -> Url.decode (Url.encode l) = Ok l.
Proof.
  intros Hl Hu. unfold Url.decode. rewrite url_decode_encode_bytes by done. cbn. by rewrite Hu.
Qed.

(** ** Properties *)

(** [base32::decode] inverts [base32::encode]. *)
Theorem base32_decode_encode l : bytes_ok l -> Base32.decode (Base32.encode l) = Ok l.
Proof. apply base32_roundtrip. Qed.

Lemma base32_decode_encode_witness :
  Base32.decode (Base32.encode [255; 0; 17]) = Ok [255; 0; 17].
Proof. apply base32_decode_encode. repeat constructor; unfold byte_ok; lia. Defined.

(** [base32::decode] fails exactly when the input has a byte outside the
    alphabet (letters of either case, [2] to [7]), and the error names the
    first such byte. *)
Theorem base32_decode_error data :
  match position (fun b => bool_decide (Base32.char_value b = None)) data with
  | Some i => Base32.decode data = Err (Base32.InvalidChar (nth i data 0))
  | None => exists out, Base32.decode data = Ok out
  end.
Proof. apply decode_loop_error. Qed.

(** [hex::decode] inverts [hex::encode] without panicking. *)
Theorem hex_decode_encode l : bytes_ok l -> Hex.decode (Hex.encode l) = Some (Ok l).
Proof. apply hex_roundtrip. Qed.

Lemma hex_decode_encode_witness : Hex.decode (Hex.encode [255; 0; 17]) = Some (Ok [255; 0; 17]).
Proof. apply hex_decode_encode. repeat constructor; unfold byte_ok; lia. Defined.

(** Percent-encoding produces only unreserved characters and [%], and
    [url::decode] inverts it on every UTF-8 string. *)
Theorem url_decode_encode l :
  bytes_ok l -> utf8_valid l = true ->
  Forall (fun c => c ∈ 37 :: Url.SAFE_CHARS) (Url.encode l) /\ Url.decode (Url.encode l) = Ok l.
Proof. intros Hl Hu. split; [by apply url_encode_out | by apply url_roundtrip]. Qed.

Lemma url_decode_encode_witness :
  Url.decode (Url.encode [195; 169; 38]) = Ok [195; 169; 38].
Proof. apply url_decode_encode; [repeat constructor; unfold byte_ok; lia | done]. Defined.
