(* ===== verification/Otp.v ===== *)
(** * One-time passwords: zzclawterm-otp ([alg/mod.rs], [secret.rs], [hmac.rs],
    [hotp.rs], [totp.rs])

    [Algorithm], [hmac], [Hotp] and [Totp] model the crate's API.  Every
    operation that can panic returns an [option], [None] being the panic: an
    index out of range, a division by zero, or an arithmetic overflow in a build
    with overflow checks.  [checks] says whether the build has them (the dev
    profile does, the release profile does not and wraps). *)
From stdpp Require Import base list numbers strings gmap.
From Stdlib Require Import ZArith Lia.
From S2P Require Import Prelude Sha ShaSpec Encoding.

(** ** Algorithm *)

Inductive Algorithm := SHA1 | SHA256 | SHA512.

#[global] Instance algorithm_eq_dec : EqDecision Algorithm.
Proof. solve_decision. Defined.

Definition hash_bytes (alg : Algorithm) (data : list Z) : list Z :=
  match alg with
  | SHA1 => Sha1.sha1 data
  | SHA256 => Sha2.sha256 data
  | SHA512 => Sha2.sha512 data
  end.

Definition hash_hex (alg : Algorithm) (data : list Z) : list Z :=
  match alg with
  | SHA1 => Hex.encode (Sha1.sha1 data)
  | SHA256 => Hex.encode (Sha2.sha256 data)
  | SHA512 => Hex.encode (Sha2.sha512 data)
  end.

(** [Display] for [Algorithm]. *)
Definition alg_name (alg : Algorithm) : list Z :=
  match alg with
  | SHA1 => bs "SHA1"
  | SHA256 => bs "SHA256"
  | SHA512 => bs "SHA512"
  end.

(** ** HMAC *)

Definition HMAC_INNER_PAD : Z := 0x36.
Definition HMAC_OUTER_PAD : Z := 0x5c.

Definition block_size (alg : Algorithm) : nat :=
  match alg with SHA1 | SHA256 => 64 | SHA512 => 128 end.

Definition key_block (alg : Algorithm) (key : list Z) : list Z :=
  let k := if bool_decide (block_size alg < length key)%nat then hash_bytes alg key else key in
  k ++ replicate (block_size alg - length k) 0.

Definition hmac (alg : Algorithm) (key message : list Z) : list Z :=
  let kb := key_block alg key in
  let inner_key_pad := map (fun b => Z.lxor b HMAC_INNER_PAD) kb in
  let outer_key_pad := map (fun b => Z.lxor b HMAC_OUTER_PAD) kb in
  let inner_hash := hash_bytes alg (inner_key_pad ++ message) in
  hash_bytes alg (outer_key_pad ++ inner_hash).

(** ** Arithmetic that can overflow *)

Section Otp.
Context (checks : bool).

Definition add_u64 (x y : Z) : option Z :=
  if x + y <=? U64_MAX then Some (x + y)
  else if checks then None else Some (wrap 64 (x + y)).

(** [10_u32.pow(exp)]. *)
Definition pow10_u32 (exp : Z) : option Z :=
  if 10 ^ exp <=? U32_MAX then Some (10 ^ exp)
  else if checks then None else Some (wrap 32 (10 ^ exp)).

(** [x % y] panics on zero in every build. *)
Definition rem_checked (x y : Z) : option Z := if y =? 0 then None else Some (x mod y).
Definition div_checked (x y : Z) : option Z := if y =? 0 then None else Some (x / y).

(** ** HOTP *)

(** [Secret] is a newtype over its bytes. *)
Record Hotp := mkHotp {
  alg : Algorithm;
  issuer : list Z;
  label : list Z;
  digits : Z;
  counter : Z;
  secret : list Z
}.

Definition hotp_default : Hotp := mkHotp SHA1 [] [] 6 0 [].

Definition hotp_new (a : Algorithm) (iss lab : list Z) (dig cnt : Z) (sec : list Z) : Hotp :=
  mkHotp a iss lab dig cnt sec.

(** Dynamic truncation and reduction in [Hotp::generate_at]. *)
Definition truncate (h : list Z) : option Z :=
  let* last_byte := last h in
  let offset := Z.to_nat (Z.land last_byte 0x0f) in
  let* b0 := h !! offset in
  let* b1 := h !! (offset + 1)%nat in
  let* b2 := h !! (offset + 2)%nat in
  let* b3 := h !! (offset + 3)%nat in
  Some (Z.lor (Z.lor (Z.lor (Z.shiftl (Z.land b0 0x7f) 24) (Z.shiftl b1 16))
                     (Z.shiftl b2 8)) b3).

Definition hotp_generate_at (self : Hotp) (counter : Z) : option Z :=
  let message := to_be_bytes 8 counter in
  let hmac_result := hmac (alg self) (secret self) message in
  let* code := truncate hmac_result in
  let* modulus := pow10_u32 (digits self) in
  rem_checked code modulus.

(** [Hotp::generate]: the password and the advanced generator. *)
Definition hotp_generate (self : Hotp) : option (Z * Hotp) :=
  let* otp := hotp_generate_at self (counter self) in
  let* counter' := add_u64 (counter self) 1 in
  Some (otp, mkHotp (alg self) (issuer self) (label self) (digits self) counter' (secret self)).

(** [for i in 1..=window], from [i] on, with [n] turns to go. *)
Fixpoint verify_loop (self : Hotp) (otp counter i : Z) (n : nat) : option bool :=
  match n with
  | O => Some false
  | S n' =>
      let* below :=
        (if i <=? counter then
           let* c := hotp_generate_at self (counter - i) in Some (c =? otp)
         else Some false) in
      if below then Some true
      else
        let* above_counter := add_u64 counter i in
        let* above := hotp_generate_at self above_counter in
        if above =? otp then Some true
        else verify_loop self otp counter (i + 1) n'
  end.

Definition hotp_verify (self : Hotp) (otp counter window : Z) : option bool :=
  let* here := hotp_generate_at self counter in
  if here =? otp then Some true
  else verify_loop self otp counter 1 (Z.to_nat window).

(** ** TOTP *)

Record Totp := mkTotp { period : Z; hotp : Hotp }.

Definition totp_default : Totp := mkTotp 30 hotp_default.

Definition totp_new (a : Algorithm) (iss lab : list Z) (dig per : Z) (sec : list Z) : Totp :=
  mkTotp per (hotp_new a iss lab dig 0 sec).

Definition totp_generate_at (self : Totp) (timestamp_secs : Z) : option Z :=
  let* counter := div_checked timestamp_secs (period self) in
  hotp_generate_at (hotp self) counter.

(** [Totp::generate], with the clock's seconds since the epoch as an argument. *)
Definition totp_generate (now : Z) (self : Totp) : option Z := totp_generate_at self now.

Definition totp_verify (self : Totp) (otp timestamp_secs window : Z) : option bool :=
  let* counter := div_checked timestamp_secs (period self) in
  hotp_verify (hotp self) otp counter window.

End Otp.

(** ** Key URIs *)

(** The parts of [to_uri] that both types share. *)
Definition uri_label (h : Hotp) : list Z :=
  if beq (issuer h) [] then Url.encode (label h)
  else Url.encode (issuer h ++ bs ":" ++ label h).

Definition uri_issuer (h : Hotp) : list Z :=
  if beq (issuer h) [] then [] else bs "&issuer=" ++ Url.encode (issuer h).

Definition uri_tail (h : Hotp) : list Z :=
  uri_label h ++ bs "?secret=" ++ Base32.encode (secret h) ++ uri_issuer h
    ++ bs "&algorithm=" ++ alg_name (alg h) ++ bs "&digits=" ++ show_u64 (digits h).

Definition hotp_to_uri (h : Hotp) : list Z :=
  bs "otpauth://hotp/" ++ uri_tail h ++ bs "&counter=" ++ show_u64 (counter h).

Definition totp_to_uri (t : Totp) : list Z :=
  bs "otpauth://totp/" ++ uri_tail (hotp t) ++ bs "&period=" ++ show_u64 (period t).

(** The errors of [hotp.rs] and [totp.rs] ([InvalidPeriod] is TOTP's,
    [InvalidCounter] and [MissingCounter] are HOTP's). *)
Inductive ParseUriError :=
| InvalidPrefix | InvalidFormat | InvalidLabel | InvalidIssuer | InvalidDigits
| InvalidPeriod | InvalidCounter | InvalidSecret | InvalidAlgorithm | IssuerMismatch
| MissingSecret | MissingCounter.

#[global] Instance parse_uri_error_eq_dec : EqDecision ParseUriError.
Proof. solve_decision. Defined.

(** [queries.split('&').map(..).collect::<HashMap<_, _>>()]: a later duplicate
    of a key replaces the earlier one. *)
Definition query_pair (param : list Z) : list Z * list Z :=
  match split_once 61 param with Some kv => kv | None => (param, []) end.

Definition query_params (queries : list Z) : gmap (list Z) (list Z) :=
  fold_left (fun m kv => <[kv.1 := kv.2]> m) (map query_pair (split_on 38 queries)) ∅.

(** [str::to_uppercase], as far as equality with the algorithm names can see
    it: besides ASCII, only U+017F (bytes 197 191) has an upper case made of
    their letters. *)
Fixpoint to_uppercase (s : list Z) : list Z :=
  match s with
  | 197 :: (191 :: s') => 83 :: to_uppercase s'
  | b :: s' => (if (97 <=? b) && (b <=? 122) then b - 32 else b) :: to_uppercase s'
  | [] => []
  end.

Definition parse_algorithm (s : list Z) : result Algorithm ParseUriError :=
  let s := to_uppercase s in
  if beq s (bs "SHA1") then Ok SHA1
  else if beq s (bs "SHA256") then Ok SHA256
  else if beq s (bs "SHA512") then Ok SHA512
  else Err InvalidAlgorithm.

(** [if let Some((issuer, label)) = label_decoded.split_once(':')]. *)
Definition split_label (decoded : list Z) : option (list Z) * list Z :=
  match split_once 58 decoded with
  | Some (i, l) => (Some i, l)
  | None => (None, decoded)
  end.

Definition merge_issuer (from_label from_param : option (list Z))
  : result (list Z) ParseUriError :=
  match from_label, from_param with
  | None, None => Ok []
  | None, Some p => Ok p
  | Some l, None => Ok l
  | Some l, Some p => if beq l p then Ok p else Err IssuerMismatch
  end.

(** [.map(f).transpose()]. *)
Definition map_transpose {A B E} (o : option A) (f : A -> result B E) : result (option B) E :=
  match o with None => Ok None | Some a => let? b := f a in Ok (Some b) end.

Definition parse_label (uri prefix : list Z)
  : result (option (list Z) * list Z * gmap (list Z) (list Z)) ParseUriError :=
  let? rest := ok_or (strip_prefix prefix uri) InvalidPrefix in
  let? parts := ok_or (split_once 63 rest) InvalidFormat in
  let (label_encoded, queries) := parts : list Z * list Z in
  if beq label_encoded [] then Err InvalidLabel
  else
    let? label_decoded := map_err (fun _ => InvalidLabel) (Url.decode label_encoded) in
    let (issuer_from_label, label) := split_label label_decoded in
    Ok (issuer_from_label, label, query_params queries).

Definition parse_uint (params : gmap (list Z) (list Z)) (key : list Z) (default mx : Z)
  (e : ParseUriError) : result Z ParseUriError :=
  match params !! key with
  | None => Ok default
  | Some val => ok_or (from_str_radix 10 mx val) e
  end.

Definition parse_secret (params : gmap (list Z) (list Z)) : result (list Z) ParseUriError :=
  let? raw_secret := ok_or (params !! bs "secret") MissingSecret in
  map_err (fun _ => InvalidSecret) (Base32.decode raw_secret).

Definition parse_issuer (from_label : option (list Z)) (params : gmap (list Z) (list Z))
  : result (list Z) ParseUriError :=
  let? issuer_from_param :=
    map_transpose (params !! bs "issuer")
      (fun iss => map_err (fun _ => InvalidIssuer) (Url.decode iss)) in
  merge_issuer from_label issuer_from_param.

Definition alg_or_default (a : option Algorithm) : Algorithm :=
  match a with Some a => a | None => SHA1 end.

Definition totp_from_uri (uri : list Z) : result Totp ParseUriError :=
  let? p := parse_label uri (bs "otpauth://totp/") in
  let '(from_label, label, params) := p in
  let? digits := parse_uint params (bs "digits") 6 U8_MAX InvalidDigits in
  let? period := parse_uint params (bs "period") 30 U64_MAX InvalidPeriod in
  let? secret := parse_secret params in
  let? issuer := parse_issuer from_label params in
  let? alg := map_transpose (params !! bs "algorithm") parse_algorithm in
  Ok (totp_new (alg_or_default alg) issuer label digits period secret).

Definition hotp_from_uri (uri : list Z) : result Hotp ParseUriError :=
  let? p := parse_label uri (bs "otpauth://hotp/") in
  let '(from_label, label, params) := p in
  let? digits := parse_uint params (bs "digits") 6 U8_MAX InvalidDigits in
  let? raw_counter := ok_or (params !! bs "counter") MissingCounter in
  let? counter := ok_or (from_str_radix 10 U64_MAX raw_counter) InvalidCounter in
  let? secret := parse_secret params in
  let? issuer := parse_issuer from_label params in
  let? alg := map_transpose (params !! bs "algorithm") parse_algorithm in
  Ok (hotp_new (alg_or_default alg) issuer label digits counter secret).
