(* ===== verification/OtpSpec.v ===== *)
(** * One-time passwords: the standards and the proofs

    [Rfc] restates HMAC (RFC 2104), dynamic truncation and HOTP (RFC 4226) over
    the hash functions of FIPS 180-4 ([ShaSpec]).  The lemmas relate [hmac],
    [hotp_generate_at], [hotp_verify] and the key URIs of [Otp] to them. *)
From stdpp Require Import base list numbers strings gmap.
From Stdlib Require Import ZArith Lia.
From S2P Require Import Prelude Sha ShaSpec Encoding Otp.

(** ** Standards *)
Module Rfc.

Definition hash (a : Algorithm) : list Z -> list Z :=
  match a with
  | SHA1 => Fips.sha1
  | SHA256 => Fips.sha256
  | SHA512 => Fips.sha512
  end.

(** The block size [B] of RFC 2104 for each hash. *)
Definition B (a : Algorithm) : nat := match a with SHA512 => 128 | _ => 64 end.

Definition xor_pad (c : Z) (k : list Z) : list Z := map (fun b => Z.lxor b c) k.

(** RFC 2104, section 2. *)
Definition hmac (a : Algorithm) (key text : list Z) : list Z :=
  let k := if (length key <=? B a)%nat then key else hash a key in
  let k0 := resize (B a) 0 k in
  hash a (xor_pad 0x5c k0 ++ hash a (xor_pad 0x36 k0 ++ text)).

(** RFC 4226, section 5.3: the low 31 bits of the four bytes at the offset that
    the low 4 bits of the last byte give. *)
Definition dt (h : list Z) : Z :=
  let offset := nth (length h - 1) h 0 mod 16 in
  from_be_bytes (take 4 (drop (Z.to_nat offset) h)) mod 2 ^ 31.

Definition hotp (a : Algorithm) (key : list Z) (counter d : Z) : Z :=
  dt (hmac a key (to_be_bytes 8 counter)) mod 10 ^ d.

End Rfc.

(** The message lengths whose padding [alg/*.rs] computes as FIPS does. *)
Definition alg_fits (a : Algorithm) (l : Z) : Prop :=
  match a with SHA1 | SHA256 => pad_fits 64 8 l | SHA512 => pad_fits 128 16 l end.

#[global] Instance alg_fits_dec a l : Decision (alg_fits a l).
Proof. unfold alg_fits, pad_fits. destruct a; apply _. Defined.

(** ** Digests

    What [hmac] and the truncation rely on of a hash function. *)
Class Digest (H : list Z -> list Z) := {
  digest_len : nat;
  digest_length m : length (H m) = digest_len;
  digest_bytes m : bytes_ok (H m);
  digest_min : (20 <= digest_len)%nat
}.

Lemma concat_be_bytes n ws :
  bytes_ok (concat (map (to_be_bytes n) ws))
  /\ length (concat (map (to_be_bytes n) ws)) = (length ws * n)%nat.
Proof.
  induction ws as [| w ws [IH1 IH2]]; cbn [map concat length]; [done |].
  rewrite length_app, length_to_be_bytes, IH2. split; [| lia].
  apply Forall_app. auto with rust.
Qed.

Lemma sha1_digest_shape st : bytes_ok (Sha1.digest st) /\ length (Sha1.digest st) = 20%nat.
Proof. destruct st as [[[[a b] c] d] e]. unfold Sha1.digest. apply concat_be_bytes. Qed.

Lemma sha2_digest_shape p st :
  bytes_ok (Sha2.digest p st)
  /\ length (Sha2.digest p st) = (8 * Z.to_nat (Sha2.word p / 8))%nat.
Proof. destruct st as [[[[[[[a b] c] d] e] f] g] h]. unfold Sha2.digest. apply concat_be_bytes. Qed.

Lemma hash_bytes_shape a m :
  bytes_ok (hash_bytes a m)
  /\ length (hash_bytes a m) = match a with SHA1 => 20 | SHA256 => 32 | SHA512 => 64 end%nat.
Proof.
  destruct a; cbn [hash_bytes].
  - apply sha1_digest_shape.
  - exact (sha2_digest_shape Sha2.params256 _).
  - exact (sha2_digest_shape Sha2.params512 _).
Qed.

#[global] Instance hash_bytes_digest a : Digest (hash_bytes a).
Proof.
  refine {| digest_len := match a with SHA1 => 20 | SHA256 => 32 | SHA512 => 64 end%nat |}.
  - intros m. apply hash_bytes_shape.
  - intros m. apply hash_bytes_shape.
  - destruct a; lia.
Defined.

#[global] Instance hmac_digest a key : Digest (hmac a key).
Proof.
  refine {| digest_len := @digest_len (hash_bytes a) _ |}.
  - intros m. apply (digest_length (H := hash_bytes a)).
  - intros m. apply (digest_bytes (H := hash_bytes a)).
  - apply (digest_min (H := hash_bytes a)).
Defined.

(** ** The hash functions against FIPS 180-4 *)

Lemma hash_bytes_fips a m :
  len m < 2 ^ 61 -> alg_fits a (len m) -> hash_bytes a m = Rfc.hash a m.
Proof.
  intros Hl Hfit. destruct a; cbn [hash_bytes Rfc.hash alg_fits] in *.
  - by apply sha1_fips.
  - apply (sha2_fips Sha2.params256 Fips.v256 agrees256 6); cbn [Sha2.params256 Sha2.block Sha2.len_bytes]; try done; lia.
  - apply (sha2_fips Sha2.params512 Fips.v512 agrees512 7); cbn [Sha2.params512 Sha2.block Sha2.len_bytes]; try done; lia.
Qed.

(** The bytes of a message of length [l] that reach the hash, when the padding
    does not fit. *)
Definition kept_of (block len_bytes l : Z) : nat :=
  Z.to_nat (l - ((l + 1) mod block - (block - len_bytes) - 1)).
Definition kept (a : Algorithm) (l : Z) : nat :=
  match a with SHA1 | SHA256 => kept_of 64 8 l | SHA512 => kept_of 128 16 l end.

Lemma pad_cut_eq k lb m1 m2 :
  0 <= k < 8 -> 0 <= lb < 2 ^ k -> len m1 < 2 ^ 61 ->
  ~ pad_fits (2 ^ k) lb (len m1) -> length m1 = length m2 ->
  take (kept_of (2 ^ k) lb (len m1)) m1 = take (kept_of (2 ^ k) lb (len m1)) m2 ->
  pad (2 ^ k) lb m1 = pad (2 ^ k) lb m2.
Proof.
  intros Hk Hlb Hl Hfit Hlen Ht.
  assert (2 ^ k <= 2 ^ 8) by (apply Z.pow_le_mono_r; lia).
  destruct (pad_cut k lb m1) as [_ ->]; [lia | lia | lia | done |].
  destruct (pad_cut k lb m2) as [_ ->]; [lia | lia | lia | by rewrite <- Hlen |].
  rewrite <- Hlen. f_equal. exact Ht.
Qed.

Lemma hash_bytes_cut a m1 m2 :
  len m1 < 2 ^ 61 -> ~ alg_fits a (len m1) -> length m1 = length m2 ->
  take (kept a (len m1)) m1 = take (kept a (len m1)) m2 ->
  hash_bytes a m1 = hash_bytes a m2.
Proof.
  intros Hl Hfit Hlen Ht.
  destruct a; cbn [hash_bytes alg_fits kept] in *.
  - unfold Sha1.sha1. assert (pad 64 8 m1 = pad 64 8 m2) as -> by (apply (pad_cut_eq 6 8); done || lia). done.
  - unfold Sha2.sha256, Sha2.sha2. cbn [Sha2.params256 Sha2.block Sha2.len_bytes].
    assert (pad 64 8 m1 = pad 64 8 m2) as Hp by (apply (pad_cut_eq 6 8); done || lia).
    exact (f_equal (fun l => Sha2.digest _ (fold_left _ (chunks 64 l) _)) Hp).
  - unfold Sha2.sha512, Sha2.sha2. cbn [Sha2.params512 Sha2.block Sha2.len_bytes].
    assert (pad 128 16 m1 = pad 128 16 m2) as Hp by (apply (pad_cut_eq 7 16); done || lia).
    exact (f_equal (fun l => Sha2.digest _ (fold_left _ (chunks 128 l) _)) Hp).
Qed.

(** ** HMAC *)

Lemma length_key_block a key : length (key_block a key) = block_size a.
Proof.
  unfold key_block. rewrite length_app, length_replicate.
  case_bool_decide; [| lia].
  rewrite digest_length. destruct a; cbn; lia.
Qed.

(** [hmac] indexes [key_block] within its bounds and is RFC 2104's function as
    long as the hashed messages have lengths the padding handles. *)
Lemma hmac_rfc a key m :
  len key < 2 ^ 60 -> len m < 2 ^ 60 ->
  ((length key <= block_size a)%nat \/ alg_fits a (len key)) ->
  alg_fits a (Z.of_nat (block_size a) + len m) ->
  hmac a key m = Rfc.hmac a key m.
Proof.
  intros Hk Hm Hkey Hfit. unfold hmac, Rfc.hmac.
  assert (HB : Rfc.B a = block_size a) by by destruct a.
  assert (Hkb : key_block a key
    = resize (Rfc.B a) 0 (if (length key <=? Rfc.B a)%nat then key else Rfc.hash a key)).
  { unfold key_block. rewrite HB. destruct (Nat.leb_spec (length key) (block_size a)) as [Hle | Hgt].
    - rewrite bool_decide_eq_false_2 by lia. by rewrite resize_ge.
    - rewrite bool_decide_eq_true_2 by lia.
      rewrite <- hash_bytes_fips; [| lia | by destruct Hkey; [lia |]].
      rewrite resize_ge; [done |]. rewrite digest_length. destruct a; cbn; lia. }
  rewrite Hkb. set (k0 := resize _ _ _).
  assert (Hk0 : length k0 = block_size a) by (unfold k0; rewrite length_resize; done).
  assert (block_size a <= 128)%nat by (destruct a; cbn; lia).
  assert (Hpads : forall c t, length (map (fun b => Z.lxor b c) k0 ++ t) = (block_size a + length t)%nat)
    by (intros; by rewrite length_app, length_map, Hk0).
  rewrite (hash_bytes_fips a (_ ++ hash_bytes a _)).
  - rewrite (hash_bytes_fips a (_ ++ m)); [done | |]; rewrite Hpads; [lia |].
    by rewrite Nat2Z.inj_add.
  - rewrite Hpads, digest_length. destruct a; cbn; lia.
  - rewrite Hpads, digest_length. destruct a; vm_compute; discriminate.
Qed.

(** ** HOTP *)

Lemma take_4_drop o (h : list Z) :
  (o + 4 <= length h)%nat ->
  exists b0 b1 b2 b3, take 4 (drop o h) = [b0; b1; b2; b3]
  /\ h !! o = Some b0 /\ h !! (o + 1)%nat = Some b1
  /\ h !! (o + 2)%nat = Some b2 /\ h !! (o + 3)%nat = Some b3.
Proof.
  intros Hl.
  assert (Hd : forall i, h !! (o + i)%nat = drop o h !! i) by (intros; by rewrite lookup_drop).
  assert (Hd0 : h !! o = drop o h !! 0%nat) by (by rewrite <- Hd, Nat.add_0_r).
  rewrite Hd0, !Hd.
  assert (Hlen : (4 <= length (drop o h))%nat) by (rewrite length_drop; lia).
  destruct (drop o h) as [| b0 [| b1 [| b2 [| b3 r]]]]; simpl in Hlen; try lia.
  by exists b0, b1, b2, b3.
Qed.

Lemma code_bits b0 b1 b2 b3 :
  byte_ok b0 -> byte_ok b1 -> byte_ok b2 -> byte_ok b3 ->
  Z.lor (Z.lor (Z.lor (Z.shiftl (Z.land b0 0x7f) 24) (Z.shiftl b1 16)) (Z.shiftl b2 8)) b3
  = from_be_bytes [b0; b1; b2; b3] mod 2 ^ 31.
Proof.
  unfold byte_ok. intros H0 H1 H2 H3.
  rewrite <- !Z.lor_assoc.
  rewrite (lor_shiftl_small b2 b3 8) by lia.
  rewrite (lor_shiftl_small b1 _ 16) by lia.
  rewrite (lor_shiftl_small _ _ 24) by lia.
  change 0x7f with (Z.ones 7). rewrite Z.land_ones by lia.
  unfold from_be_bytes. cbn [fold_left]. rewrite !lor_shiftl_add by lia.
  pose proof (Z.div_mod b0 128 ltac:(lia)). pose proof (Z.mod_pos_bound b0 128 ltac:(lia)).
  change (2 ^ 7) with 128.
  apply (Z.mod_unique _ _ (b0 / 128)); lia.
Qed.

Lemma truncate_rfc h :
  bytes_ok h -> (20 <= length h)%nat -> truncate h = Some (Rfc.dt h).
Proof.
  intros Hb Hl. unfold truncate, Rfc.dt. rewrite last_lookup.
  replace (pred (length h)) with (length h - 1)%nat by lia.
  destruct (lookup_lt_is_Some_2 h (length h - 1)) as [z Hz]; [lia |]. rewrite Hz.
  rewrite (nth_lookup_Some _ _ _ _ Hz). change 15 with (Z.ones 4). rewrite Z.land_ones by lia.
  change (2 ^ 4) with 16. pose proof (Z.mod_pos_bound z 16 ltac:(lia)).
  destruct (take_4_drop (Z.to_nat (z mod 16)) h) as (b0 & b1 & b2 & b3 & -> & H0 & H1 & H2 & H3); [lia |].
  rewrite H0, H1, H2, H3. f_equal.
  rewrite Forall_lookup in Hb. apply code_bits; eauto.
Qed.

Lemma pow10_small checks d : 0 <= d <= 9 -> pow10_u32 checks d = Some (10 ^ d).
Proof.
  intros Hd. unfold pow10_u32. assert (10 ^ d <= 10 ^ 9) by (apply Z.pow_le_mono_r; lia).
  by destruct (Z.leb_spec (10 ^ d) U32_MAX); [| lia].
Qed.

Section Hotp.
Context (checks : bool).

(** The value of [generate_at] when the number of digits is at most nine: the
    truncated HMAC, whatever the secret. *)
Definition code_at (h : Hotp) (c : Z) : Z :=
  Rfc.dt (hmac (alg h) (secret h) (to_be_bytes 8 c)) mod 10 ^ digits h.

Lemma generate_at_code h c :
  0 <= digits h <= 9 -> hotp_generate_at checks h c = Some (code_at h c).
Proof.
  intros Hd. unfold hotp_generate_at.
  rewrite truncate_rfc; [| apply digest_bytes | rewrite digest_length; apply (digest_min (H := hmac _ _))].
  rewrite pow10_small by done. unfold rem_checked.
  assert (0 < 10 ^ digits h) by (apply Z.pow_pos_nonneg; lia).
  by destruct (Z.eqb_spec (10 ^ digits h) 0); [lia |].
Qed.

Lemma code_at_range h c : 0 <= digits h -> 0 <= code_at h c < 10 ^ digits h.
Proof. intros. apply Z.mod_pos_bound. apply Z.pow_pos_nonneg; lia. Qed.

Lemma code_at_rfc h c :
  len (secret h) < 2 ^ 60 ->
  (length (secret h) <= block_size (alg h))%nat \/ alg_fits (alg h) (len (secret h)) ->
  code_at h c = Rfc.hotp (alg h) (secret h) c (digits h).
Proof.
  intros Hl Hk. unfold code_at, Rfc.hotp. rewrite hmac_rfc; [done | done | | done |].
  - rewrite length_to_be_bytes. lia.
  - rewrite length_to_be_bytes. destruct (alg h); vm_compute; discriminate.
Qed.

(** The counters [verify] tries from turn [i] on, with [n] turns to go. *)
Definition in_window (counter i : Z) (n : nat) (c : Z) : Prop :=
  exists j, i <= j < i + Z.of_nat n /\ (c = counter + j \/ c = counter - j /\ j <= counter).

Lemma verify_loop_spec h otp counter i n :
  0 <= digits h <= 9 -> 0 <= i -> 0 <= counter -> counter + i + Z.of_nat n <= U64_MAX + 1 ->
  exists b, verify_loop checks h otp counter i n = Some b
  /\ (b = true <-> exists c, in_window counter i n c /\ code_at h c = otp).
Proof.
  intros Hd. revert i. induction n as [| n IH]; intros i Hi Hc Hmax.
  { exists false. split; [done |]. split; [done |]. intros (c & (j & Hj & _) & _). lia. }
  cbn [verify_loop]. unfold add_u64.
  destruct (Z.leb_spec (counter + i) U64_MAX) as [_ |]; [| lia].
  rewrite !generate_at_code by done.
  destruct (IH (i + 1)) as (b & Hb & Hspec); [lia | lia | lia |].
  assert (Hstep : forall c, in_window counter i (S n) c <->
    in_window counter (i + 1) n c \/ c = counter + i \/ c = counter - i /\ i <= counter).
  { intros c. unfold in_window. split.
    - intros (j & Hj & H). destruct (Z.eq_dec j i) as [-> |]; [tauto |]. left. exists j. lia.
    - intros [(j & Hj & H) | H]; [exists j | exists i]; lia. }
  assert (Hhit : forall c, c = counter + i \/ c = counter - i /\ i <= counter ->
    code_at h c = otp -> exists c, in_window counter i (S n) c /\ code_at h c = otp).
  { intros c Hin Hcode. exists c. rewrite Hstep. tauto. }
  destruct (Z.leb_spec i counter) as [Hle | Hgt];
    [destruct (Z.eqb_spec (code_at h (counter - i)) otp) as [Heq | Hne];
       [exists true; naive_solver |] |];
    (destruct (Z.eqb_spec (code_at h (counter + i)) otp) as [Heq' | Hne'];
       [exists true; naive_solver |]);
    exists b; (split; [done |]); rewrite Hspec; setoid_rewrite Hstep; (split; [naive_solver |]);
    intros (c & [Hin | [-> | [-> Hi']]] & Hcode); by eauto || lia.
Qed.

(** [verify] accepts exactly the codes of the counters within [window] steps of
    [counter], and the counters below zero are skipped. *)
Lemma verify_spec h otp counter window :
  0 <= digits h <= 9 -> 0 <= counter -> 0 <= window -> counter + window <= U64_MAX ->
  exists b, hotp_verify checks h otp counter window = Some b
  /\ (b = true <-> exists c, 0 <= c /\ Z.abs (c - counter) <= window /\ code_at h c = otp).
Proof.
  intros Hd Hc Hw Hmax. unfold hotp_verify. rewrite generate_at_code by done.
  destruct (Z.eqb_spec (code_at h counter) otp) as [Heq | Hne].
  { exists true. split; [done |]. split; [| done]. intros _. exists counter. split; [done |]. split; [lia | done]. }
  destruct (verify_loop_spec h otp counter 1 (Z.to_nat window)) as (b & -> & Hspec); [lia .. |].
  exists b. split; [done |]. rewrite Hspec. unfold in_window. split.
  - intros (c & (j & Hj & Hcj) & Hcode). exists c. lia.
  - intros (c & Hc0 & Habs & Hcode).
    destruct (Z.eq_dec c counter) as [-> |]; [done |].
    exists c. split; [| done]. exists (Z.abs (c - counter)). lia.
Qed.

Lemma generate_advances h :
  0 <= digits h <= 9 -> 0 <= counter h < U64_MAX ->
  hotp_generate checks h =
    Some (code_at h (counter h),
          mkHotp (alg h) (issuer h) (label h) (digits h) (counter h + 1) (secret h)).
Proof.
  intros Hd Hc. unfold hotp_generate. rewrite generate_at_code by done.
  unfold add_u64. by destruct (Z.leb_spec (counter h + 1) U64_MAX); [| lia].
Qed.

End Hotp.

(** ** Key URIs *)

(** [k1=v1&k2=v2..]. *)
Fixpoint query_string (kvs : list (list Z * list Z)) : list Z :=
  match kvs with
  | [] => []
  | [(k, v)] => k ++ 61 :: v
  | (k, v) :: kvs' => k ++ 61 :: v ++ 38 :: query_string kvs'
  end.

Definition kv_ok (kv : list Z * list Z) : Prop :=
  ~ In 61 kv.1 /\ ~ In 38 kv.1 /\ ~ In 38 kv.2.

Lemma not_in_app {A} (c : A) l1 l2 : ~ In c l1 -> ~ In c l2 -> ~ In c (l1 ++ l2).
Proof. intros ? ? [? | ?]%in_app_iff; tauto. Qed.

Lemma split_query_string kvs :
  kvs <> [] -> Forall kv_ok kvs -> map query_pair (split_on 38 (query_string kvs)) = kvs.
Proof.
  intros Hne Hok. induction Hok as [| [k v] kvs (Hk1 & Hk2 & Hv) Hok IH]; [done |].
  cbn [fst snd] in *.
  assert (Hkv : ~ In 38 (k ++ 61 :: v)) by (apply not_in_app; [done | intros [? | ?]; [lia | tauto]]).
  assert (Hpair : query_pair (k ++ 61 :: v) = (k, v)) by (unfold query_pair; by rewrite split_once_app).
  destruct kvs as [| kv kvs].
  - cbn [query_string]. rewrite split_on_none by done. cbn [map]. by rewrite Hpair.
  - change (query_string ((k, v) :: kv :: kvs)) with (k ++ 61 :: v ++ 38 :: query_string (kv :: kvs)).
    rewrite (app_assoc k (61 :: v) _ : k ++ 61 :: v ++ _ = _), split_on_app by done.
    cbn [map]. rewrite Hpair, IH by done. done.
Qed.

(** Generators whose fields have the code's types and whose label is not empty. *)
Record uri_text (h : Hotp) : Prop := {
  wf_digits : 0 <= digits h <= U8_MAX;
  wf_secret : bytes_ok (secret h);
  wf_issuer : bytes_ok (issuer h) /\ utf8_valid (issuer h) = true;
  wf_label : bytes_ok (label h) /\ utf8_valid (label h) = true;
  wf_nonempty : issuer h = [] -> label h <> []
}.

(** The generators whose URI can be read back: the colon that separates issuer
    and label must be the first one. *)
Definition uri_wf (h : Hotp) : Prop :=
  uri_text h /\ ~ In 58 (issuer h) /\ (issuer h = [] -> ~ In 58 (label h)).

Definition uri_textb (h : Hotp) : bool :=
  bool_decide (0 <= digits h <= U8_MAX) && bool_decide (bytes_ok (secret h))
  && bool_decide (bytes_ok (issuer h)) && utf8_valid (issuer h)
  && bool_decide (bytes_ok (label h)) && utf8_valid (label h)
  && negb (beq (issuer h) [] && beq (label h) []).

Lemma uri_textb_true h : uri_textb h = true -> uri_text h.
Proof.
  unfold uri_textb. rewrite !andb_true_iff, !bool_decide_eq_true, negb_true_iff.
  intros ((((((? & ?) & ?) & ?) & ?) & ?) & Hne). constructor; try done.
  intros Hi Hl. rewrite Hi, Hl in Hne. done.
Qed.

Definition uri_params (h : Hotp) (last : list Z * list Z) : list (list Z * list Z) :=
  (bs "secret", Base32.encode (secret h))
  :: (if beq (issuer h) [] then [] else [(bs "issuer", Url.encode (issuer h))])
  ++ [(bs "algorithm", alg_name (alg h)); (bs "digits", show_u64 (digits h)); last].

Definition param_map (kvs : list (list Z * list Z)) : gmap (list Z) (list Z) :=
  fold_left (fun m kv => <[kv.1 := kv.2]> m) kvs ∅.

Lemma show_u64_absent c n : 0 <= n -> c < 48 -> ~ In c (show_u64 n).
Proof.
  intros Hn Hc Hin. pose proof (show_u64_ascii n Hn) as Ha.
  rewrite List.Forall_forall in Ha. apply Ha in Hin. lia.
Qed.

Lemma base32_encode_absent l : bytes_ok l -> ~ In 38 (Base32.encode l).
Proof.
  intros Hl Hin. pose proof (encode_chars l Hl) as Ha.
  rewrite List.Forall_forall in Ha. apply Ha in Hin. by destruct Hin.
Qed.

Definition ascii_key (k : list Z) : bool :=
  forallb (fun c => negb (c =? 61) && negb (c =? 38)) k.

Lemma ascii_key_absent k : ascii_key k = true -> ~ In 61 k /\ ~ In 38 k.
Proof.
  unfold ascii_key. rewrite forallb_forall. intros H.
  split; intros Hin%H; cbn in Hin; done.
Qed.

Lemma kv_ok_key k v : ascii_key k = true -> ~ In 38 v -> kv_ok (k, v).
Proof. intros [? ?]%ascii_key_absent ?. done. Qed.

Lemma uri_params_ok h k n :
  uri_text h -> 0 <= n -> ascii_key k = true -> Forall kv_ok (uri_params h (k, show_u64 n)).
Proof.
  intros Hwf Hn Hk. pose proof (wf_digits h Hwf). unfold uri_params.
  apply Forall_cons. split.
  { apply kv_ok_key; [done |]. apply base32_encode_absent, Hwf. }
  apply Forall_app. split.
  { destruct (beq (issuer h) []); constructor; [| constructor]. apply kv_ok_key; [done |].
    apply url_encode_absent; [apply Hwf | done]. }
  repeat constructor; try (by apply show_u64_absent; lia); cbn; try (by apply ascii_key_absent).
  1,2,4,5: intros Hin; decompose [or] Hin; lia.
  by destruct (alg h); cbn; intros Hin; decompose [or] Hin; lia.
Qed.

Lemma encoded_label s rest :
  bytes_ok s -> utf8_valid s = true -> s <> [] ->
  split_once 63 (Url.encode s ++ 63 :: rest) = Some (Url.encode s, rest)
  /\ beq (Url.encode s) [] = false /\ Url.decode (Url.encode s) = Ok s.
Proof.
  intros Hs Hu Hn. split; [| split].
  - apply split_once_app. by apply url_encode_absent.
  - apply bool_decide_eq_false. destruct s as [| b s]; [done |].
    unfold Url.encode. cbn [map concat]. unfold Url.encode_byte. by case_bool_decide.
  - by apply url_roundtrip.
Qed.

(** The text that [uri_label] encodes. *)
Definition full_label (h : Hotp) : list Z :=
  if beq (issuer h) [] then label h else issuer h ++ 58 :: label h.

Lemma label_decodes h prefix kvs :
  uri_text h -> kvs <> [] -> Forall kv_ok kvs ->
  parse_label (prefix ++ uri_label h ++ 63 :: query_string kvs) prefix
  = Ok (split_label (full_label h), param_map kvs).
Proof.
  intros Hwf Hne Hok. unfold parse_label. rewrite strip_prefix_app. cbn [ok_or result_bind].
  destruct (wf_issuer h Hwf) as [Hi1 Hi2], (wf_label h Hwf) as [Hl1 Hl2].
  pose proof (wf_nonempty h Hwf) as Hn.
  assert (Hq : query_params (query_string kvs) = param_map kvs)
    by (unfold query_params; by rewrite split_query_string).
  assert (uri_label h = Url.encode (full_label h)) as ->
    by (unfold uri_label, full_label; by destruct (beq (issuer h) [])).
  destruct (encoded_label (full_label h) (query_string kvs)) as (-> & H2 & H3);
    unfold full_label in *; destruct (beq (issuer h) []) eqn:Hiss; try done.
  - apply Forall_app. split; [done |]. by apply Forall_cons.
  - apply utf8_valid_app; [done |]. by rewrite utf8_valid_cons_ascii by lia.
  - apply beq_true in Hiss. auto.
  - by destruct (issuer h).
  - cbn [ok_or result_bind]. rewrite H2, H3. cbn. rewrite Hq. by destruct (split_label _).
  - cbn [ok_or result_bind]. rewrite H2, H3. cbn. rewrite Hq. by destruct (split_label _).
Qed.

Lemma label_roundtrip h prefix kvs :
  uri_wf h -> kvs <> [] -> Forall kv_ok kvs ->
  parse_label (prefix ++ uri_label h ++ 63 :: query_string kvs) prefix
  = Ok (if beq (issuer h) [] then None else Some (issuer h), label h, param_map kvs).
Proof.
  intros (Ht & Hi & Hl) Hne Hok. rewrite label_decodes by done. do 2 f_equal.
  unfold full_label, split_label. destruct (beq (issuer h) []) eqn:Hiss.
  - apply beq_true in Hiss. by rewrite split_once_None by auto.
  - by rewrite split_once_app.
Qed.

Lemma uri_query h prefix k n :
  prefix ++ uri_tail h ++ (38 :: k ++ 61 :: show_u64 n)
  = prefix ++ uri_label h ++ 63 :: query_string (uri_params h (k, show_u64 n)).
Proof.
  unfold uri_tail, uri_issuer, uri_params. f_equal. rewrite <- !app_assoc. f_equal.
  destruct (beq (issuer h) []); cbn; rewrite <- ?app_assoc; cbn; rewrite <- ?app_assoc; done.
Qed.

Section Lookups.
Context (h : Hotp) (k v : list Z).
Hypothesis Hk : k = bs "counter" \/ k = bs "period".

(** Every parameter of the printed query is found under its key. *)
Lemma param_lookups :
  let m := param_map (uri_params h (k, v)) in
  m !! bs "secret" = Some (Base32.encode (secret h))
  /\ m !! bs "issuer" = (if beq (issuer h) [] then None else Some (Url.encode (issuer h)))
  /\ m !! bs "algorithm" = Some (alg_name (alg h))
  /\ m !! bs "digits" = Some (show_u64 (digits h))
  /\ m !! k = Some v.
Proof using Hk.
  unfold param_map, uri_params.
  destruct (beq (issuer h) []); cbn [app fold_left fst snd];
    (split_and!; [| | | | by rewrite lookup_insert_eq]);
    rewrite lookup_insert_ne by (destruct Hk; subst; vm_compute; discriminate);
    repeat first [by rewrite lookup_insert_eq | rewrite lookup_insert_ne by discriminate]; done.
Qed.
End Lookups.

Lemma alg_roundtrip a : parse_algorithm (alg_name a) = Ok a.
Proof. by destruct a. Qed.

Lemma issuer_roundtrip h v k :
  uri_wf h -> k = bs "counter" \/ k = bs "period" ->
  parse_issuer (if beq (issuer h) [] then None else Some (issuer h))
    (param_map (uri_params h (k, v))) = Ok (issuer h).
Proof.
  intros [Hwf _] Hk. unfold parse_issuer. destruct (param_lookups h k v Hk) as (_ & -> & _).
  destruct (beq (issuer h) []) eqn:Hi; cbn [map_transpose result_bind merge_issuer].
  - apply beq_true in Hi. by rewrite Hi.
  - rewrite url_roundtrip by apply Hwf. cbn. by rewrite beq_refl.
Qed.

Lemma secret_roundtrip h v k :
  uri_text h -> k = bs "counter" \/ k = bs "period" ->
  parse_secret (param_map (uri_params h (k, v))) = Ok (secret h).
Proof.
  intros Hwf Hk. unfold parse_secret. destruct (param_lookups h k v Hk) as (-> & _).
  cbn. by rewrite base32_roundtrip by apply Hwf.
Qed.

Lemma hotp_uri_roundtrip_lemma h :
  uri_wf h -> 0 <= counter h <= U64_MAX -> hotp_from_uri (hotp_to_uri h) = Ok h.
Proof.
  intros Hwf Hc. destruct Hwf as [Ht Hcol] eqn:E. clear E. pose proof (wf_digits h Ht). unfold hotp_to_uri, hotp_from_uri.
  change (bs "&counter=" ++ show_u64 (counter h)) with (38 :: bs "counter" ++ 61 :: show_u64 (counter h)).
  assert (Hk : bs "counter" = bs "counter" \/ bs "counter" = bs "period") by tauto.
  rewrite uri_query, label_roundtrip; [| done | done | apply uri_params_ok; done || lia].
  set (m := param_map _). cbn [result_bind]. unfold parse_uint.
  destruct (param_lookups h (bs "counter") (show_u64 (counter h)) Hk) as (_ & _ & Ha & Hd & Hcnt).
  fold m in Ha, Hd, Hcnt. rewrite Hd, Ha, Hcnt. cbn [ok_or result_bind].
  rewrite !from_str_show by lia. cbn [ok_or result_bind map_transpose].
  unfold m. rewrite secret_roundtrip, issuer_roundtrip, alg_roundtrip by done.
  cbn. by destruct h.
Qed.

Lemma totp_uri_roundtrip_lemma t :
  uri_wf (hotp t) -> counter (hotp t) = 0 -> 0 <= period t <= U64_MAX ->
  totp_from_uri (totp_to_uri t) = Ok t.
Proof.
  intros Hwf Hc Hp. destruct Hwf as [Ht Hcol] eqn:E. clear E. pose proof (wf_digits _ Ht). unfold totp_to_uri, totp_from_uri.
  change (bs "&period=" ++ show_u64 (period t)) with (38 :: bs "period" ++ 61 :: show_u64 (period t)).
  assert (Hk : bs "period" = bs "counter" \/ bs "period" = bs "period") by tauto.
  rewrite uri_query, label_roundtrip; [| done | done | apply uri_params_ok; done || lia].
  set (m := param_map _). cbn [result_bind]. unfold parse_uint.
  destruct (param_lookups (hotp t) (bs "period") (show_u64 (period t)) Hk) as (_ & _ & Ha & Hd & Hper).
  fold m in Ha, Hd, Hper. rewrite Hd, Ha, Hper.
  rewrite !from_str_show by lia. cbn [ok_or result_bind map_transpose].
  unfold m. rewrite secret_roundtrip, issuer_roundtrip, alg_roundtrip by done.
  cbn. destruct t as [p [? ? ? ? ? ?]]. cbn in *. by subst.
Qed.

(** With a colon in the issuer the text of the label splits too early. *)
Lemma hotp_uri_colon h i1 i2 :
  uri_text h -> 0 <= counter h <= U64_MAX ->
  issuer h = i1 ++ 58 :: i2 -> ~ In 58 i1 -> hotp_from_uri (hotp_to_uri h) = Err IssuerMismatch.
Proof.
  intros Ht Hc Hi Hi1. pose proof (wf_digits h Ht). unfold hotp_to_uri, hotp_from_uri.
  change (bs "&counter=" ++ show_u64 (counter h)) with (38 :: bs "counter" ++ 61 :: show_u64 (counter h)).
  assert (Hk : bs "counter" = bs "counter" \/ bs "counter" = bs "period") by tauto.
  rewrite uri_query, label_decodes; [| done | done | apply uri_params_ok; done || lia].
  assert (Hne : beq (issuer h) [] = false)
    by (rewrite Hi; apply bool_decide_eq_false; by destruct i1).
  unfold full_label, split_label. rewrite Hne, Hi, <- app_assoc. cbn [app].
  rewrite split_once_app by done. set (m := param_map _). cbn [result_bind]. unfold parse_uint.
  destruct (param_lookups h (bs "counter") (show_u64 (counter h)) Hk) as (_ & Hiss & _ & Hd & Hcnt).
  fold m in Hd, Hcnt, Hiss. rewrite Hd, Hcnt. cbn [ok_or result_bind].
  rewrite !from_str_show by lia. cbn [ok_or result_bind].
  unfold m. rewrite secret_roundtrip by done. fold m. cbn [result_bind]. unfold parse_issuer.
  rewrite Hiss, Hne. cbn [map_transpose]. rewrite url_roundtrip by apply Ht. cbn.
  destruct (beq i1 (issuer h)) eqn:E; [| done].
  apply beq_true in E. rewrite Hi in E. apply (f_equal length) in E.
  rewrite length_app in E. cbn in E. lia.
Qed.

(** ** Panics *)

Lemma pow10_overflow checks d :
  10 <= d -> pow10_u32 checks d = if checks then None else Some (wrap 32 (10 ^ d)).
Proof.
  intros Hd. unfold pow10_u32. assert (10 ^ 10 <= 10 ^ d) by (apply Z.pow_le_mono_r; lia).
  by destruct (Z.leb_spec (10 ^ d) U32_MAX); [lia |].
Qed.

Lemma pow10_wraps_to_zero d : 32 <= d -> wrap 32 (10 ^ d) = 0.
Proof.
  intros Hd. unfold wrap. change 10 with (2 * 5). rewrite Z.pow_mul_l.
  replace (2 ^ d) with (2 ^ (d - 32) * 2 ^ 32) by (rewrite <- Z.pow_add_r by lia; f_equal; lia).
  rewrite <- Z.mul_assoc, (Z.mul_comm (2 ^ 32)), Z.mul_assoc. apply Z.mod_mul. lia.
Qed.

(** A number of digits beyond nine panics with overflow checks, and beyond
    thirty-one without them. *)
Lemma generate_at_panics (checks : bool) h c :
  (if checks then 10 else 32) <= digits h -> hotp_generate_at checks h c = None.
Proof.
  intros Hd. unfold hotp_generate_at. destruct (truncate _) as [code |]; [| done].
  rewrite pow10_overflow by (destruct checks; lia). destruct checks; [done |].
  by rewrite pow10_wraps_to_zero.
Qed.

(** ** Properties *)

(** C17: for every message of less than [2 ^ 61] bytes whose length leaves room
    for the length field in its last block (not 56 to 62 modulo 64, nor 112 to
    126 modulo 128 for SHA-512), [Algorithm::hash_bytes] computes the digest of
    FIPS 180-4, which [ShaSpec.Fips] states without reference to the code. *)
Theorem hash_bytes_is_fips a m :
  len m < 2 ^ 61 -> alg_fits a (len m) -> hash_bytes a m = Rfc.hash a m.
Proof. apply hash_bytes_fips. Qed.

Lemma hash_bytes_is_fips_witness :
  hash_bytes SHA256 (bs "abc") = Rfc.hash SHA256 (bs "abc").
Proof. apply hash_bytes_is_fips; vm_compute; [done | discriminate]. Defined.

(** For the other lengths (56 to 62 modulo 64, 112 to 126 modulo 128) the
    code cuts the message instead of adding a block: two messages of the same
    length that agree on the kept prefix collide, and at such a length at least
    the last byte is outside the prefix once the remainder exceeds 56 (112). *)
Theorem hash_bytes_collides a m1 m2 :
  len m1 < 2 ^ 61 -> ~ alg_fits a (len m1) -> length m1 = length m2 ->
  take (kept a (len m1)) m1 = take (kept a (len m1)) m2 ->
  hash_bytes a m1 = hash_bytes a m2.
Proof. apply hash_bytes_cut. Qed.

Lemma hash_bytes_collides_witness :
  let m1 := replicate 57 97 in let m2 := replicate 56 97 ++ [98] in
  m1 <> m2 /\ hash_bytes SHA1 m1 = hash_bytes SHA1 m2.
Proof.
  split; [discriminate |].
  apply hash_bytes_collides; vm_compute; [done | congruence | done | done].
Defined.

(** [hmac] is the HMAC of RFC 2104 over the FIPS 180-4 hash, for keys that
    fit in a block or whose own length the hash handles. *)
Theorem hmac_is_rfc2104 a key m :
  len key < 2 ^ 60 -> len m < 2 ^ 60 ->
  (length key <= block_size a)%nat \/ alg_fits a (len key) ->
  alg_fits a (Z.of_nat (block_size a) + len m) ->
  hmac a key m = Rfc.hmac a key m.
Proof. apply hmac_rfc. Qed.

Lemma hmac_is_rfc2104_witness :
  hmac SHA512 (bs "key") (bs "message") = Rfc.hmac SHA512 (bs "key") (bs "message").
Proof.
  apply hmac_is_rfc2104; [done | done | left; vm_compute; lia | vm_compute; discriminate].
Defined.

(** With at most nine digits [Hotp::generate_at] never panics and returns
    the HOTP value of RFC 4226, a number of at most [digits] digits. *)
Theorem generate_at_is_rfc4226 checks h c :
  0 <= digits h <= 9 -> len (secret h) < 2 ^ 60 ->
  (length (secret h) <= block_size (alg h))%nat \/ alg_fits (alg h) (len (secret h)) ->
  hotp_generate_at checks h c = Some (Rfc.hotp (alg h) (secret h) c (digits h))
  /\ 0 <= Rfc.hotp (alg h) (secret h) c (digits h) < 10 ^ digits h.
Proof.
  intros Hd Hl Hk. rewrite <- code_at_rfc by done.
  split; [by apply generate_at_code | apply code_at_range; lia].
Qed.

Lemma generate_at_is_rfc4226_witness :
  hotp_generate_at true (mkHotp SHA1 [] [] 6 0 (bs "12345678901234567890")) 1 = Some 287082
  /\ Rfc.hotp SHA1 (bs "12345678901234567890") 1 6 = 287082.
Proof.
  destruct (generate_at_is_rfc4226 true (mkHotp SHA1 [] [] 6 0 (bs "12345678901234567890")) 1)
    as [H _]; [cbn; lia | vm_compute; done | left; vm_compute; lia |].
  assert (hotp_generate_at true (mkHotp SHA1 [] [] 6 0 (bs "12345678901234567890")) 1
          = Some 287082) as E by (vm_compute; reflexivity).
  split; [exact E |]. rewrite E in H. cbn [alg secret digits] in H. congruence.
Defined.

(** [Hotp::verify] accepts a code exactly when it is the code of a counter
    at most [window] steps away, counters below zero excluded. *)
Theorem hotp_verify_window checks h otp counter window :
  0 <= digits h <= 9 -> 0 <= counter -> 0 <= window -> counter + window <= U64_MAX ->
  exists b, hotp_verify checks h otp counter window = Some b
  /\ (b = true <->
      exists c, 0 <= c /\ Z.abs (c - counter) <= window
                /\ hotp_generate_at checks h c = Some otp).
Proof.
  intros Hd Hc Hw Hm. destruct (verify_spec checks h otp counter window) as (b & Hb & Hs); try done.
  exists b. split; [done |]. rewrite Hs. setoid_rewrite generate_at_code; [| done].
  split; intros (c & ? & ? & ?); exists c; naive_solver.
Qed.

Lemma hotp_verify_window_witness :
  let h := mkHotp SHA1 [] [] 6 0 (bs "12345678901234567890") in
  hotp_verify true h 287082 2 1 = Some true.
Proof.
  intros h. destruct (hotp_verify_window true h 287082 2 1) as (b & Hb & Hs);
    [cbn; lia | lia | lia | lia |].
  rewrite Hb. f_equal. apply Hs. exists 1. split; [lia |]. split; [lia |]. vm_compute. reflexivity.
Defined.

(** [Hotp::generate] returns the code of the current counter and moves the
    counter, and nothing else, by one. *)
Theorem hotp_generate_advances checks h :
  0 <= digits h <= 9 -> 0 <= counter h < U64_MAX ->
  exists otp, hotp_generate_at checks h (counter h) = Some otp
  /\ hotp_generate checks h =
       Some (otp, mkHotp (alg h) (issuer h) (label h) (digits h) (counter h + 1) (secret h)).
Proof.
  intros Hd Hc. exists (code_at h (counter h)). split; [by apply generate_at_code |].
  by apply generate_advances.
Qed.

Lemma hotp_generate_advances_witness :
  let h := mkHotp SHA1 [] [] 6 1 (bs "12345678901234567890") in
  exists h', hotp_generate true h = Some (287082, h') /\ counter h' = 2.
Proof.
  intros h. destruct (hotp_generate_advances true h) as (otp & H1 & H2); [cbn; lia | cbn; lia |].
  assert (hotp_generate_at true h (counter h) = Some 287082) as E by (vm_compute; reflexivity).
  eexists. split; [rewrite H2; do 2 f_equal; congruence | reflexivity].
Defined.

(** A code generated at time [t1] is accepted at time [t2] when the two
    times are at most [window] periods apart, counted in time steps; and every
    accepted code is that of such a time step. *)
Theorem totp_verify_window checks t otp ts window :
  0 <= digits (hotp t) <= 9 -> 0 < period t -> 0 <= ts -> 0 <= window ->
  ts / period t + window <= U64_MAX ->
  exists b, totp_verify checks t otp ts window = Some b
  /\ (b = true <->
      exists ts', 0 <= ts' /\ Z.abs (ts' / period t - ts / period t) <= window
                  /\ totp_generate_at checks t ts' = Some otp).
Proof.
  intros Hd Hp Ht Hw Hm. unfold totp_verify, totp_generate_at, div_checked.
  destruct (Z.eqb_spec (period t) 0) as [| _]; [lia |].
  destruct (verify_spec checks (hotp t) otp (ts / period t) window) as (b & Hb & Hs); try done.
  { by apply Z.div_pos. }
  exists b. split; [done |]. rewrite Hs. setoid_rewrite generate_at_code; [| done]. split.
  - intros (c & Hc & Hcw & Hcode). exists (c * period t).
    rewrite Z.div_mul by lia. split; [nia |]. split; [done |]. by f_equal.
  - intros (ts' & Hts & Hcw & Hcode). exists (ts' / period t).
    split; [by apply Z.div_pos |]. split; [done |]. congruence.
Qed.

Lemma totp_verify_window_witness :
  let t := mkTotp 30 (mkHotp SHA1 [] [] 6 0 (bs "12345678901234567890")) in
  totp_verify true t 287082 75 1 = Some true.
Proof.
  intros t. destruct (totp_verify_window true t 287082 75 1) as (b & Hb & Hs);
    [cbn; lia | cbn; lia | lia | lia | vm_compute; discriminate |].
  rewrite Hb. f_equal. apply Hs. exists 59. split; [lia |]. split; vm_compute; [discriminate | reflexivity].
Defined.

(** A HOTP generator printed by [to_uri] is read back by [from_uri], when
    no colon makes the label ambiguous. *)
Theorem hotp_uri_roundtrip h :
  uri_wf h -> 0 <= counter h <= U64_MAX -> hotp_from_uri (hotp_to_uri h) = Ok h.
Proof. apply hotp_uri_roundtrip_lemma. Qed.

Lemma hotp_uri_roundtrip_witness :
  let h := mkHotp SHA256 (bs "A&B Co") (bs "al:ice@example.com") 8 7 (bs "12345678901234567890") in
  hotp_from_uri (hotp_to_uri h) = Ok h.
Proof.
  intros h. apply hotp_uri_roundtrip; [| cbn; lia]. split; [| split].
  - apply uri_textb_true. vm_compute. reflexivity.
  - cbn. lia.
  - discriminate.
Defined.

(** The same for TOTP generators. *)
Theorem totp_uri_roundtrip t :
  uri_wf (hotp t) -> counter (hotp t) = 0 -> 0 <= period t <= U64_MAX ->
  totp_from_uri (totp_to_uri t) = Ok t.
Proof. apply totp_uri_roundtrip_lemma. Qed.

Lemma totp_uri_roundtrip_witness :
  let t := mkTotp 60 (mkHotp SHA512 [] (bs "alice@example.com") 6 0 (bs "12345678901234567890")) in
  totp_from_uri (totp_to_uri t) = Ok t.
Proof.
  intros t. apply totp_uri_roundtrip; [| done | cbn; lia]. split; [| split].
  - apply uri_textb_true. vm_compute. reflexivity.
  - cbn. lia.
  - cbn. lia.
Defined.

(** With a colon in the issuer, [from_uri] rejects the URI that [to_uri]
    printed. *)
Theorem hotp_uri_issuer_colon h i1 i2 :
  uri_text h -> 0 <= counter h <= U64_MAX ->
  issuer h = i1 ++ 58 :: i2 -> ~ In 58 i1 ->
  hotp_from_uri (hotp_to_uri h) = Err IssuerMismatch.
Proof. apply hotp_uri_colon. Qed.

Lemma hotp_uri_issuer_colon_witness :
  hotp_from_uri (hotp_to_uri (mkHotp SHA1 (bs "a:b") (bs "alice") 6 0 (bs "1234")))
  = Err IssuerMismatch.
Proof.
  apply (hotp_uri_issuer_colon _ (bs "a") (bs "b")); [| cbn; lia | done | cbn; lia].
  apply uri_textb_true. vm_compute. reflexivity.
Defined.

(** [from_uri] accepts configurations on which every generation panics: a
    period of zero in any build, ten or more digits with overflow checks, and
    thirty-two or more without. *)
Theorem totp_uri_accepts_panicking t :
  uri_wf (hotp t) -> counter (hotp t) = 0 -> 0 <= period t <= U64_MAX ->
  totp_from_uri (totp_to_uri t) = Ok t
  /\ forall (checks : bool) ts,
       period t = 0 \/ (if checks then 10 else 32) <= digits (hotp t) ->
       totp_generate_at checks t ts = None.
Proof.
  intros Hwf Hc Hp. split; [by apply totp_uri_roundtrip_lemma |].
  intros checks ts [H0 | Hd]; unfold totp_generate_at, div_checked; [by rewrite H0 |].
  destruct (period t =? 0); [done |]. by apply generate_at_panics.
Qed.

Lemma totp_uri_accepts_panicking_witness :
  let t := mkTotp 0 (mkHotp SHA1 [] (bs "alice") 6 0 (bs "1234")) in
  totp_from_uri (totp_to_uri t) = Ok t /\ totp_generate_at false t 59 = None.
Proof.
  intros t. destruct (totp_uri_accepts_panicking t) as [H1 H2]; [| done | cbn; lia |].
  - split; [| split; cbn; lia].
    apply uri_textb_true. vm_compute. reflexivity.
  - split; [exact H1 |]. apply H2. by left.
Defined.
