(* ===== verification/Telnet.v ===== *)
(** * Telnet: [telnet_codec.rs], [telnet_input.rs] and the reader of
    [transport_io.rs] (zzclawterm-transport)

    [Codec] models the wire format, [Input] the local line editor.  The calls
    of [on_negotiate] are the second component of [strip_telnet_commands], in
    the order in which the code makes them.  [Wire] is the abstract syntax of a
    Telnet stream against which the decoder is proved. *)
From stdpp Require Import base list numbers strings sets.
From Stdlib Require Import ZArith Lia.
From S2P Require Import Prelude.

Module Codec.

Abbreviation IAC := 255.
Abbreviation NOP := [255; 241].
Abbreviation WILL := 251.
Abbreviation WONT := 252.
Abbreviation DO := 253.
Abbreviation DONT := 254.
Abbreviation SB := 250.
Abbreviation SE := 240.
Abbreviation OPT_ECHO := 1.
Abbreviation OPT_SUPPRESS_GO_AHEAD := 3.
Abbreviation OPT_NAWS := 31.

Definition negotiate_response (command option : Z) (send_naws send_sga : bool) : list Z :=
  if command =? WILL then
    if (option =? OPT_ECHO) || (send_sga && (option =? OPT_SUPPRESS_GO_AHEAD))
    then [IAC; DO; option] else [IAC; DONT; option]
  else if command =? DO then
    if send_naws && (option =? OPT_NAWS) then [IAC; WILL; option] else [IAC; WONT; option]
  else if command =? WONT then [IAC; DONT; option]
  else if command =? DONT then [IAC; WONT; option]
  else [].

Definition maybe_build_naws (cols rows : Z) (raw_tcp send_naws : bool) : option (list Z) :=
  if raw_tcp || negb send_naws then None
  else Some [IAC; SB; OPT_NAWS;
             wrap 8 (Z.shiftr cols 8); wrap 8 (Z.land cols 0xff);
             wrap 8 (Z.shiftr rows 8); wrap 8 (Z.land rows 0xff); IAC; SE].

Fixpoint unescape_iac_iac (data : list Z) : list Z :=
  match data with
  | b1 :: (b2 :: rest) as tl =>
      if (b1 =? IAC) && (b2 =? IAC) then IAC :: unescape_iac_iac rest
      else b1 :: unescape_iac_iac tl
  | [b] => [b]
  | [] => []
  end.

(** The inner loop of the [SB] case: what follows the first [IAC SE]. *)
Fixpoint skip_subnegotiation (data : list Z) : list Z :=
  match data with
  | b1 :: tl =>
      match tl with
      | b2 :: rest => if (b1 =? IAC) && (b2 =? SE) then rest else skip_subnegotiation tl
      | [] => []
      end
  | [] => []
  end.

Definition is_negotiation (command : Z) : bool :=
  (command =? WILL) || (command =? WONT) || (command =? DO) || (command =? DONT).

(** The outer loop; every turn consumes a byte, so the length is enough fuel. *)
Fixpoint strip_fuel (fuel : nat) (data : list Z) : list Z * list (Z * Z) :=
  match fuel, data with
  | S fuel', b :: tl =>
      match (if b =? IAC then tl else []) with
      | command :: rest =>
          if command =? IAC then
            let (visible, negs) := strip_fuel fuel' rest in (IAC :: visible, negs)
          else if is_negotiation command then
            match rest with
            | option :: rest' =>
                let (visible, negs) := strip_fuel fuel' rest' in
                (visible, (command, option) :: negs)
            | [] => strip_fuel fuel' rest
            end
          else if command =? SB then strip_fuel fuel' (skip_subnegotiation rest)
          else strip_fuel fuel' rest
      | [] => let (visible, negs) := strip_fuel fuel' tl in (b :: visible, negs)
      end
  | _, _ => ([], [])
  end.

Definition strip_telnet_commands (data : list Z) : list Z * list (Z * Z) :=
  strip_fuel (length data) data.

Fixpoint escape_bytes (data : list Z) : list Z :=
  match data with
  | [] => []
  | b :: rest => if b =? IAC then b :: IAC :: escape_bytes rest else b :: escape_bytes rest
  end.

Definition escape_telnet_application_data (data : list Z) (raw_tcp : bool) : list Z :=
  if raw_tcp then data else escape_bytes data.

Definition telnet_wire_size (data : list Z) (raw_tcp : bool) : Z :=
  saturating_add USIZE_MAX (len data)
    (if raw_tcp then 0 else len (filter (fun b => b = 255) data)).

(** What the reader does with one chunk from the socket: the visible bytes and
    the non-empty replies, in order. *)
Definition read_chunk (raw_tcp send_naws send_sga : bool) (chunk : list Z)
  : list Z * list (list Z) :=
  if raw_tcp then (unescape_iac_iac chunk, [])
  else
    let (visible, negs) := strip_telnet_commands chunk in
    (visible,
     filter (fun r => r <> [])
       (map (fun n => negotiate_response n.1 n.2 send_naws send_sga) negs)).

End Codec.

(** ** The line editor *)
Module Input.

Inductive EscapeState :=
| Ground | Escape | Csi | Ss3 | Osc | OscEscape | ControlString | ControlStringEscape.

#[global] Instance escape_state_eq_dec : EqDecision EscapeState.
Proof. solve_decision. Defined.

Inductive TelnetEnterMode := Crlf | Cr | Lf.

(** The fields of [TelnetSessionConfig] that the input path reads. *)
Record Config := mkConfig {
  raw_tcp : bool;
  enter_mode : TelnetEnterMode;
  local_echo : bool;
  local_line_edit : bool
}.

Record State := mkState { line : list Z; escape : EscapeState }.

Definition init : State := mkState [] Ground.

Definition between (lo b hi : Z) : bool := (lo <=? b) && (b <=? hi).

(** The match on state and byte of [EscapeState::consume]. *)
Definition next_escape (s : EscapeState) (byte : Z) : EscapeState :=
  match s with
  | Escape =>
      if byte =? 91 then Csi
      else if byte =? 79 then Ss3
      else if byte =? 93 then Osc
      else if (byte =? 80) || (byte =? 88) || (byte =? 94) || (byte =? 95) then ControlString
      else if between 0x20 byte 0x2f then Escape
      else if byte =? 0x1b then Escape
      else Ground
  | Csi | Ss3 =>
      if between 0x40 byte 0x7e then Ground
      else if byte =? 0x1b then Escape else s
  | Osc =>
      if byte =? 0x07 then Ground
      else if byte =? 0x1b then OscEscape else s
  | OscEscape =>
      if byte =? 92 then Ground else if byte =? 0x1b then OscEscape else Osc
  | ControlString => if byte =? 0x1b then ControlStringEscape else s
  | ControlStringEscape =>
      if byte =? 92 then Ground
      else if byte =? 0x1b then ControlStringEscape else ControlString
  | Ground => if byte =? 0x1b then Escape else s
  end.

(** [EscapeState::consume]: whether the byte belongs to an escape sequence, and
    the next state. *)
Definition consume (s : EscapeState) (byte : Z) : bool * EscapeState :=
  match s with
  | Ground => if byte =? 0x1b then (true, Escape) else (false, Ground)
  | Escape | Csi | Ss3 =>
      if (byte <? 0x20) && negb (byte =? 0x1b) then (false, Ground)
      else (true, next_escape s byte)
  | _ => (true, next_escape s byte)
  end.

Definition enter_bytes (mode : TelnetEnterMode) : list Z :=
  match mode with Cr => [13] | Lf => [10] | Crlf => [13; 10] end.

Section Editor.
(** [decode] is the session's codec from the [encoding_rs] crate on a whole
    slice, [None] where it reports an error; [cells] is
    [terminal_cell_count]. *)
Context (decode : list Z -> option (list Z)) (cells : list Z -> Z).

(** [(1..=4.min(tail.len())).find_map(..)]: the shortest prefix that decodes. *)
Fixpoint find_character (lens : list nat) (tail : list Z) : option (nat * Z) :=
  match lens with
  | [] => None
  | n :: lens' =>
      match decode (take n tail) with
      | Some text => Some (n, cells text)
      | None => find_character lens' tail
      end
  end.

(** The [while index < self.line.len()] loop of [backspace]: the start and the
    width of the last character. *)
Fixpoint last_character (fuel : nat) (line : list Z) (index : nat) (start : nat) (width : Z)
  : nat * Z :=
  match fuel with
  | O => (start, width)
  | S fuel' =>
      if (index <? length line)%nat then
        let tail := drop index line in
        let '(n, w) :=
          match find_character (seq 1 (Nat.min 4 (length tail))) tail with
          | Some c => c
          | None => (1%nat, 1)
          end in
        last_character fuel' line (index + n) index w
      else (start, width)
  end.

(** [backspace]: the new line and the echo. *)
Definition backspace (line : list Z) (local_echo : bool) : list Z * list Z :=
  match line with
  | [] => ([], [])
  | _ :: _ =>
      let (start, width) := last_character (length line) line 0 0 1 in
      (take start line,
       if local_echo then concat (replicate (Z.to_nat width) [8; 32; 8]) else [])
  end.

Record Out := mkOut { send : list Z; echo : list Z }.
Definition no_out : Out := mkOut [] [].
Definition out_app (a b : Out) : Out := mkOut (send a ++ send b) (echo a ++ echo b).

Definition is_delete_key (data : list Z) : bool := starts_with [27; 91; 51; 126] data.

(** One turn of the loop of [process] at [data[index..] = byte :: rest]: the
    state, the output of the turn and the data that remains. *)
Definition process_step (c : Config) (line_edit local_echo : bool) (st : State)
  (byte : Z) (rest : list Z) : State * Out * list Z :=
  if line_edit && bool_decide (escape st = Ground) && is_delete_key (byte :: rest) then
    let (line', e) := backspace (line st) local_echo in
    (mkState line' (escape st), mkOut [] e, drop 3 rest)
  else
    let (consumed, esc') := consume (escape st) byte in
    if consumed then (mkState (line st) esc', mkOut [byte] [], rest)
    else if (byte =? 13) || (byte =? 10) then
      (mkState (if line_edit then [] else line st) esc',
       mkOut ((if line_edit then line st else []) ++ enter_bytes (enter_mode c))
             (if local_echo then [13; 10] else []),
       match rest with
       | b :: rest' => if (byte =? 13) && (b =? 10) then rest' else rest
       | [] => rest
       end)
    else if line_edit && ((byte =? 8) || (byte =? 0x7f)) then
      let (line', e) := backspace (line st) local_echo in
      (mkState line' esc', mkOut [] e, rest)
    else if (byte <=? 0x1f) || (byte =? 0x7f) then
      (mkState (line st) esc',
       mkOut [byte] (if local_echo && (byte =? 9) then [byte] else []), rest)
    else
      (mkState (if line_edit then line st ++ [byte] else line st) esc',
       mkOut (if line_edit then [] else [byte]) (if local_echo then [byte] else []), rest).

Fixpoint process_loop (fuel : nat) (c : Config) (line_edit local_echo : bool) (st : State)
  (data : list Z) : State * Out :=
  match fuel, data with
  | S fuel', byte :: rest =>
      let '(st', o, rest') := process_step c line_edit local_echo st byte rest in
      let (st'', o') := process_loop fuel' c line_edit local_echo st' rest' in
      (st'', out_app o o')
  | _, _ => (st, no_out)
  end.

Definition process (c : Config) (line_edit local_echo : bool) (st : State) (data : list Z)
  : State * list Z * list Z :=
  let (st', o) := process_loop (length data) c line_edit local_echo st data in
  (st', Codec.escape_telnet_application_data (send o) (raw_tcp c), echo o).

Definition prepare (c : Config) (st : State) (data : list Z) : State * list Z * list Z :=
  process c (local_line_edit c) (local_echo c) st data.

Definition normalize_telnet_input (c : Config) (data : list Z) : list Z :=
  (process c false false init data).1.2.

Definition telnet_auto_login_line_bytes (c : Config) (value : list Z) : list Z :=
  normalize_telnet_input c (value ++ [13]).

End Editor.

(** [remap_del_to_bs] of [transport_io.rs]. *)
Definition remap_del_to_bs (data : list Z) : list Z :=
  map (fun b => if b =? 0x7f then 0x08 else b) data.

End Input.

Import Codec.

(** ** Escaping *)

Lemma unescape_escape data : unescape_iac_iac (escape_bytes data) = data.
Proof.
  induction data as [| b data IH]; [done |]. cbn [escape_bytes].
  destruct (Z.eqb_spec b IAC) as [-> | Hb].
  - cbn. by rewrite IH.
  - cbn [unescape_iac_iac]. destruct (escape_bytes data) as [| b2 r] eqn:E.
    + by destruct data as [| ? ?]; [| cbn in E; destruct (_ =? _)].
    + destruct (Z.eqb_spec b IAC); [done |]. cbn [andb]. rewrite <- E in *. by rewrite IH.
Qed.

Lemma length_escape_bytes data :
  length (escape_bytes data) = (length data + length (filter (fun b : Z => b = 255%Z) data))%nat.
Proof.
  induction data as [| b data IH]; [done |]. cbn [escape_bytes length]. rewrite filter_cons.
  destruct (Z.eqb_spec b IAC), (decide (b = 255)); try done; cbn [length]; rewrite IH; lia.
Qed.

(** ** The decoder's equations *)

Lemma skip_cons b1 b2 l :
  skip_subnegotiation (b1 :: b2 :: l)
  = if (b1 =? IAC) && (b2 =? SE) then l else skip_subnegotiation (b2 :: l).
Proof. done. Qed.

Lemma skip_subnegotiation_length l : (length (skip_subnegotiation l) <= length l)%nat.
Proof.
  induction l as [| b1 l IH]; [done |]. destruct l as [| b2 l]; [cbn; lia |].
  rewrite skip_cons. destruct (_ && _); cbn [length] in *; lia.
Qed.

Lemma strip_fuel_enough f1 f2 l :
  (length l <= f1)%nat -> (length l <= f2)%nat -> strip_fuel f1 l = strip_fuel f2 l.
Proof.
  revert f2 l. induction f1 as [| f1 IH]; intros [| f2] [| b l] H1 H2; cbn [length] in *; try done; try lia.
  cbn [strip_fuel]. destruct (b =? IAC).
  - destruct l as [| cmd r]; [by rewrite (IH f2) by (cbn; lia) |].
    cbn [length] in *. rewrite (IH f2 r) by lia.
    rewrite (IH f2 (skip_subnegotiation r)) by (pose proof (skip_subnegotiation_length r); lia).
    destruct r as [| o r']; [done |]. cbn [length] in *. by rewrite (IH f2 r') by lia.
  - by rewrite (IH f2 l) by lia.
Qed.

(** The loop without its fuel. *)
Lemma strip_unfold b tl :
  strip_telnet_commands (b :: tl) =
  match (if b =? IAC then tl else []) with
  | command :: rest =>
      if command =? IAC then
        let (visible, negs) := strip_telnet_commands rest in (IAC :: visible, negs)
      else if is_negotiation command then
        match rest with
        | option :: rest' =>
            let (visible, negs) := strip_telnet_commands rest' in
            (visible, (command, option) :: negs)
        | [] => strip_telnet_commands rest
        end
      else if command =? SB then strip_telnet_commands (skip_subnegotiation rest)
      else strip_telnet_commands rest
  | [] => let (visible, negs) := strip_telnet_commands tl in (b :: visible, negs)
  end.
Proof.
  unfold strip_telnet_commands at 1. cbn [length]. remember (length tl) as f eqn:Hf.
  assert (Hen : forall l, (length l <= f)%nat -> strip_fuel f l = strip_telnet_commands l)
    by (intros; by apply strip_fuel_enough).
  cbn [strip_fuel]. destruct (b =? IAC); [| by rewrite Hen by lia].
  destruct tl as [| cmd r]; [by rewrite Hen by (cbn; lia) |]. cbn [length] in Hf.
  pose proof (skip_subnegotiation_length r). rewrite !(Hen r), (Hen (skip_subnegotiation r)) by lia.
  destruct r as [| o r']; [done |]. cbn [length] in Hf. by rewrite (Hen r') by lia.
Qed.

Lemma strip_data b l :
  b <> IAC ->
  strip_telnet_commands (b :: l)
  = (b :: (strip_telnet_commands l).1, (strip_telnet_commands l).2).
Proof.
  intros Hb. rewrite strip_unfold. destruct (Z.eqb_spec b IAC); [done |].
  by destruct (strip_telnet_commands l).
Qed.

Lemma strip_iac_iac l :
  strip_telnet_commands (IAC :: IAC :: l)
  = (IAC :: (strip_telnet_commands l).1, (strip_telnet_commands l).2).
Proof. rewrite strip_unfold. cbn. by destruct (strip_telnet_commands l). Qed.

Lemma is_negotiation_bounds cmd : is_negotiation cmd = true -> 251 <= cmd <= 254.
Proof. unfold is_negotiation. rewrite !orb_true_iff, !Z.eqb_eq. lia. Qed.

Lemma strip_negotiation cmd o l :
  is_negotiation cmd = true ->
  strip_telnet_commands (IAC :: cmd :: o :: l)
  = ((strip_telnet_commands l).1, (cmd, o) :: (strip_telnet_commands l).2).
Proof.
  intros Hn. pose proof (is_negotiation_bounds cmd Hn). rewrite strip_unfold, Z.eqb_refl.
  cbn match beta. rewrite Hn. destruct (Z.eqb_spec cmd IAC); [lia |]. by destruct (strip_telnet_commands l).
Qed.

Lemma strip_command cmd l :
  is_negotiation cmd = false -> cmd <> IAC -> cmd <> SB ->
  strip_telnet_commands (IAC :: cmd :: l) = strip_telnet_commands l.
Proof.
  intros Hn H1 H2. rewrite strip_unfold, Z.eqb_refl. cbn match beta. rewrite Hn.
  by destruct (Z.eqb_spec cmd IAC), (Z.eqb_spec cmd SB).
Qed.

Lemma strip_sb l :
  strip_telnet_commands (IAC :: SB :: l) = strip_telnet_commands (skip_subnegotiation l).
Proof. by rewrite strip_unfold. Qed.

(** ** Streams as items *)
Module Wire.

Inductive item :=
| Data (d : list Z)
| Negotiate (cmd opt : Z)
| Subnegotiate (payload : list Z)
| Command (cmd : Z).

Definition encode (i : item) : list Z :=
  match i with
  | Data d => escape_bytes d
  | Negotiate cmd opt => [IAC; cmd; opt]
  | Subnegotiate payload => IAC :: SB :: escape_bytes payload ++ [IAC; SE]
  | Command cmd => [IAC; cmd]
  end.

(** What follows the first [IAC SE] pair of bytes in a payload. *)
Fixpoint behind_se (payload : list Z) : list Z :=
  match payload with
  | b1 :: tl =>
      match tl with
      | b2 :: rest => if (b1 =? IAC) && (b2 =? SE) then rest else behind_se tl
      | [] => []
      end
  | [] => []
  end.

Definition item_ok (i : item) : bool :=
  match i with
  | Data _ => true
  | Negotiate cmd _ => is_negotiation cmd
  | Subnegotiate _ => true
  | Command cmd => negb (is_negotiation cmd || (cmd =? IAC) || (cmd =? SB))
  end.

(** The data of a stream, and what the decoder shows of it: a payload is skipped
    up to the first [IAC SE] pair in it, whose [IAC] is doubled on the wire. *)
Definition data_of (i : item) : list Z := match i with Data d => d | _ => [] end.
Definition shown (i : item) : list Z :=
  match i with Data d => d | Subnegotiate payload => behind_se payload | _ => [] end.
Definition negotiation_of (i : item) : list (Z * Z) :=
  match i with Negotiate cmd opt => [(cmd, opt)] | _ => [] end.

End Wire.

Lemma strip_escaped d l :
  strip_telnet_commands (escape_bytes d ++ l)
  = (d ++ (strip_telnet_commands l).1, (strip_telnet_commands l).2).
Proof.
  induction d as [| b d IH]; [cbn [escape_bytes app]; by destruct (strip_telnet_commands l) |]. cbn [escape_bytes].
  destruct (Z.eqb_spec b IAC) as [-> | Hb]; cbn [app].
  - by rewrite strip_iac_iac, IH.
  - by rewrite strip_data, IH by done.
Qed.

Lemma behind_se_cons b1 b2 p :
  Wire.behind_se (b1 :: b2 :: p) = if (b1 =? IAC) && (b2 =? SE) then p else Wire.behind_se (b2 :: p).
Proof. reflexivity. Qed.

(** The end of a subnegotiation found in its payload, or behind it. *)
Lemma skip_payload p l :
  skip_subnegotiation (escape_bytes p ++ IAC :: SE :: l) = l
    /\ Wire.behind_se p = []
  \/ skip_subnegotiation (escape_bytes p ++ IAC :: SE :: l) = escape_bytes (Wire.behind_se p) ++ IAC :: SE :: l.
Proof.
  induction p as [| b1 p IH]; [by left |]. cbn [escape_bytes]. destruct (Z.eqb_spec b1 IAC) as [-> | Hb1]; cbn [app].
  - rewrite skip_cons. cbn [Z.eqb Pos.eqb andb]. destruct p as [| b2 p]; [by left |].
    rewrite behind_se_cons. cbn [escape_bytes]. destruct (Z.eqb_spec b2 IAC) as [-> | Hb2]; cbn [app].
    + rewrite skip_cons. exact IH.
    + rewrite skip_cons. cbn [Z.eqb Pos.eqb andb]. destruct (Z.eqb_spec b2 SE) as [-> | Hse]; [by right |].
      cbn [escape_bytes] in IH. apply Z.eqb_neq in Hb2. rewrite Hb2 in IH. exact IH.
  - assert (Hs : skip_subnegotiation (b1 :: escape_bytes p ++ IAC :: SE :: l) = skip_subnegotiation (escape_bytes p ++ IAC :: SE :: l)).
    { destruct (escape_bytes p ++ IAC :: SE :: l) as [| b2 r] eqn:E; [by destruct (escape_bytes p) |].
      rewrite skip_cons. by apply Z.eqb_neq in Hb1 as ->. }
    rewrite Hs. destruct p as [| b2 p]; [by left |]. rewrite behind_se_cons. apply Z.eqb_neq in Hb1. rewrite Hb1. exact IH.
Qed.

Lemma behind_se_nil p : ~ (exists a b, p = a ++ IAC :: SE :: b) -> Wire.behind_se p = [].
Proof.
  induction p as [| b1 p IH]; intros Hp; [done |]. destruct p as [| b2 p]; [done |]. rewrite behind_se_cons.
  destruct (Z.eqb_spec b1 IAC) as [-> | ?]; [destruct (Z.eqb_spec b2 SE) as [-> | ?] |]; cbn [andb].
  1: by destruct Hp; exists [], p.
  all: apply IH; intros (a & b & E); apply Hp; eexists (_ :: a), b; by rewrite E.
Qed.

Lemma strip_subnegotiation p l :
  strip_telnet_commands (skip_subnegotiation (escape_bytes p ++ IAC :: SE :: l))
  = (Wire.behind_se p ++ (strip_telnet_commands l).1, (strip_telnet_commands l).2).
Proof.
  destruct (skip_payload p l) as [[-> ->] | ->]; [by destruct (strip_telnet_commands l) |].
  rewrite strip_escaped, strip_command by done. by destruct (strip_telnet_commands l).
Qed.

Lemma strip_item i l :
  Wire.item_ok i = true ->
  strip_telnet_commands (Wire.encode i ++ l)
  = (Wire.shown i ++ (strip_telnet_commands l).1,
     Wire.negotiation_of i ++ (strip_telnet_commands l).2).
Proof.
  destruct i as [d | cmd o | p | cmd]; cbn [Wire.encode Wire.item_ok Wire.shown Wire.negotiation_of app]; intros H.
  - apply strip_escaped.
  - by apply strip_negotiation.
  - rewrite strip_sb, <- app_assoc. apply strip_subnegotiation.
  - apply negb_true_iff, orb_false_iff in H as [[H1 H2]%orb_false_iff H3].
    bool_to_prop. rewrite strip_command by done. by destruct (strip_telnet_commands l).
Qed.

Lemma strip_items items l :
  Forall (fun i => Wire.item_ok i = true) items ->
  strip_telnet_commands (concat (map Wire.encode items) ++ l)
  = (concat (map Wire.shown items) ++ (strip_telnet_commands l).1,
     concat (map Wire.negotiation_of items) ++ (strip_telnet_commands l).2).
Proof.
  induction 1 as [| i items Hi Hitems IH]; cbn [map concat]; [cbn [escape_bytes app]; by destruct (strip_telnet_commands l) |].
  by rewrite <- !app_assoc, strip_item, IH.
Qed.

(** ** Chunks *)

(** Decoding chunk by chunk is decoding the whole stream, if no chunk ends
    inside an item. *)
Lemma strip_chunk_boundary items l :
  Forall (fun i => Wire.item_ok i = true) items ->
  let a := concat (map Wire.encode items) in
  strip_telnet_commands (a ++ l)
  = ((strip_telnet_commands a).1 ++ (strip_telnet_commands l).1,
     (strip_telnet_commands a).2 ++ (strip_telnet_commands l).2).
Proof.
  intros Hi a. unfold a. rewrite strip_items by done.
  pose proof (strip_items items [] Hi) as H0. rewrite app_nil_r in H0. rewrite H0.
  cbn. by rewrite !app_nil_r.
Qed.

(** A chunk that ends after the [IAC] of a negotiation. *)
Lemma strip_split_negotiation items cmd o l :
  Forall (fun i => Wire.item_ok i = true) items -> is_negotiation cmd = true -> o <> IAC ->
  let a := concat (map Wire.encode items) ++ [IAC] in
  let b := cmd :: o :: l in
  (strip_telnet_commands a).1 ++ (strip_telnet_commands b).1
    = concat (map Wire.shown items) ++ IAC :: cmd :: o :: (strip_telnet_commands l).1
  /\ (strip_telnet_commands (a ++ b)).1
    = concat (map Wire.shown items) ++ (strip_telnet_commands l).1
  /\ (cmd, o) ∈ (strip_telnet_commands (a ++ b)).2.
Proof.
  intros Hi Hn Ho a b. pose proof (is_negotiation_bounds cmd Hn). unfold a, b.
  rewrite <- app_assoc, !strip_items by done. cbn [app].
  rewrite strip_negotiation by done. rewrite (strip_data cmd), (strip_data o) by lia. cbn [fst snd].
  split; [by rewrite <- app_assoc |]. split; [done |]. set_solver.
Qed.

(** ** Window size *)

(** RFC 1073: the four bytes of the size, with [IAC] doubled as in any
    subnegotiation. *)
Definition rfc_naws (cols rows : Z) : list Z :=
  [IAC; SB; OPT_NAWS] ++ escape_bytes (to_be_bytes 2 cols ++ to_be_bytes 2 rows) ++ [IAC; SE].

Lemma escape_bytes_id l : ~ In 255 l -> escape_bytes l = l.
Proof.
  induction l as [| b l IH]; [done |]. cbn. intros Hn.
  destruct (Z.eqb_spec b 255); [tauto |]. by rewrite IH by tauto.
Qed.

Lemma build_naws_bytes cols rows :
  0 <= cols < 2 ^ 16 -> 0 <= rows < 2 ^ 16 ->
  maybe_build_naws cols rows false true
  = Some ([IAC; SB; OPT_NAWS] ++ (to_be_bytes 2 cols ++ to_be_bytes 2 rows) ++ [IAC; SE]).
Proof.
  intros Hc Hr. unfold maybe_build_naws. cbn -[wrap Z.shiftr Z.land].
  assert (Hl : forall x, wrap 8 (Z.land x 255) = wrap 8 (Z.shiftr x 0)).
  { intros x. change 255 with (Z.ones 8). rewrite Z.land_ones, Z.shiftr_0_r by lia.
    unfold wrap. by rewrite Z.mod_mod by lia. }
  by rewrite !Hl.
Qed.

Lemma naws_rfc_iff cols rows :
  0 <= cols < 2 ^ 16 -> 0 <= rows < 2 ^ 16 ->
  maybe_build_naws cols rows false true = Some (rfc_naws cols rows)
  <-> ~ In 255 (to_be_bytes 2 cols ++ to_be_bytes 2 rows).
Proof.
  intros Hc Hr. rewrite build_naws_bytes by done. unfold rfc_naws.
  generalize (to_be_bytes 2 cols ++ to_be_bytes 2 rows) as l. intros l. split.
  - intros H. apply (f_equal (fun o => length (default [] o))) in H. cbn in H.
    rewrite !length_app, length_escape_bytes in H. cbn [length] in H.
    intros Hin. assert (Hf : filter (fun b : Z => b = 255) l <> []).
    { intros E. assert (255 ∈ filter (fun b : Z => b = 255) l) as Hx.
      { apply list_elem_of_filter. split; [done |]. by apply list_elem_of_In. }
      rewrite E in Hx. by apply not_elem_of_nil in Hx. }
    destruct (filter _ l); [done |]. cbn [length] in H. lia.
  - intros Hn. by rewrite escape_bytes_id.
Qed.

(** ** Replies *)

Lemma reply_negotiates cmd o send_naws send_sga :
  is_negotiation cmd = true ->
  exists cmd', is_negotiation cmd' = true
  /\ read_chunk false send_naws send_sga [IAC; cmd; o] = ([], [[IAC; cmd'; o]]).
Proof.
  intros Hn. unfold read_chunk. rewrite strip_negotiation by done. cbn [fst snd strip_telnet_commands].
  unfold is_negotiation in Hn. rewrite !orb_true_iff, !Z.eqb_eq in Hn.
  unfold negotiate_response. cbn [map fst snd].
  destruct Hn as [[[-> | ->] | ->] | ->]; cbn -[filter];
    repeat match goal with |- context [if ?b then _ else _] => destruct b end;
    eexists; (split; [| reflexivity]); done.
Qed.

(** Two endpoints that answer each other: the bytes in flight after [n]
    replies. *)
Fixpoint converse (n : nat) (a b : bool * bool) (chunk : list Z) : list Z :=
  match n with
  | O => chunk
  | S n' => converse n' b a (concat (read_chunk false a.1 a.2 chunk).2)
  end.

Lemma converse_negotiation n a b cmd o :
  is_negotiation cmd = true ->
  exists cmd', is_negotiation cmd' = true /\ converse n a b [IAC; cmd; o] = [IAC; cmd'; o].
Proof.
  revert a b cmd. induction n as [| n IH]; intros a b cmd Hn; [by exists cmd |].
  destruct (reply_negotiates cmd o a.1 a.2 Hn) as (cmd1 & Hn1 & Hr).
  cbn [converse]. rewrite Hr. cbn [snd concat app]. by apply IH.
Qed.

(** ** The line editor *)

Import Input.

Section Editor.
Context (decode : list Z -> option (list Z)) (cells : list Z -> Z).

Lemma process_step_shrinks c le ec st byte rest :
  (length (process_step decode cells c le ec st byte rest).2 <= length rest)%nat.
Proof.
  unfold process_step. destruct (_ && _); [destruct (backspace _ _ _ _); cbn; rewrite length_drop; lia |].
  destruct (consume _ _) as [[] esc']; [done |].
  destruct (_ || _); [| destruct (_ && _); [by destruct (backspace _ _ _ _) | by destruct (_ || _)]].
  cbn [snd]. destruct rest as [| b r]; [done |]. destruct (_ && _); cbn [length]; lia.
Qed.

Lemma process_loop_enough f1 f2 c le ec st data :
  (length data <= f1)%nat -> (length data <= f2)%nat ->
  process_loop decode cells f1 c le ec st data = process_loop decode cells f2 c le ec st data.
Proof.
  revert f2 st data. induction f1 as [| f1 IH]; intros [| f2] st [| b l] H1 H2; cbn [length] in *; try done; try lia.
  cbn [process_loop].
  destruct (process_step decode cells c le ec st b l) as [[st' o] rest'] eqn:E.
  pose proof (process_step_shrinks c le ec st b l) as Hs. rewrite E in Hs. cbn [snd] in Hs.
  by rewrite (IH f2) by lia.
Qed.

(** The loop on the whole slice, without its fuel. *)
Definition process_all (c : Config) (le ec : bool) (st : State) (data : list Z) : State * Out :=
  process_loop decode cells (length data) c le ec st data.

Lemma process_all_unfold c le ec st byte rest :
  process_all c le ec st (byte :: rest) =
  let '(st', o, rest') := process_step decode cells c le ec st byte rest in
  let (st'', o') := process_all c le ec st' rest' in (st'', out_app o o').
Proof.
  unfold process_all at 1. cbn [length process_loop].
  destruct (process_step decode cells c le ec st byte rest) as [[st' o] rest'] eqn:E.
  pose proof (process_step_shrinks c le ec st byte rest) as Hs. rewrite E in Hs. cbn [snd] in Hs.
  by rewrite (process_loop_enough _ (length rest')) by lia.
Qed.

Definition printable (b : Z) : Prop := 0x20 <= b /\ b <> 0x7f.

(** A printable byte typed outside an escape sequence. *)
Lemma process_printable c ec l b rest :
  printable b ->
  process_step decode cells c true ec (mkState l Ground) b rest
  = (mkState (l ++ [b]) Ground, mkOut [] (if ec then [b] else []), rest).
Proof.
  intros [Hb Hd]. unfold process_step, is_delete_key, starts_with. cbn [strip_prefix escape line].
  destruct (Z.eqb_spec 27 b); [lia |]. rewrite andb_false_r.
  unfold consume. destruct (Z.eqb_spec b 27); [lia |].
  destruct (Z.eqb_spec b 13); [lia |]. destruct (Z.eqb_spec b 10); [lia |].
  destruct (Z.eqb_spec b 8); [lia |]. destruct (Z.eqb_spec b 127); [lia |].
  destruct (Z.leb_spec b 31); [lia | done].
Qed.

(** With line editing, text is held until Enter sends the whole line. *)
Lemma process_line c ec l text :
  Forall printable text ->
  process_all c true ec (mkState l Ground) (text ++ [13])
  = (mkState [] Ground,
     mkOut (l ++ text ++ enter_bytes (enter_mode c)) (if ec then text ++ [13; 10] else [])).
Proof.
  intros Ht. revert l. induction Ht as [| b text Hb Ht IH]; intros l; cbn [app].
  - rewrite process_all_unfold. unfold process_step, is_delete_key, starts_with.
    unfold process_all. cbn. rewrite andb_false_r. unfold out_app. cbn. by rewrite !app_nil_r.
  - rewrite process_all_unfold, process_printable by done. rewrite IH.
    unfold out_app. cbn [send echo app]. rewrite <- !app_assoc. by destruct ec.
Qed.

(** Without line editing, input may be cut anywhere but inside a CR LF pair. *)
Lemma process_app c ec st a b :
  ~ (last a = Some 13 /\ head b = Some 10) ->
  process_all c false ec st (a ++ b) =
  let (st', o) := process_all c false ec st a in
  let (st'', o') := process_all c false ec st' b in (st'', out_app o o').
Proof.
  remember (length a) as n eqn:Hn. revert st a Hn.
  induction n as [n IH] using lt_wf_ind. intros st [| x a] Hn Hcut.
  { change (process_all c false ec st []) with (st, no_out). cbn [app].
    by destruct (process_all c false ec st b) as [st' []]. }
  cbn [app]. rewrite !process_all_unfold.
  assert (Hstep : exists st1 o1 r, process_step decode cells c false ec st x a = (st1, o1, r)
    /\ process_step decode cells c false ec st x (a ++ b) = (st1, o1, r ++ b)
    /\ (length r <= length a)%nat /\ ~ (last r = Some 13 /\ head b = Some 10)).
  { assert (Ha : ~ (last a = Some 13 /\ head b = Some 10))
      by (destruct a; [cbn; intuition congruence | done]).
    unfold process_step. cbn [andb]. destruct (consume (escape st) x) as [[] esc'].
    { by eexists _, _, _. }
    destruct ((x =? 13) || (x =? 10)) eqn:Hx; [| destruct ((x <=? 31) || (x =? 127)); eexists _, _, a; by split_and!].
    destruct a as [| y a]; cbn [app].
    - destruct b as [| y b]; [by eexists _, _, _ |].
      destruct (Z.eqb_spec x 13) as [-> |], (Z.eqb_spec y 10) as [-> |]; cbn [andb];
        try (by eexists _, _, []). by destruct Hcut.
    - destruct ((x =? 13) && (y =? 10)); eexists _, _, _; (split; [done |]); (split; [done |]);
        (split; [cbn; lia |]); [| done].
      destruct a; [cbn; intuition congruence | done]. }
  destruct Hstep as (st1 & o1 & r & -> & -> & Hr & Hcut').
  rewrite (IH (length r)); [| cbn in Hn; lia | done | done].
  destruct (process_all c false ec st1 r) as [st2 o2], (process_all c false ec st2 b) as [st3 o3].
  unfold out_app. cbn. by rewrite !app_assoc.
Qed.

End Editor.

(** ** Properties *)

(** C39: the decoder reads back every stream of data, negotiations,
    subnegotiations of any payload and other commands, encoded as RFC 854 and 855
    say, with [IAC] doubled in data and payloads: every negotiation is reported
    once, in order, and the visible bytes are the data, except that of a payload
    with the bytes [IAC SE] in it the rest behind the first such pair is shown.
    So exactly the data is shown when no payload has that pair. *)
Theorem telnet_strip_encode items :
  Forall (fun i => Wire.item_ok i = true) items ->
  strip_telnet_commands (concat (map Wire.encode items))
  = (concat (map Wire.shown items), concat (map Wire.negotiation_of items))
  /\ (Forall (fun i => match i with Wire.Subnegotiate p => ~ (exists a b, p = a ++ IAC :: SE :: b) | _ => True end) items ->
      concat (map Wire.shown items) = concat (map Wire.data_of items)).
Proof.
  intros Hi. pose proof (strip_items items [] Hi) as H. rewrite app_nil_r in H. rewrite H.
  cbn. rewrite !app_nil_r. split; [done |]. intros Hp. f_equal. clear Hi H.
  induction Hp as [| i items Hp _ IH]; [done |]. cbn [map]. f_equal; [| done].
  destruct i; try done. by apply behind_se_nil.
Qed.

Lemma telnet_strip_encode_witness :
  strip_telnet_commands [104; 255; 255; 255; 251; 1; 255; 250; 24; 1; 255; 240; 105; 255; 241]
  = ([104; 255; 105], [(251, 1)])
  /\ strip_telnet_commands [255; 250; 39; 255; 255; 240; 104; 105; 255; 240] = ([104; 105], []).
Proof.
  split.
  - exact (proj1 (telnet_strip_encode
      [Wire.Data [104; 255]; Wire.Negotiate 251 1; Wire.Subnegotiate [24; 1];
       Wire.Data [105]; Wire.Command 241] ltac:(repeat constructor))).
  - exact (proj1 (telnet_strip_encode [Wire.Subnegotiate [39; 255; 240; 104; 105]] ltac:(repeat constructor))).
Defined.

(** Whatever the user types, in any editor state, what a Telnet peer decodes
    from the bytes sent is exactly the editor's output: typed text never forms
    a Telnet command. *)
Theorem telnet_input_no_commands decode cells c st data :
  raw_tcp c = false ->
  strip_telnet_commands (prepare decode cells c st data).1.2
  = (send (process_all decode cells c (local_line_edit c) (local_echo c) st data).2, []).
Proof.
  intros Hraw. unfold prepare, process.
  unfold process_all. destruct (process_loop _ _ _ _ _ _ _ _) as [st' o]. cbn [fst snd].
  rewrite Hraw. unfold escape_telnet_application_data.
  pose proof (strip_escaped (send o) []) as H. rewrite app_nil_r in H. rewrite H. cbn.
  by rewrite app_nil_r.
Qed.

Lemma telnet_input_no_commands_witness :
  let c := mkConfig false Cr true false in
  strip_telnet_commands (prepare (fun l => Some l) (fun l => len l) c init [255; 251; 1; 13]).1.2
  = ([255; 251; 1; 13], []).
Proof.
  intros c. exact (telnet_input_no_commands _ _ c init [255; 251; 1; 13] eq_refl).
Defined.

(** With line editing, printable text is held back until Enter, which sends
    the pending line, the text and the configured line end as one unit. *)
Theorem telnet_line_edit_sends_line decode cells c l text :
  local_line_edit c = true -> Forall printable text ->
  prepare decode cells c (mkState l Ground) (text ++ [13])
  = (init,
     escape_telnet_application_data (l ++ text ++ enter_bytes (enter_mode c)) (raw_tcp c),
     if local_echo c then text ++ [13; 10] else []).
Proof.
  intros Hle Ht. unfold prepare, process. rewrite Hle.
  pose proof (process_line decode cells c (local_echo c) l text Ht) as H.
  unfold process_all in H. rewrite H. by destruct (local_echo c).
Qed.

Lemma telnet_line_edit_sends_line_witness :
  prepare (fun l => Some l) (fun l => len l) (mkConfig false Crlf true true)
    (mkState (bs "sho") Ground) (bs "w ver" ++ [13])
  = (init, bs "show ver" ++ [13; 10], bs "w ver" ++ [13; 10]).
Proof.
  exact (telnet_line_edit_sends_line (fun l => Some l) (fun l => len l)
    (mkConfig false Crlf true true) (bs "sho") (bs "w ver") eq_refl
    ltac:(repeat (constructor; [unfold printable; cbn; lia |]); constructor)).
Defined.

(** Without line editing, cutting the input into two writes anywhere but
    inside a CR LF pair changes neither the bytes sent nor the echo. *)
Theorem telnet_input_chunks decode cells c st a b :
  local_line_edit c = false -> ~ (last a = Some 13 /\ head b = Some 10) ->
  let '(st1, s1, e1) := prepare decode cells c st a in
  let '(st2, s2, e2) := prepare decode cells c st1 b in
  prepare decode cells c st (a ++ b) = (st2, s1 ++ s2, e1 ++ e2).
Proof.
  intros Hle Hcut. unfold prepare, process. rewrite Hle.
  pose proof (process_app decode cells c (local_echo c) st a b Hcut) as H.
  unfold process_all in H. rewrite H.
  destruct (process_loop _ _ (length a) _ _ _ _ _) as [st1 o1].
  destruct (process_loop _ _ (length b) _ _ _ _ _) as [st2 o2].
  cbn [out_app send echo]. f_equal. f_equal. unfold escape_telnet_application_data.
  destruct (raw_tcp c); [done |]. induction (send o1) as [| x l IH]; [done |].
  cbn [app escape_bytes]. rewrite IH. by destruct (x =? IAC).
Qed.

Lemma telnet_input_chunks_witness :
  let p := prepare (fun l => Some l) (fun l => len l) (mkConfig false Cr true false) in
  p init ([27] ++ [91; 65; 255]) = (init, [27; 91; 65; 255; 255], [255]).
Proof.
  pose proof (telnet_input_chunks (fun l => Some l) (fun l => len l)
    (mkConfig false Cr true false) init [27] [91; 65; 255] eq_refl) as H.
  cbn in H |- *. apply H. intros [[=] _].
Defined.

(** A negotiation cut by the read boundary after its [IAC] is shown as text
    and never answered, although the same bytes in one read are a negotiation:
    the reader keeps no decoder state between reads. *)
Theorem telnet_read_boundary_leaks items cmd o l :
  Forall (fun i => Wire.item_ok i = true) items -> is_negotiation cmd = true -> o <> IAC ->
  let a := concat (map Wire.encode items) ++ [IAC] in
  let b := cmd :: o :: l in
  (strip_telnet_commands a).1 ++ (strip_telnet_commands b).1
    = concat (map Wire.shown items) ++ IAC :: cmd :: o :: (strip_telnet_commands l).1
  /\ (strip_telnet_commands (a ++ b)).1
    = concat (map Wire.shown items) ++ (strip_telnet_commands l).1
  /\ (cmd, o) ∈ (strip_telnet_commands (a ++ b)).2.
Proof. apply strip_split_negotiation. Qed.

Lemma telnet_read_boundary_leaks_witness :
  (strip_telnet_commands [104; 255]).1 ++ (strip_telnet_commands [253; 31; 105]).1
  = [104; 255; 253; 31; 105].
Proof.
  destruct (telnet_read_boundary_leaks [Wire.Data [104]] 253 31 [105]) as [H _];
    [by repeat constructor | done | done | exact H].
Defined.

(** The window-size message is RFC 1073's exactly when no byte of the size
    is 255; a width or height such as 255 is sent unescaped. *)
Theorem telnet_naws_rfc1073 cols rows :
  0 <= cols < 2 ^ 16 -> 0 <= rows < 2 ^ 16 ->
  maybe_build_naws cols rows false true = Some (rfc_naws cols rows)
  <-> ~ In 255 (to_be_bytes 2 cols ++ to_be_bytes 2 rows).
Proof. apply naws_rfc_iff. Qed.

Lemma telnet_naws_rfc1073_witness :
  maybe_build_naws 80 24 false true = Some (rfc_naws 80 24)
  /\ maybe_build_naws 255 24 false true <> Some (rfc_naws 255 24).
Proof.
  split.
  - apply telnet_naws_rfc1073; [lia | lia |]. vm_compute. intuition congruence.
  - intros H. apply telnet_naws_rfc1073 in H; [| lia | lia]. apply H. vm_compute. tauto.
Defined.

(** Two endpoints of this implementation that start to negotiate an option
    answer each other for ever: no reply is ever suppressed, although RFC 854
    forbids acknowledging a request for the mode already in force. *)
Theorem telnet_negotiation_never_settles n a b cmd o :
  is_negotiation cmd = true -> converse n a b [IAC; cmd; o] <> [].
Proof. intros Hn. by destruct (converse_negotiation n a b cmd o Hn) as (? & _ & ->). Qed.

Lemma telnet_negotiation_never_settles_witness :
  converse 1000 (true, true) (true, true) [IAC; WILL; 5] <> [].
Proof. by apply telnet_negotiation_never_settles. Defined.
