(* ===== verification/TelnetLogin.v ===== *)
(** * Telnet automatic login: [telnet_prompts.rs] and [TelnetAutoLoginState]
    of [transport_io.rs] (zzclawterm-transport)

    Strings are their UTF-8 bytes.  A slice at an index that is not a character
    boundary panics, so the text functions that slice return an [option].
    Regular expressions belong to the [regex] crate: a compiled expression is a
    value of a type [R] with a matcher [is_match], the built-in expressions are
    fields of [Defaults].  [to_lowercase] stands for the Unicode case tables of
    [str::to_lowercase].  The clock is an argument of the operations. *)
From stdpp Require Import base list numbers strings.
From Stdlib Require Import ZArith Lia.
From S2P Require Import Prelude Text Telnet.

(** ** [telnet_prompts.rs] *)

Definition replace_cr (l : list Z) : list Z := map (fun b => if b =? 13 then 10 else b) l.

Definition last_chars (value : list Z) (max_chars : nat) : list Z :=
  let cs := chars value in
  if (length cs <=? max_chars)%nat then value else concat (drop (length cs - max_chars) cs).

Definition last_non_empty_line (value : list Z) : list Z :=
  trim (default [] (head (filter (fun line => trim line <> []) (rev (str_lines value))))).

Definition push_prompt_candidate (prompts : list (list Z)) (prompt : list Z) : list (list Z) :=
  if beq prompt [] || bool_decide (prompt ∈ prompts) then prompts else prompts ++ [prompt].

Definition KEYWORDS : list (list Z) :=
  [bs "user name";
   bs "username";
   bs "login";
   bs "logon";
   bs "account";
   bs "userid";
   bs "user id";
   bs "user";
   bs "password";
   bs "passwd";
   bs "passcode";
   bs "passphrase";
   bs "pin";
   [231; 148; 168; 230; 136; 183; 229; 144; 141];
   [229; 184; 144; 229; 143; 183];
   [232; 180; 166; 229; 143; 183];
   [231; 153; 187; 229; 189; 149];
   [231; 153; 187; 229; 133; 165];
   [229; 175; 134; 231; 160; 129];
   [229; 143; 163; 228; 187; 164]].

(** The CSI case of [strip_telnet_auto_login_control_sequences]: what follows
    the final byte. *)
Fixpoint skip_csi (l : list Z) : list Z :=
  match l with
  | b :: l' => if (0x40 <=? b) && (b <=? 0x7e) then l' else skip_csi l'
  | [] => []
  end.

Definition keep_char (ch : list Z) : bool :=
  negb (beq ch [0x7f]) && (negb (is_control ch) || beq ch [13] || beq ch [10] || beq ch [9]).

(** [text[index..]] panics when [index] is inside a character, that is when the
    byte there continues one. *)
Fixpoint strip_controls_fuel (fuel : nat) (l : list Z) : option (list Z) :=
  match fuel, l with
  | S fuel', b :: l' =>
      if b =? 0x1b then
        match l' with
        | b1 :: l'' => strip_controls_fuel fuel' (if b1 =? 91 then skip_csi l'' else l'')
        | [] => Some []
        end
      else if cont b then None
      else
        let n := match utf8_char_len l with Some n => n | None => 1%nat end in
        let ch := take n l in
        let* rest := strip_controls_fuel fuel' (drop n l) in
        Some (if keep_char ch then ch ++ rest else rest)
  | _, _ => Some []
  end.
Definition strip_telnet_auto_login_control_sequences (text : list Z) : option (list Z) :=
  strip_controls_fuel (length text) text.

Section Prompts.
Context (to_lowercase : list Z -> list Z).

(** The [while let] loop for one keyword. *)
Fixpoint suffix_loop (fuel : nat) (keyword prompt lower : list Z) (search_start : nat)
  (prompts : list (list Z)) : option (list (list Z)) :=
  match fuel with
  | O => Some prompts
  | S fuel' =>
      match find_sub keyword (drop search_start lower) with
      | None => Some prompts
      | Some offset =>
          let start := (search_start + offset)%nat in
          if is_char_boundary prompt start then
            let prompts := push_prompt_candidate prompts (trim (drop start prompt)) in
            let search_start := (start + length keyword)%nat in
            if (length lower <=? search_start)%nat then Some prompts
            else suffix_loop fuel' keyword prompt lower search_start prompts
          else None
      end
  end.

Fixpoint suffix_keywords (keywords : list (list Z)) (prompt lower : list Z)
  (prompts : list (list Z)) : option (list (list Z)) :=
  match keywords with
  | [] => Some prompts
  | k :: ks =>
      let* prompts := suffix_loop (S (length lower)) k prompt lower 0 prompts in
      suffix_keywords ks prompt lower prompts
  end.

Definition push_prompt_suffix_candidates (prompts : list (list Z)) (prompt : list Z)
  : option (list (list Z)) :=
  suffix_keywords KEYWORDS prompt (to_lowercase prompt) prompts.

Fixpoint candidate_lines (lines : list (list Z)) (prompts : list (list Z))
  : option (list (list Z)) :=
  match lines with
  | [] => Some prompts
  | line :: lines' =>
      let prompt := trim line in
      let* prompts := push_prompt_suffix_candidates (push_prompt_candidate prompts prompt) prompt in
      candidate_lines lines' prompts
  end.

Definition prompt_candidates (window current_input : list Z) : option (list (list Z)) :=
  candidate_lines (str_lines window ++ str_lines current_input) [].

(** ** [TelnetAutoLoginState] *)

Context {R : Type} (is_match : R -> list Z -> bool) (regex_new : list Z -> option R).

Record Defaults := mkDefaults {
  default_username_regex : R;
  default_password_regex : R;
  default_wake_regex : R;
  default_success_regex : R;
  default_failure_regex : R;
  last_login_regex : R
}.
Context (dflt : Defaults).

Record LoginConfig := mkLoginConfig {
  enabled : bool;
  send_wake_enter : bool;
  timeout_ms : Z;
  username_prompt_regex : option (list Z);
  password_prompt_regex : option (list Z);
  success_prompt_regex : option (list Z);
  failure_prompt_regex : option (list Z);
  max_retries : Z;
  cfg_username : list Z;
  cfg_password : option (list Z);
  cfg_input : Input.Config
}.

Record Login := mkLogin {
  username : list Z;
  password : option (list Z);
  started_at : Z;
  tail : list Z;
  sent_wake : bool;
  sent_username : bool;
  sent_password : bool;
  disabled : bool;
  completed : bool;
  retries : Z;
  username_regex : option R;
  password_regex : option R;
  success_regex : option R;
  failure_regex : option R
}.

Inductive Action := Send (payload : list Z) | Complete | Disable.

Definition compile_optional_regex (pattern : option (list Z)) : option R :=
  let* p := pattern in
  let trimmed := trim p in
  if beq trimmed [] then None else regex_new trimmed.

Definition login_new (c : LoginConfig) (now : Z) : option Login :=
  if negb (enabled c) then None
  else
    let user := trim (cfg_username c) in
    let pass := match cfg_password c with Some p => if beq p [] then None else Some p | None => None end in
    if beq user [] && bool_decide (pass = None) then None
    else Some (mkLogin user pass now [] false false false false false 0
                 (compile_optional_regex (username_prompt_regex c))
                 (compile_optional_regex (password_prompt_regex c))
                 (compile_optional_regex (success_prompt_regex c))
                 (compile_optional_regex (failure_prompt_regex c))).

(** [self.x_regex.as_ref().map_or_else(|| default.is_match(..), |r| r.is_match(..))]. *)
Definition match_or (r : option R) (d : R) (text : list Z) : bool :=
  is_match (match r with Some r => r | None => d end) text.

Definition matches_username_prompt (s : Login) (prompts : list (list Z)) (last_line : list Z) : bool :=
  if is_match (last_login_regex dflt) last_line then false
  else existsb (match_or (username_regex s) (default_username_regex dflt)) prompts.

Definition matches_password_prompt (s : Login) (prompts : list (list Z)) : bool :=
  existsb (match_or (password_regex s) (default_password_regex dflt)) prompts.

Definition matches_success (s : Login) (last_line : list Z) : bool :=
  match_or (success_regex s) (default_success_regex dflt) last_line.

Definition matches_failure (s : Login) (text last_line : list Z) : bool :=
  match_or (failure_regex s) (default_failure_regex dflt) text
  || match_or (failure_regex s) (default_failure_regex dflt) last_line.

Context (decode : list Z -> option (list Z)) (cells : list Z -> Z).

Definition TELNET_AUTO_LOGIN_TAIL_CHARS : nat := 2048.
Definition TELNET_AUTO_LOGIN_PROMPT_WINDOW_CHARS : nat := 320.

Definition push_tail (s : Login) (text : list Z) : Login :=
  mkLogin (username s) (password s) (started_at s)
    (last_chars (tail s ++ text) TELNET_AUTO_LOGIN_TAIL_CHARS)
    (sent_wake s) (sent_username s) (sent_password s) (disabled s) (completed s) (retries s)
    (username_regex s) (password_regex s) (success_regex s) (failure_regex s).

(** The flags that the handlers set. *)
Definition with_flags (s : Login) (tl : list Z) (wake user pass dis comp : bool) (r : Z) : Login :=
  mkLogin (username s) (password s) (started_at s) tl wake user pass dis comp r
    (username_regex s) (password_regex s) (success_regex s) (failure_regex s).

Definition disable (s : Login) : Login :=
  with_flags s (tail s) (sent_wake s) (sent_username s) (sent_password s) true (completed s) (retries s).

Definition line_bytes (c : LoginConfig) (value : list Z) : list Z :=
  Input.telnet_auto_login_line_bytes decode cells (cfg_input c) value.

(** The four conditional sends at the end of [handle_visible_output]. *)
Definition respond (c : LoginConfig) (s : Login) (window last_line : list Z)
  (prompts : list (list Z)) : Login * list Action :=
  let wake := send_wake_enter c && negb (sent_wake s) && is_match (default_wake_regex dflt) window in
  let user := negb (sent_username s) && negb (beq (username s) [])
              && matches_username_prompt s prompts last_line in
  let pass := negb (sent_password s) && bool_decide (is_Some (password s))
              && matches_password_prompt s prompts in
  let sent_username' := sent_username s || user in
  let sent_password' := sent_password s || pass in
  let comp := (sent_username' || sent_password') && matches_success s last_line in
  (with_flags s (tail s) (sent_wake s || wake) sent_username' sent_password'
     (disabled s) (completed s || comp) (retries s),
   (if wake then [Send (line_bytes c [])] else [])
   ++ (if user then [Send (line_bytes c (username s))] else [])
   ++ (if pass then [Send (line_bytes c (default [] (password s)))] else [])
   ++ (if comp then [Complete] else [])).

(** [handle_visible_output] at time [now]; [None] is a panic. *)
Definition handle_visible_output (c : LoginConfig) (s : Login) (now : Z) (visible : list Z)
  : option (Login * list Action) :=
  if disabled s || completed s then Some (s, [])
  else if timeout_ms c <? now - started_at s then Some (disable s, [Disable])
  else
    let text := from_utf8_lossy visible in
    let s := push_tail s text in
    let* clean := strip_telnet_auto_login_control_sequences (tail s) in
    let* clean_text := strip_telnet_auto_login_control_sequences text in
    let clean_input := replace_cr clean_text in
    let normalized := replace_cr clean in
    let window := last_chars normalized TELNET_AUTO_LOGIN_PROMPT_WINDOW_CHARS in
    let last_line := last_non_empty_line normalized in
    let* prompts := prompt_candidates window clean_input in
    if matches_failure s window last_line then
      if retries s <? max_retries c then
        Some (with_flags s [] (sent_wake s) false false (disabled s) (completed s) (retries s + 1), [])
      else Some (disable s, [Disable])
    else Some (respond c s window last_line prompts).

Definition handle_user_input (s : Login) (automated : bool) : Login * list Action :=
  if automated || disabled s || completed s then (s, []) else (disable s, [Disable]).

(** The reader and the writer calling the shared state, in the order in which
    they take its lock; a panic poisons the lock and ends the run. *)
Inductive Event := Visible (now : Z) (data : list Z) | UserInput (automated : bool).

Definition handle (c : LoginConfig) (s : Login) (e : Event) : option (Login * list Action) :=
  match e with
  | Visible now data => handle_visible_output c s now data
  | UserInput automated => Some (handle_user_input s automated)
  end.

Fixpoint run (c : LoginConfig) (s : Login) (events : list Event) : list Action :=
  match events with
  | [] => []
  | e :: events' =>
      match handle c s e with
      | Some (s', acts) => acts ++ run c s' events'
      | None => []
      end
  end.

(** ** At most two payloads per attempt *)

Definition is_send (a : Action) : bool := match a with Send _ => true | _ => false end.
Definition sends (acts : list Action) : Z := len (List.filter is_send acts).

Lemma sends_app a b : sends (a ++ b) = sends a + sends b.
Proof. unfold sends. rewrite List.filter_app, length_app. lia. Qed.

Definition bit (b : bool) : Z := if b then 1 else 0.

(** What the state can still send. *)
Definition budget (c : LoginConfig) (s : Login) : Z :=
  if disabled s || completed s then 0
  else 2 * (max_retries c - retries s)
       + bit (negb (sent_wake s)) + bit (negb (sent_username s)) + bit (negb (sent_password s)).

Lemma respond_budget c s window last_line prompts :
  disabled s = false -> completed s = false -> 0 <= retries s <= max_retries c ->
  let (s', acts) := respond c s window last_line prompts in
  sends acts + budget c s' <= budget c s /\ 0 <= retries s' <= max_retries c.
Proof.
  intros Hd Hc Hr. unfold respond.
  set (wake := send_wake_enter c && _ && _). set (user := negb (sent_username s) && _ && _).
  set (pass := negb (sent_password s) && _ && _).
  assert (Hw : wake = true -> sent_wake s = false)
    by (unfold wake; destruct (sent_wake s); [by rewrite andb_false_r | done]).
  assert (Hu : user = true -> sent_username s = false) by (unfold user; by destruct (sent_username s)).
  assert (Hp : pass = true -> sent_password s = false) by (unfold pass; by destruct (sent_password s)).
  clearbody wake user pass. set (comp := _ && matches_success _ _). clearbody comp.
  split; [| done]. rewrite !sends_app. unfold budget, with_flags.
  cbn [disabled completed retries sent_wake sent_username sent_password]. rewrite Hd, Hc. cbn [orb].
  destruct (sent_wake s), (sent_username s), (sent_password s), wake, user, pass, comp;
    try discriminate (Hw eq_refl); try discriminate (Hu eq_refl); try discriminate (Hp eq_refl);
    unfold sends; cbn -[Z.mul Z.sub Z.add]; lia.
Qed.

Lemma budget_nonneg c s : 0 <= retries s <= max_retries c -> 0 <= budget c s.
Proof.
  intros Hr. unfold budget. destruct (_ || _); [done |].
  unfold bit. destruct (negb _), (negb _), (negb _); lia.
Qed.

Lemma handle_budget c s e s' acts :
  handle c s e = Some (s', acts) -> 0 <= retries s <= max_retries c ->
  sends acts + budget c s' <= budget c s /\ 0 <= retries s' <= max_retries c.
Proof.
  intros He Hr. pose proof (budget_nonneg c s Hr) as Hpos.
  assert (Hquiet : forall s' acts, sends acts = 0 -> budget c s' <= budget c s ->
    0 <= retries s' <= max_retries c ->
    sends acts + budget c s' <= budget c s /\ 0 <= retries s' <= max_retries c) by lia.
  destruct e as [now data | automated]; cbn [handle] in He.
  - unfold handle_visible_output in He.
    destruct (disabled s || completed s) eqn:Hdc; [simplify_eq/=; by apply Hquiet |].
    destruct (_ <? _); [simplify_eq; by apply (Hquiet (disable s)) |].
    destruct (strip_telnet_auto_login_control_sequences _) as [clean |]; [| done].
    destruct (strip_telnet_auto_login_control_sequences _) as [ct |]; [| done].
    destruct (prompt_candidates _ _) as [prompts |]; [| done].
    apply orb_false_iff in Hdc as [Hd Hc].
    destruct (matches_failure _ _ _).
    + destruct (Z.ltb_spec (retries (push_tail s (from_utf8_lossy data))) (max_retries c)) as [Hlt |];
        simplify_eq; [| by apply (Hquiet (disable (push_tail s _)))].
      apply Hquiet; [done | | cbn in *; lia].
      unfold budget, with_flags. cbn -[Z.mul Z.sub Z.add]. rewrite Hd, Hc. cbn [orb].
      destruct (sent_wake s), (sent_username s), (sent_password s); cbn -[Z.mul Z.sub Z.add]; lia.
    + pose proof (respond_budget c (push_tail s (from_utf8_lossy data))
        (last_chars (replace_cr clean) TELNET_AUTO_LOGIN_PROMPT_WINDOW_CHARS)
        (last_non_empty_line (replace_cr clean)) prompts Hd Hc Hr) as H.
      apply (inj Some) in He. rewrite He in H. exact H.
  - unfold handle_user_input in He.
    destruct (_ || _); simplify_eq; [by apply Hquiet | by apply (Hquiet (disable s))].
Qed.

Lemma run_budget c s events :
  0 <= retries s <= max_retries c -> sends (run c s events) <= budget c s.
Proof.
  revert s. induction events as [| e events IH]; intros s Hr; cbn [run]; [by apply budget_nonneg |].
  destruct (handle c s e) as [[s' acts] |] eqn:He; [| by apply budget_nonneg].
  destruct (handle_budget c s e s' acts He Hr) as [Hb Hr']. specialize (IH s' Hr').
  rewrite sends_app. lia.
Qed.

End Prompts.

(** ** Slicing inside a character *)

Lemma strip_controls_enough f1 f2 l :
  (length l <= f1)%nat -> (length l <= f2)%nat ->
  strip_controls_fuel f1 l = strip_controls_fuel f2 l.
Proof.
  assert (Hskip : forall s, (length (skip_csi s) <= length s)%nat).
  { induction s as [| b s IH]; cbn [skip_csi length]; [lia |]. destruct (_ && _); lia. }
  revert f2 l. induction f1 as [| f1 IH]; intros [| f2] [| b l] H1 H2; cbn [length] in *; try done; try lia.
  cbn [strip_controls_fuel]. destruct (b =? 27).
  - destruct l as [| b1 l]; [done |]. cbn [length] in *. specialize (Hskip l).
    apply IH; destruct (b1 =? 91); lia.
  - destruct (cont b); [done |]. set (n := match _ with Some n => n | None => _ end).
    assert (0 < n)%nat.
    { unfold n. destruct (utf8_char_len (b :: l)) as [k |] eqn:E; [| lia].
      apply utf8_char_len_bound in E. lia. }
    rewrite (IH f2); [done | |]; rewrite length_drop; cbn [length]; lia.
Qed.

Lemma strip_controls_ascii b l :
  0 <= b <= 127 -> b <> 27 ->
  strip_telnet_auto_login_control_sequences (b :: l)
  = let* rest := strip_telnet_auto_login_control_sequences l in
    Some (if keep_char [b] then b :: rest else rest).
Proof.
  intros Hb Hn. unfold strip_telnet_auto_login_control_sequences. cbn [length strip_controls_fuel].
  destruct (Z.eqb_spec b 27); [done |]. unfold cont. destruct (Z.leb_spec 128 b); [lia |].
  cbn [andb utf8_char_len]. destruct (Z.leb_spec b 127); [| lia]. cbn [take drop].
  by destruct (strip_controls_fuel _ _).
Qed.

Lemma strip_controls_escape_panic b0 b1 rest :
  b0 <> 91 -> cont b1 = true ->
  strip_telnet_auto_login_control_sequences (27 :: b0 :: b1 :: rest) = None.
Proof.
  intros H0 H1. unfold strip_telnet_auto_login_control_sequences.
  cbn [length strip_controls_fuel Z.eqb Pos.eqb]. destruct (Z.eqb_spec b0 91); [done |].
  destruct (Z.eqb_spec b1 27) as [-> | _]; [done |]. by rewrite H1.
Qed.

(** The suffixes that [skip_csi] leaves start at a character. *)
Lemma skip_csi_valid l : utf8_valid l = true -> utf8_valid (skip_csi l) = true.
Proof.
  remember (length l) as m eqn:Hm. revert l Hm.
  induction m as [m IH] using lt_wf_ind. intros [| b l] Hm Hv; [done |].
  destruct (utf8_char_len (b :: l)) as [n |] eqn:E.
  2: { unfold utf8_valid in Hv. cbn [length utf8_valid_fuel] in Hv. by rewrite E in Hv. }
  pose proof (utf8_char_len_bound _ _ E) as Hb. rewrite (utf8_valid_step _ _ E) in Hv.
  assert (Hskip : skip_csi (b :: l) = l /\ n = 1%nat \/ skip_csi (b :: l) = skip_csi (drop n (b :: l))).
  { unfold utf8_char_len in E. destruct (Z.leb_spec b 127).
    - simplify_eq. cbn [skip_csi drop]. destruct (_ && _); tauto.
    - right. destruct l as [| b1 l]; [done |].
      assert (Hhi : forall x r, 127 < x -> skip_csi (x :: r) = skip_csi r).
      { intros x r Hx. cbn [skip_csi]. destruct (Z.leb_spec x 126); [lia |]. by rewrite andb_false_r. }
      unfold cont in E.
      repeat (case_match; simplify_eq); rewrite ?orb_true_iff, ?andb_true_iff in *; bool_to_prop;
        cbn [drop]; rewrite !Hhi; done || lia. }
  destruct Hskip as [[-> ->] | ->]; [done |].
  eapply IH; [| done | done]. rewrite length_drop. lia.
Qed.

(** Every escape character is followed by an ASCII byte, if by any. *)
Fixpoint escapes_ascii (l : list Z) : bool :=
  match l with
  | b :: tl =>
      match tl with
      | b1 :: _ => (negb (b =? 27) || (b1 <=? 127)) && escapes_ascii tl
      | [] => true
      end
  | [] => true
  end.

Lemma escapes_ascii_drop n l : escapes_ascii l = true -> escapes_ascii (drop n l) = true.
Proof.
  revert l. induction n as [| n IH]; intros [| b [| b1 l]] H; cbn [drop]; try done.
  - by destruct n.
  - apply IH. cbn in H. by apply andb_true_iff in H as [_ H].
Qed.

Lemma skip_csi_suffix l : exists n, skip_csi l = drop n l.
Proof.
  induction l as [| b l [n IH]]; [by exists 0%nat |]. cbn [skip_csi].
  destruct (_ && _); [by exists 1%nat | by exists (S n)].
Qed.

Lemma strip_controls_total f l :
  (length l <= f)%nat -> utf8_valid l = true -> escapes_ascii l = true ->
  is_Some (strip_controls_fuel f l).
Proof.
  revert l. induction f as [| f IH]; intros [| b l] Hl Hv He; try by eexists.
  cbn [strip_controls_fuel length] in *.
  destruct (utf8_char_len (b :: l)) as [n |] eqn:E.
  2: { unfold utf8_valid in Hv. cbn [length utf8_valid_fuel] in Hv. by rewrite E in Hv. }
  pose proof (utf8_char_len_bound _ _ E) as Hn.
  destruct (Z.eqb_spec b 27) as [-> |].
  - rewrite utf8_valid_cons_ascii in Hv by lia.
    destruct l as [| b1 l]; [by eexists |]. cbn [length] in *.
    pose proof (escapes_ascii_drop 2 _ He) as He2. cbn [drop] in He2.
    cbn [escapes_ascii] in He. apply andb_true_iff in He as [Hb1 _]. cbn in Hb1. assert (Hv1 : utf8_valid l = true).
    { rewrite <- Hv, (utf8_valid_step (b1 :: l) 1); [done |]. cbn [utf8_char_len]. by rewrite Hb1. }
    destruct (b1 =? 91); [| apply IH; done || lia].
    destruct (skip_csi_suffix l) as [k Hk]. pose proof (skip_csi_valid l Hv1) as Hvk.
    rewrite Hk in *. apply IH; [rewrite length_drop; lia | done | by apply escapes_ascii_drop].
  - assert (Hc : cont b = false).
    { unfold utf8_char_len in E. unfold cont.
      destruct (Z.leb_spec 128 b), (Z.leb_spec b 191); try done.
      repeat (case_match; simplify_eq); rewrite ?orb_true_iff, ?andb_true_iff in *; bool_to_prop; lia. }
    rewrite Hc.
    rewrite (utf8_valid_step _ _ E) in Hv. apply (escapes_ascii_drop n) in He.
    destruct (IH (drop n (b :: l))) as [rest ->]; [rewrite length_drop; cbn [length]; lia | done | done |].
    by eexists.
Qed.

(** ** Properties *)

(** Over any interleaving of output and user input, one automatic login
    sends at most one wake-up line and two payloads (user name, password) per
    attempt, and there are at most [max_retries + 1] attempts. *)
Theorem auto_login_sends_bounded {R} to_lowercase (is_match : R -> list Z -> bool) regex_new dflt
    decode cells c now s events :
  login_new regex_new c now = Some s -> 0 <= max_retries c ->
  sends (run to_lowercase is_match dflt decode cells c s events) <= 2 * max_retries c + 3.
Proof.
  intros Hnew Hr. unfold login_new in Hnew.
  destruct (negb (enabled c)); [done |]. destruct (_ && _); [done |]. simplify_eq.
  etransitivity; [apply run_budget; cbn; lia |]. unfold budget. cbn -[Z.mul Z.add Z.sub]. lia.
Qed.

Lemma auto_login_sends_bounded_witness :
  let prompt := mkDefaults (R := list Z) (bs "login:") (bs "Password:") (bs "press") (bs "$")
                  (bs "incorrect") (bs "Last login") in
  let c := mkLoginConfig true true 60000 None None None None 1 (bs "root") (Some (bs "pw"))
             (Input.mkConfig false Input.Cr false false) in
  exists s, login_new (fun r => Some r) c 0 = Some s
  /\ run (fun l => l) (fun r l => bool_decide (is_Some (find_sub r l))) prompt
       (fun l => Some l) (fun l => len l) c s
       [Visible 1 (bs "login:"); Visible 2 (bs "Password:"); Visible 3 (bs "login incorrect");
        Visible 4 (bs "login:")]
     = [Send (bs "root" ++ [13]); Send (bs "pw" ++ [13]); Send (bs "root" ++ [13])]
  /\ sends (run (fun l => l) (fun r l => bool_decide (is_Some (find_sub r l))) prompt
       (fun l => Some l) (fun l => len l) c s
       [Visible 1 (bs "login:"); Visible 2 (bs "Password:"); Visible 3 (bs "login incorrect");
        Visible 4 (bs "login:")]) <= 5.
Proof.
  intros prompt c. eexists. split; [vm_compute; reflexivity |]. split; [vm_compute; reflexivity |].
  apply (auto_login_sends_bounded (fun l => l) (fun r l => bool_decide (is_Some (find_sub r l)))
           (fun r => Some r) prompt (fun l => Some l) (fun l => len l) c 0);
    [vm_compute; reflexivity | cbn; lia].
Defined.

(** The control-sequence filter of the automatic login returns on every
    UTF-8 text in which an escape character is followed only by ASCII. *)
Theorem auto_login_strip_total text :
  utf8_valid text = true -> escapes_ascii text = true ->
  is_Some (strip_telnet_auto_login_control_sequences text).
Proof. intros. by apply strip_controls_total. Qed.

Lemma auto_login_strip_total_witness :
  is_Some (strip_telnet_auto_login_control_sequences ([27; 91; 51; 49; 109] ++ [195; 169])).
Proof. by apply auto_login_strip_total. Defined.

(** An escape character followed by a non-ASCII character makes the filter
    slice inside that character and panic, which ends the reader thread. *)
Theorem auto_login_strip_panics pre b0 b1 rest :
  Forall (fun b => 0 <= b <= 127 /\ b <> 27) pre -> b0 <> 91 -> cont b1 = true ->
  strip_telnet_auto_login_control_sequences (pre ++ 27 :: b0 :: b1 :: rest) = None.
Proof.
  intros Hpre H0 H1. induction Hpre as [| b pre [Hb Hn] Hpre IH]; cbn [app].
  - by apply strip_controls_escape_panic.
  - by rewrite strip_controls_ascii, IH by done.
Qed.

Lemma auto_login_strip_panics_witness :
  utf8_valid (bs "ok" ++ [27; 195; 169]) = true
  /\ strip_telnet_auto_login_control_sequences (bs "ok" ++ [27; 195; 169]) = None.
Proof.
  split; [reflexivity |]. apply auto_login_strip_panics; [| done | done].
  change (bs "ok") with [111; 107]. repeat (apply Forall_cons; split; [lia |]). by apply Forall_nil.
Defined.
