(* ===== verification/Xymodem.v ===== *)
(** * X/YMODEM upload: [xymodem/mod.rs] (zzclawterm-transport)

    [Sender] is the state of [XymodemSender].  [Duration]s are nanoseconds in
    [Z], and adding two of them panics beyond [DURATION_MAX].  A file's reader is the list of bytes it still yields; [read_exact]
    fails when too few are left, which also stands for any I/O error.  A panic
    (an index or slice out of range, an arithmetic overflow) is [None]. *)
From stdpp Require Import base list numbers strings.
From Stdlib Require Import ZArith Lia.
From S2P Require Import Prelude.

Abbreviation SOH := 0x01.
Abbreviation STX := 0x02.
Abbreviation EOT := 0x04.
Abbreviation ACK := 0x06.
Abbreviation NAK := 0x15.
Abbreviation CAN := 0x18.
Abbreviation CRC_REQUEST := 67.

(** [Duration::MAX] and [Duration + Duration], which panics on overflow. *)
Definition DURATION_MAX : Z := U64_MAX * 10 ^ 9 + 999999999.
Definition add_duration (a b : Z) : option Z := if DURATION_MAX <? a + b then None else Some (a + b).

Inductive XymodemProtocol := Xmodem | Ymodem.

#[global] Instance xymodem_protocol_eq_dec : EqDecision XymodemProtocol.
Proof. solve_decision. Defined.

Definition label (p : XymodemProtocol) : list Z :=
  match p with Xmodem => bs "XMODEM" | Ymodem => bs "YMODEM" end.

Record XymodemOptions := mkOptions {
  response_timeout : Z;
  handshake_timeout : Z;
  max_retries : Z
}.

Definition default_options : XymodemOptions := mkOptions (10 * 10 ^ 9) (10 * 10 ^ 9) 10.

Inductive XymodemError :=
| InvalidOptions | SingleFileRequired | NoFiles | InvalidFilename | OpenFailed | ReadFailed
| WriteFailed | SizeOverflow | TimedOut | RetryLimit | Cancelled | RemoteCancelled
| StreamingUnsupported.

Record XymodemFile := mkFile { name : list Z; size : Z; reader : list Z }.

Record XymodemProgress := mkProgress {
  file_name : list Z;
  bytes_transferred : Z;
  p_total_bytes : Z;
  files_completed : nat;
  files_total : nat
}.

Inductive XymodemAction :=
| Send (packet : list Z)
| Progress (p : XymodemProgress)
| Finished (r : result unit XymodemError).

Inductive Stage := Start | HeaderAck | DataStart | DataAck | EotAck | BatchAck | Done.

#[global] Instance stage_eq_dec : EqDecision Stage.
Proof. solve_decision. Defined.

Record Sender := mkSender {
  protocol : XymodemProtocol;
  options : XymodemOptions;
  files : list XymodemFile;
  file_index : nat;
  offset : Z;
  total_bytes : Z;
  accepted_bytes : Z;
  sequence : Z;
  pending_bytes : Z;
  stage : Stage;
  crc : bool;
  last_packet : list Z;
  retries : Z;
  deadline : Z;
  last_can : bool;
  initial_progress_emitted : bool
}.

(** ** Packets *)

Fixpoint crc_shift (n : nat) (crc : Z) : Z :=
  match n with
  | O => crc
  | S n' =>
      crc_shift n'
        (if negb (Z.land crc 0x8000 =? 0)
         then Z.lxor (wrap 16 (Z.shiftl crc 1)) 0x1021
         else wrap 16 (Z.shiftl crc 1))
  end.

Definition crc_byte (crc byte : Z) : Z := crc_shift 8 (Z.lxor crc (wrap 16 (Z.shiftl byte 8))).

Definition crc16 (bytes : list Z) : Z := fold_left crc_byte bytes 0.

Definition checksum (data : list Z) : Z := fold_left (wrapping_add 8) data 0.

Definition packet (seq : Z) (data : list Z) (use_crc : bool) : list Z :=
  [if (length data =? 1024)%nat then STX else SOH; seq; bitnot 8 seq] ++ data
  ++ (if use_crc then to_be_bytes 2 (crc16 data) else [checksum data]).

(** ** The sender *)

Section New.
Context (to_lowercase : list Z -> list Z).

(** The loop over the files in [new]; [names] is the hash set. *)
Fixpoint check_files (p : XymodemProtocol) (fs : list XymodemFile) (names : list (list Z))
  (total : Z) : result Z XymodemError :=
  match fs with
  | [] => Ok total
  | f :: fs' =>
      let lower := to_lowercase (name f) in
      if bool_decide (p = Ymodem)
         && (beq (name f) [] || existsb (fun b => (b =? 0) || (b =? 47) || (b =? 92)) (name f)
             || (128 <? len (name f) + len (show_u64 (size f)) + 2)
             || bool_decide (lower ∈ names))
      then Err InvalidFilename
      else if U64_MAX <? total + size f then Err SizeOverflow
      else check_files p fs' (lower :: names) (total + size f)
  end.

Definition new (p : XymodemProtocol) (fs : list XymodemFile) (o : XymodemOptions)
  : result Sender XymodemError :=
  if bool_decide (fs = []) then Err NoFiles
  else if bool_decide (p = Xmodem) && negb (length fs =? 1)%nat then Err SingleFileRequired
  else if (response_timeout o =? 0) || (handshake_timeout o =? 0) || (max_retries o =? 0)
  then Err InvalidOptions
  else
    let? total := check_files p fs [] 0 in
    Ok (mkSender p o fs 0 0 total 0 1 0 Start false [] 0 (handshake_timeout o) false false).
End New.

Definition is_done (s : Sender) : bool := bool_decide (stage s = Done).

(** Field updates, in the groups in which the code makes them. *)
Definition set_stage (s : Sender) (st : Stage) : Sender :=
  mkSender (protocol s) (options s) (files s) (file_index s) (offset s) (total_bytes s)
    (accepted_bytes s) (sequence s) (pending_bytes s) st (crc s) (last_packet s) (retries s)
    (deadline s) (last_can s) (initial_progress_emitted s).
Definition set_packet (s : Sender) (p : list Z) (d : Z) : Sender :=
  mkSender (protocol s) (options s) (files s) (file_index s) (offset s) (total_bytes s)
    (accepted_bytes s) (sequence s) (pending_bytes s) (stage s) (crc s) p (retries s)
    d (last_can s) (initial_progress_emitted s).
Definition set_retries (s : Sender) (r : Z) (d : Z) : Sender :=
  mkSender (protocol s) (options s) (files s) (file_index s) (offset s) (total_bytes s)
    (accepted_bytes s) (sequence s) (pending_bytes s) (stage s) (crc s) (last_packet s) r
    d (last_can s) (initial_progress_emitted s).
Definition set_crc (s : Sender) (b : bool) : Sender :=
  mkSender (protocol s) (options s) (files s) (file_index s) (offset s) (total_bytes s)
    (accepted_bytes s) (sequence s) (pending_bytes s) (stage s) b (last_packet s) (retries s)
    (deadline s) (last_can s) (initial_progress_emitted s).
Definition set_last_can (s : Sender) (b : bool) : Sender :=
  mkSender (protocol s) (options s) (files s) (file_index s) (offset s) (total_bytes s)
    (accepted_bytes s) (sequence s) (pending_bytes s) (stage s) (crc s) (last_packet s) (retries s)
    (deadline s) b (initial_progress_emitted s).
Definition set_emitted (s : Sender) : Sender :=
  mkSender (protocol s) (options s) (files s) (file_index s) (offset s) (total_bytes s)
    (accepted_bytes s) (sequence s) (pending_bytes s) (stage s) (crc s) (last_packet s) (retries s)
    (deadline s) (last_can s) true.
(** A block was acknowledged. *)
Definition accept_block (s : Sender) : Sender :=
  mkSender (protocol s) (options s) (files s) (file_index s) (offset s + pending_bytes s)
    (total_bytes s) (accepted_bytes s + pending_bytes s) (wrapping_add 8 (sequence s) 1)
    (pending_bytes s) (stage s) (crc s) (last_packet s) 0
    (deadline s) (last_can s) (initial_progress_emitted s).
(** The end of a file was acknowledged. *)
Definition next_file (s : Sender) : Sender :=
  mkSender (protocol s) (options s) (files s) (file_index s + 1) 0
    (total_bytes s) (accepted_bytes s) 1
    (pending_bytes s) (stage s) (crc s) [] 0
    (deadline s) (last_can s) (initial_progress_emitted s).
(** A block was read from the current file. *)
Definition read_block (s : Sender) (fs : list XymodemFile) (n : Z) : Sender :=
  mkSender (protocol s) (options s) fs (file_index s) (offset s) (total_bytes s)
    (accepted_bytes s) (sequence s) n DataAck (crc s) (last_packet s) (retries s)
    (deadline s) (last_can s) (initial_progress_emitted s).

Definition progress (s : Sender) : XymodemProgress :=
  mkProgress
    (match files s !! file_index s with
     | Some f => name f
     | None => match last (files s) with Some f => name f | None => [] end
     end)
    (accepted_bytes s) (total_bytes s) (file_index s) (length (files s)).

Definition initial_progress (s : Sender) : Sender * list XymodemAction :=
  if initial_progress_emitted s then (s, [])
  else (set_emitted s, [Progress (progress (set_emitted s))]).

Definition fail (s : Sender) (e : XymodemError) : Sender * list XymodemAction :=
  if is_done s then (s, [])
  else (set_packet (set_stage s Done) [] (deadline s),
        [Send (replicate 8 CAN); Finished (Err e)]).

Definition cancel (s : Sender) : Sender * list XymodemAction := fail s Cancelled.

(** [send]: the packet becomes [last_packet] and the deadline is renewed. *)
Definition send (s : Sender) (p : list Z) (now : Z) : option (Sender * list XymodemAction) :=
  let* deadline := add_duration now (response_timeout (options s)) in
  Some (set_packet s p deadline, [Send p]).

Definition retry (s : Sender) (now : Z) (e : XymodemError) : option (Sender * list XymodemAction) :=
  if max_retries (options s) <=? retries s then Some (fail s e)
  else
    let timeout := if bool_decide (stage s = Start \/ stage s = DataStart)
                   then handshake_timeout (options s) else response_timeout (options s) in
    let* deadline := add_duration now timeout in
    Some (set_retries s (retries s + 1) deadline,
     if beq (last_packet s) [] then [] else [Send (last_packet s)]).

(** [next_data]: indexing [files] and the subtraction can panic. *)
Definition next_data (s : Sender) (now : Z) : option (Sender * list XymodemAction) :=
  let* file := files s !! file_index s in
  let remaining := size file - offset s in
  if remaining <? 0 then None
  else if remaining =? 0 then send (set_stage s EotAck) [EOT] now
  else
    let block_size := if bool_decide (protocol s = Ymodem) && (128 <? remaining) then 1024 else 128 in
    let n := Z.to_nat (Z.min remaining block_size) in
    if (length (reader file) <? n)%nat then Some (fail s ReadFailed)
    else
      let data := take n (reader file) ++ replicate (Z.to_nat block_size - n) 0x1a in
      let file' := mkFile (name file) (size file) (drop n (reader file)) in
      let s' := read_block s (<[file_index s := file']> (files s)) (Z.of_nat n) in
      send s' (packet (sequence s) data (crc s)) now.

(** [header[..name.len()].copy_from_slice(..)] and the size after it; a range
    past the array panics. *)
Definition header_block (f : XymodemFile) : option (list Z) :=
  let n := length (name f) in
  let sz := show_u64 (size f) in
  if (128 <? n + 1 + length sz)%nat then None
  else Some (name f ++ [0] ++ sz ++ replicate (128 - (n + 1 + length sz)) 0).

(** [Stage::Start] with a request byte. *)
Definition start_transfer (s : Sender) (byte now : Z) : option (Sender * list XymodemAction) :=
  let s := set_retries (set_crc s (byte =? CRC_REQUEST)) 0 (deadline s) in
  if bool_decide (protocol s = Ymodem) then
    match files s !! file_index s with
    | Some file =>
        let* header := header_block file in
        send (set_stage s HeaderAck) (packet 0 header (crc s)) now
    | None => send (set_stage s BatchAck) (packet 0 (replicate 128 0) (crc s)) now
    end
  else next_data s now.

(** [Stage::DataAck] with a repeated C before the first acknowledgement:
    [last_packet.pop()], [last_packet[3..]]. *)
Definition switch_to_crc (s : Sender) : option Sender :=
  if crc s then Some s
  else
    let popped := removelast (last_packet s) in
    if (length popped <? 3)%nat then None
    else Some (set_packet (set_crc s true) (popped ++ to_be_bytes 2 (crc16 (drop 3 popped)))
                 (deadline s)).

(** [Stage::EotAck] acknowledged. *)
Definition finish_file (s : Sender) (now : Z) : option (Sender * list XymodemAction) :=
  let s := next_file s in
  let acts := [Progress (progress s)] in
  if bool_decide (protocol s = Xmodem) then Some (set_stage s Done, acts ++ [Finished (Ok tt)])
  else
    let* deadline := add_duration now (handshake_timeout (options s)) in
    Some (set_retries (set_stage s Start) 0 deadline, acts).

(** The [match self.stage] of [feed] for one byte. *)
Definition feed_byte (s : Sender) (byte now : Z) : option (Sender * list XymodemAction) :=
  let request := (byte =? CRC_REQUEST) || (byte =? NAK) in
  match stage s with
  | Start =>
      if request then start_transfer s byte now
      else if byte =? 71 then Some (fail s StreamingUnsupported) else Some (s, [])
  | HeaderAck =>
      if byte =? ACK then
        let* deadline := add_duration now (handshake_timeout (options s)) in
        Some (set_retries (set_stage s DataStart) 0 deadline, [])
      else if request then retry s now RetryLimit else Some (s, [])
  | DataStart =>
      if byte =? 71 then Some (fail s StreamingUnsupported)
      else if request then
        next_data (set_retries (set_crc s (byte =? CRC_REQUEST)) 0 (deadline s)) now
      else Some (s, [])
  | DataAck =>
      if byte =? ACK then
        let s := accept_block s in
        let* (s', acts) := next_data s now in
        Some (s', Progress (progress s) :: acts)
      else if byte =? NAK then retry s now RetryLimit
      else if (byte =? CRC_REQUEST) && (offset s =? 0) then
        let* s := switch_to_crc s in retry s now RetryLimit
      else Some (s, [])
  | EotAck =>
      if byte =? NAK then retry s now RetryLimit
      else if byte =? ACK then finish_file s now else Some (s, [])
  | BatchAck =>
      if byte =? ACK then Some (set_stage s Done, [Finished (Ok tt)])
      else if request then retry s now RetryLimit else Some (s, [])
  | Done => Some (s, [])
  end.

(** One byte of the loop of [feed]: the first CAN of a pair only sets the flag. *)
Definition feed_one (s : Sender) (byte now : Z) : option (Sender * list XymodemAction) :=
  if byte =? CAN then
    let (s1, acts) := if last_can s then fail s RemoteCancelled else (s, []) in
    Some (set_last_can s1 true, acts)
  else feed_byte (set_last_can s false) byte now.

(** The loop of [feed]. *)
Fixpoint feed_loop (s : Sender) (input : list Z) (now : Z) : option (Sender * list XymodemAction) :=
  match input with
  | [] => Some (s, [])
  | byte :: rest =>
      if is_done s then Some (s, [])
      else
        let* (s1, acts) := feed_one s byte now in
        let* (s2, acts') := feed_loop s1 rest now in
        Some (s2, acts ++ acts')
  end.

Definition feed (s : Sender) (input : list Z) (now : Z) : option (Sender * list XymodemAction) :=
  if is_done s then Some (s, [])
  else
    let (s, acts) := initial_progress s in
    let* (s', acts') := feed_loop s input now in
    Some (s', acts ++ acts').

Definition tick (s : Sender) (now : Z) : option (Sender * list XymodemAction) :=
  if is_done s then Some (s, [])
  else
    let (s, acts) := initial_progress s in
    if deadline s <=? now then
      let* (s, acts') := retry s now TimedOut in Some (s, acts ++ acts')
    else Some (s, acts).

(** The calls the worker makes, in any order. *)
Inductive Event := Feed (input : list Z) (now : Z) | Tick (now : Z) | Cancel.

Definition handle (s : Sender) (e : Event) : option (Sender * list XymodemAction) :=
  match e with
  | Feed input now => feed s input now
  | Tick now => tick s now
  | Cancel => Some (cancel s)
  end.

Fixpoint run (s : Sender) (events : list Event) : option (Sender * list XymodemAction) :=
  match events with
  | [] => Some (s, [])
  | e :: events' =>
      let* (s1, acts) := handle s e in
      let* (s2, acts') := run s1 events' in
      Some (s2, acts ++ acts')
  end.
