(* ===== verification/XymodemSpec.v ===== *)
(** * X/YMODEM upload: the proofs

    [inv] is the invariant of [XymodemSender] relative to the files it was
    given: in [DataAck] the pending packet carries the bytes of the current
    file at [offset], in [EotAck] the whole file has been acknowledged, and
    [accepted_bytes] counts exactly the acknowledged bytes.  It excludes every
    panic of [feed], [tick] and [cancel], as long as a timeout can be added to
    the times they are given.  [parse_packet] is a receiver's view of a packet. *)
From stdpp Require Import base list numbers strings.
From Stdlib Require Import ZArith Lia.
From S2P Require Import Prelude Xymodem.

#[local] Arguments packet : simpl never.

(** ** Packets and the receiver's view of them *)

Lemma crc_shift_range n x : 0 <= x < 2 ^ 16 -> 0 <= crc_shift n x < 2 ^ 16.
Proof.
  revert x. induction n as [| n IH]; intros x Hx; cbn [crc_shift]; [done |].
  apply IH. pose proof (wrap_range 16 (Z.shiftl x 1) ltac:(lia)).
  destruct (negb _); [apply lxor_range; lia | done].
Qed.

Lemma crc_byte_range c b : 0 <= c < 2 ^ 16 -> 0 <= crc_byte c b < 2 ^ 16.
Proof.
  intros Hc. apply crc_shift_range, lxor_range; [lia | done |]. apply wrap_range. lia.
Qed.

Lemma crc_fold_range l c : 0 <= c < 2 ^ 16 -> 0 <= fold_left crc_byte l c < 2 ^ 16.
Proof. revert c. induction l as [| b l IH]; intros c Hc; cbn; [done |]. by apply IH, crc_byte_range. Qed.

(** Eight shifts of a value below 256 reach no feedback. *)
Lemma crc_shift_low x : byte_ok x -> crc_shift 8 x = x * 256.
Proof.
  intros Hx. apply Z.eqb_eq.
  apply (byte_forall (fun x => crc_shift 8 x =? x * 256)); [vm_compute; reflexivity | done].
Qed.

(** The bytes of the CRC cancel it. *)
Lemma crc_residue c :
  0 <= c < 2 ^ 16 -> fold_left crc_byte (to_be_bytes 2 c) c = 0.
Proof.
  intros Hc. set (hi := c / 256). set (lo := c mod 256).
  assert (Hhi : 0 <= hi < 256) by (unfold hi; split; [apply Z.div_pos; lia | apply Z.div_lt_upper_bound; lia]).
  assert (Hlo : 0 <= lo < 256) by (apply Z.mod_pos_bound; lia).
  assert (Hc' : c = Z.lxor (Z.shiftl hi 8) lo).
  { rewrite <- Z.add_nocarry_lxor.
    - rewrite Z.shiftl_mul_pow2 by lia. unfold hi, lo. pose proof (Z.div_mod c 256 ltac:(lia)). lia.
    - apply Z.bits_inj'. intros i Hi. rewrite Z.land_spec, Z.bits_0.
      destruct (Z.lt_ge_cases i 8); [by rewrite Z.shiftl_spec_low |].
      destruct (proj1 (range_bits 8 lo ltac:(lia)) Hlo) as [_ Hz]. rewrite Hz by lia. apply andb_false_r. }
  assert (Hbytes : to_be_bytes 2 c = [hi; lo]).
  { cbn [to_be_bytes]. change (8 * Z.of_nat 1) with 8. change (8 * Z.of_nat 0) with 0.
    rewrite Z.shiftr_0_r, Z.shiftr_div_pow2 by lia. unfold wrap. fold lo. change (2 ^ 8) with 256. fold hi.
    by rewrite (Z.mod_small hi) by lia. }
  assert (Hw : forall x, 0 <= x < 256 -> wrap 16 (Z.shiftl x 8) = Z.shiftl x 8).
  { intros x Hx. rewrite Z.shiftl_mul_pow2 by lia. apply Z.mod_small. lia. }
  rewrite Hbytes. cbn [fold_left]. unfold crc_byte. rewrite !Hw by done.
  rewrite Hc' at 1. rewrite (Z.lxor_comm _ lo), Z.lxor_assoc, Z.lxor_nilpotent, Z.lxor_0_r.
  rewrite (crc_shift_low lo) by exact Hlo. change 256 with (2 ^ 8). rewrite <- Z.shiftl_mul_pow2 by lia.
  by rewrite Z.lxor_nilpotent.
Qed.

Lemma crc16_residue data : crc16 (data ++ to_be_bytes 2 (crc16 data)) = 0.
Proof.
  unfold crc16. rewrite fold_left_app. apply crc_residue. apply crc_fold_range. lia.
Qed.

(** A receiver: the block number and the data of a packet whose header,
    complement and trailer are right. *)
Definition parse_packet (use_crc : bool) (p : list Z) : option (Z * list Z) :=
  match p with
  | kind :: seq :: nseq :: body =>
      let* n := if kind =? STX then Some 1024%nat else if kind =? SOH then Some 128%nat else None in
      let data := take n body in
      if (seq + nseq =? 255)
         && (length body =? n + (if use_crc then 2 else 1))%nat
         && (if use_crc then crc16 body =? 0 else beq (drop n body) [checksum data])
      then Some (seq, data) else None
  | _ => None
  end.

Lemma parse_packet_packet use_crc seq data :
  (length data = 128 \/ length data = 1024)%nat ->
  parse_packet use_crc (packet seq data use_crc) = Some (seq, data).
Proof.
  intros Hl. unfold packet, parse_packet. cbn [app].
  set (tr := if use_crc then _ else _).
  assert (Htr : length tr = if use_crc then 2%nat else 1%nat)
    by (unfold tr; destruct use_crc; [apply length_to_be_bytes | done]).
  assert (Hn : (if (if (length data =? 1024)%nat then STX else SOH) =? STX then Some 1024%nat
    else if (if (length data =? 1024)%nat then STX else SOH) =? SOH then Some 128%nat else None)
    = Some (length data)) by (destruct Hl as [-> | ->]; done).
  rewrite Hn. rewrite take_app_length, drop_app_length.
  replace (seq + bitnot 8 seq) with 255 by (unfold bitnot; change (Z.ones 8) with 255; lia).
  rewrite length_app, Htr. cbn [Z.eqb Pos.eqb andb]. rewrite Nat.eqb_refl. cbn [andb].
  unfold tr. destruct use_crc; [by rewrite crc16_residue |]. by rewrite beq_refl.
Qed.

(** ** The invariant *)

Definition sum_sizes (fs : list XymodemFile) : Z := foldr (fun f acc => size f + acc) 0 fs.

Lemma sum_sizes_app a b : sum_sizes (a ++ b) = sum_sizes a + sum_sizes b.
Proof. unfold sum_sizes. induction a as [| f a IH]; cbn; [done |]. rewrite IH. lia. Qed.

Lemma sum_sizes_take_S fs i f :
  fs !! i = Some f -> sum_sizes (take (S i) fs) = sum_sizes (take i fs) + size f.
Proof. intros Hf. rewrite (take_S_r _ _ _ Hf), sum_sizes_app. cbn. lia. Qed.

Lemma sum_sizes_nonneg fs : Forall (fun f => 0 <= size f) fs -> 0 <= sum_sizes fs.
Proof. unfold sum_sizes. induction 1; cbn; lia. Qed.

(** What [new] has checked of the files. *)
Record static (p : XymodemProtocol) (fs0 : list XymodemFile) : Prop := {
  static_size : Forall (fun f => 0 <= size f) fs0;
  static_total : sum_sizes fs0 <= U64_MAX;
  static_header : p = Ymodem -> Forall (fun f => is_Some (header_block f)) fs0;
  static_single : p = Xmodem -> length fs0 = 1%nat
}.

Record base (fs0 : list XymodemFile) (s : Sender) : Prop := {
  base_static : static (protocol s) fs0;
  base_retries : 0 <= retries s <= max_retries (options s);
  base_max : 0 < max_retries (options s) <= U8_MAX;
  base_sequence : byte_ok (sequence s);
  base_length : length (files s) = length fs0;
  base_later : forall j, (file_index s < j)%nat -> files s !! j = fs0 !! j;
  base_total : total_bytes s = sum_sizes fs0
}.

(** The current file, of whose content [n] bytes have been read. *)
Definition at_file (fs0 : list XymodemFile) (s : Sender) (n : Z) (f0 : XymodemFile) : Prop :=
  fs0 !! file_index s = Some f0
  /\ files s !! file_index s = Some (mkFile (name f0) (size f0) (drop (Z.to_nat n) (reader f0))).

Definition chunk (f0 : XymodemFile) (s : Sender) : list Z :=
  take (Z.to_nat (pending_bytes s)) (drop (Z.to_nat (offset s)) (reader f0)).

(** The pending packet is the chunk at [offset], padded when the file ends in it. *)
Definition carries_chunk (f0 : XymodemFile) (s : Sender) : Prop :=
  len (chunk f0 s) = pending_bytes s
  /\ exists block, (block = 128 \/ block = 1024)%nat /\ (length (chunk f0 s) <= block)%nat
     /\ (offset s + pending_bytes s < size f0 -> length (chunk f0 s) = block)
     /\ last_packet s
        = packet (sequence s) (chunk f0 s ++ replicate (block - length (chunk f0 s)) 0x1a) (crc s).

Definition stage_inv (fs0 : list XymodemFile) (s : Sender) : Prop :=
  match stage s with
  | Start =>
      offset s = 0 /\ (protocol s = Xmodem -> file_index s = 0%nat)
      /\ files s !! file_index s = fs0 !! file_index s
  | HeaderAck | DataStart => offset s = 0 /\ exists f0, at_file fs0 s 0 f0
  | DataAck =>
      exists f0, at_file fs0 s (offset s + pending_bytes s) f0
      /\ 0 <= offset s /\ 0 < pending_bytes s /\ offset s + pending_bytes s <= size f0
      /\ carries_chunk f0 s
  | EotAck => exists f0, fs0 !! file_index s = Some f0 /\ offset s = size f0
  | BatchAck => offset s = 0 /\ fs0 !! file_index s = None
  | Done => True
  end.

Definition accounted (fs0 : list XymodemFile) (s : Sender) : Prop :=
  accepted_bytes s = sum_sizes (take (file_index s) fs0) + offset s.

Definition inv (fs0 : list XymodemFile) (s : Sender) : Prop :=
  base fs0 s /\ (stage s <> Done -> accounted fs0 s) /\ stage_inv fs0 s.

(** ** Steps *)

Definition is_finished (a : XymodemAction) : bool := match a with Finished _ => true | _ => false end.
Definition fins (acts : list XymodemAction) : Z := len (List.filter is_finished acts).
Definition done_bit (s : Sender) : Z := if is_done s then 1 else 0.

Lemma fins_app a b : fins (a ++ b) = fins a + fins b.
Proof. unfold fins. rewrite List.filter_app, length_app. lia. Qed.

Lemma fins_pos a acts : a ∈ acts -> is_finished a = true -> 0 < fins acts.
Proof.
  intros Hin Ha. unfold fins. assert (Hf : In a (List.filter is_finished acts)).
  { apply filter_In. split; [by apply list_elem_of_In | done]. }
  destruct (List.filter is_finished acts); [done |]. cbn. lia.
Qed.

(** A time to which both timeouts can be added. *)
Definition time_ok (o : XymodemOptions) (now : Z) : Prop :=
  now + response_timeout o <= DURATION_MAX /\ now + handshake_timeout o <= DURATION_MAX.

Lemma add_duration_ok a b : a + b <= DURATION_MAX -> add_duration a b = Some (a + b).
Proof. intros H. unfold add_duration. by destruct (Z.ltb_spec DURATION_MAX (a + b)); [lia |]. Qed.

Lemma send_ok s p now :
  time_ok (options s) now -> send s p now = Some (set_packet s p (now + response_timeout (options s)), [Send p]).
Proof. intros [Ht _]. unfold send. by rewrite add_duration_ok. Qed.

Lemma retry_ok s now e :
  time_ok (options s) now ->
  retry s now e = Some (fail s e) \/
  (retries s < max_retries (options s) /\ exists d,
     retry s now e = Some (set_retries s (retries s + 1) d, if beq (last_packet s) [] then [] else [Send (last_packet s)])).
Proof.
  intros [H1 H2]. unfold retry. destruct (Z.leb_spec (max_retries (options s)) (retries s)); [by left |].
  right. split; [done |]. destruct (bool_decide _); rewrite add_duration_ok by done; by eexists.
Qed.

(** What every step from [s] guarantees of its result: the invariant, a
    [Finished] exactly when the sender stops, success only with everything
    counted as accepted, and no action of a stopped sender. *)
Record post (fs0 : list XymodemFile) (s : Sender) (r : Sender * list XymodemAction) : Prop := {
  post_inv : inv fs0 r.1;
  post_fins : fins r.2 = done_bit r.1 - done_bit s;
  post_ok : Finished (Ok tt) ∈ r.2 -> accepted_bytes r.1 = total_bytes r.1;
  post_done : is_done s = true ->
    is_done r.1 = true /\ accepted_bytes r.1 = accepted_bytes s /\ total_bytes r.1 = total_bytes s;
  post_same : options r.1 = options s /\ protocol r.1 = protocol s
}.

Lemma post_same_options fs0 s s1 acts : post fs0 s (s1, acts) -> options s1 = options s.
Proof. by intros [_ _ _ _ [? _]]. Qed.

Lemma post_same_protocol fs0 s s1 acts : post fs0 s (s1, acts) -> protocol s1 = protocol s.
Proof. by intros [_ _ _ _ [_ ?]]. Qed.

Lemma is_done_false s : stage s <> Done -> is_done s = false.
Proof. intros. by apply bool_decide_eq_false. Qed.

Lemma post_trans fs0 s s1 acts s2 acts' :
  post fs0 s (s1, acts) -> post fs0 s1 (s2, acts') -> post fs0 s (s2, acts ++ acts').
Proof.
  intros [H1 H2 H3 H4 H5] [G1 G2 G3 G4 G5]. cbn [fst snd] in *.
  constructor; cbn [fst snd]; [done | rewrite fins_app; lia | | | split; destruct H5, G5; congruence].
  - intros [Hin | Hin]%elem_of_app; [| by apply G3].
    specialize (H3 Hin). apply fins_pos in Hin; [| done].
    assert (Hd : is_done s1 = true) by (unfold done_bit in *; destruct (is_done s1), (is_done s); done || lia).
    destruct (G4 Hd) as (_ & -> & ->). done.
  - intros Hd. destruct (H4 Hd) as (Hd1 & Ha & Ht). destruct (G4 Hd1) as (Hd2 & -> & ->). done.
Qed.

(** A step that stops neither here nor before. *)
Lemma post_running fs0 s s' acts :
  stage s <> Done -> stage s' <> Done -> fins acts = 0 -> inv fs0 s' ->
  options s' = options s -> protocol s' = protocol s -> post fs0 s (s', acts).
Proof.
  intros Hs Hs' Hf Hi Ho Hp. constructor; cbn [fst snd]; [done | | | | done].
  - unfold done_bit. rewrite !is_done_false by done. lia.
  - intros Hin%fins_pos; [lia | done].
  - by rewrite is_done_false.
Qed.

Lemma fail_post fs0 s e : inv fs0 s -> post fs0 s (fail s e).
Proof.
  intros (Hb & Ha & Hst). unfold fail. destruct (is_done s) eqn:Hd.
  - constructor; cbn [fst snd]; [done | unfold done_bit; rewrite Hd; done | by intros ?%not_elem_of_nil | done | done].
  - constructor; cbn [fst snd]; [| unfold done_bit; rewrite Hd; done | | done | done].
    + split; [| split]; [| done | done]. destruct Hb. by constructor.
    + rewrite !elem_of_cons. by intros [? | [? | ?%not_elem_of_nil]].
Qed.

Lemma fins_send p : fins [Send p] = 0.
Proof. done. Qed.

Lemma retry_post fs0 s now e :
  inv fs0 s -> stage s <> Done -> time_ok (options s) now -> exists r, retry s now e = Some r /\ post fs0 s r.
Proof.
  intros Hi Hs Ht. destruct (retry_ok s now e Ht) as [-> | (Hlt & d & ->)];
    (eexists; split; [done |]); [by apply fail_post |].
  apply post_running; [done | done | by destruct (beq _ _) | | done | done].
  destruct Hi as (Hb & Ha & Hst). split; [| split]; [| done | done].
  destruct Hb. constructor; cbn; done || lia.
Qed.

Lemma base_send fs0 s p d : base fs0 s -> base fs0 (set_packet s p d).
Proof. intros []. by constructor. Qed.

(** The chunk that [next_data] reads. *)
Lemma next_data_chunk (f0 : XymodemFile) (off : Z) n :
  0 <= off -> (n <= length (drop (Z.to_nat off) (reader f0)))%nat ->
  take n (drop (Z.to_nat off) (reader f0)) = take (Z.to_nat (Z.of_nat n)) (drop (Z.to_nat off) (reader f0))
  /\ length (take n (drop (Z.to_nat off) (reader f0))) = n
  /\ drop n (drop (Z.to_nat off) (reader f0)) = drop (Z.to_nat (off + Z.of_nat n)) (reader f0).
Proof.
  intros Ho Hn. rewrite Nat2Z.id. split; [done |]. split; [rewrite length_take; lia |].
  rewrite drop_drop. f_equal. lia.
Qed.

Lemma next_data_post fs0 s now f0 :
  base fs0 s -> stage s <> Done -> at_file fs0 s (offset s) f0 ->
  0 <= offset s <= size f0 -> accounted fs0 s -> time_ok (options s) now ->
  exists r, next_data s now = Some r /\ post fs0 s r.
Proof.
  intros Hb Hs [Hf0 Hf] Ho Hacc Ht. unfold next_data. rewrite Hf. cbn [size reader name].
  destruct (Z.ltb_spec (size f0 - offset s) 0); [lia |].
  destruct (Z.eqb_spec (size f0 - offset s) 0) as [Hz | Hnz].
  { rewrite send_ok by done. eexists. split; [done |]. apply post_running; [done | done | done | | done | done].
    split; [apply (base_send fs0 (set_stage s EotAck)); destruct Hb; by constructor |].
    split; [done |]. exists f0. split; [done |]. cbn. lia. }
  set (bsz := if _ && _ then 1024 else 128).
  assert (Hbsz : bsz = 1024 \/ bsz = 128) by (unfold bsz; destruct (_ && _); tauto).
  set (n := Z.to_nat (Z.min (size f0 - offset s) bsz)).
  destruct (Nat.ltb_spec (length (drop (Z.to_nat (offset s)) (reader f0))) n) as [| Hlen].
  { eexists. split; [done |]. unfold fail. rewrite is_done_false by done.
    constructor; cbn [fst snd]; [| unfold done_bit; by rewrite (is_done_false s) | | by rewrite (is_done_false s) | done].
    - split; [| done]. destruct Hb. by constructor.
    - rewrite !elem_of_cons. by intros [? | [? | ?%not_elem_of_nil]]. }
  destruct (next_data_chunk f0 (offset s) n) as (Hc1 & Hc2 & Hc3); [lia | done |].
  rewrite send_ok by done. eexists. split; [done |]. apply post_running; [done | done | done | | done | done].
  split; [| split].
  - destruct Hb. constructor; try done.
    + cbn. by rewrite length_insert.
    + intros j Hj. cbn in *. rewrite list_lookup_insert_ne by lia. by apply base_later0.
  - intros _. done.
  - exists f0. unfold at_file, carries_chunk, chunk. cbn.
    rewrite list_lookup_insert_eq by (apply lookup_lt_Some in Hf; done).
    rewrite <- Hc1, <- Hc3, Hc2. split_and!; try done; try lia.
    exists (Z.to_nat bsz). split; [destruct Hbsz as [-> | ->]; cbn; lia |]. split; [lia |]. split; [lia | done].
Qed.

Lemma whole_file fs0 s f0 :
  fs0 !! file_index s = Some f0 -> files s !! file_index s = fs0 !! file_index s -> at_file fs0 s 0 f0.
Proof. intros H0 H. split; [done |]. rewrite H, H0. by destruct f0. Qed.

Lemma current_size p fs0 i f0 : static p fs0 -> fs0 !! i = Some f0 -> 0 <= size f0.
Proof. intros [Hs _ _ _] Hi. rewrite Forall_lookup in Hs. eauto. Qed.

(** Setting retries, deadline and checksum mode keeps what [next_data] needs. *)
Lemma next_data_reset fs0 s now b f0 :
  base fs0 s -> stage s <> Done -> at_file fs0 s 0 f0 -> offset s = 0 -> accounted fs0 s ->
  time_ok (options s) now ->
  exists r, next_data (set_retries (set_crc s b) 0 (deadline s)) now = Some r /\ post fs0 s r.
Proof.
  intros Hb Hs Hf Ho Hacc Ht. pose proof (current_size _ _ _ _ (base_static _ _ Hb) (proj1 Hf)).
  destruct (next_data_post fs0 (set_retries (set_crc s b) 0 (deadline s)) now f0) as (r & Hr & Hp);
    [destruct Hb; constructor; cbn; done || lia | done | by cbn; rewrite Ho | cbn; lia | done | done |].
  exists r. split; [done |]. destruct Hp as [H1 H2 H3 H4 H5]. by constructor.
Qed.

Lemma start_transfer_post fs0 s byte now :
  inv fs0 s -> stage s = Start -> time_ok (options s) now -> exists r, start_transfer s byte now = Some r /\ post fs0 s r.
Proof.
  intros (Hb & Ha & Hst) Hs Ht. unfold stage_inv in Hst. rewrite Hs in Hst. destruct Hst as (Ho & Hx & Hf).
  assert (Hnd : stage s <> Done) by congruence. specialize (Ha Hnd).
  unfold start_transfer. cbn [protocol set_retries set_crc files file_index].
  destruct (protocol s) eqn:Hp;
    [rewrite bool_decide_eq_false_2 by done | rewrite bool_decide_eq_true_2 by done].
  - assert (exists f0, fs0 !! 0%nat = Some f0) as [f0 Hf0].
    { apply lookup_lt_is_Some_2. rewrite (static_single _ _ (base_static _ _ Hb)) by done. lia. }
    apply (next_data_reset fs0 s now _ f0); try done.
    apply whole_file; [by rewrite Hx | done].
  - rewrite Hf. destruct (fs0 !! file_index s) as [f0 |] eqn:Hf0.
    + pose proof (static_header _ _ (base_static _ _ Hb) Hp) as Hh.
      rewrite Forall_lookup in Hh. destruct (Hh _ _ Hf0) as [hdr ->].
      rewrite send_ok by done. eexists. split; [done |]. apply post_running; [done | done | done | | done | done].
      split; [destruct Hb; constructor; cbn; done || lia | split; [done |]].
      split; [done |]. exists f0. apply whole_file; [done |]. cbn. congruence.
    + rewrite send_ok by done. eexists. split; [done |]. apply post_running; [done | done | done | | done | done].
      split; [destruct Hb; constructor; cbn; done || lia | split; [done |]]. done.
Qed.

(** Acknowledging a block leaves what [next_data] needs for the next one. *)
Lemma accept_post fs0 s now :
  inv fs0 s -> stage s = DataAck -> time_ok (options s) now ->
  exists s' acts, next_data (accept_block s) now = Some (s', acts)
  /\ post fs0 s (s', Progress (progress (accept_block s)) :: acts).
Proof.
  intros (Hb & Ha & Hst) Hs Ht. unfold stage_inv in Hst. rewrite Hs in Hst.
  destruct Hst as (f0 & Hf & Ho & Hp & Hle & _).
  assert (Hnd : stage s <> Done) by congruence. specialize (Ha Hnd).
  destruct (next_data_post fs0 (accept_block s) now f0) as ([s' acts] & Hr & [H1 H2 H3 H4 H5]).
  - destruct Hb. constructor; cbn -[wrapping_add]; try done; [lia |]. apply wrap8_ok.
  - done.
  - done.
  - cbn. lia.
  - unfold accounted in *. cbn -[sum_sizes]. lia.
  - done.
  - exists s', acts. split; [done |]. cbn [fst snd] in *. constructor; cbn [fst snd]; [done | exact H2 | | | done].
    + rewrite elem_of_cons. intros [? | ?]; [done | by apply H3].
    + by rewrite is_done_false.
Qed.

(** The repeated [C]: the packet is rebuilt with a CRC. *)
Lemma removelast_snoc {A} (l : list A) x : removelast (l ++ [x]) = l.
Proof. by rewrite removelast_last. Qed.

Lemma switch_to_crc_inv fs0 s :
  inv fs0 s -> stage s = DataAck ->
  exists s', switch_to_crc s = Some s' /\ inv fs0 s' /\ stage s' = DataAck
  /\ options s' = options s /\ protocol s' = protocol s.
Proof.
  intros (Hb & Ha & Hst) Hs. unfold switch_to_crc. destruct (crc s) eqn:Hc.
  { exists s. split; [done |]. split; [done |]. done. }
  unfold stage_inv in Hst. rewrite Hs in Hst.
  destruct Hst as (f0 & Hf & Ho & Hp & Hle & Hlen & block & Hblock & Hcb & Hfull & Hpk).
  set (data := chunk f0 s ++ _) in Hpk.
  rewrite Hpk, Hc. unfold packet at 1 2 3.
  rewrite (app_assoc _ data [checksum data]), removelast_snoc. cbn [app length drop].
  destruct (Nat.ltb_spec (S (S (S (length data)))) 3); [lia |].
  eexists. split; [done |]. split; [| by split].
  split; [destruct Hb; by constructor |]. split; [done |].
  unfold stage_inv. cbn [stage set_packet set_crc]. rewrite Hs.
  exists f0. split_and!; try done. split; [done |]. exists block. split_and!; try done.
Qed.

Lemma base_next_file fs0 s : base fs0 s -> base fs0 (next_file s).
Proof.
  intros []. constructor; cbn; try done; [lia |].
  intros j Hj. apply base_later0. lia.
Qed.

Lemma all_accepted fs0 s :
  base fs0 s -> accounted fs0 s -> offset s = 0 -> (length fs0 <= file_index s)%nat ->
  accepted_bytes s = total_bytes s.
Proof.
  intros Hb Ha Ho Hi. unfold accounted in Ha. rewrite take_ge in Ha by done.
  rewrite (base_total _ _ Hb). lia.
Qed.

Lemma finish_file_post fs0 s now :
  inv fs0 s -> stage s = EotAck -> time_ok (options s) now ->
  exists r, finish_file s now = Some r /\ post fs0 s r.
Proof.
  intros (Hb & Ha & Hst) Hs Ht. unfold stage_inv in Hst. rewrite Hs in Hst. destruct Hst as (f0 & Hf0 & Ho).
  assert (Hnd : stage s <> Done) by congruence. specialize (Ha Hnd).
  assert (Hb' : base fs0 (next_file s)) by by apply base_next_file.
  assert (Ha' : accounted fs0 (next_file s)).
  { unfold accounted in *. cbn -[sum_sizes take].
    replace (file_index s + 1)%nat with (S (file_index s)) by lia.
    rewrite (sum_sizes_take_S _ _ _ Hf0). lia. }
  unfold finish_file. cbn [protocol next_file]. destruct (protocol s) eqn:Hp.
  - rewrite bool_decide_eq_true_2 by done. eexists. split; [done |].
    constructor; cbn [fst snd]; [| unfold done_bit; by rewrite (is_done_false s) | | by rewrite is_done_false | done].
    + split; [destruct Hb'; by constructor | done].
    + intros _. apply (all_accepted fs0 (next_file s)); [done | done | done |].
      rewrite (static_single _ _ (base_static _ _ Hb)) by done. cbn. lia.
  - rewrite bool_decide_eq_false_2 by done. cbn [options next_file]. rewrite add_duration_ok by apply Ht.
    eexists. split; [done |]. apply post_running; [done | done | done | | done | done].
    split; [destruct Hb'; constructor; cbn; done || lia |]. split; [done |].
    split; [done |]. split; [cbn; congruence |]. cbn. apply (base_later _ _ Hb). lia.
Qed.

Lemma inv_stage fs0 s d :
  inv fs0 s -> stage s = HeaderAck -> inv fs0 (set_retries (set_stage s DataStart) 0 d).
Proof.
  intros (Hb & Ha & Hst) Hs. unfold stage_inv in Hst. rewrite Hs in Hst.
  split; [destruct Hb; constructor; cbn; done || lia |]. split; [| done].
  intros _. apply Ha. congruence.
Qed.

Lemma feed_byte_post fs0 s byte now :
  inv fs0 s -> time_ok (options s) now -> exists r, feed_byte s byte now = Some r /\ post fs0 s r.
Proof.
  intros Hi Ht. pose proof Hi as (Hb & Ha & Hst).
  assert (Hsame : exists r, Some (s, []) = Some r /\ post fs0 s r).
  { eexists. split; [done |].
    constructor; cbn [fst snd]; [done | change (fins []) with 0; lia | by intros ?%not_elem_of_nil | done | done]. }
  assert (Hfail : forall e, exists r, Some (fail s e) = Some r /\ post fs0 s r)
    by (intros; eexists; split; [done | by apply fail_post]).
  unfold feed_byte. destruct (stage s) eqn:Hs.
  - destruct (_ || _); [by apply start_transfer_post |]. by destruct (byte =? 71).
  - destruct (byte =? ACK).
    + rewrite add_duration_ok by apply Ht. eexists. split; [done |].
      apply post_running; [congruence | done | done | | done | done]. by apply inv_stage.
    + destruct (_ || _); [apply retry_post; [done | congruence | done] | done].
  - destruct (byte =? 71); [done |]. destruct (_ || _); [| done].
    unfold stage_inv in Hst. rewrite Hs in Hst. destruct Hst as (Ho & f0 & Hf).
    apply (next_data_reset fs0 s now _ f0); try done; [congruence |]. apply Ha. congruence.
  - destruct (byte =? ACK).
    + destruct (accept_post fs0 s now Hi Hs Ht) as (s' & acts & -> & Hp). by eexists.
    + destruct (byte =? NAK); [apply retry_post; [done | congruence | done] |].
      destruct (_ && _); [| done].
      destruct (switch_to_crc_inv fs0 s Hi Hs) as (s' & -> & Hi' & Hs' & Ho' & Hp').
      destruct (retry_post fs0 s' now RetryLimit Hi') as (r & Hr & [H1 H2 H3 H4 H5]); [congruence | by rewrite Ho' |].
      exists r. split; [done |].
      constructor; try done; [| intros Hd; unfold is_done in Hd; by rewrite Hs in Hd | split; destruct H5; congruence].
      rewrite H2. unfold done_bit, is_done. by rewrite Hs, Hs'.
  - destruct (byte =? NAK); [apply retry_post; [done | congruence | done] |].
    destruct (byte =? ACK); [by apply finish_file_post | done].
  - destruct (byte =? ACK).
    + eexists. split; [done |]. unfold stage_inv in Hst. rewrite Hs in Hst. destruct Hst as [Ho Hn].
      constructor; cbn [fst snd]; [split; [destruct Hb; by constructor | done] | | | | done].
      * unfold done_bit. rewrite (is_done_false s) by congruence. done.
      * intros _. apply (all_accepted fs0 s); [done | apply Ha; congruence | done |].
        by apply lookup_ge_None_1.
      * rewrite is_done_false by congruence. done.
    + destruct (_ || _); [apply retry_post; [done | congruence | done] | done].
  - done.
Qed.

(** ** Whole calls *)

(** Two states that differ in the flags [last_can] and
    [initial_progress_emitted] only. *)
Definition same_core (s s' : Sender) : Prop :=
  s' = mkSender (protocol s) (options s) (files s) (file_index s) (offset s) (total_bytes s)
         (accepted_bytes s) (sequence s) (pending_bytes s) (stage s) (crc s) (last_packet s)
         (retries s) (deadline s) (last_can s') (initial_progress_emitted s').

Lemma inv_core fs0 s s' : same_core s s' -> inv fs0 s -> inv fs0 s'.
Proof.
  intros -> (Hb & Ha & Hst). split; [destruct Hb; by constructor | done].
Qed.

Lemma post_core_l fs0 s s' r : same_core s s' -> post fs0 s' r -> post fs0 s r.
Proof. intros Hc [H1 H2 H3 H4 H5]. rewrite Hc in H2, H4, H5. by constructor. Qed.

Lemma post_core_r fs0 s s' s'' acts :
  same_core s' s'' -> post fs0 s (s', acts) -> post fs0 s (s'', acts).
Proof.
  intros Hc [H1 H2 H3 H4 H5]. cbn [fst snd] in *. constructor; cbn [fst snd].
  - by apply (inv_core fs0 s').
  - by rewrite Hc.
  - by rewrite Hc.
  - by rewrite Hc.
  - by rewrite Hc.
Qed.

Lemma post_refl fs0 s : inv fs0 s -> post fs0 s (s, []).
Proof.
  intros Hi. constructor; cbn [fst snd]; [done | change (fins []) with 0; lia | | done | done].
  by intros ?%not_elem_of_nil.
Qed.

Lemma feed_one_post fs0 s byte now :
  inv fs0 s -> time_ok (options s) now -> exists r, feed_one s byte now = Some r /\ post fs0 s r.
Proof.
  intros Hi Ht. unfold feed_one. destruct (byte =? CAN).
  - destruct (last_can s); [destruct (fail s RemoteCancelled) as [s1 acts] eqn:Hf |];
      eexists; (split; [done |]).
    + apply (post_core_r _ _ s1); [done |]. rewrite <- Hf. by apply fail_post.
    + apply (post_core_r _ _ s); [done |]. by apply post_refl.
  - destruct (feed_byte_post fs0 (set_last_can s false) byte now) as (r & Hr & Hp);
      [by apply (inv_core fs0 s) | done |].
    exists r. split; [done |]. by apply (post_core_l _ _ (set_last_can s false)).
Qed.

Lemma feed_loop_post fs0 s input now :
  inv fs0 s -> time_ok (options s) now -> exists r, feed_loop s input now = Some r /\ post fs0 s r.
Proof.
  revert s. induction input as [| byte input IH]; intros s Hi Ht; cbn [feed_loop].
  { eexists. split; [done | by apply post_refl]. }
  destruct (is_done s) eqn:Hd; [eexists; split; [done | by apply post_refl] |].
  destruct (feed_one_post fs0 s byte now Hi Ht) as ([s1 acts] & -> & Hp1).
  destruct (IH s1 (post_inv _ _ _ Hp1)) as ([s2 acts'] & -> & Hp2);
    [by rewrite (post_same_options _ _ _ _ Hp1) |].
  eexists. split; [done |]. by eapply post_trans.
Qed.

Lemma initial_progress_post fs0 s : inv fs0 s -> post fs0 s (initial_progress s).
Proof.
  intros Hi. unfold initial_progress. destruct (initial_progress_emitted s); [by apply post_refl |].
  destruct (post_refl fs0 s Hi) as [H1 H2 H3 H4 H5].
  constructor; cbn [fst snd]; [by apply (inv_core fs0 s) | done | | done | done].
  rewrite elem_of_cons. by intros [? | ?%not_elem_of_nil].
Qed.

Lemma initial_progress_stage s : stage (initial_progress s).1 = stage s.
Proof. unfold initial_progress. by destruct (initial_progress_emitted s). Qed.

(** The times an event names. *)
Definition event_ok (o : XymodemOptions) (e : Event) : Prop :=
  match e with Feed _ now | Tick now => time_ok o now | Cancel => True end.

Lemma handle_post fs0 s e :
  inv fs0 s -> event_ok (options s) e -> exists r, handle s e = Some r /\ post fs0 s r.
Proof.
  intros Hi Ht. destruct e as [input now | now |]; cbn [handle event_ok] in *.
  - unfold feed. destruct (is_done s) eqn:Hd; [eexists; split; [done | by apply post_refl] |].
    pose proof (initial_progress_post fs0 s Hi) as Hp. destruct (initial_progress s) as [s1 acts].
    destruct (feed_loop_post fs0 s1 input now (post_inv _ _ _ Hp)) as ([s2 acts'] & -> & Hp2);
      [by rewrite (post_same_options _ _ _ _ Hp) |].
    eexists. split; [done |]. by eapply post_trans.
  - unfold tick. destruct (is_done s) eqn:Hd; [eexists; split; [done | by apply post_refl] |].
    pose proof (initial_progress_post fs0 s Hi) as Hp. pose proof (initial_progress_stage s) as Hst.
    destruct (initial_progress s) as [s1 acts]. cbn [fst] in Hst.
    destruct (_ <=? now); [| by eexists].
    destruct (retry_post fs0 s1 now TimedOut (post_inv _ _ _ Hp)) as ([s2 acts'] & -> & Hp2);
      [| by rewrite (post_same_options _ _ _ _ Hp) | eexists; split; [done |]; by eapply post_trans].
    rewrite Hst. by apply bool_decide_eq_false in Hd.
  - eexists. split; [done |]. by apply fail_post.
Qed.

Lemma run_post fs0 s events :
  inv fs0 s -> Forall (event_ok (options s)) events -> exists r, run s events = Some r /\ post fs0 s r.
Proof.
  revert s. induction events as [| e events IH]; intros s Hi Ht; cbn [run].
  { eexists. split; [done | by apply post_refl]. }
  apply Forall_cons in Ht as [He Ht].
  destruct (handle_post fs0 s e Hi He) as ([s1 acts] & -> & Hp1).
  destruct (IH s1 (post_inv _ _ _ Hp1)) as ([s2 acts'] & -> & Hp2);
    [by rewrite (post_same_options _ _ _ _ Hp1) |].
  eexists. split; [done |]. by eapply post_trans.
Qed.

(** [new] establishes the invariant. *)
Lemma check_files_spec lower p fs names total r :
  check_files lower p fs names total = Ok r -> total <= U64_MAX ->
  Forall (fun f => 0 <= size f) fs ->
  r = total + sum_sizes fs /\ r <= U64_MAX
  /\ (p = Ymodem -> Forall (fun f => is_Some (header_block f)) fs).
Proof.
  intros H Ht Hs. revert names total H Ht.
  induction Hs as [| f fs Hf Hs IH]; intros names total H Ht; cbn [check_files] in H.
  { simplify_eq. split; [cbn; lia | done]. }
  destruct (_ && _) eqn:Hbad; [done |].
  destruct (Z.ltb_spec U64_MAX (total + size f)); [done |].
  destruct (IH _ _ H) as (-> & Hr & Hh); [lia |].
  split; [unfold sum_sizes; cbn; lia |]. split; [done |].
  intros ->. apply Forall_cons. split; [| by apply Hh].
  rewrite bool_decide_eq_true_2 in Hbad by done. cbn [andb] in Hbad.
  apply orb_false_iff in Hbad as [[_ Hlen]%orb_false_iff _].
  unfold header_block. apply Z.ltb_ge in Hlen.
  destruct (Nat.ltb_spec 128 (length (name f) + 1 + length (show_u64 (size f)))); [lia | by eexists].
Qed.

Lemma new_inv lower p fs o s :
  new lower p fs o = Ok s -> Forall (fun f => 0 <= size f) fs -> 0 <= max_retries o <= U8_MAX ->
  inv fs s /\ stage s = Start /\ options s = o.
Proof.
  intros H Hs Hm. unfold new in H.
  destruct (bool_decide (fs = [])); [done |]. destruct (_ && _) eqn:Hsingle; [done |].
  destruct (_ || _) eqn:Hopt; [done |].
  destruct (check_files lower p fs [] 0) as [total |] eqn:Hc; [| done]. cbn in H. simplify_eq.
  destruct (check_files_spec _ _ _ _ _ _ Hc) as (-> & Hle & Hh); [lia | done |].
  apply orb_false_iff in Hopt as [_ Hmax%Z.eqb_neq].
  split; [| by split]. split; [| split].
  - constructor; cbn -[sum_sizes]; try done; try lia.
    constructor; try done. intros ->. cbn in Hsingle. by apply negb_false_iff, Nat.eqb_eq in Hsingle.
  - done.
  - done.
Qed.

(** ** Properties *)

(** In every reachable state that waits for a block's acknowledgement, the
    packet in flight is one that a receiver accepts, with the current sequence
    number and the bytes of the current file at [offset], padded with 0x1a. *)
Theorem xymodem_packet_carries_file lower p fs o s events s' acts :
  new lower p fs o = Ok s -> Forall (fun f => 0 <= size f) fs -> 0 <= max_retries o <= U8_MAX ->
  Forall (event_ok o) events -> run s events = Some (s', acts) -> stage s' = DataAck ->
  exists f0 pad, fs !! file_index s' = Some f0
  /\ 0 <= offset s' /\ 0 < pending_bytes s' /\ offset s' + pending_bytes s' <= size f0
  /\ len (chunk f0 s') = pending_bytes s'
  /\ parse_packet (crc s') (last_packet s')
     = Some (sequence s', chunk f0 s' ++ replicate pad 0x1a).
Proof.
  intros Hn Hs Hm Ht Hr Hst. destruct (new_inv lower p fs o s Hn Hs Hm) as (Hi & _ & Ho).
  destruct (run_post fs s events Hi) as (r & Hr' & [(_ & _ & Hsi) _ _ _ _]); [by rewrite Ho |]. rewrite Hr in Hr'. simplify_eq.
  cbn [fst] in Hsi. unfold stage_inv in Hsi. rewrite Hst in Hsi.
  destruct Hsi as (f0 & [Hf0 _] & Hoff & Hp & Hle & Hlen & block & Hblock & Hcb & _ & Hpk).
  exists f0, (block - length (chunk f0 s'))%nat. split_and!; try done.
  rewrite Hpk. apply parse_packet_packet.
  rewrite length_app, length_replicate. lia.
Qed.

Lemma xymodem_packet_carries_file_witness :
  let f := mkFile (bs "a.bin") 3 [1; 2; 3] in
  exists s s' acts, new (fun l => l) Xmodem [f] default_options = Ok s
  /\ run s [Feed [21; 67] 1] = Some (s', acts) /\ crc s' = true
  /\ parse_packet true (last_packet s') = Some (1, [1; 2; 3] ++ replicate 125 0x1a).
Proof.
  intros f. eexists. eexists. eexists. split; [reflexivity |].
  split; [vm_compute; reflexivity |]. split; [reflexivity |].
  destruct (xymodem_packet_carries_file (fun l => l) Xmodem [f] default_options _ [Feed [21; 67] 1]
    _ _ eq_refl ltac:(by repeat constructor) ltac:(cbn; lia) ltac:(repeat constructor; vm_compute; discriminate) ltac:(vm_compute; reflexivity) eq_refl)
    as (f0 & pad & Hf0 & _ & _ & _ & _ & Hp).
  vm_compute. reflexivity.
Defined.

(** A receiver in either mode takes from a packet the block number and the
    data that were put in: header, complement and checksum or CRC agree. *)
Theorem xymodem_packet_roundtrip use_crc seq data :
  (length data = 128 \/ length data = 1024)%nat ->
  parse_packet use_crc (packet seq data use_crc) = Some (seq, data).
Proof. apply parse_packet_packet. Qed.

Lemma xymodem_packet_roundtrip_witness :
  parse_packet true (packet 7 (replicate 128 200) true) = Some (7, replicate 128 200).
Proof. apply xymodem_packet_roundtrip. by left. Defined.

(** The CRC appended to a block brings the receiver's CRC to zero. *)
Theorem xymodem_crc_residue data : crc16 (data ++ to_be_bytes 2 (crc16 data)) = 0.
Proof. apply crc16_residue. Qed.

