(* ===== verification/XymodemDelivery.v ===== *)
(** * X/YMODEM upload: what has been acknowledged

    A run of the sender is seen from the line: the bytes it reads and the
    packets it sends, in their order.  [view] follows such a trace without
    looking at the sender: a packet is acknowledged by an ACK that arrives while
    it is the last one sent, and one equal to the last acknowledged is a repeat.
    A sender that reports success has had exactly the frames of its files
    acknowledged.  [Receiver] is an XMODEM receiver that checks block numbers. *)
From stdpp Require Import base list numbers strings.
From Stdlib Require Import ZArith Lia.
From S2P Require Import Prelude Xymodem XymodemSpec.

#[local] Arguments packet : simpl never.
#[local] Arguments wrap : simpl never.

(** ** Frames *)

Inductive Frame := Block (number : Z) (data : list Z) | EndOfFile.

(** A receiver's reading of a packet, in CRC or in checksum mode. *)
Definition read_frame (p : list Z) : option Frame :=
  if beq p [EOT] then Some EndOfFile
  else match parse_packet true p, parse_packet false p with
       | Some (number, data), _ | None, Some (number, data) => Some (Block number data)
       | None, None => None
       end.

Definition block_len (data : list Z) : Prop := (length data = 128 \/ length data = 1024)%nat.

(** The blocks of a file are numbered from one, modulo 256. *)
Fixpoint numbered (k : Z) (blocks : list (list Z)) : list Frame :=
  match blocks with
  | [] => []
  | b :: blocks => Block (wrap 8 k) b :: numbered (k + 1) blocks
  end.

(** The frame that announces a file in a YMODEM batch. *)
Definition header_of (p : XymodemProtocol) (f : XymodemFile) (frames : list Frame) : Prop :=
  match p with
  | Xmodem => frames = []
  | Ymodem => exists h, header_block f = Some h /\ frames = [Block 0 h]
  end.

Definition content (f : XymodemFile) : list Z := take (Z.to_nat (size f)) (reader f).

(** The frames of a file: its header, blocks that hold its [size] bytes and
    less than a block of padding, and the end. *)
Definition file_frames (p : XymodemProtocol) (f : XymodemFile) (frames : list Frame) : Prop :=
  exists header blocks pad, header_of p f header /\ frames = header ++ numbered 1 blocks ++ [EndOfFile]
  /\ Forall block_len blocks /\ len (content f) = size f
  /\ concat blocks = content f ++ replicate pad 0x1a
  /\ (pad < length (default [0%Z] (last blocks)))%nat.

(** The frames of a batch; an empty header ends a YMODEM batch. *)
Definition batch_frames (p : XymodemProtocol) (fs : list XymodemFile) (frames : list Frame) : Prop :=
  exists parts, Forall2 (file_frames p) fs parts
  /\ frames = concat parts ++ match p with Xmodem => [] | Ymodem => [Block 0 (replicate 128 0)] end.

(** ** The line *)

Inductive Item := In (byte : Z) | Out (a : XymodemAction).

Record view := View { outstanding : option (list Z); acknowledged : list (list Z) }.

Definition view_step (v : view) (i : Item) : view :=
  match i with
  | In byte =>
      if byte =? ACK then
        match outstanding v with
        | Some p => View None (acknowledged v ++ [p])
        | None => v
        end
      else v
  | Out (Send p) =>
      if bool_decide (last (acknowledged v) = Some p) then View None (acknowledged v)
      else View (Some p) (acknowledged v)
  | Out _ => v
  end.

Definition seen (t : list Item) : view := fold_left view_step t (View None []).

Definition out_of (i : Item) : option XymodemAction := match i with Out a => Some a | In _ => None end.
Definition outs (t : list Item) : list XymodemAction := omap out_of t.

(** The items of a call, byte by byte; a stopped sender reads nothing. *)
Fixpoint trace_loop (s : Sender) (input : list Z) (now : Z) : option (Sender * list Item) :=
  match input with
  | [] => Some (s, [])
  | byte :: rest =>
      if is_done s then Some (s, [])
      else
        let* (s1, acts) := feed_one s byte now in
        let* (s2, t) := trace_loop s1 rest now in
        Some (s2, In byte :: map Out acts ++ t)
  end.

Definition trace_event (s : Sender) (e : Event) : option (Sender * list Item) :=
  match e with
  | Feed input now =>
      if is_done s then Some (s, [])
      else
        let (s, acts) := initial_progress s in
        let* (s', t) := trace_loop s input now in
        Some (s', map Out acts ++ t)
  | _ => let* (s', acts) := handle s e in Some (s', map Out acts)
  end.

Fixpoint trace (s : Sender) (events : list Event) : option (Sender * list Item) :=
  match events with
  | [] => Some (s, [])
  | e :: events' =>
      let* (s1, t) := trace_event s e in
      let* (s2, t') := trace s1 events' in
      Some (s2, t ++ t')
  end.

(** A trace shows the actions of the run. *)
Lemma outs_app a b : outs (a ++ b) = outs a ++ outs b.
Proof. unfold outs. by rewrite omap_app. Qed.

Lemma outs_map acts : outs (map Out acts) = acts.
Proof. unfold outs. induction acts as [| a acts IH]; cbn; [done |]. by f_equal. Qed.

Lemma trace_loop_outs s input now s' acts :
  feed_loop s input now = Some (s', acts) -> exists t, trace_loop s input now = Some (s', t) /\ outs t = acts.
Proof.
  revert s acts. induction input as [| byte input IH]; intros s acts; cbn [feed_loop trace_loop].
  { intros [= <- <-]. by exists []. }
  destruct (is_done s); [intros [= <- <-]; by exists [] |].
  destruct (feed_one s byte now) as [[s1 acts1] |]; [| done].
  destruct (feed_loop s1 input now) as [[s2 acts2] |] eqn:E; [| done].
  intros [= <- <-]. destruct (IH s1 acts2 E) as (t & -> & <-).
  eexists. split; [done |]. change (outs (In byte :: ?l)) with (outs l). by rewrite outs_app, outs_map.
Qed.

Lemma trace_event_outs s e s' acts :
  handle s e = Some (s', acts) -> exists t, trace_event s e = Some (s', t) /\ outs t = acts.
Proof.
  intros H. destruct e as [input now | now |]; cbn [trace_event].
  2, 3: rewrite H; eexists; split; [done | apply outs_map].
  cbn [handle] in H. unfold feed in H. destruct (is_done s); [injection H as <- <-; by exists [] |].
  destruct (initial_progress s) as [s1 acts1].
  destruct (feed_loop s1 input now) as [[s2 acts2] |] eqn:E; [| done]. injection H as <- <-.
  destruct (trace_loop_outs s1 input now s2 acts2 E) as (t & -> & <-).
  eexists. split; [done |]. by rewrite outs_app, outs_map.
Qed.

Lemma trace_outs s events s' acts :
  run s events = Some (s', acts) -> exists t, trace s events = Some (s', t) /\ outs t = acts.
Proof.
  revert s acts. induction events as [| e events IH]; intros s acts; cbn [run trace].
  { intros [= <- <-]. by exists []. }
  destruct (handle s e) as [[s1 acts1] |] eqn:E1; [| done].
  destruct (run s1 events) as [[s2 acts2] |] eqn:E2; [| done]. intros [= <- <-].
  destruct (trace_event_outs s e s1 acts1 E1) as (t1 & -> & <-). destruct (IH s1 acts2 E2) as (t2 & -> & <-).
  eexists. split; [done |]. apply outs_app.
Qed.

(** ** Reading frames *)

Lemma parse_packet_short seq data :
  block_len data -> parse_packet true (packet seq data false) = None.
Proof.
  intros Hl. unfold packet, parse_packet. cbn [app].
  assert (Hn : (if (if (length data =? 1024)%nat then STX else SOH) =? STX then Some 1024%nat
    else if (if (length data =? 1024)%nat then STX else SOH) =? SOH then Some 128%nat else None)
    = Some (length data)) by (destruct Hl as [-> | ->]; done).
  rewrite Hn, length_app. cbn [length].
  destruct (Nat.eqb_spec (length data + 1) (length data + 2)); [lia |]. by rewrite andb_false_r.
Qed.

Lemma read_frame_packet seq data c : block_len data -> read_frame (packet seq data c) = Some (Block seq data).
Proof.
  intros Hl. unfold read_frame.
  assert (Hne : beq (packet seq data c) [EOT] = false).
  { destruct (beq _ _) eqn:E; [| done]. apply beq_true in E. unfold packet in E. by injection E. }
  rewrite Hne. destruct c; [by rewrite parse_packet_packet |].
  by rewrite parse_packet_short, parse_packet_packet.
Qed.

Lemma read_frame_eot : read_frame [EOT] = Some EndOfFile.
Proof. reflexivity. Qed.

Lemma header_block_len f h : header_block f = Some h -> length h = 128%nat.
Proof.
  unfold header_block. destruct (Nat.ltb_spec 128 (length (name f) + 1 + length (show_u64 (size f)))); [done |].
  intros [= <-]. rewrite length_app. cbn [app length]. rewrite length_app, length_replicate. lia.
Qed.

Lemma numbered_snoc k blocks b :
  numbered k (blocks ++ [b]) = numbered k blocks ++ [Block (wrap 8 (k + len blocks)) b].
Proof.
  revert k. induction blocks as [| x blocks IH]; intros k; cbn [numbered app length].
  - by rewrite Z.add_0_r.
  - rewrite IH. cbn [app]. by replace (k + 1 + len blocks) with (k + Z.of_nat (S (length blocks))) by lia.
Qed.

(** A file's frames end with the end of the file. *)
Lemma last_parts p fs parts : Forall2 (file_frames p) fs parts -> last (concat parts) = None \/ last (concat parts) = Some EndOfFile.
Proof.
  intros H. destruct parts as [| part parts _] using rev_ind; [by left |]. right.
  apply Forall2_app_inv_r in H as (fs1 & fs2 & _ & H & _).
  inversion H as [| ? ? ? ? (hd & bl & pad & _ & -> & _) ?]; subst.
  rewrite concat_app. cbn [concat]. by rewrite app_nil_r, !app_assoc, last_snoc.
Qed.

(** ** The invariant of the line *)

(** [p] has been sent and not been acknowledged yet. *)
Definition awaiting (v : view) (p : list Z) : Prop :=
  outstanding v = Some p /\ last (acknowledged v) <> Some p.

Definition reads (v : view) (frames : list Frame) : Prop := map read_frame (acknowledged v) = map Some frames.

Definition stage_view (fs0 : list XymodemFile) (s : Sender) (v : view) (current : list Frame) : Prop :=
  match stage s with
  | Start => current = [] /\ outstanding v = None /\ last_packet s = []
  | HeaderAck => current = [] /\ awaiting v (last_packet s) /\ protocol s = Ymodem
      /\ exists f0 h, fs0 !! file_index s = Some f0 /\ header_block f0 = Some h /\ last_packet s = packet 0 h (crc s)
  | DataStart => outstanding v = None /\ last (acknowledged v) = Some (last_packet s) /\ protocol s = Ymodem /\ sequence s = 1
      /\ exists f0, fs0 !! file_index s = Some f0 /\ header_of (protocol s) f0 current
  | DataAck => awaiting v (last_packet s)
      /\ exists f0 header blocks, fs0 !! file_index s = Some f0 /\ header_of (protocol s) f0 header
         /\ current = header ++ numbered 1 blocks /\ Forall block_len blocks
         /\ sequence s = wrap 8 (1 + len blocks) /\ concat blocks = take (Z.to_nat (offset s)) (reader f0)
  | EotAck => awaiting v (last_packet s) /\ last_packet s = [EOT]
      /\ exists f0, fs0 !! file_index s = Some f0 /\ file_frames (protocol s) f0 (current ++ [EndOfFile])
  | BatchAck => current = [] /\ awaiting v (last_packet s) /\ protocol s = Ymodem
      /\ last_packet s = packet 0 (replicate 128 0) (crc s)
  | Done => True
  end.

Definition line_inv (fs0 : list XymodemFile) (s : Sender) (v : view) : Prop :=
  stage s <> Done ->
  (stage s = Start \/ stage s = HeaderAck -> sequence s = 1) /\
  exists parts current, reads v (concat parts ++ current)
  /\ Forall2 (file_frames (protocol s)) (take (file_index s) fs0) parts /\ stage_view fs0 s v current.

Definition complete (fs0 : list XymodemFile) (p : XymodemProtocol) (v : view) : Prop :=
  exists frames, reads v frames /\ batch_frames p fs0 frames.

(** What a step leaves on the line. *)
Definition after (v : view) (acts : list XymodemAction) : view := fold_left view_step (map Out acts) v.

Definition line_post (fs0 : list XymodemFile) (s : Sender) (v : view) (r : Sender * list XymodemAction) : Prop :=
  line_inv fs0 r.1 (after v r.2) /\ (Finished (Ok tt) ∈ r.2 -> complete fs0 (protocol s) (after v r.2)).

Lemma after_app v a b : after v (a ++ b) = after (after v a) b.
Proof. unfold after. by rewrite map_app, fold_left_app. Qed.

Lemma resend v p : awaiting v p -> view_step v (Out (Send p)) = v.
Proof. intros [Ho Hl]. cbn. rewrite bool_decide_eq_false_2 by done. destruct v. cbn in *. by rewrite Ho. Qed.

Lemma reads_last v frames p frame :
  reads v frames -> last (acknowledged v) = Some p -> read_frame p = Some frame -> last frames = Some frame.
Proof.
  intros Hr Hl Hf. apply last_Some in Hl as [l Hl]. unfold reads in Hr. rewrite Hl, map_app in Hr.
  destruct frames as [| x frames _] using rev_ind; [by destruct (map read_frame l) |].
  rewrite map_app in Hr. apply app_inj_tail in Hr as [_ Hx]. rewrite Hf in Hx. injection Hx as <-. apply last_snoc.
Qed.

Lemma send_new v frames p frame :
  reads v frames -> read_frame p = Some frame -> last frames <> Some frame ->
  after v [Send p] = View (Some p) (acknowledged v) /\ awaiting (View (Some p) (acknowledged v)) p.
Proof.
  intros Hr Hf Hl. assert (Hne : last (acknowledged v) <> Some p) by (intros E; apply Hl; by eapply reads_last).
  cbn. by rewrite bool_decide_eq_false_2.
Qed.

Lemma line_fail fs0 s v e : stage s <> Done -> line_post fs0 s v (fail s e).
Proof.
  intros Hs. unfold fail. rewrite is_done_false by done. split; [by intros ? |]. cbn [snd].
  rewrite !elem_of_cons. by intros [? | [? | ?%not_elem_of_nil]].
Qed.

(** A repeat of the last packet changes nothing on the line. *)
Lemma line_retry fs0 s v now e r :
  line_inv fs0 s v -> stage s <> Done -> time_ok (options s) now -> retry s now e = Some r -> line_post fs0 s v r.
Proof.
  intros Hi Hs Ht Hr. destruct (retry_ok s now e Ht) as [E | (_ & d & E)]; rewrite E in Hr; injection Hr as <-;
    [by apply line_fail |].
  assert (Hv : after v (if beq (last_packet s) [] then [] else [Send (last_packet s)]) = v).
  { destruct (Hi Hs) as (_ & parts & cur & _ & _ & Hst). unfold stage_view in Hst.
    destruct (beq (last_packet s) []) eqn:Hb; [done |]. cbn [after map fold_left].
    destruct (stage s); try done; try (apply resend; tauto).
    - destruct Hst as (_ & _ & E'). by rewrite E' in Hb.
    - destruct Hst as (Ho & Hl & _). cbn [view_step]. rewrite bool_decide_eq_true_2 by done.
      destruct v. cbn in *. by subst. }
  split; cbn [fst snd]; rewrite Hv; [exact Hi |].
  destruct (beq _ _); [by intros ?%not_elem_of_nil |]. rewrite elem_of_cons. by intros [? | ?%not_elem_of_nil].
Qed.

(** ** Data *)

(** What [next_data] does at an offset within the file. *)
Lemma next_data_cases fs0 s now f0 r :
  at_file fs0 s (offset s) f0 -> 0 <= offset s <= size f0 -> stage s <> Done -> time_ok (options s) now ->
  next_data s now = Some r ->
  (exists d, offset s = size f0 /\ r = (set_packet (set_stage s EotAck) [EOT] d, [Send [EOT]]))
  \/ (exists e, r = fail s e)
  \/ (offset s < size f0 /\ exists fs n data d, block_len data
      /\ r = (set_packet (read_block s fs n) (packet (sequence s) data (crc s)) d, [Send (packet (sequence s) data (crc s))])).
Proof.
  intros [_ Hf] Ho Hs Ht. unfold next_data. rewrite Hf. cbn [size reader name].
  destruct (Z.ltb_spec (size f0 - offset s) 0); [lia |].
  destruct (Z.eqb_spec (size f0 - offset s) 0) as [Hz | Hnz].
  { rewrite send_ok by done. intros [= <-]. left. eexists. split; [lia | done]. }
  set (bsz := if _ && _ then 1024 else 128).
  assert (Hbsz : bsz = 1024 \/ bsz = 128) by (unfold bsz; destruct (_ && _); tauto).
  set (n := Z.to_nat (Z.min (size f0 - offset s) bsz)).
  destruct (Nat.ltb_spec (length (drop (Z.to_nat (offset s)) (reader f0))) n) as [| Hlen].
  { intros [= <-]. right. left. by eexists. }
  rewrite send_ok by done. intros [= <-]. right. right. split; [lia |].
  eexists _, _, _, _. split; [| done]. unfold block_len.
  rewrite length_app, length_take, length_replicate. lia.
Qed.

(** The blocks acknowledged so far, up to [offset]; padding only at the end. *)
Record blocks_sent (fs0 : list XymodemFile) (s : Sender) (v : view) (f0 : XymodemFile)
    (parts : list (list Frame)) (header : list Frame) (blocks : list (list Z)) (pad : nat) : Prop := {
  bs_reads : reads v (concat parts ++ header ++ numbered 1 blocks);
  bs_parts : Forall2 (file_frames (protocol s)) (take (file_index s) fs0) parts;
  bs_first : protocol s = Xmodem -> file_index s = 0%nat;
  bs_header : header_of (protocol s) f0 header;
  bs_blocks : Forall block_len blocks;
  bs_sequence : sequence s = wrap 8 (1 + len blocks);
  bs_bytes : concat blocks = take (Z.to_nat (offset s)) (reader f0) ++ replicate pad 0x1a;
  bs_there : offset s <= len (reader f0);
  bs_pad : (pad < length (default [0%Z] (last blocks)))%nat;
  bs_full : offset s < size f0 -> pad = 0%nat
}.

(** The next frame differs from the last one acknowledged. *)
Lemma blocks_sent_next fs0 s v f0 parts header blocks pad frame :
  blocks_sent fs0 s v f0 parts header blocks pad ->
  frame = EndOfFile \/ (exists data, frame = Block (sequence s) data) ->
  last (concat parts ++ header ++ numbered 1 blocks) <> Some frame.
Proof.
  intros [_ Hp Hx Hh _ Hseq _ _ _ _] Hfr Hl.
  destruct blocks as [| b blocks _] using rev_ind.
  - cbn [numbered] in Hl. rewrite app_nil_r in Hl. change (wrap 8 (1 + len (@nil (list Z)))) with 1 in Hseq.
    destruct (protocol s); cbn in Hh.
    + subst. rewrite app_nil_r, Hx in * by done. by inversion Hp; subst.
    + destruct Hh as (h & _ & ->). rewrite last_snoc in Hl. injection Hl as <-.
      destruct Hfr as [? | (data & [= E _])]; [done |]. congruence.
  - rewrite numbered_snoc, !app_assoc, last_snoc in Hl. injection Hl as <-.
    destruct Hfr as [? | (data & [= E _])]; [done |]. rewrite Hseq in E. unfold wrap in E.
    rewrite length_app in E. cbn [length] in E. change (2 ^ 8) with 256 in E.
    replace (1 + Z.of_nat (length blocks + 1)) with (1 + len blocks + 1) in E by lia.
    pose proof (Z.div_mod (1 + len blocks) 256 ltac:(lia)). pose proof (Z.div_mod (1 + len blocks + 1) 256 ltac:(lia)).
    lia.
Qed.

Lemma line_next_data fs0 s v now f0 parts header blocks pad r :
  blocks_sent fs0 s v f0 parts header blocks pad -> at_file fs0 s (offset s) f0 -> 0 <= offset s <= size f0 ->
  stage s <> Done -> time_ok (options s) now -> next_data s now = Some r -> line_post fs0 s v r.
Proof.
  intros Hb Hf Ho Hs Ht Hr. pose proof Hf as [Hf0 _].
  destruct (next_data_cases fs0 s now f0 r Hf Ho Hs Ht Hr) as
    [(d & He & ->) | [(e & ->) | (Hlt & fs & n & data & d & Hl & ->)]]; [| by apply line_fail |].
  - destruct (send_new v _ [EOT] EndOfFile (bs_reads _ _ _ _ _ _ _ _ Hb) read_frame_eot) as [Hv Ha];
      [eapply blocks_sent_next; [exact Hb | by left] |].
    split; cbn [fst snd]; rewrite Hv; [| rewrite elem_of_cons; by intros [? | ?%not_elem_of_nil]].
    intros _. split; [by intros [? | ?] |]. exists parts, (header ++ numbered 1 blocks). destruct Hb.
    split; [done |]. split; [done |]. split; [done |]. split; [done |]. exists f0. split; [done |].
    exists header, blocks, pad. unfold content. rewrite <- He. split_and!; try done.
    + by rewrite <- app_assoc.
    + rewrite length_take. lia.
  - destruct (send_new v _ _ _ (bs_reads _ _ _ _ _ _ _ _ Hb) (read_frame_packet (sequence s) data (crc s) Hl))
      as [Hv Ha]; [eapply blocks_sent_next; [exact Hb | right; by eexists] |].
    split; cbn [fst snd]; rewrite Hv; [| rewrite elem_of_cons; by intros [? | ?%not_elem_of_nil]].
    intros _. split; [by intros [? | ?] |]. exists parts, (header ++ numbered 1 blocks). destruct Hb.
    split; [done |]. split; [done |]. split; [done |]. exists f0, header, blocks. split_and!; try done.
    change (offset (set_packet (read_block s fs n) (packet (sequence s) data (crc s)) d)) with (offset s).
    by rewrite bs_bytes0, bs_full0, app_nil_r.
Qed.

(** Nothing of a file has been sent yet. *)
Lemma blocks_sent_none fs0 s v f0 parts header :
  reads v (concat parts ++ header) -> Forall2 (file_frames (protocol s)) (take (file_index s) fs0) parts ->
  (protocol s = Xmodem -> file_index s = 0%nat) -> header_of (protocol s) f0 header -> sequence s = 1 -> offset s = 0 ->
  blocks_sent fs0 s v f0 parts header [] 0.
Proof.
  intros Hr Hp Hx Hh Hs Ho. constructor; try done.
  - cbn [numbered]. by rewrite app_nil_r.
  - by rewrite Ho.
  - lia.
  - cbn. lia.
Qed.

Lemma line_start fs0 s v byte now r :
  inv fs0 s -> line_inv fs0 s v -> stage s = Start -> time_ok (options s) now ->
  start_transfer s byte now = Some r -> line_post fs0 s v r.
Proof.
  intros (Hb & _ & Hst) Hl Hs Ht. unfold stage_inv in Hst. rewrite Hs in Hst. destruct Hst as (Ho & Hx & Hf).
  assert (Hnd : stage s <> Done) by congruence. destruct (Hl Hnd) as (Hseq & parts & cur & Hr & Hp & Hv).
  specialize (Hseq (or_introl Hs)). unfold stage_view in Hv. rewrite Hs in Hv. destruct Hv as (-> & Hout & _).
  rewrite app_nil_r in Hr. unfold start_transfer. cbn [protocol set_retries set_crc files file_index].
  assert (Hne : forall data, last (concat parts) <> Some (Block 0 data))
    by (intros data E; destruct (last_parts _ _ _ Hp); congruence).
  destruct (protocol s) eqn:Hpr; [rewrite bool_decide_eq_false_2 by done | rewrite bool_decide_eq_true_2 by done].
  - assert (exists f0, fs0 !! 0%nat = Some f0) as [f0 Hf0].
    { apply lookup_lt_is_Some_2. rewrite (static_single _ _ (base_static _ _ Hb)) by done. lia. }
    assert (Hat : at_file fs0 s 0 f0) by (apply whole_file; [by rewrite Hx | done]).
    pose proof (current_size _ _ _ _ (base_static _ _ Hb) (proj1 Hat)). intros Hnx.
    set (s1 := set_retries _ _ _) in Hnx. assert (Hbs : blocks_sent fs0 s1 v f0 parts [] [] 0).
    { apply blocks_sent_none; cbn [s1 protocol set_retries set_crc]; rewrite ?app_nil_r, ?Hpr; done. }
    assert (Hat1 : at_file fs0 s1 (offset s1) f0) by (cbn; by rewrite Ho).
    destruct (line_next_data fs0 s1 v now f0 parts [] [] 0 r Hbs Hat1) as [H1 H2];
      [cbn; lia | done | done | done |].
    by split.
  - rewrite Hf. destruct (fs0 !! file_index s) as [f0 |] eqn:Hf0.
    + destruct (header_block f0) as [h |] eqn:Hh; [| done]. rewrite send_ok by done. intros [= <-].
      set (c := byte =? CRC_REQUEST).
      destruct (send_new v _ (packet 0 h c) _ Hr (read_frame_packet 0 h c (or_introl (header_block_len _ _ Hh))) (Hne h))
        as [Hv' Ha].
      split; cbn [fst snd]; rewrite Hv'; [| rewrite elem_of_cons; by intros [? | ?%not_elem_of_nil]].
      intros _. split; [done |]. exists parts, []. rewrite app_nil_r. cbn. rewrite Hpr. split_and!; try done. by exists f0, h.
    + rewrite send_ok by done. intros <-%(inj Some). set (c := byte =? CRC_REQUEST).
      destruct (send_new v _ (packet 0 (replicate 128 0) c) _ Hr
        (read_frame_packet 0 (replicate 128 0) c (or_introl (length_replicate 128 0))) (Hne _)) as [Hv' Ha].
      split; cbn [fst snd crc set_retries set_crc]; rewrite Hv'; [| rewrite elem_of_cons; by intros [? | ?%not_elem_of_nil]].
      intros _. split; [by intros [? | ?] |]. exists parts, []. rewrite app_nil_r. cbn. rewrite Hpr. by split_and!.
Qed.

(** ** Acknowledgements *)

Lemma view_ack v p : awaiting v p -> view_step v (In ACK) = View None (acknowledged v ++ [p]).
Proof. intros [Ho _]. cbn. by rewrite Ho. Qed.

Lemma reads_ack v frames p frame :
  reads v frames -> read_frame p = Some frame -> reads (View None (acknowledged v ++ [p])) (frames ++ [frame]).
Proof. intros Hr Hf. unfold reads in *. cbn. rewrite !map_app, Hr. cbn. by rewrite Hf. Qed.

Lemma line_ack_data fs0 s v now s' acts :
  inv fs0 s -> line_inv fs0 s v -> stage s = DataAck -> time_ok (options s) now ->
  next_data (accept_block s) now = Some (s', acts) ->
  line_post fs0 s (view_step v (In ACK)) (s', Progress (progress (accept_block s)) :: acts).
Proof.
  intros (Hb & _ & Hst) Hl Hs Ht Hnx. assert (Hnd : stage s <> Done) by congruence.
  destruct (Hl Hnd) as (_ & parts & cur & Hr & Hp & Hv). unfold stage_view in Hv. rewrite Hs in Hv.
  destruct Hv as (Ha & f0 & header & blocks & Hf0 & Hh & -> & Hbl & Hseq & Hby).
  unfold stage_inv in Hst. rewrite Hs in Hst.
  destruct Hst as (f1 & Hf & Ho & Hpend & Hle & Hlen & block & Hblock & Hcb & Hfull & Hpk).
  pose proof Hf as [E _]. rewrite Hf0 in E. injection E as <-.
  set (data := chunk f0 s ++ _) in Hpk. set (pad := (block - length (chunk f0 s))%nat) in *.
  assert (Hdl : block_len data) by (unfold block_len, data; rewrite length_app, length_replicate; lia).
  assert (Hthere : offset s + pending_bytes s <= len (reader f0))
    by (unfold chunk in Hlen; rewrite length_take, length_drop in Hlen; lia).
  rewrite (view_ack v (last_packet s)) by done.
  destruct (line_next_data fs0 (accept_block s) (View None (acknowledged v ++ [last_packet s])) now f0 parts header
    (blocks ++ [data]) pad (s', acts)) as [H1 H2]; try done.
  - constructor; try done.
    + rewrite numbered_snoc, <- Hseq, !app_assoc. rewrite <- (app_assoc (concat parts)). apply reads_ack; [done |].
      rewrite Hpk. by apply read_frame_packet.
    + intros Hx. pose proof (static_single _ _ (base_static _ _ Hb) Hx). apply lookup_lt_Some in Hf0. cbn. lia.
    + apply Forall_app. split; [done |]. by apply Forall_singleton.
    + cbn -[wrapping_add]. rewrite Hseq. unfold wrapping_add, wrap. rewrite Zplus_mod_idemp_l, length_app. cbn [length].
      f_equal. lia.
    + rewrite concat_app, Hby. cbn [concat]. rewrite app_nil_r. unfold data. rewrite app_assoc. f_equal.
      unfold chunk. cbn. rewrite Z2Nat.inj_add by lia. by rewrite take_take_drop.
    + rewrite last_snoc. cbn. unfold data, pad. rewrite length_app, length_replicate. lia.
    + cbn. intros. unfold pad. rewrite Hfull by lia. lia.
  - cbn. lia.
  - split; [exact H1 |]. cbn [snd]. rewrite elem_of_cons. intros [? | ?]; [done | by apply H2].
Qed.

Lemma line_ack_eot fs0 s v now r :
  inv fs0 s -> line_inv fs0 s v -> stage s = EotAck -> time_ok (options s) now -> finish_file s now = Some r ->
  line_post fs0 s (view_step v (In ACK)) r.
Proof.
  intros (Hb & _ & _) Hl Hs Ht Hr. assert (Hnd : stage s <> Done) by congruence.
  destruct (Hl Hnd) as (_ & parts & cur & Hrd & Hp & Hv). unfold stage_view in Hv. rewrite Hs in Hv.
  destruct Hv as (Ha & Hpk & f0 & Hf0 & Hff). rewrite (view_ack v (last_packet s)) by done.
  assert (Hrd' : reads (View None (acknowledged v ++ [last_packet s])) (concat (parts ++ [cur ++ [EndOfFile]]))).
  { rewrite concat_app. cbn [concat]. rewrite app_nil_r, app_assoc. apply reads_ack; [done |]. by rewrite Hpk. }
  assert (Hp' : Forall2 (file_frames (protocol s)) (take (S (file_index s)) fs0) (parts ++ [cur ++ [EndOfFile]])).
  { rewrite (take_S_r _ _ _ Hf0). apply Forall2_app; [done |]. by constructor. }
  unfold finish_file in Hr. cbn [protocol next_file options] in Hr. destruct (protocol s) eqn:Hpr.
  - rewrite bool_decide_eq_true_2 in Hr by done. injection Hr as <-. split; [done |]. intros _.
    eexists. split; [exact Hrd' |]. eexists. split; [| by rewrite Hpr, app_nil_r].
    rewrite Hpr. replace fs0 with (take (S (file_index s)) fs0); [done |].
    apply take_ge. rewrite (static_single _ _ (base_static _ _ Hb)) by done. lia.
  - rewrite bool_decide_eq_false_2 in Hr by done. rewrite add_duration_ok in Hr by apply Ht. injection Hr as <-.
    split; cbn [fst snd]; [| rewrite elem_of_cons; by intros [? | ?%not_elem_of_nil]].
    intros _. split; [done |]. eexists _, []. rewrite app_nil_r. split; [exact Hrd' |]. split; [| done].
    cbn. rewrite Hpr. by replace (file_index s + 1)%nat with (S (file_index s)) by lia.
Qed.

(** ** Bytes and calls *)

Lemma data_ack_sent fs0 s v :
  inv fs0 s -> line_inv fs0 s v -> stage s = DataAck ->
  exists f0 parts header blocks, fs0 !! file_index s = Some f0 /\ blocks_sent fs0 s v f0 parts header blocks 0.
Proof.
  intros (Hb & _ & Hst) Hl Hs. assert (Hnd : stage s <> Done) by congruence.
  destruct (Hl Hnd) as (_ & parts & cur & Hr & Hp & Hv). unfold stage_view in Hv. rewrite Hs in Hv.
  destruct Hv as (Ha & f0 & header & blocks & Hf0 & Hh & -> & Hbl & Hseq & Hby).
  unfold stage_inv in Hst. rewrite Hs in Hst. destruct Hst as (f1 & [E _] & Ho & Hpend & Hle & Hlen & _).
  rewrite Hf0 in E. injection E as <-. exists f0, parts, header, blocks. split; [done |]. constructor; try done.
  - intros Hx. pose proof (static_single _ _ (base_static _ _ Hb) Hx). apply lookup_lt_Some in Hf0. lia.
  - by rewrite app_nil_r.
  - unfold chunk in Hlen. rewrite length_take, length_drop in Hlen. lia.
  - destruct (last blocks) as [b |] eqn:El; [change (0 < length b)%nat | cbn; lia]. apply last_Some in El as [l ->].
    apply Forall_app in Hbl as [_ Hbl]. apply Forall_cons in Hbl as [Hbl _]. unfold block_len in Hbl. lia.
Qed.

(** The first block again, now with a CRC. *)
Lemma line_switch fs0 s v now s' e r :
  inv fs0 s -> line_inv fs0 s v -> stage s = DataAck -> time_ok (options s) now ->
  switch_to_crc s = Some s' -> retry s' now e = Some r -> line_post fs0 s v r.
Proof.
  intros Hi Hl Hs Ht Hsw Hr. assert (Hnd : stage s <> Done) by congruence.
  destruct (switch_to_crc_inv fs0 s Hi Hs) as (s1 & E & Hi' & Hs' & Ho' & _). rewrite Hsw in E. injection E as <-.
  unfold switch_to_crc in Hsw. destruct (crc s) eqn:Hc; [injection Hsw as <-; by eapply line_retry |].
  destruct (_ <? 3)%nat in Hsw; [done |]. injection Hsw as Es.
  destruct (retry_ok s' now e) as [Er | (_ & d & Er)]; [by rewrite Ho' | |]; rewrite Er in Hr; injection Hr as <-.
  { destruct (line_fail fs0 s' v e) as [H1 H2]; [congruence |]. split; [done |]. by rewrite <- Es in *. }
  destruct (data_ack_sent fs0 s v Hi Hl Hs) as (f0 & parts & header & blocks & Hf0 & Hbs).
  destruct Hi' as (_ & _ & Hst). unfold stage_inv in Hst. rewrite Hs' in Hst.
  destruct Hst as (f1 & _ & _ & _ & _ & _ & block & Hblock & Hcb & _ & Hpk).
  set (data := chunk f1 s' ++ _) in Hpk.
  assert (Hdl : block_len data) by (unfold block_len, data; rewrite length_app, length_replicate; lia).
  assert (Hq : sequence s' = sequence s) by (by rewrite <- Es).
  destruct (send_new v _ (last_packet s') (Block (sequence s) data) (bs_reads _ _ _ _ _ _ _ _ Hbs)) as [Hv Ha];
    [rewrite Hpk, Hq; by apply read_frame_packet | eapply blocks_sent_next; [exact Hbs | right; by eexists] |].
  assert (Hne : beq (last_packet s') [] = false).
  { destruct (beq _ _) eqn:E; [| done]. apply beq_true in E. by rewrite Hpk in E. }
  rewrite Hne. split; cbn [fst snd]; rewrite Hv; [| rewrite elem_of_cons; by intros [? | ?%not_elem_of_nil]].
  intros _. split; [cbn; rewrite Hs'; by intros [? | ?] |]. exists parts, (header ++ numbered 1 blocks).
  destruct Hbs. rewrite app_nil_r in bs_bytes0. unfold stage_view. cbn [stage set_retries]. rewrite Hs'.
  cbn [last_packet set_retries]. rewrite <- Es in *. split_and!; try done. by exists f0, header, blocks.
Qed.

Lemma view_other v byte : byte <> ACK \/ outstanding v = None -> view_step v (In byte) = v.
Proof. cbn. destruct (Z.eqb_spec byte ACK); [| done]. by intros [? | ->]. Qed.

Lemma line_ack_header fs0 s v d :
  line_inv fs0 s v -> stage s = HeaderAck ->
  line_post fs0 s (view_step v (In ACK)) (set_retries (set_stage s DataStart) 0 d, []).
Proof.
  intros Hl Hs. assert (Hnd : stage s <> Done) by congruence.
  destruct (Hl Hnd) as (Hseq & parts & cur & Hr & Hp & Hv). specialize (Hseq (or_intror Hs)).
  unfold stage_view in Hv. rewrite Hs in Hv. destruct Hv as (-> & Ha & Hpr & f0 & h & Hf0 & Hh & Hpk).
  rewrite (view_ack v (last_packet s)) by done. split; [| by intros ?%not_elem_of_nil].
  intros _. split; [by intros [? | ?] |]. exists parts, [Block 0 h]. cbn [fst snd after map fold_left].
  split; [| split; [done |]].
  - rewrite app_nil_r in Hr. apply reads_ack; [done |]. rewrite Hpk. apply read_frame_packet. left. by eapply header_block_len.
  - unfold stage_view. cbn. rewrite last_snoc. split_and!; try done. exists f0. rewrite Hpr. split; [done |]. by exists h.
Qed.

Lemma line_data_start fs0 s v now b r :
  inv fs0 s -> line_inv fs0 s v -> stage s = DataStart -> time_ok (options s) now ->
  next_data (set_retries (set_crc s b) 0 (deadline s)) now = Some r -> line_post fs0 s v r.
Proof.
  intros (Hb & _ & Hst) Hl Hs Ht Hnx. assert (Hnd : stage s <> Done) by congruence.
  destruct (Hl Hnd) as (_ & parts & cur & Hr & Hp & Hv). unfold stage_view in Hv. rewrite Hs in Hv.
  destruct Hv as (_ & _ & Hpr & Hseq & f0 & Hf0 & Hh). unfold stage_inv in Hst. rewrite Hs in Hst.
  destruct Hst as (Ho & f1 & Hf). pose proof Hf as [E _]. rewrite Hf0 in E. injection E as <-.
  pose proof (current_size _ _ _ _ (base_static _ _ Hb) Hf0). set (s1 := set_retries _ _ _) in Hnx.
  assert (Hbs : blocks_sent fs0 s1 v f0 parts cur [] 0).
  { apply blocks_sent_none; try done. cbn. by rewrite Hpr. }
  assert (Hat : at_file fs0 s1 (offset s1) f0) by (cbn; by rewrite Ho).
  destruct (line_next_data fs0 s1 v now f0 parts cur [] 0 r Hbs Hat) as [H1 H2];
    [cbn; lia | done | done | done | by split].
Qed.

Lemma line_ack_batch fs0 s v :
  inv fs0 s -> line_inv fs0 s v -> stage s = BatchAck ->
  line_post fs0 s (view_step v (In ACK)) (set_stage s Done, [Finished (Ok tt)]).
Proof.
  intros (_ & _ & Hst) Hl Hs. assert (Hnd : stage s <> Done) by congruence.
  destruct (Hl Hnd) as (_ & parts & cur & Hr & Hp & Hv). unfold stage_view in Hv. rewrite Hs in Hv.
  destruct Hv as (-> & Ha & Hpr & Hpk). unfold stage_inv in Hst. rewrite Hs in Hst. destruct Hst as [_ Hn].
  rewrite (view_ack v (last_packet s)) by done. split; [done |]. intros _.
  exists (concat parts ++ [Block 0 (replicate 128 0)]). rewrite app_nil_r in Hr. split.
  - apply (reads_ack v); [done |]. rewrite Hpk. apply read_frame_packet. left. apply length_replicate.
  - exists parts. rewrite Hpr in *. split; [| done]. rewrite take_ge in Hp; [done |]. by apply lookup_ge_None_1.
Qed.

Lemma line_byte fs0 s v byte now r :
  inv fs0 s -> line_inv fs0 s v -> stage s <> Done -> time_ok (options s) now -> feed_byte s byte now = Some r ->
  line_post fs0 s (view_step v (In byte)) r.
Proof.
  intros Hi Hl Hnd Ht.
  assert (Hsame : line_post fs0 s v (s, [])) by (split; [done | by intros ?%not_elem_of_nil]).
  pose proof (line_retry fs0 s v now RetryLimit r Hl Hnd Ht) as Hretry.
  pose proof (Hl Hnd) as (_ & parts & cur & _ & _ & Hv).
  unfold feed_byte. unfold stage_view in Hv. destruct (stage s) eqn:Hs; [.. | done].
  - rewrite view_other by (right; tauto). destruct (_ || _); [intros E; by eapply line_start |].
    destruct (byte =? 71); intros [= <-]; [apply line_fail; congruence | done].
  - destruct (Z.eqb_spec byte ACK) as [-> | Hack].
    + rewrite add_duration_ok by apply Ht. intros [= <-]. by apply line_ack_header.
    + rewrite view_other by (by left). destruct (_ || _); [done | by intros [= <-]].
  - rewrite view_other by (right; tauto). destruct (byte =? 71); [intros [= <-]; apply line_fail; congruence |].
    destruct (_ || _); [intros E; by eapply line_data_start | by intros [= <-]].
  - destruct (Z.eqb_spec byte ACK) as [-> | Hack].
    + destruct (next_data (accept_block s) now) as [[s' acts] |] eqn:En; [| done]. intros [= <-].
      by apply (line_ack_data _ _ _ now).
    + rewrite view_other by (by left). destruct (byte =? NAK); [done |]. destruct (_ && _); [| by intros [= <-]].
      destruct (switch_to_crc s) as [s' |] eqn:Esw; [| done]. intros E. by eapply line_switch.
  - destruct (Z.eqb_spec byte NAK) as [-> | Hnak]; [by rewrite view_other by (by left) |].
    destruct (Z.eqb_spec byte ACK) as [-> | Hack]; [by apply line_ack_eot |].
    rewrite view_other by (by left). by intros [= <-].
  - destruct (Z.eqb_spec byte ACK) as [-> | Hack]; [intros [= <-]; by apply line_ack_batch |].
    rewrite view_other by (by left). destruct (_ || _); [done | by intros [= <-]].
Qed.

Lemma line_one fs0 s v byte now r :
  inv fs0 s -> line_inv fs0 s v -> stage s <> Done -> time_ok (options s) now -> feed_one s byte now = Some r ->
  line_post fs0 s (view_step v (In byte)) r.
Proof.
  intros Hi Hl Hnd Ht. unfold feed_one. destruct (Z.eqb_spec byte CAN) as [-> |].
  - rewrite view_other by (by left). destruct (last_can s).
    + pose proof (line_fail fs0 s v RemoteCancelled Hnd) as Hf. destruct (fail s RemoteCancelled) as [s1 acts].
      by intros [= <-].
    + intros [= <-]. split; [done | by intros ?%not_elem_of_nil].
  - intros E. apply (line_byte fs0 (set_last_can s false) v byte now r); try done. by apply (inv_core fs0 s).
Qed.

(** What a stretch of the trace leaves. *)
Definition line_run (fs0 : list XymodemFile) (s : Sender) (v : view) (r : Sender * list Item) : Prop :=
  line_inv fs0 r.1 (fold_left view_step r.2 v)
  /\ (Finished (Ok tt) ∈ outs r.2 -> complete fs0 (protocol s) (fold_left view_step r.2 v)).

Lemma line_run_nil fs0 s v : line_inv fs0 s v -> line_run fs0 s v (s, []).
Proof. intros Hl. split; [done | by intros ?%not_elem_of_nil]. Qed.

Lemma finished_done fs0 s s1 acts :
  post fs0 s (s1, acts) -> is_done s = false -> Finished (Ok tt) ∈ acts -> is_done s1 = true.
Proof.
  intros [_ Hf _ _ _] Hd Hin. cbn [fst snd] in Hf. apply fins_pos in Hin; [| done].
  unfold done_bit in Hf. rewrite Hd in Hf. destruct (is_done s1); [done | lia].
Qed.

Lemma line_run_app fs0 s v s1 t1 s2 t2 :
  line_run fs0 s v (s1, t1) -> line_run fs0 s1 (fold_left view_step t1 v) (s2, t2) -> protocol s1 = protocol s ->
  (Finished (Ok tt) ∈ outs t1 -> t2 = []) -> line_run fs0 s v (s2, t1 ++ t2).
Proof.
  intros [H1 H2] [G1 G2] Hp Hd. unfold line_run. cbn [fst snd] in *. rewrite fold_left_app, outs_app.
  split; [done |]. rewrite elem_of_app. intros [Hin | Hin]; [| rewrite <- Hp; by apply G2].
  rewrite (Hd Hin). by apply H2.
Qed.

Lemma line_loop fs0 input now : forall s v s' t,
  inv fs0 s -> line_inv fs0 s v -> time_ok (options s) now -> trace_loop s input now = Some (s', t) ->
  line_run fs0 s v (s', t).
Proof.
  induction input as [| byte input IH]; intros s v s' t Hi Hl Ht; cbn [trace_loop].
  { intros [= <- <-]. by apply line_run_nil. }
  destruct (is_done s) eqn:Hd; [intros [= <- <-]; by apply line_run_nil |].
  destruct (feed_one_post fs0 s byte now Hi Ht) as ([s1 acts] & E1 & Hp). rewrite E1.
  destruct (trace_loop s1 input now) as [[s2 t2] |] eqn:E2; [| done]. intros [= <- <-].
  assert (Hnd : stage s <> Done) by (intros E; unfold is_done in Hd; by rewrite E in Hd).
  pose proof (line_one fs0 s v byte now (s1, acts) Hi Hl Hnd Ht E1) as [L1 L2]. cbn [fst snd] in L1, L2.
  rewrite app_comm_cons. apply (line_run_app _ _ _ s1).
  - split; [exact L1 |]. cbn [snd]. change (outs (In byte :: map Out acts)) with (outs (map Out acts)).
    rewrite outs_map. exact L2.
  - apply (IH s1); [by apply (post_inv _ _ _ Hp) | exact L1 | by rewrite (post_same_options _ _ _ _ Hp) | done].
  - by apply (post_same_protocol _ _ _ _ Hp).
  - change (outs (In byte :: map Out acts)) with (outs (map Out acts)). rewrite outs_map.
    intros Hin. pose proof (finished_done _ _ _ _ Hp Hd Hin) as Hd1.
    destruct input; cbn [trace_loop] in E2; [by injection E2 |]. rewrite Hd1 in E2. by injection E2.
Qed.

(** Reporting progress is not seen on the line. *)
Lemma line_progress fs0 s v : line_inv fs0 s v ->
  line_inv fs0 (initial_progress s).1 v /\ after v (initial_progress s).2 = v /\ (Finished (Ok tt) ∉ (initial_progress s).2)
  /\ options (initial_progress s).1 = options s /\ protocol (initial_progress s).1 = protocol s.
Proof.
  intros Hl. unfold initial_progress. destruct (initial_progress_emitted s); cbn [fst snd].
  - split_and!; try done. apply not_elem_of_nil.
  - split_and!; try done. by intros ?%list_elem_of_singleton.
Qed.

Lemma line_event fs0 s v e s' t :
  inv fs0 s -> line_inv fs0 s v -> event_ok (options s) e -> trace_event s e = Some (s', t) -> line_run fs0 s v (s', t).
Proof.
  intros Hi Hl Ht. destruct (line_progress fs0 s v Hl) as (P1 & P2 & P3 & P4 & P5).
  pose proof (initial_progress_post fs0 s Hi) as Hip. pose proof (initial_progress_stage s) as Hst.
  destruct e as [input now | now |]; cbn [trace_event handle event_ok] in *.
  - destruct (is_done s) eqn:Hd; [intros [= <- <-]; by apply line_run_nil |].
    destruct (initial_progress s) as [s1 acts]. cbn [fst snd] in *.
    destruct (trace_loop s1 input now) as [[s2 t2] |] eqn:E; [| done]. intros [= <- <-].
    destruct (line_loop fs0 input now s1 v s2 t2) as [L1 L2]; [apply Hip | done | by rewrite P4 | done |].
    unfold line_run. cbn [fst snd] in *. rewrite fold_left_app, outs_app, outs_map. fold (after v acts). rewrite P2.
    split; [done |]. rewrite elem_of_app, <- P5. intros [? | ?]; [done | by apply L2].
  - unfold tick. destruct (is_done s) eqn:Hd; [intros [= <- <-]; by apply line_run_nil |].
    destruct (initial_progress s) as [s1 acts]. cbn [fst snd] in *.
    assert (Hnd : stage s1 <> Done) by (rewrite Hst; intros E; unfold is_done in Hd; by rewrite E in Hd).
    destruct (_ <=? now); [| intros [= <- <-]; unfold line_run; cbn [fst snd]; fold (after v acts); rewrite P2, outs_map; by split].
    destruct (retry s1 now TimedOut) as [[s2 acts2] |] eqn:E; [| done]. intros [= <- <-].
    destruct (line_retry fs0 s1 v now TimedOut (s2, acts2)) as [L1 L2]; [done | done | by rewrite P4 | done |].
    unfold line_run. cbn [fst snd] in *. fold (after v (acts ++ acts2)). rewrite after_app, P2, outs_map.
    split; [done |]. rewrite elem_of_app, <- P5. intros [? | ?]; [done | by apply L2].
  - unfold cancel. destruct (fail s Cancelled) as [s1 acts] eqn:E. intros [= <- <-].
    destruct (decide (stage s = Done)) as [Hd | Hnd].
    { unfold fail, is_done in E. rewrite Hd in E. injection E as <- <-. by apply line_run_nil. }
    pose proof (line_fail fs0 s v Cancelled Hnd) as [L1 L2]. rewrite E in L1, L2. cbn [fst snd] in *.
    split; cbn [fst snd]; [exact L1 |]. rewrite outs_map. exact L2.
Qed.


Lemma done_traces s events : is_done s = true -> trace s events = Some (s, []).
Proof.
  intros Hd. induction events as [| e events IH]; cbn [trace]; [done |].
  assert (He : trace_event s e = Some (s, []))
    by (destruct e; cbn [trace_event handle]; unfold tick, cancel, fail; by rewrite Hd).
  by rewrite He, IH.
Qed.

Lemma line_trace fs0 events : forall s v s' t,
  inv fs0 s -> line_inv fs0 s v -> Forall (event_ok (options s)) events -> trace s events = Some (s', t) ->
  line_run fs0 s v (s', t).
Proof.
  induction events as [| e events IH]; intros s v s' t Hi Hl Ht; cbn [trace].
  { intros [= <- <-]. by apply line_run_nil. }
  apply Forall_cons in Ht as [He Ht]. destruct (handle_post fs0 s e Hi He) as ([s1 acts] & E1 & Hp).
  destruct (trace_event_outs s e s1 acts E1) as (t1 & Et & Ho). rewrite Et.
  destruct (trace s1 events) as [[s2 t2] |] eqn:E2; [| done]. intros [= <- <-].
  pose proof (line_event fs0 s v e s1 t1 Hi Hl He Et) as Hr. apply (line_run_app _ _ _ s1); [done | | |].
  - apply (IH s1); [apply (post_inv _ _ _ Hp) | apply Hr | by rewrite (post_same_options _ _ _ _ Hp) | done].
  - by apply (post_same_protocol _ _ _ _ Hp).
  - rewrite Ho. intros Hin. assert (Hd1 : is_done s1 = true).
    { destruct (is_done s) eqn:Hd; [by destruct (post_done _ _ _ Hp Hd) | by eapply finished_done]. }
    rewrite (done_traces s1 events Hd1) in E2. by injection E2.
Qed.

Lemma new_line lower p fs o s : new lower p fs o = Ok s -> line_inv fs s (View None []) /\ protocol s = p.
Proof.
  unfold new. destruct (bool_decide (fs = [])); [done |]. destruct (_ && _); [done |]. destruct (_ || _); [done |].
  destruct (check_files lower p fs [] 0) as [total |]; [| done]. cbn. intros [= <-]. split; [| done].
  intros _. split; [done |]. exists [], []. split; [done |]. split; [constructor | done].
Qed.

(** ** A receiver *)

(** An XMODEM receiver: a block is stored when it has the number that comes
    next, a block with the number before is a repeat, and any other ends the
    transfer, as does anything after the end of the file. *)
Record Receiver := Recv { expected : Z; stored : list Z; ended : bool }.

Definition receive (r : Receiver) (p : list Z) : option Receiver :=
  if ended r then None
  else match read_frame p with
       | Some (Block number data) =>
           if number =? expected r then Some (Recv (wrap 8 (expected r + 1)) (stored r ++ data) false)
           else if number =? wrap 8 (expected r - 1) then Some r else None
       | Some EndOfFile => Some (Recv (expected r) (stored r) true)
       | None => None
       end.

Fixpoint receive_all (r : Receiver) (acts : list XymodemAction) : option Receiver :=
  match acts with
  | [] => Some r
  | Send p :: acts => let* r' := receive r p in receive_all r' acts
  | _ :: acts => receive_all r acts
  end.

Lemma receive_all_app r a b : receive_all r (a ++ b) = let* r' := receive_all r a in receive_all r' b.
Proof.
  revert r. induction a as [| x a IH]; intros r; cbn [app receive_all]; [done |].
  destruct x; cbn; [| apply IH | apply IH]. destruct (receive r packet); [apply IH | done].
Qed.

Lemma receive_block q acc data c :
  block_len data -> receive (Recv q acc false) (packet q data c) = Some (Recv (wrap 8 (q + 1)) (acc ++ data) false).
Proof. intros Hl. unfold receive. cbn [ended]. rewrite read_frame_packet by done. cbn. by rewrite Z.eqb_refl. Qed.

(** The padding that fills the last block of 128 bytes. *)
Definition padding (content : list Z) : list Z := replicate (Z.to_nat ((- len content) mod 128)) 0x1a.

Lemma padding_full l : 128 <= len l -> padding (drop 128 l) = padding l.
Proof.
  intros Hl. unfold padding. rewrite length_drop. do 2 f_equal.
  replace (- Z.of_nat (length l - 128)) with (- len l + 1 * 128) by lia. by rewrite Z_mod_plus_full.
Qed.

Lemma padding_short l : 0 < len l < 128 -> padding l = replicate (128 - length l) 0x1a.
Proof.
  intros Hl. unfold padding. f_equal. replace (- len l) with (128 - len l + (-1) * 128) by lia.
  rewrite Z_mod_plus_full, Z.mod_small by lia. lia.
Qed.

(** An acknowledged EOT ends an XMODEM upload, whatever follows. *)
Lemma eot_acknowledged s input now r :
  protocol s = Xmodem -> stage s = EotAck ->
  exists s' acts, feed_loop s (ACK :: input) now = Some (s', acts)
  /\ Finished (Ok tt) ∈ acts /\ receive_all r acts = Some r.
Proof.
  intros Hp Hs. cbn [feed_loop]. rewrite is_done_false by congruence. unfold feed_one.
  cbn [Z.eqb Pos.eqb]. unfold feed_byte. cbn [stage set_last_can]. rewrite Hs.
  cbn [Z.eqb Pos.eqb]. unfold finish_file. cbn [protocol next_file set_last_can].
  rewrite bool_decide_eq_true_2 by done.
  set (s1 := set_stage _ Done).
  assert (Hf : feed_loop s1 input now = Some (s1, [])) by by destruct input.
  rewrite Hf. eexists _, _. split; [done |]. split; [| done].
  rewrite !elem_of_app, !elem_of_cons. tauto.
Qed.

(** An acknowledged block leads to the next one. *)
Lemma feed_loop_ack s input now s2 acts2 :
  stage s = DataAck -> next_data (accept_block (set_last_can s false)) now = Some (s2, acts2) ->
  feed_loop s (ACK :: input) now =
  let* (s3, acts3) := feed_loop s2 input now in
  Some (s3, (Progress (progress (accept_block (set_last_can s false))) :: acts2) ++ acts3).
Proof.
  intros Hs H2. cbn [feed_loop]. rewrite is_done_false by congruence. unfold feed_one.
  cbn [Z.eqb Pos.eqb]. unfold feed_byte. cbn [stage set_last_can]. rewrite Hs.
  cbn [Z.eqb Pos.eqb]. by rewrite H2.
Qed.

Lemma next_data_block s now nm sz rest :
  protocol s = Xmodem -> time_ok (options s) now -> files s !! file_index s = Some (mkFile nm sz rest) ->
  0 < sz - offset s <= len rest ->
  let n := Z.min (sz - offset s) 128 in
  let data := take (Z.to_nat n) rest ++ replicate (128 - Z.to_nat n) 0x1a in
  block_len data /\
  next_data s now
    = Some (set_packet (read_block s (<[file_index s := mkFile nm sz (drop (Z.to_nat n) rest)]> (files s)) n)
              (packet (sequence s) data (crc s)) (now + response_timeout (options s)),
            [Send (packet (sequence s) data (crc s))]).
Proof.
  intros Hp Ht Hf Hr n data. split.
  { left. unfold data. rewrite length_app, length_take, length_replicate. lia. }
  unfold next_data. rewrite Hf. cbn [size reader name].
  destruct (Z.ltb_spec (sz - offset s) 0); [lia |].
  destruct (Z.eqb_spec (sz - offset s) 0); [lia |].
  rewrite bool_decide_eq_false_2 by congruence. cbn [andb]. fold n.
  destruct (Nat.ltb_spec (length rest) (Z.to_nat n)); [lia |].
  rewrite send_ok by done. by rewrite Z2Nat.id by lia.
Qed.

Lemma deliver_end n s nm sz now acc :
  protocol s = Xmodem -> time_ok (options s) now -> files s !! file_index s = Some (mkFile nm sz []) ->
  sz - offset s = 0 ->
  exists s1 acts1 s' acts q,
    next_data s now = Some (s1, acts1)
    /\ feed_loop s1 (replicate (S n) ACK) now = Some (s', acts)
    /\ Finished (Ok tt) ∈ acts
    /\ receive_all (Recv (sequence s) acc false) (acts1 ++ acts) = Some (Recv q (acc ++ [] ++ padding []) true).
Proof.
  intros Hp Ht Hf Hsz.
  destruct (eot_acknowledged (set_packet (set_stage s EotAck) [EOT] (now + response_timeout (options s)))
    (replicate n ACK) now (Recv (sequence s) acc true)) as (s' & acts & Hl & Hfin & Hrec); [done | done |].
  eexists _, _, s', acts, (sequence s). split; [| split; [exact Hl | split; [done |]]].
  - unfold next_data. rewrite Hf. cbn [size reader]. rewrite Hsz. by rewrite send_ok.
  - cbn. rewrite app_nil_r. exact Hrec.
Qed.

Lemma deliver n s nm sz rest now acc :
  protocol s = Xmodem -> time_ok (options s) now -> stage s <> Done ->
  files s !! file_index s = Some (mkFile nm sz rest) ->
  0 <= offset s -> sz - offset s = len rest -> len rest <= 128 * Z.of_nat n ->
  exists s1 acts1 s' acts q,
    next_data s now = Some (s1, acts1)
    /\ feed_loop s1 (replicate (S n) ACK) now = Some (s', acts)
    /\ Finished (Ok tt) ∈ acts
    /\ receive_all (Recv (sequence s) acc false) (acts1 ++ acts) = Some (Recv q (acc ++ rest ++ padding rest) true).
Proof.
  revert s rest acc. induction n as [| n IH]; intros s rest acc Hp Ht Hs Hf Ho Hsz Hn;
    (destruct (decide (rest = [])) as [-> | Hne]; [by apply (deliver_end _ s nm sz) |]);
    (assert (0 < len rest) by (destruct rest; [done | cbn; lia])); [lia |].
  destruct (next_data_block s now nm sz rest) as [Hdl Hnd]; [done .. | lia |].
  set (m := Z.min (sz - offset s) 128) in *. set (data := _ ++ replicate _ _) in *.
  set (s1 := set_packet _ _ _) in Hnd. assert (Hm : 0 < m <= 128 /\ m <= len rest) by lia.
  destruct (IH (accept_block (set_last_can s1 false)) (drop (Z.to_nat m) rest) (acc ++ data))
    as (s2 & acts2 & s' & acts & q & H2 & Hl & Hfin & Hrec); try done.
  - cbn. apply list_lookup_insert_eq. by apply lookup_lt_Some in Hf.
  - cbn. lia.
  - cbn. rewrite length_drop. lia.
  - rewrite length_drop. lia.
  - exists s1, [Send (packet (sequence s) data (crc s))], s',
      (Progress (progress (accept_block (set_last_can s1 false))) :: acts2 ++ acts), q.
    split; [exact Hnd |]. split; [| split].
    + change (replicate (S (S n)) ACK) with (ACK :: replicate (S n) ACK).
      rewrite (feed_loop_ack s1 _ now s2 acts2) by done. rewrite Hl. done.
    + rewrite elem_of_cons, elem_of_app. tauto.
    + cbn [app receive_all]. rewrite receive_block by done. etransitivity; [exact Hrec |].
      do 2 f_equal. rewrite <- app_assoc. f_equal. unfold data. destruct (decide (m = 128)) as [Hm128 | Hlt].
      * rewrite Hm128. cbn [Nat.sub replicate]. change (Z.to_nat 128) with 128%nat.
        rewrite app_nil_r, app_assoc, take_drop, padding_full by lia. done.
      * rewrite drop_ge, (take_ge rest) by lia. rewrite (padding_short rest) by lia. cbn. rewrite app_nil_r.
        do 2 f_equal. lia.
Qed.

(** ** Properties *)

(** C16: whatever bytes the receiver sends, and however ticks and cancellation
    interleave, a sender made by [new] does not panic as long as the timeouts can
    be added to the times it is given; it reports [Finished] at most once and
    exactly when it stops; and when it reports success, the packets that an ACK
    answered while each was the last one sent, in their order and without
    repeats, are exactly the frames of its files: header, consecutively numbered
    blocks holding every byte of the file and less than a block of padding, end
    of file, and the empty header that ends a YMODEM batch. *)
Theorem xymodem_run_safe lower p fs o s events :
  new lower p fs o = Ok s -> Forall (fun f => 0 <= size f) fs -> 0 <= max_retries o <= U8_MAX ->
  Forall (event_ok o) events ->
  exists s' t, run s events = Some (s', outs t) /\ trace s events = Some (s', t)
  /\ fins (outs t) = done_bit s' /\ 0 <= retries s' <= max_retries (options s')
  /\ (Finished (Ok tt) ∈ outs t ->
      accepted_bytes s' = sum_sizes fs
      /\ exists frames, map read_frame (acknowledged (seen t)) = map Some frames /\ batch_frames p fs frames).
Proof.
  intros Hn Hs Hm Ht. destruct (new_inv lower p fs o s Hn Hs Hm) as (Hi & Hst & Ho).
  destruct (new_line lower p fs o s Hn) as [Hl Hp]. rewrite <- Ho in Ht.
  destruct (run_post fs s events Hi Ht) as ([s' acts] & Hr & [(Hb & _) Hf Hok _ _]). cbn [fst snd] in *.
  destruct (trace_outs s events s' acts Hr) as (t & Htr & <-). exists s', t.
  split; [done |]. split; [done |]. split; [| split; [apply Hb |]].
  - rewrite Hf. unfold done_bit at 2. rewrite is_done_false by congruence. lia.
  - intros Hin. split; [rewrite (Hok Hin); apply (base_total _ _ Hb) |].
    destruct (line_trace fs events s (View None []) s' t Hi Hl Ht Htr) as [_ Hc]. rewrite Hp in Hc. by apply Hc.
Qed.

Definition succeeds (acts : list XymodemAction) : bool :=
  existsb (fun a => match a with Finished (Ok _) => true | _ => false end) acts.

Lemma succeeds_spec acts : succeeds acts = true -> Finished (Ok tt) ∈ acts.
Proof.
  unfold succeeds. rewrite existsb_exists. intros (a & Hin & Ha). apply list_elem_of_In in Hin.
  by destruct a as [| | [[] |]].
Qed.

(** A YMODEM upload of one small file whose first block is refused once. *)
Lemma xymodem_run_safe_witness :
  let f := mkFile (bs "a.bin") 3 [1; 2; 3] in
  exists s s' t frames, new (fun l => l) Ymodem [f] default_options = Ok s
  /\ trace s [Tick 0; Feed [67; 6; 67; 21; 6; 6] 1; Feed [67; 6] 2; Cancel] = Some (s', t)
  /\ map read_frame (acknowledged (seen t)) = map Some frames /\ batch_frames Ymodem [f] frames.
Proof.
  intros f. eexists. destruct (xymodem_run_safe (fun l => l) Ymodem [f] default_options _
    [Tick 0; Feed [67; 6; 67; 21; 6; 6] 1; Feed [67; 6] 2; Cancel] eq_refl)
    as (s' & t & Hr & Ht & _ & _ & Hok).
  - by repeat constructor.
  - cbn. lia.
  - repeat constructor; vm_compute; discriminate.
  - destruct Hok as (_ & frames & H1 & H2); [| exists s', t, frames; exact (conj eq_refl (conj Ht (conj H1 H2)))].
    apply succeeds_spec. change (succeeds (outs t)) with (match Some (s', outs t) with Some (_, l) => succeeds l | None => false end).
    rewrite <- Hr. vm_compute. reflexivity.
Defined.


