(* ===== verification/Zmodem.v ===== *)
(** * ZMODEM detection: the detector of [zmodem.rs] (zzclawterm-transport)

    The detector withholds the bytes of a header that a read has cut.  Instants
    are milliseconds in [Z].  [Feed] and [Flush] are the calls the session loop
    makes on it. *)
From stdpp Require Import base list numbers strings.
From Stdlib Require Import ZArith Lia.
From S2P Require Import Prelude.

Abbreviation ZPAD := 0x2A.
Abbreviation ZDLE := 0x18.
Abbreviation ZHEX := 0x42.
Abbreviation ZBIN := 0x41.
Abbreviation ZBIN32 := 0x43.
Definition ZMODEM_HEADER_LEN : nat := 4.
Definition ZMODEM_ASTERISK_IDLE_TIMEOUT : Z := 50.
Definition ZMODEM_HEADER_IDLE_TIMEOUT : Z := 1000.

Inductive ZmodemDirection := Download | Upload.

#[global] Instance zmodem_direction_eq_dec : EqDecision ZmodemDirection.
Proof. solve_decision. Defined.

Inductive ZmodemDetectResult :=
| NoMatch (passthrough : list Z)
| Detected (direction : ZmodemDirection) (passthrough initial_bytes : list Z).

Record ZmodemDetector := mkDetector {
  pending : list Z;
  pending_updated_at : option Z;
  pending_starts_at_line_start : bool
}.

Definition detector_new : ZmodemDetector := mkDetector [] None true.

Definition is_idle (d : ZmodemDetector) : bool := beq (pending d) [].

Definition contains (b : Z) (data : list Z) : bool := bool_decide (b ∈ data).

Definition output_may_contain_trigger (data : list Z) : bool :=
  contains ZDLE data || ends_with [ZPAD] data || ends_with [ZPAD; ZPAD] data
  || ends_with [ZPAD; ZPAD; ZDLE] data.

Definition hex_digit (b : Z) : option Z :=
  if (48 <=? b) && (b <=? 57) then Some (b - 48)
  else if (97 <=? b) && (b <=? 102) then Some (b - 97 + 10)
  else if (65 <=? b) && (b <=? 70) then Some (b - 65 + 10)
  else None.

Definition parse_hex_frame_type (data : list Z) : option Z :=
  match data with
  | b0 :: b1 :: _ =>
      let* hi := hex_digit b0 in
      let* lo := hex_digit b1 in
      Some (Z.lor (wrap 8 (Z.shiftl hi 4)) lo)
  | _ => None
  end.

Definition is_kind (b : Z) : bool := (b =? ZHEX) || (b =? ZBIN) || (b =? ZBIN32).

(** One turn of the loop of [detect_zmodem_start], at [data[start..]]. *)
Definition detect_here (data : list Z) : option ZmodemDirection :=
  match data with
  | h0 :: h1 :: h2 :: h3 :: remaining =>
      if negb (h0 =? ZPAD) || negb (h1 =? ZPAD) || negb (h2 =? ZDLE) || negb (is_kind h3)
      then None
      else
        match (if h3 =? ZHEX then parse_hex_frame_type remaining else head remaining) with
        | Some t => if t =? 0 then Some Download else if t =? 1 then Some Upload else None
        | None => None
        end
  | _ => None
  end.

Fixpoint detect_from (data : list Z) (start : nat) : option (ZmodemDirection * nat) :=
  match detect_here data with
  | Some d => Some (d, start)
  | None => match data with [] => None | _ :: data' => detect_from data' (S start) end
  end.

Definition detect_zmodem_start (data : list Z) : option (ZmodemDirection * nat) := detect_from data 0.

Definition is_possible_zmodem_prefix (data : list Z) : bool :=
  match data with
  | [] => true
  | [a] => a =? ZPAD
  | [a; b] => (a =? ZPAD) && (b =? ZPAD)
  | [a; b; c] => (a =? ZPAD) && (b =? ZPAD) && (c =? ZDLE)
  | [a; b; c; kind] => (a =? ZPAD) && (b =? ZPAD) && (c =? ZDLE) && is_kind kind
  | [a; b; c; k; first_hex] =>
      (a =? ZPAD) && (b =? ZPAD) && (c =? ZDLE) && (k =? ZHEX)
      && bool_decide (is_Some (hex_digit first_hex))
  | _ => false
  end.

Definition is_newline (o : option Z) : bool :=
  match o with Some b => (b =? 10) || (b =? 13) | None => false end.

Definition is_line_start (data : list Z) (start : nat) (data_starts_at_line_start : bool) : bool :=
  if (start =? 0)%nat then data_starts_at_line_start else is_newline (data !! (start - 1)%nat).

Definition ends_at_line_start (data : list Z) : bool := is_newline (last data).

Definition RZ_RECEIVE_PROMPT : list Z := bs "z waiting to receive.".

Fixpoint has_window (w data : list Z) : bool :=
  starts_with w data || match data with [] => false | _ :: data' => has_window w data' end.

Definition has_rz_receive_prompt_before (data : list Z) (start : nat) : bool :=
  has_window RZ_RECEIVE_PROMPT (take start data).

(** The loop of [retained_prefix_start], over the suffix lengths from [len] down
    to 1. *)
Fixpoint retained_loop (data : list Z) (line_start : bool) (len : nat) : nat :=
  match len with
  | O => length data
  | S len' =>
      let start := (length data - len)%nat in
      let suffix := drop start data in
      if is_possible_zmodem_prefix suffix
         && (contains ZDLE suffix || is_line_start data start line_start
             || has_rz_receive_prompt_before data start)
      then start else retained_loop data line_start len'
  end.

Definition retained_prefix_start (data : list Z) (line_start : bool) : nat :=
  retained_loop data line_start (Nat.min (length data) (ZMODEM_HEADER_LEN + 1)).

Definition rz_patterns : list (list Z) :=
  [bs "rz -e -y" ++ [13; 10]; bs "rz -e -y" ++ [13]; bs "rz -e -y";
   bs "rz -e" ++ [13; 10]; bs "rz -e" ++ [13]; bs "rz -e";
   bs "rz" ++ [13; 10]; bs "rz" ++ [13]; bs "rz"].

Fixpoint strip_first (pats : list (list Z)) (data : list Z) : list Z :=
  match pats with
  | [] => data
  | pat :: pats' =>
      if ends_with pat data then take (length data - length pat) data else strip_first pats' data
  end.

Definition strip_rz_echo (data : list Z) : list Z := strip_first rz_patterns data.

Definition feed_at (d : ZmodemDetector) (data : list Z) (now : Z)
  : ZmodemDetector * ZmodemDetectResult :=
  let p := pending d ++ data in
  let updated := if beq data [] then pending_updated_at d else Some now in
  match detect_zmodem_start p with
  | Some (direction, header_start) =>
      let passthrough := take header_start p in
      (detector_new,
       Detected direction
         (if bool_decide (direction = Upload) then strip_rz_echo passthrough else passthrough)
         (drop header_start p))
  | None =>
      let keep_from := retained_prefix_start p (pending_starts_at_line_start d) in
      let passthrough := take keep_from p in
      let rest := drop keep_from p in
      (mkDetector rest
         (if beq rest [] then None else updated)
         (if (0 <? keep_from)%nat then ends_at_line_start passthrough
          else pending_starts_at_line_start d),
       NoMatch passthrough)
  end.

Definition flush_pending_if_idle (d : ZmodemDetector) (now : Z) : ZmodemDetector * list Z :=
  match pending_updated_at d with
  | None => (d, [])
  | Some updated_at =>
      let timeout := if contains ZDLE (pending d) then ZMODEM_HEADER_IDLE_TIMEOUT
                     else ZMODEM_ASTERISK_IDLE_TIMEOUT in
      if Z.max 0 (now - updated_at) <? timeout then (d, [])
      else (mkDetector [] None (ends_at_line_start (pending d)), pending d)
  end.

Definition reset (d : ZmodemDetector) : ZmodemDetector := mkDetector [] None true.

(** ** Calls in sequence *)

Inductive Call := Feed (data : list Z) (now : Z) | Flush (now : Z).

Definition fed (c : Call) : list Z := match c with Feed data _ => data | Flush _ => [] end.

(** The text shown until the first detection, the detection if there is one, and
    the calls after it. *)
Fixpoint watch (d : ZmodemDetector) (calls : list Call)
  : list Z * option (ZmodemDirection * list Z * list Z) * ZmodemDetector :=
  match calls with
  | [] => ([], None, d)
  | Feed data now :: calls' =>
      match feed_at d data now with
      | (d', Detected dir passthrough initial) => ([], Some (dir, passthrough, initial), d')
      | (d', NoMatch passthrough) =>
          let '(shown, r, d'') := watch d' calls' in (passthrough ++ shown, r, d'')
      end
  | Flush now :: calls' =>
      let (d', bytes) := flush_pending_if_idle d now in
      let '(shown, r, d'') := watch d' calls' in (bytes ++ shown, r, d'')
  end.

(** ** Retained bytes *)

Lemma retained_loop_bound data ls n :
  (n <= length data)%nat -> (length data - n <= retained_loop data ls n <= length data)%nat.
Proof.
  induction n as [| n IH]; intros Hn; cbn [retained_loop]; [lia |].
  destruct (_ && _); [lia |]. specialize (IH ltac:(lia)). lia.
Qed.

Lemma feed_nomatch d data now d' pass :
  feed_at d data now = (d', NoMatch pass) ->
  pending d ++ data = pass ++ pending d' /\ (length (pending d') <= 5)%nat.
Proof.
  unfold feed_at. destruct (detect_zmodem_start _) as [[dir hs] |]; [done |]. intros H. simplify_eq/=.
  rewrite take_drop. split; [done |]. rewrite length_drop. unfold retained_prefix_start.
  pose proof (retained_loop_bound (pending d ++ data) (pending_starts_at_line_start d)
    (Nat.min (length (pending d ++ data)) (ZMODEM_HEADER_LEN + 1)) ltac:(lia)).
  unfold ZMODEM_HEADER_LEN in *. lia.
Qed.

Lemma ends_with_split s l : ends_with s l = true -> exists r, l = r ++ s.
Proof.
  unfold ends_with, starts_with. destruct (strip_prefix (rev s) (rev l)) as [r |] eqn:E; [| done].
  intros _. apply strip_prefix_Some in E. exists (rev r).
  rewrite <- (rev_involutive l), E, rev_app_distr, rev_involutive. done.
Qed.

Lemma strip_first_split pats l : exists e, l = strip_first pats l ++ e /\ (e = [] \/ e ∈ pats).
Proof.
  induction pats as [| p pats IH]; cbn [strip_first].
  - exists []. rewrite app_nil_r. tauto.
  - destruct (ends_with p l) eqn:E.
    + destruct (ends_with_split p l E) as [r ->]. exists p.
      rewrite length_app. replace (length r + length p - length p)%nat with (length r) by lia.
      rewrite take_app_length. split; [done |]. right. apply elem_of_cons. tauto.
    + destruct IH as (e & He & Hin). exists e. split; [done |]. rewrite elem_of_cons. tauto.
Qed.

Lemma detect_from_spec data start dir hs :
  detect_from data start = Some (dir, hs) ->
  exists k, hs = (start + k)%nat /\ (k <= length data)%nat /\ detect_here (drop k data) = Some dir.
Proof.
  revert start. induction data as [| b data IH]; intros start; cbn [detect_from]; [done |].
  destruct (detect_here (b :: data)) as [dir' |] eqn:E.
  - intros H. simplify_eq. exists 0%nat. split; [lia |]. split; [lia | done].
  - intros H. destruct (IH (S start) H) as (k & -> & Hk & Hd). exists (S k).
    split; [lia |]. split; [cbn; lia | done].
Qed.

Lemma feed_detected d data now d' dir pass initial :
  feed_at d data now = (d', Detected dir pass initial) ->
  detect_here initial = Some dir /\ d' = detector_new
  /\ exists echo, pending d ++ data = pass ++ echo ++ initial
     /\ (echo = [] \/ dir = Upload /\ echo ∈ rz_patterns).
Proof.
  unfold feed_at. destruct (detect_zmodem_start (pending d ++ data)) as [[dir' hs] |] eqn:E; [| done].
  intros H. simplify_eq/=. destruct (detect_from_spec _ _ _ _ E) as (k & -> & Hk & Hd).
  split; [done |]. split; [done |]. set (p := pending d ++ data) in *. cbn [Nat.add].
  destruct (strip_first_split rz_patterns (take k p)) as (e & He & Hin).
  case_bool_decide as Hup.
  - exists e. split; [| tauto]. unfold strip_rz_echo. rewrite app_assoc, <- He. by rewrite take_drop.
  - exists []. split; [by rewrite app_nil_l, take_drop | by left].
Qed.

Lemma flush_conserves d now d' bytes :
  flush_pending_if_idle d now = (d', bytes) ->
  pending d = bytes ++ pending d' /\ (length (pending d') <= length (pending d))%nat.
Proof.
  unfold flush_pending_if_idle. intros H. repeat case_match; simplify_eq/=;
    rewrite ?app_nil_r; split; done || lia.
Qed.

(** What [watch] says of the stream it was fed. *)
Definition accounts (p : list Z) (calls : list Call)
  (out : list Z * option (ZmodemDirection * list Z * list Z) * ZmodemDetector) : Prop :=
  let '(shown, r, d') := out in
  match r with
  | None => p ++ concat (map fed calls) = shown ++ pending d' /\ (length (pending d') <= 5)%nat
  | Some (dir, pass, initial) =>
      exists k echo, p ++ concat (map fed (take k calls)) = shown ++ pass ++ echo ++ initial
      /\ detect_here initial = Some dir
      /\ (echo = [] \/ dir = Upload /\ echo ∈ rz_patterns)
  end.

Lemma watch_accounts d calls :
  (length (pending d) <= 5)%nat -> accounts (pending d) calls (watch d calls).
Proof.
  revert d. induction calls as [| [data now | now] calls IH]; intros d Hd; cbn [watch].
  - cbn. by rewrite app_nil_r.
  - destruct (feed_at d data now) as [d' [pass | dir pass initial]] eqn:E.
    + destruct (feed_nomatch _ _ _ _ _ E) as [Hp Hl]. specialize (IH d' Hl).
      destruct (watch d' calls) as [[shown [[[dir pass'] initial] |]] d'']; cbn in *.
      * destruct IH as (k & echo & Hk & Hd' & He). exists (S k), echo. split; [| done].
        cbn. by rewrite app_assoc, Hp, <- !app_assoc, Hk.
      * destruct IH as [Hk Hl']. split; [| done]. by rewrite app_assoc, Hp, <- !app_assoc, Hk.
    + destruct (feed_detected _ _ _ _ _ _ _ E) as (Hh & _ & echo & Hp & He).
      exists 1%nat, echo. cbn. rewrite app_nil_r. done.
  - destruct (flush_pending_if_idle d now) as [d' bytes] eqn:E.
    destruct (flush_conserves _ _ _ _ E) as [Hp Hl]. specialize (IH d' ltac:(lia)).
    destruct (watch d' calls) as [[shown [[[dir pass'] initial] |]] d'']; cbn in *.
    + destruct IH as (k & echo & Hk & Hd' & He). exists (S k), echo. split; [| done].
      cbn. by rewrite Hp, <- !app_assoc, Hk.
    + destruct IH as [Hk Hl']. split; [| done]. by rewrite Hp, <- !app_assoc, Hk.
Qed.

(** ** Headers cut anywhere *)

Definition headers : list (list Z * ZmodemDirection) :=
  [([ZPAD; ZPAD; ZDLE; ZHEX; 48; 48], Download); ([ZPAD; ZPAD; ZDLE; ZHEX; 48; 49], Upload);
   ([ZPAD; ZPAD; ZDLE; ZBIN; 0], Download); ([ZPAD; ZPAD; ZDLE; ZBIN; 1], Upload);
   ([ZPAD; ZPAD; ZDLE; ZBIN32; 0], Download); ([ZPAD; ZPAD; ZDLE; ZBIN32; 1], Upload)].

(** Every proper prefix of a header at a line start is kept whole. *)
Definition prefix_kept (h : list Z) (j : nat) : bool :=
  bool_decide (detect_zmodem_start (take j h) = None)
  && (retained_prefix_start (take j h) true =? 0)%nat.

Lemma prefixes_kept h dir j :
  (h, dir) ∈ headers -> (j < length h)%nat -> prefix_kept h j = true.
Proof.
  intros Hin Hj.
  assert (Hall : forallb (fun hd => forallb (prefix_kept hd.1) (seq 0 (length hd.1))) headers = true)
    by (vm_compute; reflexivity).
  rewrite forallb_forall in Hall. specialize (Hall (h, dir)). cbn [fst] in Hall.
  rewrite forallb_forall in Hall. apply Hall; [by apply list_elem_of_In |]. apply in_seq. lia.
Qed.

Lemma header_detected h dir extra :
  (h, dir) ∈ headers -> detect_zmodem_start (h ++ extra) = Some (dir, 0%nat).
Proof.
  intros Hin. unfold headers in Hin. rewrite !elem_of_cons in Hin.
  unfold detect_zmodem_start.
  destruct Hin as [E | [E | [E | [E | [E | [E | E%not_elem_of_nil]]]]]]; simplify_eq; done.
Qed.

Lemma feed_header_prefix h dir d i c now :
  (h, dir) ∈ headers -> pending d = take i h -> pending_starts_at_line_start d = true ->
  (i + length c < length h)%nat -> c = take (length c) (drop i h) ->
  exists d', feed_at d c now = (d', NoMatch [])
  /\ pending d' = take (i + length c) h /\ pending_starts_at_line_start d' = true.
Proof.
  intros Hin Hp Hls Hlt Hc. unfold feed_at.
  assert (Hpc : pending d ++ c = take (i + length c) h).
  { rewrite Hp, Hc at 1. by rewrite take_take_drop. }
  rewrite Hpc. pose proof (prefixes_kept h dir (i + length c) Hin Hlt) as Hk.
  apply andb_true_iff in Hk as [Hk1%bool_decide_eq_true Hk2%Nat.eqb_eq].
  rewrite Hk1, Hls, Hk2. cbn [take drop Nat.ltb Nat.leb]. by eexists.
Qed.

Lemma watch_header h dir d i chunks now extra :
  (h, dir) ∈ headers -> pending d = take i h -> pending_starts_at_line_start d = true ->
  (i < length h)%nat -> concat chunks = drop i h ++ extra ->
  exists extra', watch d (map (fun c => Feed c now) chunks)
    = ([], Some (dir, [], h ++ extra'), detector_new) /\ extra' `prefix_of` extra.
Proof.
  intros Hin. revert d i. induction chunks as [| c chunks IH]; intros d i Hp Hls Hi Hc.
  { cbn in Hc. apply (f_equal length) in Hc. rewrite length_app, length_drop in Hc. cbn in Hc. lia. }
  cbn [map watch concat] in *. destruct (decide (i + length c < length h)%nat) as [Hlt | Hge].
  - assert (Hcp : c = take (length c) (drop i h)).
    { apply (f_equal (take (length c))) in Hc. rewrite take_app_length in Hc.
      rewrite take_app_le in Hc by (rewrite length_drop; lia). done. }
    destruct (feed_header_prefix h dir d i c now) as (d' & -> & Hp' & Hls'); try done.
    destruct (IH d' (i + length c)%nat) as (extra' & -> & He); try done.
    + rewrite Hcp in Hc at 1. rewrite <- drop_drop.
      rewrite <- (take_drop (length c) (drop i h)) in Hc at 2.
      rewrite <- app_assoc in Hc. by apply app_inv_head in Hc.
    + exists extra'. done.
  - assert (Hcp : exists e, c = drop i h ++ e /\ e `prefix_of` extra).
    { exists (drop (length (drop i h)) c). assert (Hl : (length (drop i h) <= length c)%nat)
        by (rewrite length_drop; lia).
      pose proof Hc as Hc1. apply (f_equal (take (length (drop i h)))) in Hc1.
      rewrite take_app_length, take_app_le in Hc1 by done.
      assert (Hce : c = drop i h ++ drop (length (drop i h)) c)
        by (rewrite <- Hc1 at 1; by rewrite take_drop).
      split; [done |]. exists (concat chunks). apply (app_inv_head (drop i h)).
      rewrite <- Hc, app_assoc. by rewrite <- Hce. }
    destruct Hcp as (e & -> & He). exists e. split; [| done].
    unfold feed_at. rewrite Hp, app_assoc, take_drop, (header_detected h dir) by done.
    cbn [take drop]. by destruct dir.
Qed.

(** ** Properties *)

(** Over any sequence of reads and idle flushes the detector loses,
    duplicates and reorders nothing: until a detection, the text shown and at
    most five withheld bytes are the stream; at a detection, the text shown,
    the bytes before the header and the header with what follows are the
    stream, except for an echoed rz command removed before an upload. *)
Theorem zmodem_detector_conserves d calls :
  (length (pending d) <= 5)%nat ->
  let '(shown, r, d') := watch d calls in
  match r with
  | None =>
      pending d ++ concat (map fed calls) = shown ++ pending d' /\ (length (pending d') <= 5)%nat
  | Some (dir, pass, initial) =>
      exists k echo,
        pending d ++ concat (map fed (take k calls)) = shown ++ pass ++ echo ++ initial
        /\ detect_here initial = Some dir
        /\ (echo = [] \/ dir = Upload /\ echo ∈ rz_patterns)
  end.
Proof. apply watch_accounts. Qed.

Lemma zmodem_detector_conserves_witness :
  let calls := [Feed (bs "ls *" ++ [10; 42]) 0; Flush 10; Feed (bs "*") 20; Flush 100] in
  let '(shown, r, d') := watch detector_new calls in
  r = None /\ concat (map fed calls) = shown ++ pending d'.
Proof.
  intros calls. pose proof (zmodem_detector_conserves detector_new calls) as H.
  vm_compute in H. vm_compute. split; [reflexivity |]. apply H. lia.
Defined.

(** A header that starts a line is detected however the reads cut it, with
    the direction its frame type says and nothing of it shown. *)
Theorem zmodem_split_header_detected h dir d chunks now extra :
  (h, dir) ∈ headers -> pending d = [] -> pending_starts_at_line_start d = true ->
  concat chunks = h ++ extra ->
  exists extra', watch d (map (fun c => Feed c now) chunks)
    = ([], Some (dir, [], h ++ extra'), detector_new) /\ extra' `prefix_of` extra.
Proof.
  intros Hin Hp Hls Hc. apply (watch_header h dir d 0); try done.
  assert (Hne : forallb (fun hd => (0 <? length hd.1)%nat) headers = true) by done.
  rewrite forallb_forall in Hne. apply list_elem_of_In in Hin. by apply Hne in Hin as ?%Nat.ltb_lt.
Qed.

Lemma zmodem_split_header_detected_witness :
  exists extra', watch detector_new (map (fun c => Feed c 0) [[42]; [42; 24]; [66]; [48]; [49; 48; 48]])
    = ([], Some (Upload, [], [42; 42; 24; 66; 48; 49] ++ extra'), detector_new)
    /\ extra' `prefix_of` [48; 48].
Proof.
  apply zmodem_split_header_detected; [| done | done | done].
  apply elem_of_cons. right. apply elem_of_cons. left. reflexivity.
Defined.
