(* ===== verification/Mailbox.v ===== *)
(** * Bounded input mailboxes: [writer_mailbox.rs], [ssh_mailbox.rs] and
    [tmux/mailbox.rs] (zzclawterm-transport)

    The three mailboxes count the bytes and the items between their acceptance
    and the drop of the permit that travels with them.  [Account] is that
    counter; each mailbox is a [Record] whose operations are the critical
    sections of the code, a [usize] that would go below zero being [None].  The
    permits that threads hold are part of the system state, and [step] is one
    critical section of any thread.

    The tokio channel of the last two is an interface, [Channel], with its
    documented behaviour as laws.  Poisoned locks and failed allocations are not
    modelled. *)
From stdpp Require Import base list numbers relations strings.
From Stdlib Require Import ZArith Lia.
From S2P Require Import Prelude.

Definition BYTE_LIMIT : Z := 8 * 1024 * 1024.
Definition ITEM_LIMIT : Z := 1024.

(** The kinds of [io::Error] that the mailboxes return. *)
Inductive ErrorKind := BrokenPipe | WouldBlock | InvalidInput | Interrupted.

#[global] Instance error_kind_eq_dec : EqDecision ErrorKind.
Proof. solve_decision. Defined.

(** ** The counter *)
Module Account.

Record t := mk { bytes : Z; items : Z; peak_bytes : Z }.
Definition empty : t := mk 0 0 0.

Definition full (a : t) (n : Z) : bool :=
  (saturating_sub BYTE_LIMIT (bytes a) <? n) || (ITEM_LIMIT <=? items a).

Definition reserve (a : t) (n : Z) : t :=
  mk (bytes a + n) (items a + 1) (Z.max (peak_bytes a) (bytes a + n)).

Definition release (a : t) (n : Z) : option t :=
  if (bytes a <? n) || (items a <? 1) then None
  else Some (mk (bytes a - n) (items a - 1) (peak_bytes a)).

(** [a] counts the costs [live]. *)
Definition sum (live : list Z) : Z := foldr Z.add 0 live.

Record counts (a : t) (live : list Z) : Prop := {
  counts_bytes : bytes a = sum live;
  counts_items : items a = len live;
  counts_nonneg : Forall (fun n => 0 <= n) live;
  counts_byte_limit : bytes a <= BYTE_LIMIT;
  counts_item_limit : items a <= ITEM_LIMIT;
  counts_peak : bytes a <= peak_bytes a <= BYTE_LIMIT
}.

End Account.

Lemma sum_app a b : Account.sum (a ++ b) = Account.sum a + Account.sum b.
Proof. unfold Account.sum. induction a as [| x a IH]; cbn; [done |]. rewrite IH. lia. Qed.

Lemma sum_nonneg l : Forall (fun n => 0 <= n) l -> 0 <= Account.sum l.
Proof. unfold Account.sum. induction 1; cbn; lia. Qed.

Lemma sum_permutation a b : a ≡ₚ b -> Account.sum a = Account.sum b.
Proof. unfold Account.sum. induction 1; cbn; lia. Qed.

(** The order of the live costs does not matter. *)
#[global] Instance counts_proper a : Proper ((≡ₚ) ==> iff) (Account.counts a).
Proof.
  assert (Hone : forall l l', l ≡ₚ l' -> Account.counts a l -> Account.counts a l').
  { intros l l' Hl []. constructor; try done.
    - by rewrite <- (sum_permutation _ _ Hl).
    - by rewrite <- (Permutation_length Hl).
    - by rewrite <- Hl. }
  intros l l' Hl. split; by apply Hone.
Qed.

Lemma counts_empty : Account.counts Account.empty [].
Proof. by constructor. Qed.

Lemma counts_reserve a live n :
  Account.counts a live -> 0 <= n -> Account.full a n = false ->
  Account.counts (Account.reserve a n) (n :: live).
Proof.
  intros [] Hn Hf. unfold Account.full, saturating_sub in Hf.
  apply orb_false_iff in Hf as [H1%Z.ltb_ge H2%Z.leb_gt].
  constructor; cbn -[Account.sum]; try (by constructor); try lia.
  unfold Account.sum in *. cbn. lia.
Qed.

Lemma counts_release a live n :
  Account.counts a (n :: live) ->
  exists a', Account.release a n = Some a' /\ Account.counts a' live
  /\ Account.peak_bytes a' = Account.peak_bytes a.
Proof.
  intros [H1 H2 H3 H4 H5 H6]. apply Forall_cons in H3 as [Hn Hl].
  pose proof (sum_nonneg live Hl) as Hs. unfold Account.sum in *. cbn in H1, H2.
  unfold Account.release.
  destruct (Z.ltb_spec (Account.bytes a) n); [lia |].
  destruct (Z.ltb_spec (Account.items a) 1); [lia |].
  eexists. split; [done |]. split; [| done]. constructor; cbn -[Account.sum]; try done; try lia.
  unfold Account.sum. lia.
Qed.

(** A release of every cost of a list, as [stop] and a dropped channel do. *)
Fixpoint release_all (a : Account.t) (costs : list Z) : option Account.t :=
  match costs with
  | [] => Some a
  | n :: costs' => let* a' := Account.release a n in release_all a' costs'
  end.

Lemma counts_release_all a costs live :
  Account.counts a (costs ++ live) ->
  exists a', release_all a costs = Some a' /\ Account.counts a' live.
Proof.
  revert a. induction costs as [| n costs IH]; intros a H; cbn [release_all]; [by exists a |].
  destruct (counts_release a (costs ++ live) n H) as (a' & -> & H' & _). by apply IH.
Qed.

(** ** [writer_mailbox.rs] *)
Module Writer.

(** [TransportWriterCommand]. *)
Inductive Command := Write (data : list Z) | TelnetControl (data : list Z).

Definition byte_cost (c : Command) : Z :=
  match c with Write data | TelnetControl data => len data end.

Record State := mkState { queue : list Command; acct : Account.t; stopped : bool }.
Definition init : State := mkState [] Account.empty false.

Definition send (s : State) (c : Command) : result State ErrorKind :=
  let bytes := byte_cost c in
  if stopped s then Err BrokenPipe
  else if Account.full (acct s) bytes then Err WouldBlock
  else Ok (mkState (queue s ++ [c]) (Account.reserve (acct s) bytes) (stopped s)).

Definition check_capacity (s : State) (bytes : Z) : result unit ErrorKind :=
  if stopped s then Err BrokenPipe
  else if Account.full (acct s) bytes then Err WouldBlock else Ok tt.

(** One turn of the loop of [wait_capacity]; [None] waits for another turn. *)
Definition wait_capacity (s : State) (bytes : Z) (cancelled : bool) : option (result unit ErrorKind) :=
  if BYTE_LIMIT <? bytes then Some (Err InvalidInput)
  else if cancelled then Some (Err Interrupted)
  else if stopped s then Some (Err BrokenPipe)
  else if (bytes <=? saturating_sub BYTE_LIMIT (Account.bytes (acct s)))
          && (Account.items (acct s) <? ITEM_LIMIT)
  then Some (Ok tt) else None.

(** One turn of the loop of [receive]: [None] waits (or returns [Ok(None)] at
    the deadline); the permit is its byte count. *)
Definition receive (s : State) : result (option (Command * Z * State)) ErrorKind :=
  if stopped s then Err BrokenPipe
  else match queue s with
       | c :: q => Ok (Some (c, byte_cost c, mkState q (acct s) (stopped s)))
       | [] => Ok None
       end.

Definition stop (s : State) : option State :=
  let* a := release_all (acct s) (map byte_cost (queue s)) in
  Some (mkState [] a true).

Definition drop_permit (s : State) (bytes : Z) : option State :=
  let* a := Account.release (acct s) bytes in
  Some (mkState (queue s) a (stopped s)).

(** The mailbox, the permits that worker threads hold, the commands accepted so
    far and the commands received so far. *)
Record System := mkSystem {
  mailbox : State;
  permits : list Z;
  accepted : list Command;
  received : list Command
}.
Definition start : System := mkSystem init [] [] [].

Inductive step : System -> System -> Prop :=
| step_send s c m' :
    send (mailbox s) c = Ok m' ->
    step s (mkSystem m' (permits s) (accepted s ++ [c]) (received s))
| step_receive s c b m' :
    receive (mailbox s) = Ok (Some (c, b, m')) ->
    step s (mkSystem m' (b :: permits s) (accepted s) (received s ++ [c]))
| step_stop s m' :
    stop (mailbox s) = Some m' -> step s (mkSystem m' (permits s) (accepted s) (received s))
| step_drop s b rest m' :
    permits s ≡ₚ b :: rest -> drop_permit (mailbox s) b = Some m' ->
    step s (mkSystem m' rest (accepted s) (received s)).

(** Every counted byte is in the queue or behind a permit; commands leave in
    the order in which they came. *)
Record inv (s : System) : Prop := {
  inv_counts : Account.counts (acct (mailbox s)) (map byte_cost (queue (mailbox s)) ++ permits s);
  inv_fifo : received s ++ queue (mailbox s) `prefix_of` accepted s;
  inv_all : stopped (mailbox s) = false -> accepted s = received s ++ queue (mailbox s);
  inv_stopped : stopped (mailbox s) = true -> queue (mailbox s) = []
}.

End Writer.

Section WriterProofs.
Import Writer.

Lemma byte_cost_nonneg c : 0 <= byte_cost c.
Proof. destruct c; cbn; lia. Qed.

Lemma writer_start_inv : inv start.
Proof. by constructor. Qed.

(** In a state that satisfies the invariant no [-=] underflows. *)
Lemma writer_stop_total s : inv s -> exists m', stop (mailbox s) = Some m'.
Proof.
  intros []. unfold stop. destruct (counts_release_all _ _ _ inv_counts0) as (a' & -> & _). by eexists.
Qed.

Lemma writer_drop_total s b rest :
  inv s -> permits s ≡ₚ b :: rest ->
  exists a, Account.release (acct (mailbox s)) b = Some a
  /\ Account.counts a (map byte_cost (queue (mailbox s)) ++ rest).
Proof.
  intros [Hc _ _ _] Hp. rewrite Hp, <- Permutation_middle in Hc.
  destruct (counts_release _ _ _ Hc) as (a & Ha & Hc' & _). by exists a.
Qed.

Lemma writer_step_inv s s' : step s s' -> inv s -> inv s'.
Proof.
  intros Hstep Hi. pose proof Hi as [Hc Hf Ha Hst]. destruct Hstep as [s c m' H | s c b m' H | s m' H | s b rest m' Hp H].
  - unfold send in H. destruct (stopped (mailbox s)) eqn:Es; [done |].
    destruct (Account.full _ _) eqn:Ef; simplify_eq. constructor; cbn.
    + rewrite map_app, <- app_assoc. cbn. rewrite <- Permutation_middle.
      apply counts_reserve; [done | apply byte_cost_nonneg | done].
    + rewrite Ha by done. by rewrite app_assoc.
    + intros _. rewrite Ha by done. by rewrite app_assoc.
    + done.
  - unfold receive in H. destruct (stopped (mailbox s)) eqn:Es; [done |].
    destruct (queue (mailbox s)) as [| c' q] eqn:Eq; simplify_eq. constructor; cbn.
    + rewrite <- Permutation_middle. by cbn in Hc.
    + rewrite <- app_assoc. done.
    + intros _. rewrite Ha by done. by rewrite <- app_assoc.
    + congruence.
  - unfold stop in H. destruct (release_all _ _) as [a |] eqn:Er; simplify_eq. constructor; cbn; try done.
    + destruct (counts_release_all _ _ _ Hc) as (a' & Hr & Hc'). congruence.
    + rewrite app_nil_r. etransitivity; [| exact Hf]. by apply prefix_app_r.
  - destruct (writer_drop_total s b rest Hi Hp) as (a & Hr & Hc'). unfold drop_permit in H.
    rewrite Hr in H. simplify_eq. by constructor.
Qed.

Lemma writer_reachable_inv s : rtc step start s -> inv s.
Proof.
  assert (H : forall s0, rtc step s0 s -> inv s0 -> inv s)
    by (induction 1; eauto using writer_step_inv).
  intros Hr. apply (H start Hr), writer_start_inv.
Qed.

End WriterProofs.

(** ** The channel interface *)

(** A tokio [mpsc::unbounded_channel]: first in, first out, [send] failing only
    once the receiver is dropped. *)
Class Channel (Q A : Type) := {
  ch_new : Q;
  ch_open : Q -> bool;
  ch_items : Q -> list A;
  ch_send : Q -> A -> option Q;
  ch_recv : Q -> option (A * Q);
  ch_close : Q -> Q;
  ch_new_spec : ch_open ch_new = true /\ ch_items ch_new = [];
  ch_send_spec q a :
    if ch_open q
    then exists q', ch_send q a = Some q' /\ ch_items q' = ch_items q ++ [a] /\ ch_open q' = true
    else ch_send q a = None;
  ch_recv_spec q :
    match ch_items q with
    | [] => ch_recv q = None
    | a :: l => exists q', ch_recv q = Some (a, q') /\ ch_items q' = l /\ ch_open q' = ch_open q
    end;
  ch_close_spec q : ch_open (ch_close q) = false /\ ch_items (ch_close q) = []
}.

(** The interface is inhabited. *)
#[global] Instance list_channel A : Channel (bool * list A) A.
Proof.
  refine {| ch_new := (true, []); ch_open q := q.1; ch_items q := q.2;
            ch_send q a := if q.1 then Some (true, q.2 ++ [a]) else None;
            ch_recv q := match q.2 with [] => None | a :: l => Some (a, (q.1, l)) end;
            ch_close q := (false, []) |}; try done.
  - intros [[] l] a; cbn; [| done]. by eexists.
  - intros [o [| a l]]; cbn; [done |]. by eexists.
Defined.

(** ** [ssh_mailbox.rs] *)
Module Ssh.

Record State := mkState {
  acct : Account.t;
  stopped : bool;
  resize : option (Z * Z * Z * Z)
}.
Definition init : State := mkState Account.empty false None.

(** The commands that the receiver returns. *)
Inductive Command := Write (bytes : list Z) | Resize (size : Z * Z * Z * Z) | Close.

Definition check (s : State) (bytes : Z) : result unit ErrorKind :=
  if stopped s then Err BrokenPipe
  else if BYTE_LIMIT <? bytes then Err InvalidInput
  else if Account.full (acct s) bytes then Err WouldBlock
  else Ok tt.

Lemma ssh_check_ok s bytes u : check s bytes = Ok u -> Account.full (acct s) bytes = false.
Proof.
  unfold check. destruct (stopped s); [done |]. destruct (BYTE_LIMIT <? bytes); [done |].
  by destruct (Account.full _ _).
Qed.

(** One turn of the loop of [wait_capacity]. *)
Definition wait_capacity (s : State) (bytes : Z) (cancelled : bool) : option (result unit ErrorKind) :=
  if cancelled then Some (Err Interrupted)
  else match check s bytes with Err WouldBlock => None | r => Some r end.

Section Ops.
Context `{Channel Q (list Z)}.

(** [Sender::write]: the permit of a write that the channel refuses is dropped. *)
Definition write (s : State) (q : Q) (bytes : list Z) : option (State * Q * result unit ErrorKind) :=
  if beq bytes [] then Some (s, q, Ok tt)
  else match check s (len bytes) with
       | Err e => Some (s, q, Err e)
       | Ok _ =>
           let s' := mkState (Account.reserve (acct s) (len bytes)) (stopped s) (resize s) in
           match ch_send q bytes with
           | Some q' => Some (s', q', Ok tt)
           | None =>
               let* a := Account.release (acct s') (len bytes) in
               Some (mkState a (stopped s') (resize s'), q, Err BrokenPipe)
           end
       end.

Definition set_resize (s : State) (r : Z * Z * Z * Z) : State := mkState (acct s) (stopped s) (Some r).
Definition close (s : State) : State := mkState (acct s) true (resize s).

(** [Receiver::control]. *)
Definition control (s : State) : option Command * State :=
  if stopped s then (Some Close, s)
  else match resize s with
       | Some r => (Some (Resize r), mkState (acct s) (stopped s) None)
       | None => (None, s)
       end.

(** [try_recv], and one turn of [recv]; [None] is an empty channel. *)
Definition try_recv (s : State) (q : Q) : option Command * State * Q :=
  match control s with
  | (Some c, s') => (Some c, s', q)
  | (None, s') =>
      match ch_recv q with
      | Some (bytes, q') => (Some (Write bytes), s', q')
      | None => (None, s', q)
      end
  end.

(** Dropping the receiver stops the mailbox and then drops what is queued. *)
Definition drop_receiver (s : State) (q : Q) : option (State * Q) :=
  let* a := release_all (acct s) (map (fun b => len b) (ch_items q)) in
  Some (mkState a true (resize s), ch_close q).

Definition drop_permit (s : State) (bytes : Z) : option State :=
  let* a := Account.release (acct s) bytes in Some (mkState a (stopped s) (resize s)).

Record System := mkSystem { state : State; chan : Q; permits : list Z }.
Definition start : System := mkSystem init ch_new [].

Inductive step : System -> System -> Prop :=
| step_write s bytes st' q' r :
    write (state s) (chan s) bytes = Some (st', q', r) -> step s (mkSystem st' q' (permits s))
| step_resize s r : step s (mkSystem (set_resize (state s) r) (chan s) (permits s))
| step_close s : step s (mkSystem (close (state s)) (chan s) (permits s))
| step_recv s c st' q' :
    try_recv (state s) (chan s) = (c, st', q') ->
    step s (mkSystem st' q' (match c with Some (Write b) => [len b] | _ => [] end ++ permits s))
| step_drop_receiver s st' q' :
    drop_receiver (state s) (chan s) = Some (st', q') -> step s (mkSystem st' q' (permits s))
| step_drop s b rest st' :
    permits s ≡ₚ b :: rest -> drop_permit (state s) b = Some st' ->
    step s (mkSystem st' (chan s) rest).

Definition inv (s : System) : Prop :=
  Account.counts (acct (state s)) (map (fun b => len b) (ch_items (chan s)) ++ permits s).

Lemma ssh_write_total s bytes : inv s -> exists r, write (state s) (chan s) bytes = Some r.
Proof.
  intros Hi. unfold write. destruct (beq _ _); [by eexists |].
  destruct (check (state s) (len bytes)) as [[] | e] eqn:Hc; [| by eexists].
  destruct (ch_send _ _); [by eexists |]. apply ssh_check_ok in Hc. cbn.
  destruct (counts_release (Account.reserve (acct (state s)) (len bytes))
    (map (fun b => len b) (ch_items (chan s)) ++ permits s) (len bytes)) as (a & -> & _); [| by eexists].
  apply counts_reserve; [done | lia | done].
Qed.

Lemma ssh_step_inv s s' : step s s' -> inv s -> inv s'.
Proof.
  unfold inv. intros Hstep Hi. destruct Hstep as [s bytes st' q' r Hw | | | s c st' q' Hr | s st' q' Hd | s b rest st' Hp Hd];
    cbn; try done.
  - unfold write in Hw. destruct (beq _ _); [by simplify_eq |].
    destruct (check (state s) (len bytes)) as [[] | e] eqn:Hc; [| by simplify_eq].
    apply ssh_check_ok in Hc.
    assert (Hres := counts_reserve _ _ (len bytes) Hi ltac:(lia) Hc).
    pose proof (ch_send_spec (chan s) bytes) as Hs. destruct (ch_open (chan s)).
    + destruct Hs as (q1 & Hs & Hit & _). rewrite Hs in Hw. simplify_eq. cbn.
      rewrite Hit, map_app, <- app_assoc. cbn. by rewrite <- Permutation_middle.
    + rewrite Hs in Hw. cbn in Hw.
      destruct (counts_release _ _ _ Hres) as (a & Ha & Hca & _). rewrite Ha in Hw. by simplify_eq.
  - unfold try_recv, control in Hr. destruct (stopped (state s)); [by simplify_eq |].
    destruct (resize (state s)); [by simplify_eq |].
    pose proof (ch_recv_spec (chan s)) as Hs. destruct (ch_items (chan s)) as [| a l] eqn:Eit.
    + rewrite Hs in Hr. simplify_eq. cbn. by rewrite Eit.
    + destruct Hs as (q1 & Hs & Hit & _). rewrite Hs in Hr. simplify_eq. cbn.
      rewrite <- Permutation_middle. done.
  - unfold drop_receiver in Hd. destruct (release_all _ _) as [a |] eqn:Er; simplify_eq. cbn.
    destruct (ch_close_spec (chan s)) as [_ ->]. cbn.
    destruct (counts_release_all _ _ _ Hi) as (a' & Hr & Hc'). congruence.
  - unfold drop_permit in Hd. rewrite Hp, <- Permutation_middle in Hi.
    destruct (counts_release _ _ _ Hi) as (a & Ha & Hca & _). rewrite Ha in Hd. by simplify_eq.
Qed.

Lemma ssh_reachable_inv s : rtc step start s -> inv s.
Proof.
  assert (Hind : forall s0, rtc step s0 s -> inv s0 -> inv s) by (induction 1; eauto using ssh_step_inv).
  intros Hr. apply (Hind start Hr). unfold inv, start. cbn.
  destruct ch_new_spec as [_ ->]. apply counts_empty.
Qed.

End Ops.
End Ssh.

(** ** [tmux/mailbox.rs] *)
Module Tmux.

(** [SshCommand]; a pending write is its bytes. *)
Inductive Command :=
| Write (bytes : list Z)
| Resize (cols rows pixel_width pixel_height : Z)
| TmuxCommand (line : list Z)
| TmuxDetach
| TmuxPaneInput (pane data : list Z)
| TmuxPaneResize (pane : list Z) (cols rows : Z)
| TmuxPaneClose (pane : list Z)
| Close.

Record Permit := mkPermit { p_bytes : Z; p_generation : Z }.

Record PendingCommand := mkPending { command : Command; permit : Permit }.

Record State := mkState {
  acct : Account.t;
  stopped : bool;
  suspended : bool;
  generation : Z;
  detach : bool;
  close_panes : list (list Z)
}.
Definition init : State := mkState Account.empty false false 0 false [].

Definition with_acct (s : State) (a : Account.t) : State :=
  mkState a (stopped s) (suspended s) (generation s) (detach s) (close_panes s).

Definition validate_command (line : list Z) : result unit ErrorKind :=
  if existsb (fun b => (b =? 13) || (b =? 10) || (b =? 0)) line then Err InvalidInput else Ok tt.

(** The bytes that [Sender::send] and [Sender::write] reserve. *)
Definition cost (c : Command) : Z :=
  match c with
  | TmuxCommand line => len line
  | TmuxPaneInput _ data => len data
  | _ => 0
  end.

(** The commands that bypass the queue: the first arm of [send]. *)
Definition is_control (c : Command) : bool :=
  match c with TmuxDetach | TmuxPaneClose _ => true | _ => false end.

Definition send_control (s : State) (c : Command) : result State ErrorKind :=
  if stopped s || suspended s then Err BrokenPipe
  else match c with
       | TmuxDetach =>
           Ok (mkState (acct s) (stopped s) (suspended s) (generation s) true (close_panes s))
       | TmuxPaneClose pane =>
           Ok (mkState (acct s) (stopped s) (suspended s) (generation s) (detach s)
                 (if bool_decide (pane ∈ close_panes s) then close_panes s
                  else pane :: close_panes s))
       | _ => Ok s
       end.

Definition resume (s : State) : State :=
  mkState (acct s) (stopped s) false (generation s) (detach s) (close_panes s).

(** The critical section of [discard_pending]; draining the channel follows.
    The [u64] generation is taken not to overflow: that is 2^64 detachments. *)
Definition suspend (s : State) : State :=
  mkState (acct s) (stopped s) true (generation s + 1) false [].

(** [Control::recv] once a control command is there; [close_panes] is a hash
    set, so any of its panes may come first. *)
Inductive control_recv : State -> Command -> State -> Prop :=
| control_detach s :
    detach s = true ->
    control_recv s TmuxDetach
      (mkState (acct s) (stopped s) (suspended s) (generation s) false (close_panes s))
| control_close s pane rest :
    detach s = false -> close_panes s ≡ₚ pane :: rest ->
    control_recv s (TmuxPaneClose pane)
      (mkState (acct s) (stopped s) (suspended s) (generation s) (detach s) rest).

Section Ops.
Context `{Channel Q PendingCommand}.

(** [reserve]: the checks and the permit. *)
Definition reserve (s : State) (q : Q) (bytes : Z) : result (State * Permit) ErrorKind :=
  if stopped s || suspended s || negb (ch_open q) then Err BrokenPipe
  else if BYTE_LIMIT <? bytes then Err InvalidInput
  else if Account.full (acct s) bytes then Err WouldBlock
  else Ok (with_acct s (Account.reserve (acct s) bytes), mkPermit bytes (generation s)).

(** [enqueue]: a rejected command drops its permit. *)
Definition enqueue (s : State) (q : Q) (p : PendingCommand) : option (State * Q * result unit ErrorKind) :=
  let rejected :=
    let* a := Account.release (acct s) (p_bytes (permit p)) in
    Some (with_acct s a, q, Err BrokenPipe) in
  if stopped s || suspended s || negb (p_generation (permit p) =? generation s) then rejected
  else match ch_send q p with
       | Some q' => Some (s, q', Ok tt)
       | None => rejected
       end.

(** [send], on a command that is not a control, up to the reservation: what is
    refused before it, and the command that waits for [enqueue]. *)
Definition send_reserve (s : State) (q : Q) (c : Command) : result (State * PendingCommand) ErrorKind :=
  let? _ := match c with TmuxCommand line => validate_command line | _ => Ok tt end in
  let? r := reserve s q (cost c) in
  let (s', p) := r : State * Permit in
  Ok (s', mkPending c p).

(** [Sender::write] sends pane input, and nothing for empty data. *)
Definition write_reserve (s : State) (q : Q) (pane data : list Z)
  : result (option (State * PendingCommand)) ErrorKind :=
  if beq data [] then Ok None
  else let? r := send_reserve s q (TmuxPaneInput pane data) in Ok (Some r).

Definition drop_permit (s : State) (bytes : Z) : option State :=
  let* a := Account.release (acct s) bytes in Some (with_acct s a).

Definition costs (l : list PendingCommand) : list Z := map (fun p => p_bytes (permit p)) l.

Definition drop_receiver (s : State) (q : Q) : option (State * Q) :=
  let* a := release_all (acct s) (costs (ch_items q)) in
  Some (mkState a true (suspended s) (generation s) (detach s) (close_panes s), ch_close q).

(** [reserving] are the commands between the two critical sections of their
    [send]; [draining] says that [discard_pending] is emptying the channel, a
    time in which the receiver, borrowed by it, does nothing else. *)
Record System := mkSystem {
  state : State;
  chan : Q;
  reserving : list PendingCommand;
  permits : list Z;
  draining : bool
}.
Definition start : System := mkSystem init ch_new [] [] false.

(** [step s c s']: [c] is the command that the session receives, if it does. *)
Inductive step : System -> option PendingCommand -> System -> Prop :=
| step_reserve s c st' p :
    is_control c = false -> send_reserve (state s) (chan s) c = Ok (st', p) ->
    step s None (mkSystem st' (chan s) (p :: reserving s) (permits s) (draining s))
| step_write s pane data st' p :
    write_reserve (state s) (chan s) pane data = Ok (Some (st', p)) ->
    step s None (mkSystem st' (chan s) (p :: reserving s) (permits s) (draining s))
| step_enqueue s p rest st' q' r :
    reserving s ≡ₚ p :: rest -> enqueue (state s) (chan s) p = Some (st', q', r) ->
    step s None (mkSystem st' q' rest (permits s) (draining s))
| step_control s c st' :
    is_control c = true -> send_control (state s) c = Ok st' ->
    step s None (mkSystem st' (chan s) (reserving s) (permits s) (draining s))
| step_control_recv s c st' :
    control_recv (state s) c st' ->
    step s None (mkSystem st' (chan s) (reserving s) (permits s) (draining s))
| step_recv s p q' :
    draining s = false -> ch_recv (chan s) = Some (p, q') ->
    step s (Some p) (mkSystem (state s) q' (reserving s) (p_bytes (permit p) :: permits s) (draining s))
| step_suspend s :
    draining s = false ->
    step s None (mkSystem (suspend (state s)) (chan s) (reserving s) (permits s) true)
| step_drain s p q' st' :
    draining s = true -> ch_recv (chan s) = Some (p, q') ->
    drop_permit (state s) (p_bytes (permit p)) = Some st' ->
    step s None (mkSystem st' q' (reserving s) (permits s) true)
| step_drained s :
    draining s = true -> ch_recv (chan s) = None ->
    step s None (mkSystem (state s) (chan s) (reserving s) (permits s) false)
| step_resume s :
    draining s = false ->
    step s None (mkSystem (resume (state s)) (chan s) (reserving s) (permits s) false)
| step_drop_receiver s st' q' :
    draining s = false -> drop_receiver (state s) (chan s) = Some (st', q') ->
    step s None (mkSystem st' q' (reserving s) (permits s) false)
| step_drop s b rest st' :
    permits s ≡ₚ b :: rest -> drop_permit (state s) b = Some st' ->
    step s None (mkSystem st' (chan s) (reserving s) rest (draining s)).

Record inv (s : System) : Prop := {
  inv_counts : Account.counts (acct (state s))
                 (costs (ch_items (chan s)) ++ costs (reserving s) ++ permits s);
  inv_draining : draining s = true -> suspended (state s) = true;
  inv_generation : draining s = false ->
    Forall (fun p => p_generation (permit p) = generation (state s)) (ch_items (chan s))
}.

Lemma tmux_cost_nonneg c : 0 <= cost c.
Proof. destruct c; cbn; lia. Qed.

Lemma send_reserve_spec s q c s' p :
  send_reserve s q c = Ok (s', p) ->
  Account.full (acct s) (cost c) = false
  /\ s' = with_acct s (Account.reserve (acct s) (cost c))
  /\ p = mkPending c (mkPermit (cost c) (generation s)) /\ suspended s = false.
Proof.
  unfold send_reserve, reserve. intros Hr.
  destruct (match c with TmuxCommand line => _ | _ => _ end) as [[] |]; cbn in Hr; [| done].
  destruct (stopped s), (suspended s), (ch_open q); cbn in Hr; try done.
  destruct (BYTE_LIMIT <? cost c); cbn in Hr; [done |].
  destruct (Account.full _ _); cbn in Hr; by simplify_eq.
Qed.

(** What [enqueue] does with a reserved command. *)
Lemma enqueue_spec s q p live st' q' r :
  Account.counts (acct s) (p_bytes (permit p) :: live) -> enqueue s q p = Some (st', q', r) ->
  (q' = q /\ exists a, st' = with_acct s a /\ Account.counts a live)
  \/ (st' = s /\ ch_items q' = ch_items q ++ [p] /\ suspended s = false
      /\ p_generation (permit p) = generation s).
Proof.
  intros Hc He. unfold enqueue in He.
  destruct (counts_release _ _ _ Hc) as (a & Ha & Hca & _). rewrite Ha in He.
  destruct (stopped s || suspended s || _) eqn:Eb; [simplify_eq; left; eauto |].
  apply orb_false_iff in Eb as [[_ Hsus]%orb_false_iff Hg%negb_false_iff%Z.eqb_eq].
  pose proof (ch_send_spec q p) as Hs. destruct (ch_open q).
  - destruct Hs as (q1 & Hs & Hit & _). rewrite Hs in He. simplify_eq. by right.
  - rewrite Hs in He. simplify_eq. left. eauto.
Qed.

Lemma enqueue_total s p rest :
  inv s -> reserving s ≡ₚ p :: rest -> exists r, enqueue (state s) (chan s) p = Some r.
Proof.
  intros [Hc _ _] Hp. unfold enqueue, costs in *. rewrite Hp in Hc. cbn in Hc.
  rewrite <- Permutation_middle in Hc.
  destruct (counts_release _ _ _ Hc) as (a & -> & _). destruct (_ || _); [by eexists |].
  destruct (ch_send _ _); by eexists.
Qed.

Lemma tmux_recv_spec (q : Q) p q' :
  ch_recv q = Some (p, q') -> ch_items q = p :: ch_items q'.
Proof.
  intros Hr. pose proof (ch_recv_spec q) as Hs. destruct (ch_items q) as [| a l].
  - by rewrite Hs in Hr.
  - destruct Hs as (q1 & Hs & Hit & _). rewrite Hs in Hr. by simplify_eq.
Qed.

Lemma tmux_reserve_inv s c st' p :
  inv s -> send_reserve (state s) (chan s) c = Ok (st', p) ->
  inv (mkSystem st' (chan s) (p :: reserving s) (permits s) (draining s)).
Proof.
  intros [Hc Hd Hg] Hr. destruct (send_reserve_spec _ _ _ _ _ Hr) as (Hf & -> & -> & Hsus).
  constructor; cbn; try done. unfold costs in *. cbn. rewrite <- Permutation_middle.
  apply counts_reserve; [done | apply tmux_cost_nonneg | done].
Qed.

Lemma tmux_step_inv s c s' : step s c s' -> inv s -> inv s'.
Proof.
  intros Hstep Hi. pose proof Hi as [Hc Hd Hg].
  destruct Hstep as [s c st' p _ Hr | s pane data st' p Hr | s p rest st' q' r Hp He | s c st' _ Hs | s c st' Hs | s p q' Hdr Hr
    | s Hdr | s p q' st' Hdr Hr Hdp | s Hdr Hr | s Hdr | s st' q' Hdr Hdp | s b rest st' Hp Hdp].
  - by eapply tmux_reserve_inv.
  - unfold write_reserve in Hr. destruct (beq data []); [done |].
    destruct (send_reserve _ _ _) as [[st1 p1] |] eqn:Es; cbn in Hr; simplify_eq.
    by eapply tmux_reserve_inv.
  - unfold costs in Hc. rewrite Hp in Hc. cbn in Hc. rewrite <- Permutation_middle in Hc.
    destruct (enqueue_spec _ _ _ _ _ _ _ Hc He) as [(-> & a & -> & Hca) | (-> & Hit & Hsus & Hgen)].
    + constructor; cbn; done.
    + constructor; cbn; [| done |]; rewrite Hit; unfold costs.
      * rewrite map_app, <- app_assoc. cbn. by rewrite <- Permutation_middle.
      * intros Hdr. apply Forall_app. split; [by apply Hg | by apply Forall_singleton].
  - unfold send_control in Hs. destruct (stopped _ || suspended _) eqn:E; [done |].
    apply orb_false_iff in E as [_ E].
    destruct c; simplify_eq; constructor; cbn; try done; intros Hdr; specialize (Hd Hdr); congruence.
  - destruct Hs; constructor; done.
  - apply tmux_recv_spec in Hr. rewrite Hr in *. constructor; cbn; [| done |].
    + unfold costs in *. cbn in Hc. by rewrite <- !Permutation_middle.
    + intros _. specialize (Hg Hdr). by apply Forall_cons in Hg as [_ Hg].
  - by constructor.
  - apply tmux_recv_spec in Hr. unfold costs in *. rewrite Hr in *. cbn in Hc.
    unfold drop_permit in Hdp. destruct (counts_release _ _ _ Hc) as (a & Ha & Hca & _).
    rewrite Ha in Hdp. simplify_eq. constructor; cbn; try done. intros _. by apply Hd.
  - pose proof (ch_recv_spec (chan s)) as Hs. destruct (ch_items (chan s)) as [| a l] eqn:E.
    + constructor; cbn; rewrite ?E; done.
    + destruct Hs as (q1 & Hs & _). congruence.
  - constructor; cbn; try done. intros _. by apply Hg.
  - unfold drop_receiver in Hdp. destruct (release_all _ _) as [a |] eqn:Er; simplify_eq.
    destruct (ch_close_spec (chan s)) as [_ Hit].
    constructor; cbn; rewrite ?Hit; try done.
    destruct (counts_release_all _ _ _ Hc) as (a' & Hr & Hc').
    assert (a = a') as -> by congruence. exact Hc'.
  - rewrite Hp, app_assoc in Hc. rewrite <- Permutation_middle, <- app_assoc in Hc.
    unfold drop_permit in Hdp. destruct (counts_release _ _ _ Hc) as (a & Ha & Hca & _).
    rewrite Ha in Hdp. simplify_eq. by constructor.
Qed.

(** Reachability, with the commands received on the way. *)
Definition option_list {A} (o : option A) : list A := match o with Some a => [a] | None => [] end.

Inductive reachable : System -> list PendingCommand -> Prop :=
| reachable_start : reachable start []
| reachable_step s log c s' :
    reachable s log -> step s c s' -> reachable s' (log ++ option_list c).

Lemma tmux_reachable_inv s log : reachable s log -> inv s.
Proof.
  induction 1 as [| s log c s' Hr IH Hs]; [| by eapply tmux_step_inv].
  unfold start. destruct ch_new_spec as [_ Hit]. constructor; cbn; rewrite ?Hit; try done.
Qed.

End Ops.
End Tmux.

(** ** Properties *)

(** In every state that any interleaving of sends, receives, permit drops
    and a stop can reach, the writer mailbox counts exactly the bytes and items
    that are queued or behind a live permit, within its limits; commands are
    received in the order in which they were accepted and none is lost before a
    stop; and neither a stop nor a permit drop underflows the counters. *)
Theorem writer_mailbox_accounting s :
  rtc Writer.step Writer.start s ->
  let m := Writer.mailbox s in
  let live := map Writer.byte_cost (Writer.queue m) ++ Writer.permits s in
  Account.bytes (Writer.acct m) = Account.sum live /\ Account.items (Writer.acct m) = len live
  /\ Account.sum live <= BYTE_LIMIT /\ len live <= ITEM_LIMIT
  /\ Writer.received s ++ Writer.queue m `prefix_of` Writer.accepted s
  /\ (Writer.stopped m = false -> Writer.accepted s = Writer.received s ++ Writer.queue m)
  /\ is_Some (Writer.stop m)
  /\ forall b rest, Writer.permits s ≡ₚ b :: rest -> is_Some (Writer.drop_permit m b).
Proof.
  intros Hr m live. pose proof (writer_reachable_inv s Hr) as Hi.
  destruct (writer_stop_total s Hi) as [m' Hstop]. pose proof Hi as [Hc Hf Ha _].
  fold m in Hc, Hf, Ha. fold live in Hc. destruct Hc as [Hb Hn _ Hbl Hil _].
  rewrite <- Hb, <- Hn. split_and!; try done.
  intros b rest Hp. destruct (writer_drop_total s b rest Hi Hp) as (a & Hra & _).
  unfold Writer.drop_permit. fold m in Hra. rewrite Hra. by eexists.
Qed.

Lemma writer_mailbox_accounting_witness :
  exists s, rtc Writer.step Writer.start s /\ Writer.permits s = [3]
  /\ is_Some (Writer.drop_permit (Writer.mailbox s) 3).
Proof.
  eexists. eassert (Hr : rtc Writer.step Writer.start _).
  { eapply rtc_l; [apply (Writer.step_send _ (Writer.Write [1; 2; 3])); reflexivity |].
    eapply rtc_l; [eapply Writer.step_receive; reflexivity |]. apply rtc_refl. }
  split; [exact Hr |]. split; [reflexivity |].
  destruct (writer_mailbox_accounting _ Hr) as (_ & _ & _ & _ & _ & _ & _ & Hd).
  apply (Hd 3 []). reflexivity.
Defined.

(** Over any channel that behaves as documented, the SSH mailbox keeps the
    same account of queued writes and live permits, within the same limits, and
    neither a write, nor a permit drop, nor dropping the receiver underflows. *)
Theorem ssh_mailbox_accounting `{Channel Q (list Z)} (s : Ssh.System) :
  rtc Ssh.step Ssh.start s ->
  let live := map (fun b => len b) (ch_items (Ssh.chan s)) ++ Ssh.permits s in
  Account.counts (Ssh.acct (Ssh.state s)) live
  /\ (forall bytes, is_Some (Ssh.write (Ssh.state s) (Ssh.chan s) bytes))
  /\ is_Some (Ssh.drop_receiver (Ssh.state s) (Ssh.chan s))
  /\ forall b rest, Ssh.permits s ≡ₚ b :: rest -> is_Some (Ssh.drop_permit (Ssh.state s) b).
Proof.
  intros Hr live. pose proof (Ssh.ssh_reachable_inv s Hr) as Hi. split; [done |]. split; [| split].
  - intros bytes. destruct (Ssh.ssh_write_total s bytes Hi) as [r ->]. by eexists.
  - unfold Ssh.drop_receiver. destruct (counts_release_all _ _ _ Hi) as (a & -> & _). by eexists.
  - intros b rest Hp. unfold Ssh.inv in Hi. rewrite Hp, <- Permutation_middle in Hi.
    destruct (counts_release _ _ _ Hi) as (a & Ha & _). unfold Ssh.drop_permit. rewrite Ha. by eexists.
Qed.

Lemma ssh_mailbox_accounting_witness :
  exists s : Ssh.System (Q := bool * list (list Z)),
    rtc Ssh.step Ssh.start s /\ Account.bytes (Ssh.acct (Ssh.state s)) = 2
    /\ is_Some (Ssh.drop_receiver (Ssh.state s) (Ssh.chan s)).
Proof.
  eexists. eassert (Hr : rtc (Ssh.step (Q := bool * list (list Z))) Ssh.start _).
  { eapply rtc_l; [eapply (Ssh.step_write _ [1; 2]); reflexivity |]. apply rtc_refl. }
  split; [exact Hr |]. split; [reflexivity |].
  destruct (ssh_mailbox_accounting _ Hr) as (_ & _ & Hd & _). exact Hd.
Defined.

(** C25: a tmux command that the session receives was reserved in the current
    generation: no command of a detached client runs on a later attachment,
    although reserving and enqueueing are separate critical sections; and the
    account of queued, reserving and live commands stays within the limits. *)
Theorem tmux_mailbox_no_stale_command `{Channel Q Tmux.PendingCommand} s log c s' :
  Tmux.reachable s log -> Tmux.step s (Some c) s' ->
  Tmux.p_generation (Tmux.permit c) = Tmux.generation (Tmux.state s)
  /\ Tmux.generation (Tmux.state s') = Tmux.generation (Tmux.state s)
  /\ Account.counts (Tmux.acct (Tmux.state s'))
       (Tmux.costs (ch_items (Tmux.chan s')) ++ Tmux.costs (Tmux.reserving s') ++ Tmux.permits s').
Proof.
  intros Hr Hs. pose proof (Tmux.tmux_reachable_inv s log Hr) as Hi.
  pose proof (Tmux.tmux_step_inv _ _ _ Hs Hi) as [Hc _ _]. destruct Hi as [_ _ Hg].
  inversion Hs as [| | | | | s0 p q' Hdr Hrecv | | | | | |]; subst.
  apply Tmux.tmux_recv_spec in Hrecv. specialize (Hg Hdr). rewrite Hrecv in Hg.
  apply Forall_cons in Hg as [Hg _]. done.
Qed.

Lemma tmux_mailbox_no_stale_command_witness :
  exists (s s' : Tmux.System (Q := bool * list Tmux.PendingCommand)) log c,
    Tmux.reachable s log /\ Tmux.step s (Some c) s'
    /\ Tmux.generation (Tmux.state s) = 1 /\ Tmux.p_generation (Tmux.permit c) = 1.
Proof.
  eexists. eexists. eexists. eexists.
  eassert (Hr : Tmux.reachable (Q := bool * list Tmux.PendingCommand) _ _).
  { eapply Tmux.reachable_step; [eapply Tmux.reachable_step; [eapply Tmux.reachable_step;
      [eapply Tmux.reachable_step; [eapply Tmux.reachable_step; [apply Tmux.reachable_start |]
      |] |] |] |].
    - apply Tmux.step_suspend. reflexivity.
    - apply Tmux.step_drained; reflexivity.
    - apply Tmux.step_resume. reflexivity.
    - eapply (Tmux.step_reserve _ (Tmux.TmuxCommand (bs "new-window"))); reflexivity.
    - eapply Tmux.step_enqueue; [cbn; reflexivity |]. reflexivity. }
  match type of Hr with Tmux.reachable ?s _ => eassert (Hs : Tmux.step s (Some _) _) end.
  { eapply Tmux.step_recv; reflexivity. }
  split; [exact Hr |]. split; [exact Hs |]. split; [reflexivity |].
  destruct (tmux_mailbox_no_stale_command _ _ _ _ Hr Hs) as (Hg & _). exact Hg.
Defined.
