(* ===== verification/EventQueue.v ===== *)
(** * The session event queue: [session_event_queue.rs] (zzclawterm-transport)

    Every transport pushes the events of its session into one queue that
    consumers drain.  [Inner] is the state behind the mutex; each definition is
    one critical section, a wait on a condition variable ending it.  [System]
    adds the producer that holds the ordering turn and, for the statements, what
    was pushed and drained so far; [step] is one critical section of any thread.

    The payloads of notices, command contexts and tmux states are never
    inspected by the queue: they are type variables. *)
From stdpp Require Import base list numbers gmap sets relations strings.
From Stdlib Require Import ZArith Lia.
From S2P Require Import Prelude.

Definition SESSION_EVENT_QUEUE_OUTPUT_LIMIT : Z := 8 * 1024 * 1024.
Definition SESSION_EVENT_QUEUE_OUTPUT_LOW_WATERMARK : Z := SESSION_EVENT_QUEUE_OUTPUT_LIMIT / 2.
Definition SESSION_EVENT_QUEUE_OUTPUT_EVENT_LIMIT : Z := 256 * 1024.

Inductive CleanupOperation := Terminate | Wait | ReaderJoin | WriterJoin | StartupFiles.

Record SessionDrainStats := mkStats {
  drained_events : Z;
  drained_output_bytes : Z;
  queued_events_left : Z;
  queued_output_bytes_left : Z;
  dropped_output_bytes : Z
}.
Definition stats_default : SessionDrainStats := mkStats 0 0 0 0 0.

Section Queue.
Context {SessionNotice ShellCommandContext TmuxStatePayload : Type}.

Inductive SessionEvent :=
| Notice (session_id : list Z) (notice : SessionNotice)
| OutputBoundary (session_id token : list Z)
| CleanupFailed (session_id : list Z) (consumer_id : option Z) (operation : CleanupOperation)
| Output (session_id data : list Z)
| OutputDropped (session_id : list Z) (bytes : Z)
| CwdChanged (session_id cwd : list Z)
| CommandContext (session_id : list Z) (context : ShellCommandContext)
| CommandAccepted (session_id command : list Z)
| Exited (session_id reason : list Z)
| Error (session_id message : list Z)
| TmuxState (session_id : list Z) (state : TmuxStatePayload).

Definition event_session_id (e : SessionEvent) : list Z :=
  match e with
  | Output session_id _ | OutputBoundary session_id _ | OutputDropped session_id _
  | CwdChanged session_id _ | CommandContext session_id _ | CommandAccepted session_id _
  | Exited session_id _ | CleanupFailed session_id _ _ | TmuxState session_id _
  | Notice session_id _ | Error session_id _ => session_id
  end.

Record Inner := mkInner {
  events : list SessionEvent;
  queued_output_bytes : Z;
  peak_output_bytes : Z;
  output_backpressured : bool;
  producer_active : bool;
  closed : bool;
  cancelled_sessions : gset (list Z);
  consumers : gmap (list Z) Z
}.
Definition inner_default : Inner := mkInner [] 0 0 false false false ∅ ∅.

Definition set_events (i : Inner) (l : list SessionEvent) : Inner :=
  mkInner l (queued_output_bytes i) (peak_output_bytes i) (output_backpressured i)
    (producer_active i) (closed i) (cancelled_sessions i) (consumers i).
Definition set_queued (i : Inner) (n : Z) : Inner :=
  mkInner (events i) n (peak_output_bytes i) (output_backpressured i)
    (producer_active i) (closed i) (cancelled_sessions i) (consumers i).
Definition set_backpressured (i : Inner) (b : bool) : Inner :=
  mkInner (events i) (queued_output_bytes i) (peak_output_bytes i) b
    (producer_active i) (closed i) (cancelled_sessions i) (consumers i).
Definition set_active (i : Inner) (b : bool) : Inner :=
  mkInner (events i) (queued_output_bytes i) (peak_output_bytes i) (output_backpressured i)
    b (closed i) (cancelled_sessions i) (consumers i).
Definition set_consumers (i : Inner) (c : gmap (list Z) Z) : Inner :=
  mkInner (events i) (queued_output_bytes i) (peak_output_bytes i) (output_backpressured i)
    (producer_active i) (closed i) (cancelled_sessions i) c.

Definition push_back (i : Inner) (e : SessionEvent) : Inner := set_events i (events i ++ [e]).

(** ** Queries *)

Definition accepts (i : Inner) (session_id : list Z) : bool :=
  negb (closed i) && negb (bool_decide (session_id ∈ cancelled_sessions i)).

Definition session_cancelled (i : Inner) (session_id : list Z) : bool :=
  closed i || bool_decide (session_id ∈ cancelled_sessions i).

Definition session_ended (i : Inner) (session_id : list Z) : bool :=
  closed i || bool_decide (session_id ∈ cancelled_sessions i)
  || existsb (fun e => match e with Exited _ _ | Error _ _ => true | _ => false end
                       && beq (event_session_id e) session_id) (events i).

Definition consumer_for (i : Inner) (session_id : list Z) : option Z := consumers i !! session_id.

Definition event_belongs_to_consumer (i : Inner) (consumer_id : Z) (e : SessionEvent) : bool :=
  match e with
  | CleanupFailed _ owner _ => bool_decide (owner = Some consumer_id)
  | _ => bool_decide (consumers i !! event_session_id e = Some consumer_id)
  end.

Definition has_event_for_consumer (i : Inner) (consumer_id : Z) : bool :=
  existsb (event_belongs_to_consumer i consumer_id) (events i).

(** ** Producers *)

(** What one critical section of a producer's loop ends with. *)
Inductive Turn :=
| Refused
| Entered (i : Inner)
| Parked (i : Inner).

(** [begin_push], and the first loop of [push_async]. *)
Definition begin_push (i : Inner) (session_id : list Z) : Turn :=
  if negb (accepts i session_id) then Refused
  else if negb (producer_active i) then Entered (set_active i true)
  else Parked i.

(** [ProducerOrderGuard::drop]. *)
Definition end_push (i : Inner) : Inner := set_active i false.

Definition fits (i : Inner) (data : list Z) : bool :=
  saturating_add USIZE_MAX (queued_output_bytes i) (len data) <=? SESSION_EVENT_QUEUE_OUTPUT_LIMIT.

(** [push_output_chunk]. *)
Definition push_output_chunk (i : Inner) (session_id data : list Z) : Turn :=
  if negb (accepts i session_id) then Refused
  else if negb (output_backpressured i) && fits i data then
    let queued := saturating_add USIZE_MAX (queued_output_bytes i) (len data) in
    Entered
      (mkInner (events i ++ [Output session_id data]) queued (Z.max (peak_output_bytes i) queued)
        (if SESSION_EVENT_QUEUE_OUTPUT_LIMIT <=? queued then true else output_backpressured i)
        (producer_active i) (closed i) (cancelled_sessions i) (consumers i))
  else Parked (set_backpressured i true).

(** The same critical section in [push_async]. *)
Definition push_output_chunk_async (i : Inner) (session_id data : list Z) : Turn :=
  if negb (accepts i session_id) then Refused
  else if negb (output_backpressured i) && fits i data then
    let queued := queued_output_bytes i + len data in
    Entered
      (mkInner (events i ++ [Output session_id data]) queued (Z.max (peak_output_bytes i) queued)
        (SESSION_EVENT_QUEUE_OUTPUT_LIMIT <=? queued)
        (producer_active i) (closed i) (cancelled_sessions i) (consumers i))
  else Parked (set_backpressured i true).

(** Every other event. *)
Definition push_other (i : Inner) (e : SessionEvent) : Turn :=
  if negb (accepts i (event_session_id e)) then Refused else Entered (push_back i e).

(** The critical section that pushes one event of a producer's turn. *)
Definition push_one (i : Inner) (e : SessionEvent) : Turn :=
  match e with
  | Output session_id data => push_output_chunk i session_id data
  | _ => push_other i e
  end.

(** The events that one call of [push] pushes in its turn. *)
Definition split_event (e : SessionEvent) : list SessionEvent :=
  match e with
  | Output session_id data =>
      map (Output session_id)
        (filter (fun c => c <> []) (chunks (Z.to_nat SESSION_EVENT_QUEUE_OUTPUT_EVENT_LIMIT) data))
  | _ => [e]
  end.

Definition is_cleanup (e : SessionEvent) : bool :=
  match e with CleanupFailed _ _ _ => true | _ => false end.

Definition push_cleanup_failure (i : Inner) (e : SessionEvent) : Inner :=
  if closed i then i
  else if 256 <=? len (List.filter is_cleanup (events i)) then i
  else push_back i e.

(** ** Lifecycle and consumers *)

Definition resume_output_if_below_low_watermark (i : Inner) : Inner * bool :=
  if output_backpressured i && (queued_output_bytes i <=? SESSION_EVENT_QUEUE_OUTPUT_LOW_WATERMARK)
  then (set_backpressured i false, true) else (i, false).

Definition output_len (e : SessionEvent) : Z := match e with Output _ data => len data | _ => 0 end.
Definition output_sum (l : list SessionEvent) : Z := foldr Z.add 0 (map output_len l).

Definition of_session (session_id : list Z) (e : SessionEvent) : bool :=
  beq (event_session_id e) session_id.

Definition cancel_session (i : Inner) (session_id : list Z) : Inner :=
  let removed := output_sum (List.filter (of_session session_id) (events i)) in
  let i' :=
    mkInner (List.filter (fun e => negb (of_session session_id e)) (events i))
      (saturating_sub (queued_output_bytes i) removed) (peak_output_bytes i)
      (output_backpressured i) (producer_active i) (closed i)
      ({[session_id]} ∪ cancelled_sessions i) (delete session_id (consumers i)) in
  (resume_output_if_below_low_watermark i').1.

Definition resume_session (i : Inner) (session_id : list Z) : Inner :=
  if beq session_id [] then i
  else mkInner (events i) (queued_output_bytes i) (peak_output_bytes i) (output_backpressured i)
         (producer_active i) (closed i) (cancelled_sessions i ∖ {[session_id]}) (consumers i).

Definition assign_consumer (i : Inner) (session_id : list Z) (consumer_id : Z) : Inner :=
  if beq session_id [] then i else set_consumers i (<[session_id := consumer_id]> (consumers i)).

Definition clear_consumer (i : Inner) (session_id : list Z) (consumer_id : Z) : Inner :=
  if bool_decide (consumers i !! session_id = Some consumer_id)
  then set_consumers i (delete session_id (consumers i)) else i.

Definition close (i : Inner) : Inner :=
  mkInner (events i) (queued_output_bytes i) (peak_output_bytes i) (output_backpressured i)
    (producer_active i) true (cancelled_sessions i) (consumers i).

(** ** Draining *)

(** The bookkeeping of an event that leaves the queue whole. *)
Definition drained (i : Inner) (st : SessionDrainStats) (e : SessionEvent) : Inner * SessionDrainStats :=
  let n := saturating_add USIZE_MAX (drained_events st) 1 in
  match e with
  | Output _ data =>
      (set_queued i (saturating_sub (queued_output_bytes i) (len data)),
       mkStats n (saturating_add USIZE_MAX (drained_output_bytes st) (len data))
         (queued_events_left st) (queued_output_bytes_left st) (dropped_output_bytes st))
  | OutputDropped _ bytes =>
      (i, mkStats n (drained_output_bytes st) (queued_events_left st) (queued_output_bytes_left st)
            (saturating_add USIZE_MAX (dropped_output_bytes st) bytes))
  | _ =>
      (i, mkStats n (drained_output_bytes st) (queued_events_left st) (queued_output_bytes_left st)
            (dropped_output_bytes st))
  end.

(** The event at [index] leaves the queue. *)
Definition remove_at (i : Inner) (st : SessionDrainStats) (index : nat)
  : option (Inner * SessionDrainStats * SessionEvent) :=
  let* e := events i !! index in
  let (i', st') := drained (set_events i (delete index (events i))) st e in
  Some (i', st', e).

(** The output at [index] leaves the queue, cut to the budget [remaining]. *)
Definition remove_within (i : Inner) (st : SessionDrainStats) (index : nat) (remaining : Z)
  : option (Inner * SessionDrainStats * SessionEvent) :=
  match events i !! index with
  | Some (Output session_id data) =>
      let take_len := Z.min (len data) remaining in
      if take_len <? len data then
        let chunk := take (Z.to_nat take_len) data in
        let rest := drop (Z.to_nat take_len) data in
        let (i', st') := drained (set_events i (<[index := Output session_id rest]> (events i))) st
                           (Output session_id chunk) in
        Some (i', st', Output session_id chunk)
      else remove_at i st index
  | _ => remove_at i st index
  end.

Definition is_output_at (i : Inner) (index : nat) : bool :=
  match events i !! index with Some (Output _ _) => true | _ => false end.

(** One turn of the loop of [drain]; [None] leaves the loop. *)
Definition drain_turn (max_output_bytes : option Z) (i : Inner) (st : SessionDrainStats)
  : option (Inner * SessionDrainStats * SessionEvent) :=
  match max_output_bytes with
  | Some mx =>
      if (mx <=? drained_output_bytes st) && (0 <? drained_events st) && is_output_at i 0 then None
      else
        let remaining := saturating_sub mx (drained_output_bytes st) in
        if (remaining =? 0) && is_output_at i 0 then None
        else remove_within i st 0 remaining
  | None => remove_at i st 0
  end.

(** One turn of the loop of [drain_for_consumer]. *)
Definition drain_turn_for (consumer_id : Z) (max_output_bytes : option Z) (i : Inner)
  (st : SessionDrainStats) : option (Inner * SessionDrainStats * SessionEvent) :=
  let* index := position (event_belongs_to_consumer i consumer_id) (events i) in
  match max_output_bytes with
  | Some mx =>
      let remaining := saturating_sub mx (drained_output_bytes st) in
      if (remaining =? 0) && is_output_at i index then None
      else remove_within i st index remaining
  | None => remove_at i st index
  end.

(** Both loops run at most [max_events] turns, each yielding one event. *)
Fixpoint drain_loop
  (turn : Inner -> SessionDrainStats -> option (Inner * SessionDrainStats * SessionEvent))
  (max_events : nat) (i : Inner) (st : SessionDrainStats) (out : list SessionEvent)
  : Inner * SessionDrainStats * list SessionEvent :=
  match max_events with
  | O => (i, st, out)
  | S n =>
      match turn i st with
      | None => (i, st, out)
      | Some (i', st', e) => drain_loop turn n i' st' (out ++ [e])
      end
  end.

Definition with_left (st : SessionDrainStats) (n bytes : Z) : SessionDrainStats :=
  mkStats (drained_events st) (drained_output_bytes st) n bytes (dropped_output_bytes st).

Definition drain (i : Inner) (max_events : nat) (max_output_bytes : option Z)
  : Inner * SessionDrainStats * list SessionEvent :=
  let '(i', st, out) := drain_loop (drain_turn max_output_bytes) max_events i stats_default [] in
  (i', with_left st (len (events i')) (queued_output_bytes i'), out).

Definition drain_for_consumer (i : Inner) (consumer_id : Z) (max_events : nat)
  (max_output_bytes : option Z) : Inner * SessionDrainStats * list SessionEvent :=
  let '(i', st, out) :=
    drain_loop (drain_turn_for consumer_id max_output_bytes) max_events i stats_default [] in
  let mine := List.filter (event_belongs_to_consumer i' consumer_id) (events i') in
  (i', with_left st (len mine) (output_sum mine), out).

(** [drain_with_output_budget], and the blocking drains once they stop waiting. *)
Definition drain_with_output_budget (i : Inner) (max_events : nat) (max_output_bytes : option Z)
  : Inner * SessionDrainStats * list SessionEvent :=
  let '(i', st, out) := drain i max_events max_output_bytes in
  ((resume_output_if_below_low_watermark i').1, st, out).

Definition drain_for_consumer_with_output_budget (i : Inner) (consumer_id : Z) (max_events : nat)
  (max_output_bytes : option Z) : Inner * SessionDrainStats * list SessionEvent :=
  let '(i', st, out) := drain_for_consumer i consumer_id max_events max_output_bytes in
  ((resume_output_if_below_low_watermark i').1, st, out).

(** The blocking drains wait for events, a closed queue or the timeout. *)
Definition drain_waits (i : Inner) (timed_out : bool) : bool :=
  bool_decide (events i = []) && negb (closed i) && negb timed_out.
Definition consumer_waits (i : Inner) (consumer_id : Z) (timed_out : bool) : bool :=
  negb (has_event_for_consumer i consumer_id) && negb (closed i) && negb timed_out.

(** The asynchronous producer's critical section. *)
Definition push_one_async (i : Inner) (e : SessionEvent) : Turn :=
  match e with
  | Output session_id data => push_output_chunk_async i session_id data
  | _ => push_other i e
  end.

(** ** The threads *)

(** [active] is the producer that holds the turn: its session and the events it
    still has to push.  [ever_cancelled], [pushed] (the events whose turn began)
    and [taken] (the events drained) record the past. *)
Record System := mkSystem {
  inner : Inner;
  active : option (list Z * list SessionEvent);
  ever_cancelled : gset (list Z);
  pushed : list SessionEvent;
  taken : list SessionEvent
}.
Definition start : System := mkSystem inner_default None ∅ [] [].

Definition with_inner (s : System) (i : Inner) : System :=
  mkSystem i (active s) (ever_cancelled s) (pushed s) (taken s).
Definition with_turn (s : System) (i : Inner) (a : option (list Z * list SessionEvent)) : System :=
  mkSystem i a (ever_cancelled s) (pushed s) (taken s).

(** A synchronous or an asynchronous producer pushes [e]. *)
Definition pushes (i : Inner) (e : SessionEvent) (t : Turn) : Prop :=
  push_one i e = t \/ push_one_async i e = t.

Inductive step : System -> System -> Prop :=
| step_begin s e i' :
    begin_push (inner s) (event_session_id e) = Entered i' ->
    step s (mkSystem i' (Some (event_session_id e, split_event e)) (ever_cancelled s)
              (pushed s ++ [e]) (taken s))
| step_push s sid e rest i' :
    active s = Some (sid, e :: rest) -> pushes (inner s) e (Entered i') ->
    step s (with_turn s i' (Some (sid, rest)))
| step_parked s sid e rest i' :
    active s = Some (sid, e :: rest) -> pushes (inner s) e (Parked i') ->
    step s (with_inner s i')
| step_refused s sid e rest :
    active s = Some (sid, e :: rest) -> pushes (inner s) e Refused ->
    step s (with_turn s (inner s) (Some (sid, [])))
| step_end s sid :
    active s = Some (sid, []) -> step s (with_turn s (end_push (inner s)) None)
| step_cleanup s e :
    is_cleanup e = true -> step s (with_inner s (push_cleanup_failure (inner s) e))
| step_cancel s sid :
    step s (mkSystem (cancel_session (inner s) sid) (active s) ({[sid]} ∪ ever_cancelled s)
              (pushed s) (taken s))
| step_resume s sid : step s (with_inner s (resume_session (inner s) sid))
| step_assign s sid c : step s (with_inner s (assign_consumer (inner s) sid c))
| step_clear s sid c : step s (with_inner s (clear_consumer (inner s) sid c))
| step_close s : step s (with_inner s (close (inner s)))
| step_drain s n budget i' st out :
    drain_with_output_budget (inner s) n budget = (i', st, out) ->
    step s (mkSystem i' (active s) (ever_cancelled s) (pushed s) (taken s ++ out))
| step_drain_for s c n budget i' st out :
    drain_for_consumer_with_output_budget (inner s) c n budget = (i', st, out) ->
    step s (mkSystem i' (active s) (ever_cancelled s) (pushed s) (taken s ++ out)).

(** ** What the statements speak about *)

(** A queue as the stream of what it carries: output byte by byte. *)
Inductive Token := Byte (session_id : list Z) (b : Z) | Mark (e : SessionEvent).

Definition tokens_of (e : SessionEvent) : list Token :=
  match e with Output session_id data => map (Byte session_id) data | _ => [Mark e] end.
Definition tokens (l : list SessionEvent) : list Token := concat (map tokens_of l).

(** The stream of one session; cleanup diagnostics bypass the ordering turn. *)
Definition in_stream (sid : list Z) (e : SessionEvent) : bool :=
  of_session sid e && negb (is_cleanup e).
Definition stream (sid : list Z) (l : list SessionEvent) : list Token :=
  tokens (List.filter (in_stream sid) l).

Definition chunk_ok (e : SessionEvent) : Prop :=
  match e with Output _ data => 0 < len data <= SESSION_EVENT_QUEUE_OUTPUT_EVENT_LIMIT | _ => True end.

(** The state behind the mutex, between critical sections. *)
Record inner_inv (i : Inner) : Prop := {
  inv_count : queued_output_bytes i = output_sum (events i);
  inv_limit : queued_output_bytes i <= SESSION_EVENT_QUEUE_OUTPUT_LIMIT;
  inv_peak : queued_output_bytes i <= peak_output_bytes i <= SESSION_EVENT_QUEUE_OUTPUT_LIMIT;
  inv_chunks : Forall chunk_ok (events i)
}.

(** A closed gate always has enough queued output behind it to be opened. *)
Definition gate_ok (i : Inner) : Prop :=
  output_backpressured i = true -> SESSION_EVENT_QUEUE_OUTPUT_LOW_WATERMARK < queued_output_bytes i.

(** [e] leaves the queue, being the first event that [mine] selects, whole or
    cut in two. *)
Inductive leaves (mine : SessionEvent -> bool) (i : Inner) : SessionEvent -> Inner -> Prop :=
| leaves_whole a e b :
    events i = a ++ e :: b -> Forall (fun x => mine x = false) a -> mine e = true ->
    leaves mine i e
      (set_queued (set_events i (a ++ b)) (saturating_sub (queued_output_bytes i) (output_len e)))
| leaves_cut a sid chunk rest b :
    events i = a ++ Output sid (chunk ++ rest) :: b -> Forall (fun x => mine x = false) a ->
    mine (Output sid (chunk ++ rest)) = true -> chunk <> [] -> rest <> [] ->
    leaves mine i (Output sid chunk)
      (set_queued (set_events i (a ++ Output sid rest :: b))
        (saturating_sub (queued_output_bytes i) (len chunk))).

Inductive leave_all (mine : SessionEvent -> bool) : Inner -> list SessionEvent -> Inner -> Prop :=
| leave_none i : leave_all mine i [] i
| leave_more i e i1 l i' :
    leaves mine i e i1 -> leave_all mine i1 l i' -> leave_all mine i (e :: l) i'.

(** [mine] does not look at the bytes of an output. *)
Definition cut_stable (mine : SessionEvent -> bool) : Prop :=
  forall sid d d', mine (Output sid d) = mine (Output sid d').

(** [mine] selects all events of a session or none, diagnostics apart. *)
Definition session_stable (mine : SessionEvent -> bool) : Prop :=
  forall x y, event_session_id x = event_session_id y -> is_cleanup x = false ->
  is_cleanup y = false -> mine x = mine y.

(** ** Lemmas on streams and sums *)

Lemma tokens_app a b : tokens (a ++ b) = tokens a ++ tokens b.
Proof. unfold tokens. by rewrite map_app, concat_app. Qed.

Lemma tokens_cons e l : tokens (e :: l) = tokens_of e ++ tokens l.
Proof. done. Qed.

Lemma stream_app sid a b : stream sid (a ++ b) = stream sid a ++ stream sid b.
Proof. unfold stream. by rewrite List.filter_app, tokens_app. Qed.

Lemma output_sum_app a b : output_sum (a ++ b) = output_sum a + output_sum b.
Proof. unfold output_sum. induction a as [| x a IH]; cbn; [done |]. rewrite IH. lia. Qed.

Lemma output_sum_cons e l : output_sum (e :: l) = output_len e + output_sum l.
Proof. done. Qed.

Lemma output_len_nonneg e : 0 <= output_len e.
Proof. destruct e; cbn; lia. Qed.

Lemma output_sum_nonneg l : 0 <= output_sum l.
Proof.
  induction l as [| e l IH]; [done |]. rewrite output_sum_cons. pose proof (output_len_nonneg e). lia.
Qed.

Lemma output_sum_partition (f : SessionEvent -> bool) l :
  output_sum (List.filter f l) + output_sum (List.filter (fun e => negb (f e)) l) = output_sum l.
Proof.
  induction l as [| e l IH]; [done |]. cbn [List.filter].
  destruct (f e); cbn [negb]; rewrite ?output_sum_cons; lia.
Qed.

Lemma filter_none {A} (f : A -> bool) l : Forall (fun x => f x = false) l -> List.filter f l = [].
Proof. induction 1 as [| x l Hx _ IH]; cbn; [done |]. by rewrite Hx. Qed.

Lemma filter_all {A} (f : A -> bool) l : Forall (fun x => f x = true) l -> List.filter f l = l.
Proof. induction 1 as [| x l Hx _ IH]; cbn; [done |]. by rewrite Hx, IH. Qed.

(** The stream of one output, and of the chunks it is cut into. *)
Lemma stream_outputs sid sid' l :
  stream sid (map (Output sid') l) = if beq sid' sid then map (Byte sid') (concat l) else [].
Proof.
  induction l as [| c l IH]; [by destruct (beq _ _) |]. cbn [map].
  change (Output sid' c :: map (Output sid') l) with ([Output sid' c] ++ map (Output sid') l).
  rewrite stream_app, IH. unfold stream, in_stream, of_session.
  cbn [List.filter event_session_id is_cleanup negb].
  destruct (beq sid' sid); cbn [andb]; [| done].
  rewrite tokens_cons. cbn. by rewrite app_nil_r, map_app.
Qed.

Lemma concat_nonempty {A} (l : list (list A)) : concat (filter (fun c => c <> []) l) = concat l.
Proof.
  induction l as [| c l IH]; [done |]. rewrite filter_cons. destruct (decide (c <> [])) as [Hc | Hc].
  - cbn. by rewrite IH.
  - destruct c; [done | by contradict Hc].
Qed.

Lemma stream_split_event sid e : stream sid (split_event e) = stream sid [e].
Proof.
  destruct e as [| | | sid' data | | | | | | |]; try done. unfold split_event.
  rewrite stream_outputs, concat_nonempty, chunks_concat
    by (unfold SESSION_EVENT_QUEUE_OUTPUT_EVENT_LIMIT; lia).
  change [Output sid' data] with (map (Output sid') [data]). rewrite stream_outputs. cbn.
  by rewrite app_nil_r.
Qed.

(** ** Lemmas on what leaves the queue *)

(** What a removal leaves alone. *)
Definition same_context (i i' : Inner) : Prop :=
  peak_output_bytes i' = peak_output_bytes i /\ output_backpressured i' = output_backpressured i
  /\ producer_active i' = producer_active i /\ closed i' = closed i
  /\ cancelled_sessions i' = cancelled_sessions i /\ consumers i' = consumers i.

#[local] Instance same_context_trans : Transitive same_context.
Proof. intros x y z (?&?&?&?&?&?) (?&?&?&?&?&?). unfold same_context. split_and!; congruence. Qed.

Lemma leaves_context mine i e i' : leaves mine i e i' -> same_context i i'.
Proof. by destruct 1. Qed.

(** The selected events keep their order, and the others are not touched. *)
Lemma leaves_tokens mine i e i' :
  cut_stable mine -> leaves mine i e i' ->
  mine e = true
  /\ tokens_of e ++ tokens (List.filter mine (events i')) = tokens (List.filter mine (events i))
  /\ List.filter (fun x => negb (mine x)) (events i') = List.filter (fun x => negb (mine x)) (events i).
Proof.
  intros Hcut [a e0 b Hev Ha He | a sid chunk rest b Hev Ha He _ _]; rewrite Hev; cbn [events set_queued set_events];
    rewrite !List.filter_app; cbn [List.filter]; rewrite (filter_none mine a Ha).
  - rewrite He. done.
  - rewrite (Hcut sid chunk (chunk ++ rest)), (Hcut sid rest (chunk ++ rest)), He. cbn [app negb].
    rewrite !tokens_cons. cbn [tokens_of]. by rewrite map_app, <- app_assoc.
Qed.

Lemma leaves_sum mine i e i' :
  leaves mine i e i' -> output_sum (events i) = output_len e + output_sum (events i').
Proof.
  intros [a e0 b Hev _ _ | a sid chunk rest b Hev _ _ _ _]; rewrite Hev; cbn [events set_queued set_events];
    rewrite !output_sum_app, ?output_sum_cons; cbn [output_len]; rewrite ?length_app; lia.
Qed.

Lemma leaves_queued mine i e i' :
  leaves mine i e i' -> queued_output_bytes i' = saturating_sub (queued_output_bytes i) (output_len e).
Proof. by destruct 1. Qed.

Lemma leaves_inv mine i e i' : leaves mine i e i' -> inner_inv i -> inner_inv i'.
Proof.
  intros Hl [Hc Hlim Hpk Hch]. pose proof (leaves_sum _ _ _ _ Hl). pose proof (leaves_queued _ _ _ _ Hl) as Hq.
  destruct (leaves_context _ _ _ _ Hl) as (Hp & _). pose proof (output_len_nonneg e).
  pose proof (output_sum_nonneg (events i')). unfold saturating_sub in Hq.
  constructor; try lia.
  destruct Hl as [a e0 b Hev _ _ | a sid chunk rest b Hev _ _ Hc1 Hr]; rewrite Hev in Hch; cbn;
    apply Forall_app in Hch as [Ha [Hx Hb]%Forall_cons].
  - by apply Forall_app.
  - apply Forall_app. split; [done |]. apply Forall_cons. split; [| done]. cbn in Hx |- *.
    rewrite length_app in Hx. destruct rest; [done |]. cbn in Hx |- *. lia.
Qed.

(** The stream of a session is conserved. *)
Lemma leaves_stream mine i e i' sid :
  cut_stable mine -> session_stable mine -> leaves mine i e i' ->
  stream sid [e] ++ stream sid (events i') = stream sid (events i).
Proof.
  intros Hcut Hses Hl.
  assert (Hcase : in_stream sid e = false \/ forall a, Forall (fun x => mine x = false) a -> stream sid a = []).
  { destruct (in_stream sid e) eqn:Ee; [right | by left]. intros a Ha. unfold stream.
    rewrite filter_none; [done |]. eapply Forall_impl; [exact Ha |]. intros x Hx. cbn in Hx.
    destruct (in_stream sid x) eqn:Ex; [| done]. unfold in_stream, of_session in Ee, Ex.
    apply andb_true_iff in Ee as [E1%beq_true E2%negb_true_iff].
    apply andb_true_iff in Ex as [E3%beq_true E4%negb_true_iff].
    pose proof (leaves_tokens mine i e i' Hcut Hl) as (Hm & _).
    rewrite (Hses x e) in Hx by congruence. congruence. }
  destruct Hl as [a e0 b Hev Ha He | a sid' chunk rest b Hev Ha He _ _]; rewrite Hev; cbn [events set_queued set_events].
  - change (e0 :: b) with ([e0] ++ b). rewrite !stream_app. destruct Hcase as [Hn | Hz].
    + assert (stream sid [e0] = []) as -> by (unfold stream; cbn [List.filter]; by rewrite Hn). done.
    + by rewrite (Hz a Ha).
  - change (Output sid' rest :: b) with ([Output sid' rest] ++ b).
    change (Output sid' (chunk ++ rest) :: b) with ([Output sid' (chunk ++ rest)] ++ b).
    rewrite !stream_app.
    assert (Hone : forall d, stream sid [Output sid' d] = if beq sid' sid then map (Byte sid') d else []).
    { intros d. change [Output sid' d] with (map (Output sid') [d]). rewrite stream_outputs. cbn.
      by rewrite app_nil_r. }
    rewrite !Hone. unfold in_stream, of_session in Hcase. cbn in Hcase. rewrite andb_true_r in Hcase.
    destruct (beq sid' sid); [| done]. destruct Hcase as [? | Hz]; [done |].
    rewrite (Hz a Ha), map_app. cbn. by rewrite <- app_assoc.
Qed.

(** The same along a whole drain. *)
Lemma leave_all_context mine i l i' : leave_all mine i l i' -> same_context i i'.
Proof.
  induction 1 as [| i e i1 l i' Hl _ IH]; [done |]. etransitivity; [by eapply leaves_context | done].
Qed.

Lemma leave_all_inv mine i l i' : leave_all mine i l i' -> inner_inv i -> inner_inv i'.
Proof. induction 1; eauto using leaves_inv. Qed.

Lemma leave_all_tokens mine i l i' :
  cut_stable mine -> leave_all mine i l i' ->
  Forall (fun e => mine e = true) l
  /\ tokens l ++ tokens (List.filter mine (events i')) = tokens (List.filter mine (events i))
  /\ List.filter (fun x => negb (mine x)) (events i') = List.filter (fun x => negb (mine x)) (events i).
Proof.
  intros Hcut. induction 1 as [| i e i1 l i' Hl _ (IH0 & IH1 & IH2)]; [done |].
  destruct (leaves_tokens mine i e i1 Hcut Hl) as (H0 & H1 & H2). rewrite tokens_cons, <- app_assoc, IH1, H1.
  split_and!; [by constructor | done | congruence].
Qed.

Lemma leave_all_sum mine i l i' :
  leave_all mine i l i' -> output_sum (events i) = output_sum l + output_sum (events i').
Proof.
  induction 1 as [| i e i1 l i' Hl _ IH]; [done |].
  rewrite output_sum_cons, (leaves_sum _ _ _ _ Hl). lia.
Qed.

Lemma leave_all_stream mine i l i' sid :
  cut_stable mine -> session_stable mine -> leave_all mine i l i' ->
  stream sid l ++ stream sid (events i') = stream sid (events i).
Proof.
  intros Hc Hs. induction 1 as [| i e i1 l i' Hl _ IH]; [done |].
  change (e :: l) with ([e] ++ l). rewrite stream_app, <- app_assoc, IH. by eapply leaves_stream.
Qed.

(** ** Lemmas on the drain loops *)

Lemma drained_spec i st e :
  0 <= queued_output_bytes i ->
  drained i st e = (set_queued i (saturating_sub (queued_output_bytes i) (output_len e)), (drained i st e).2)
  /\ drained_events (drained i st e).2 = saturating_add USIZE_MAX (drained_events st) 1
  /\ (0 <= drained_output_bytes st <= USIZE_MAX ->
      drained_output_bytes (drained i st e).2
      = saturating_add USIZE_MAX (drained_output_bytes st) (output_len e)).
Proof.
  intros Hq. destruct e; cbn [drained output_len fst snd drained_events drained_output_bytes];
    unfold saturating_sub, saturating_add;
    (split_and!; [destruct i; unfold set_queued; cbn in *; do 2 f_equal; lia | done | intros; lia]).
Qed.

Lemma drained_stats i i' st e : (drained i st e).2 = (drained i' st e).2.
Proof. by destruct e. Qed.

(** The event [e], which [mine] selects first, can leave the queue whole. *)
Lemma remove_at_leaves mine i st a e b :
  0 <= queued_output_bytes i ->
  events i = a ++ e :: b -> Forall (fun x => mine x = false) a -> mine e = true ->
  exists i', remove_at i st (length a) = Some (i', (drained i st e).2, e) /\ leaves mine i e i'.
Proof.
  intros Hq Hev Ha He. unfold remove_at. rewrite Hev, list_lookup_middle by done.
  rewrite delete_middle. set (i1 := set_events i (a ++ b)).
  destruct (drained_spec i1 st e Hq) as (Hd & _ & _). rewrite Hd. rewrite (drained_stats i1 i).
  eexists. split; [done |]. by refine (leaves_whole mine i a e b _ _ _).
Qed.

(** Within a budget, what leaves does not exceed it. *)
Lemma remove_within_leaves mine i st a e b remaining :
  0 <= queued_output_bytes i -> 0 <= remaining -> (0 < output_len e -> 0 < remaining) ->
  events i = a ++ e :: b -> Forall (fun x => mine x = false) a -> mine e = true ->
  exists i' e', remove_within i st (length a) remaining = Some (i', (drained i st e').2, e')
  /\ leaves mine i e' i' /\ output_len e' <= remaining.
Proof.
  intros Hq Hr Hpos Hev Ha He.
  assert (Hwhole : output_len e <= remaining -> exists i' e',
    remove_at i st (length a) = Some (i', (drained i st e').2, e') /\ leaves mine i e' i' /\ output_len e' <= remaining).
  { intros Hle. destruct (remove_at_leaves mine i st a e b Hq Hev Ha He) as (i' & ? & ?). by exists i', e. }
  unfold remove_within. pose proof (list_lookup_middle a b e (length a) eq_refl) as Hat. rewrite <- Hev in Hat.
  rewrite Hat. destruct e as [| | | sid d | | | | | | |]; try (apply Hwhole; cbn; lia).
  cbn [output_len] in *. destruct (Z.ltb_spec (Z.min (len d) remaining) (len d)) as [Hlt | Hge]; [| apply Hwhole; lia].
  clear Hwhole. assert (Hr1 : 0 < remaining) by lia. rewrite (Z.min_r (len d) remaining) in * by lia.
  set (chunk := take (Z.to_nat remaining) d). set (rest := drop (Z.to_nat remaining) d).
  assert (Hd : d = chunk ++ rest) by (symmetry; apply take_drop).
  assert (Hlen : len chunk = remaining) by (unfold chunk; rewrite length_take; lia).
  set (i1 := set_events i _). destruct (drained_spec i1 st (Output sid chunk) Hq) as (Hdr & _ & _).
  rewrite Hdr, (drained_stats i1 i). eexists _, _. split; [done |]. split; [| cbn; lia].
  unfold i1. rewrite Hev, insert_app_r_alt, Nat.sub_diag by lia. cbn [list_insert insert].
  refine (leaves_cut mine i a sid chunk rest b _ Ha _ _ _); [congruence | congruence | |].
  - intros Hz. rewrite Hz in Hlen. cbn in Hlen. lia.
  - intros Hz. assert (length rest = 0%nat) by (by rewrite Hz). unfold rest in *. rewrite length_drop in *. lia.
Qed.

(** The first selected event is an output that the budget leaves in the queue. *)
Definition budget_used (mine : SessionEvent -> bool) (budget : option Z) (i : Inner) (st : SessionDrainStats) : Prop :=
  exists mx a sid data b, budget = Some mx /\ mx <= drained_output_bytes st
  /\ events i = a ++ Output sid data :: b /\ Forall (fun x => mine x = false) a
  /\ mine (Output sid data) = true.

(** What one turn of a drain loop does, for the consumers [cs]. *)
Definition turn_spec (cs : gmap (list Z) Z) (mine : SessionEvent -> bool) (budget : option Z)
  (turn : Inner -> SessionDrainStats -> option (Inner * SessionDrainStats * SessionEvent)) : Prop :=
  forall i st, consumers i = cs -> inner_inv i ->
  (turn i st = None /\ (Forall (fun x => mine x = false) (events i) \/ budget_used mine budget i st))
  \/ exists i' e, turn i st = Some (i', (drained i st e).2, e) /\ leaves mine i e i'
     /\ forall mx, budget = Some mx ->
          output_len e <= saturating_sub mx (drained_output_bytes st).

(** Both turns remove the first selected event, within the budget. *)
Lemma budget_turn mine budget i st a e b :
  inner_inv i -> events i = a ++ e :: b -> Forall (fun x => mine x = false) a -> mine e = true ->
  let turn :=
    match budget with
    | Some mx =>
        let remaining := saturating_sub mx (drained_output_bytes st) in
        if (remaining =? 0) && is_output_at i (length a) then None
        else remove_within i st (length a) remaining
    | None => remove_at i st (length a)
    end in
  (turn = None /\ budget_used mine budget i st)
  \/ exists i' e', turn = Some (i', (drained i st e').2, e') /\ leaves mine i e' i'
     /\ forall mx, budget = Some mx -> output_len e' <= saturating_sub mx (drained_output_bytes st).
Proof.
  intros Hi Hev Ha He. assert (Hq : 0 <= queued_output_bytes i)
    by (rewrite (inv_count i Hi); apply output_sum_nonneg).
  destruct budget as [mx |]; cbn zeta.
  2:{ right. destruct (remove_at_leaves mine i st a e b Hq Hev Ha He) as (i' & ? & ?).
      by exists i', e. }
  set (remaining := saturating_sub mx (drained_output_bytes st)).
  assert (Hr : 0 <= remaining) by (unfold remaining, saturating_sub; lia).
  destruct ((remaining =? 0) && is_output_at i (length a)) eqn:Eg.
  - left. split; [done |]. apply andb_true_iff in Eg as [E1%Z.eqb_eq E2].
    unfold is_output_at in E2. rewrite Hev, list_lookup_middle in E2 by done.
    destruct e as [| | | sid d | | | | | | |]; try done. exists mx, a, sid, d, b.
    unfold remaining, saturating_sub in E1. split_and!; try done. lia.
  - right. destruct (remove_within_leaves mine i st a e b remaining Hq Hr) as (i' & e' & H1 & H2 & H3); try done.
    { intros Hpos. destruct (Z.eqb_spec remaining 0) as [-> |]; [| lia].
      unfold is_output_at in Eg. rewrite Hev, list_lookup_middle in Eg by done. by destruct e. }
    exists i', e'. split_and!; [done | done |]. intros mx' [= <-]. done.
Qed.

Lemma drain_turn_spec cs budget : turn_spec cs (fun _ => true) budget (drain_turn budget).
Proof.
  intros i st _ Hi. destruct (events i) as [| e b] eqn:Hev.
  - left. split; [| left; done]. unfold drain_turn, remove_within, remove_at, is_output_at. rewrite Hev.
    destruct budget; [| done]. by rewrite !andb_false_r.
  - assert (Hguard : drain_turn budget i st =
      match budget with
      | Some mx =>
          let remaining := saturating_sub mx (drained_output_bytes st) in
          if (remaining =? 0) && is_output_at i 0 then None else remove_within i st 0 remaining
      | None => remove_at i st 0
      end).
    { unfold drain_turn. destruct budget as [mx |]; [| done]. cbn zeta.
      destruct (_ && (0 <? _) && _) eqn:E; [| done].
      apply andb_true_iff in E as [[E1%Z.leb_le _]%andb_true_iff ->].
      assert (saturating_sub mx (drained_output_bytes st) = 0) as -> by (unfold saturating_sub; lia). done. }
    rewrite Hguard.
    destruct (budget_turn (fun _ => true) budget i st [] e b Hi Hev) as [[H1 H2] | H1]; try done; [left; auto | by right].
Qed.

Lemma drain_turn_for_spec i0 c budget :
  turn_spec (consumers i0) (event_belongs_to_consumer i0 c) budget (drain_turn_for c budget).
Proof.
  intros i st Hcs Hi. unfold drain_turn_for.
  assert (Hmine : event_belongs_to_consumer i c = event_belongs_to_consumer i0 c)
    by (unfold event_belongs_to_consumer; by rewrite Hcs).
  rewrite Hmine. set (mine := event_belongs_to_consumer i0 c).
  destruct (position mine (events i)) as [index |] eqn:Ep.
  2:{ left. split; [done |]. left. by apply position_None. }
  apply position_Some in Ep as (x & Hev & Hx & Ha & Hlt).
  assert (Hlen : length (take index (events i)) = index) by (rewrite length_take; lia).
  destruct (budget_turn mine budget i st _ x _ Hi Hev Ha Hx) as [[H1 H2] | H1]; rewrite Hlen in H1;
    [left; auto | by right].
Qed.

(** The whole loop: what left the queue, why it stopped, and, the counters being
    in range, what the statistics say. *)
Lemma drain_loop_spec cs mine budget turn n i st out :
  turn_spec cs mine budget turn -> consumers i = cs -> inner_inv i ->
  exists i' st' l, drain_loop turn n i st out = (i', st', out ++ l) /\ leave_all mine i l i'
  /\ (length l <= n)%nat
  /\ (length l = n \/ Forall (fun x => mine x = false) (events i') \/ budget_used mine budget i' st')
  /\ (0 <= drained_events st -> drained_events st + Z.of_nat n <= USIZE_MAX ->
      0 <= drained_output_bytes st -> drained_output_bytes st + output_sum (events i) <= USIZE_MAX ->
      drained_events st' = drained_events st + len l
      /\ drained_output_bytes st' = drained_output_bytes st + output_sum l
      /\ forall mx, budget = Some mx -> drained_output_bytes st' <= Z.max mx (drained_output_bytes st)).
Proof.
  intros Ht. revert i st out. induction n as [| n IH]; intros i st out Hcs Hi.
  { exists i, st, []. cbn. rewrite app_nil_r. split_and!; [done | constructor | done | by left |].
    intros. split_and!; cbn; lia. }
  cbn [drain_loop].
  destruct (Ht i st Hcs Hi) as [[-> Hstop] | (i1 & e & -> & Hl & Hb)].
  { exists i, st, []. rewrite app_nil_r. split_and!; [done | constructor | cbn; lia | by right |].
    intros. split_and!; cbn; lia. }
  destruct (leaves_context _ _ _ _ Hl) as (_ & _ & _ & _ & _ & Hcs1).
  destruct (IH i1 (drained i st e).2 (out ++ [e])) as (i' & st' & l & Hrun & Hla & Hn & Hstop & Hst);
    [congruence | by eapply leaves_inv |].
  exists i', st', (e :: l). rewrite <- app_assoc in Hrun. split_and!; [done | by econstructor | cbn; lia | |].
  { destruct Hstop as [| Hstop]; [left; cbn; lia | by right]. }
  intros H1 H2 H3 H4. pose proof (leaves_sum _ _ _ _ Hl). pose proof (output_len_nonneg e).
  pose proof (output_sum_nonneg (events i1)). assert (Hq : 0 <= queued_output_bytes i)
    by (rewrite (inv_count i Hi); apply output_sum_nonneg).
  destruct (drained_spec i st e Hq) as (_ & He1 & He2). specialize (He2 ltac:(lia)).
  unfold saturating_add in He1, He2. rewrite output_sum_cons. cbn [length].
  destruct Hst as (Hs1 & Hs2 & Hs3); try lia. split_and!; [lia | lia |].
  intros mx Hmx. specialize (Hs3 mx Hmx). specialize (Hb mx Hmx). unfold saturating_sub in Hb. lia.
Qed.

Lemma all_stable : cut_stable (fun _ => true) /\ session_stable (fun _ => true).
Proof. done. Qed.

Lemma consumer_stable i c :
  cut_stable (event_belongs_to_consumer i c) /\ session_stable (event_belongs_to_consumer i c).
Proof.
  split; [done |]. intros x y He Hx Hy. destruct x, y; cbn in *; try done; by rewrite He.
Qed.

Lemma filter_true {A} (l : list A) : List.filter (fun _ => true) l = l.
Proof. apply filter_all, Forall_true. done. Qed.

(** A drain takes what [mine] selects out of the queue. *)
Definition drains (mine : SessionEvent -> bool) (i : Inner) (out : list SessionEvent) (i' : Inner) : Prop :=
  exists i1, leave_all mine i out i1 /\ i' = (resume_output_if_below_low_watermark i1).1.

Lemma drain_drains i n budget i' st out :
  inner_inv i -> drain_with_output_budget i n budget = (i', st, out) -> drains (fun _ => true) i out i'.
Proof.
  intros Hi. unfold drain_with_output_budget, drain.
  destruct (drain_loop_spec _ _ _ _ n i stats_default [] (drain_turn_spec (consumers i) budget) eq_refl Hi)
    as (i1 & st1 & l & -> & Hl & _). intros [= <- _ <-]. by exists i1.
Qed.

Lemma drain_for_drains i c n budget i' st out :
  inner_inv i -> drain_for_consumer_with_output_budget i c n budget = (i', st, out) ->
  drains (event_belongs_to_consumer i c) i out i'.
Proof.
  intros Hi. unfold drain_for_consumer_with_output_budget, drain_for_consumer.
  destruct (drain_loop_spec _ _ _ _ n i stats_default [] (drain_turn_for_spec i c budget) eq_refl Hi)
    as (i1 & st1 & l & -> & Hl & _). intros [= <- _ <-]. by exists i1.
Qed.

(** ** The invariant of the threads *)

Record inv (s : System) : Prop := {
  inv_inner : inner_inv (inner s);
  inv_gate : gate_ok (inner s);
  inv_turn : producer_active (inner s) = bool_decide (is_Some (active s));
  inv_pending : forall sid l, active s = Some (sid, l) ->
    Forall (fun e => event_session_id e = sid /\ chunk_ok e) l;
  inv_cancelled : cancelled_sessions (inner s) ⊆ ever_cancelled s
}.

Lemma resume_inv i : inner_inv i -> inner_inv (resume_output_if_below_low_watermark i).1.
Proof.
  intros []. unfold resume_output_if_below_low_watermark. destruct (_ && _); by constructor.
Qed.

Lemma resume_gate i : gate_ok (resume_output_if_below_low_watermark i).1.
Proof.
  unfold resume_output_if_below_low_watermark, gate_ok.
  destruct (output_backpressured i) eqn:E; cbn; [| congruence].
  destruct (Z.leb_spec (queued_output_bytes i) SESSION_EVENT_QUEUE_OUTPUT_LOW_WATERMARK); cbn; done.
Qed.

Lemma resume_fields i :
  let i' := (resume_output_if_below_low_watermark i).1 in
  events i' = events i /\ producer_active i' = producer_active i /\ closed i' = closed i
  /\ cancelled_sessions i' = cancelled_sessions i.
Proof. unfold resume_output_if_below_low_watermark. by destruct (_ && _). Qed.

Lemma split_event_ok e :
  Forall (fun x => event_session_id x = event_session_id e /\ chunk_ok x) (split_event e).
Proof.
  destruct e as [| | | sid data | | | | | | |]; try by repeat constructor. unfold split_event.
  apply Forall_map, Forall_forall. intros c Hc.
  apply list_elem_of_filter in Hc as [Hne Hc]. split; [done |].
  assert (Hb := chunks_bound (Z.to_nat SESSION_EVENT_QUEUE_OUTPUT_EVENT_LIMIT) data
    ltac:(unfold SESSION_EVENT_QUEUE_OUTPUT_EVENT_LIMIT; lia)).
  rewrite Forall_forall in Hb. specialize (Hb c Hc). destruct c; [done |].
  cbn -[Z.to_nat] in *. unfold SESSION_EVENT_QUEUE_OUTPUT_EVENT_LIMIT in *. lia.
Qed.

Lemma low_watermark : SESSION_EVENT_QUEUE_OUTPUT_LOW_WATERMARK = 4 * 1024 * 1024.
Proof. done. Qed.

(** The two producers run the same critical section. *)
Lemma push_one_async_eq i e : inner_inv i -> push_one_async i e = push_one i e.
Proof.
  intros Hi. destruct e as [| | | sid data | | | | | | |]; try done. cbn.
  unfold push_output_chunk_async, push_output_chunk, fits, saturating_add.
  destruct (accepts i sid); cbn; [| done]. destruct (output_backpressured i); cbn; [done |].
  destruct (Z.leb_spec (Z.min USIZE_MAX (queued_output_bytes i + len data)) SESSION_EVENT_QUEUE_OUTPUT_LIMIT)
    as [H | H]; [| done].
  rewrite Z.min_r in * by (unfold SESSION_EVENT_QUEUE_OUTPUT_LIMIT in *; lia).
  by destruct (_ <=? _).
Qed.

Lemma pushes_eq i e t : inner_inv i -> pushes i e t -> push_one i e = t.
Proof. intros Hi [H | H]; [done |]. by rewrite <- (push_one_async_eq i e Hi). Qed.

(** An appended event that is not an output costs nothing. *)
Lemma push_back_inv i e : inner_inv i -> output_len e = 0 -> chunk_ok e -> inner_inv (push_back i e).
Proof.
  intros [Hc Hl Hp Hch] He Hok. unfold push_back.
  constructor; cbn [set_events events queued_output_bytes peak_output_bytes]; try done.
  - rewrite output_sum_app, output_sum_cons, He. cbn. lia.
  - apply Forall_app. split; [done |]. by constructor.
Qed.

(** What the critical section of a push does. *)
Definition push_post (i : Inner) (e : SessionEvent) (t : Turn) : Prop :=
  match t with
  | Entered i' =>
      events i' = events i ++ [e] /\ inner_inv i' /\ gate_ok i'
      /\ producer_active i' = producer_active i /\ closed i' = closed i
      /\ cancelled_sessions i' = cancelled_sessions i
  | Parked i' => i' = set_backpressured i true /\ gate_ok i'
  | Refused => accepts i (event_session_id e) = false
  end.

Lemma push_output_spec i sid data :
  inner_inv i -> gate_ok i -> chunk_ok (Output sid data) ->
  push_post i (Output sid data) (push_output_chunk i sid data).
Proof.
  intros Hi Hg Hok. pose proof Hi as [Hc Hl Hp Hch]. pose proof (output_sum_nonneg (events i)).
  unfold push_output_chunk, fits, saturating_add. cbn in Hok.
  destruct (accepts i sid) eqn:Ea; cbn [negb]; [| done].
  destruct (output_backpressured i) eqn:Eb; cbn [negb andb].
  { split; [done |]. intros _. by apply Hg. }
  unfold SESSION_EVENT_QUEUE_OUTPUT_EVENT_LIMIT, SESSION_EVENT_QUEUE_OUTPUT_LIMIT in *.
  destruct (Z.leb_spec (Z.min 18446744073709551615 (queued_output_bytes i + len data)) (8 * 1024 * 1024)) as [Hf | Hf].
  - rewrite Z.min_r in * by lia. split_and!; try done; cbn [queued_output_bytes output_backpressured].
    + constructor; cbn [events queued_output_bytes peak_output_bytes];
        unfold SESSION_EVENT_QUEUE_OUTPUT_LIMIT; try lia.
      * rewrite output_sum_app, output_sum_cons. cbn. lia.
      * apply Forall_app. split; [done |]. by constructor.
    + unfold gate_ok. rewrite low_watermark.
      cbn [queued_output_bytes output_backpressured].
      destruct (Z.leb_spec (8 * 1024 * 1024) (queued_output_bytes i + len data)); [intros _; lia | done].
  - split; [done |]. intros _. cbn [queued_output_bytes set_backpressured].
    rewrite low_watermark. lia.
Qed.

Lemma push_one_spec i e :
  inner_inv i -> gate_ok i -> chunk_ok e -> push_post i e (push_one i e).
Proof.
  intros Hi Hg Hok. destruct e as [| | | sid data | | | | | | |]; [| | | by apply push_output_spec | | | | | | |].
  all: cbn [push_one]; unfold push_other; destruct (accepts i _) eqn:Ea; cbn [negb]; [| done];
    split_and!; try done; by apply push_back_inv.
Qed.

(** Below the low watermark an accepted push never waits. *)
Lemma push_one_enters i e :
  inner_inv i -> gate_ok i -> chunk_ok e -> accepts i (event_session_id e) = true ->
  output_sum (events i) <= SESSION_EVENT_QUEUE_OUTPUT_LOW_WATERMARK ->
  exists i', push_one i e = Entered i'.
Proof.
  intros Hi Hg Hok Ha Hlow. rewrite <- (inv_count i Hi) in Hlow.
  destruct e as [| | | sid data | | | | | | |];
    cbn [push_one event_session_id] in *; unfold push_other, push_output_chunk; cbn [event_session_id];
    rewrite Ha; cbn [negb]; try by eexists.
  destruct (output_backpressured i) eqn:Eb; [specialize (Hg Eb); lia |].
  assert (fits i data = true) as ->; [| by eexists].
  unfold fits, saturating_add. apply Z.leb_le. cbn in Hok.
  rewrite low_watermark in Hlow.
  unfold SESSION_EVENT_QUEUE_OUTPUT_EVENT_LIMIT, SESSION_EVENT_QUEUE_OUTPUT_LIMIT in *. lia.
Qed.

Lemma drains_inv mine i out i' :
  drains mine i out i' -> inner_inv i ->
  inner_inv i' /\ gate_ok i' /\ producer_active i' = producer_active i /\ closed i' = closed i
  /\ cancelled_sessions i' = cancelled_sessions i.
Proof.
  intros (i1 & Hl & ->) Hi. destruct (resume_fields i1) as (_ & -> & -> & ->).
  destruct (leave_all_context _ _ _ _ Hl) as (_ & _ & -> & -> & -> & _).
  split; [by eapply resume_inv, leave_all_inv |]. split; [apply resume_gate | done].
Qed.

(** [cancel_session] before the gate is looked at again. *)
Lemma cancel_inv i sid :
  inner_inv i -> inner_inv (cancel_session i sid) /\ gate_ok (cancel_session i sid)
  /\ producer_active (cancel_session i sid) = producer_active i
  /\ closed (cancel_session i sid) = closed i
  /\ cancelled_sessions (cancel_session i sid) = {[sid]} ∪ cancelled_sessions i
  /\ events (cancel_session i sid) = List.filter (fun e => negb (of_session sid e)) (events i).
Proof.
  intros [Hc Hl Hp Hch]. unfold cancel_session. set (i1 := mkInner _ _ _ _ _ _ _ _).
  destruct (resume_fields i1) as (-> & -> & -> & ->).
  split_and!; try done; [| apply resume_gate]. apply resume_inv.
  pose proof (output_sum_partition (of_session sid) (events i)).
  pose proof (output_sum_nonneg (List.filter (of_session sid) (events i))).
  pose proof (output_sum_nonneg (List.filter (fun e => negb (of_session sid e)) (events i))).
  constructor; cbn -[output_sum]; unfold saturating_sub; try lia.
  apply Forall_forall. intros x Hx. rewrite Forall_forall in Hch. apply Hch.
  apply list_elem_of_In in Hx. apply filter_In in Hx as [Hx _]. by apply list_elem_of_In.
Qed.

(** Operations that change neither the queued output nor the gate. *)
Lemma inner_inv_ext i i' :
  events i' = events i -> queued_output_bytes i' = queued_output_bytes i ->
  peak_output_bytes i' = peak_output_bytes i -> output_backpressured i' = output_backpressured i ->
  inner_inv i -> gate_ok i -> inner_inv i' /\ gate_ok i'.
Proof.
  intros He Hq Hp Hb [H1 H2 H3 H4] Hg. split.
  - constructor; rewrite ?He, ?Hq, ?Hp; done.
  - unfold gate_ok. by rewrite Hb, Hq.
Qed.

Lemma event_queue_start_inv : inv start.
Proof.
  constructor; try done; constructor; try done; cbn; unfold SESSION_EVENT_QUEUE_OUTPUT_LIMIT; lia.
Qed.

(** Replacing the state behind the mutex, the turn being unchanged. *)
Lemma with_inner_inv s i' :
  inv s -> inner_inv i' /\ gate_ok i' -> producer_active i' = producer_active (inner s) ->
  cancelled_sessions i' ⊆ ever_cancelled s -> inv (with_inner s i').
Proof. intros [? ? Ht ? ?] [? ?] Ha ?. constructor; try done. cbn. by rewrite Ha. Qed.

Lemma turn_step_inv s s' :
  inv s ->
  (exists e i', begin_push (inner s) (event_session_id e) = Entered i'
     /\ s' = mkSystem i' (Some (event_session_id e, split_event e)) (ever_cancelled s) (pushed s ++ [e]) (taken s))
  \/ (exists sid e rest i', active s = Some (sid, e :: rest) /\ pushes (inner s) e (Entered i')
        /\ s' = with_turn s i' (Some (sid, rest)))
  \/ (exists sid e rest i', active s = Some (sid, e :: rest) /\ pushes (inner s) e (Parked i')
        /\ s' = with_inner s i') ->
  inv s'.
Proof.
  intros Hi Hcase. pose proof Hi as [Hin Hg Ht Hpend Hcan].
  destruct Hcase as [(e & i' & Hb & ->) | [(sid & e & rest & i' & Ha & Hp & ->) | (sid & e & rest & i' & Ha & Hp & ->)]].
  - unfold begin_push in Hb. destruct (accepts _ _); cbn in Hb; [| done].
    destruct (producer_active (inner s)); cbn in Hb; simplify_eq.
    destruct (inner_inv_ext (inner s) (set_active (inner s) true)) as [H1 H2]; try done.
    constructor; try done. intros sid l [= <- <-]. apply split_event_ok.
  - pose proof (Hpend _ _ Ha) as Hl. apply Forall_cons in Hl as [[He Hok] Hl].
    apply pushes_eq in Hp; [| done]. pose proof (push_one_spec _ _ Hin Hg Hok) as Hpost. rewrite Hp in Hpost.
    destruct Hpost as (Hev & H1 & H2 & H3 & H4 & H5). constructor; try done; cbn.
    + rewrite H3, Ht, Ha. done.
    + intros sid' l [= <- <-]. done.
    + by rewrite H5.
  - pose proof (Hpend _ _ Ha) as Hl. apply Forall_cons in Hl as [[He Hok] Hl].
    apply pushes_eq in Hp; [| done]. pose proof (push_one_spec _ _ Hin Hg Hok) as Hpost. rewrite Hp in Hpost.
    destruct Hpost as (-> & H2). apply with_inner_inv; try done. split; [| done].
    destruct Hin. by constructor.
Qed.

Lemma event_queue_step_inv s s' : step s s' -> inv s -> inv s'.
Proof.
  intros Hs Hi. pose proof Hi as [Hin Hg Ht Hpend Hcan]. destruct Hs as
    [s e i' Hb | s sid e rest i' Ha Hp | s sid e rest i' Ha Hp | s sid e rest Ha Hp | s sid Ha | s e He | s sid | s sid
    | s sid c | s sid c | s | s n budget i' st out Hd | s c n budget i' st out Hd].
  - eapply turn_step_inv; [done |]. left. eauto.
  - eapply turn_step_inv; [done |]. right. left. eauto 10.
  - eapply turn_step_inv; [done |]. right. right. eauto 10.
  - constructor; try done; cbn; [by rewrite Ht, Ha |]. intros sid' l [= <- <-]. done.
  - destruct (inner_inv_ext (inner s) (end_push (inner s))) as [H1 H2]; try done.
  - unfold push_cleanup_failure. destruct (closed _); [by apply with_inner_inv |].
    destruct (256 <=? _); apply with_inner_inv; try done. split; [| done].
    apply push_back_inv; [done | |]; by destruct e.
  - destruct (cancel_inv (inner s) sid Hin) as (H1 & H2 & H3 & H4 & H5 & _).
    constructor; try done; cbn; [by rewrite H3 | rewrite H5; set_solver].
  - unfold resume_session. destruct (beq _ _); apply with_inner_inv; try done; [| cbn; set_solver].
    by apply (inner_inv_ext (inner s)).
  - unfold assign_consumer. destruct (beq _ _); apply with_inner_inv; try done.
    by apply (inner_inv_ext (inner s)).
  - unfold clear_consumer. destruct (bool_decide (_ = Some c)); apply with_inner_inv; try done.
    by apply (inner_inv_ext (inner s)).
  - apply with_inner_inv; try done. by apply (inner_inv_ext (inner s)).
  - destruct (drains_inv _ _ _ _ (drain_drains _ _ _ _ _ _ Hin Hd) Hin) as (H1 & H2 & H3 & H4 & H5).
    constructor; try done; cbn; [by rewrite H3 | by rewrite H5].
  - destruct (drains_inv _ _ _ _ (drain_for_drains _ _ _ _ _ _ _ Hin Hd) Hin) as (H1 & H2 & H3 & H4 & H5).
    constructor; try done; cbn; [by rewrite H3 | by rewrite H5].
Qed.

Lemma event_queue_reachable_inv s : rtc step start s -> inv s.
Proof.
  assert (H : forall s0, rtc step s0 s -> inv s0 -> inv s) by (induction 1; eauto using event_queue_step_inv).
  intros Hr. apply (H start Hr), event_queue_start_inv.
Qed.

(** ** Conservation of the streams *)
#[local] Arguments stream : simpl never.

Definition pending (s : System) : list SessionEvent :=
  match active s with Some (_, l) => l | None => [] end.

Definition conserved (sid : list Z) (s : System) : Prop :=
  sid ∉ ever_cancelled s -> closed (inner s) = false ->
  stream sid (taken s) ++ stream sid (events (inner s)) ++ stream sid (pending s) = stream sid (pushed s).

Lemma stream_other sid l : Forall (fun e => in_stream sid e = false) l -> stream sid l = [].
Proof. intros H. unfold stream. by rewrite filter_none. Qed.

Lemma stream_filter_other sid sid' l :
  sid <> sid' -> stream sid (List.filter (fun e => negb (of_session sid' e)) l) = stream sid l.
Proof.
  intros Hne. unfold stream. f_equal. induction l as [| e l IH]; [done |]. cbn [List.filter].
  unfold in_stream at 2. unfold of_session in *. destruct (beq (event_session_id e) sid') eqn:E; cbn [negb].
  - apply beq_true in E. destruct (beq (event_session_id e) sid) eqn:E2; [| done].
    apply beq_true in E2. congruence.
  - cbn [List.filter]. rewrite IH. done.
Qed.

Lemma accepts_false s sid :
  inv s -> accepts (inner s) sid = false -> closed (inner s) = false -> sid ∈ ever_cancelled s.
Proof.
  intros Hi Ha Hc. unfold accepts in Ha. rewrite Hc in Ha. cbn in Ha.
  apply negb_false_iff, bool_decide_eq_true_1 in Ha. by apply (inv_cancelled s Hi).
Qed.

Lemma refused_conserved sid s psid e rest :
  inv s -> conserved sid s -> active s = Some (psid, e :: rest) -> pushes (inner s) e Refused ->
  conserved sid (with_turn s (inner s) (Some (psid, []))).
Proof.
  intros Hi Hc Ha Hp Hn Hcl. cbn in *. specialize (Hc Hn Hcl). unfold pending in *. rewrite Ha in Hc. cbn.
  pose proof (inv_pending s Hi _ _ Ha) as Hl. pose proof (Forall_inv Hl) as [He Hok].
  apply pushes_eq in Hp; [| apply Hi].
  pose proof (push_one_spec _ e (inv_inner s Hi) (inv_gate s Hi) Hok) as Hpost. rewrite Hp in Hpost. cbn in Hpost.
  apply (accepts_false s _ Hi) in Hpost; [| done]. rewrite He in Hpost.
  rewrite <- Hc. rewrite (stream_other sid (e :: rest)); [done |].
  eapply Forall_impl; [exact Hl |]. intros x [Hx _]. unfold in_stream, of_session. rewrite Hx.
  destruct (beq psid sid) eqn:E; [| done]. apply beq_true in E. by subst.
Qed.

Lemma drains_conserved mine sid s i' out :
  cut_stable mine -> session_stable mine -> inv s -> drains mine (inner s) out i' -> conserved sid s ->
  conserved sid (mkSystem i' (active s) (ever_cancelled s) (pushed s) (taken s ++ out)).
Proof.
  intros Hcut Hses Hi Hd Hc Hn Hcl. destruct (drains_inv _ _ _ _ Hd (inv_inner s Hi)) as (_ & _ & _ & Hclo & _).
  cbn in Hn, Hcl |- *. rewrite Hclo in Hcl. rewrite <- (Hc Hn Hcl). destruct Hd as (i1 & Hl & ->).
  destruct (resume_fields i1) as (-> & _). rewrite stream_app, <- app_assoc. f_equal.
  change (pending (mkSystem _ _ _ _ _)) with (pending s).
  by rewrite app_assoc, (leave_all_stream mine _ _ _ sid Hcut Hses Hl).
Qed.

Lemma begin_conserved sid s e i' :
  inv s -> begin_push (inner s) (event_session_id e) = Entered i' -> conserved sid s ->
  conserved sid (mkSystem i' (Some (event_session_id e, split_event e)) (ever_cancelled s)
                   (pushed s ++ [e]) (taken s)).
Proof.
  intros Hi Hb Hc Hn Hcl. unfold begin_push in Hb. destruct (accepts _ _); cbn in Hb; [| done].
  destruct (producer_active (inner s)) eqn:Ep; cbn in Hb; simplify_eq.
  pose proof (inv_turn s Hi) as Ht. rewrite Ep in Ht. symmetry in Ht. apply bool_decide_eq_false_1 in Ht.
  specialize (Hc Hn Hcl). unfold pending in *. destruct (active s); [by destruct Ht |]. cbn in *.
  rewrite stream_split_event, (stream_app sid (pushed s)), <- Hc. cbn [stream List.filter].
  by rewrite <- !app_assoc.
Qed.

(** A critical section that keeps the session's queue, or closes it. *)
Lemma inner_conserved sid s i' :
  conserved sid s -> stream sid (events i') = stream sid (events (inner s)) ->
  (closed i' = false -> closed (inner s) = false) -> conserved sid (with_inner s i').
Proof. intros Hc Hs Hcl Hn Hclo. cbn. rewrite Hs. apply Hc; [done |]. by apply Hcl. Qed.

Lemma cleanup_stream sid i e :
  is_cleanup e = true -> stream sid (events (push_cleanup_failure i e)) = stream sid (events i).
Proof.
  intros He. unfold push_cleanup_failure. destruct (closed i); [done |]. destruct (256 <=? _); [done |].
  cbn. rewrite stream_app, (stream_other sid [e]); [by rewrite app_nil_r |].
  apply Forall_singleton. unfold in_stream. by rewrite He, andb_false_r.
Qed.

Lemma step_conserved sid s s' : step s s' -> inv s -> conserved sid s -> conserved sid s'.
Proof.
  intros Hs Hi Hc. pose proof Hi as [Hin Hg Ht Hpend Hcan]. destruct Hs as
    [s e i' Hb | s psid e rest i' Ha Hp | s psid e rest i' Ha Hp | s psid e rest Ha Hp | s psid Ha | s e He | s psid | s psid
    | s psid c | s psid c | s | s n budget i' st out Hd | s c n budget i' st out Hd].
  - by apply begin_conserved.
  - pose proof (Forall_inv (Hpend _ _ Ha)) as [He Hok]. apply pushes_eq in Hp; [| done].
    pose proof (push_one_spec _ _ Hin Hg Hok) as Hpost. rewrite Hp in Hpost.
    destruct Hpost as (Hev & _ & _ & _ & Hcl & _). intros Hn Hclo. cbn in Hn, Hclo |- *. rewrite Hcl in Hclo.
    rewrite <- (Hc Hn Hclo). unfold pending. rewrite Ha, Hev. cbn.
    change (e :: rest) with ([e] ++ rest). by rewrite !stream_app, <- !app_assoc.
  - pose proof (Forall_inv (Hpend _ _ Ha)) as [He Hok]. apply pushes_eq in Hp; [| done].
    pose proof (push_one_spec _ _ Hin Hg Hok) as Hpost. rewrite Hp in Hpost.
    destruct Hpost as (-> & _). by apply inner_conserved.
  - by eapply refused_conserved.
  - intros Hn Hclo. specialize (Hc Hn Hclo). unfold pending in *. rewrite Ha in Hc. done.
  - apply inner_conserved; [done | by apply cleanup_stream |]. unfold push_cleanup_failure.
    destruct (closed (inner s)) eqn:E; [congruence |]. by destruct (256 <=? _).
  - intros Hn Hclo. destruct (cancel_inv (inner s) psid Hin) as (_ & _ & _ & H4 & _ & H6). cbn in *.
    rewrite H4 in Hclo. rewrite H6, stream_filter_other by set_solver. apply Hc; [set_solver | done].
  - unfold resume_session. by destruct (beq _ _); apply inner_conserved.
  - unfold assign_consumer. by destruct (beq _ _); apply inner_conserved.
  - unfold clear_consumer. by destruct (bool_decide (_ = Some c)); apply inner_conserved.
  - by apply inner_conserved.
  - destruct all_stable. by eapply drains_conserved, Hc; [| | | eapply drain_drains].
  - destruct (consumer_stable (inner s) c). by eapply drains_conserved, Hc; [| | | eapply drain_for_drains].
Qed.

Lemma reachable_conserved sid s : rtc step start s -> conserved sid s.
Proof.
  assert (H : forall s0, rtc step s0 s -> inv s0 /\ conserved sid s0 -> inv s /\ conserved sid s)
    by (induction 1; [done |]; intros [? ?]; eauto using event_queue_step_inv, step_conserved).
  intros Hr. apply (H start Hr). split; [apply event_queue_start_inv | done].
Qed.

(** The state after a drain, from the loop's specification. *)
Lemma drain_loop_total cs mine budget turn n i :
  turn_spec cs mine budget turn -> consumers i = cs -> inner_inv i ->
  Z.of_nat n <= USIZE_MAX -> (forall mx, budget = Some mx -> 0 <= mx) ->
  exists i' st l, drain_loop turn n i stats_default [] = (i', st, l) /\ leave_all mine i l i'
  /\ (length l <= n)%nat /\ drained_events st = len l /\ drained_output_bytes st = output_sum l
  /\ (forall mx, budget = Some mx -> output_sum l <= mx)
  /\ (length l = n \/ Forall (fun x => mine x = false) (events i') \/ budget_used mine budget i' st).
Proof.
  intros Ht Hcs Hi Hn Hb.
  destruct (drain_loop_spec cs mine budget turn n i stats_default [] Ht Hcs Hi)
    as (i' & st & l & Hrun & Hl & Hlen & Hstop & Hst).
  assert (output_sum (events i) <= SESSION_EVENT_QUEUE_OUTPUT_LIMIT)
    by (rewrite <- (inv_count i Hi); apply (inv_limit i Hi)).
  unfold SESSION_EVENT_QUEUE_OUTPUT_LIMIT in *.
  destruct Hst as (H1 & H2 & H3); cbn [stats_default drained_events drained_output_bytes] in *; try lia.
  exists i', st, l. split_and!; try done. intros mx Hmx. specialize (H3 mx Hmx). specialize (Hb mx Hmx). lia.
Qed.

(** ** Properties *)

(** C7: the bytes of an uncancelled session reach the consumers in the order in
    which they were pushed, none lost, duplicated or interleaved with another
    producer's: under any interleaving of synchronous and asynchronous
    producers, drains, consumer changes and cancellations of other sessions,
    what was drained, what is queued and what the producer holding the turn has
    yet to push add up to the events whose turn began, in turn order. *)
Theorem event_queue_conserves_streams sid s :
  rtc step start s -> sid ∉ ever_cancelled s -> closed (inner s) = false ->
  stream sid (taken s) ++ stream sid (events (inner s)) ++ stream sid (pending s) = stream sid (pushed s).
Proof. intros Hr. exact (reachable_conserved sid s Hr). Qed.

(** C33: in every reachable state the queue counts exactly the output it holds,
    at most 8 MiB in nonempty chunks of at most 256 KiB; the gate that parks
    producers is closed only while more than the low watermark is queued; and
    the producer that holds the turn is not parked once at most the low
    watermark is queued, so a consumer that drains always lets it go on. *)
Theorem event_queue_backpressure s :
  rtc step start s ->
  let i := inner s in
  queued_output_bytes i = output_sum (events i)
  /\ output_sum (events i) <= peak_output_bytes i <= SESSION_EVENT_QUEUE_OUTPUT_LIMIT
  /\ Forall chunk_ok (events i)
  /\ (output_backpressured i = true -> SESSION_EVENT_QUEUE_OUTPUT_LOW_WATERMARK < output_sum (events i))
  /\ producer_active i = bool_decide (is_Some (active s))
  /\ (forall sid e rest, active s = Some (sid, e :: rest) -> accepts i sid = true ->
      output_sum (events i) <= SESSION_EVENT_QUEUE_OUTPUT_LOW_WATERMARK ->
      (exists i', push_one i e = Entered i') /\ push_one_async i e = push_one i e).
Proof.
  intros Hr i. destruct (event_queue_reachable_inv s Hr) as [Hin Hg Ht Hpend _].
  pose proof Hin as [H1 H2 H3 H4]. fold i in Hin, Hg, Ht, H1, H2, H3, H4. rewrite <- H1.
  split_and!; try done; try lia. intros sid e rest Ha Hacc Hlow.
  pose proof (Forall_inv (Hpend _ _ Ha)) as [He Hok]. rewrite H1 in Hlow. subst sid.
  split; [by apply push_one_enters | by apply push_one_async_eq].
Qed.

(** [drain] always returns, taking the front of the queue in order and
    cutting an output only to meet the byte budget; its statistics are exact,
    neither limit is exceeded, and it stops early only when the queue is empty
    or the budget is used up before an output. *)
Theorem event_queue_drain i n budget :
  inner_inv i -> Z.of_nat n <= USIZE_MAX -> (forall mx, budget = Some mx -> 0 <= mx) ->
  exists i' st out, drain i n budget = (i', st, out) /\ inner_inv i'
  /\ tokens out ++ tokens (events i') = tokens (events i)
  /\ (length out <= n)%nat /\ (forall mx, budget = Some mx -> output_sum out <= mx)
  /\ drained_events st = len out /\ drained_output_bytes st = output_sum out
  /\ queued_events_left st = len (events i') /\ queued_output_bytes_left st = output_sum (events i')
  /\ (length out = n \/ events i' = []
      \/ exists sid data rest, budget = Some (output_sum out) /\ events i' = Output sid data :: rest).
Proof.
  intros Hi Hn Hb.
  destruct (drain_loop_total _ _ _ _ n i (drain_turn_spec (consumers i) budget) eq_refl Hi Hn Hb)
    as (i' & st & l & Hrun & Hl & Hlen & H1 & H2 & H3 & Hstop).
  pose proof (leave_all_inv _ _ _ _ Hl Hi) as Hi'. exists i', (with_left st (len (events i')) (queued_output_bytes i')), l.
  unfold drain. rewrite Hrun. destruct (leave_all_tokens _ _ _ _ (proj1 all_stable) Hl) as (_ & Htok & _).
  rewrite !filter_true in Htok. split_and!; try done; [apply (inv_count i' Hi') |].
  destruct Hstop as [| [Hz | (mx & a & sid & data & b & Hmx & Hle & Hev & Ha & _)]]; [by left | |].
  - right. left. destruct (events i'); [done |]. apply Forall_inv in Hz. done.
  - right. right. destruct a; [| apply Forall_inv in Ha; done]. exists sid, data, b. split; [| done].
    rewrite Hmx. f_equal. specialize (H3 mx Hmx). lia.
Qed.

(** A drain for one consumer takes that consumer's events in order and
    leaves every event of the others in place; its statistics are exact, neither
    limit is exceeded, and it stops early only when the consumer has no event
    left or the budget is used up before an output of its own. *)
Theorem event_queue_drain_for_consumer i c n budget :
  inner_inv i -> Z.of_nat n <= USIZE_MAX -> (forall mx, budget = Some mx -> 0 <= mx) ->
  let mine := event_belongs_to_consumer i c in
  exists i' st out, drain_for_consumer i c n budget = (i', st, out) /\ inner_inv i'
  /\ Forall (fun e => mine e = true) out
  /\ tokens out ++ tokens (List.filter mine (events i')) = tokens (List.filter mine (events i))
  /\ List.filter (fun e => negb (mine e)) (events i') = List.filter (fun e => negb (mine e)) (events i)
  /\ (length out <= n)%nat /\ (forall mx, budget = Some mx -> output_sum out <= mx)
  /\ drained_events st = len out /\ drained_output_bytes st = output_sum out
  /\ queued_events_left st = len (List.filter mine (events i'))
  /\ (length out = n \/ has_event_for_consumer i' c = false
      \/ exists a sid data rest, budget = Some (output_sum out) /\ events i' = a ++ Output sid data :: rest
         /\ Forall (fun e => mine e = false) a /\ mine (Output sid data) = true).
Proof.
  intros Hi Hn Hb mine.
  destruct (drain_loop_total _ _ _ _ n i (drain_turn_for_spec i c budget) eq_refl Hi Hn Hb)
    as (i' & st & l & Hrun & Hl & Hlen & H1 & H2 & H3 & Hstop).
  pose proof (leave_all_inv _ _ _ _ Hl Hi) as Hi'.
  destruct (leave_all_context _ _ _ _ Hl) as (_ & _ & _ & _ & _ & Hcs).
  assert (Hmine : event_belongs_to_consumer i' c = mine)
    by (unfold mine, event_belongs_to_consumer; by rewrite Hcs).
  destruct (leave_all_tokens _ _ _ _ (proj1 (consumer_stable i c)) Hl) as (Hall & Htok & Hoth).
  exists i'. eexists _, l. unfold drain_for_consumer, has_event_for_consumer. rewrite Hrun, Hmine.
  split_and!; try done.
  destruct Hstop as [| [Hz | (mx & a & sid & data & b & Hmx & Hle & Hev & Ha & Hm)]]; [by left | |].
  - right. left. clear -Hz. induction Hz as [| x l Hx _ IH]; [done |]. cbn. fold mine in Hx. by rewrite Hx, IH.
  - right. right. exists a, sid, data, b. split_and!; try done.
    rewrite Hmx. f_equal. specialize (H3 mx Hmx). lia.
Qed.

End Queue.

(** ** Witnesses: one session, one byte of whose output is drained *)
Section Witnesses.
#[local] Abbreviation sys := (@System unit unit unit).

Lemma event_queue_conserves_streams_witness :
  exists s : sys, rtc step start s /\ taken s = [Output (bs "a") (bs "h")]
  /\ stream (bs "a") (taken s) ++ stream (bs "a") (events (inner s)) ++ stream (bs "a") (pending s)
     = stream (bs "a") [Output (bs "a") (bs "hi")].
Proof.
  eexists. eassert (Hr : rtc (@step unit unit unit) start _).
  { eapply rtc_l; [apply (step_begin _ (Output (bs "a") (bs "hi"))); vm_compute; reflexivity |].
    eapply rtc_l; [eapply (step_push _ (bs "a") (Output (bs "a") (bs "hi")) []);
      [vm_compute; reflexivity | left; vm_compute; reflexivity] |].
    eapply rtc_l; [eapply (step_drain _ 1%nat (Some 1)); vm_compute; reflexivity |].
    apply rtc_refl. }
  split; [exact Hr |]. split; [vm_compute; reflexivity |].
  refine (eq_trans (event_queue_conserves_streams (bs "a") _ Hr _ _) _); [| reflexivity | reflexivity].
  apply not_elem_of_empty.
Defined.

Lemma event_queue_backpressure_witness :
  exists s : sys, rtc step start s /\ active s <> None
  /\ producer_active (inner s) = bool_decide (is_Some (active s)).
Proof.
  eexists. eassert (Hr : rtc (@step unit unit unit) start _).
  { eapply rtc_l; [apply (step_begin _ (Output (bs "a") (bs "hi"))); vm_compute; reflexivity |].
    apply rtc_refl. }
  split; [exact Hr |]. split; [discriminate |].
  destruct (event_queue_backpressure _ Hr) as (_ & _ & _ & _ & Ht & _). exact Ht.
Defined.

(** A queue with two outputs and a notice between them. *)
Definition sample : @Inner unit unit unit :=
  mkInner [Output (bs "a") (bs "hi"); Notice (bs "b") tt; Output (bs "a") (bs "yo")] 4 4
    false false false ∅ {[bs "a" := 7]}.

Lemma sample_inv : inner_inv sample.
Proof.
  constructor; try done.
  repeat apply Forall_cons_2; cbn; unfold SESSION_EVENT_QUEUE_OUTPUT_EVENT_LIMIT; try lia; done.
Qed.

Lemma event_queue_drain_witness :
  exists i' st out, drain sample 2 (Some 1) = (i', st, out)
  /\ tokens out ++ tokens (events i') = tokens (events sample) /\ drained_output_bytes st = output_sum out.
Proof.
  destruct (event_queue_drain sample 2 (Some 1) sample_inv) as (i' & st & out & H1 & _ & H2 & _ & _ & _ & H3 & _).
  - discriminate.
  - intros mx [= <-]. discriminate.
  - exists i', st, out. split; [exact H1 |]. split; [exact H2 | exact H3].
Defined.

Lemma event_queue_drain_for_consumer_witness :
  exists i' st out, drain_for_consumer sample 7 2 (Some 3) = (i', st, out)
  /\ tokens out ++ tokens (List.filter (event_belongs_to_consumer sample 7) (events i'))
     = tokens (List.filter (event_belongs_to_consumer sample 7) (events sample)).
Proof.
  destruct (event_queue_drain_for_consumer sample 7 2 (Some 3) sample_inv)
    as (i' & st & out & H1 & _ & _ & H2 & _).
  - discriminate.
  - intros mx [= <-]. discriminate.
  - exists i', st, out. split; [exact H1 | exact H2].
Defined.

End Witnesses.
