(* ===== verification/TmuxControl.v ===== *)
(** * tmux control mode: [tmux/control.rs] (zzclawterm-transport)

    The incremental line parser ([Module Parser]), the escaping of pane output,
    the control messages ([parse_line]) and the layout strings ([Module Layout]).
    Positions in a layout string are indices, as in the code; a parser's [?] is
    [None].  The recursion of [parse_cell] has fuel: one unit per nested cell,
    and one unit per sibling in [children_loop]; the length of the string is
    enough of both ([parse_cell_fuel]). *)
From stdpp Require Import base list numbers strings.
From Stdlib Require Import ZArith Lia.
From S2P Require Import Prelude Text.

(** ** The line parser *)
Module Parser.

Record ControlParser := mk { bytes : list Z; consumed : nat }.
Definition new : ControlParser := mk [] 0.

Definition push (p : ControlParser) (data : list Z) : ControlParser :=
  if (0 <? consumed p)%nat then mk (drop (consumed p) (bytes p) ++ data) 0
  else mk (bytes p ++ data) (consumed p).

Definition next_line (p : ControlParser) : option (list Z) * ControlParser :=
  let start := consumed p in
  match position (fun b => b =? 10) (drop start (bytes p)) with
  | None => (None, p)
  | Some offset =>
      let stop := (start + offset)%nat in
      let slice := drop start (take stop (bytes p)) in
      (Some (strip_cr slice), mk (bytes p) (stop + 1))
  end.

Definition take_pending (p : ControlParser) : list Z * ControlParser :=
  (drop (consumed p) (bytes p), mk [] 0).

(** A call of the parser and what it returns. *)
Inductive Call := Push (data : list Z) | NextLine | TakePending.
Inductive Reply := Pushed | Line (l : option (list Z)) | Pending (l : list Z).

Definition call (p : ControlParser) (c : Call) : Reply * ControlParser :=
  match c with
  | Push data => (Pushed, push p data)
  | NextLine => let (l, p') := next_line p in (Line l, p')
  | TakePending => let (l, p') := take_pending p in (Pending l, p')
  end.

Fixpoint run (p : ControlParser) (cs : list Call) : list Reply :=
  match cs with
  | [] => []
  | c :: cs' => let (r, p') := call p c in r :: run p' cs'
  end.

End Parser.

(** What the parser promises: a queue of bytes from which lines are taken. *)
Module Lines.

Definition next_line (q : list Z) : option (list Z) * list Z :=
  match split_once 10 q with
  | Some (line, rest) => (Some (strip_cr line), rest)
  | None => (None, q)
  end.

Definition call (q : list Z) (c : Parser.Call) : Parser.Reply * list Z :=
  match c with
  | Parser.Push data => (Parser.Pushed, q ++ data)
  | Parser.NextLine => let (l, q') := next_line q in (Parser.Line l, q')
  | Parser.TakePending => (Parser.Pending q, [])
  end.

Fixpoint run (q : list Z) (cs : list Parser.Call) : list Parser.Reply :=
  match cs with
  | [] => []
  | c :: cs' => let (r, q') := call q c in r :: run q' cs'
  end.

End Lines.

(** ** Escaped output *)

Definition octal (b : Z) : bool := (48 <=? b) && (b <=? 55).

Fixpoint unescape_octal (l : list Z) : list Z :=
  match l with
  | b0 :: rest =>
      match rest with
      | b1 :: b2 :: b3 :: rest' =>
          if (b0 =? 92) && ((48 <=? b1) && (b1 <=? 51)) && (octal b2 && octal b3)
          then wrap 8 ((b1 - 48) * 64 + (b2 - 48) * 8 + (b3 - 48)) :: unescape_octal rest'
          else b0 :: unescape_octal rest
      | _ => b0 :: unescape_octal rest
      end
  | [] => []
  end.

(** The escaping that tmux documents, for the bytes that [p] selects. *)
Definition escape_byte (p : Z -> bool) (b : Z) : list Z :=
  if p b then [92; 48 + b / 64; 48 + b / 8 mod 8; 48 + b mod 8] else [b].
Definition escape_octal (p : Z -> bool) (l : list Z) : list Z := concat (map (escape_byte p) l).

(** ** Layouts *)
Module Layout.

Inductive LayoutCell := Cell {
  width : Z;
  height : Z;
  x : Z;
  y : Z;
  pane : option Z;
  columns : bool;
  children : list LayoutCell
}.

Definition is_leaf (c : LayoutCell) : bool := match children c with [] => true | _ => false end.

Fixpoint pane_ids (c : LayoutCell) : list Z :=
  match pane c with
  | Some p => [p]
  | None => concat (map pane_ids (children c))
  end.

Fixpoint find_pane (c : LayoutCell) (p : Z) : option LayoutCell :=
  if bool_decide (pane c = Some p) then Some c
  else (fix find_in (l : list LayoutCell) : option LayoutCell :=
          match l with
          | [] => None
          | child :: l' => match find_pane child p with Some r => Some r | None => find_in l' end
          end) (children c).

Definition is_digit (b : Z) : bool := (48 <=? b) && (b <=? 57).

Fixpoint parse_u32_loop (l : list Z) (i : nat) (value : Z) (seen : bool) : option (Z * nat) :=
  match l with
  | b :: l' =>
      if is_digit b
      then parse_u32_loop l' (S i) (saturating_add U32_MAX (saturating_mul U32_MAX value 10) (b - 48)) true
      else if seen then Some (value, i) else None
  | [] => if seen then Some (value, i) else None
  end.

Definition parse_u32 (input : list Z) (pos : nat) : option (Z * nat) :=
  parse_u32_loop (drop pos input) pos 0 false.

(** [i < input.len() && input[i] == b]. *)
Definition byte_at (input : list Z) (i : nat) (b : Z) : bool := bool_decide (input !! i = Some b).

(** The four numbers that open a cell. *)
Definition parse_dims (input : list Z) (pos : nat) : option (Z * Z * Z * Z * nat) :=
  let* (width, i) := parse_u32 input pos in
  if negb (byte_at input i 120) then None else
  let* (height, i) := parse_u32 input (i + 1) in
  if negb (byte_at input i 44) then None else
  let* (x, i) := parse_u32 input (i + 1) in
  if negb (byte_at input i 44) then None else
  let* (y, i) := parse_u32 input (i + 1) in
  Some (width, height, x, y, i).

(** The loop over the children of a cell. *)
Fixpoint children_loop (parse : nat -> option (LayoutCell * nat)) (fuel : nat) (input : list Z)
  (closer : Z) (i : nat) (acc : list LayoutCell) : option (list LayoutCell * nat) :=
  match fuel with
  | O => None
  | S fuel' =>
      let* (child, next) := parse i in
      let acc := acc ++ [child] in
      match input !! next with
      | Some b =>
          if b =? 44 then children_loop parse fuel' input closer (next + 1) acc
          else if b =? closer then Some (acc, (next + 1)%nat) else Some (acc, next)
      | None => Some (acc, next)
      end
  end.

Fixpoint parse_cell (fuel : nat) (input : list Z) (pos : nat) : option (LayoutCell * nat) :=
  match fuel with
  | O => None
  | S fuel' =>
      let* (width, height, x, y, i) := parse_dims input pos in
      match input !! i with
      | Some b =>
          if (b =? 123) || (b =? 91) then
            let columns := b =? 123 in
            let closer := if columns then 125 else 93 in
            let* (children, i) :=
              children_loop (parse_cell fuel' input) (length input) input closer (i + 1) [] in
            Some (Cell width height x y None columns children, i)
          else if b =? 44 then
            match parse_u32 input (i + 1) with
            | Some (pane, next) => Some (Cell width height x y (Some pane) false [], next)
            | None => Some (Cell width height x y None false [], (i + 1)%nat)
            end
          else Some (Cell width height x y None false [], i)
      | None => Some (Cell width height x y None false [], i)
      end
  end.

Definition is_hexdigit (b : Z) : bool :=
  is_digit b || ((65 <=? b) && (b <=? 70)) || ((97 <=? b) && (b <=? 102)).

Fixpoint hex_len (l : list Z) : nat :=
  match l with b :: l' => if is_hexdigit b then S (hex_len l') else 0 | [] => 0 end.

Definition parse_layout (input : list Z) : option (LayoutCell * nat) :=
  let i := hex_len input in
  if negb (byte_at input i 44) then None else parse_cell (S (length input)) input (i + 1).

(** The layout that tmux prints for a cell. *)
Section Join.
Context {A : Type} (f : A -> list Z).
Fixpoint join (l : list A) : list Z :=
  match l with
  | [] => []
  | [a] => f a
  | a :: l' => f a ++ 44 :: join l'
  end.
End Join.

Definition print_dims (w h x y : Z) : list Z :=
  show_u64 w ++ 120 :: show_u64 h ++ 44 :: show_u64 x ++ 44 :: show_u64 y.

Fixpoint print_cell (c : LayoutCell) : list Z :=
  print_dims (width c) (height c) (x c) (y c)
  ++ match pane c with
     | Some p => 44 :: show_u64 p
     | None =>
         (if columns c then 123 else 91) :: join print_cell (children c)
         ++ [if columns c then 125 else 93]
     end.

(** A cell that tmux prints: a pane, or a split with at least one child. *)
Definition u32_ok (n : Z) : bool := (0 <=? n) && (n <=? U32_MAX).
Fixpoint layout_ok (c : LayoutCell) : bool :=
  u32_ok (width c) && u32_ok (height c) && u32_ok (x c) && u32_ok (y c)
  && match pane c with
     | Some p => u32_ok p && negb (columns c) && is_leaf c
     | None => negb (is_leaf c) && forallb layout_ok (children c)
     end.

End Layout.

(** ** Control messages *)
Module Message.

Record BlockId := mkBlock { time : Z; number : Z; flags : Z }.

#[global] Instance block_id_eq_dec : EqDecision BlockId.
Proof. solve_decision. Defined.

Definition parse_u64 (l : list Z) : option Z := from_str_radix 10 U64_MAX l.

Definition parse_block_id (line : list Z) : option BlockId :=
  match drop 1 (split_whitespace line) with
  | t :: n :: f :: rest =>
      let* time := parse_u64 t in
      let* number := parse_u64 n in
      let* flags := parse_u64 f in
      match rest with [] => Some (mkBlock time number flags) | _ => None end
  | _ => None
  end.

Inductive ControlMessage :=
| Begin (id : BlockId)
| End_ (id : BlockId)
| Error (id : BlockId)
| Output (pane data : list Z)
| ExtendedOutput (pane : list Z) (age : Z) (data : list Z)
| LayoutChange (window : list Z) (layout visible_layout : Layout.LayoutCell) (flags : list Z)
| WindowAdd (window : list Z)
| WindowClose (window : list Z)
| WindowRenamed (window name : list Z)
| WindowPaneChanged (window pane : list Z)
| PaneExited (pane : list Z)
| PaneModeChanged (pane : list Z)
| SessionChanged (session : list Z)
| SessionWindowChanged (window : list Z)
| SessionRenamed (session : list Z)
| SessionsChanged
| ClientSessionChanged
| ClientDetached (client : list Z)
| Pause (pane : list Z)
| Continue (pane : list Z)
| Exit (reason : option (list Z))
| ConfigError (text : list Z)
| Message (text : list Z)
| Ignored.

Definition id_arg (token : list Z) : option (list Z) :=
  match token with
  | b :: _ :: _ => if (b =? 37) || (b =? 64) || (b =? 36) then Some token else None
  | _ => None
  end.

Definition rest_after_keyword (line keyword : list Z) : option (list Z) :=
  trim_start <$> strip_prefix keyword line.

Definition args_id (line keyword : list Z) : option (list Z) :=
  let* args := rest_after_keyword line keyword in
  let* token := head (split_whitespace args) in
  id_arg token.

(** [Option::or_else]. *)
Definition or_else {A} (o p : option A) : option A := match o with Some _ => o | None => p end.

(** The words of the arguments of a notification. *)
Definition args_words (line keyword : list Z) : option (list (list Z)) :=
  split_whitespace <$> rest_after_keyword line keyword.

Definition keyword_byte (b : Z) : bool :=
  ((48 <=? b) && (b <=? 57)) || ((65 <=? b) && (b <=? 90)) || ((97 <=? b) && (b <=? 122)) || (b =? 45).

Fixpoint keyword_of (l : list Z) : list Z :=
  match l with b :: l' => if keyword_byte b then b :: keyword_of l' else [] | [] => [] end.

(** The [layout-change] arm. *)
Definition parse_layout_change (line : list Z) : option ControlMessage :=
  let* parts := args_words line (bs "%layout-change") in
  let* window := parts !! 0%nat in
  let* token := parts !! 1%nat in
  let* (layout, _) := Layout.parse_layout token in
  let visible := default layout (fst <$> (parts !! 2%nat ≫= Layout.parse_layout)) in
  Some (LayoutChange window layout visible (default [] (parts !! 3%nat))).

(** The match on the keyword. *)
Definition parse_keyword (line keyword : list Z) : option ControlMessage :=
  let kw k := beq keyword (bs k) in
  let id_message f k := f <$> args_id line (bs k) in
  let text_message f k := f <$> rest_after_keyword line (bs k) in
  if kw "begin" then Begin <$> parse_block_id line
  else if kw "end" then End_ <$> parse_block_id line
  else if kw "error" then Error <$> parse_block_id line
  else if kw "layout-change" then parse_layout_change line
  else if kw "window-add" || kw "unlinked-window-add" then
    WindowAdd <$> or_else (args_id line (bs "%window-add")) (args_id line (bs "%unlinked-window-add"))
  else if kw "window-close" || kw "unlinked-window-close" then
    WindowClose <$> or_else (args_id line (bs "%window-close")) (args_id line (bs "%unlinked-window-close"))
  else if kw "window-renamed" then
    let* args := rest_after_keyword line (bs "%window-renamed") in
    let* (window, name) := split_once 32 args in
    Some (WindowRenamed window name)
  else if kw "window-pane-changed" then
    let* parts := args_words line (bs "%window-pane-changed") in
    let* window := parts !! 0%nat in
    let* pane := parts !! 1%nat in
    Some (WindowPaneChanged window pane)
  else if kw "pane-exited" then id_message PaneExited "%pane-exited"%string
  else if kw "pane-mode-changed" then id_message PaneModeChanged "%pane-mode-changed"%string
  else if kw "session-changed" then
    let* parts := args_words line (bs "%session-changed") in
    SessionChanged <$> head parts
  else if kw "session-window-changed" then
    let* parts := args_words line (bs "%session-window-changed") in
    let* _ := parts !! 0%nat in
    SessionWindowChanged <$> parts !! 1%nat
  else if kw "session-renamed" then
    let* parts := args_words line (bs "%session-renamed") in
    SessionRenamed <$> head parts
  else if kw "sessions-changed" then Some SessionsChanged
  else if kw "client-session-changed" then Some ClientSessionChanged
  else if kw "client-detached" then text_message ClientDetached "%client-detached"%string
  else if kw "pause" then id_message Pause "%pause"%string
  else if kw "continue" then id_message Continue "%continue"%string
  else if kw "exit" then
    Some (Exit (let* reason := rest_after_keyword line (bs "%exit") in
                if beq reason [] then None else Some reason))
  else if kw "config-error" then text_message ConfigError "%config-error"%string
  else if kw "message" then text_message Message "%message"%string
  else if starts_with (bs "%") line then Some Ignored else None.

(** The lines that carry terminal bytes are not decoded as text. *)
Definition parse_output (args : list Z) : option ControlMessage :=
  let* split := position (fun b => b =? 32) args in
  let pane := take split args in
  if negb (utf8_valid pane) then None
  else Some (Output pane (unescape_octal (drop (split + 1) args))).

Definition parse_extended_output (args : list Z) : option ControlMessage :=
  let* split := find_sub (bs " : ") args in
  if negb (utf8_valid (take split args)) then None
  else
    let meta := split_whitespace (take split args) in
    let* pane := meta !! 0%nat in
    let* age := meta !! 1%nat ≫= parse_u64 in
    Some (ExtendedOutput pane age (unescape_octal (drop (split + 3) args))).

Definition parse_line (bytes : list Z) : option ControlMessage :=
  match strip_prefix (bs "%output ") bytes with
  | Some args => parse_output args
  | None =>
      match strip_prefix (bs "%extended-output ") bytes with
      | Some args => parse_extended_output args
      | None =>
          let line := from_utf8_lossy bytes in
          let* rest := strip_prefix (bs "%") line in
          parse_keyword line (keyword_of rest)
      end
  end.

End Message.

(** ** Lemmas on the line parser *)
Section ParserProofs.

Lemma split_once_position c l :
  split_once c l =
  match position (fun b => b =? c) l with
  | Some i => Some (take i l, drop (S i) l)
  | None => None
  end.
Proof.
  induction l as [| b l IH]; [done |]. cbn. destruct (b =? c); [by rewrite drop_0 |].
  rewrite IH. by destruct (position _ l).
Qed.

Definition pending_of (p : Parser.ControlParser) : list Z := drop (Parser.consumed p) (Parser.bytes p).
Definition parser_ok (p : Parser.ControlParser) : Prop := (Parser.consumed p <= length (Parser.bytes p))%nat.

Lemma push_pending p data :
  parser_ok p -> parser_ok (Parser.push p data) /\ pending_of (Parser.push p data) = pending_of p ++ data.
Proof.
  unfold parser_ok, pending_of, Parser.push. intros Hp.
  destruct (Nat.ltb_spec 0 (Parser.consumed p)); cbn.
  - split; [lia |]. by rewrite drop_0.
  - rewrite length_app, drop_app_le by lia. split; [lia | done].
Qed.

Lemma next_line_pending p :
  parser_ok p ->
  let (l, q) := Lines.next_line (pending_of p) in
  exists p', Parser.next_line p = (l, p') /\ parser_ok p' /\ pending_of p' = q.
Proof.
  unfold parser_ok, pending_of, Parser.next_line, Lines.next_line. intros Hp.
  rewrite split_once_position. destruct (position _ _) as [i |] eqn:E; [| by exists p].
  apply position_Some in E as (b & _ & _ & _ & Hlt). rewrite length_drop in Hlt.
  eexists. split; [| split].
  - by rewrite skipn_firstn_comm, Nat.add_comm, Nat.add_sub.
  - cbn. lia.
  - cbn. rewrite drop_drop. f_equal. lia.
Qed.

(** One call of the parser and one of the byte queue agree. *)
Lemma call_simulation p c :
  parser_ok p ->
  let (r, q) := Lines.call (pending_of p) c in
  exists p', Parser.call p c = (r, p') /\ parser_ok p' /\ pending_of p' = q.
Proof.
  intros Hp. destruct c as [data | |]; cbn.
  - destruct (push_pending p data Hp) as [H1 H2]. eauto.
  - pose proof (next_line_pending p Hp) as Hn. destruct (Lines.next_line _) as [l q].
    destruct Hn as (p' & -> & H1 & H2). eauto.
  - eexists. split; [done |]. split; [unfold parser_ok; cbn; lia | done].
Qed.

Lemma run_simulation p cs : parser_ok p -> Parser.run p cs = Lines.run (pending_of p) cs.
Proof.
  revert p. induction cs as [| c cs IH]; intros p Hp; [done |]. cbn.
  pose proof (call_simulation p c Hp) as Hs. destruct (Lines.call _ c) as [r q].
  destruct Hs as (p' & -> & Hp' & <-). by rewrite IH.
Qed.

(** The parser after a sequence of reads. *)
Definition push_all (chunks : list (list Z)) : Parser.ControlParser :=
  foldl Parser.push Parser.new chunks.

Lemma push_all_pending chunks :
  parser_ok (push_all chunks) /\ pending_of (push_all chunks) = concat chunks.
Proof.
  unfold push_all. assert (H : forall p, parser_ok p ->
    parser_ok (foldl Parser.push p chunks) /\ pending_of (foldl Parser.push p chunks) = pending_of p ++ concat chunks).
  { induction chunks as [| c cs IH]; intros p Hp; cbn; [by rewrite app_nil_r |].
    destruct (push_pending p c Hp) as [H1 H2]. destruct (IH _ H1) as [H3 H4].
    split; [done |]. by rewrite H4, H2, <- app_assoc. }
  apply (H Parser.new). unfold parser_ok. cbn. lia.
Qed.

End ParserProofs.

(** ** Lemmas on escaped output *)

Lemma unescape_plain b rest : b <> 92 -> unescape_octal (b :: rest) = b :: unescape_octal rest.
Proof.
  intros Hb. destruct rest as [| b1 [| b2 [| b3 rest]]]; try done. cbn [unescape_octal].
  destruct (Z.eqb_spec b 92); [done |]. done.
Qed.

Lemma unescape_escape_byte p b rest :
  p 92 = true -> byte_ok b -> unescape_octal (escape_byte p b ++ rest) = b :: unescape_octal rest.
Proof.
  intros Hp Hb. unfold escape_byte. destruct (p b) eqn:E.
  2:{ cbn [app]. apply unescape_plain. congruence. }
  cbn [app unescape_octal]. unfold byte_ok in Hb.
  assert (0 <= b / 64 <= 3) by (split; [apply Z.div_pos; lia | apply Z.lt_succ_r, Z.div_lt_upper_bound; lia]).
  pose proof (Z.mod_pos_bound (b / 8) 8 ltac:(lia)). pose proof (Z.mod_pos_bound b 8 ltac:(lia)).
  unfold octal. replace (_ && _ && _) with true by (symmetry; rewrite !andb_true_iff, !Z.leb_le; split_and!; lia).
  f_equal. assert (Hv : (48 + b / 64 - 48) * 64 + (48 + b / 8 mod 8 - 48) * 8 + (48 + b mod 8 - 48) = b).
  { pose proof (Z.div_mod b 8 ltac:(lia)). pose proof (Z.div_mod (b / 8) 8 ltac:(lia)) as H3.
    rewrite Z.div_div in H3 by lia. change (8 * 8) with 64 in H3. lia. }
  rewrite Hv. by apply wrap_small.
Qed.

Lemma unescape_escape_octal p l : p 92 = true -> bytes_ok l -> unescape_octal (escape_octal p l) = l.
Proof.
  intros Hp. unfold escape_octal. induction 1 as [| b l Hb _ IH]; [done |]. cbn [map concat].
  by rewrite unescape_escape_byte, IH.
Qed.

Lemma escape_octal_avoids p l c :
  p c = true -> c <> 92 -> ~ (48 <= c <= 55) -> bytes_ok l -> ~ In c (escape_octal p l).
Proof.
  intros Hp Hc Ho. unfold escape_octal. induction 1 as [| b l Hb _ IH]; cbn; [tauto |].
  rewrite in_app_iff. intros [Hin | Hin]; [| done]. unfold escape_byte in Hin.
  destruct (p b) eqn:E; cbn in Hin.
  - unfold byte_ok in Hb. pose proof (Z.mod_pos_bound (b / 8) 8 ltac:(lia)).
    pose proof (Z.mod_pos_bound b 8 ltac:(lia)).
    assert (0 <= b / 64 <= 3) by (split; [apply Z.div_pos; lia | apply Z.lt_succ_r, Z.div_lt_upper_bound; lia]).
    destruct Hin as [| [| [| [|]]]]; try lia; done.
  - destruct Hin as [<- |]; [congruence | done].
Qed.

(** ** Lemmas on layouts *)
Section LayoutProofs.
Import Layout.

Lemma layout_ind (P : LayoutCell -> Prop) :
  (forall w h x y p cols l, Forall P l -> P (Cell w h x y p cols l)) -> forall c, P c.
Proof.
  intros H. fix IH 1. intros [w h x y p cols l]. apply H. induction l as [| c l IHl]; constructor; [apply IH | done].
Qed.

(** The next byte of the input, at a cursor. *)
Lemma drop_head {A} i (input : list A) b rest :
  drop i input = b :: rest -> input !! i = Some b /\ drop (i + 1) input = rest /\ (i < length input)%nat.
Proof.
  intros H. split; [| split].
  - rewrite <- (Nat.add_0_r i), <- lookup_drop, H. done.
  - rewrite <- drop_drop, H. cbn. by rewrite drop_0.
  - assert (length (drop i input) = length (b :: rest)) as Hl by (by rewrite H). rewrite length_drop in Hl. cbn in Hl. lia.
Qed.

Lemma drop_nil_lookup {A} i (input : list A) : drop i input = [] -> input !! i = None.
Proof. intros H. rewrite <- (Nat.add_0_r i), <- lookup_drop, H. done. Qed.

Definition no_digit (l : list Z) : Prop := match l with b :: _ => is_digit b = false | [] => True end.

Lemma u32_ok_spec n : u32_ok n = true <-> 0 <= n <= U32_MAX.
Proof. unfold u32_ok. rewrite andb_true_iff, !Z.leb_le. done. Qed.

Lemma parse_u32_loop_show fuel n post i seen :
  0 <= n <= U32_MAX -> n < 10 ^ Z.of_nat fuel ->
  parse_u32_loop (show_digits (S fuel) n ++ post) i 0 seen
  = parse_u32_loop post (i + length (show_digits (S fuel) n)) n true.
Proof.
  revert n post. induction fuel as [| f IH]; intros n post Hn Hf.
  - cbn in Hf. assert (n = 0) as -> by lia. cbn. by rewrite Nat.add_1_r.
  - rewrite Nat2Z.inj_succ, Z.pow_succ_r in Hf by lia.
    remember (S f) as f1 eqn:Ef. cbn [show_digits]. destruct (Z.ltb_spec n 10) as [Hlt | Hge].
    + cbn [app parse_u32_loop length]. unfold is_digit, saturating_add, saturating_mul.
      replace ((48 <=? 48 + n) && (48 + n <=? 57)) with true by (symmetry; rewrite andb_true_iff, !Z.leb_le; lia).
      rewrite Nat.add_1_r. f_equal. lia.
    + subst f1. rewrite <- app_assoc, IH.
      2:{ split; [apply Z.div_pos; lia |]. apply Z.le_trans with n; [| lia]. apply Z.div_le_upper_bound; lia. }
      2:{ apply Z.div_lt_upper_bound; lia. }
      pose proof (Z.mod_pos_bound n 10 ltac:(lia)). pose proof (Z.div_mod n 10 ltac:(lia)).
      assert (0 <= n / 10) by (apply Z.div_pos; lia).
      cbn [app parse_u32_loop]. unfold is_digit, saturating_add, saturating_mul.
      replace ((48 <=? 48 + n mod 10) && (48 + n mod 10 <=? 57)) with true
        by (symmetry; rewrite andb_true_iff, !Z.leb_le; lia).
      rewrite length_app. cbn [length]. f_equal; lia.
Qed.

Lemma parse_u32_show input i n post :
  0 <= n <= U32_MAX -> drop i input = show_u64 n ++ post -> no_digit post ->
  parse_u32 input i = Some (n, (i + length (show_u64 n))%nat)
  /\ drop (i + length (show_u64 n)) input = post.
Proof.
  intros Hn Hd Hp. split.
  - unfold parse_u32. rewrite Hd. unfold show_u64. rewrite parse_u32_loop_show; [| done | cbn; lia].
    destruct post as [| b post]; cbn in *; [done |]. by rewrite Hp.
  - rewrite <- drop_drop, Hd. by rewrite drop_app_length.
Qed.

Lemma byte_at_head input i b rest : drop i input = b :: rest -> byte_at input i b = true.
Proof. intros H. apply drop_head in H as (H & _). unfold byte_at. by apply bool_decide_eq_true_2. Qed.

(** A number of the opening, followed by a separator. *)
Lemma parse_number input i n sep post :
  u32_ok n = true -> drop i input = show_u64 n ++ sep :: post -> is_digit sep = false ->
  let j := (i + length (show_u64 n))%nat in
  parse_u32 input i = Some (n, j) /\ byte_at input j sep = true /\ drop (j + 1) input = post.
Proof.
  intros Hn%u32_ok_spec Hd Hs j. destruct (parse_u32_show input i n (sep :: post) Hn Hd Hs) as [H1 H2].
  split_and!; [done | by eapply byte_at_head | by apply drop_head in H2 as (_ & H2 & _)].
Qed.

Lemma parse_dims_print input i w h x y post :
  u32_ok w && u32_ok h && u32_ok x && u32_ok y = true ->
  drop i input = print_dims w h x y ++ post -> no_digit post ->
  let j := (i + length (print_dims w h x y))%nat in
  parse_dims input i = Some (w, h, x, y, j) /\ drop j input = post.
Proof.
  intros Hok Hd Hp. apply andb_true_iff in Hok as [[[Hw Hh]%andb_true_iff Hx]%andb_true_iff Hy].
  unfold print_dims in *. repeat (rewrite <- ?app_assoc in Hd; cbn [app] in Hd).
  destruct (parse_number _ _ _ _ _ Hw Hd eq_refl) as (E1 & B1 & D1).
  destruct (parse_number _ _ _ _ _ Hh D1 eq_refl) as (E2 & B2 & D2).
  destruct (parse_number _ _ _ _ _ Hx D2 eq_refl) as (E3 & B3 & D3).
  destruct (parse_u32_show _ _ _ _ (proj1 (u32_ok_spec y) Hy) D3 Hp) as (E4 & D4).
  unfold parse_dims. rewrite E1, B1. cbn [negb]. rewrite E2, B2. cbn [negb]. rewrite E3, B3. cbn [negb]. rewrite E4.
  repeat (rewrite ?length_app; cbn [length]). split; [do 2 f_equal; lia |]. rewrite <- D4. f_equal. lia.
Qed.

(** The children, given that each of them is parsed. *)
Lemma children_loop_print (parse : nat -> option (LayoutCell * nat)) input closer post fuel l i acc :
  closer <> 44 -> is_digit closer = false -> l <> [] -> (length l <= fuel)%nat ->
  Forall (fun c => forall j rest, drop j input = print_cell c ++ rest -> no_digit rest ->
            parse j = Some (c, (j + length (print_cell c))%nat)) l ->
  drop i input = join print_cell l ++ closer :: post ->
  let j := (i + length (join print_cell l) + 1)%nat in
  children_loop parse fuel input closer i acc = Some (acc ++ l, j) /\ drop j input = post.
Proof.
  intros Hc Hcd. revert l i acc. induction fuel as [| f IH]; intros l i acc Hl Hf Hall Hd; [destruct l; cbn in *; [done | lia] |].
  destruct l as [| c l]; [done |]. apply Forall_cons in Hall as [Hone Hall].
  assert (Hnext : forall rest b, drop i input = print_cell c ++ b :: rest ->
    input !! (i + length (print_cell c))%nat = Some b /\ drop (i + length (print_cell c) + 1) input = rest).
  { intros rest b H. assert (drop (i + length (print_cell c)) input = b :: rest) as H2
      by (rewrite <- drop_drop, H; apply drop_app_length).
    apply drop_head in H2 as (? & ? & _). done. }
  destruct l as [| c2 l].
  - cbn [join children_loop] in *. rewrite (Hone i (closer :: post) Hd Hcd).
    destruct (Hnext _ _ Hd) as [-> H2]. rewrite (proj2 (Z.eqb_neq closer 44) Hc), Z.eqb_refl. done.
  - change (join print_cell (c :: c2 :: l)) with (print_cell c ++ 44 :: join print_cell (c2 :: l)) in *.
    rewrite <- app_assoc in Hd. cbn [app] in Hd. cbn [children_loop]. rewrite (Hone i _ Hd eq_refl). destruct (Hnext _ _ Hd) as [-> H2]. rewrite Z.eqb_refl.
    destruct (IH (c2 :: l) (i + length (print_cell c) + 1)%nat (acc ++ [c])) as [H3 H4]; [done | cbn in *; lia | done | done |].
    rewrite H3. rewrite <- app_assoc. repeat (rewrite ?length_app; cbn [length]). split.
    + do 2 f_equal. lia.
    + rewrite <- H4. f_equal. lia.
Qed.

Lemma print_dims_length w h x y : (3 <= length (print_dims w h x y))%nat.
Proof. unfold print_dims. repeat (rewrite ?length_app; cbn [length]). lia. Qed.

Lemma join_length_elem {A} (f : A -> list Z) l c : In c l -> (length (f c) <= length (join f l))%nat.
Proof.
  induction l as [| a l IH]; [done |]. intros Hin. destruct l as [| a2 l].
  - destruct Hin as [<- | []]. done.
  - change (join f (a :: a2 :: l)) with (f a ++ 44 :: join f (a2 :: l)).
    rewrite length_app. cbn [length]. destruct Hin as [<- | Hin]; [lia |]. apply IH in Hin. lia.
Qed.

Lemma join_length_count {A} (f : A -> list Z) l : (length l <= length (join f l) + 1)%nat.
Proof.
  induction l as [| a l IH]; [cbn; lia |]. destruct l as [| a2 l]; [cbn; lia |].
  change (join f (a :: a2 :: l)) with (f a ++ 44 :: join f (a2 :: l)).
  rewrite length_app. cbn [length] in *. lia.
Qed.

(** A printed cell is parsed back, wherever it stands. *)
Lemma parse_cell_print c fuel input i post :
  layout_ok c = true -> (length (print_cell c) <= fuel)%nat ->
  drop i input = print_cell c ++ post -> no_digit post ->
  parse_cell fuel input i = Some (c, (i + length (print_cell c))%nat).
Proof.
  revert fuel i post. induction c as [w h x0 y0 p cols l IH] using layout_ind.
  intros fuel i post Hok Hf Hd Hp. pose proof (print_dims_length w h x0 y0) as Hpd.
  cbn [layout_ok print_cell width height x y pane columns children is_leaf] in *.
  apply andb_true_iff in Hok as [Hdims Hrest]. rewrite length_app in *. rewrite <- app_assoc in Hd.
  destruct fuel as [| fuel]; [lia |]. cbn [parse_cell]. destruct p as [pane |].
  - apply andb_true_iff in Hrest as [[Hpane%u32_ok_spec Hcols%negb_true_iff]%andb_true_iff Hleaf].
    unfold is_leaf in Hleaf. cbn in Hleaf. destruct l; [| done]. subst cols.
    destruct (parse_dims_print _ _ _ _ _ _ _ Hdims Hd eq_refl) as [-> Hd2].
    cbn [app] in Hd2. apply drop_head in Hd2 as (-> & Hd3 & _). cbn [orb Z.eqb Pos.eqb].
    destruct (parse_u32_show _ _ _ _ Hpane Hd3 Hp) as [-> _]. cbn [length]. do 2 f_equal. lia.
  - apply andb_true_iff in Hrest as [Hne Hall]. unfold is_leaf in Hne. cbn in Hne. cbn [app] in Hd.
    destruct (parse_dims_print _ _ _ _ _ _ ((if cols then 123 else 91) :: (join print_cell l ++ [if cols then 125 else 93]) ++ post)
      Hdims Hd ltac:(by destruct cols)) as [-> Hd2].
    pose proof (drop_head _ _ _ _ Hd2) as (-> & Hd3 & Hlt).
    replace (((if cols then 123 else 91) =? 123) || ((if cols then 123 else 91) =? 91)) with true by (by destruct cols).
    replace ((if cols then 123 else 91) =? 123) with cols by (by destruct cols).
    rewrite <- app_assoc in Hd3. cbn [app] in Hd3. cbn [length] in Hf. rewrite length_app in Hf.
    destruct (children_loop_print (parse_cell fuel input) input (if cols then 125 else 93) post (length input) l
      (i + length (print_dims w h x0 y0) + 1)%nat []) as [Hloop _]; try done; try (by destruct cols); try (by destruct l).
    + pose proof (join_length_count print_cell l).
      assert (length (drop (i + length (print_dims w h x0 y0) + 1) input) = length (join print_cell l ++ (if cols then 125 else 93) :: post)) as Hl
        by (by rewrite Hd3).
      rewrite length_drop, length_app in Hl. cbn [length] in Hl. lia.
    + rewrite Forall_forall in IH |- *. intros c Hc j rest Hj Hr. apply list_elem_of_In in Hc as Hin.
      eapply IH; [done | | | done | done].
      * rewrite forallb_forall in Hall. by apply Hall.
      * pose proof (join_length_elem print_cell l c Hin). cbn [length] in Hf. lia.
    + rewrite Hloop. cbn [length app]. rewrite length_app. cbn [length]. do 2 f_equal. lia.
Qed.

Lemma hex_len_app l b rest :
  forallb is_hexdigit l = true -> is_hexdigit b = false -> hex_len (l ++ b :: rest) = length l.
Proof.
  intros Hl Hb. induction l as [| a l IH]; cbn in *; [by rewrite Hb |].
  apply andb_true_iff in Hl as [-> Hl]. by rewrite IH.
Qed.

(** *** Fuel *)

Lemma parse_u32_loop_bound l i v seen n j :
  parse_u32_loop l i v seen = Some (n, j) ->
  (i <= j <= i + length l)%nat /\ (seen = false -> (i < j)%nat).
Proof.
  revert i v seen. induction l as [| b l IH]; intros i v seen H; cbn in H.
  - destruct seen; simplify_eq. split; [cbn; lia | done].
  - destruct (is_digit b).
    + apply IH in H as [H _]. cbn. split; [lia |]. lia.
    + destruct seen; simplify_eq. split; [cbn; lia | done].
Qed.

Lemma parse_u32_bound input i n j : parse_u32 input i = Some (n, j) -> (i < j <= length input)%nat.
Proof.
  unfold parse_u32. intros H. apply parse_u32_loop_bound in H as [H1 H2]. specialize (H2 eq_refl).
  rewrite length_drop in H1. lia.
Qed.

Lemma parse_dims_bound input i w h x y j :
  parse_dims input i = Some (w, h, x, y, j) -> (i < j <= length input)%nat.
Proof.
  unfold parse_dims. intros H.
  destruct (parse_u32 input i) as [[w' i1] |] eqn:E1; [| done]. destruct (byte_at input i1 120); [| done]. cbn in H.
  destruct (parse_u32 input (i1 + 1)) as [[h' i2] |] eqn:E2; [| done]. destruct (byte_at input i2 44); [| done]. cbn in H.
  destruct (parse_u32 input (i2 + 1)) as [[x' i3] |] eqn:E3; [| done]. destruct (byte_at input i3 44); [| done]. cbn in H.
  destruct (parse_u32 input (i3 + 1)) as [[y' i4] |] eqn:E4; [| done]. simplify_eq.
  apply parse_u32_bound in E1, E2, E3, E4. lia.
Qed.

(** A parser of cells moves forward within the input. *)
Definition advances (input : list Z) (parse : nat -> option (LayoutCell * nat)) : Prop :=
  forall i c j, parse i = Some (c, j) -> (i < j <= length input)%nat.

Lemma children_loop_bound parse fuel input closer i acc l j :
  advances input parse -> children_loop parse fuel input closer i acc = Some (l, j) ->
  (i < j <= length input)%nat.
Proof.
  intros Ha. revert i acc. induction fuel as [| f IH]; intros i acc H; [done |]. cbn in H.
  destruct (parse i) as [[c n] |] eqn:E; [| done]. apply Ha in E.
  destruct (input !! n) as [b |] eqn:El; [| simplify_eq; lia]. apply lookup_lt_Some in El.
  destruct (b =? 44); [apply IH in H; lia |]. destruct (b =? closer); simplify_eq; lia.
Qed.

Lemma parse_cell_advances fuel input : advances input (parse_cell fuel input).
Proof.
  induction fuel as [| f IH]; intros i c j H; [done |]. cbn in H.
  destruct (parse_dims input i) as [[[[[w h] x0] y0] i1] |] eqn:E; [| done]. apply parse_dims_bound in E.
  destruct (input !! i1) as [b |] eqn:El; [| simplify_eq; lia]. apply lookup_lt_Some in El.
  destruct ((b =? 123) || (b =? 91)).
  - destruct (children_loop _ _ _ _ _ _) as [[l i2] |] eqn:Ec; [| done]. simplify_eq.
    apply children_loop_bound in Ec; [lia | done].
  - destruct (b =? 44); [| simplify_eq; lia].
    destruct (parse_u32 input (i1 + 1)) as [[p n] |] eqn:Eu; simplify_eq; [apply parse_u32_bound in Eu |]; lia.
Qed.

(** The loop over siblings gives the same result with any fuel that reaches the
    end of the input, and with any parser that agrees from here on. *)
Lemma children_loop_ext parse parse' f f' input closer i acc :
  advances input parse -> (forall j, (i <= j)%nat -> parse j = parse' j) ->
  (length input - i < f)%nat -> (length input - i < f')%nat ->
  children_loop parse f input closer i acc = children_loop parse' f' input closer i acc.
Proof.
  intros Ha. revert f' i acc. induction f as [| f IH]; intros f' i acc He Hf Hf'; [lia |].
  destruct f' as [| f']; [lia |]. cbn. rewrite <- He by lia.
  destruct (parse i) as [[c n] |] eqn:E; [| done]. apply Ha in E.
  destruct (input !! n) as [b |]; [| done]. destruct (b =? 44); [| done].
  apply IH; [intros j Hj; apply He | |]; lia.
Qed.

(** As much fuel as there are bytes left is enough. *)
Lemma parse_cell_fuel f f' input i :
  (length input - i < f)%nat -> (length input - i < f')%nat ->
  parse_cell f input i = parse_cell f' input i.
Proof.
  revert f' i. induction f as [| f IH]; intros f' i Hf Hf'; [lia |]. destruct f' as [| f']; [lia |]. cbn.
  destruct (parse_dims input i) as [[[[[w h] x0] y0] i1] |] eqn:E; [| done]. apply parse_dims_bound in E.
  destruct (input !! i1) as [b |]; [| done]. destruct ((b =? 123) || (b =? 91)); [| done].
  rewrite (children_loop_ext (parse_cell f input) (parse_cell f' input) (length input) (length input)); try lia; try done.
  - apply parse_cell_advances.
  - intros j Hj. apply IH; lia.
Qed.

End LayoutProofs.

(** ** Lemmas on control lines *)

Lemma next_line_delivered chunks line rest :
  ~ In 10 line -> concat chunks = line ++ [13; 10] ++ rest ->
  exists p, Parser.next_line (push_all chunks) = (Some line, p) /\ (Parser.take_pending p).1 = rest.
Proof.
  intros Hl Hc. destruct (push_all_pending chunks) as [Hok Hp].
  pose proof (next_line_pending (push_all chunks) Hok) as Hn. unfold Lines.next_line in Hn.
  assert (Hsplit : split_once 10 (pending_of (push_all chunks)) = Some (line ++ [13], rest)).
  { rewrite Hp, Hc. change ([13; 10] ++ rest) with ([13] ++ 10 :: rest). rewrite app_assoc.
    apply split_once_app. rewrite in_app_iff. cbn. intros [H | [H | H]]; done. }
  rewrite Hsplit in Hn. destruct Hn as (p & Hn & _ & Hq). exists p. split; [| exact Hq].
  rewrite Hn. unfold strip_cr. rewrite rev_app_distr. cbn. by rewrite rev_involutive.
Qed.

Lemma word_avoids w c : Forall word_byte w -> ~ (33 <= c <= 126) -> ~ In c w.
Proof.
  intros Hw Hc Hin. rewrite Forall_forall in Hw. apply list_elem_of_In in Hin. by apply Hw in Hin.
Qed.

Lemma show_word n : 0 <= n -> Forall word_byte (show_u64 n) /\ show_u64 n <> [].
Proof.
  intros Hn. split; [| apply show_digits_nonempty]. eapply Forall_impl; [by apply show_u64_ascii |].
  unfold word_byte. cbn. lia.
Qed.

Lemma word_utf8 w l : Forall word_byte w -> utf8_valid (w ++ l) = utf8_valid l.
Proof.
  induction 1 as [| b w Hb _ IH]; [done |]. cbn [app]. rewrite utf8_valid_cons_ascii; [done |].
  unfold word_byte in Hb. lia.
Qed.

Lemma position_app (f : Z -> bool) a b rest :
  Forall (fun x => f x = false) a -> f b = true -> position f (a ++ b :: rest) = Some (length a).
Proof.
  intros Ha Hb. induction Ha as [| x a Hx _ IH]; cbn; [by rewrite Hb |]. by rewrite Hx, IH.
Qed.

Lemma parse_output_line p pane data :
  p 92 = true -> bytes_ok data -> Forall word_byte pane ->
  Message.parse_line (bs "%output " ++ pane ++ 32 :: escape_octal p data) = Some (Message.Output pane data).
Proof.
  intros Hp Hd Hw. unfold Message.parse_line. rewrite strip_prefix_app. unfold Message.parse_output.
  rewrite position_app; [| | done].
  2:{ eapply Forall_impl; [exact Hw |]. intros b Hb. apply Z.eqb_neq. unfold word_byte in Hb. lia. }
  rewrite take_app_length. rewrite <- (app_nil_r pane) at 1. rewrite (word_utf8 pane [] Hw). cbn [negb].
  change (utf8_valid []) with true. cbn [negb].
  rewrite Nat.add_1_r. replace (drop (S (length pane)) (pane ++ 32 :: escape_octal p data)) with (escape_octal p data).
  2:{ rewrite <- Nat.add_1_r, <- drop_drop, drop_app_length. done. }
  by rewrite unescape_escape_octal.
Qed.

Lemma find_sep_word w l : Forall word_byte w ->
  find_sub (bs " : ") (w ++ l) = (fun n => (length w + n)%nat) <$> find_sub (bs " : ") l.
Proof.
  induction 1 as [| b w Hb _ IH]; [cbn [app length]; by destruct (find_sub _ l) |].
  cbn [app]. change (find_sub (bs " : ") (b :: w ++ l)) with
    (if starts_with (bs " : ") (b :: w ++ l) then Some 0%nat else S <$> find_sub (bs " : ") (w ++ l)).
  assert (starts_with (bs " : ") (b :: w ++ l) = false) as ->.
  { unfold starts_with. change (bs " : ") with [32; 58; 32]. cbn [strip_prefix]. destruct (Z.eqb_spec 32 b) as [<- |]; [| done]. unfold word_byte in Hb. lia. }
  rewrite IH. by destruct (find_sub _ l).
Qed.

Lemma find_sep_meta pane age rest :
  Forall word_byte pane -> 0 <= age ->
  find_sub (bs " : ") (pane ++ 32 :: show_u64 age ++ bs " : " ++ rest)
  = Some (length (pane ++ 32 :: show_u64 age)).
Proof.
  intros Hp Ha. destruct (show_word age Ha) as [Hw Hne]. rewrite find_sep_word by done.
  pose proof (show_u64_ascii age Ha) as Hdig.
  assert (find_sub (bs " : ") (show_u64 age ++ bs " : " ++ rest) = Some (length (show_u64 age))) as Hs.
  { rewrite find_sep_word by done.
    assert (find_sub (bs " : ") (bs " : " ++ rest) = Some 0%nat) as -> by reflexivity.
    change (Some (length (show_u64 age) + 0)%nat = Some (length (show_u64 age))). f_equal. lia. }
  destruct (show_u64 age) as [| d ds]; [done |]. apply Forall_cons in Hdig as [Hd _].
  set (tail := (d :: ds) ++ bs " : " ++ rest) in *.
  change (find_sub (bs " : ") (32 :: tail)) with
    (if starts_with (bs " : ") (32 :: tail) then Some 0%nat else S <$> find_sub (bs " : ") tail).
  assert (starts_with (bs " : ") (32 :: tail) = false) as ->.
  { unfold starts_with, tail. change (bs " : ") with [32; 58; 32]. cbn [strip_prefix app]. rewrite Z.eqb_refl. destruct (Z.eqb_spec 58 d); [lia | done]. }
  rewrite Hs. change (Some (length pane + S (length (d :: ds)))%nat = Some (length (pane ++ 32 :: d :: ds))).
  f_equal. rewrite length_app. done.
Qed.

Lemma parse_extended_line p pane age data :
  p 92 = true -> bytes_ok data -> Forall word_byte pane -> pane <> [] -> 0 <= age <= U64_MAX ->
  Message.parse_line (bs "%extended-output " ++ pane ++ 32 :: show_u64 age ++ bs " : " ++ escape_octal p data)
  = Some (Message.ExtendedOutput pane age data).
Proof.
  intros Hp Hd Hw Hne Ha. destruct (show_word age ltac:(lia)) as [Hsw Hsne]. unfold Message.parse_line.
  set (args := pane ++ 32 :: show_u64 age ++ bs " : " ++ escape_octal p data).
  assert (strip_prefix (bs "%output ") (bs "%extended-output " ++ args) = None) as -> by reflexivity.
  rewrite strip_prefix_app. unfold Message.parse_extended_output, args. rewrite find_sep_meta by (done || lia).
  set (meta := pane ++ 32 :: show_u64 age).
  assert (Hargs : pane ++ 32 :: show_u64 age ++ bs " : " ++ escape_octal p data = meta ++ bs " : " ++ escape_octal p data)
    by (unfold meta; by rewrite <- app_assoc).
  rewrite Hargs, take_app_length.
  assert (utf8_valid meta = true) as ->.
  { unfold meta. rewrite word_utf8, utf8_valid_cons_ascii by (done || lia).
    rewrite <- (app_nil_r (show_u64 age)), word_utf8 by done. done. }
  cbn [negb]. unfold meta at 1 2. rewrite split_whitespace_cons, split_whitespace_one by done.
  cbn [lookup list_lookup mbind option_bind]. unfold Message.parse_u64. rewrite from_str_show by lia.
  rewrite <- drop_drop, drop_app_length. change (drop 3 (bs " : " ++ escape_octal p data)) with (escape_octal p data).
  by rewrite unescape_escape_octal.
Qed.

(** ** Properties *)

(** The incremental parser behaves, call by call, as a queue of bytes from
    which complete lines are taken: however the reads cut the stream, the same
    lines come out and the bytes after them stay pending. *)
Theorem tmux_parser_refines_lines cs : Parser.run Parser.new cs = Lines.run [] cs.
Proof. apply run_simulation. unfold parser_ok. cbn. lia. Qed.

(** C38: a layout that tmux prints, with any nesting of splits, is parsed back to
    the same tree and to its last byte. *)
Theorem tmux_layout_roundtrip c checksum :
  Layout.layout_ok c = true -> forallb Layout.is_hexdigit checksum = true ->
  let input := checksum ++ 44 :: Layout.print_cell c in
  Layout.parse_layout input = Some (c, length input).
Proof.
  intros Hc Hs input. unfold Layout.parse_layout, input. rewrite hex_len_app by done.
  assert (Hd : drop (length checksum) (checksum ++ 44 :: Layout.print_cell c) = 44 :: Layout.print_cell c)
    by apply drop_app_length.
  rewrite (byte_at_head _ _ _ _ Hd). cbn [negb]. apply drop_head in Hd as (_ & Hd & _).
  rewrite (parse_cell_print c _ _ _ []); [| done | | by rewrite app_nil_r | done].
  - rewrite length_app. cbn [length]. do 2 f_equal. lia.
  - rewrite length_app. cbn [length]. lia.
Qed.

Lemma tmux_layout_roundtrip_witness :
  Layout.parse_layout (bs "b25f,158x48,0,0{79x48,0,0,0,78x48,80,0,1}")
  = Some (Layout.Cell 158 48 0 0 None true
            [Layout.Cell 79 48 0 0 (Some 0) false []; Layout.Cell 78 48 80 0 (Some 1) false []], 41%nat).
Proof.
  exact (tmux_layout_roundtrip
    (Layout.Cell 158 48 0 0 None true
       [Layout.Cell 79 48 0 0 (Some 0) false []; Layout.Cell 78 48 80 0 (Some 1) false []])
    (bs "b25f") eq_refl eq_refl).
Defined.

(** Pane output arrives byte for byte: whatever bytes tmux escapes, as long as
    they include the backslash and the newline, a [%output] or
    [%extended-output] line cut at any read boundaries is parsed to the pane and
    exactly its bytes, and what follows the line stays pending. *)
Theorem tmux_output_delivered p pane age data rest chunks line msg :
  p 92 = true -> p 10 = true -> bytes_ok data ->
  Forall word_byte pane -> pane <> [] -> 0 <= age <= U64_MAX ->
  (line = bs "%output " ++ pane ++ 32 :: escape_octal p data /\ msg = Message.Output pane data)
  \/ (line = bs "%extended-output " ++ pane ++ 32 :: show_u64 age ++ bs " : " ++ escape_octal p data
      /\ msg = Message.ExtendedOutput pane age data) ->
  concat chunks = line ++ [13; 10] ++ rest ->
  exists parser, Parser.next_line (push_all chunks) = (Some line, parser)
  /\ (Parser.take_pending parser).1 = rest /\ Message.parse_line line = Some msg.
Proof.
  intros Hbs Hnl Hd Hw Hne Ha Hline Hc.
  pose proof (escape_octal_avoids p data 10 Hnl ltac:(lia) ltac:(lia) Hd) as He.
  pose proof (word_avoids pane 10 Hw ltac:(lia)) as Hp.
  pose proof (word_avoids _ 10 (proj1 (show_word age ltac:(lia))) ltac:(lia)) as Hs.
  assert (Hl : ~ In 10 line).
  { destruct Hline as [[-> _] | [-> _]]; repeat (rewrite in_app_iff || cbn [In bs]); cbn; intuition lia. }
  destruct (next_line_delivered chunks line rest Hl Hc) as (parser & H1 & H2).
  exists parser. split_and!; [done | done |].
  destruct Hline as [[-> ->] | [-> ->]]; [by apply parse_output_line | by apply parse_extended_line].
Qed.

Lemma tmux_output_delivered_witness :
  exists parser,
    Parser.next_line (push_all [bs "%output %5 a\0"; bs "33"; [13]; 10 :: bs "$ "])
    = (Some (bs "%output %5 a\033"), parser)
    /\ (Parser.take_pending parser).1 = bs "$ "
    /\ Message.parse_line (bs "%output %5 a\033") = Some (Message.Output (bs "%5") [97; 27]).
Proof.
  apply (tmux_output_delivered (fun b => (b <? 32) || (b =? 92)) (bs "%5") 0 [97; 27]); try reflexivity.
  - repeat constructor; discriminate.
  - repeat constructor; discriminate.
  - discriminate.
  - split; discriminate.
  - left. split; reflexivity.
Defined.
