(* ===== verification/TmuxHandshake.v ===== *)
(** * tmux startup handshake: [tmux/handshake.rs] (zzclawterm-transport)

    [Startup] watches the lines that a starting control client prints; [Probe]
    is the bounded query whose reply, carrying a random token, is the only thing
    that confirms the channel.  The random part of the token is an argument of
    [probe_new].  [feed] returns the progress and the mutated probe; its loop has
    one unit of fuel per byte, which is enough ([feed_loop_fuel]).

    [verify], which sends the query and awaits the channel under a timeout, is
    I/O of the third-party SSH library and not modelled. *)
From stdpp Require Import base list numbers strings.
From Stdlib Require Import ZArith Lia.
From S2P Require Import Prelude Text TmuxControl.

Definition CONFIRM_MAX_BYTES : Z := 512 * 1024.

(** ** The startup lines *)

Record Startup := mkStartup {
  su_block : option Message.BlockId;
  su_completed : bool;
  su_session : bool
}.
Definition startup_default : Startup := mkStartup None false false.

(** [None] rejects the candidate; [true] confirms the complete startup. *)
Definition startup_line (s : Startup) (bytes : list Z) : Startup * option bool :=
  let done_with (s : Startup) := (s, Some (su_completed s && su_session s)) in
  if negb (utf8_valid bytes) then (s, None)
  else
    let line := trim_end_matches 13 bytes in
    match Message.parse_line line with
    | Some (Message.Begin id) =>
        match su_block s with
        | None => if negb (su_completed s)
                  then done_with (mkStartup (Some id) (su_completed s) (su_session s)) else (s, None)
        | Some _ => (s, None)
        end
    | Some (Message.End_ id) =>
        if bool_decide (su_block s = Some id)
        then done_with (mkStartup None true (su_session s)) else (s, None)
    | Some (Message.Error _) | Some (Message.Exit _) => (s, None)
    | m =>
        if bool_decide (is_Some (su_block s)) then done_with s
        else match m with
             | Some (Message.SessionChanged session) =>
                 match strip_prefix (bs "$") session with
                 | None => (s, None)
                 | Some number =>
                     match Message.parse_u64 number with
                     | None => (s, None)
                     | Some _ => done_with (mkStartup (su_block s) (su_completed s) true)
                     end
                 end
             | Some _ => done_with s
             | None => (s, None)
             end
    end.

(** ** The probe *)

Inductive Progress :=
| Pending
| Confirmed (rest : list Z)
| Rejected
| Exited (rest : list Z)
| LimitExceeded.

Record Probe := mkProbe {
  token : list Z;
  command : list Z;
  raw : list Z;
  consumed : nat;
  block : option (Message.BlockId * bool * nat)
}.

Definition probe_new (uuid startup : list Z) : Probe :=
  let token := bs "zzclawterm_" ++ uuid in
  mkProbe token (bs "display-message -p '" ++ token ++ bs "'") startup (length startup) None.

Definition with_block (p : Probe) (b : option (Message.BlockId * bool * nat)) : Probe :=
  mkProbe (token p) (command p) (raw p) (consumed p) b.
Definition with_consumed (p : Probe) (n : nat) : Probe :=
  mkProbe (token p) (command p) (raw p) n (block p).

(** What the loop does with one line, [p] having consumed it: another turn with
    a new state, or the end. *)
Definition feed_line (p : Probe) (bytes : list Z) : Progress + Probe :=
  let rest := drop (consumed p) (raw p) in
  if negb (utf8_valid bytes) then inl Rejected
  else
    let line := trim_end_matches 13 bytes in
    match Message.parse_line line with
    | Some (Message.Begin id) =>
        match block p with
        | None => inr (with_block p (Some (id, false, 0%nat)))
        | Some _ => inl Rejected
        end
    | Some (Message.End_ id) =>
        match block p with
        | Some (begin, matched, 1%nat) =>
            if bool_decide (begin = id) && matched then inl (Confirmed rest) else inl Rejected
        | _ => inl Rejected
        end
    | Some (Message.Exit _) => inl (Exited rest)
    | Some (Message.Error _) => inl Rejected
    | m =>
        match block p with
        | Some (id, _, count) => inr (with_block p (Some (id, beq line (token p), S count)))
        | None =>
            match m with
            | Some _ => inr p
            | None => if beq line (command p) then inr p else inl Rejected
            end
        end
    end.

Fixpoint feed_loop (fuel : nat) (p : Probe) : Progress * Probe :=
  match fuel with
  | O => (Pending, p)
  | S fuel' =>
      match position (fun b => b =? 10) (drop (consumed p) (raw p)) with
      | None => (Pending, p)
      | Some offset =>
          let stop := (consumed p + offset)%nat in
          let bytes := drop (consumed p) (take stop (raw p)) in
          let p1 := with_consumed p (stop + 1) in
          match feed_line p1 bytes with
          | inl r => (r, p1)
          | inr p2 => feed_loop fuel' p2
          end
      end
  end.

Definition feed (p : Probe) (data : list Z) : Progress * Probe :=
  if saturating_sub CONFIRM_MAX_BYTES (len (raw p)) <? len data then (LimitExceeded, p)
  else
    let p1 := mkProbe (token p) (command p) (raw p ++ data) (consumed p) (block p) in
    feed_loop (S (length (raw p1))) p1.

(** The reads of a channel, up to the first that settles the probe. *)
Fixpoint feed_all (p : Probe) (chunks : list (list Z)) : Progress * Probe :=
  match chunks with
  | [] => (Pending, p)
  | data :: chunks' =>
      match feed p data with
      | (Pending, p') => feed_all p' chunks'
      | r => r
      end
  end.

(** ** Lemmas *)

Definition terminated (ls : list (list Z)) : list Z := concat (map (fun l => l ++ [10]) ls).

(** What the probe has read, [seen]: an open block comes from a marker after the
    startup bytes, and counts the lines since. *)
Definition block_seen (startup seen tok : list Z) (b : option (Message.BlockId * bool * nat)) : Prop :=
  match b with
  | None => True
  | Some (id, matched, count) =>
      exists pre bl ls, seen = pre ++ bl ++ [10] ++ terminated ls
      /\ (length startup <= length pre)%nat
      /\ Message.parse_line (trim_end_matches 13 bl) = Some (Message.Begin id)
      /\ length ls = count
      /\ (matched = true -> exists ls' l, ls = ls' ++ [l] /\ trim_end_matches 13 l = tok)
  end.

Record probe_inv (startup : list Z) (p : Probe) : Prop := {
  pi_start : (length startup <= consumed p <= length (raw p))%nat;
  pi_block : block_seen startup (take (consumed p) (raw p)) (token p) (block p)
}.

(** The reply that the token asks for, at the end of what was read. *)
Definition confirms (startup : list Z) (p : Probe) (rest : list Z) : Prop :=
  exists pre bl tl el id, raw p = pre ++ bl ++ [10] ++ tl ++ [10] ++ el ++ [10] ++ rest
  /\ (length startup <= length pre)%nat
  /\ Message.parse_line (trim_end_matches 13 bl) = Some (Message.Begin id)
  /\ trim_end_matches 13 tl = token p
  /\ Message.parse_line (trim_end_matches 13 el) = Some (Message.End_ id).

Lemma terminated_snoc ls l : terminated (ls ++ [l]) = terminated ls ++ l ++ [10].
Proof. unfold terminated. rewrite map_app, concat_app. cbn. by rewrite app_nil_r. Qed.

(** The next line of the input. *)
Lemma next_line_split (p : Probe) offset :
  (consumed p <= length (raw p))%nat ->
  position (fun b => b =? 10) (drop (consumed p) (raw p)) = Some offset ->
  let bytes := drop (consumed p) (take (consumed p + offset) (raw p)) in
  take (consumed p + offset + 1) (raw p) = take (consumed p) (raw p) ++ bytes ++ [10]
  /\ (consumed p + offset + 1 <= length (raw p))%nat.
Proof.
  intros Hc Hp bytes. apply position_Some in Hp as (b & Hsplit & Hb%Z.eqb_eq & _ & Hlt). subst b.
  rewrite length_drop in Hlt. split; [| lia].
  assert (Hd : drop (consumed p) (raw p) = bytes ++ [10] ++ drop (S offset) (drop (consumed p) (raw p))).
  { unfold bytes. rewrite skipn_firstn_comm, Nat.add_comm, Nat.add_sub. exact Hsplit. }
  assert (Hlen : length bytes = offset)
    by (unfold bytes; rewrite length_drop, length_take; lia).
  rewrite <- (take_drop (consumed p) (raw p)) at 1. rewrite Hd.
  replace (consumed p + offset + 1)%nat with (length (take (consumed p) (raw p) ++ bytes ++ [10]))
    by (rewrite !length_app, length_take; cbn; lia).
  by rewrite !(app_assoc (take _ _)), app_assoc, take_app_length.
Qed.

(** One line: the invariant goes on, or the reply is there. *)
Lemma feed_line_spec startup p seen bytes :
  (length startup <= length seen)%nat -> take (consumed p) (raw p) = seen ++ bytes ++ [10] ->
  block_seen startup seen (token p) (block p) ->
  match feed_line p bytes with
  | inr p2 =>
      p2 = with_block p (block p2) /\ block_seen startup (seen ++ bytes ++ [10]) (token p) (block p2)
  | inl (Confirmed rest) => confirms startup p rest
  | inl Pending => False
  | inl _ => True
  end.
Proof.
  intros Hs Ht Hb. unfold feed_line. destruct (utf8_valid bytes); cbn [negb]; [| done].
  set (line := trim_end_matches 13 bytes).
  assert (Hreply : match block p with
    | Some (id, _, count) => block_seen startup (seen ++ bytes ++ [10]) (token p) (Some (id, beq line (token p), S count))
    | None => True end).
  { destruct (block p) as [[[id m] n] |]; [| done]. destruct Hb as (pre & bl & ls & -> & H1 & H2 & H3 & _).
    exists pre, bl, (ls ++ [bytes]). rewrite terminated_snoc, length_app, <- !app_assoc. split_and!; try done; [cbn; lia |].
    intros Hm%beq_true. by exists ls, bytes. }
  assert (Hid : p = with_block p (block p)) by (by destruct p).
  destruct (Message.parse_line line) as [m |] eqn:Em.
  2:{ destruct (block p) as [[[id b0] n] |] eqn:Eb; [done |].
      destruct (beq line (command p)); [| done]. rewrite Eb. by split. }
  destruct m; try done; try (by destruct (block p) as [[[? ?] ?] |] eqn:Eb; [done | rewrite Eb; split]).
  - destruct (block p); [done |]. split; [done |]. exists seen, bytes, []. by split_and!.
  - destruct (block p) as [[[id0 m] n] |] eqn:Eb; [| done]. destruct n as [| [| n]]; [done | | done].
    destruct (bool_decide (id0 = id) && m) eqn:E; [| done].
    apply andb_true_iff in E as [->%bool_decide_eq_true_1 ->].
    destruct Hb as (pre & bl & ls & -> & H1 & H2 & H3 & H4). destruct (H4 eq_refl) as (ls' & l & -> & Hl).
    rewrite length_app in H3. cbn in H3. destruct ls'; [| cbn in H3; lia].
    exists pre, bl, l, bytes, id. split_and!; try done.
    rewrite <- (take_drop (consumed p) (raw p)) at 1. rewrite Ht. unfold terminated. cbn.
    rewrite app_nil_r. repeat (rewrite <- ?app_assoc; cbn [app]). done.
Qed.

Lemma feed_loop_spec startup fuel p :
  probe_inv startup p ->
  let (r, p') := feed_loop fuel p in
  raw p' = raw p /\ token p' = token p
  /\ match r with
     | Pending => probe_inv startup p'
     | Confirmed rest => confirms startup p' rest
     | _ => True
     end.
Proof.
  revert p. induction fuel as [| f IH]; intros p Hi; [done |]. cbn [feed_loop].
  destruct (position _ _) as [offset |] eqn:Ep; [| done]. destruct Hi as [[H1 H2] Hb].
  destruct (next_line_split p offset H2 Ep) as [Hseen Hlen]. set (bytes := drop _ (take _ _)) in *.
  set (p1 := with_consumed p (consumed p + offset + 1)).
  pose proof (feed_line_spec startup p1 (take (consumed p) (raw p)) bytes
    ltac:(rewrite length_take; lia) Hseen Hb) as Hl.
  destruct (feed_line p1 bytes) as [r | p2]; [by destruct r |]. destruct Hl as [Hp2 Hb2].
  assert (Hi2 : probe_inv startup p2).
  { rewrite Hp2. constructor; [cbn; lia |]. cbn. rewrite Hseen. exact Hb2. }
  pose proof (IH p2 Hi2) as H. destruct (feed_loop f p2) as [r p']. rewrite Hp2 in H. exact H.
Qed.

(** One unit of fuel per byte is enough. *)
Lemma feed_loop_fuel f f' p :
  (length (raw p) - consumed p < f)%nat -> (length (raw p) - consumed p < f')%nat ->
  feed_loop f p = feed_loop f' p.
Proof.
  revert f' p. induction f as [| f IH]; intros f' p Hf Hf'; [lia |]. destruct f' as [| f']; [lia |]. cbn.
  destruct (position _ _) as [offset |] eqn:Ep; [| done].
  apply position_Some in Ep as (b & _ & _ & _ & Hlt). rewrite length_drop in Hlt.
  set (p1 := with_consumed p _). set (bytes := drop _ (take _ _)).
  assert (Hsame : forall p2, feed_line p1 bytes = inr p2 -> raw p2 = raw p /\ consumed p2 = (consumed p + offset + 1)%nat).
  { intros p2. unfold feed_line. repeat case_match; intros [= <-]; done. }
  destruct (feed_line p1 bytes) as [r | p2]; [done |]. destruct (Hsame p2 eq_refl) as [Hr Hcn].
  apply IH; rewrite Hr, Hcn; lia.
Qed.

(** Between two reads. *)
Lemma feed_spec startup p data :
  probe_inv startup p ->
  let (r, p') := feed p data in
  token p' = token p
  /\ match r with
     | Pending => probe_inv startup p' /\ raw p' = raw p ++ data
     | Confirmed rest => confirms startup p' rest /\ raw p' = raw p ++ data
     | _ => True
     end
  /\ (len (raw p') <= Z.max (len (raw p)) CONFIRM_MAX_BYTES).
Proof.
  intros [[H1 H2] Hb]. unfold feed, saturating_sub.
  destruct (Z.ltb_spec (Z.max 0 (CONFIRM_MAX_BYTES - len (raw p))) (len data)); [split_and!; try done; lia |].
  set (p1 := mkProbe _ _ _ _ _).
  assert (Hi : probe_inv startup p1).
  { constructor; cbn; [rewrite length_app; lia |]. by rewrite take_app_le. }
  pose proof (feed_loop_spec startup (S (length (raw p1))) p1 Hi) as Hl.
  destruct (feed_loop _ p1) as [r p']. destruct Hl as (Hr & Ht & Hres). rewrite Hr. unfold p1 in *. cbn in *.
  split_and!; [done | by destruct r | rewrite length_app; lia].
Qed.

Lemma feed_all_spec startup p chunks :
  probe_inv startup p ->
  let (r, p') := feed_all p chunks in
  token p' = token p
  /\ match r with
     | Confirmed rest => confirms startup p' rest /\ exists k, raw p' = raw p ++ concat (take k chunks)
     | _ => True
     end
  /\ (len (raw p') <= Z.max (len (raw p)) CONFIRM_MAX_BYTES).
Proof.
  revert p. induction chunks as [| data chunks IH]; intros p Hi; cbn [feed_all]; [split_and!; try done; lia |].
  pose proof (feed_spec startup p data Hi) as Hf. destruct (feed p data) as [r p1].
  destruct Hf as (Ht & Hr & Hlen). destruct r as [| rest | | rest |]; try done.
  - destruct Hr as [Hi1 Hraw]. pose proof (IH p1 Hi1) as H. destruct (feed_all p1 chunks) as [r p'].
    destruct H as (Ht2 & Hr2 & Hlen2). split_and!; [congruence | | lia].
    destruct r; try done. destruct Hr2 as [Hc [k Hk]]. split; [done |]. exists (S k). cbn.
    by rewrite Hk, Hraw, <- app_assoc.
  - destruct Hr as [Hc Hraw]. split_and!; try done. exists 1%nat. cbn. by rewrite take_0, app_nil_r.
Qed.

(** ** Properties *)

(** Only a reply to the probe's own query confirms the channel: whatever the
    reads, a confirmation means that, after the startup bytes, the peer sent a
    [%begin] line, exactly one line, the random token, and the [%end] line of the
    same block; what follows that line is returned untouched; and the probe
    never holds more than its byte limit, or the startup bytes it began with. *)
Theorem tmux_probe_confirms_token uuid startup chunks rest p :
  feed_all (probe_new uuid startup) chunks = (Confirmed rest, p) ->
  (exists pre bl tl el id, raw p = pre ++ bl ++ [10] ++ tl ++ [10] ++ el ++ [10] ++ rest
   /\ (length startup <= length pre)%nat
   /\ Message.parse_line (trim_end_matches 13 bl) = Some (Message.Begin id)
   /\ trim_end_matches 13 tl = bs "zzclawterm_" ++ uuid
   /\ Message.parse_line (trim_end_matches 13 el) = Some (Message.End_ id))
  /\ (exists k, raw p = startup ++ concat (take k chunks))
  /\ len (raw p) <= Z.max (len startup) CONFIRM_MAX_BYTES.
Proof.
  intros H. pose proof (feed_all_spec startup (probe_new uuid startup) chunks) as Hs. rewrite H in Hs.
  destruct Hs as (Ht & [Hc Hk] & Hl); [constructor; [cbn; lia | done] |].
  split_and!; [| done | done]. destruct Hc as (pre & bl & tl & el & id & H1 & H2 & H3 & H4 & H5).
  exists pre, bl, tl, el, id. split_and!; try done. by rewrite H4, Ht.
Qed.

Lemma tmux_probe_confirms_token_witness :
  exists p, feed_all (probe_new (bs "7") (bs "up")) [bs "%begin 1 2 0" ++ [10] ++ bs "zzclaw";
      bs "term_7" ++ [13; 10] ++ bs "%end 1 2 0" ++ [13; 10] ++ bs "$ "] = (Confirmed (bs "$ "), p)
  /\ len (raw p) <= Z.max 2 CONFIRM_MAX_BYTES.
Proof.
  eexists. eassert (H : feed_all (probe_new (bs "7") (bs "up")) [bs "%begin 1 2 0" ++ [10] ++ bs "zzclaw";
      bs "term_7" ++ [13; 10] ++ bs "%end 1 2 0" ++ [13; 10] ++ bs "$ "] = (Confirmed (bs "$ "), _)).
  { vm_compute. reflexivity. }
  split; [exact H |]. destruct (tmux_probe_confirms_token _ _ _ _ _ H) as (_ & _ & Hl). exact Hl.
Defined.
