(* ===== verification/TmuxInput.v ===== *)
(** * tmux pane input: [tmux/input.rs] (zzclawterm-transport)

    Terminal input is split into literal runs and named keys.  The loop of
    [split_input] carries the literal run [lit] that the code keeps as an index
    range; its fuel is the length of the input, each turn consuming a byte.  The
    index into a paste marker is always in range ([marker_ok]); the model reads
    the marker with a lookup. *)
From stdpp Require Import base list numbers strings.
From Stdlib Require Import ZArith Lia.
From S2P Require Import Prelude.

Inductive InputSegment := Literal (l : list Z) | Key (name : list Z).

(** ** Keys *)

Definition modifier_prefix (param : option Z) : option (list Z) :=
  match param with
  | None | Some 1 => Some []
  | Some 2 => Some (bs "S-")
  | Some 3 => Some (bs "M-")
  | Some 4 => Some (bs "M-S-")
  | Some 5 => Some (bs "C-")
  | Some 6 => Some (bs "C-S-")
  | Some 7 => Some (bs "C-M-")
  | Some 8 => Some (bs "C-M-S-")
  | _ => None
  end.

(** Shared by the SS3 and CSI letter forms. *)
Definition csi_letter_key (final_byte : Z) : option (list Z) :=
  match final_byte with
  | 65 => Some (bs "Up")
  | 66 => Some (bs "Down")
  | 67 => Some (bs "Right")
  | 68 => Some (bs "Left")
  | 72 => Some (bs "Home")
  | 70 => Some (bs "End")
  | 80 => Some (bs "F1")
  | 81 => Some (bs "F2")
  | 82 => Some (bs "F3")
  | 83 => Some (bs "F4")
  | _ => None
  end.

Definition ss3_key (b : Z) : option (list Z) :=
  match b with
  | 65 => Some (bs "Up")
  | 66 => Some (bs "Down")
  | 67 => Some (bs "Right")
  | 68 => Some (bs "Left")
  | 72 => Some (bs "Home")
  | 70 => Some (bs "End")
  | 80 => Some (bs "F1")
  | 81 => Some (bs "F2")
  | 82 => Some (bs "F3")
  | 83 => Some (bs "F4")
  | _ => None
  end.

Definition csi_tilde_key (number : Z) : option (list Z) :=
  match number with
  | 1 | 7 => Some (bs "Home")
  | 2 => Some (bs "IC")
  | 3 => Some (bs "DC")
  | 4 | 8 => Some (bs "End")
  | 5 => Some (bs "PPage")
  | 6 => Some (bs "NPage")
  | 11 => Some (bs "F1")
  | 12 => Some (bs "F2")
  | 13 => Some (bs "F3")
  | 14 => Some (bs "F4")
  | 15 => Some (bs "F5")
  | 17 => Some (bs "F6")
  | 18 => Some (bs "F7")
  | 19 => Some (bs "F8")
  | 20 => Some (bs "F9")
  | 21 => Some (bs "F10")
  | 23 => Some (bs "F11")
  | 24 => Some (bs "F12")
  | _ => None
  end.

Definition is_digit (b : Z) : bool := (48 <=? b) && (b <=? 57).
Definition is_alphabetic (b : Z) : bool := ((65 <=? b) && (b <=? 90)) || ((97 <=? b) && (b <=? 122)).
Definition parse_param (field : list Z) : option Z := from_str_radix 10 U32_MAX field.

(** The name of a CSI sequence with these parameter bytes and final byte. *)
Definition csi_name (params : list Z) (final_byte : Z) : option (list Z) :=
  if negb ((64 <=? final_byte) && (final_byte <=? 126)) then None
  else if negb (forallb (fun b => is_digit b || (b =? 59)) params) then None
  else
    let fields := split_on 59 params in
    let* first_field := fields !! 0%nat in
    let* first := if beq params [] then Some None else Some <$> parse_param first_field in
    let* second := match fields !! 1%nat with Some field => Some <$> parse_param field | None => Some None end in
    if bool_decide (is_Some (fields !! 2%nat)) then None
    else
      let* prefix := modifier_prefix second in
      if (final_byte =? 90) && beq params [] then Some (bs "BTab")
      else if (final_byte =? 82) && negb (beq params []) then None
      else if is_alphabetic final_byte && (default 1 first =? 1)
      then (fun base => prefix ++ base) <$> csi_letter_key final_byte
      else if final_byte =? 126
      then let* number := first in (fun base => prefix ++ base) <$> csi_tilde_key number
      else None.

Definition is_param (b : Z) : bool := (32 <=? b) && (b <=? 63).

(** The special key that opens [data], which starts with an escape. *)
Definition key_at (data : list Z) : option (list Z * nat) :=
  let* b1 := data !! 1%nat in
  if b1 =? 79 then
    let* b2 := data !! 2%nat in
    let* name := ss3_key b2 in
    Some (name, 3%nat)
  else if b1 =? 91 then
    let* offset := position (fun b => negb (is_param b)) (drop 2 data) in
    let stop := (offset + 2)%nat in
    let* final_byte := data !! stop in
    let* name := csi_name (drop 2 (take stop data)) final_byte in
    Some (name, (stop + 1)%nat)
  else None.

(** ** Batches *)

Fixpoint batch_scan (data : list Z) (stop : nat) (count index : nat) : nat :=
  match count with
  | O => stop
  | S count' =>
      let crossing :=
        if bool_decide (data !! index = Some 27) then
          match key_at (drop index (take (Nat.min (length data) (index + 32)) data)) with
          | Some (_, n) => if (stop <? index + n)%nat then Some (index + n)%nat else None
          | None => None
          end
        else None in
      match crossing with
      | Some n => n
      | None => batch_scan data stop count' (S index)
      end
  end.

Definition batch_len (data : list Z) (limit : nat) : nat :=
  let stop := Nat.min (length data) limit in
  let start := (stop - 32)%nat in
  batch_scan data stop (stop - start) start.

(** ** The input parser *)

Record InputParser := mkParser { in_paste : bool; paste_marker_len : nat }.
Definition parser_default : InputParser := mkParser false 0.

Definition PASTE_START : list Z := [27; 91; 50; 48; 48; 126].
Definition PASTE_END : list Z := [27; 91; 50; 48; 49; 126].
Definition marker_of (p : InputParser) : list Z := if in_paste p then PASTE_END else PASTE_START.

Definition track_paste_marker (p : InputParser) (byte : Z) : InputParser :=
  if bool_decide (marker_of p !! paste_marker_len p = Some byte) then
    let n := S (paste_marker_len p) in
    if (n =? length (marker_of p))%nat then mkParser (negb (in_paste p)) 0 else mkParser (in_paste p) n
  else mkParser (in_paste p) (if byte =? 27 then 1 else 0).

Definition flush (lit : list Z) : list InputSegment := if beq lit [] then [] else [Literal lit].

Fixpoint split_loop (fuel : nat) (p : InputParser) (lit rest : list Z) : InputParser * list InputSegment :=
  match fuel, rest with
  | S fuel', b :: rest' =>
      match (if negb (in_paste p) && (b =? 27) then key_at rest else None) with
      | Some (name, n) =>
          let (p', segments) := split_loop fuel' (mkParser (in_paste p) 0) [] (drop n rest) in
          (p', flush lit ++ Key name :: segments)
      | None => split_loop fuel' (track_paste_marker p b) (lit ++ [b]) rest'
      end
  | _, _ => (p, flush lit)
  end.

Definition split_input (p : InputParser) (data : list Z) : InputParser * list InputSegment :=
  split_loop (length data) p [] data.

(** The flushes of one pane. *)
Fixpoint split_all (p : InputParser) (chunks : list (list Z)) : InputParser * list InputSegment :=
  match chunks with
  | [] => (p, [])
  | data :: chunks' =>
      let (p1, s1) := split_input p data in
      let (p2, s2) := split_all p1 chunks' in
      (p2, s1 ++ s2)
  end.

(** ** What a key looks like *)

(** The bytes of a key: an SS3 letter, or a CSI sequence up to its final byte. *)
Inductive key_shape (name : list Z) : list Z -> Prop :=
| shape_ss3 b0 b2 : ss3_key b2 = Some name -> key_shape name [b0; 79; b2]
| shape_csi b0 params final_byte :
    Forall (fun b => is_param b = true) params -> is_param final_byte = false ->
    csi_name params final_byte = Some name ->
    key_shape name (b0 :: 91 :: params ++ [final_byte]).

Lemma key_shape_complete name piece rest :
  key_shape name piece -> key_at (piece ++ rest) = Some (name, length piece).
Proof.
  intros [b0 b2 H | b0 params final_byte Hp Hf H].
  - cbn. by rewrite H.
  - cbn [app]. rewrite <- app_assoc. cbn [app]. unfold key_at. cbn [lookup list_lookup Z.eqb Pos.eqb].
    change (drop 2 (b0 :: 91 :: params ++ final_byte :: rest)) with (params ++ final_byte :: rest).
    assert (position (fun b => negb (is_param b)) (params ++ final_byte :: rest) = Some (length params)) as ->.
    { clear H. induction Hp as [| b params Hb _ IH]; cbn; [by rewrite Hf | by rewrite Hb, IH]. }
    rewrite Nat.add_comm. change (2 + length params)%nat with (S (S (length params))).
    change ((b0 :: 91 :: params ++ final_byte :: rest) !! S (S (length params)))
      with ((params ++ final_byte :: rest) !! length params).
    change (drop 2 (take (S (S (length params))) (b0 :: 91 :: params ++ final_byte :: rest)))
      with (take (length params) (params ++ final_byte :: rest)).
    rewrite list_lookup_middle, take_app_length, H by done. cbn [length]. rewrite length_app. cbn. by rewrite Nat.add_1_r.
Qed.

Lemma key_shape_sound data name k :
  key_at data = Some (name, k) ->
  exists piece rest, data = piece ++ rest /\ length piece = k /\ key_shape name piece.
Proof.
  unfold key_at. destruct data as [| b0 [| b1 data]]; cbn [lookup list_lookup]; try done.
  destruct (Z.eqb_spec b1 79) as [-> | _].
  - destruct data as [| b2 data]; cbn; [done |]. destruct (ss3_key b2) as [n |] eqn:E; intros [= <- <-].
    exists [b0; 79; b2], data. split_and!; [done | done | by constructor].
  - destruct (Z.eqb_spec b1 91) as [-> | _]; [| done]. change (drop 2 (b0 :: 91 :: data)) with (drop 0 data).
    rewrite drop_0. destruct (position _ data) as [offset |] eqn:E; [| done].
    apply position_Some in E as (fb & Hd & Hf & Hp & Hlt).
    rewrite Nat.add_comm. change (2 + offset)%nat with (S (S offset)).
    change ((b0 :: 91 :: data) !! S (S offset)) with (data !! offset).
    change (drop 2 (take (S (S offset)) (b0 :: 91 :: data))) with (take offset data).
    assert (data !! offset = Some fb) as ->.
    { rewrite Hd at 1. apply list_lookup_middle. rewrite length_take. lia. }
    destruct (csi_name (take offset data) fb) as [n |] eqn:En; intros [= <- <-].
    exists (b0 :: 91 :: take offset data ++ [fb]), (drop (S offset) data). split_and!.
    + cbn. rewrite <- app_assoc. cbn. by rewrite <- Hd.
    + cbn. rewrite length_app, length_take. cbn. lia.
    + apply shape_csi; [| by apply negb_true_iff | done].
      eapply Forall_impl; [exact Hp |]. intros b Hb. by apply negb_false_iff.
Qed.

(** A key is recognised by its own bytes, whatever follows. *)
Lemma key_at_extend data name k rest :
  key_at data = Some (name, k) -> key_at (take k data ++ rest) = Some (name, k).
Proof.
  intros H. apply key_shape_sound in H as (piece & tail & -> & <- & Hs).
  rewrite take_app_length. by apply key_shape_complete.
Qed.

Lemma key_at_length data name k : key_at data = Some (name, k) -> (3 <= k <= length data)%nat.
Proof.
  intros H. apply key_shape_sound in H as (piece & tail & -> & <- & Hs).
  rewrite length_app. destruct Hs; cbn; rewrite ?length_app; cbn; lia.
Qed.

(** Only the first byte of a key is an escape. *)
Lemma key_at_no_escape data name k j :
  key_at data = Some (name, k) -> (0 < j < k)%nat -> data !! j <> Some 27.
Proof.
  intros H Hj. apply key_shape_sound in H as (piece & tail & -> & <- & Hs).
  rewrite lookup_app_l by lia. destruct Hs as [b0 b2 H | b0 params fb Hp Hf H].
  - destruct j as [| [| [| j]]]; cbn in *; [lia | done | | lia]. intros [= ->]. done.
  - destruct j as [| [| j]]; cbn [lookup list_lookup] in *; [lia | done |]. intros Hl.
    apply lookup_app_Some in Hl as [Hl | [_ Hl]].
    + rewrite Forall_lookup in Hp. by apply Hp in Hl.
    + destruct (j - length params)%nat; cbn in Hl; [| done]. by simplify_eq.
Qed.

(** ** The stream of spans *)

(** A span is a literal byte or a key; adjacent literal runs are not told apart. *)
Definition segment_spans (s : InputSegment) : list (Z + list Z) :=
  match s with Literal l => map inl l | Key name => [inr name] end.
Definition spans (l : list InputSegment) : list (Z + list Z) := concat (map segment_spans l).

Lemma spans_app a b : spans (a ++ b) = spans a ++ spans b.
Proof. unfold spans. by rewrite map_app, concat_app. Qed.

Lemma spans_flush lit : spans (flush lit) = map inl lit.
Proof.
  unfold flush. destruct (beq lit []) eqn:E; [apply beq_true in E; by subst |].
  unfold spans. cbn. by rewrite app_nil_r.
Qed.

(** The key that the loop takes at the head of [rest]. *)
Definition key_here (p : InputParser) (rest : list Z) : option (list Z * nat) :=
  match rest with
  | b :: _ => if negb (in_paste p) && (b =? 27) then key_at rest else None
  | [] => None
  end.

Lemma key_here_length p rest name n : key_here p rest = Some (name, n) -> (3 <= n <= length rest)%nat.
Proof. destruct rest as [| b rest]; cbn; [done |]. destruct (_ && _); [apply key_at_length | done]. Qed.

(** The loop, span by span. *)
Fixpoint scan (fuel : nat) (p : InputParser) (rest : list Z) : InputParser * list (Z + list Z) :=
  match fuel, rest with
  | S fuel', b :: rest' =>
      match key_here p rest with
      | Some (name, n) =>
          let (p', t) := scan fuel' (mkParser (in_paste p) 0) (drop n rest) in (p', inr name :: t)
      | None => let (p', t) := scan fuel' (track_paste_marker p b) rest' in (p', inl b :: t)
      end
  | _, _ => (p, [])
  end.

Lemma split_loop_scan fuel p lit rest :
  (length rest <= fuel)%nat ->
  (split_loop fuel p lit rest).1 = (scan fuel p rest).1
  /\ spans (split_loop fuel p lit rest).2 = map inl lit ++ (scan fuel p rest).2.
Proof.
  revert p lit rest. induction fuel as [| f IH]; intros p lit [| b rest] Hl; cbn [length] in Hl; try lia;
    try (cbn [split_loop scan fst snd]; rewrite spans_flush, app_nil_r; done).
  cbn [split_loop scan].
  change (if negb (in_paste p) && (b =? 27) then key_at (b :: rest) else None) with (key_here p (b :: rest)).
  destruct (key_here p (b :: rest)) as [[name n] |] eqn:E.
  - pose proof (key_here_length _ _ _ _ E) as Hn.
    destruct (IH (mkParser (in_paste p) 0) [] (drop n (b :: rest))) as [H1 H2]; [rewrite length_drop; cbn; lia |].
    destruct (split_loop f _ [] _) as [p1 s1], (scan f _ (drop n _)) as [p2 s2]. cbn [fst snd map app] in *. split; [done |].
    change (Key name :: s1) with ([Key name] ++ s1). rewrite !spans_app, spans_flush, H2. done.
  - destruct (IH (track_paste_marker p b) (lit ++ [b]) rest) as [H1 H2]; [lia |].
    destruct (split_loop f _ _ rest) as [p1 s1], (scan f _ rest) as [p2 s2]. cbn [fst snd map app] in *. split; [done |].
    rewrite H2, map_app, <- app_assoc. done.
Qed.

Lemma scan_fuel f f' p rest :
  (length rest <= f)%nat -> (length rest <= f')%nat -> scan f p rest = scan f' p rest.
Proof.
  revert f' p rest. induction f as [| f IH]; intros [| f'] p [| b rest] H H'; cbn [length] in *; try lia; try done.
  cbn [scan]. destruct (key_here p (b :: rest)) as [[name n] |] eqn:E.
  - pose proof (key_here_length _ _ _ _ E) as Hn.
    rewrite (IH f'); [done | |]; rewrite length_drop; cbn [length]; lia.
  - rewrite (IH f'); [done | |]; lia.
Qed.

Definition scan_all (p : InputParser) (data : list Z) : InputParser * list (Z + list Z) :=
  scan (length data) p data.

Lemma split_input_scan p data :
  (split_input p data).1 = (scan_all p data).1 /\ spans (split_input p data).2 = (scan_all p data).2.
Proof. apply split_loop_scan. done. Qed.

Lemma scan_all_cons p b rest :
  scan_all p (b :: rest) =
  match key_here p (b :: rest) with
  | Some (name, n) =>
      let (p', t) := scan_all (mkParser (in_paste p) 0) (drop n (b :: rest)) in (p', inr name :: t)
  | None => let (p', t) := scan_all (track_paste_marker p b) rest in (p', inl b :: t)
  end.
Proof.
  unfold scan_all. cbn [length scan]. destruct (key_here p (b :: rest)) as [[name n] |] eqn:E; [| done].
  pose proof (key_here_length _ _ _ _ E) as Hn. cbn [length] in Hn.
  rewrite (scan_fuel (length rest) (length (drop n (b :: rest)))); [done | | done].
  rewrite length_drop. cbn [length]. lia.
Qed.

(** No key of [a ++ b] crosses the cut. *)
Definition cut_safe (a b : list Z) : Prop :=
  forall i name k, (i < length a)%nat -> (a ++ b) !! i = Some 27 ->
  key_at (drop i (a ++ b)) = Some (name, k) -> (i + k <= length a)%nat.

Lemma cut_safe_drop n a b : cut_safe a b -> (n <= length a)%nat -> cut_safe (drop n a) b.
Proof.
  intros Hs Hn i name k Hi Hl Hk. rewrite length_drop in *. rewrite <- drop_app_le in Hl, Hk by lia.
  rewrite lookup_drop in Hl. rewrite drop_drop in Hk. specialize (Hs (n + i)%nat name k ltac:(lia) Hl Hk). lia.
Qed.

Lemma key_here_cut p c a b : cut_safe (c :: a) b -> key_here p (c :: a ++ b) = key_here p (c :: a).
Proof.
  intros Hs. cbn. destruct (negb (in_paste p)); cbn; [| done]. destruct (Z.eqb_spec c 27) as [-> |]; [| done].
  destruct (key_at (27 :: a ++ b)) as [[name k] |] eqn:E.
  - assert (Hk : (k <= S (length a))%nat) by (apply (Hs 0%nat name k); [cbn; lia | done | done]).
    pose proof (key_at_extend _ _ _ (drop k (27 :: a)) E) as He.
    change (27 :: a ++ b) with ((27 :: a) ++ b) in He. rewrite take_app_le, take_drop in He by (cbn; lia). done.
  - destruct (key_at (27 :: a)) as [[name k] |] eqn:E2; [| done].
    pose proof (key_at_extend _ _ _ (drop k (27 :: a) ++ b) E2) as He.
    rewrite app_assoc, take_drop in He. cbn [app] in He. congruence.
Qed.

Lemma scan_app p a b :
  cut_safe a b ->
  scan_all p (a ++ b) = ((scan_all (scan_all p a).1 b).1, (scan_all p a).2 ++ (scan_all (scan_all p a).1 b).2).
Proof.
  remember (length a) as m eqn:Hm. revert p a Hm. induction m as [m IH] using lt_wf_ind. intros p [| c a] Hm Hs.
  { change (scan_all p []) with (p, @nil (Z + list Z)). cbn [fst snd app]. by destruct (scan_all p b). }
  cbn [app]. rewrite !scan_all_cons, (key_here_cut p c a b Hs).
  destruct (key_here p (c :: a)) as [[name n] |] eqn:E.
  - pose proof (key_here_length _ _ _ _ E) as Hn.
    change (c :: a ++ b) with ((c :: a) ++ b). rewrite drop_app_le by lia.
    rewrite (IH (length (drop n (c :: a)))); [| rewrite length_drop; lia | done | by apply cut_safe_drop; [| lia]].
    by destruct (scan_all _ (drop n (c :: a))).
  - rewrite (IH (length a)); [| cbn in Hm; lia | done |].
    + by destruct (scan_all _ a).
    + apply (cut_safe_drop 1) in Hs; [| cbn; lia]. by cbn in Hs.
Qed.

(** ** The batch limit *)

(** The scan stops at the first key that crosses [stop], or returns [stop]. *)
Lemma batch_scan_spec data stop count index :
  (batch_scan data stop count index = stop
   /\ forall i name k, (index <= i < index + count)%nat -> data !! i = Some 27 ->
      key_at (drop i (take (Nat.min (length data) (i + 32)) data)) = Some (name, k) -> (i + k <= stop)%nat)
  \/ (exists i name k, (index <= i < index + count)%nat /\ data !! i = Some 27
      /\ key_at (drop i (take (Nat.min (length data) (i + 32)) data)) = Some (name, k)
      /\ (stop < i + k)%nat /\ batch_scan data stop count index = (i + k)%nat).
Proof.
  revert index. induction count as [| n IH]; intros index; [left; split; [done | intros; lia] |].
  cbn [batch_scan]. set (crossing := if bool_decide _ then _ else _).
  destruct crossing as [r |] eqn:E; unfold crossing in E; clear crossing.
  - destruct (bool_decide_reflect (data !! index = Some 27)) as [Hb |]; [| done].
    destruct (key_at _) as [[name k] |] eqn:Ek; [| done].
    destruct (Nat.ltb_spec stop (index + k)); simplify_eq. right. exists index, name, k. split_and!; try done; lia.
  - destruct (IH (S index)) as [[-> Hall] | (i & name & k & H1 & H2 & H3 & H4 & H5)].
    + left. split; [done |]. intros i name k Hi Hb Hk. destruct (decide (i = index)) as [-> | Hne].
      * rewrite (bool_decide_eq_true_2 _ Hb), Hk in E. destruct (Nat.ltb_spec stop (index + k)); [done | lia].
      * apply (Hall i name k); [lia | done | done].
    + right. exists i, name, k. split_and!; try done; lia.
Qed.

(** Every key of the input fits the window that the scan looks at. *)
Definition keys_short (data : list Z) : Prop :=
  forall i name k, data !! i = Some 27 -> key_at (drop i data) = Some (name, k) -> (k <= 32)%nat.

(** The window at [i] shows the same short keys as the input. *)
Lemma key_at_window data i name k :
  (i <= length data)%nat -> (k <= 32)%nat ->
  key_at (drop i data) = Some (name, k) ->
  key_at (drop i (take (Nat.min (length data) (i + 32)) data)) = Some (name, k).
Proof.
  intros Hi Hk H. pose proof (key_at_length _ _ _ H) as Hlen. rewrite length_drop in Hlen.
  set (m := Nat.min (length data) (i + 32)).
  assert (Ht : drop i (take m data) = take (m - i) (drop i data)) by apply skipn_firstn_comm.
  rewrite Ht. pose proof (key_at_extend _ _ _ (drop k (take (m - i) (drop i data))) H) as He.
  replace (take k (drop i data)) with (take k (take (m - i) (drop i data))) in He
    by (rewrite take_take; f_equal; unfold m; lia).
  by rewrite take_drop in He.
Qed.

Lemma window_key_at data i m name k :
  key_at (drop i (take m data)) = Some (name, k) -> key_at (drop i data) = Some (name, k).
Proof.
  intros H. rewrite skipn_firstn_comm in H.
  pose proof (key_at_extend _ _ _ (drop k (take (m - i) (drop i data)) ++ drop (m - i) (drop i data)) H) as He.
  by rewrite app_assoc, !take_drop in He.
Qed.

Lemma batch_len_safe data limit :
  keys_short data -> cut_safe (take (batch_len data limit) data) (drop (batch_len data limit) data).
Proof.
  intros Hshort i name k Hi Hb Hk. rewrite take_drop in Hb, Hk. rewrite length_take in Hi |- *.
  pose proof (Hshort i name k Hb Hk) as H32. pose proof (key_at_length _ _ _ Hk) as Hlen. rewrite length_drop in Hlen.
  unfold batch_len in *. set (stop := Nat.min (length data) limit) in *.
  destruct (batch_scan_spec data stop (stop - (stop - 32)) (stop - 32)) as
    [[Hr Hall] | (j & nj & kj & Hj & Hbj & Hkj & Hcross & Hr)]; rewrite Hr in *.
  - destruct (decide (i + k <= stop)%nat) as [| Hbad]; [lia |].
    assert (i + k <= stop)%nat; [| lia]. apply (Hall i name k); [lia | done |].
    apply key_at_window; [lia | done | done].
  - apply window_key_at in Hkj. pose proof (key_at_length _ _ _ Hkj) as Hlj. rewrite length_drop in Hlj.
    assert (Hin : forall x y kx, key_at (drop x data) = Some (y, kx) -> forall z, data !! z = Some 27 -> (x < z < x + kx)%nat -> False).
    { intros x y kx Hx z Hz Hlt. apply (key_at_no_escape _ _ _ (z - x) Hx); [lia |].
      rewrite lookup_drop. by replace (x + (z - x))%nat with z by lia. }
    destruct (lt_eq_lt_dec i j) as [[Hlt | ->] | Hgt].
    + destruct (decide (i + k <= j)%nat); [lia |]. exfalso. apply (Hin i name k Hk j Hbj). lia.
    + assert (k = kj) as -> by congruence. lia.
    + exfalso. apply (Hin j nj kj Hkj i Hb). lia.
Qed.

Lemma batch_len_bounds data limit :
  (Nat.min (length data) limit <= batch_len data limit <= Nat.min (length data) (limit + 31))%nat.
Proof.
  unfold batch_len. set (stop := Nat.min (length data) limit).
  destruct (batch_scan_spec data stop (stop - (stop - 32)) (stop - 32)) as
    [[-> _] | (j & nj & kj & Hj & _ & Hkj & Hcross & ->)]; [unfold stop; lia |].
  apply key_at_length in Hkj. rewrite length_drop, length_take in Hkj. unfold stop in *. lia.
Qed.

(** ** Bracketed paste *)

Definition track_all (p : InputParser) (l : list Z) : InputParser := foldl track_paste_marker p l.

Lemma track_all_app p a b : track_all p (a ++ b) = track_all (track_all p a) b.
Proof. apply foldl_app. Qed.

(** Inside a paste, the marker length is the part of the end marker that the
    bytes so far end with, as long as the whole marker did not occur. *)
Lemma track_in_paste l :
  (forall a c, l <> a ++ PASTE_END ++ c) ->
  exists k l0, track_all (mkParser true 0) l = mkParser true k /\ (k < 6)%nat /\ l = l0 ++ take k PASTE_END.
Proof.
  induction l as [| b l IH] using rev_ind; intros Hn; [exists 0%nat, []; split_and!; [done | lia | done] |].
  destruct IH as (k & l0 & Ht & Hk & Hl).
  { intros a c ->. apply (Hn a (c ++ [b])). by rewrite <- !app_assoc. }
  rewrite track_all_app, Ht. cbn [track_all foldl]. unfold track_paste_marker. cbn [in_paste marker_of paste_marker_len].
  destruct (bool_decide_reflect (PASTE_END !! k = Some b)) as [Hb | Hb].
  - assert (Hs : l ++ [b] = l0 ++ take (S k) PASTE_END).
    { rewrite (take_S_r _ _ _ Hb), Hl. by rewrite <- app_assoc. }
    destruct (Nat.eqb_spec (S k) (length PASTE_END)) as [He | He].
    + exfalso. apply (Hn l0 []). rewrite Hs, He, app_nil_r. done.
    + exists (S k), l0. cbn in He. split_and!; [done | lia | done].
  - destruct (Z.eqb_spec b 27) as [-> |].
    + exists 1%nat, l. split_and!; [done | lia | done].
    + exists 0%nat, (l ++ [b]). split_and!; [done | lia | by rewrite app_nil_r].
Qed.

(** The end marker is recognised whatever part of it was pending. *)
Lemma track_end k : (k < 6)%nat -> track_all (mkParser true k) PASTE_END = mkParser false 0.
Proof. intros Hk. do 6 (destruct k as [| k]; [reflexivity |]). lia. Qed.

(** The payload of a paste: the end marker occurs only at its end. *)
Definition paste_payload (payload : list Z) : Prop :=
  forall a c, payload ++ PASTE_END = a ++ PASTE_END ++ c -> c = [].

Lemma payload_prefix payload l c a b :
  paste_payload payload -> payload ++ PASTE_END = l ++ c -> c <> [] -> l <> a ++ PASTE_END ++ b.
Proof.
  intros Hp Heq Hc ->. rewrite <- !app_assoc in Heq. apply Hp in Heq. by apply app_nil in Heq as [_ ?].
Qed.

Lemma track_paste payload :
  paste_payload payload -> track_all parser_default (PASTE_START ++ payload ++ PASTE_END) = parser_default.
Proof.
  intros Hp. rewrite !track_all_app. change (track_all parser_default PASTE_START) with (mkParser true 0).
  destruct (track_in_paste payload) as (k & l0 & -> & Hk & _).
  { intros a c. by apply (payload_prefix payload payload PASTE_END). }
  by rewrite track_end.
Qed.

(** Where no key is recognised, the scan only tracks the marker. *)
Lemma scan_literal p l :
  (forall a b, l = a ++ b -> key_here (track_all p a) b = None) -> scan_all p l = (track_all p l, map inl l).
Proof.
  revert p. induction l as [| b l IH]; intros p H; [done |].
  assert (key_here p (b :: l) = None) as Hk by exact (H [] (b :: l) eq_refl). rewrite scan_all_cons, Hk.
  rewrite IH; [done |]. intros a c ->. apply (H (b :: a) c eq_refl).
Qed.

(** No byte of a paste, cut anywhere, starts a key. *)
Lemma paste_quiet payload a b c :
  paste_payload payload -> PASTE_START ++ payload ++ PASTE_END = a ++ b ++ c ->
  key_here (track_all parser_default a) b = None.
Proof.
  intros Hp Heq. destruct b as [| x b]; [done |]. destruct (decide (length a < 6)%nat) as [Ha | Ha].
  - assert (Hx : (PASTE_START ++ payload ++ PASTE_END) !! length a = Some x)
      by (rewrite Heq; by apply list_lookup_middle).
    rewrite lookup_app_l in Hx by done.
    destruct a as [| a0 a]; cbn [length] in Hx, Ha.
    + cbn [app] in Heq. cbn in Hx. injection Hx as <-. injection Heq as Heq.
      do 5 (destruct b as [| ? b]; [reflexivity | cbn [app] in Heq; injection Heq as <- Heq]). reflexivity.
    + assert (x <> 27) by (destruct (length a) as [| [| [| [| [| m]]]]]; cbn in Hx; by simplify_eq).
      unfold key_here. rewrite (proj2 (Z.eqb_neq x 27)), andb_false_r by done. done.
  - assert (exists a', a = PASTE_START ++ a') as [a' ->].
    { exists (drop 6 a). rewrite <- (take_drop 6 a) at 1. f_equal.
      assert (take 6 (PASTE_START ++ payload ++ PASTE_END) = take 6 (a ++ (x :: b) ++ c)) as Ht by (by rewrite Heq).
      rewrite (take_app_le a) in Ht by lia. by rewrite <- Ht. }
    rewrite <- app_assoc in Heq. apply app_inv_head in Heq. rewrite track_all_app.
    change (track_all parser_default PASTE_START) with (mkParser true 0).
    destruct (track_in_paste a') as (k & l0 & -> & _); [| done].
    intros u v. by eapply payload_prefix.
Qed.

Lemma split_all_paste payload before chunks :
  paste_payload payload -> PASTE_START ++ payload ++ PASTE_END = before ++ concat chunks ->
  (split_all (track_all parser_default before) chunks).1 = parser_default
  /\ spans (split_all (track_all parser_default before) chunks).2 = map inl (concat chunks).
Proof.
  intros Hp. revert before. induction chunks as [| d chunks IH]; intros before Heq; cbn [split_all concat].
  - cbn in Heq. rewrite app_nil_r in Heq. rewrite <- Heq. split; [by apply track_paste | done].
  - pose proof (split_input_scan (track_all parser_default before) d) as [H1 H2].
    rewrite scan_literal in H1, H2.
    2, 3: intros a b ->; rewrite <- track_all_app; apply (paste_quiet payload _ b (concat chunks) Hp);
          rewrite Heq; cbn; by rewrite <- !app_assoc.
    destruct (split_input _ d) as [p1 s1]. cbn [fst snd] in H1, H2. subst p1.
    rewrite <- track_all_app. destruct (IH (before ++ d)) as [H3 H4]; [rewrite Heq; cbn; by rewrite <- app_assoc |].
    destruct (split_all _ chunks) as [p2 s2]. cbn [fst snd] in *. split; [done |].
    by rewrite spans_app, H2, H4, map_app.
Qed.

(** ** Conservation *)

(** A segment and the input bytes that it stands for. *)
Definition stands_for (s : InputSegment) (piece : list Z) : Prop :=
  match s with
  | Literal l => l = piece /\ piece <> []
  | Key name => head piece = Some 27 /\ key_at piece = Some (name, length piece)
  end.

Lemma flush_stands_for lit : exists pieces, Forall2 stands_for (flush lit) pieces /\ concat pieces = lit.
Proof.
  unfold flush. destruct (beq lit []) eqn:E; [apply beq_true in E; subst; by exists [] |].
  exists [lit]. split; [| cbn; by rewrite app_nil_r]. repeat constructor. intros ->. by rewrite beq_refl in E.
Qed.

Lemma split_loop_pieces fuel p lit rest :
  (length rest <= fuel)%nat ->
  exists pieces, Forall2 stands_for (split_loop fuel p lit rest).2 pieces /\ concat pieces = lit ++ rest.
Proof.
  revert p lit rest. induction fuel as [| f IH]; intros p lit [| b rest] Hl; cbn [length] in Hl; try lia;
    try (cbn [split_loop snd]; rewrite app_nil_r; apply flush_stands_for).
  cbn [split_loop].
  destruct (if negb (in_paste p) && (b =? 27) then key_at (b :: rest) else None) as [[name n] |] eqn:E.
  - assert (b = 27 /\ key_at (b :: rest) = Some (name, n)) as [-> Hk].
    { destruct (negb (in_paste p)), (Z.eqb_spec b 27); cbn in E; done. }
    pose proof (key_at_length _ _ _ Hk) as Hn. cbn [length] in Hn.
    destruct (IH (mkParser (in_paste p) 0) [] (drop n (27 :: rest))) as (pieces & H1 & H2); [rewrite length_drop; cbn; lia |].
    destruct (split_loop f _ [] _) as [p1 s1]. cbn [snd] in *. destruct (flush_stands_for lit) as (fl & H3 & H4).
    exists (fl ++ take n (27 :: rest) :: pieces). split.
    + apply Forall2_app; [done |]. constructor; [| done]. split.
      * destruct n; [lia | done].
      * rewrite length_take. cbn [length]. replace (Nat.min n (S (length rest))) with n by lia.
        pose proof (key_at_extend _ _ _ [] Hk) as He. by rewrite app_nil_r in He.
    + rewrite concat_app, H4. cbn [concat]. rewrite H2. cbn [app]. by rewrite take_drop.
  - destruct (IH (track_paste_marker p b) (lit ++ [b]) rest) as (pieces & H1 & H2); [lia |].
    exists pieces. split; [done |]. rewrite H2, <- app_assoc. done.
Qed.

(** ** Properties *)

(** Splitting pane input into literal runs and keys loses, invents and
    reorders nothing, in any parser state: the segments stand, one by one, for
    consecutive pieces of the input, a literal for its own nonempty bytes and a
    key for a complete escape sequence of that name. *)
Theorem tmux_input_conserves p data :
  exists pieces, Forall2 stands_for (split_input p data).2 pieces /\ concat pieces = data.
Proof. exact (split_loop_pieces (length data) p [] data (Nat.le_refl _)). Qed.

(** A bracketed paste stays literal byte for byte, escape sequences in its
    payload included, wherever the flushes cut it, its markers included; after it
    the parser is in its initial state. *)
Theorem tmux_paste_stays_literal payload chunks :
  paste_payload payload -> concat chunks = PASTE_START ++ payload ++ PASTE_END ->
  (split_all parser_default chunks).1 = parser_default
  /\ spans (split_all parser_default chunks).2 = map inl (PASTE_START ++ payload ++ PASTE_END).
Proof. intros Hp Hc. rewrite <- Hc. by apply (split_all_paste payload [] chunks). Qed.

(** The End key inside the payload, a flush boundary inside each marker. *)
Lemma tmux_paste_stays_literal_witness :
  (split_all parser_default [[27; 91; 50]; [48; 48; 126; 27; 91; 70]; [27; 91; 50; 48]; [49; 126]]).1
  = parser_default.
Proof.
  refine (proj1 (tmux_paste_stays_literal [27; 91; 70] _ _ _)); [| reflexivity].
  intros a c H. do 4 (destruct a as [| ? a]; [unfold PASTE_END in H; cbn in H; first [discriminate H | by injection H] |]).
  assert (Hl := f_equal (@length Z) H). rewrite !length_app in Hl. cbn in Hl. lia.
Defined.

(** Cutting the input at the length that the worker's batch limit gives
    changes nothing: the two parts yield the spans and the final state of the
    whole, provided no key sequence is longer than 32 bytes; the cut is never
    before the limit nor more than 31 bytes after it. *)
Theorem tmux_batches_keep_keys p data limit :
  keys_short data ->
  let n := batch_len data limit in
  let (p1, s1) := split_input p (take n data) in
  let (p2, s2) := split_input p1 (drop n data) in
  p2 = (split_input p data).1 /\ spans s1 ++ spans s2 = spans (split_input p data).2
  /\ (Nat.min (length data) limit <= n <= Nat.min (length data) (limit + 31))%nat.
Proof.
  intros Hs n. pose proof (scan_app p _ _ (batch_len_safe data limit Hs)) as Hc. rewrite take_drop in Hc. fold n in Hc.
  destruct (split_input_scan p data) as [-> ->]. rewrite Hc.
  destruct (split_input_scan p (take n data)) as [H1 H2]. destruct (split_input p (take n data)) as [p1 s1].
  cbn [fst snd] in H1, H2. destruct (split_input_scan p1 (drop n data)) as [H3 H4].
  destruct (split_input p1 (drop n data)) as [p2 s2]. cbn [fst snd] in *.
  rewrite <- H1, H2, H3, H4. split_and!; [done | done | apply batch_len_bounds | apply batch_len_bounds].
Qed.

Lemma tmux_batches_keep_keys_witness :
  let data := [120; 27; 91; 70; 121] in
  batch_len data 2 = 4%nat
  /\ let (p1, s1) := split_input parser_default (take 4 data) in
     let (p2, s2) := split_input p1 (drop 4 data) in
     p2 = parser_default /\ spans s1 ++ spans s2 = [inl 120; inr (bs "End"); inl 121] /\ (2 <= 4 <= 5)%nat.
Proof.
  split; [reflexivity |].
  refine (tmux_batches_keep_keys parser_default [120; 27; 91; 70; 121] 2 _).
  intros i name k Hi Hk. apply key_at_length in Hk. rewrite length_drop in Hk. cbn in Hk. lia.
Defined.
