(* ===== verification/Policy.v ===== *)
(** The execution policy of the AI agent and of external callers: risk levels,
    permission modes, the decision table, and the classification of shell
    commands and of remote file operations that feeds it (the policy, the sftp
    and the risk modules of zzclawterm-core). Strings are UTF-8 byte lists. *)
From stdpp Require Import base list numbers strings.
From Stdlib Require Import ZArith Lia.
From S2P Require Import Prelude Text.

Inductive RiskLevel := Low | Medium | High | Critical.
Inductive AiPermissionMode := Observer | Confirm | Auto | FullAccess.
Inductive AgentCommandExecutionMode := ConfirmEach | Smart | AutoExecute.
Inductive CapabilityAccess := Read | SensitiveRead | Write | DestructiveWrite.
Inductive PolicyDecision := Allow | RequireApproval | Deny.

#[global] Instance RiskLevel_eq_dec : EqDecision RiskLevel.
Proof. solve_decision. Defined.
#[global] Instance CapabilityAccess_eq_dec : EqDecision CapabilityAccess.
Proof. solve_decision. Defined.
#[global] Instance AgentCommandExecutionMode_eq_dec : EqDecision AgentCommandExecutionMode.
Proof. solve_decision. Defined.
#[global] Instance PolicyDecision_eq_dec : EqDecision PolicyDecision.
Proof. solve_decision. Defined.

(** The derived order on risk levels. *)
Definition rank (l : RiskLevel) : nat :=
  match l with Low => 0 | Medium => 1 | High => 2 | Critical => 3 end.
Definition max_risk (a b : RiskLevel) : RiskLevel := if (rank b <=? rank a)%nat then a else b.

Record RiskAssessment := risk { level : RiskLevel; reason : list Z; auto_executable : bool }.

Definition is_some_and {A} (o : option A) (f : A -> bool) : bool :=
  match o with Some x => f x | None => false end.

(** ** The decision table *)
Definition decide_policy (mode : AiPermissionMode) (access : CapabilityAccess)
    (assessment : option RiskAssessment) : PolicyDecision :=
  match mode with
  | Observer =>
      match access with
      | Read => Allow
      | SensitiveRead => RequireApproval
      | Write | DestructiveWrite => Deny
      end
  | Confirm =>
      match access with
      | Read => Allow
      | SensitiveRead | Write | DestructiveWrite => RequireApproval
      end
  | Auto =>
      match access with
      | Read | SensitiveRead => Allow
      | Write =>
          if is_some_and assessment (fun r => auto_executable r && (rank (level r) <? rank High)%nat)
          then Allow else RequireApproval
      | DestructiveWrite => RequireApproval
      end
  | FullAccess => Allow
  end.

Definition decide_native_policy (mode : AgentCommandExecutionMode) (smart_max_risk : RiskLevel)
    (access : CapabilityAccess) (assessment : option RiskAssessment) : PolicyDecision :=
  let permission := match mode with
                    | ConfirmEach => Confirm
                    | Smart => Auto
                    | AutoExecute => FullAccess
                    end in
  let decision := decide_policy permission access assessment in
  if bool_decide (decision = Allow) && bool_decide (mode = Smart)
     && is_some_and assessment (fun r => (rank smart_max_risk <? rank (level r))%nat)
  then RequireApproval else decision.

Definition requires_single_approval (access : CapabilityAccess) (assessment : option RiskAssessment) : bool :=
  bool_decide (access = DestructiveWrite)
  || is_some_and assessment (fun r => bool_decide (level r = Critical)).

(** ** The shell tokenizer *)
Module Shell.

Record tokenizer := Tok {
  tokens : list (list Z);
  current : list Z;
  quote : option (list Z);
  escaped : bool
}.

Definition push_token (s : tokenizer) : tokenizer :=
  if beq (current s) [] then s
  else Tok (tokens s ++ [current s]) [] (quote s) (escaped s).
Definition push_char (c : list Z) (s : tokenizer) : tokenizer :=
  Tok (tokens s) (current s ++ c) (quote s) (escaped s).
Definition push_op (op : list Z) (s : tokenizer) : tokenizer :=
  Tok (tokens s ++ [op]) (current s) (quote s) (escaped s).
Definition set_quote (q : option (list Z)) (s : tokenizer) : tokenizer :=
  Tok (tokens s) (current s) q (escaped s).
Definition set_escaped (e : bool) (s : tokenizer) : tokenizer :=
  Tok (tokens s) (current s) (quote s) e.

Definition quote_char (c : list Z) : bool := beq c [39] || beq c [34].
Definition operator_char (c : list Z) : bool := existsb (beq c) [[59]; [124]; [38]; [62]].
Definition doubling_char (c : list Z) : bool := existsb (beq c) [[124]; [38]; [62]].

(** One round of the loop, for a character that is not the first of a doubled
    operator. *)
Definition tokenize_char (c : list Z) (s : tokenizer) : tokenizer :=
  if escaped s then set_escaped false (push_char c s)
  else if beq c [92] && negb (bool_decide (quote s = Some [39])) then set_escaped true s
  else if quote_char c then
    if bool_decide (quote s = Some c) then set_quote None s
    else if bool_decide (quote s = None) then set_quote (Some c) s
    else push_char c s
  else if bool_decide (quote s = None) && beq c [10] then push_op [59] (push_token s)
  else if bool_decide (quote s = None) && is_whitespace c then push_token s
  else if bool_decide (quote s = None) && operator_char c then push_op c (push_token s)
  else push_char c s.

(** The character is taken as an operator, so the next one is peeked at. *)
Definition at_operator (c : list Z) (s : tokenizer) : bool :=
  negb (escaped s) && bool_decide (quote s = None) && operator_char c.

Fixpoint tokenize_loop (cs : list (list Z)) (s : tokenizer) : tokenizer :=
  match cs with
  | [] => s
  | c :: rest =>
      match rest with
      | c2 :: rest' =>
          if at_operator c s && (beq c2 c && doubling_char c)
          then tokenize_loop rest' (push_op (c ++ c2) (push_token s))
          else tokenize_loop rest (tokenize_char c s)
      | [] => tokenize_char c s
      end
  end.

Definition start : tokenizer := Tok [] [] None false.
Definition tokenize_shell (command : list Z) : list (list Z) :=
  tokens (push_token (tokenize_loop (chars command) start)).

(** Stages: the tokens between control operators, without redirections. *)
Definition control (t : list Z) : bool := one_of t [";"; "&"; "&&"; "||"; "|"].
Definition redirection (t : list Z) : bool := one_of t [">"; ">>"].

Fixpoint stages_loop (ts : list (list Z)) (cur : list (list Z)) : list (list (list Z)) :=
  match ts with
  | [] => match cur with [] => [] | _ => [cur] end
  | t :: ts' =>
      if control t then match cur with [] => stages_loop ts' [] | _ => cur :: stages_loop ts' [] end
      else if redirection t then stages_loop ts' cur
      else stages_loop ts' (cur ++ [t])
  end.
Definition command_stages (ts : list (list Z)) : list (list (list Z)) := stages_loop ts [].

Definition basename (command : list Z) : list Z :=
  after_last (fun b => (b =? 47) || (b =? 92)) command.

Definition assignment (t : list Z) : bool := has_byte 61 t && negb (starts_with [61] t).
Definition executable_and_args (stage : list (list Z)) : option (list Z * list (list Z)) :=
  match drop_while assignment stage with
  | [] => None
  | command :: args =>
      if beq (basename command) (bs "env") then
        match drop_while (fun t => starts_with [45] t || assignment t) args with
        | [] => Some (bs "env", [])
        | nested :: args' => Some (basename nested, args')
        end
      else Some (basename command, args)
  end.
End Shell.

(** ** Classification of commands *)
Module Command.
Import Shell.

Inductive StageClass := ReadOnly | WriteStage | Unknown.
#[global] Instance StageClass_eq_dec : EqDecision StageClass.
Proof. solve_decision. Defined.

Definition first_is (args : list (list Z)) (names : list string) : bool :=
  is_some_and (head args) (fun a => one_of a names).
Definition any_is (args : list (list Z)) (names : list string) : bool :=
  existsb (fun a => one_of a names) args.

Definition read_only : list string :=
  ["ls"; "pwd"; "whoami"; "id"; "uname"; "cat"; "less"; "head"; "tail"; "grep"; "rg"; "find"; "df";
   "du"; "free"; "top"; "htop"; "ps"; "ss"; "netstat"; "journalctl"; "printenv"; "which"; "whereis"]%string.
Definition ordinary_write : list string :=
  ["touch"; "mkdir"; "cp"; "mv"; "chmod"; "chown"; "setfacl"; "export"]%string.

Definition classify_stage (stage : list (list Z)) : StageClass :=
  match executable_and_args stage with
  | None => Unknown
  | Some (command, args) =>
      if one_of command read_only then ReadOnly
      else if beq command (bs "env") && match args with [] => true | _ => false end then ReadOnly
      else if beq command (bs "ip")
              && (match args with [] => true | _ => false end
                  || first_is args ["a"; "addr"; "address"; "link"; "route"; "neigh"; "rule"])
      then ReadOnly
      else if beq command (bs "systemctl") && first_is args ["status"] then ReadOnly
      else if beq command (bs "docker") && first_is args ["ps"; "logs"; "inspect"] then ReadOnly
      else if beq command (bs "kubectl") && first_is args ["get"; "describe"; "logs"; "explain"] then ReadOnly
      else if beq command (bs "git") && first_is args ["status"; "log"; "diff"; "show"] then ReadOnly
      else if one_of command ordinary_write then WriteStage
      else if beq command (bs "git")
              && first_is args ["checkout"; "switch"; "pull"; "merge"; "add"; "commit"]
      then WriteStage
      else if beq command (bs "make") && any_is args ["install"] then WriteStage
      else Unknown
  end.

Definition is_root_rm_args (args : list (list Z)) : bool :=
  existsb (fun arg => starts_with [45] arg && has_byte 114 arg && has_byte 102 arg) args
  && any_is args ["/"; "/*"; "--no-preserve-root"].

Definition fork_bomb : list Z := bs ":(){:|:&};:".

Definition is_critical_stage (stage : list (list Z)) : bool :=
  match executable_and_args stage with
  | None => false
  | Some (command, args) =>
      if beq command (bs "rm") && is_root_rm_args args then true
      else if beq command (bs "dd") && existsb (starts_with (bs "of=/dev/")) args then true
      else if one_of command ["mkfs"; "wipefs"; "shutdown"; "poweroff"; "reboot"; "halt"]
              || starts_with (bs "mkfs.") command then true
      else (beq command (bs "systemctl") && first_is args ["stop"]
            && any_is (drop 1 args) ["ssh"; "sshd"; "ssh.service"; "sshd.service"])
           || (beq command (bs "service") && first_is args ["ssh"; "sshd"]
               && is_some_and (args !! 1%nat) (fun a => beq a (bs "stop")))
           || contains fork_bomb (concat stage)
  end.

Definition system_roots : list string :=
  ["/etc"; "/boot"; "/bin"; "/sbin"; "/usr"; "/lib"; "/lib64"; "/var/lib"; "/root"]%string.

Definition is_sensitive_terminal_path (value : list Z) : bool :=
  existsb (fun root => beq value (bs root) || starts_with (bs root ++ [47]) value) system_roots
  || beq value (bs "~/.ssh") || starts_with (bs "~/.ssh/") value || contains (bs "/.ssh/") value.

(** The words of an argument: its pieces between bytes that are neither
    alphanumeric nor an underscore. *)
Definition sql_word_byte (b : Z) : bool :=
  ((48 <=? b) && (b <=? 57)) || ((65 <=? b) && (b <=? 90)) || ((97 <=? b) && (b <=? 122)) || (b =? 95).
Fixpoint split_words (l cur : list Z) : list (list Z) :=
  match l with
  | [] => [cur]
  | b :: l' => if sql_word_byte b then split_words l' (cur ++ [b]) else cur :: split_words l' []
  end.
Definition contains_sql_word (args : list (list Z)) (needle : list Z) : bool :=
  existsb (fun arg => existsb (fun word => beq word needle) (split_words arg [])) args.

Definition is_high_risk_stage (stage : list (list Z)) : bool :=
  match executable_and_args stage with
  | None => false
  | Some (command, args) =>
      if one_of command ["sudo"; "doas"; "su"] then true
      else if one_of command ["rm"; "rmdir"; "truncate"; "iptables"; "ip6tables"; "nft"; "ufw"; "useradd";
                              "userdel"; "usermod"; "passwd"; "visudo"] then true
      else if beq command (bs "find") && any_is args ["-delete"; "-exec"; "-execdir"] then true
      else if beq command (bs "ip")
              && any_is args ["add"; "delete"; "del"; "replace"; "change"; "set"; "flush"] then true
      else if one_of command ["chmod"; "chown"]
              && existsb (fun arg => starts_with [45] arg && (has_byte 114 arg || has_byte 82 arg)) args
      then true
      else if one_of command ["cp"; "mv"; "chmod"; "chown"] && existsb is_sensitive_terminal_path args
      then true
      else if beq command (bs "sed")
              && existsb (fun arg => beq arg (bs "-i") || starts_with (bs "-i") arg) args then true
      else if beq command (bs "perl")
              && existsb (fun arg => starts_with [45] arg && has_byte 112 arg && has_byte 105 arg) args
      then true
      else if beq command (bs "systemctl") && first_is args ["restart"; "stop"; "disable"; "mask"] then true
      else if beq command (bs "service") then true
      else if one_of command ["apt"; "apt-get"; "yum"; "dnf"; "pacman"; "brew"; "pip"; "pip3"]
              && any_is args ["install"; "remove"; "purge"; "uninstall"; "-s"; "-r"] then true
      else if beq command (bs "npm") && any_is args ["-g"; "--global"] then true
      else if beq command (bs "docker") then
        first_is args ["rm"; "rmi"]
        || bool_decide (take 2 args = [bs "system"; bs "prune"])
        || bool_decide (take 2 args = [bs "compose"; bs "down"])
      else if beq command (bs "kubectl") && first_is args ["delete"; "drain"; "apply"; "replace"] then true
      else if beq command (bs "terraform") && first_is args ["apply"; "destroy"] then true
      else if beq command (bs "helm") && first_is args ["uninstall"] then true
      else if beq command (bs "git")
              && ((first_is args ["reset"] && any_is args ["--hard"])
                  || (first_is args ["clean"]
                      && existsb (fun arg => starts_with [45] arg && has_byte 102 arg) args)) then true
      else if one_of command ["mysql"; "psql"] && contains_sql_word args (bs "drop") then true
      else beq command (bs "redis-cli") && any_is args ["flushall"; "flushdb"]
  end.

(** A pipe whose left command downloads and whose right command is a shell. The
    left side reaches back to the last control operator, the right side forward
    to the next one. *)
Definition left_part (ts : list (list Z)) : list (list Z) :=
  rev (take_while (fun t => negb (control t)) (rev ts)).
Definition right_part (ts : list (list Z)) : list (list Z) := take_while (fun t => negb (control t)) ts.
Definition pipe_at (ts : list (list Z)) (index : nat) : bool :=
  is_some_and (ts !! index) (fun t => beq t (bs "|"))
  && is_some_and (executable_and_args (left_part (take index ts)))
       (fun v => one_of (fst v) ["curl"; "wget"])
  && is_some_and (executable_and_args (right_part (drop (index + 1) ts)))
       (fun v => one_of (fst v) ["sh"; "bash"; "zsh"; "fish"]).
Definition is_download_pipe_to_shell (ts : list (list Z)) : bool :=
  existsb (pipe_at ts) (seq 0 (length ts)).

Fixpoint has_sensitive_write_redirection (ts : list (list Z)) : bool :=
  match ts with
  | t :: ts' =>
      match ts' with
      | target :: _ => redirection t && is_sensitive_terminal_path target
      | [] => false
      end || has_sensitive_write_redirection ts'
  | [] => false
  end.

(** The loop over the stages that are neither critical nor high risk. *)
Fixpoint classify_stages (stages : list (list (list Z))) (saw_write : bool) : option bool :=
  match stages with
  | [] => Some saw_write
  | stage :: rest =>
      match classify_stage stage with
      | ReadOnly => classify_stages rest saw_write
      | WriteStage => classify_stages rest true
      | Unknown => None
      end
  end.

Definition normalize (command : list Z) : list Z :=
  replace_byte 13 10 (replace_crlf (trim command)).

Definition critical_reason := bs "matches irreversible or system-disruptive command pattern".
Definition unclassified_reason := bs "command could not be classified".

Definition assess_command_risk (command : list Z) : RiskAssessment :=
  let normalized := normalize command in
  if beq normalized [] then risk Medium (bs "empty command") false
  else if contains fork_bomb (concat (split_whitespace normalized))
  then risk Critical critical_reason false
  else
    let ts := tokenize_shell (to_ascii_lowercase normalized) in
    match ts with
    | [] => risk Medium unclassified_reason false
    | _ =>
        let stages := command_stages ts in
        match stages with
        | [] => risk Medium unclassified_reason false
        | _ =>
            if existsb is_critical_stage stages then risk Critical critical_reason false
            else if is_download_pipe_to_shell ts || has_sensitive_write_redirection ts
                    || existsb is_high_risk_stage stages
            then risk High (bs "matches privileged or high-impact mutation pattern") false
            else
              match classify_stages stages (existsb redirection ts) with
              | None =>
                  risk Medium (bs "command is not explicitly classified as safe for automatic execution")
                    false
              | Some true =>
                  risk Medium (bs "matches a known ordinary state-changing command pattern") true
              | Some false => risk Low (bs "matches read-only diagnostic command patterns") true
              end
        end
    end.
End Command.

(** ** Risk of remote file operations *)
Module Sftp.

Inductive SftpRiskOperation := OpRead | OpWrite | OpMkdir | OpRename | OpDelete | OpChmod.
#[global] Instance SftpRiskOperation_eq_dec : EqDecision SftpRiskOperation.
Proof. solve_decision. Defined.

Fixpoint resolve_parts (ps : list (list Z)) (parts : list (list Z)) (parent_traversal : bool) :
    list (list Z) * bool :=
  match ps with
  | [] => (parts, parent_traversal)
  | part :: ps' =>
      if beq part [] || beq part (bs ".") then resolve_parts ps' parts parent_traversal
      else if beq part (bs "..") then
        resolve_parts ps'
          (if is_some_and (last parts) (fun p => negb (beq p (bs "~"))) then removelast parts else parts) true
      else resolve_parts ps' (parts ++ [part]) parent_traversal
  end.

Definition normalize_remote_path (path : list Z) : list Z * bool :=
  let path := replace_byte 92 47 (trim path) in
  let absolute := starts_with [47] path in
  let home := beq path (bs "~") || starts_with (bs "~/") path in
  let '(parts, parent_traversal) := resolve_parts (split_on 47 path) [] false in
  let joined := join_with [47] parts in
  let normalized :=
    if absolute && beq joined [] then [47]
    else if absolute then 47 :: joined
    else if home && negb (starts_with (bs "~") joined) then bs "~/" ++ joined
    else joined in
  let normalized := if beq normalized [47] then normalized else trim_end_matches 47 normalized in
  (normalized, parent_traversal).

Definition SYSTEM_ROOTS : list string :=
  ["/etc"; "/boot"; "/bin"; "/sbin"; "/usr"; "/lib"; "/lib64"; "/var/lib"; "/root"]%string.

Definition extension (path : list Z) : option (list Z) :=
  if has_byte 46 path then Some (after_last (Z.eqb 46) path) else None.

Definition is_sensitive_path (path : list Z) : bool :=
  if beq path [47] || existsb (fun root => beq path (bs root) || starts_with (bs root ++ [47]) path) SYSTEM_ROOTS
  then true
  else
    let components := split_on 47 path in
    if existsb (fun c => beq c (bs ".ssh")) components
       || beq path (bs "~/.ssh") || starts_with (bs "~/.ssh/") path
       || beq path (bs ".ssh") || starts_with (bs ".ssh/") path || contains (bs "/.ssh/") path
    then true
    else
      let basename := match last components with Some c => c | None => [] end in
      one_of basename ["authorized_keys"; "sshd_config"; "sudoers"; "passwd"; "shadow"; "group"; "crontab"]
      || existsb (fun part => one_of part ["sudoers.d"; "systemd"; "nginx"; "cron"; "cron.d"; "cron.daily";
                                           "cron.hourly"; "cron.monthly"; "cron.weekly"]) components
      || is_some_and (extension path) (fun e => one_of e ["service"; "socket"; "timer"; "target"]).

Definition is_dangerous_mode (mode : list Z) : bool :=
  let mode := match strip_prefix (bs "0o") (trim mode) with Some m => m | None => trim mode end in
  match from_str_radix 8 U32_MAX (drop_byte 48 mode) with
  | Some value => (value =? 438) || (value =? 511)
  | None => false
  end.

Definition assess_sftp_risk (operation : SftpRiskOperation) (path : list Z)
    (destination_path : option (list Z)) (force : bool) (mode : option (list Z)) : RiskAssessment :=
  if bool_decide (operation = OpDelete) then risk High (bs "remote path deletion is destructive") false
  else if bool_decide (operation = OpRead)
  then risk Medium (bs "remote file access may expose sensitive data") true
  else
    let '(path, path_has_parent_traversal) := normalize_remote_path path in
    let '(destination, destination_has_parent_traversal) :=
      match destination_path with Some d => normalize_remote_path d | None => ([], false) end in
    let sensitive := is_sensitive_path path || (negb (beq destination []) && is_sensitive_path destination) in
    if force then risk High (bs "force write bypasses optimistic concurrency protection") false
    else if sensitive || path_has_parent_traversal || destination_has_parent_traversal
    then risk High (bs "mutation targets a sensitive or ambiguously resolved remote path") false
    else if bool_decide (operation = OpChmod) && is_some_and mode is_dangerous_mode
    then risk Medium (bs "permission change grants broad remote access") true
    else risk Medium (bs "ordinary remote filesystem mutation") true.
End Sftp.
