(* ===== verification/PolicySpec.v ===== *)
(** What the execution policy guarantees: joining commands never hides the risk
    of a part, automatic execution is limited to listed commands, and system
    paths are recognised under every spelling. *)
From stdpp Require Import base list numbers strings.
From Stdlib Require Import ZArith Lia.
From S2P Require Import Prelude Text Policy.
Import Shell Command.

#[local] Arguments chars : simpl never.
#[local] Arguments starts_with : simpl never.
#[local] Arguments beq : simpl never.

(** ** The tokenizer on joined texts *)
Definition tokens_of (c : list Z) : list (list Z) := tokenize_shell (to_ascii_lowercase (normalize c)).
Definition stages_of (c : list Z) : list (list (list Z)) := command_stages (tokens_of c).

(** The text closes its quotes and does not end in a backslash. *)
Definition closed (c : list Z) : bool :=
  let s := tokenize_loop (chars (to_ascii_lowercase (normalize c))) start in
  bool_decide (quote s = None) && negb (escaped s).

Lemma tokenize_loop_cons2 c c2 cs s :
  tokenize_loop (c :: c2 :: cs) s
  = if at_operator c s && (beq c2 c && doubling_char c)
    then tokenize_loop cs (push_op (c ++ c2) (push_token s))
    else tokenize_loop (c2 :: cs) (tokenize_char c s).
Proof. reflexivity. Qed.

Lemma tokenize_loop_app a r s :
  tokenize_loop (a ++ [32] :: r) s = tokenize_loop ([32] :: r) (tokenize_loop a s).
Proof.
  revert s. induction a as [a IH] using (induction_ltof1 _ (@length (list Z))). unfold ltof in IH. intros s.
  destruct a as [| c [| c2 a]]; [done | |]; cbn [app]; rewrite !tokenize_loop_cons2.
  - destruct (beq [32] c && doubling_char c) eqn:E; [| by rewrite andb_false_r].
    apply andb_true_iff in E as [E1 E2]. apply beq_true in E1 as <-. done.
  - case_match; [apply IH | apply (IH (c2 :: a))]; cbn; lia.
Qed.

(** Tokens already read do not influence the loop. *)
Definition shift (ts : list (list Z)) (s : tokenizer) : tokenizer :=
  Tok (ts ++ tokens s) (current s) (quote s) (escaped s).

Lemma push_token_shift ts s : push_token (shift ts s) = shift ts (push_token s).
Proof. destruct s as [T cur q e]. unfold push_token, shift. cbn. case_match; [done |]. cbn. by rewrite app_assoc. Qed.

Lemma tokenize_char_shift c ts s : tokenize_char c (shift ts s) = shift ts (tokenize_char c s).
Proof.
  unfold tokenize_char. rewrite push_token_shift. change (escaped (shift ts s)) with (escaped s).
  change (quote (shift ts s)) with (quote s).
  repeat case_match; try done; unfold shift, push_op; cbn; by rewrite app_assoc.
Qed.

Lemma tokenize_loop_shift cs ts s : tokenize_loop cs (shift ts s) = shift ts (tokenize_loop cs s).
Proof.
  revert s. induction cs as [cs IH] using (induction_ltof1 _ (@length (list Z))). unfold ltof in IH. intros s.
  destruct cs as [| c [| c2 cs]]; [done | apply tokenize_char_shift |].
  rewrite !tokenize_loop_cons2. change (at_operator c (shift ts s)) with (at_operator c s).
  destruct (at_operator c s && (beq c2 c && doubling_char c)).
  - rewrite push_token_shift. rewrite <- IH by (cbn; lia). f_equal.
    unfold shift, push_op. cbn. by rewrite app_assoc.
  - rewrite tokenize_char_shift. apply IH. cbn; lia.
Qed.

Definition operators : list string := [";"; "&"; "&&"; "||"; "|"]%string.

Lemma control_operators op : control op = true -> In op (map bs operators).
Proof. apply one_of_In. Qed.

Lemma tokenize_loop_space r s : tokenize_loop ([32] :: r) s = tokenize_loop r (tokenize_char [32] s).
Proof.
  destruct r as [| c r]; [done |]. rewrite tokenize_loop_cons2.
  change (doubling_char [32]) with false. by rewrite !andb_false_r.
Qed.

Lemma push_token_current s : current (push_token s) = [].
Proof.
  unfold push_token. destruct (beq (current s) []) eqn:E; [| done]. by apply beq_true in E.
Qed.

Lemma push_token_quote s : quote (push_token s) = quote s.
Proof. unfold push_token. by case_match. Qed.
Lemma push_token_escaped s : escaped (push_token s) = escaped s.
Proof. unfold push_token. by case_match. Qed.
Lemma push_token_idle s : current s = [] -> push_token s = s.
Proof. intros H. unfold push_token. by rewrite H. Qed.

Lemma tokenize_char_space s : quote s = None -> escaped s = false -> tokenize_char [32] s = push_token s.
Proof. intros Hq He. unfold tokenize_char. rewrite Hq, He. reflexivity. Qed.

Lemma tokenize_char_operator c s :
  operator_char c = true -> quote s = None -> escaped s = false -> tokenize_char c s = push_op c (push_token s).
Proof.
  intros Hc Hq He. unfold tokenize_char. rewrite Hq, He. unfold operator_char in Hc. cbn in Hc.
  repeat (apply orb_true_iff in Hc as [Hc | Hc]; [apply beq_true in Hc as ->; reflexivity |]). done.
Qed.

(** A control operator between spaces ends the token before it. *)
Lemma tokenize_operator op r s :
  control op = true -> quote s = None -> escaped s = false ->
  tokenize_loop ([32] :: map (fun b => [b]) op ++ [32] :: r) s
  = tokenize_loop r (push_op op (push_token s)).
Proof.
  intros Hop Hq He. rewrite tokenize_loop_space, tokenize_char_space by done.
  pose proof (push_token_quote s) as Hq'. pose proof (push_token_escaped s) as He'.
  pose proof (push_token_current s) as Hc'. rewrite Hq in Hq'. rewrite He in He'.
  revert Hq' He' Hc'. generalize (push_token s) as s'. clear - Hop. intros s Hq He Hc.
  assert (Hop' : forall o, tokenize_loop ([32] :: r) (push_op o s) = tokenize_loop r (push_op o s)).
  { intros o. rewrite tokenize_loop_space, tokenize_char_space, push_token_idle by done. done. }
  apply control_operators in Hop. cbn in Hop. decompose [or] Hop; subst; try done; cbn [map app];
    rewrite tokenize_loop_cons2; unfold at_operator; rewrite Hq, He;
    first [change (beq [32] _) with false; rewrite andb_false_r, tokenize_char_operator by done | cbn [negb]];
    rewrite push_token_idle by done; apply Hop'.
Qed.

Lemma chars_ascii l : Forall (fun b => 0 <= b <= 127) l -> chars l = map (fun b => [b]) l.
Proof. induction 1 as [| b l Hb _ IH]; [done |]. rewrite chars_cons_ascii by done. cbn. by rewrite IH. Qed.


(** ** Joined commands *)
Definition joined (a op b : list Z) : list Z := a ++ 32 :: op ++ 32 :: b.

Lemma replace_crlf_space a r : replace_crlf (a ++ 32 :: r) = replace_crlf a ++ 32 :: replace_crlf r.
Proof.
  assert (H32 : forall l, replace_crlf (32 :: l) = 32 :: replace_crlf l) by (by intros [| ]).
  induction a as [a IH] using (induction_ltof1 _ (@length Z)). unfold ltof in IH.
  destruct a as [| x [| y a]]; [apply H32 | |].
  - change (replace_crlf ([x] ++ 32 :: r))
      with (if (x =? 13) && (32 =? 10) then 10 :: replace_crlf r else x :: replace_crlf (32 :: r)).
    rewrite andb_false_r, H32. done.
  - change (replace_crlf ((x :: y :: a) ++ 32 :: r))
      with (if (x =? 13) && (y =? 10) then 10 :: replace_crlf (a ++ 32 :: r)
            else x :: replace_crlf ((y :: a) ++ 32 :: r)).
    change (replace_crlf (x :: y :: a))
      with (if (x =? 13) && (y =? 10) then 10 :: replace_crlf a else x :: replace_crlf (y :: a)).
    case_match; rewrite IH by (cbn; lia); done.
Qed.

Lemma control_plain op : control op = true ->
  replace_crlf op = op /\ replace_byte 13 10 op = op /\ to_ascii_lowercase op = op
  /\ chars op = map (fun b => [b]) op /\ filter (fun c => is_whitespace c = false) (chars op) = chars op.
Proof.
  intros Hop. apply control_operators in Hop. cbn in Hop. decompose [or] Hop; subst; try done; vm_compute; auto.
Qed.

Lemma normalize_joined a op b :
  control op = true -> trim a = a -> trim b = b -> a <> [] -> b <> [] ->
  normalize (joined a op b) = joined (normalize a) op (normalize b).
Proof.
  intros Hop Ha Hb Na Nb. destruct (control_plain op Hop) as (H1 & H2 & _).
  unfold normalize, joined. rewrite trim_join, Ha, Hb by done.
  rewrite !replace_crlf_space, H1. unfold replace_byte in *. rewrite !map_app. cbn [map].
  rewrite map_app. cbn. by rewrite H2.
Qed.

Lemma trim_empty : trim [] = [].
Proof. reflexivity. Qed.

Lemma stages_of_nonempty a : stages_of a <> [] -> a <> [].
Proof. by intros H ->. Qed.

Lemma tokens_of_joined a op b :
  control op = true -> trim a = a -> trim b = b -> a <> [] -> b <> [] -> closed a = true ->
  tokens_of (joined a op b) = tokens_of a ++ op :: tokens_of b.
Proof.
  intros Hop Ha Hb Na Nb Hc. destruct (control_plain op Hop) as (_ & _ & H3 & H4 & _).
  unfold tokens_of. rewrite normalize_joined by done. unfold joined.
  unfold to_ascii_lowercase in *. rewrite !map_app. cbn [map]. rewrite map_app, H3. cbn [map].
  change (ascii_lower 32) with 32. unfold tokenize_shell.
  rewrite !chars_app_ascii, H4 by lia. rewrite tokenize_loop_app.
  unfold closed, to_ascii_lowercase in Hc. apply andb_true_iff in Hc as [Hq He].
  set (s := tokenize_loop (chars (map ascii_lower (normalize a))) start) in *.
  apply bool_decide_eq_true in Hq. apply negb_true_iff in He.
  rewrite tokenize_operator by done.
  assert (E : push_op op (push_token s) = shift (tokens (push_token s) ++ [op]) start).
  { unfold push_op, shift, start. cbn. rewrite push_token_current, app_nil_r. f_equal;
      unfold push_token; by destruct (beq (current s) []). }
  rewrite E, tokenize_loop_shift, push_token_shift. unfold shift at 1. cbn [tokens].
  by rewrite <- app_assoc.
Qed.

(** ** The verdict as a function of five facts *)
Definition bombed (c : list Z) : bool := contains fork_bomb (concat (split_whitespace (normalize c))).
Definition critical (ts : list (list Z)) : bool := existsb is_critical_stage (command_stages ts).
Definition high (ts : list (list Z)) : bool :=
  is_download_pipe_to_shell ts || has_sensitive_write_redirection ts
  || existsb is_high_risk_stage (command_stages ts).
Definition unknown (ts : list (list Z)) : bool :=
  existsb (fun st => bool_decide (classify_stage st = Unknown)) (command_stages ts).
Definition writes (ts : list (list Z)) : bool :=
  existsb redirection ts
  || existsb (fun st => bool_decide (classify_stage st = WriteStage)) (command_stages ts).

Definition verdict (bomb crit hi unk wr : bool) : RiskLevel * bool :=
  if bomb || crit then (Critical, false)
  else if hi then (High, false)
  else if unk then (Medium, false)
  else if wr then (Medium, true)
  else (Low, true).

Lemma classify_stages_spec sts w :
  classify_stages sts w
  = if existsb (fun st => bool_decide (classify_stage st = Unknown)) sts then None
    else Some (w || existsb (fun st => bool_decide (classify_stage st = WriteStage)) sts).
Proof.
  revert w. induction sts as [| st sts IH]; intros w; cbn [classify_stages existsb]; [by rewrite orb_false_r |].
  destruct (classify_stage st); rewrite ?IH; cbn; [done | | done].
  by rewrite orb_true_r.
Qed.

Lemma assess_verdict c :
  stages_of c <> [] ->
  (level (assess_command_risk c), auto_executable (assess_command_risk c))
  = verdict (bombed c) (critical (tokens_of c)) (high (tokens_of c)) (unknown (tokens_of c)) (writes (tokens_of c)).
Proof.
  intros Hst. unfold assess_command_risk. cbn zeta. unfold verdict.
  fold (tokens_of c). fold (bombed c). fold (stages_of c).
  destruct (beq (normalize c) []) eqn:E.
  { apply beq_true in E. exfalso. apply Hst. unfold stages_of, tokens_of. by rewrite E. }
  destruct (bombed c) eqn:Eb; [done |].
  destruct (tokens_of c) as [| t ts] eqn:Et.
  { exfalso. apply Hst. unfold stages_of. by rewrite Et. }
  rewrite <- Et. destruct (stages_of c) as [| st sts] eqn:Es; [done |]. rewrite <- Es. unfold stages_of.
  fold (critical (tokens_of c)). destruct (critical (tokens_of c)); [done |].
  fold (high (tokens_of c)). destruct (high (tokens_of c)); [done |].
  rewrite classify_stages_spec. fold (unknown (tokens_of c)). destruct (unknown (tokens_of c)); [done |].
  fold (writes (tokens_of c)). by destruct (writes (tokens_of c)).
Qed.

Lemma assess_facts c :
  stages_of c <> [] ->
  let v := verdict (bombed c) (critical (tokens_of c)) (high (tokens_of c)) (unknown (tokens_of c))
             (writes (tokens_of c)) in
  level (assess_command_risk c) = fst v /\ auto_executable (assess_command_risk c) = snd v.
Proof. intros H. cbn zeta. by rewrite <- assess_verdict. Qed.

(** More facts never give a lower verdict. *)
Lemma verdict_mono b1 c1 h1 u1 w1 b2 c2 h2 u2 w2 :
  (b1 = true -> b2 = true) -> (c1 = true -> c2 = true) -> (h1 = true -> h2 = true) ->
  (u1 = true -> u2 = true) -> (w1 = true -> w2 = true) ->
  (rank (fst (verdict b1 c1 h1 u1 w1)) <= rank (fst (verdict b2 c2 h2 u2 w2)))%nat
  /\ (snd (verdict b2 c2 h2 u2 w2) = true -> snd (verdict b1 c1 h1 u1 w1) = true).
Proof.
  intros H1 H2 H3 H4 H5. unfold verdict.
  destruct b1; [rewrite H1 by done; done |]. destruct b2; [cbn; repeat case_match; split; cbn; (lia || done) |].
  destruct c1; [rewrite H2 by done; done |]. destruct c2; [cbn; repeat case_match; split; cbn; (lia || done) |].
  destruct h1; [rewrite H3 by done; done |]. destruct h2; [cbn; repeat case_match; split; cbn; (lia || done) |].
  destruct u1; [rewrite H4 by done; done |]. destruct u2; [cbn; repeat case_match; split; cbn; (lia || done) |].
  destruct w1; [rewrite H5 by done; done |]. destruct w2; split; cbn; (lia || done).
Qed.

(** ** Each fact survives joining *)
Lemma stages_loop_app ts op us cur :
  control op = true -> stages_loop (ts ++ op :: us) cur = stages_loop ts cur ++ stages_loop us [].
Proof.
  intros Hop. revert cur. induction ts as [| t ts IH]; intros cur; cbn [app stages_loop].
  - rewrite Hop. by destruct cur.
  - repeat case_match; rewrite ?IH; done.
Qed.

Lemma command_stages_app ts op us :
  control op = true -> command_stages (ts ++ op :: us) = command_stages ts ++ command_stages us.
Proof. intros. by apply stages_loop_app. Qed.

Lemma take_while_stop {A} (f : A -> bool) a x b :
  f x = false -> take_while f (a ++ x :: b) = take_while f a.
Proof.
  intros Hx. induction a as [| y a IH]; cbn; [by rewrite Hx |]. by rewrite IH.
Qed.

Lemma pipe_at_left ts op us i :
  control op = true -> (i < length ts)%nat -> pipe_at (ts ++ op :: us) i = pipe_at ts i.
Proof.
  intros Hop Hi. unfold pipe_at. rewrite lookup_app_l, take_app_le, drop_app_le by lia.
  unfold right_part. rewrite (take_while_stop _ (drop (i + 1) ts) op us) by (by rewrite Hop). done.
Qed.

Lemma pipe_at_right ts op us i :
  control op = true -> pipe_at (ts ++ op :: us) (length ts + S i) = pipe_at us i.
Proof.
  intros Hop. unfold pipe_at. rewrite lookup_app_r by lia.
  replace (length ts + S i - length ts)%nat with (S i) by lia. cbn [lookup list_lookup].
  replace (length ts + S i + 1)%nat with (length ts + S (i + 1))%nat by lia.
  rewrite take_app_add, drop_app_add. cbn [take drop firstn skipn].
  unfold left_part. rewrite rev_app_distr. cbn [rev]. rewrite <- app_assoc. cbn [app].
  rewrite take_while_stop by (by rewrite Hop). done.
Qed.

Lemma download_pipe_app ts op us :
  control op = true -> is_download_pipe_to_shell ts || is_download_pipe_to_shell us = true ->
  is_download_pipe_to_shell (ts ++ op :: us) = true.
Proof.
  intros Hop H. unfold is_download_pipe_to_shell in *. apply existsb_exists.
  apply orb_true_iff in H as [H | H]; apply existsb_exists in H as (i & Hi & Hp); apply in_seq in Hi.
  - exists i. rewrite pipe_at_left by (done || lia). split; [| done]. apply in_seq. rewrite length_app. cbn. lia.
  - exists (length ts + S i)%nat. rewrite pipe_at_right by done. split; [| done].
    apply in_seq. rewrite length_app. cbn. lia.
Qed.

Lemma redirection_app ts us :
  has_sensitive_write_redirection ts || has_sensitive_write_redirection us = true ->
  has_sensitive_write_redirection (ts ++ us) = true.
Proof.
  induction ts as [| t ts IH]; [done |]. cbn [app has_sensitive_write_redirection]. intros H.
  rewrite !orb_true_iff in H. apply orb_true_iff. destruct H as [[H | H] | H].
  - left. by destruct ts.
  - right. apply IH. by rewrite H.
  - right. apply IH. by rewrite H, orb_true_r.
Qed.

Lemma facts_app ts op us :
  control op = true ->
  critical (ts ++ op :: us) = critical ts || critical us
  /\ (high ts || high us = true -> high (ts ++ op :: us) = true)
  /\ unknown (ts ++ op :: us) = unknown ts || unknown us
  /\ (writes ts || writes us = true -> writes (ts ++ op :: us) = true).
Proof.
  intros Hop. unfold critical, high, unknown, writes. rewrite command_stages_app, !existsb_app by done.
  split_and!; try done.
  - intros H. rewrite !orb_true_iff in H. rewrite !orb_true_iff.
    assert (Hd := download_pipe_app ts op us Hop). rewrite orb_true_iff in Hd.
    assert (Hr : has_sensitive_write_redirection us = true -> has_sensitive_write_redirection (op :: us) = true)
      by (cbn; intros ->; by rewrite orb_true_r).
    assert (Hs := redirection_app ts (op :: us)). rewrite orb_true_iff in Hs. tauto.
  - intros H. rewrite !orb_true_iff in *. cbn [existsb]. rewrite orb_true_iff. tauto.
Qed.

(** Removing white space commutes with joining. *)
Lemma concat_words cs cur :
  concat (words cs cur) = cur ++ concat (filter (fun c => is_whitespace c = false) cs).
Proof.
  revert cur. induction cs as [| c cs IH]; intros cur; cbn [words].
  - destruct (beq cur []) eqn:E; [apply beq_true in E as -> |]; cbn; by rewrite ?app_nil_r.
  - rewrite filter_cons. destruct (is_whitespace c) eqn:W; cbn.
    + destruct (beq cur []) eqn:E; [apply beq_true in E as -> |]; cbn; by rewrite IH.
    + by rewrite IH, <- app_assoc.
Qed.

Lemma filter_space cs :
  filter (fun c => is_whitespace c = false) ([32] :: cs) = filter (fun c => is_whitespace c = false) cs.
Proof. reflexivity. Qed.

Lemma bombed_joined a op b :
  control op = true -> trim a = a -> trim b = b -> a <> [] -> b <> [] ->
  bombed a || bombed b = true -> bombed (joined a op b) = true.
Proof.
  intros Hop Ha Hb Na Nb H. destruct (control_plain op Hop) as (_ & _ & _ & _ & Hf).
  unfold bombed in *. rewrite normalize_joined by done. unfold joined, split_whitespace in *.
  rewrite !concat_words in *. cbn [app] in *. rewrite !chars_app_ascii by lia.
  rewrite filter_app, filter_space, filter_app, Hf, filter_space, !concat_app.
  apply orb_true_iff in H as [H | H].
  - by apply (contains_app _ _ []).
  - rewrite app_assoc. rewrite <- (app_nil_r (concat (filter _ (chars (normalize b))))). by apply contains_app.
Qed.

(** ** Joining never hides risk *)

(** C19: two commands joined by any control operator are at least as risky as
    each of them, and are run without approval only if both would be.  The first
    closes its quotes and does not end in a backslash: an open quote takes what
    follows into its argument, for the tokenizer as for a shell.  Both are
    without surrounding blanks and hold at least one command. *)
Theorem joined_commands_keep_risk a op b :
  control op = true -> trim a = a -> trim b = b -> closed a = true ->
  stages_of a <> [] -> stages_of b <> [] ->
  let whole := assess_command_risk (joined a op b) in
  (rank (level (assess_command_risk a)) <= rank (level whole))%nat
  /\ (rank (level (assess_command_risk b)) <= rank (level whole))%nat
  /\ (auto_executable whole = true ->
      auto_executable (assess_command_risk a) = true /\ auto_executable (assess_command_risk b) = true).
Proof.
  intros Hop Ha Hb Hc Sa Sb whole. pose proof (stages_of_nonempty a Sa) as Na. pose proof (stages_of_nonempty b Sb) as Nb.
  pose proof (tokens_of_joined a op b Hop Ha Hb Na Nb Hc) as Ht.
  assert (Sw : stages_of (joined a op b) <> []).
  { unfold stages_of. rewrite Ht, command_stages_app by done. fold (stages_of a). by destruct (stages_of a). }
  destruct (facts_app (tokens_of a) op (tokens_of b) Hop) as (Fc & Fh & Fu & Fw).
  pose proof (bombed_joined a op b Hop Ha Hb Na Nb) as Fb.
  subst whole. destruct (assess_facts a Sa) as [-> ->]. destruct (assess_facts b Sb) as [-> ->].
  destruct (assess_facts _ Sw) as [-> ->]. rewrite Ht, Fc, Fu.
  rewrite orb_true_iff in Fb, Fh, Fw.
  edestruct verdict_mono as [L1 A1]; [.. | edestruct verdict_mono as [L2 A2];
    [.. | split; [exact L1 | split; [exact L2 | split; [apply A1 | apply A2]; done]]]];
    rewrite ?orb_true_iff; auto.
Qed.

Lemma joined_commands_keep_risk_witness :
  (rank (level (assess_command_risk (bs "rm -rf /")))
   <= rank (level (assess_command_risk (joined (bs "echo 'a b'") (bs "&&") (bs "rm -rf /")))))%nat.
Proof.
  refine (proj1 (proj2 (joined_commands_keep_risk (bs "echo 'a b'") (bs "&&") (bs "rm -rf /") _ _ _ _ _ _)));
    by vm_compute.
Defined.

(** ** Automatic execution *)

(** What automatic execution is meant for: every stage is a listed command, none
    is critical or of high risk, nothing is redirected to a system file. *)
Definition listed (ts : list (list Z)) : Prop :=
  Forall (fun st => classify_stage st <> Unknown /\ is_critical_stage st = false /\ is_high_risk_stage st = false)
    (command_stages ts)
  /\ is_download_pipe_to_shell ts = false /\ has_sensitive_write_redirection ts = false.

Lemma existsb_false {A} (f : A -> bool) l : existsb f l = false <-> Forall (fun x => f x = false) l.
Proof.
  induction l as [| x l IH]; cbn; [by split |]. rewrite orb_false_iff, IH, Forall_cons. done.
Qed.

Lemma facts_listed ts : critical ts = false -> high ts = false -> unknown ts = false -> listed ts.
Proof.
  unfold critical, high, unknown. intros Hc Hh Hu.
  apply orb_false_iff in Hh as [Hh Hs]. apply orb_false_iff in Hh as [Hd Hr].
  rewrite existsb_false in Hc, Hs, Hu. split; [| done].
  rewrite Forall_forall in *. intros st Hst.
  specialize (Hc st Hst). specialize (Hs st Hst). specialize (Hu st Hst). cbn in Hu.
  split; [| done]. by apply bool_decide_eq_false in Hu.
Qed.

Lemma assess_no_stages c : stages_of c = [] -> auto_executable (assess_command_risk c) = false.
Proof.
  intros H. unfold assess_command_risk. cbn zeta. fold (tokens_of c). fold (stages_of c). rewrite H.
  by repeat case_match.
Qed.

(** A command that the agent runs without asking, under the automatic
    permission mode or the smart mode, consists of listed commands only; it is
    classified below high risk and, in smart mode, not above the configured
    ceiling; a command classified low changes nothing: every stage is on the
    read-only list and nothing is redirected. *)
Theorem unattended_commands_are_listed c mode ceiling :
  mode <> AutoExecute ->
  decide_policy Auto Write (Some (assess_command_risk c)) = Allow
  \/ decide_native_policy mode ceiling Write (Some (assess_command_risk c)) = Allow ->
  listed (tokens_of c) /\ (rank (level (assess_command_risk c)) < rank High)%nat
  /\ (decide_native_policy mode ceiling Write (Some (assess_command_risk c)) = Allow ->
      mode = Smart /\ (rank (level (assess_command_risk c)) <= rank ceiling)%nat)
  /\ (level (assess_command_risk c) = Low ->
      Forall (fun st => classify_stage st = ReadOnly) (stages_of c)
      /\ Forall (fun t => redirection t = false) (tokens_of c)).
Proof.
  intros Hm Hd. set (r := assess_command_risk c) in *.
  assert (Hn : decide_native_policy mode ceiling Write (Some r) = Allow ->
               mode = Smart /\ (rank (level r) <= rank ceiling)%nat /\ decide_policy Auto Write (Some r) = Allow).
  { destruct mode; [done | | done]. unfold decide_native_policy, is_some_and at 1.
    destruct (Nat.ltb_spec (rank ceiling) (rank (level r)));
      destruct (decide_policy Auto Write (Some r)) eqn:E; by cbn. }
  assert (Ha : decide_policy Auto Write (Some r) = Allow) by (destruct Hd as [| Hd]; [done | by apply Hn in Hd as (_ & _ & ?)]).
  unfold decide_policy, is_some_and in Ha. destruct (auto_executable r) eqn:Er; [| done]. cbn [andb] in Ha.
  destruct (Nat.ltb_spec (rank (level r)) (rank High)) as [Hlt |]; [| done].
  destruct (stages_of c) as [| st sts] eqn:Es; [by pose proof (assess_no_stages c Es); fold r in H; congruence |].
  destruct (assess_facts c ltac:(by rewrite Es)) as [Hl Hau]. fold r in Hl, Hau. rewrite Er in Hau.
  unfold verdict in Hl, Hau. destruct (bombed c || critical (tokens_of c)) eqn:E1; [done |].
  apply orb_false_iff in E1 as [_ E1]. destruct (high (tokens_of c)) eqn:E2; [done |].
  destruct (unknown (tokens_of c)) eqn:E3; [done |].
  pose proof (facts_listed _ E1 E2 E3) as Hlist. split_and!; [done | done | by intros ?%Hn; tauto |].
  rewrite Hl. destruct (writes (tokens_of c)) eqn:E4; [done |]. intros _. rewrite <- Es.
  unfold writes in E4. apply orb_false_iff in E4 as [E4 E5]. rewrite existsb_false in E4. rewrite existsb_false in E5. split; [| done].
  unfold stages_of. apply Forall_forall. intros st' Hst'. rewrite Forall_forall in E5.
  specialize (E5 st' Hst'). cbn in E5. apply bool_decide_eq_false in E5.
  destruct Hlist as [Hlist _]. rewrite Forall_forall in Hlist. destruct (Hlist st' Hst') as [Hst _].
  destruct (classify_stage st'); congruence.
Qed.

Lemma unattended_commands_are_listed_witness : listed (tokens_of (bs "ls -la | grep src")).
Proof.
  refine (proj1 (unattended_commands_are_listed (bs "ls -la | grep src") Smart Low _ _)); [done |].
  right. by vm_compute.
Defined.

(** ** Command substitution *)

(** A byte that the tokenizer treats as part of a word, or a space: printable
    ASCII but no quote, backslash, semicolon, pipe, ampersand or redirection. *)
Definition special : list Z := [59; 124; 38; 62; 39; 92; 34].
Definition plain_byte (b : Z) : Prop := 32 <= b <= 126 /\ ~ In b special.

Lemma plain_lower b : plain_byte b -> plain_byte (ascii_lower b).
Proof.
  unfold plain_byte, ascii_lower, special. cbn [In].
  destruct ((65 <=? b) && (b <=? 90)) eqn:E; [| done]. intros. lia.
Qed.

Lemma tokenize_plain_char b T cur :
  plain_byte b ->
  tokenize_char [b] (Tok T cur None false)
  = if b =? 32 then push_token (Tok T cur None false) else Tok T (cur ++ [b]) None false.
Proof.
  intros [H Hs]. unfold special in Hs. cbn [In] in Hs. unfold tokenize_char, quote_char, operator_char.
  cbn [escaped quote tokens current existsb]. unfold beq.
  rewrite !(bool_decide_eq_false_2 ([b] = _)) by (injection; lia).
  cbn. destruct (Z.eqb_spec b 32) as [-> |]; [done |].
  replace (((9 <=? b) && (b <=? 13)) || false) with false by lia. done.
Qed.

Lemma at_operator_plain b s : plain_byte b -> at_operator [b] s = false.
Proof.
  intros [H Hs]. unfold special in Hs. cbn [In] in Hs. unfold at_operator, operator_char. cbn [existsb]. unfold beq.
  rewrite !(bool_decide_eq_false_2 ([b] = _)) by (injection; lia). by rewrite andb_false_r.
Qed.

(** Plain text leaves the tokenizer outside quotes with tokens of plain bytes. *)
Lemma tokenize_plain w T cur :
  Forall plain_byte w -> Forall plain_byte cur ->
  exists Us cur', tokenize_loop (map (fun b => [b]) w) (Tok T cur None false) = Tok (T ++ Us) cur' None false
    /\ Forall (Forall plain_byte) Us /\ Forall plain_byte cur'.
Proof.
  revert T cur. induction w as [| b w IH]; intros T cur Hw Hc.
  { exists [], cur. cbn. by rewrite app_nil_r. }
  apply Forall_cons in Hw as [Hb Hw].
  assert (E : tokenize_loop (map (fun b => [b]) (b :: w)) (Tok T cur None false)
              = tokenize_loop (map (fun b => [b]) w) (tokenize_char [b] (Tok T cur None false))).
  { destruct w as [| c w]; [done |]. cbn [map]. rewrite tokenize_loop_cons2, at_operator_plain by done. done. }
  rewrite E, tokenize_plain_char by done. destruct (Z.eqb_spec b 32) as [-> | Hn].
  - unfold push_token. cbn [current tokens quote escaped].
    destruct (beq cur []) eqn:Ec; [apply IH; done |].
    destruct (IH (T ++ [cur]) []) as (Us & cur' & -> & HU & Hc'); [done | done |].
    exists (cur :: Us), cur'. rewrite <- app_assoc. split; [done |]. split; [by constructor | done].
  - apply IH; [done |]. apply Forall_app. by split; [| constructor].
Qed.

Lemma plain_not_op t : Forall plain_byte t -> control t = false /\ redirection t = false.
Proof.
  intros Ht. split; apply not_true_iff_false; intros H; apply one_of_In in H; cbn in H;
    decompose [or] H; subst; try done; apply Forall_inv in Ht as [_ Ht]; apply Ht; unfold special; cbn; lia.
Qed.

Lemma stages_plain ts cur :
  Forall (Forall plain_byte) ts -> cur <> [] -> stages_loop ts cur = [cur ++ ts].
Proof.
  intros Hts. revert cur. induction Hts as [| t ts Ht _ IH]; intros cur Hc; cbn [stages_loop].
  { by destruct cur; rewrite ?app_nil_r. }
  destruct (plain_not_op t Ht) as [-> ->]. rewrite IH by (by destruct cur). by rewrite <- app_assoc.
Qed.

Lemma plain_no_bomb l : ~ In 124 l -> contains fork_bomb l = false.
Proof.
  intros H. apply not_true_iff_false. rewrite contains_spec. intros (x & y & ->). apply H.
  apply in_app_iff. right. apply in_app_iff. left. unfold fork_bomb. cbn. lia.
Qed.

Lemma plain_no_pipe w : Forall plain_byte w -> ~ In 124 w.
Proof. intros H Hin. rewrite List.Forall_forall in H. destruct (H _ Hin) as [_ Hs]. apply Hs. unfold special. cbn. lia. Qed.

Lemma plain_facts args :
  Forall (Forall plain_byte) args ->
  let ts := bs "ls" :: args in
  command_stages ts = [ts] /\ critical ts = false /\ high ts = false /\ unknown ts = false /\ writes ts = false.
Proof.
  intros Ha ts. assert (Hts : Forall (Forall plain_byte) ts).
  { constructor; [| done]. repeat (constructor; [split; [vm_compute; done | unfold special; cbn; lia] |]). constructor. }
  assert (Hst : command_stages ts = [ts]).
  { unfold command_stages, ts. change (stages_loop (bs "ls" :: args) []) with (stages_loop args [bs "ls"]).
    by apply stages_plain. }
  assert (Hx : executable_and_args ts = Some (bs "ls", args)) by reflexivity.
  assert (Hb : contains fork_bomb (concat ts) = false).
  { apply plain_no_bomb, plain_no_pipe, Forall_concat, Hts. }
  split_and!; [done | ..]; unfold critical, high, unknown, writes; rewrite ?Hst; cbn [existsb].
  - unfold is_critical_stage. rewrite Hx, Hb. by vm_compute.
  - assert (Hh : is_high_risk_stage ts = false) by (by vm_compute). rewrite Hh. cbn [orb]. rewrite orb_false_r.
    apply orb_false_iff. split.
    + unfold is_download_pipe_to_shell. apply existsb_false, List.Forall_forall. intros i _. unfold pipe_at.
      destruct (ts !! i) as [t |] eqn:E; [| done]. cbn. destruct (beq t [_]) eqn:Eb; [| done].
      apply beq_true in Eb as ->. apply (Forall_lookup_1 _ _ _ _ Hts) in E. apply plain_no_pipe in E.
      exfalso. apply E. by left.
    + clear - Hts. induction Hts as [| t l Ht _ IH]; [done |]. cbn [has_sensitive_write_redirection].
      rewrite IH, orb_false_r. destruct (plain_not_op t Ht) as [_ ->]. by destruct l.
  - unfold classify_stage. by rewrite Hx.
  - assert (Hc : classify_stage ts = ReadOnly) by reflexivity. rewrite Hc.
    apply orb_false_iff. split; [| done]. apply existsb_false.
    eapply Forall_impl; [exact Hts |]. intros t Ht. by apply plain_not_op.
Qed.

Lemma plain_ascii w : Forall plain_byte w -> Forall (fun b => 0 <= b <= 127) w.
Proof. intros H. eapply Forall_impl; [exact H |]. intros b [Hb _]. lia. Qed.

Lemma normalize_plain w c d :
  Forall plain_byte (c :: w ++ [d]) -> c <> 32 -> d <> 32 -> normalize (c :: w ++ [d]) = c :: w ++ [d].
Proof.
  intros H Hc Hd. set (l := c :: w ++ [d]) in *.
  assert (H13 : ~ In 13 l).
  { intros Hin. rewrite List.Forall_forall in H. destruct (H _ Hin). lia. }
  assert (Hsp : forall b, In b l -> b <> 32 -> is_whitespace [b] = false).
  { intros b Hb Hb'. apply whitespace_word. unfold word_byte. rewrite List.Forall_forall in H.
    destruct (H _ Hb). lia. }
  unfold normalize. rewrite trim_keep.
  - by rewrite replace_crlf_id, replace_byte_id.
  - rewrite chars_ascii by (by apply plain_ascii). exists [c], (map (fun b => [b]) (w ++ [d])).
    split; [done |]. apply Hsp; [by left | done].
  - rewrite chars_ascii, <- map_rev by (by apply plain_ascii). unfold l. cbn [rev]. rewrite rev_app_distr.
    exists [d], (map (fun b => [b]) (rev w ++ [c])). split; [done |]. apply Hsp; [| done].
    unfold l. right. apply in_app_iff. right. by left.
Qed.

Lemma In_filter_chars b l :
  In b (concat (filter (fun c => is_whitespace c = false) (chars l))) -> In b l.
Proof.
  rewrite <- (concat_chars l) at 2. rewrite !in_concat. intros (x & Hx & Hb). exists x. split; [| done].
  apply list_elem_of_In. apply list_elem_of_In, list_elem_of_filter in Hx. tauto.
Qed.

Lemma substitution_tokens c v :
  normalize c = c -> c = 108 :: 115 :: 32 :: v -> Forall plain_byte v ->
  exists args, tokens_of c = bs "ls" :: args /\ Forall (Forall plain_byte) args.
Proof.
  intros Hn -> Hv. unfold tokens_of. rewrite Hn. unfold tokenize_shell, to_ascii_lowercase. cbn [map].
  change (ascii_lower 108) with 108. change (ascii_lower 115) with 115. change (ascii_lower 32) with 32.
  assert (Hl : Forall plain_byte (map ascii_lower v)).
  { apply Forall_map. eapply Forall_impl; [exact Hv |]. intros. by apply plain_lower. }
  rewrite !chars_cons_ascii by lia. change ([108] :: [115] :: ?r) with ([[108]; [115]] ++ r).
  rewrite tokenize_loop_app, tokenize_loop_space, chars_ascii by (by apply plain_ascii).
  destruct (tokenize_plain (map ascii_lower v) [bs "ls"] [] Hl ltac:(constructor)) as (Us & cur & E & HU & Hc).
  change (tokenize_char [32] (tokenize_loop [[108]; [115]] start)) with (Tok [bs "ls"] [] None false).
  rewrite E. unfold push_token. cbn [current tokens]. destruct (beq cur []).
  - by exists Us.
  - exists (Us ++ [cur]). split; [done |]. apply Forall_app. by split; [| constructor].
Qed.

(** C40: the classifier does not look inside command substitution: whatever plain
    text [w] is, the command "ls $(w)", in which the shell runs [w], is
    classified as a read-only diagnostic and the automatic mode runs it without
    approval. *)
Theorem substitution_escapes_policy w :
  Forall plain_byte w ->
  let c := bs "ls $(" ++ w ++ bs ")" in
  level (assess_command_risk c) = Low
  /\ decide_policy Auto Write (Some (assess_command_risk c)) = Allow.
Proof.
  intros Hw c. set (v := bs "s $(" ++ w).
  assert (Hp : Forall plain_byte (108 :: v ++ [41])).
  { unfold v. rewrite <- app_assoc. repeat (constructor; [split; [vm_compute; done | unfold special; cbn; lia] |]).
    apply Forall_app. split; [done |]. repeat constructor; try (vm_compute; done). unfold special. cbn. lia. }
  assert (Hn : normalize c = c).
  { change c with (108 :: (bs "s $(" ++ w ++ [41])). rewrite (app_assoc (bs "s $(")). by apply normalize_plain. }
  assert (Ht : exists args, tokens_of c = bs "ls" :: args /\ Forall (Forall plain_byte) args).
  { apply (substitution_tokens c (bs "$(" ++ w ++ [41]) Hn); [done |].
    unfold v in Hp. rewrite <- app_assoc in Hp. by do 3 apply Forall_inv_tail in Hp. }
  destruct Ht as (args & Ht & Ha). destruct (plain_facts args Ha) as (Hs & F1 & F2 & F3 & F4).
  assert (Hst : stages_of c <> []) by (unfold stages_of; by rewrite Ht, Hs).
  assert (Hb : bombed c = false).
  { unfold bombed, split_whitespace. rewrite Hn, concat_words. apply plain_no_bomb. cbn [app]. intros Hin.
    apply In_filter_chars in Hin. apply plain_no_pipe in Hp. apply Hp. unfold v. by rewrite <- app_assoc. }
  clearbody c. destruct (assess_facts c Hst) as [HL HA]. rewrite Ht, F1, F2, F3, F4, Hb in HL, HA. cbn in HL, HA.
  split; [done |]. unfold decide_policy, is_some_and. by rewrite HL, HA.
Qed.

Lemma substitution_escapes_policy_witness :
  decide_policy Auto Write (Some (assess_command_risk (bs "ls $(rm -rf /home)"))) = Allow.
Proof.
  refine (proj2 (substitution_escapes_policy (bs "rm -rf /home") _)).
  repeat (constructor; [split; [vm_compute; by split | unfold special; cbn; lia] |]). constructor.
Defined.

(** ** Remote paths *)
Import Sftp.

(** The components of a path as a file system resolves them: backslashes count
    as separators, empty components and dots are dropped. *)
Definition unified (p : list Z) : list Z := replace_byte 92 47 (trim p).
Definition significant (c : list Z) : bool := negb (beq c [] || beq c (bs ".")).
Definition lexical (p : list Z) : list (list Z) := List.filter significant (split_on 47 (unified p)).

Definition root_parts : list (list (list Z)) :=
  [[bs "etc"]; [bs "boot"]; [bs "bin"]; [bs "sbin"]; [bs "usr"]; [bs "lib"]; [bs "lib64"]; [bs "var"; bs "lib"];
   [bs "root"]].

(** An absolute path into a system directory, or one that climbs. *)
Definition protected (p : list Z) : Prop :=
  In (bs "..") (lexical p)
  \/ (starts_with [47] (unified p) = true
      /\ exists root rest, In root root_parts /\ lexical p = root ++ rest).

Lemma resolve_climbs ps parts b :
  In (bs "..") (List.filter significant ps) \/ b = true -> snd (resolve_parts ps parts b) = true.
Proof.
  revert parts b. induction ps as [| q ps IH]; intros parts b H; [by destruct H |].
  cbn [resolve_parts List.filter] in *. unfold significant at 1 in H.
  destruct (beq q [] || beq q (bs ".")) eqn:E1; cbn [negb] in H; [by apply IH |].
  destruct (beq q (bs "..")) eqn:E2; [apply IH; by right |]. apply IH.
  destruct H as [[-> | H] | H]; [by rewrite beq_refl in E2 | by left | by right].
Qed.

Lemma resolve_straight ps parts b :
  ~ In (bs "..") (List.filter significant ps) ->
  fst (resolve_parts ps parts b) = parts ++ List.filter significant ps.
Proof.
  revert parts. induction ps as [| q ps IH]; intros parts H; [by cbn; rewrite app_nil_r |].
  cbn [resolve_parts List.filter] in *. unfold significant at 1. unfold significant at 1 in H.
  destruct (beq q [] || beq q (bs ".")) eqn:E1; cbn [negb] in *; [by apply IH |].
  destruct (beq q (bs "..")) eqn:E2; [apply beq_true in E2 as ->; cbn in H; tauto |].
  rewrite IH by (cbn in H; tauto). by rewrite <- app_assoc.
Qed.

Lemma join_with_app sep a b :
  a <> [] -> join_with sep (a ++ b) = join_with sep a ++ match b with [] => [] | _ => sep ++ join_with sep b end.
Proof.
  intros Ha. induction a as [| x a IH]; [done |]. destruct a as [| y a].
  - destruct b; cbn; by rewrite ?app_nil_r.
  - change (join_with sep ((x :: y :: a) ++ b)) with (x ++ sep ++ join_with sep ((y :: a) ++ b)).
    rewrite IH by done. change (join_with sep (x :: y :: a)) with (x ++ sep ++ join_with sep (y :: a)).
    by rewrite <- !app_assoc.
Qed.

Lemma split_on_no_sep c l : Forall (fun p => ~ In c p) (split_on c l).
Proof.
  induction l as [| b l IH]; cbn; [repeat constructor; auto |].
  destruct (Z.eqb_spec b c) as [-> | Hn]; [constructor; [auto |]; done |].
  destruct (split_on c l) as [| p ps]; [constructor; [| done]; cbn; intuition |].
  apply Forall_cons in IH as [Hp Hps]. constructor; [| done]. cbn. intuition.
Qed.

Lemma join_with_last ps q c : join_with [47] (ps ++ [q ++ [c]]) = (match ps with [] => [] | _ => join_with [47] ps ++ [47] end ++ q) ++ [c].
Proof.
  destruct ps as [| x ps]; [done |]. rewrite join_with_app by done. cbn [join_with].
  by rewrite <- !app_assoc.
Qed.

Lemma join_keeps_end ps :
  ps <> [] -> Forall (fun p => p <> [] /\ ~ In 47 p) ps ->
  trim_end_matches 47 (47 :: join_with [47] ps) = 47 :: join_with [47] ps.
Proof.
  intros Hne Hf. destruct (exists_last Hne) as (ps' & q & ->).
  apply Forall_app in Hf as [_ Hf]. apply Forall_cons in Hf as [[Hq H47] _].
  destruct (exists_last Hq) as (q' & c & ->).
  rewrite join_with_last, app_comm_cons. apply trim_end_matches_last. intros ->. apply H47.
  apply in_app_iff. right. by left.
Qed.

Lemma lexical_components p : Forall (fun q => q <> [] /\ ~ In 47 q) (lexical p).
Proof.
  apply List.Forall_forall. intros q Hq. apply filter_In in Hq as [Hq Hs]. unfold significant in Hs.
  apply negb_true_iff, orb_false_iff in Hs as [Hs _]. split; [intros ->; by rewrite beq_refl in Hs |].
  pose proof (split_on_no_sep 47 (unified p)) as H. rewrite List.Forall_forall in H. by apply H.
Qed.

Lemma normalize_absolute p :
  starts_with [47] (unified p) = true -> ~ In (bs "..") (lexical p) -> lexical p <> [] ->
  fst (normalize_remote_path p) = 47 :: join_with [47] (lexical p).
Proof.
  intros Ha Hn Hne. unfold normalize_remote_path. fold (unified p). rewrite Ha.
  pose proof (resolve_straight (split_on 47 (unified p)) [] false Hn) as Hr. fold (lexical p) in Hr.
  destruct (resolve_parts (split_on 47 (unified p)) [] false) as [parts b]. cbn [fst app] in Hr. subst parts.
  destruct (lexical p) as [| q ps] eqn:E; [done |]. rewrite <- E in *. clear E.
  pose proof (lexical_components p) as Hc.
  assert (Hj : beq (join_with [47] (lexical p)) [] = false).
  { apply not_true_iff_false. intros H%beq_true. destruct (lexical p) as [| x l]; [done |].
    apply Forall_cons in Hc as [[Hx _] _]. destruct x; [done |]. destruct l; done. }
  rewrite Hj. cbn [andb fst].
  assert (H47 : beq (47 :: join_with [47] (lexical p)) [47] = false).
  { apply not_true_iff_false. intros H%beq_true. injection H as H. rewrite H in Hj. done. }
  rewrite H47. by apply join_keeps_end.
Qed.

Lemma root_strings root :
  In root root_parts -> root <> [] /\ exists rs, In rs SYSTEM_ROOTS /\ 47 :: join_with [47] root = bs rs.
Proof.
  intros H. unfold root_parts in H. cbn [In] in H. split; [by decompose [or] H; subst |].
  destruct H as [<- | [<- | [<- | [<- | [<- | [<- | [<- | [<- | [<- | []]]]]]]]]];
    [exists "/etc"%string | exists "/boot"%string | exists "/bin"%string | exists "/sbin"%string
    | exists "/usr"%string | exists "/lib"%string | exists "/lib64"%string | exists "/var/lib"%string
    | exists "/root"%string]; (split; [cbn; tauto | by vm_compute]).
Qed.

Lemma protected_sensitive p :
  protected p -> is_sensitive_path (fst (normalize_remote_path p)) || snd (normalize_remote_path p) = true.
Proof.
  intros H. apply orb_true_iff. destruct (in_dec (fun a b : list Z => decide (a = b)) (bs "..") (lexical p)) as [Hc | Hc].
  { right. unfold normalize_remote_path. fold (unified p).
    pose proof (resolve_climbs (split_on 47 (unified p)) [] false (or_introl Hc)) as Hr.
    destruct (resolve_parts (split_on 47 (unified p)) [] false) as [parts b]. by cbn in *. }
  left. destruct H as [| (Ha & root & rest & Hin & E)]; [done |].
  destruct (root_strings root Hin) as (Hne & rs & Hrs & Ers).
  rewrite normalize_absolute by (done || by rewrite E; destruct root). rewrite E, join_with_app, app_comm_cons, Ers by done.
  unfold is_sensitive_path.
  assert (Hx : existsb (fun r => beq (bs rs ++ match rest with [] => [] | _ => [47] ++ join_with [47] rest end) (bs r)
     || starts_with (bs r ++ [47]) (bs rs ++ match rest with [] => [] | _ => [47] ++ join_with [47] rest end)) SYSTEM_ROOTS = true).
  { apply existsb_exists. exists rs. split; [done |]. destruct rest as [| q rest].
    - rewrite app_nil_r, beq_refl. done.
    - apply orb_true_iff. right. rewrite app_assoc. apply starts_with_app. }
  rewrite Hx, orb_true_r. done.
Qed.

(** No spelling of a remote path lets a change of a system directory run
    unattended: an operation that writes to, renames, or changes the mode of an
    absolute path whose components start with a system root (or of any path
    that climbs), directly or as the destination, whatever separators, empty
    components or dots are inserted, is high risk, and the automatic mode asks. *)
Theorem sftp_system_paths_need_approval op p dest force mode access :
  op <> OpRead -> access = Write \/ access = DestructiveWrite ->
  protected p \/ (exists d, dest = Some d /\ protected d) ->
  level (assess_sftp_risk op p dest force mode) = High
  /\ decide_policy Auto access (Some (assess_sftp_risk op p dest force mode)) = RequireApproval.
Proof.
  intros Hop Hacc Hp.
  assert (H : level (assess_sftp_risk op p dest force mode) = High
              /\ auto_executable (assess_sftp_risk op p dest force mode) = false).
  { unfold assess_sftp_risk. case_bool_decide; [done |]. case_bool_decide; [done |].
    pose proof (fun q => protected_sensitive q) as HS.
    destruct (normalize_remote_path p) as [q1 b1] eqn:E1.
    destruct (match dest with Some d => normalize_remote_path d | None => ([], false) end) as [q2 b2] eqn:E2.
    destruct force; [done |].
    assert (Hs : is_sensitive_path q1 || (negb (beq q2 []) && is_sensitive_path q2) || b1 || b2 = true); [| by rewrite Hs].
    destruct Hp as [Hp | (d & -> & Hp)]; apply HS in Hp.
    - rewrite E1 in Hp. cbn in Hp. rewrite !orb_true_iff in *. tauto.
    - rewrite E2 in Hp. cbn [fst snd] in Hp. destruct (beq q2 []) eqn:Eq; [| cbn [negb andb]; rewrite !orb_true_iff in *; tauto].
      apply beq_true in Eq as ->. change (is_sensitive_path []) with false in Hp. rewrite !orb_true_iff in *. tauto. }
  destruct H as [-> H]. split; [done |]. unfold decide_policy, is_some_and. rewrite H. by destruct Hacc as [-> | ->].
Qed.

Lemma sftp_system_paths_need_approval_witness :
  level (assess_sftp_risk OpRename (bs "/home/a") (Some (bs "//./etc\/cron.d")) false None) = High.
Proof.
  refine (proj1 (sftp_system_paths_need_approval OpRename (bs "/home/a") (Some (bs "//./etc\/cron.d")) false None
                   Write _ _ _)); [done | by left |].
  right. eexists. split; [done |]. right. split; [by vm_compute |]. exists [bs "etc"], [bs "cron.d"].
  split; [by left | by vm_compute].
Defined.
