(* ===== verification/OutputStore.v ===== *)
(** The store of large tool results (zzclawterm-core/src/capabilities/output_store.rs):
    a bounded, expiring, least-recently-used store whose entries a caller pages
    through. Instants are integers; the identifier of a new entry, a random UUID
    in the code, is an argument. *)
From stdpp Require Import base list numbers strings gmap.
From Stdlib Require Import ZArith Lia.
From S2P Require Import Prelude Text Boundary.

Record OutputStoreConfig := Config { entry_limit : Z; total_limit : Z; ttl : Z; max_chunk_bytes : Z }.
Record Entry := MkEntry { ebytes : list Z; total_bytes : Z; created : Z }.
Record OutputStore := Store {
  entries : gmap (list Z) Entry;
  lru : list (list Z);
  sbytes : Z;
  config : OutputStoreConfig
}.
Record ProtectedOutput := Protected {
  preview : list Z; truncated : bool; output_id : option (list Z); p_total : Z; source_truncated : bool
}.
Record OutputChunk := Chunk { data : list Z; offset : Z; next_offset : Z; c_total : Z; eof : bool }.
Inductive OutputStoreError := Unavailable | InvalidOffset.

Definition default_config : OutputStoreConfig :=
  Config (4 * 1024 * 1024) (16 * 1024 * 1024) (10 * 60 * 1000000000) (64 * 1024).

Definition new (c : OutputStoreConfig) : OutputStore :=
  Store ∅ [] 0
    (Config (Z.max 1 (entry_limit c)) (Z.max 1 (total_limit c)) (ttl c) (Z.max 1 (max_chunk_bytes c))).

Definition boundary_at_or_before (text : list Z) (index : Z) : Z :=
  Z.of_nat (floor_boundary text (Z.to_nat index)).
Definition boundary_at_or_before_bytes (bytes : list Z) (index : Z) : Z :=
  if utf8_valid bytes then boundary_at_or_before bytes index else 0.

(** [VecDeque::retain] on identifiers. *)
Definition retain_ne (id : list Z) (l : list (list Z)) : list (list Z) := List.filter (fun x => negb (beq x id)) l.

Definition remove (id : list Z) (s : OutputStore) : OutputStore :=
  let s' := match entries s !! id with
            | Some e => Store (delete id (entries s)) (lru s) (saturating_sub (sbytes s) (len (ebytes e))) (config s)
            | None => s
            end in
  Store (entries s') (retain_ne id (lru s')) (sbytes s') (config s').

Definition expired (now : Z) (s : OutputStore) : list (list Z) :=
  map fst (List.filter (fun p => ttl (config s) <=? now - created (snd p)) (map_to_list (entries s))).
Definition cleanup (now : Z) (s : OutputStore) : OutputStore :=
  let s' := fold_left (fun s id => remove id s) (expired now s) s in
  Store (entries s') (List.filter (fun id => bool_decide (is_Some (entries s' !! id))) (lru s')) (sbytes s') (config s').

(** The eviction loop of [insert]; every round pops an identifier. *)
Fixpoint evict (fuel : nat) (size : Z) (s : OutputStore) : OutputStore :=
  match fuel with
  | O => s
  | S fuel' =>
      if total_limit (config s) <? saturating_add USIZE_MAX (sbytes s) size then
        match lru s with
        | [] => s
        | oldest :: rest => evict fuel' size (remove oldest (Store (entries s) rest (sbytes s) (config s)))
        end
      else s
  end.

Definition insert (now : Z) (id bytes : list Z) (total : Z) (s : OutputStore) : OutputStore :=
  let s := evict (S (length (lru s))) (len bytes) s in
  let keep := Z.min (len bytes) (total_limit (config s)) in
  let keep := boundary_at_or_before_bytes bytes keep in
  let bytes := take (Z.to_nat keep) bytes in
  Store (<[id := MkEntry bytes total now]> (entries s)) (lru s ++ [id]) (sbytes s + len bytes) (config s).

Definition protect (now : Z) (uuid : list Z) (text : list Z) (inline_limit : Z) (s : OutputStore) :
    OutputStore * ProtectedOutput :=
  let s := cleanup now s in
  let total := len text in
  if total <=? inline_limit then (s, Protected text false None total false)
  else
    let preview_end := boundary_at_or_before text inline_limit in
    let keep_end := boundary_at_or_before text (Z.min (entry_limit (config s)) total) in
    let id := bs "out_" ++ uuid in
    (insert now id (take (Z.to_nat keep_end) text) total s,
     Protected (take (Z.to_nat preview_end) text) true (Some id) total (keep_end <? total)).

Definition read (now : Z) (id : list Z) (off max_bytes : Z) (s : OutputStore) :
    OutputStore * result OutputChunk OutputStoreError :=
  let s := cleanup now s in
  match entries s !! id with
  | None => (s, Err Unavailable)
  | Some e =>
      if len (ebytes e) <? off then (s, Err InvalidOffset)
      else if negb (utf8_valid (ebytes e)) then (s, Err InvalidOffset)
      else if negb (is_char_boundary (ebytes e) (Z.to_nat off)) then (s, Err InvalidOffset)
      else
        let requested := Z.min (Z.max max_bytes 1) (max_chunk_bytes (config s)) in
        let stop := boundary_at_or_before (ebytes e)
                      (Z.min (saturating_add USIZE_MAX off requested) (len (ebytes e))) in
        let chunk := Chunk (take (Z.to_nat (stop - off)) (drop (Z.to_nat off) (ebytes e))) off stop
                       (total_bytes e) (stop =? len (ebytes e)) in
        (Store (entries s) (retain_ne id (lru s) ++ [id]) (sbytes s) (config s), Ok chunk)
  end.

(** A client that follows [next_offset] until the end of the entry. *)
Fixpoint read_pages (fuel : nat) (now : nat -> Z) (i : nat) (id : list Z) (off max_bytes : Z) (s : OutputStore) :
    option (list Z) :=
  match fuel with
  | O => None
  | S fuel' =>
      match read (now i) id off max_bytes s with
      | (s', Ok c) =>
          if eof c then Some (data c)
          else (fun rest => data c ++ rest) <$> read_pages fuel' now (S i) id (next_offset c) max_bytes s'
      | (_, Err _) => None
      end
  end.

(** ** The store invariant *)
#[local] Arguments retain_ne : simpl never.
Definition sum_bytes (m : gmap (list Z) Entry) : Z := map_fold (fun _ e acc => len (ebytes e) + acc) 0 m.

Lemma sum_bytes_delete m id e : m !! id = Some e -> sum_bytes m = len (ebytes e) + sum_bytes (delete id m).
Proof. intros H. unfold sum_bytes. erewrite (map_fold_delete_L _ _ id e); [done | | done]. intros. lia. Qed.

Lemma sum_bytes_insert m id e : m !! id = None -> sum_bytes (<[id := e]> m) = len (ebytes e) + sum_bytes m.
Proof. intros H. unfold sum_bytes. rewrite map_fold_insert_L; [done | | done]. intros. lia. Qed.

Lemma sum_bytes_nonneg m : 0 <= sum_bytes m.
Proof.
  unfold sum_bytes. apply (map_fold_weak_ind (fun r _ => 0 <= r)); [lia |]. intros. lia.
Qed.

Lemma retain_ne_In x id l : In x (retain_ne id l) <-> In x l /\ x <> id.
Proof.
  unfold retain_ne. rewrite filter_In. unfold beq. rewrite negb_true_iff, bool_decide_eq_false. done.
Qed.

Lemma retain_ne_NoDup id l : List.NoDup l -> List.NoDup (retain_ne id l).
Proof. apply List.NoDup_filter. Qed.

(** Everything but the relation between [lru] and the entry [id]. *)
Record store_but (id : option (list Z)) (s : OutputStore) : Prop := {
  so_bytes : sbytes s = sum_bytes (entries s);
  so_nodup : List.NoDup (lru s);
  so_lru : forall x, id <> Some x -> In x (lru s) <-> is_Some (entries s !! x);
  so_limit : sbytes s <= total_limit (config s) < USIZE_MAX;
  so_chunk : 1 <= max_chunk_bytes (config s);
  so_valid : map_Forall (fun _ e => utf8_valid (ebytes e) = true) (entries s)
}.
Abbreviation store_ok := (store_but None).

Lemma remove_but id o s : store_but o s -> (o = None \/ o = Some id) -> store_ok (remove id s).
Proof.
  intros [H1 H2 H3 H4 H5 H6] Ho. unfold remove.
  destruct (entries s !! id) as [e |] eqn:E; cbn.
  - pose proof (sum_bytes_delete _ _ _ E). pose proof (sum_bytes_nonneg (delete id (entries s))).
    unfold saturating_sub. constructor; cbn; [lia | by apply retain_ne_NoDup | | lia | done | by apply map_Forall_delete].
    intros x _. rewrite retain_ne_In. destruct (decide (x = id)) as [-> | Hx].
    + rewrite lookup_delete_eq. split; [tauto | by intros [? ?]].
    + rewrite lookup_delete_ne by done. rewrite H3 by (destruct Ho as [-> | ->]; congruence). tauto.
  - constructor; cbn; [done | by apply retain_ne_NoDup | | done | done | done].
    intros x _. rewrite retain_ne_In. destruct (decide (x = id)) as [-> | Hx].
    + rewrite E. split; [tauto | by intros [? ?]].
    + rewrite H3 by (destruct Ho as [-> | ->]; congruence). tauto.
Qed.

Lemma remove_config id s : config (remove id s) = config s.
Proof. unfold remove. by destruct (entries s !! id). Qed.

Lemma remove_lookup_ne id x s : x <> id -> entries (remove id s) !! x = entries s !! x.
Proof. intros Hx. unfold remove. destruct (entries s !! id); cbn; [by rewrite lookup_delete_ne by done | done]. Qed.

Lemma remove_lookup_eq id s : entries (remove id s) !! id = None.
Proof. unfold remove. destruct (entries s !! id) eqn:E; cbn; [by rewrite lookup_delete_eq | done]. Qed.

Lemma remove_all ids s :
  store_ok s ->
  let s' := fold_left (fun s id => remove id s) ids s in
  store_ok s' /\ config s' = config s
  /\ (forall x, In x ids -> entries s' !! x = None) /\ (forall x, ~ In x ids -> entries s' !! x = entries s !! x).
Proof.
  revert s. induction ids as [| id ids IH]; intros s Hs; cbn; [done |].
  destruct (IH (remove id s) (remove_but id None s Hs (or_introl eq_refl))) as (H1 & H2 & H3 & H4).
  split_and!; [done | by rewrite H2, remove_config | |].
  - intros x [<- | Hx]; [| by apply H3].
    destruct (in_dec (fun a b : list Z => decide (a = b)) id ids) as [Hi | Hi]; [by apply H3 |].
    rewrite H4 by done. apply remove_lookup_eq.
  - intros x Hx. rewrite H4 by tauto. apply remove_lookup_ne. intros ->. tauto.
Qed.

Lemma expired_spec now s x :
  In x (expired now s) <-> exists e, entries s !! x = Some e /\ ttl (config s) <= now - created e.
Proof.
  unfold expired. rewrite in_map_iff. split.
  - intros ([y e] & <- & H). apply filter_In in H as [H Ht]. apply list_elem_of_In, elem_of_map_to_list in H.
    cbn in Ht. exists e. split; [done | lia].
  - intros (e & H & Ht). exists (x, e). split; [done |]. apply filter_In. split; [| cbn; lia].
    by apply list_elem_of_In, elem_of_map_to_list.
Qed.

(** [cleanup] drops exactly the expired entries. *)
Lemma cleanup_spec now s :
  store_ok s ->
  let s' := cleanup now s in
  store_ok s' /\ config s' = config s
  /\ forall x, entries s' !! x
               = match entries s !! x with
                 | Some e => if ttl (config s) <=? now - created e then None else Some e
                 | None => None
                 end.
Proof.
  intros Hs. unfold cleanup. destruct (remove_all (expired now s) s Hs) as (H1 & H2 & H3 & H4).
  set (s1 := fold_left (fun s id => remove id s) (expired now s) s) in *. cbn. split_and!; [| done |].
  - destruct H1 as [A1 A2 A3 A4 A5 A6]. constructor; cbn; try done.
    + by apply List.NoDup_filter.
    + intros x _. rewrite filter_In, A3, bool_decide_eq_true by done. tauto.
  - intros x. destruct (in_dec (fun a b : list Z => decide (a = b)) x (expired now s)) as [Hi | Hi].
    + rewrite (H3 x Hi). apply expired_spec in Hi as (e & -> & Ht). destruct (Z.leb_spec (ttl (config s)) (now - created e)); [done | lia].
    + rewrite (H4 x Hi). destruct (entries s !! x) as [e |] eqn:E; [| done].
      destruct (Z.leb_spec (ttl (config s)) (now - created e)); [| done].
      exfalso. apply Hi, expired_spec. by exists e.
Qed.

(** ** Eviction *)

(** Within its bound on rounds the eviction loop stops because the new entry
    fits or because nothing is left; it keeps the invariant. *)
Lemma evict_spec fuel size s :
  store_ok s -> 0 <= size -> (length (lru s) < fuel)%nat ->
  let s' := evict fuel size s in
  store_ok s' /\ config s' = config s /\ (length (lru s') <= length (lru s))%nat
  /\ (saturating_add USIZE_MAX (sbytes s') size <= total_limit (config s') \/ lru s' = [])
  /\ (forall x e, entries s' !! x = Some e -> entries s !! x = Some e).
Proof.
  revert s. induction fuel as [| fuel IH]; intros s Hs Hsize Hf; [lia |]. cbn [evict].
  destruct (Z.ltb_spec (total_limit (config s)) (saturating_add USIZE_MAX (sbytes s) size)) as [Hover | Hfit].
  2: { split_and!; [done | done | lia | by left | done]. }
  destruct (lru s) as [| oldest rest] eqn:El.
  { split_and!; [done | done | rewrite El; cbn; lia | by right | done]. }
  set (s1 := Store (entries s) rest (sbytes s) (config s)).
  assert (Hb : store_but (Some oldest) s1).
  { destruct Hs as [A1 A2 A3 A4 A5 A6]. rewrite El in A2, A3. inversion A2; subst.
    constructor; cbn; try done. intros x Hx. rewrite <- A3 by done. cbn. split; [by right |].
    intros [-> | ?]; [congruence | done]. }
  assert (Hlen : (length (lru (remove oldest s1)) <= length rest)%nat).
  { assert (E : lru (remove oldest s1) = retain_ne oldest rest).
    { unfold remove. by destruct (entries s1 !! oldest). }
    rewrite E. apply filter_length_le. }
  destruct (IH (remove oldest s1)) as (H1 & H2 & H3 & H4 & H5).
  { apply (remove_but oldest (Some oldest)); [done | by right]. }
  { done. } { cbn in Hf. lia. }
  split_and!; [done | by rewrite H2, remove_config | cbn; lia | done |].
  intros x e Hx. specialize (H5 x e Hx). destruct (decide (x = oldest)) as [-> | Hn].
  - by rewrite remove_lookup_eq in H5.
  - by rewrite remove_lookup_ne in H5.
Qed.

Lemma store_empty_lru s : store_ok s -> lru s = [] -> sbytes s = 0.
Proof.
  intros [H1 _ H3 _ _ _] E. rewrite H1. assert (He : entries s = ∅).
  { apply map_eq. intros x. rewrite lookup_empty. destruct (entries s !! x) eqn:Ex; [| done].
    exfalso. assert (In x (lru s)) as Hin by (apply H3; [done | by rewrite Ex]). by rewrite E in Hin. }
  by rewrite He.
Qed.

(** ** Operations keep the invariant *)
Lemma boundary_bytes_le bytes k :
  0 <= k -> 0 <= boundary_at_or_before_bytes bytes k <= k.
Proof.
  intros Hk. unfold boundary_at_or_before_bytes, boundary_at_or_before. case_match; [| lia].
  destruct (floor_boundary_spec bytes (Z.to_nat k)) as (H1 & _). lia.
Qed.

Lemma boundary_take_valid text k :
  utf8_valid text = true -> utf8_valid (take (Z.to_nat (boundary_at_or_before text k)) text) = true.
Proof.
  intros Hv. unfold boundary_at_or_before. rewrite Nat2Z.id.
  destruct (floor_boundary_spec text (Z.to_nat k)) as (_ & H2 & _). by destruct (boundary_cut _ _ Hv H2).
Qed.

Lemma insert_ok now id bytes total s :
  store_ok s -> entries s !! id = None -> utf8_valid bytes = true -> store_ok (insert now id bytes total s).
Proof.
  intros Hs Hid Hv. unfold insert.
  destruct (evict_spec (S (length (lru s))) (len bytes) s Hs ltac:(lia) ltac:(lia)) as (H1 & H2 & _ & H4 & H5).
  set (s1 := evict (S (length (lru s))) (len bytes) s) in *.
  set (k := boundary_at_or_before_bytes bytes (Z.min (len bytes) (total_limit (config s1)))).
  assert (Hlim : 0 <= total_limit (config s1)).
  { destruct H1 as [A1 _ _ A4 _ _]. pose proof (sum_bytes_nonneg (entries s1)). lia. }
  pose proof (boundary_bytes_le bytes (Z.min (len bytes) (total_limit (config s1))) ltac:(lia)) as Hk. fold k in Hk.
  assert (Hid1 : entries s1 !! id = None).
  { destruct (entries s1 !! id) eqn:E; [| done]. apply H5 in E. congruence. }
  assert (Hsize : sbytes s1 + k <= total_limit (config s1)).
  { destruct H4 as [H4 | H4]; [| rewrite (store_empty_lru s1) by done; lia].
    destruct H1 as [_ _ _ A4 _ _]. unfold saturating_add in H4. lia. }
  assert (Hl : len (take (Z.to_nat k) bytes) = k) by (rewrite length_take; lia).
  destruct H1 as [A1 A2 A3 A4 A5 A6]. constructor; cbn [entries lru sbytes config].
  - rewrite sum_bytes_insert by done. cbn [ebytes]. lia.
  - apply (Permutation_NoDup (l := id :: lru s1)).
    + by apply Permutation_cons_append.
    + constructor; [| done]. rewrite A3 by done. rewrite Hid1. by intros [? ?].
  - intros x _. rewrite in_app_iff. cbn [In]. destruct (decide (x = id)) as [-> | Hx].
    + rewrite lookup_insert_eq. split; [by intros _; eexists | by right; left].
    + rewrite lookup_insert_ne by done. rewrite A3 by done. split; [| by left].
      intros [? | [? | []]]; [done | congruence].
  - lia.
  - done.
  - apply map_Forall_insert_2; [| done]. cbn. unfold k, boundary_at_or_before_bytes. rewrite Hv.
    by apply boundary_take_valid.
Qed.

Lemma insert_config now id bytes total s : store_ok s -> config (insert now id bytes total s) = config s.
Proof.
  intros Hs. unfold insert. cbn [config].
  by destruct (evict_spec (S (length (lru s))) (len bytes) s Hs ltac:(lia) ltac:(lia)) as (_ & -> & _).
Qed.

Lemma cleanup_lookup_None now s id : store_ok s -> entries s !! id = None -> entries (cleanup now s) !! id = None.
Proof. intros Hs E. destruct (cleanup_spec now s Hs) as (_ & _ & H). by rewrite H, E. Qed.

Lemma touch_ok id e s :
  store_ok s -> entries s !! id = Some e ->
  store_ok (Store (entries s) (retain_ne id (lru s) ++ [id]) (sbytes s) (config s)).
Proof.
  intros [A1 A2 A3 A4 A5 A6] E. constructor; cbn; try done.
  - apply (Permutation_NoDup (l := id :: retain_ne id (lru s))); [by apply Permutation_cons_append |].
    constructor; [| by apply retain_ne_NoDup]. rewrite retain_ne_In. tauto.
  - intros x _. rewrite in_app_iff, retain_ne_In, <- A3 by done. cbn.
    destruct (decide (x = id)) as [-> | Hx]; [| intuition congruence].
    assert (In id (lru s)) by (apply A3; [done | by rewrite E]). tauto.
Qed.

(** The calls of the store. A new identifier is fresh. *)
Inductive store_step : OutputStore -> OutputStore -> Prop :=
| step_protect now uuid text inline_limit s :
    utf8_valid text = true -> entries s !! (bs "out_" ++ uuid) = None ->
    store_step s (fst (protect now uuid text inline_limit s))
| step_read now id off max_bytes s : store_step s (fst (read now id off max_bytes s))
| step_cleanup now s : store_step s (cleanup now s).

Lemma store_step_ok s s' : store_ok s -> store_step s s' -> store_ok s' /\ config s' = config s.
Proof.
  intros Hs Hstep. revert Hs. destruct Hstep as [now uuid text inl s Hv Hf | now id off mx s | now s]; intros Hs;
    destruct (cleanup_spec now s Hs) as (Hc & Hcfg & Hl); [| | done].
  - unfold protect. case_match; [done |]. cbn [fst]. rewrite insert_config by done. split; [| done].
    apply insert_ok; [done | by apply cleanup_lookup_None | by apply boundary_take_valid].
  - unfold read. destruct (entries (cleanup now s) !! id) as [e |] eqn:E; [| done].
    do 3 (case_match; [done |]). cbn [fst]. split; [by apply (touch_ok id e) | done].
Qed.

Lemma new_ok c : total_limit c < USIZE_MAX -> store_ok (new c).
Proof.
  intros H. constructor; cbn; try done; try lia.
  - constructor.
  - intros x _. rewrite lookup_empty. split; [done | by intros [? ?]].
Qed.

(** C31: after any sequence of calls the byte counter is the sum of the sizes of
    the stored entries and never exceeds the configured total, the
    least-recently-used list holds every stored identifier exactly once and
    nothing else, and every entry is valid UTF-8. *)
Theorem output_store_bounded c s :
  total_limit c < USIZE_MAX -> rtc store_step (new c) s ->
  sbytes s = sum_bytes (entries s) /\ sbytes s <= Z.max 1 (total_limit c)
  /\ List.NoDup (lru s) /\ (forall x, In x (lru s) <-> is_Some (entries s !! x))
  /\ map_Forall (fun _ e => utf8_valid (ebytes e) = true) (entries s).
Proof.
  intros Hc Hr. assert (H : store_ok s /\ config s = config (new c)).
  { revert s Hr. refine (rtc_ind_r (R := store_step) (fun s => store_ok s /\ config s = config (new c)) (new c) _ _).
    - split; [by apply new_ok | done].
    - intros s1 s2 _ Hstep [H1 H2]. destruct (store_step_ok s1 s2 H1 Hstep) as [? ->]. done. }
  destruct H as [[A1 A2 A3 A4 A5 A6] Hcfg]. rewrite Hcfg in A4. cbn in A4.
  split_and!; [done | lia | done | | done]. intros x. by apply A3.
Qed.

Lemma output_store_bounded_witness :
  sbytes (fst (protect 0 (bs "a") (bs "hello") 2 (new (Config 4 3 60 16)))) <= Z.max 1 3.
Proof.
  refine (proj1 (proj2 (output_store_bounded (Config 4 3 60 16) _ _ _))); [done |].
  apply rtc_once. by apply step_protect.
Defined.

(** ** Paging *)

(** What [read] returns for an entry that has not expired, at a boundary. *)
Lemma read_live now id off max_bytes s e :
  store_ok s -> entries s !! id = Some e -> now - created e < ttl (config s) ->
  0 <= off -> is_char_boundary (ebytes e) (Z.to_nat off) = true -> len (ebytes e) < USIZE_MAX ->
  let requested := Z.min (Z.max max_bytes 1) (max_chunk_bytes (config s)) in
  let stop := boundary_at_or_before (ebytes e) (off + requested) in
  exists s', read now id off max_bytes s
             = (s', Ok (Chunk (take (Z.to_nat (stop - off)) (drop (Z.to_nat off) (ebytes e))) off stop (total_bytes e)
                          (stop =? len (ebytes e))))
    /\ store_ok s' /\ config s' = config s /\ entries s' !! id = Some e.
Proof.
  intros Hs He Ht Hoff Hb Hlen requested stop. destruct (cleanup_spec now s Hs) as (Hc & Hcfg & Hl).
  assert (He' : entries (cleanup now s) !! id = Some e).
  { rewrite Hl, He. destruct (Z.leb_spec (ttl (config s)) (now - created e)); [lia | done]. }
  pose proof (boundary_le _ _ Hb) as Hle. pose proof (so_valid _ _ Hc _ _ He') as Hve. cbn in Hve.
  unfold read. rewrite He'. destruct (Z.ltb_spec (len (ebytes e)) off); [lia |]. rewrite Hve, Hb. cbn [negb].
  assert (Hst : boundary_at_or_before (ebytes e)
      (Z.min (saturating_add USIZE_MAX off (Z.min (Z.max max_bytes 1) (max_chunk_bytes (config (cleanup now s)))))
             (len (ebytes e))) = stop).
  { unfold stop, requested, boundary_at_or_before, floor_boundary, saturating_add. rewrite Hcfg. f_equal. f_equal. lia. }
  rewrite Hst. eexists. split; [reflexivity |]. split; [by apply (touch_ok id e) | done].
Qed.

Lemma stop_bounds l off r :
  0 <= off -> is_char_boundary l (Z.to_nat off) = true -> 0 <= r ->
  off <= boundary_at_or_before l (off + r) <= len l.
Proof.
  intros Ho Hb Hr. unfold boundary_at_or_before.
  destruct (floor_boundary_spec l (Z.to_nat (off + r))) as (_ & H2 & H3).
  apply boundary_le in H2. specialize (H3 _ Hb). lia.
Qed.

Lemma read_pages_rest fuel now i id off max_bytes s e :
  store_ok s -> entries s !! id = Some e -> (forall i, now i - created e < ttl (config s)) ->
  utf8_valid (ebytes e) = true -> len (ebytes e) < USIZE_MAX -> 4 <= max_bytes -> 4 <= max_chunk_bytes (config s) ->
  0 <= off -> is_char_boundary (ebytes e) (Z.to_nat off) = true -> (length (ebytes e) < fuel + Z.to_nat off)%nat ->
  read_pages fuel now i id off max_bytes s = Some (drop (Z.to_nat off) (ebytes e)).
Proof.
  revert i off s. induction fuel as [| fuel IH]; intros i off s Hs He Ht Hv Hlen Hm Hc Hoff Hb Hf.
  { apply boundary_le in Hb. lia. }
  cbn [read_pages].
  destruct (read_live (now i) id off max_bytes s e Hs He (Ht i) Hoff Hb Hlen) as (s' & -> & Hs' & Hcfg & He').
  cbn [eof data next_offset]. set (r := Z.min (Z.max max_bytes 1) (max_chunk_bytes (config s))).
  set (stop := boundary_at_or_before (ebytes e) (off + r)).
  pose proof (stop_bounds (ebytes e) off r Hoff Hb ltac:(lia)) as Hst. fold stop in Hst.
  destruct (Z.eqb_spec stop (len (ebytes e))) as [E | E].
  - f_equal. rewrite take_ge; [done |]. rewrite length_drop. lia.
  - assert (Hp : (Z.to_nat off < Z.to_nat stop)%nat).
    { unfold stop, boundary_at_or_before. rewrite Nat2Z.id. replace (Z.to_nat (off + r)) with (Z.to_nat off + Z.to_nat r)%nat by lia.
      apply floor_boundary_progress; [done | done | | lia]. apply boundary_le in Hb as Hle.
      destruct (decide (Z.to_nat off = length (ebytes e))); [lia | lia]. }
    rewrite IH; try done; try lia.
    + cbn. f_equal. rewrite <- (take_drop (Z.to_nat (stop - off)) (drop (Z.to_nat off) (ebytes e))) at 2. f_equal.
      rewrite drop_drop. f_equal. lia.
    + intros j. by rewrite Hcfg.
    + by rewrite Hcfg.
    + unfold stop, boundary_at_or_before. rewrite Nat2Z.id. apply floor_boundary_spec.
Qed.

(** A result too large to return at once is not lost: after [protect] a
    client that follows the offsets, asking for at least four bytes a page,
    reads back the whole text within as many pages as it has bytes, as long as
    the text fits the limits and the entry has not expired, whatever the store
    held before. *)
Theorem output_pages_roundtrip s t0 uuid text inline_limit max_bytes now :
  store_ok s -> entries s !! (bs "out_" ++ uuid) = None -> utf8_valid text = true ->
  0 <= inline_limit < len text -> len text <= entry_limit (config s) -> len text <= total_limit (config s) ->
  4 <= max_bytes -> 4 <= max_chunk_bytes (config s) -> (forall i, now i - t0 < ttl (config s)) ->
  let s' := fst (protect t0 uuid text inline_limit s) in
  let p := snd (protect t0 uuid text inline_limit s) in
  output_id p = Some (bs "out_" ++ uuid) /\ source_truncated p = false
  /\ preview p = take (Z.to_nat (boundary_at_or_before text inline_limit)) text
  /\ read_pages (S (length text)) now 0 (bs "out_" ++ uuid) 0 max_bytes s' = Some text.
Proof.
  intros Hs Hf Hv Hin Hent Htot Hm Hc Ht. destruct (cleanup_spec t0 s Hs) as (Hc' & Hcfg & Hl).
  set (id := bs "out_" ++ uuid) in *.
  assert (Hk : boundary_at_or_before text (Z.min (entry_limit (config (cleanup t0 s))) (len text)) = len text).
  { rewrite Hcfg, Z.min_r by lia. unfold boundary_at_or_before. rewrite Nat2Z.id. by rewrite floor_boundary_id by apply boundary_length. }
  assert (HP : protect t0 uuid text inline_limit s
    = (insert t0 id text (len text) (cleanup t0 s),
       Protected (take (Z.to_nat (boundary_at_or_before text inline_limit)) text) true (Some id) (len text) false)).
  { unfold protect. destruct (Z.leb_spec (len text) inline_limit); [lia |]. rewrite Hk, Nat2Z.id, firstn_all.
    by rewrite Z.ltb_irrefl. }
  cbn zeta. rewrite HP. cbn [fst snd output_id source_truncated preview]. split_and!; try done.
  assert (Hins : store_ok (insert t0 id text (len text) (cleanup t0 s)))
    by (apply insert_ok; [done | by apply cleanup_lookup_None | done]).
  pose proof (insert_config t0 id text (len text) _ Hc') as Hcfg2.
  assert (He : entries (insert t0 id text (len text) (cleanup t0 s)) !! id = Some (MkEntry text (len text) t0)).
  { unfold insert. cbn [entries]. rewrite lookup_insert_eq.
    destruct (evict_spec (S (length (lru (cleanup t0 s)))) (len text) _ Hc' ltac:(lia) ltac:(lia)) as (_ & -> & _).
    rewrite Hcfg, Z.min_l by lia. unfold boundary_at_or_before_bytes. rewrite Hv. unfold boundary_at_or_before.
    rewrite !Nat2Z.id. rewrite floor_boundary_id by apply boundary_length. by rewrite firstn_all. }
  erewrite (read_pages_rest _ _ _ _ _ _ _ (MkEntry text (len text) t0)); try done.
  - intros i. cbn [created]. rewrite Hcfg2, Hcfg. apply Ht.
  - cbn. destruct Hs as [_ _ _ ? _ _]. lia.
  - by rewrite Hcfg2, Hcfg.
  - apply boundary_0.
  - cbn. lia.
Qed.

Lemma output_pages_roundtrip_witness :
  read_pages 12 (fun _ => 1) 0 (bs "out_7") 0 4
    (fst (protect 0 (bs "7") (bs "hello world") 2 (new (Config 64 64 60 16)))) = Some (bs "hello world").
Proof.
  refine (proj2 (proj2 (proj2 (output_pages_roundtrip (new (Config 64 64 60 16)) 0 (bs "7") (bs "hello world") 2 4
            (fun _ => 1) _ _ _ _ _ _ _ _ _)))); try (vm_compute; done); try (intros; vm_compute; done).
  by apply new_ok.
Defined.

(** Paging can stall: asking for fewer bytes than the next character has
    (the argument check accepts one) returns no data and the same offset,
    without reporting the end, so a client that follows the offsets never
    reads past that character. *)
Theorem output_read_stalls now id off max_bytes s e n :
  store_ok s -> entries s !! id = Some e -> now - created e < ttl (config s) -> len (ebytes e) < USIZE_MAX ->
  0 <= off -> is_char_boundary (ebytes e) (Z.to_nat off) = true ->
  utf8_char_len (drop (Z.to_nat off) (ebytes e)) = Some n -> 1 <= max_bytes < Z.of_nat n ->
  exists s', read now id off max_bytes s = (s', Ok (Chunk [] off off (total_bytes e) false))
    /\ store_ok s' /\ config s' = config s /\ entries s' !! id = Some e.
Proof.
  intros Hs He Ht Hlen Hoff Hb Hn Hm.
  destruct (read_live now id off max_bytes s e Hs He Ht Hoff Hb Hlen) as (s' & Hr & Hs').
  set (r := Z.min (Z.max max_bytes 1) (max_chunk_bytes (config s))) in *.
  assert (Hrr : 1 <= r < Z.of_nat n) by (pose proof (so_chunk _ _ Hs); lia).
  pose proof (utf8_char_len_bound _ _ Hn) as Hnl. rewrite length_drop in Hnl.
  assert (Hstop : boundary_at_or_before (ebytes e) (off + r) = off).
  { unfold boundary_at_or_before. destruct (floor_boundary_spec (ebytes e) (Z.to_nat (off + r))) as (H1 & H2 & H3).
    specialize (H3 _ Hb ltac:(lia)). set (f := floor_boundary (ebytes e) (Z.to_nat (off + r))) in *.
    destruct (decide (f = Z.to_nat off)); [lia |]. exfalso.
    destruct (boundary_cut (ebytes e) (Z.to_nat off) (so_valid _ _ Hs _ _ He) Hb) as [_ Hd].
    replace f with (Z.to_nat off + (f - Z.to_nat off))%nat in H2 by lia.
    destruct (decide (Z.to_nat off = 0%nat)) as [E0 | E0].
    - rewrite E0, drop_0 in Hn. rewrite E0 in H2. cbn in H2. rewrite (boundary_inside _ n) in H2 by (done || lia). done.
    - rewrite boundary_behind in H2 by (done || lia). rewrite (boundary_inside _ n) in H2 by (done || lia). done. }
  exists s'. rewrite Hr, Hstop. split; [| done]. replace (off - off) with 0 by lia. do 3 f_equal.
  destruct (Z.eqb_spec off (len (ebytes e))); [lia | done].
Qed.

Lemma output_read_stalls_witness :
  exists s', read 1 (bs "out_7") 0 2 (fst (protect 0 (bs "7") [231; 140; 171] 2 (new (Config 64 64 60 16))))
             = (s', Ok (Chunk [] 0 0 3 false))
    /\ store_ok s' /\ config s' = Config 64 64 60 16 /\ entries s' !! bs "out_7" = Some (MkEntry [231; 140; 171] 3 0).
Proof.
  refine (output_read_stalls 1 (bs "out_7") 0 2 (fst (protect 0 (bs "7") [231; 140; 171] 2 (new (Config 64 64 60 16))))
    (MkEntry [231; 140; 171] 3 0) 3 _ _ _ _ _ _ _ _); try (vm_compute; done).
  apply (store_step_ok (new (Config 64 64 60 16))); [by apply new_ok | by apply step_protect].
Defined.
