(* ===== verification/Capability.v ===== *)
(** The tools that agents and external callers may invoke: the registry with
    the access class of every tool, the checks of their arguments
    (zzclawterm-mcp-protocol/src/lib.rs), the risk of a call
    (capabilities/tools.rs) and the scope of sessions a caller may reach
    (capabilities/scope.rs). Identifiers and texts are UTF-8 byte lists. *)
From stdpp Require Import base list numbers strings gmap.
From Stdlib Require Import ZArith Lia.
From S2P Require Import Prelude Text Policy.

(** ** The registry *)
Module tool.
Definition GET_ENVIRONMENT : list Z := bs "get_environment".
Definition CONNECTION_LIST : list Z := bs "connection_list".
Definition SESSION_OPEN : list Z := bs "session_open".
Definition SESSION_GET : list Z := bs "session_get".
Definition TERMINAL_EXECUTE : list Z := bs "terminal_execute".
Definition TERMINAL_RECENT_OUTPUT : list Z := bs "terminal_recent_output".
Definition SFTP_HOME : list Z := bs "sftp_home".
Definition SFTP_LIST : list Z := bs "sftp_list".
Definition SFTP_STAT : list Z := bs "sftp_stat".
Definition SFTP_READ_TEXT : list Z := bs "sftp_read_text".
Definition SFTP_WRITE_TEXT : list Z := bs "sftp_write_text".
Definition SFTP_MKDIR : list Z := bs "sftp_mkdir".
Definition SFTP_RENAME : list Z := bs "sftp_rename".
Definition SFTP_DELETE : list Z := bs "sftp_delete".
Definition SFTP_CHMOD : list Z := bs "sftp_chmod".
Definition OUTPUT_READ : list Z := bs "tool_output_read".
End tool.

Module capability.
Definition ENVIRONMENT : list Z := bs "session.environment".
Definition CONNECTION_LIST : list Z := bs "connection.list".
Definition SESSION_OPEN : list Z := bs "session.open".
Definition SESSION_GET : list Z := bs "session.get".
Definition TERMINAL_EXECUTE : list Z := bs "terminal.execute".
Definition TERMINAL_RECENT_OUTPUT : list Z := bs "terminal.recent_output".
Definition SFTP_HOME : list Z := bs "sftp.home".
Definition SFTP_LIST : list Z := bs "sftp.list".
Definition SFTP_STAT : list Z := bs "sftp.stat".
Definition SFTP_READ : list Z := bs "sftp.read".
Definition SFTP_WRITE : list Z := bs "sftp.write".
Definition SFTP_MKDIR : list Z := bs "sftp.mkdir".
Definition SFTP_RENAME : list Z := bs "sftp.rename".
Definition SFTP_DELETE : list Z := bs "sftp.delete".
Definition SFTP_CHMOD : list Z := bs "sftp.chmod".
Definition OUTPUT_READ : list Z := bs "tool.output.read".
End capability.

Record McpToolDefinition := ToolDef {
  tool_name : list Z;
  capability_id : list Z;
  description : list Z;
  access : CapabilityAccess;
  requires_session : bool;
  read_only_hint : bool;
  destructive_hint : bool;
  open_world_hint : bool
}.

Definition MCP_TOOL_REGISTRY : list McpToolDefinition :=
  [ToolDef tool.GET_ENVIRONMENT capability.ENVIRONMENT
     (bs "Return scoped ZzClawTerm sessions and the optional active and default sessions.")
     Read false true false false;
   ToolDef tool.CONNECTION_LIST capability.CONNECTION_LIST
     (bs "List saved terminal connections using safe metadata only.")
     Read false true false false;
   ToolDef tool.SESSION_OPEN capability.SESSION_OPEN
     (bs "Open a new ZzClawTerm terminal session from a saved connection.")
     Write false false false true;
   ToolDef tool.SESSION_GET capability.SESSION_GET
     (bs "Return safe metadata and capability availability for a scoped session.")
     Read true true false false;
   ToolDef tool.TERMINAL_EXECUTE capability.TERMINAL_EXECUTE
     (bs "Execute a command in an existing scoped ZzClawTerm terminal session.")
     Write true false false true;
   ToolDef tool.TERMINAL_RECENT_OUTPUT capability.TERMINAL_RECENT_OUTPUT
     (bs "Read recent ANSI-free terminal output for a scoped session.")
     SensitiveRead true true false true;
   ToolDef tool.SFTP_HOME capability.SFTP_HOME
     (bs "Return the remote home directory.")
     SensitiveRead true true false true;
   ToolDef tool.SFTP_LIST capability.SFTP_LIST
     (bs "List a remote directory.")
     SensitiveRead true true false true;
   ToolDef tool.SFTP_STAT capability.SFTP_STAT
     (bs "Read remote path metadata.")
     SensitiveRead true true false true;
   ToolDef tool.SFTP_READ_TEXT capability.SFTP_READ
     (bs "Read up to 64 KiB of a remote UTF-8 text file.")
     SensitiveRead true true false true;
   ToolDef tool.SFTP_WRITE_TEXT capability.SFTP_WRITE
     (bs "Write a remote UTF-8 text file with optional conflict protection.")
     Write true false false true;
   ToolDef tool.SFTP_MKDIR capability.SFTP_MKDIR
     (bs "Create a remote directory.")
     Write true false false true;
   ToolDef tool.SFTP_RENAME capability.SFTP_RENAME
     (bs "Rename or move a remote path.")
     Write true false false true;
   ToolDef tool.SFTP_DELETE capability.SFTP_DELETE
     (bs "Delete a remote path using ZzClawTerm's existing delete semantics.")
     DestructiveWrite true false true true;
   ToolDef tool.SFTP_CHMOD capability.SFTP_CHMOD
     (bs "Change remote path permissions.")
     Write true false false true;
   ToolDef tool.OUTPUT_READ capability.OUTPUT_READ
     (bs "Read another chunk of a large result produced on this MCP connection.")
     SensitiveRead false true false false].

Definition definition_for_tool (name : list Z) : option McpToolDefinition :=
  List.find (fun d => beq (tool_name d) name) MCP_TOOL_REGISTRY.
Definition definition_for_capability (id : list Z) : option McpToolDefinition :=
  List.find (fun d => beq (capability_id d) id) MCP_TOOL_REGISTRY.

(** ** Arguments *)

(** A JSON object of arguments over the field names of the tools; a field that
    is absent or null is [None]. [malformed] stands for a value that is not an
    object, has a field of another name, or a field of another type. *)
Record Arguments := Args {
  session_id : option (list Z);
  connection_id : option (list Z);
  command : option (list Z);
  timeout_ms : option Z;
  lines : option Z;
  path : option (list Z);
  max_bytes : option Z;
  content : option (list Z);
  expected_mtime : option Z;
  expected_size : option Z;
  expected_hash : option (list Z);
  force : option bool;
  mode : option (list Z);
  old_path : option (list Z);
  new_path : option (list Z);
  output_id : option (list Z);
  offset : option Z;
  malformed : bool
}.

Definition no_args : Arguments :=
  Args None None None None None None None None None None None None None None None None None false.

Definition set_session_id (id : list Z) (a : Arguments) : Arguments :=
  Args (Some id) (connection_id a) (command a) (timeout_ms a) (lines a) (path a) (max_bytes a) (content a)
    (expected_mtime a) (expected_size a) (expected_hash a) (force a) (mode a) (old_path a) (new_path a)
    (output_id a) (offset a) (malformed a).

Inductive Field :=
  FSession | FConnection | FCommand | FTimeout | FLines | FPath | FMaxBytes | FContent | FMtime | FSize | FHash
| FForce | FMode | FOldPath | FNewPath | FOutputId | FOffset.
#[global] Instance Field_eq_dec : EqDecision Field.
Proof. solve_decision. Defined.

Definition has {A} (f : Field) (o : option A) : list Field := match o with Some _ => [f] | None => [] end.
Definition present (a : Arguments) : list Field :=
  has FSession (session_id a) ++ has FConnection (connection_id a) ++ has FCommand (command a)
  ++ has FTimeout (timeout_ms a) ++ has FLines (lines a) ++ has FPath (path a) ++ has FMaxBytes (max_bytes a)
  ++ has FContent (content a) ++ has FMtime (expected_mtime a) ++ has FSize (expected_size a)
  ++ has FHash (expected_hash a) ++ has FForce (force a) ++ has FMode (mode a) ++ has FOldPath (old_path a)
  ++ has FNewPath (new_path a) ++ has FOutputId (output_id a) ++ has FOffset (offset a).

(** [serde_json::from_value] for a structure that denies unknown fields: every
    required field is there, and no field beyond the optional ones. *)
Definition parses (required optional : list Field) (a : Arguments) : bool :=
  negb (malformed a)
  && forallb (fun f => bool_decide (f ∈ present a)) required
  && forallb (fun f => bool_decide (f ∈ required ++ optional)) (present a).

Inductive ToolContractError := ParseError | ContractError (message : list Z).
Definition contract_error (m : string) : result unit ToolContractError := Err (ContractError (bs m)).
Definition parse_contract (required optional : list Field) (a : Arguments) : result unit ToolContractError :=
  if parses required optional a then Ok tt else Err ParseError.

Definition text (o : option (list Z)) : list Z := match o with Some t => t | None => [] end.

Definition require_identifier (field : string) (value : list Z) : result unit ToolContractError :=
  if beq (trim value) [] || (256 <? len value)
  then Err (ContractError (bs field ++ bs " must contain 1 to 256 bytes")) else Ok tt.
Definition require_path (field : string) (value : list Z) : result unit ToolContractError :=
  if beq (trim value) [] || (4096 <? len value) || has_byte 0 value
  then Err (ContractError (bs field ++ bs " is empty, too long, or contains NUL")) else Ok tt.
Definition validate_path_args (a : Arguments) : result unit ToolContractError :=
  let? _ := require_identifier "sessionId" (text (session_id a)) in require_path "path" (text (path a)).
Definition validate_mode (m : list Z) : result unit ToolContractError :=
  let value := match strip_prefix (bs "0o") (trim m) with Some v => v | None => trim m end in
  if negb ((3 <=? len value) && (len value <=? 4))
     || match from_str_radix 8 U16_MAX value with Some _ => false | None => true end
  then contract_error "mode must be a 3 or 4 digit octal value" else Ok tt.

Definition MAX_TEXT_WRITE_BYTES : Z := 1024 * 1024.
Definition MAX_TEXT_READ_BYTES : Z := 64 * 1024.
Definition MAX_INLINE_OUTPUT_BYTES : Z := 64 * 1024.

Definition is_ascii_hexdigit (b : Z) : bool :=
  ((48 <=? b) && (b <=? 57)) || ((65 <=? b) && (b <=? 70)) || ((97 <=? b) && (b <=? 102)).

Definition validate_tool_arguments (name : list Z) (a : Arguments) : result unit ToolContractError :=
  if beq name tool.GET_ENVIRONMENT || beq name tool.CONNECTION_LIST then parse_contract [] [] a
  else if beq name tool.SESSION_OPEN then
    let? _ := parse_contract [FConnection] [] a in
    require_identifier "connectionId" (text (connection_id a))
  else if beq name tool.SESSION_GET || beq name tool.SFTP_HOME then
    let? _ := parse_contract [FSession] [] a in
    require_identifier "sessionId" (text (session_id a))
  else if beq name tool.TERMINAL_EXECUTE then
    let? _ := parse_contract [FCommand] [FSession; FTimeout] a in
    let? _ := match session_id a with Some id => require_identifier "sessionId" id | None => Ok tt end in
    if beq (trim (text (command a))) [] then contract_error "command must not be empty"
    else if MAX_TEXT_WRITE_BYTES <? len (text (command a)) then contract_error "command exceeds the 1 MiB limit"
    else if is_some_and (timeout_ms a) (fun t => negb ((1000 <=? t) && (t <=? 300000)))
    then contract_error "timeoutMs must be between 1000 and 300000"
    else Ok tt
  else if beq name tool.TERMINAL_RECENT_OUTPUT then
    let? _ := parse_contract [FSession] [FLines] a in
    let? _ := require_identifier "sessionId" (text (session_id a)) in
    if is_some_and (lines a) (fun n => negb ((1 <=? n) && (n <=? 500)))
    then contract_error "lines must be between 1 and 500" else Ok tt
  else if beq name tool.SFTP_LIST || beq name tool.SFTP_STAT || beq name tool.SFTP_DELETE then
    let? _ := parse_contract [FSession; FPath] [] a in validate_path_args a
  else if beq name tool.SFTP_READ_TEXT then
    let? _ := parse_contract [FSession; FPath] [FMaxBytes] a in
    let? _ := validate_path_args a in
    if is_some_and (max_bytes a) (fun size => (size =? 0) || (MAX_TEXT_READ_BYTES <? size))
    then contract_error "maxBytes must be between 1 and 65536" else Ok tt
  else if beq name tool.SFTP_WRITE_TEXT then
    let? _ := parse_contract [FSession; FPath; FContent] [FMtime; FSize; FHash; FForce] a in
    let? _ := validate_path_args a in
    if MAX_TEXT_WRITE_BYTES <? len (text (content a)) then contract_error "content exceeds the 1 MiB limit"
    else if is_some_and (expected_hash a) (fun h => negb (len h =? 64) || negb (forallb is_ascii_hexdigit h))
    then contract_error "expectedHash must be a 64-character SHA-256 hex value" else Ok tt
  else if beq name tool.SFTP_MKDIR then
    let? _ := parse_contract [FSession; FPath] [FMode] a in
    let? _ := validate_path_args a in
    match mode a with Some m => validate_mode m | None => Ok tt end
  else if beq name tool.SFTP_RENAME then
    let? _ := parse_contract [FSession; FOldPath; FNewPath] [] a in
    let? _ := let? _ := require_identifier "sessionId" (text (session_id a)) in
              require_path "path" (text (old_path a)) in
    require_path "newPath" (text (new_path a))
  else if beq name tool.SFTP_CHMOD then
    let? _ := parse_contract [FSession; FPath; FMode] [] a in
    let? _ := validate_path_args a in
    validate_mode (text (mode a))
  else if beq name tool.OUTPUT_READ then
    let? _ := parse_contract [FOutputId; FOffset] [FMaxBytes] a in
    let? _ := require_identifier "outputId" (text (output_id a)) in
    if is_some_and (max_bytes a) (fun size => (size =? 0) || (MAX_INLINE_OUTPUT_BYTES <? size))
    then contract_error "maxBytes must be between 1 and 65536" else Ok tt
  else contract_error "unknown ZzClawTerm MCP tool".

(** ** The risk of a call *)
Import Command Sftp.
Definition assess_tool_risk (name : list Z) (a : Arguments) : option RiskAssessment :=
  if beq name tool.SESSION_OPEN then
    Some (risk Medium (bs "opening a saved connection changes live session state") true)
  else if beq name tool.TERMINAL_EXECUTE then
    if parses [FCommand] [FSession; FTimeout] a then Some (assess_command_risk (text (command a))) else None
  else if beq name tool.SFTP_WRITE_TEXT then
    if parses [FSession; FPath; FContent] [FMtime; FSize; FHash; FForce] a
    then Some (assess_sftp_risk OpWrite (text (path a)) None
                 (match force a with Some f => f | None => false end) None)
    else None
  else if beq name tool.SFTP_MKDIR then
    if parses [FSession; FPath] [FMode] a
    then Some (assess_sftp_risk OpMkdir (text (path a)) None false (mode a)) else None
  else if beq name tool.SFTP_RENAME then
    if parses [FSession; FOldPath; FNewPath] [] a
    then Some (assess_sftp_risk OpRename (text (old_path a)) (Some (text (new_path a))) false None) else None
  else if beq name tool.SFTP_DELETE then
    if parses [FSession; FPath] [] a
    then Some (assess_sftp_risk OpDelete (text (path a)) None false None) else None
  else if beq name tool.SFTP_CHMOD then
    if parses [FSession; FPath; FMode] [] a
    then Some (assess_sftp_risk OpChmod (text (path a)) None false (mode a)) else None
  else None.

(** ** Scopes *)
Record CapabilitySession := Session { id : list Z; owner_window_label : option (list Z); live : bool }.
Inductive CapabilityScope :=
| Explicit (session_ids : gset (list Z)) (default_session_id : option (list Z))
| CurrentWindow (owner_window_label : list Z)
| AllSessions.
Record CapabilityScopeSnapshot := Snapshot { session_ids : gset (list Z); default_session_id : option (list Z) }.
Inductive CapabilityScopeError := SessionUnavailable (id : list Z) | MissingDefaultSession.

Definition option_filter {A} (f : A -> bool) (o : option A) : option A :=
  match o with Some x => if f x then Some x else None | None => None end.

Definition explicit (ids : list (list Z)) (default : option (list Z)) : CapabilityScope :=
  let ids := list_to_set ids in Explicit ids (option_filter (fun x => bool_decide (x ∈ ids)) default).

Definition dynamic_snapshot (sessions : list CapabilitySession) : CapabilityScopeSnapshot :=
  let ids : gset (list Z) := list_to_set (map id sessions) in
  Snapshot ids (if (size ids =? 1)%nat then head (elements ids) else None).

Definition resolve (s : CapabilityScope) (sessions : list CapabilitySession) : CapabilityScopeSnapshot :=
  match s with
  | Explicit ids default =>
      let live_ids : gset (list Z) := list_to_set (map id (List.filter live sessions)) in
      let ids := filter (fun x => x ∈ live_ids) ids in
      Snapshot ids (option_filter (fun x => bool_decide (x ∈ ids)) default)
  | CurrentWindow label =>
      dynamic_snapshot (List.filter (fun s => live s && bool_decide (owner_window_label s = Some label)) sessions)
  | AllSessions => dynamic_snapshot (List.filter live sessions)
  end.

Definition require (s : CapabilityScopeSnapshot) (session : list Z) : result unit CapabilityScopeError :=
  if bool_decide (session ∈ session_ids s) then Ok tt else Err (SessionUnavailable session).

Definition resolve_session (s : CapabilityScopeSnapshot) (requested : option (list Z)) :
    result (list Z) CapabilityScopeError :=
  match option_filter (fun x => negb (beq x [])) (trim <$> requested) with
  | Some x => let? _ := require s x in Ok x
  | None => ok_or (default_session_id s) MissingDefaultSession
  end.

(** The sessions a scope covers: live ones it names, or live ones it selects. *)
Definition covers (s : CapabilityScope) (x : CapabilitySession) : Prop :=
  live x = true
  /\ match s with
     | Explicit ids _ => id x ∈ ids
     | CurrentWindow label => owner_window_label x = Some label
     | AllSessions => True
     end.

Lemma dynamic_snapshot_covers (f : CapabilitySession -> bool) sessions x :
  (x ∈ session_ids (dynamic_snapshot (List.filter f sessions))
   \/ default_session_id (dynamic_snapshot (List.filter f sessions)) = Some x) ->
  exists s, In s sessions /\ f s = true /\ id s = x.
Proof.
  unfold dynamic_snapshot. cbn. intros H.
  assert (Hx : x ∈ (list_to_set (map id (List.filter f sessions)) : gset (list Z))).
  { destruct H as [H | H]; [done |]. case_match; [| done]. apply elem_of_elements.
    destruct (elements _) as [| y l]; [done |]. cbn in H. injection H as ->. by left. }
  rewrite elem_of_list_to_set, list_elem_of_In, in_map_iff in Hx. destruct Hx as (s & <- & Hs).
  apply filter_In in Hs as [? ?]. eauto.
Qed.

(** A scope resolves only to live sessions it covers. *)
Lemma resolve_session_covers s sessions requested x :
  resolve_session (resolve s sessions) requested = Ok x ->
  exists c, In c sessions /\ covers s c /\ id c = x.
Proof.
  intros H. assert (Hx : x ∈ session_ids (resolve s sessions) \/ default_session_id (resolve s sessions) = Some x).
  { unfold resolve_session in H. destruct (option_filter _ _) as [y |].
    - unfold require in H. case_bool_decide; [| done]. cbn in H. simplify_eq. by left.
    - destruct (default_session_id (resolve s sessions)); [| done]. cbn in H. simplify_eq. by right. }
  clear H. destruct s as [ids default | label |]; cbn [resolve] in Hx.
  - assert (H : x ∈ ids /\ x ∈ (list_to_set (map id (List.filter live sessions)) : gset (list Z))).
    { destruct Hx as [Hx | Hx]; cbn in Hx; [apply elem_of_filter in Hx; tauto |].
      destruct default as [d |]; [| done]. cbn in Hx. case_bool_decide as Hd; [| done]. simplify_eq.
      apply elem_of_filter in Hd. tauto. }
    destruct H as [H1 H2]. rewrite elem_of_list_to_set, list_elem_of_In, in_map_iff in H2.
    destruct H2 as (c & <- & Hc). apply filter_In in Hc as [Hc Hl]. by exists c.
  - apply dynamic_snapshot_covers in Hx as (c & Hc & Hf & <-). apply andb_true_iff in Hf as [Hl Hw].
    apply bool_decide_eq_true in Hw. by exists c.
  - apply dynamic_snapshot_covers in Hx as (c & Hc & Hf & <-). by exists c.
Qed.
