(* ===== verification/Approvals.v ===== *)
(** The authorization of capability calls
    (zzclawterm-desktop/src/features/capability_runtime.rs): the pending
    approvals, session grants and active requests, the gate that every call
    passes before a tool runs, the user's decisions, cancellation and
    disconnection. Cancellation tokens are shared objects: a token is a number
    and the state holds the cancelled ones. Replies, decisions and the point at
    which a call is handed to its tool are events of a log. What the rest of the
    application answers (settings, live sessions, generations) is the record
    [Env]. *)
From stdpp Require Import base list numbers strings gmap.
From Stdlib Require Import ZArith Lia.
From S2P Require Import Prelude Text Policy Capability OutputStore.

Inductive CapabilityCaller :=
| Mcp
| Native (run_id ai_session_id : list Z) (model_risk : option RiskLevel).

Record CapabilityRequest := Request {
  connection_id : list Z;
  request_id : list Z;
  generation : list Z;
  client : list Z;
  permission_mode : AiPermissionMode;
  scope : CapabilityScope;
  tool_of : list Z;
  arguments : Arguments;
  cancellation : nat;
  approved : bool;
  approval_decision : option (list Z);
  caller : CapabilityCaller
}.

Definition with_mode (m : AiPermissionMode) (r : CapabilityRequest) : CapabilityRequest :=
  Request (connection_id r) (request_id r) (generation r) (client r) m (scope r) (tool_of r) (arguments r)
    (cancellation r) (approved r) (approval_decision r) (caller r).
Definition with_arguments (a : Arguments) (r : CapabilityRequest) : CapabilityRequest :=
  Request (connection_id r) (request_id r) (generation r) (client r) (permission_mode r) (scope r) (tool_of r) a
    (cancellation r) (approved r) (approval_decision r) (caller r).
Definition with_approval (b : bool) (d : option (list Z)) (r : CapabilityRequest) : CapabilityRequest :=
  Request (connection_id r) (request_id r) (generation r) (client r) (permission_mode r) (scope r) (tool_of r)
    (arguments r) (cancellation r) b d (caller r).

Definition grant := (list Z * list Z * list Z)%type.

Record CapabilityApprovalRequest := Approval {
  a_request_id : list Z;
  a_client : list Z;
  a_capability : list Z;
  a_target : option (list Z);
  parameter_summary : list Z;
  risk_level : list Z;
  destructive : bool;
  allow_session : bool
}.
Record PendingCapabilityApproval := Pending {
  request : CapabilityRequest;
  approval : CapabilityApprovalRequest;
  grant_key : option grant
}.
Record PendingCapabilitySessionOpen := PendingOpen {
  host_request_id : list Z;
  client_connection_id : list Z;
  o_cancellation : nat;
  o_connection_id : list Z
}.

Inductive AgentApprovalDecision := Deny' | AllowOnce | AllowSession.
Inductive CapabilityApprovalOutcome := Dispatch (r : CapabilityRequest) | Denied (r : CapabilityRequest).

Inductive Event :=
| Replied (id code : list Z)
| Granted (key : grant)
| Disconnected (conn : list Z)
| Executed (r : CapabilityRequest).

Record CapabilityRuntimeState := Runtime {
  pending_approvals : gmap (list Z) PendingCapabilityApproval;
  approval_order : list (list Z);
  session_grants : gset grant;
  pending_session_opens : gmap (list Z) PendingCapabilitySessionOpen;
  outputs : gmap (list Z) OutputStore;
  active_requests : gmap (list Z) (list Z * nat);
  owners : gmap (list Z) (CapabilityCaller * list Z);
  cancelled : gset nat;
  log : list Event
}.

Definition initial : CapabilityRuntimeState := Runtime ∅ [] ∅ ∅ ∅ ∅ ∅ ∅ [].

(** The rest of the application at the time of a call. [digest] is the SHA-256
    of the printed arguments in hexadecimal, from third-party crates. *)
Record Env := MkEnv {
  execution_mode : AgentCommandExecutionMode;
  smart_max_risk : RiskLevel;
  generation_matches : list Z -> bool;
  native_run_is_live : list Z -> list Z -> bool;
  mcp_live_sessions : list CapabilitySession;
  ai_disabled : list Z -> bool;
  digest : Arguments -> list Z
}.

(** ** Field updates *)
Definition reply (id : list Z) (code : string) (s : CapabilityRuntimeState) : CapabilityRuntimeState :=
  Runtime (pending_approvals s) (approval_order s) (session_grants s) (pending_session_opens s) (outputs s)
    (active_requests s) (owners s) (cancelled s) (log s ++ [Replied id (bs code)]).
Definition record (e : Event) (s : CapabilityRuntimeState) : CapabilityRuntimeState :=
  Runtime (pending_approvals s) (approval_order s) (session_grants s) (pending_session_opens s) (outputs s)
    (active_requests s) (owners s) (cancelled s) (log s ++ [e]).
Definition remove_active (id : list Z) (s : CapabilityRuntimeState) : CapabilityRuntimeState :=
  Runtime (pending_approvals s) (approval_order s) (session_grants s) (pending_session_opens s) (outputs s)
    (delete id (active_requests s)) (owners s) (cancelled s) (log s).
Definition cancel (t : nat) (s : CapabilityRuntimeState) : CapabilityRuntimeState :=
  Runtime (pending_approvals s) (approval_order s) (session_grants s) (pending_session_opens s) (outputs s)
    (active_requests s) (owners s) ({[t]} ∪ cancelled s) (log s).
Definition drop_pending (id : list Z) (s : CapabilityRuntimeState) : CapabilityRuntimeState :=
  Runtime (delete id (pending_approvals s)) (retain_ne id (approval_order s)) (session_grants s)
    (pending_session_opens s) (outputs s) (active_requests s) (owners s) (cancelled s) (log s).
Definition drop_open (id : list Z) (s : CapabilityRuntimeState) : CapabilityRuntimeState :=
  Runtime (pending_approvals s) (approval_order s) (session_grants s) (delete id (pending_session_opens s))
    (outputs s) (active_requests s) (owners s) (cancelled s) (log s).
Definition is_cancelled (t : nat) (s : CapabilityRuntimeState) : bool := bool_decide (t ∈ cancelled s).

(** ** Requests *)
Definition mcp_request_target (r : CapabilityRequest) : option (list Z) :=
  match session_id (arguments r) with
  | Some id => Some id
  | None => Capability.connection_id (arguments r)
  end.

Definition is_native (r : CapabilityRequest) : bool :=
  match caller r with Native _ _ _ => true | Mcp => false end.

Definition mcp_grant_key (env : Env) (r : CapabilityRequest) : option grant :=
  (fun target =>
     let tool_scope := if is_native r then tool_of r ++ bs ":" ++ digest env (arguments r) else tool_of r in
     (connection_id r, target, tool_scope)) <$> mcp_request_target r.

Definition truncate_summary (value : list Z) (max_chars : nat) : list Z :=
  let cs := chars value in
  concat (take max_chars cs)
  ++ (if (max_chars <? length cs)%nat then [226; 128; 166] else []).

Definition or_text (o : option (list Z)) (d : list Z) : list Z := match o with Some t => t | None => d end.
Definition mcp_parameter_summary (name : list Z) (a : Arguments) : list Z :=
  if beq name tool.TERMINAL_EXECUTE then
    match command a with Some c => truncate_summary c 240 | None => bs "terminal command" end
  else if beq name tool.SFTP_RENAME then
    or_text (old_path a) (bs "?") ++ bs " -> " ++ or_text (new_path a) (bs "?")
  else if beq name tool.SFTP_WRITE_TEXT then
    bs "write " ++ show_u64 (match content a with Some c => len c | None => 0 end) ++ bs " bytes to "
    ++ or_text (path a) (bs "?") ++ (if is_some_and (force a) (fun b => b) then bs " (force)" else [])
  else match path a with
       | Some p => p
       | None => or_text (Capability.connection_id a) name
       end.

Definition level_name (l : RiskLevel) : list Z :=
  match l with Low => bs "low" | Medium => bs "medium" | High => bs "high" | Critical => bs "critical" end.

(** ** Maintenance *)
Definition prune_cancelled (now : Z) (s : CapabilityRuntimeState) : CapabilityRuntimeState :=
  let pending := filter (fun kv => is_cancelled (cancellation (request kv.2)) s = false) (pending_approvals s) in
  Runtime pending
    (List.filter (fun id => bool_decide (is_Some (pending !! id))) (approval_order s))
    (session_grants s)
    (filter (fun kv => is_cancelled (o_cancellation kv.2) s = false) (pending_session_opens s))
    (cleanup now <$> outputs s)
    (filter (fun kv => is_cancelled (kv.2.2) s = false) (active_requests s))
    (owners s) (cancelled s) (log s).

Definition has_session_grant (s : CapabilityRuntimeState) (key : grant) : bool :=
  bool_decide (key ∈ session_grants s).

Definition queue_approval (p : PendingCapabilityApproval) (s : CapabilityRuntimeState) : CapabilityRuntimeState :=
  let id := a_request_id (approval p) in
  Runtime (<[id := p]> (pending_approvals s))
    (match pending_approvals s !! id with Some _ => approval_order s | None => approval_order s ++ [id] end)
    (session_grants s) (pending_session_opens s) (outputs s) (active_requests s) (owners s) (cancelled s) (log s).

Definition decide_approval (now : Z) (id : list Z) (decision : AgentApprovalDecision) (s : CapabilityRuntimeState) :
    CapabilityRuntimeState * option CapabilityApprovalOutcome :=
  let s := prune_cancelled now s in
  match pending_approvals s !! id with
  | None => (s, None)
  | Some p =>
      let s := drop_pending id s in
      if is_cancelled (cancellation (request p)) s then (s, None)
      else
        match decision with
        | Deny' =>
            (remove_active id s,
             Some (Denied (with_approval (approved (request p)) (Some (bs "deny")) (request p))))
        | AllowOnce => (s, Some (Dispatch (with_approval true (Some (bs "allow_once")) (request p))))
        | AllowSession =>
            let s := match allow_session (approval p), grant_key p with
                     | true, Some key =>
                         record (Granted key)
                           (Runtime (pending_approvals s) (approval_order s) ({[key]} ∪ session_grants s)
                              (pending_session_opens s) (outputs s) (active_requests s) (owners s) (cancelled s) (log s))
                     | _, _ => s
                     end in
            (s, Some (Dispatch (with_approval true
                   (Some (if allow_session (approval p) then bs "allow_session" else bs "allow_once")) (request p))))
        end
  end.

(** ** The gate *)
Definition reject (r : CapabilityRequest) (code : string) (s : CapabilityRuntimeState) : CapabilityRuntimeState :=
  reply (request_id r) code (remove_active (request_id r) s).

(** The risk of the request, raised by what the model claims for its own calls. *)
Definition request_risk (r : CapabilityRequest) : option RiskAssessment :=
  let assessment := assess_tool_risk (tool_of r) (arguments r) in
  match caller r, assessment with
  | Native _ _ (Some m), Some a => Some (risk (max_risk (level a) m) (reason a) (auto_executable a))
  | _, _ => assessment
  end.

Definition request_policy (env : Env) (def : McpToolDefinition) (r : CapabilityRequest) : PolicyDecision :=
  match caller r with
  | Mcp => decide_policy (permission_mode r) (access def) (request_risk r)
  | Native _ _ _ => decide_native_policy (execution_mode env) (smart_max_risk env) (access def) (request_risk r)
  end.

Definition single_approval (def : McpToolDefinition) (r : CapabilityRequest) : bool :=
  requires_single_approval (access def) (request_risk r).
Definition confirm_each (env : Env) (r : CapabilityRequest) : bool :=
  is_native r && beq (tool_of r) tool.TERMINAL_EXECUTE && bool_decide (execution_mode env = ConfirmEach).

Definition session_granted (env : Env) (def : McpToolDefinition) (r : CapabilityRequest) (s : CapabilityRuntimeState) : bool :=
  negb (single_approval def r) && negb (confirm_each env r)
  && is_some_and (mcp_grant_key env r) (has_session_grant s).

Definition approval_of (env : Env) (def : McpToolDefinition) (r : CapabilityRequest) : CapabilityApprovalRequest :=
  Approval (request_id r) (client r) (tool_of r) (mcp_request_target r)
    (mcp_parameter_summary (tool_of r) (arguments r))
    (match request_risk r with Some a => level_name (level a) | None => bs "sensitive" end)
    (bool_decide (access def = DestructiveWrite))
    (negb (single_approval def r) && negb (confirm_each env r)).

(** From the policy on: the request is admitted as active, then denied, queued
    for approval, or handed to its tool. *)
Definition authorize (env : Env) (def : McpToolDefinition) (r : CapabilityRequest) (s : CapabilityRuntimeState) :
    CapabilityRuntimeState :=
  let s := Runtime (pending_approvals s) (approval_order s) (session_grants s) (pending_session_opens s) (outputs s)
             (<[request_id r := (connection_id r, cancellation r)]> (active_requests s))
             (<[connection_id r := (caller r, generation r)]> (owners s)) (cancelled s) (log s) in
  let r := if bool_decide (approval_decision r = Some (bs "allow_session"))
              && (single_approval def r || confirm_each env r)
           then with_approval false (approval_decision r) r else r in
  match request_policy env def r with
  | Deny => reply (request_id r) "permission_denied" (remove_active (request_id r) s)
  | RequireApproval =>
      if negb (approved r) && negb (session_granted env def r s)
      then queue_approval (Pending r (approval_of env def r) (mcp_grant_key env r)) s
      else record (Executed r) s
  | Allow => record (Executed r) s
  end.

Definition native_mode (env : Env) (r : CapabilityRequest) : CapabilityRequest :=
  if is_native r
  then with_mode (if bool_decide (execution_mode env = ConfirmEach) then Confirm else Auto) r
  else r.

Definition caller_live (env : Env) (r : CapabilityRequest) : bool :=
  match caller r with Native run session _ => native_run_is_live env run session | Mcp => true end.

Definition dispatch_capability_request (env : Env) (r : CapabilityRequest) (s : CapabilityRuntimeState) :
    CapabilityRuntimeState :=
  let r := native_mode env r in
  if negb (is_native r) && negb (generation_matches env (generation r)) then reject r "authentication_failed" s
  else if is_cancelled (cancellation r) s then reject r "cancelled" s
  else
    match definition_for_tool (tool_of r) with
    | None => reject r "invalid_argument" s
    | Some def =>
        match validate_tool_arguments (tool_of r) (arguments r) with
        | Err _ => reject r "invalid_argument" s
        | Ok _ =>
            if negb (caller_live env r) then reject r "cancelled" s
            else if requires_session def then
              match resolve_session (resolve (scope r) (mcp_live_sessions env)) (session_id (arguments r)) with
              | Err _ => reject r "scope_denied" s
              | Ok sid =>
                  let r := with_arguments (set_session_id sid (arguments r)) r in
                  if beq (tool_of r) tool.TERMINAL_EXECUTE && ai_disabled env sid
                  then reject r "permission_denied" s
                  else authorize env def r s
              end
            else authorize env def r s
        end
    end.

(** The user's answer to an approval card. *)
Definition respond_to_mcp_approval (env : Env) (now : Z) (id : list Z) (decision : AgentApprovalDecision)
    (s : CapabilityRuntimeState) : CapabilityRuntimeState :=
  match decide_approval now id decision s with
  | (s', Some (Dispatch r)) => dispatch_capability_request env r s'
  | (s', Some (Denied r)) => reply (request_id r) "approval_denied" s'
  | (s', None) => s'
  end.

(** ** Cancellation and disconnection *)
Definition cancel_open (conn : list Z) (p : PendingCapabilitySessionOpen) (s : CapabilityRuntimeState) :
    CapabilityRuntimeState :=
  reply (host_request_id p) "cancelled" (cancel (o_cancellation p) (drop_open conn s)).

Definition request_cancelled (id : list Z) (s : CapabilityRuntimeState) :
    CapabilityRuntimeState * list CapabilityRequest :=
  let s := match active_requests s !! id with
           | Some (_, token) => cancel token (remove_active id s)
           | None => s
           end in
  let found := pending_approvals s !! id in
  let s := drop_pending id s in
  let '(s, removed) := match found with
                       | Some p => (cancel (cancellation (request p)) s, [request p])
                       | None => (s, [])
                       end in
  let open := List.find (fun kv => beq (host_request_id kv.2) id) (map_to_list (pending_session_opens s)) in
  (match open with Some (conn, p) => cancel_open conn p s | None => s end, removed).

Definition reply_all (code : string) (rs : list CapabilityRequest) (s : CapabilityRuntimeState) : CapabilityRuntimeState :=
  fold_left (fun s r => reply (request_id r) code s) rs s.

Definition handle_pending_mcp_cancel (id : list Z) (s : CapabilityRuntimeState) : CapabilityRuntimeState :=
  let '(s, removed) := request_cancelled id s in reply_all "cancelled" removed s.

(** The active requests and the pending approvals of a connection. *)
Definition active_of (conn : list Z) (s : CapabilityRuntimeState) : list (list Z * (list Z * nat)) :=
  List.filter (fun kv => beq (kv.2.1) conn) (map_to_list (active_requests s)).
Definition pending_of (conn : list Z) (s : CapabilityRuntimeState) : list (list Z * PendingCapabilityApproval) :=
  List.filter (fun kv => beq (connection_id (request kv.2)) conn) (map_to_list (pending_approvals s)).
Definition opens_of (conn : list Z) (s : CapabilityRuntimeState) : list (list Z * PendingCapabilitySessionOpen) :=
  List.filter (fun kv => beq (client_connection_id kv.2) conn) (map_to_list (pending_session_opens s)).

Definition connection_disconnected (conn : list Z) (s : CapabilityRuntimeState) :
    CapabilityRuntimeState * list CapabilityRequest :=
  let s := Runtime (pending_approvals s) (approval_order s) (session_grants s) (pending_session_opens s)
             (delete conn (outputs s)) (active_requests s) (delete conn (owners s)) (cancelled s) (log s) in
  let s := fold_left (fun s kv => cancel (kv.2.2) (remove_active kv.1 s)) (active_of conn s) s in
  let removed := pending_of conn s in
  let s := fold_left (fun s kv => cancel (cancellation (request kv.2)) (drop_pending kv.1 s)) removed s in
  let s := fold_left (fun s kv => cancel_open kv.1 kv.2 s) (opens_of conn s) s in
  (record (Disconnected conn)
     (Runtime (pending_approvals s) (approval_order s) (filter (fun g => g.1.1 <> conn) (session_grants s))
        (pending_session_opens s) (outputs s) (active_requests s) (owners s) (cancelled s) (log s)),
   map (fun kv => request kv.2) removed).

Definition handle_mcp_disconnect (conn : list Z) (s : CapabilityRuntimeState) : CapabilityRuntimeState :=
  let '(s, removed) := connection_disconnected conn s in reply_all "cancelled" removed s.

Definition revoke_generation (g : list Z) (s : CapabilityRuntimeState) : CapabilityRuntimeState :=
  fold_left (fun s kv => handle_mcp_disconnect kv.1 s)
    (List.filter (fun kv => beq (kv.2.2) g) (map_to_list (owners s))) s.

(** ** Opening sessions *)
Definition session_open_is_pending (now : Z) (conn : list Z) (s : CapabilityRuntimeState) :
    CapabilityRuntimeState * bool :=
  let s := prune_cancelled now s in (s, bool_decide (is_Some (pending_session_opens s !! conn))).
Definition register_session_open (p : PendingCapabilitySessionOpen) (s : CapabilityRuntimeState) : CapabilityRuntimeState :=
  Runtime (pending_approvals s) (approval_order s) (session_grants s)
    (<[o_connection_id p := p]> (pending_session_opens s)) (outputs s) (active_requests s) (owners s) (cancelled s) (log s).
Definition complete_session_open (code : string) (conn : list Z) (s : CapabilityRuntimeState) : CapabilityRuntimeState :=
  match pending_session_opens s !! conn with
  | None => s
  | Some p =>
      let s := drop_open conn s in
      if is_cancelled (o_cancellation p) s then s else reply (host_request_id p) code s
  end.
Definition complete_session_open_success := complete_session_open "ok".
Definition complete_session_open_failure := complete_session_open "execution_failed".

(** ** Output *)
Definition protect_output (now : Z) (uuid owner name text : list Z) (s : CapabilityRuntimeState) :
    CapabilityRuntimeState * option ProtectedOutput :=
  if beq name tool.OUTPUT_READ || (len text <=? MAX_INLINE_OUTPUT_BYTES) then (s, None)
  else
    let store := match outputs s !! owner with Some st => st | None => new default_config end in
    let '(store, p) := protect now uuid text MAX_INLINE_OUTPUT_BYTES store in
    (Runtime (pending_approvals s) (approval_order s) (session_grants s) (pending_session_opens s)
       (<[owner := store]> (outputs s)) (active_requests s) (owners s) (cancelled s) (log s), Some p).

Definition read_output (now : Z) (owner oid : list Z) (off : Z) (max : option Z) (s : CapabilityRuntimeState) :
    CapabilityRuntimeState * result OutputChunk (list Z) :=
  match outputs s !! owner with
  | None => (s, Err (bs "output_not_found"))
  | Some store =>
      let '(store, r) := read now oid off (match max with Some m => m | None => MAX_INLINE_OUTPUT_BYTES end) store in
      (Runtime (pending_approvals s) (approval_order s) (session_grants s) (pending_session_opens s)
         (<[owner := store]> (outputs s)) (active_requests s) (owners s) (cancelled s) (log s),
       map_err (fun _ => bs "output_not_found") r)
  end.

(** ** The system *)

(** A request as the MCP server and the native agent build it. *)
Definition fresh_request (r : CapabilityRequest) : Prop := approved r = false /\ approval_decision r = None.

Inductive Op :=
| Submit (r : CapabilityRequest)
| Decide (now : Z) (id : list Z) (d : AgentApprovalDecision)
| CancelRequest (id : list Z)
| Disconnect (conn : list Z)
| Revoke (g : list Z)
| CancelToken (t : nat)
| Complete (id : list Z)
| Prune (now : Z)
| RegisterOpen (p : PendingCapabilitySessionOpen)
| CompleteOpen (code : string) (conn : list Z)
| Protect (now : Z) (uuid owner name text : list Z)
| ReadOutput (now : Z) (owner oid : list Z) (off : Z) (max : option Z).

Definition run (env : Env) (op : Op) (s : CapabilityRuntimeState) : CapabilityRuntimeState :=
  match op with
  | Submit r => dispatch_capability_request env r s
  | Decide now id d => respond_to_mcp_approval env now id d s
  | CancelRequest id => handle_pending_mcp_cancel id s
  | Disconnect conn => handle_mcp_disconnect conn s
  | Revoke g => revoke_generation g s
  | CancelToken t => cancel t s
  | Complete id => remove_active id s
  | Prune now => prune_cancelled now s
  | RegisterOpen p => register_session_open p s
  | CompleteOpen code conn => complete_session_open code conn s
  | Protect now uuid owner name text => fst (protect_output now uuid owner name text s)
  | ReadOutput now owner oid off max => fst (read_output now owner oid off max s)
  end.

Definition op_ok (op : Op) : Prop := match op with Submit r => fresh_request r | _ => True end.

Inductive step (s s' : CapabilityRuntimeState) : Prop :=
| step_run env op : op_ok op -> s' = run env op s -> step s s'.
