(* ===== verification/ApprovalsSpec.v ===== *)
(** What the capability gate guarantees: which calls reach their tool, on whose
    authority, and what a disconnected caller loses. *)
From stdpp Require Import base list numbers strings gmap.
From Stdlib Require Import ZArith Lia.
From S2P Require Import Prelude Text Policy Capability OutputStore Approvals.

#[local] Arguments retain_ne : simpl never.
#[local] Arguments beq : simpl never.

(** ** Steps that run no tool *)
Definition no_exec (e : Event) : Prop := match e with Executed _ => False | _ => True end.
Definition quiet (s s' : CapabilityRuntimeState) : Prop :=
  exists new, log s' = log s ++ new /\ Forall no_exec new.

Lemma quiet_refl s s' : log s' = log s -> quiet s s'.
Proof. intros H. exists []. by rewrite app_nil_r. Qed.
Lemma quiet_trans s1 s2 s3 : quiet s1 s2 -> quiet s2 s3 -> quiet s1 s3.
Proof.
  intros (n1 & E1 & F1) (n2 & E2 & F2). exists (n1 ++ n2). rewrite E2, E1, <- app_assoc. split; [done |].
  by apply Forall_app.
Qed.
Lemma quiet_record e s s' : log s' = log s ++ [e] -> no_exec e -> quiet s s'.
Proof. intros H He. exists [e]. split; [done |]. by constructor. Qed.
Lemma quiet_fold {A} (f : CapabilityRuntimeState -> A -> CapabilityRuntimeState) l s :
  (forall s x, quiet s (f s x)) -> quiet s (fold_left f l s).
Proof.
  intros H. revert s. induction l as [| x l IH]; intros s; cbn; [by apply quiet_refl |].
  eapply quiet_trans; [apply H | apply IH].
Qed.

#[local] Hint Resolve quiet_refl : rust.

Lemma reply_all_quiet code rs s : quiet s (reply_all code rs s).
Proof. apply quiet_fold. intros s' r. by eapply quiet_record. Qed.

Lemma cancel_open_quiet conn p s : quiet s (cancel_open conn p s).
Proof. by eapply quiet_record. Qed.

Lemma request_cancelled_quiet id s : quiet s (fst (request_cancelled id s)).
Proof.
  unfold request_cancelled.
  set (s1 := match active_requests s !! id with Some (_, token) => _ | None => s end).
  assert (H1 : log s1 = log s) by (unfold s1; repeat case_match; done).
  destruct (pending_approvals s1 !! id) as [p |]; cbn [fst];
    (destruct (List.find _ _) as [[conn o] |]; [eapply quiet_trans; [| apply cancel_open_quiet] |]);
    apply quiet_refl; done.
Qed.

Lemma handle_cancel_quiet id s : quiet s (handle_pending_mcp_cancel id s).
Proof.
  unfold handle_pending_mcp_cancel. destruct (request_cancelled id s) as [s' rs] eqn:E.
  eapply quiet_trans; [| apply reply_all_quiet]. replace s' with (fst (request_cancelled id s)) by (by rewrite E).
  apply request_cancelled_quiet.
Qed.

Lemma disconnected_quiet conn s : quiet s (fst (connection_disconnected conn s)).
Proof.
  unfold connection_disconnected. cbn [fst].
  eapply quiet_trans; [| by eapply quiet_record].
  eapply quiet_trans; [| apply quiet_refl; reflexivity].
  eapply quiet_trans; [| apply quiet_fold; intros; apply cancel_open_quiet].
  eapply quiet_trans; [| apply quiet_fold; intros; apply quiet_refl; reflexivity].
  eapply quiet_trans; [| apply quiet_fold; intros; apply quiet_refl; reflexivity].
  by apply quiet_refl.
Qed.

Lemma handle_disconnect_quiet conn s : quiet s (handle_mcp_disconnect conn s).
Proof.
  unfold handle_mcp_disconnect. destruct (connection_disconnected conn s) as [s' rs] eqn:E.
  eapply quiet_trans; [| apply reply_all_quiet]. replace s' with (fst (connection_disconnected conn s)) by (by rewrite E).
  apply disconnected_quiet.
Qed.

Lemma decide_approval_quiet now id d s : quiet s (fst (decide_approval now id d s)).
Proof.
  unfold decide_approval. destruct (pending_approvals (prune_cancelled now s) !! id) as [p |]; [| by apply quiet_refl].
  destruct (is_cancelled _ _); [by apply quiet_refl |].
  destruct d; cbn [fst]; try (by apply quiet_refl).
  destruct (allow_session (approval p)), (grant_key p); try (by apply quiet_refl). by eapply quiet_record.
Qed.

(** ** The gate *)

(** What holds when the gate hands [r'] to its tool for the request [r]. *)
(** [r'] carries the arguments [given], with the resolved session filled in when
    the tool works on one. *)
Definition filled_in (def : McpToolDefinition) (given : Arguments) (r' : CapabilityRequest) : Prop :=
  arguments r' = given
  \/ (requires_session def = true /\ exists sid, arguments r' = set_session_id sid given).

Record passed (env : Env) (r r' : CapabilityRequest) (def : McpToolDefinition) (s : CapabilityRuntimeState) : Prop := {
  pa_def : definition_for_tool (tool_of r') = Some def;
  pa_caller : match caller r' with
              | Mcp => generation_matches env (generation r') = true
              | Native run session _ => native_run_is_live env run session = true
              end;
  pa_token : cancellation r' ∉ cancelled s;
  pa_session : requires_session def = true ->
    exists c, In c (mcp_live_sessions env) /\ covers (scope r') c /\ session_id (arguments r') = Some (id c)
      /\ (tool_of r' = tool.TERMINAL_EXECUTE -> ai_disabled env (id c) = false);
  pa_policy : request_policy env def r' = Allow
    \/ (request_policy env def r' = RequireApproval
        /\ (approved r = true
            \/ (single_approval def r' = false /\ confirm_each env r' = false
                /\ exists key, mcp_grant_key env r' = Some key /\ key ∈ session_grants s)));
  pa_same : request_id r' = request_id r /\ connection_id r' = connection_id r /\ tool_of r' = tool_of r
    /\ caller r' = caller r
    /\ mcp_parameter_summary (tool_of r') (arguments r') = mcp_parameter_summary (tool_of r) (arguments r);
  pa_args : validate_tool_arguments (tool_of r') (arguments r) = Ok tt /\ filled_in def (arguments r) r'
}.

Lemma session_granted_spec env def r s :
  session_granted env def r s = true ->
  single_approval def r = false /\ confirm_each env r = false
  /\ exists key, mcp_grant_key env r = Some key /\ key ∈ session_grants s.
Proof.
  unfold session_granted. intros H. apply andb_true_iff in H as [H Hk]. apply andb_true_iff in H as [H1 H2].
  apply negb_true_iff in H1, H2. split_and!; [done | done |].
  destruct (mcp_grant_key env r) as [key |]; [| done]. exists key. split; [done |].
  cbn in Hk. by apply bool_decide_eq_true in Hk.
Qed.

Lemma authorize_cases env def r s :
  quiet s (authorize env def r s)
  \/ exists r', log (authorize env def r s) = log s ++ [Executed r']
     /\ (r' = r \/ r' = with_approval false (approval_decision r) r)
     /\ (request_policy env def r' = Allow
         \/ (request_policy env def r' = RequireApproval
             /\ (approved r = true \/ session_granted env def r' s = true))).
Proof.
  unfold authorize. set (s1 := Runtime _ _ _ _ _ _ _ _ _).
  set (r' := if bool_decide (approval_decision r = Some (bs "allow_session")) && _ then _ else r).
  assert (Hr : r' = r \/ r' = with_approval false (approval_decision r) r)
    by (unfold r'; case_match; [by right | by left]).
  assert (Ha : approved r' = true -> approved r = true) by (by destruct Hr as [-> | ->]).
  clearbody r'. destruct (request_policy env def r') eqn:Ep.
  - right. exists r'. split_and!; [done | done | by left].
  - destruct (negb (approved r') && negb (session_granted env def r' s1)) eqn:E; [left; by apply quiet_refl |].
    right. exists r'. split_and!; [done | done |]. right. split; [done |].
    apply andb_false_iff in E as [E | E]; apply negb_false_iff in E; [left; auto | by right].
  - left. by eapply quiet_record.
Qed.

Lemma summary_session name a sid : mcp_parameter_summary name (set_session_id sid a) = mcp_parameter_summary name a.
Proof. reflexivity. Qed.

Lemma reject_quiet r code s : quiet s (reject r code s).
Proof. by eapply quiet_record. Qed.

Lemma authorize_passed env def r0 r s :
  definition_for_tool (tool_of r) = Some def -> caller_live env r = true ->
  negb (is_native r) && negb (generation_matches env (generation r)) = false ->
  is_cancelled (cancellation r) s = false ->
  (requires_session def = true ->
    exists c, In c (mcp_live_sessions env) /\ covers (scope r) c /\ session_id (arguments r) = Some (id c)
      /\ (tool_of r = tool.TERMINAL_EXECUTE -> ai_disabled env (id c) = false)) ->
  approved r = approved r0 -> request_id r = request_id r0 -> connection_id r = connection_id r0 ->
  tool_of r = tool_of r0 -> caller r = caller r0 ->
  mcp_parameter_summary (tool_of r) (arguments r) = mcp_parameter_summary (tool_of r0) (arguments r0) ->
  validate_tool_arguments (tool_of r) (arguments r0) = Ok tt -> filled_in def (arguments r0) r ->
  quiet s (authorize env def r s)
  \/ exists r', log (authorize env def r s) = log s ++ [Executed r'] /\ passed env r0 r' def s.
Proof.
  intros Hd Hl Hg Hc Hs Ha E1 E2 E3 E4 E5 E6 E7.
  destruct (authorize_cases env def r s) as [Hq | (r' & Hlog & Hr & Hp)]; [by left |]. right. exists r'. split; [done |].
  assert (Hsame : tool_of r' = tool_of r /\ caller r' = caller r /\ generation r' = generation r
     /\ cancellation r' = cancellation r /\ scope r' = scope r /\ arguments r' = arguments r
     /\ request_id r' = request_id r /\ connection_id r' = connection_id r) by (by destruct Hr as [-> | ->]).
  destruct Hsame as (S1 & S2 & S3 & S4 & S5 & S6 & S7 & S8).
  constructor; rewrite ?S1, ?S2, ?S3, ?S4, ?S5, ?S6, ?S7, ?S8; try done.
  - unfold caller_live in Hl. unfold is_native in Hg. destruct (caller r); [| done].
    cbn in Hg. by apply negb_false_iff in Hg.
  - unfold is_cancelled in Hc. by apply bool_decide_eq_false in Hc.
  - destruct Hp as [Hp | [Hp [Hp' | Hp']]]; [by left | right | right]; (split; [done |]).
    + left. congruence.
    + right. by apply session_granted_spec.
  - split; [done |]. unfold filled_in. by rewrite S6.
Qed.

Lemma dispatch_passed env r0 s :
  let s' := dispatch_capability_request env r0 s in
  quiet s s' \/ exists r' def, log s' = log s ++ [Executed r'] /\ passed env r0 r' def s.
Proof.
  unfold dispatch_capability_request. set (r := native_mode env r0).
  assert (Hsame : approved r = approved r0 /\ request_id r = request_id r0 /\ connection_id r = connection_id r0
     /\ tool_of r = tool_of r0 /\ caller r = caller r0 /\ arguments r = arguments r0)
    by (unfold r, native_mode; by case_match).
  destruct Hsame as (S1 & S2 & S3 & S4 & S5 & S6). clearbody r.
  destruct (negb (is_native r) && negb (generation_matches env (generation r))) eqn:Eg; [left; apply reject_quiet |].
  destruct (is_cancelled (cancellation r) s) eqn:Ec; [left; apply reject_quiet |].
  destruct (definition_for_tool (tool_of r)) as [def |] eqn:Ed; [| left; apply reject_quiet].
  destruct (validate_tool_arguments (tool_of r) (arguments r)) as [[] | e] eqn:Ev; [| left; apply reject_quiet].
  rewrite S6 in Ev.
  destruct (caller_live env r) eqn:El; [| left; apply reject_quiet]. cbn [negb].
  destruct (requires_session def) eqn:Er.
  - destruct (resolve_session _ _) as [sid | e] eqn:Es; [| left; apply reject_quiet].
    destruct (beq (tool_of (with_arguments (set_session_id sid (arguments r)) r)) tool.TERMINAL_EXECUTE
              && ai_disabled env sid) eqn:Edis; [left; apply reject_quiet |].
    apply resolve_session_covers in Es as (c & Hc1 & Hc2 & <-).
    destruct (authorize_passed env def r0 (with_arguments (set_session_id (id c) (arguments r)) r) s) as [H | (r' & H1 & H2)];
      try done;
      [| cbn; by rewrite summary_session, S4, S6 | right; split; [done |]; exists (id c); cbn; by rewrite S6
       | by left | right; by eauto].
    intros _. exists c. split_and!; [done | done | done |]. intros Ht. change (tool_of r = tool.TERMINAL_EXECUTE) in Ht.
    change (beq (tool_of r) tool.TERMINAL_EXECUTE && ai_disabled env (id c) = false) in Edis.
    by rewrite Ht, beq_refl in Edis.
  - destruct (authorize_passed env def r0 r s) as [H | (r' & H1 & H2)]; try done;
      [by rewrite Er | by rewrite S4, S6 | by left | by left | right; by eauto].
Qed.

(** ** The state invariant *)

(** A pending request is filed under its own identifier, is not yet approved,
    and its card shows the tool and the parameters of the request itself. *)
Definition pending_ok (key : list Z) (p : PendingCapabilityApproval) : Prop :=
  request_id (request p) = key /\ a_request_id (approval p) = key /\ approved (request p) = false
  /\ a_capability (approval p) = tool_of (request p)
  /\ parameter_summary (approval p) = mcp_parameter_summary (tool_of (request p)) (arguments (request p)).

(** A grant goes back to a decision of the user since which its connection has
    not been closed. *)
Definition granted_in (l : list Event) (key : grant) : Prop :=
  exists l1 l2, l = l1 ++ Granted key :: l2 /\ ~ In (Disconnected key.1.1) l2.

Record inv (s : CapabilityRuntimeState) : Prop := {
  in_pending : map_Forall pending_ok (pending_approvals s);
  in_nodup : List.NoDup (approval_order s);
  in_order : forall x, In x (approval_order s) <-> is_Some (pending_approvals s !! x);
  in_grants : forall key, key ∈ session_grants s -> granted_in (log s) key
}.

Lemma granted_in_app l new key :
  granted_in l key -> ~ In (Disconnected key.1.1) new -> granted_in (l ++ new) key.
Proof.
  intros (l1 & l2 & -> & H) Hn. exists l1, (l2 ++ new). rewrite <- app_assoc. split; [done |].
  rewrite in_app_iff. tauto.
Qed.

Lemma inv_frame s s' new :
  inv s -> pending_approvals s' = pending_approvals s -> approval_order s' = approval_order s ->
  log s' = log s ++ new ->
  (forall key, key ∈ session_grants s' -> key ∈ session_grants s /\ ~ In (Disconnected key.1.1) new) ->
  inv s'.
Proof.
  intros [H1 H2 H3 H4] E1 E2 E3 Hg. constructor; rewrite ?E1, ?E2; try done.
  intros key Hk. destruct (Hg key Hk) as [Hk' Hn]. rewrite E3. apply granted_in_app; [by apply H4 | done].
Qed.

(** Events other than disconnections keep every grant. *)
Lemma inv_log s s' e :
  inv s -> pending_approvals s' = pending_approvals s -> approval_order s' = approval_order s ->
  session_grants s' = session_grants s -> log s' = log s ++ [e] ->
  match e with Disconnected _ => False | _ => True end -> inv s'.
Proof.
  intros Hi E1 E2 E3 E4 He. apply (inv_frame s s' [e]); try done. rewrite E3. intros key Hk. split; [done |].
  by intros [-> | []].
Qed.

Lemma inv_same s s' :
  inv s -> pending_approvals s' = pending_approvals s -> approval_order s' = approval_order s ->
  session_grants s' = session_grants s -> log s' = log s -> inv s'.
Proof.
  intros Hi E1 E2 E3 E4. apply (inv_frame s s' []); try done; [by rewrite app_nil_r | rewrite E3; tauto].
Qed.

Lemma inv_drop id s : inv s -> inv (drop_pending id s).
Proof.
  intros [H1 H2 H3 H4]. constructor; cbn; try done.
  - by apply map_Forall_delete.
  - by apply retain_ne_NoDup.
  - intros x. rewrite retain_ne_In, H3. destruct (decide (x = id)) as [-> | Hx].
    + rewrite lookup_delete_eq. split; [tauto | by intros [? ?]].
    + rewrite lookup_delete_ne by done. tauto.
Qed.

Lemma inv_prune now s : inv s -> inv (prune_cancelled now s).
Proof.
  intros [H1 H2 H3 H4]. constructor; cbn; try done.
  - intros x p Hp. apply map_lookup_filter_Some in Hp as [Hp _]. by apply H1.
  - by apply List.NoDup_filter.
  - intros x. rewrite filter_In, bool_decide_eq_true, H3. split; [tauto |]. intros Hx. split; [| done].
    destruct Hx as [p Hp]. apply map_lookup_filter_Some in Hp as [Hp _]. by exists p.
Qed.

Lemma inv_queue p s : inv s -> pending_ok (a_request_id (approval p)) p -> inv (queue_approval p s).
Proof.
  intros [H1 H2 H3 H4] Hp. set (i := a_request_id (approval p)) in *. constructor; cbn; fold i; try done.
  - by apply map_Forall_insert_2.
  - destruct (pending_approvals s !! i) eqn:E; [done |].
    apply (Permutation_NoDup (l := i :: approval_order s)); [by apply Permutation_cons_append |].
    constructor; [| done]. rewrite H3, E. by intros [? ?].
  - intros x. destruct (decide (x = i)) as [-> | Hx].
    + rewrite lookup_insert_eq. split; [by intros _; eexists |]. intros _.
      destruct (pending_approvals s !! i) eqn:E; [apply H3; by rewrite E |]. apply in_app_iff. right. by left.
    + rewrite lookup_insert_ne by done. rewrite <- H3. destruct (pending_approvals s !! i); [done |].
      rewrite in_app_iff. cbn. intuition congruence.
Qed.

Lemma inv_fold {A} (f : CapabilityRuntimeState -> A -> CapabilityRuntimeState) l s :
  (forall s x, inv s -> inv (f s x)) -> inv s -> inv (fold_left f l s).
Proof. intros H. revert s. induction l as [| x l IH]; intros s Hs; cbn; [done |]. apply IH, H, Hs. Qed.

Lemma inv_reply id code s : inv s -> inv (reply id code s).
Proof. intros H. by apply (inv_log s _ (Replied id (bs code))). Qed.

Lemma inv_cancel_open conn p s : inv s -> inv (cancel_open conn p s).
Proof. intros H. by apply (inv_log s _ (Replied (host_request_id p) (bs "cancelled"))). Qed.

Lemma inv_authorize env def r s : inv s -> inv (authorize env def r s).
Proof.
  intros Hi. unfold authorize. set (s1 := Runtime _ _ _ _ _ _ _ _ _).
  set (r' := if bool_decide _ && _ then _ else r). clearbody r'.
  assert (H1 : inv s1) by (by apply (inv_same s)).
  destruct (request_policy env def r').
  - by apply (inv_log s1 _ (Executed r')).
  - destruct (negb (approved r') && negb (session_granted env def r' s1)) eqn:E.
    + apply inv_queue; [done |]. apply andb_true_iff in E as [E _]. apply negb_true_iff in E. done.
    + by apply (inv_log s1 _ (Executed r')).
  - apply inv_reply. by apply (inv_same s1).
Qed.

Lemma inv_reject r code s : inv s -> inv (reject r code s).
Proof. intros H. apply inv_reply. by apply (inv_same s). Qed.

Lemma inv_dispatch env r s : inv s -> inv (dispatch_capability_request env r s).
Proof.
  intros H. unfold dispatch_capability_request. generalize (native_mode env r) as r'. intros r'.
  repeat case_match; first [by apply inv_reject | by apply inv_authorize].
Qed.

Lemma inv_grant key s s' :
  inv s -> pending_approvals s' = pending_approvals s -> approval_order s' = approval_order s ->
  session_grants s' = {[key]} ∪ session_grants s -> log s' = log s ++ [Granted key] -> inv s'.
Proof.
  intros [H1 H2 H3 H4] E1 E2 E3 E4. constructor; rewrite ?E1, ?E2, ?E3, ?E4; try done.
  intros k Hk. apply elem_of_union in Hk as [Hk | Hk].
  - apply elem_of_singleton in Hk as ->. exists (log s), []. by split; [| intros []].
  - apply granted_in_app; [by apply H4 | by intros [? | []]].
Qed.

Lemma inv_decide now id d s : inv s -> inv (fst (decide_approval now id d s)).
Proof.
  intros H. unfold decide_approval. apply (inv_prune now) in H. set (s1 := prune_cancelled now s) in *. clearbody s1.
  destruct (pending_approvals s1 !! id) as [p |]; [| done]. apply (inv_drop id) in H.
  set (s2 := drop_pending id s1) in *. clearbody s2.
  destruct (is_cancelled _ _); [done |]. destruct d; cbn [fst]; [by apply (inv_same s2) | done |].
  destruct (allow_session (approval p)), (grant_key p) as [key |]; try done. by apply (inv_grant key s2).
Qed.

(** ** Disconnection *)

(** The parts of [connection_disconnected] that remove requests keep the
    invariant; the last part drops the grants of the connection. *)
Lemma inv_disconnected conn s : inv s -> inv (fst (connection_disconnected conn s)).
Proof.
  intros H. unfold connection_disconnected. cbn [fst].
  set (s0 := Runtime _ _ _ _ (delete conn (outputs s)) _ _ _ _).
  assert (H0 : inv s0) by (by apply (inv_same s)). clearbody s0.
  set (s1 := fold_left _ (active_of conn s0) s0).
  assert (H1 : inv s1) by (apply inv_fold; [intros s' kv Hs'; by apply (inv_same s') | done]). clearbody s1.
  set (s2 := fold_left _ (pending_of conn s1) s1).
  assert (H2 : inv s2).
  { apply inv_fold; [| done]. intros s' kv Hs'. apply (inv_drop kv.1) in Hs'. by apply (inv_same (drop_pending kv.1 s')). }
  clearbody s2. set (s3 := fold_left _ (opens_of conn s2) s2).
  assert (H3 : inv s3) by (apply inv_fold; [intros; by apply inv_cancel_open | done]). clearbody s3.
  apply (inv_frame s3 _ [Disconnected conn]); try done. cbn. intros key Hk.
  apply elem_of_filter in Hk as [Hk Hin]. split; [done |]. intros [E | []]. congruence.
Qed.

Lemma inv_reply_all code rs s : inv s -> inv (reply_all code rs s).
Proof. apply inv_fold. intros. by apply inv_reply. Qed.

Lemma inv_handle_disconnect conn s : inv s -> inv (handle_mcp_disconnect conn s).
Proof.
  intros H. unfold handle_mcp_disconnect. pose proof (inv_disconnected conn s H) as Hd.
  destruct (connection_disconnected conn s) as [s' rs]. by apply inv_reply_all.
Qed.

Lemma inv_handle_cancel id s : inv s -> inv (handle_pending_mcp_cancel id s).
Proof.
  intros H. unfold handle_pending_mcp_cancel, request_cancelled.
  set (s1 := match active_requests s !! id with Some (_, token) => _ | None => s end).
  assert (H1 : inv s1) by (unfold s1; repeat case_match; try done; by apply (inv_same s)). clearbody s1.
  pose proof (inv_drop id s1 H1) as H2. set (s2 := drop_pending id s1) in *. clearbody s2.
  destruct (pending_approvals s1 !! id) as [p |]; cbn beta iota; apply inv_reply_all;
    (destruct (List.find _ _) as [[conn o] |]; [apply inv_cancel_open |]); try done; by apply (inv_same s2).
Qed.

Lemma inv_run env op s : inv s -> inv (run env op s).
Proof.
  intros H. destruct op; cbn [run].
  - by apply inv_dispatch.
  - unfold respond_to_mcp_approval. pose proof (inv_decide now id d s H) as Hd.
    destruct (decide_approval now id d s) as [s' [[r | r] |]]; cbn [fst] in Hd;
      [by apply inv_dispatch | by apply inv_reply | done].
  - by apply inv_handle_cancel.
  - by apply inv_handle_disconnect.
  - apply inv_fold; [| done]. intros. by apply inv_handle_disconnect.
  - by apply (inv_same s).
  - by apply (inv_same s).
  - by apply inv_prune.
  - by apply (inv_same s).
  - unfold complete_session_open. repeat case_match; try done; [by apply (inv_same s) |].
    apply inv_reply. by apply (inv_same s).
  - unfold protect_output. repeat case_match; try done; by apply (inv_same s).
  - unfold read_output. repeat case_match; try done; by apply (inv_same s).
Qed.

Lemma reachable_inv s : rtc step initial s -> inv s.
Proof.
  revert s. refine (rtc_ind_r (R := step) inv initial _ _).
  - constructor; cbn; try done; [constructor |]. intros x. rewrite lookup_empty. split; [done | by intros [? ?]].
  - intros s1 s2 _ [env op _ ->] H. by apply inv_run.
Qed.

(** ** Authorization *)

(** The arguments the caller gave: those of the submitted request, or of the
    request whose card is being answered. *)
Definition submitted (op : Op) (s : CapabilityRuntimeState) (given : Arguments) : Prop :=
  match op with
  | Submit r0 => given = arguments r0
  | Decide _ id _ => exists p, pending_approvals s !! id = Some p /\ given = arguments (request p)
  | _ => False
  end.

(** The authority on which the call [r] reaches its tool when [op] is run in the
    state [s]: the caller and its run are live and the request is not cancelled;
    the arguments the caller gave are valid for the tool, and the call carries
    them, with at most the resolved session filled in;
    a tool that works on a session is given a live session within the caller's
    scope on which the agent may run commands; and the policy allows the call,
    or it asks and the user has just allowed this very request, on a card that
    shows its tool and parameters, or an earlier grant of the user still covers
    it and the call is neither destructive, critical, nor to be confirmed each
    time. *)
Record authorized (env : Env) (op : Op) (s : CapabilityRuntimeState) (r : CapabilityRequest) (def : McpToolDefinition) : Prop := {
  au_def : definition_for_tool (tool_of r) = Some def;
  au_caller : match caller r with
              | Mcp => generation_matches env (generation r) = true
              | Native run session _ => native_run_is_live env run session = true
              end;
  au_token : cancellation r ∉ cancelled s;
  au_args : exists given, submitted op s given /\ validate_tool_arguments (tool_of r) given = Ok tt
    /\ filled_in def given r;
  au_session : requires_session def = true ->
    exists c, In c (mcp_live_sessions env) /\ covers (scope r) c /\ session_id (arguments r) = Some (id c)
      /\ (tool_of r = tool.TERMINAL_EXECUTE -> ai_disabled env (id c) = false);
  au_policy : request_policy env def r = Allow
    \/ (request_policy env def r = RequireApproval
        /\ ((exists now d p, op = Decide now (request_id r) d /\ d <> Deny'
               /\ pending_approvals s !! request_id r = Some p /\ a_capability (approval p) = tool_of r
               /\ parameter_summary (approval p) = mcp_parameter_summary (tool_of r) (arguments r))
            \/ (single_approval def r = false /\ confirm_each env r = false
                /\ exists key, mcp_grant_key env r = Some key /\ granted_in (log s) key)))
}.

Lemma decide_dispatch now id d s s1 r :
  inv s -> decide_approval now id d s = (s1, Some (Dispatch r)) ->
  d <> Deny' /\ quiet s s1 /\ cancelled s1 = cancelled s /\ request_id r = id
  /\ exists p, pending_approvals s !! id = Some p /\ a_capability (approval p) = tool_of r
      /\ parameter_summary (approval p) = mcp_parameter_summary (tool_of r) (arguments r)
      /\ arguments r = arguments (request p).
Proof.
  intros Hi E. pose proof (decide_approval_quiet now id d s) as Hq. rewrite E in Hq. unfold decide_approval in E.
  destruct (pending_approvals (prune_cancelled now s) !! id) as [p |] eqn:Ep; [| done].
  destruct (is_cancelled _ _); [done |].
  apply map_lookup_filter_Some in Ep as [Ep _]. destruct (in_pending s Hi id p Ep) as (P1 & P2 & P3 & P4 & P5).
  destruct d; [done | |]; injection E as <- <-;
    (split_and!; [done | done | by repeat case_match | done | by exists p]).
Qed.

Lemma submit_authorized env r0 r def s :
  inv s -> fresh_request r0 -> passed env r0 r def s -> authorized env (Submit r0) s r def.
Proof.
  intros Hi [Hf _] [H1 H2 H3 H4 H5 H6 H7]. constructor; try done; [by exists (arguments r0) |].
  destruct H5 as [H5 | [H5 [H5' | (G1 & G2 & key & G3 & G4)]]]; [by left | congruence |].
  right. split; [done |]. right. split_and!; [done | done |]. exists key. split; [done |]. by apply in_grants.
Qed.

Lemma decide_authorized env now d s s1 r0 r def :
  inv s -> decide_approval now (request_id r0) d s = (s1, Some (Dispatch r0)) -> passed env r0 r def s1 ->
  authorized env (Decide now (request_id r0) d) s r def.
Proof.
  intros Hi E [H1 H2 H3 H4 H5 (S1 & S2 & S3 & S4 & S5) H7].
  destruct (decide_dispatch now (request_id r0) d s s1 r0 Hi E) as (D1 & _ & D2 & _ & p & P1 & P2 & P3 & P4).
  rewrite D2 in H3. constructor; try done.
  { exists (arguments r0). split; [by exists p | done]. }
  destruct H5 as [H5 | [H5 _]]; [by left |]. right. split; [done |]. left. exists now, d, p.
  rewrite S1. split_and!; [done | done | done | by rewrite S3 | congruence].
Qed.

Lemma run_executes env op s :
  inv s -> op_ok op ->
  quiet s (run env op s)
  \/ exists r def new, log (run env op s) = log s ++ new ++ [Executed r] /\ Forall no_exec new /\ authorized env op s r def.
Proof.
  intros Hi Hop. destruct op; cbn [run].
  - destruct (dispatch_passed env r s) as [H | (r' & def & H1 & H2)]; [by left |].
    right. exists r', def, []. split_and!; [done | constructor | by apply submit_authorized].
  - unfold respond_to_mcp_approval. destruct (decide_approval now id d s) as [s1 o] eqn:E.
    pose proof (decide_approval_quiet now id d s) as Hq. rewrite E in Hq. cbn [fst] in Hq.
    destruct o as [[r0 | r0] |]; [| left; eapply quiet_trans; [done | by eapply quiet_record] | by left].
    destruct (decide_dispatch now id d s s1 r0 Hi E) as (_ & _ & _ & <- & _).
    destruct (dispatch_passed env r0 s1) as [H | (r' & def & H1 & H2)]; [left; by eapply quiet_trans |].
    right. destruct Hq as (new & El & Hn). exists r', def, new. rewrite H1, El, <- app_assoc.
    split_and!; [done | done | by eapply decide_authorized].
  - left. apply handle_cancel_quiet.
  - left. apply handle_disconnect_quiet.
  - left. apply quiet_fold. intros. apply handle_disconnect_quiet.
  - left. by apply quiet_refl.
  - left. by apply quiet_refl.
  - left. by apply quiet_refl.
  - left. by apply quiet_refl.
  - left. unfold complete_session_open. repeat case_match; try (by apply quiet_refl). by eapply quiet_record.
  - left. unfold protect_output. repeat case_match; by apply quiet_refl.
  - left. unfold read_output. repeat case_match; by apply quiet_refl.
Qed.


(** A command that needs approval, and the user's answer to its card. *)
Module Demo.
Definition env : Env :=
  MkEnv ConfirmEach Low (fun _ => true) (fun _ _ => true) [Session (bs "s1") (Some (bs "main")) true] (fun _ => false)
    (fun _ => []).
Definition req : CapabilityRequest :=
  Request (bs "c1") (bs "q1") (bs "g") (bs "client") Auto AllSessions tool.TERMINAL_EXECUTE
    (Args None None (Some (bs "reboot")) None None None None None None None None None None None None None None false)
    0 false None Mcp.
Definition waiting : CapabilityRuntimeState := run env (Submit req) initial.
Definition answer : Op := Decide 0 (bs "q1") AllowSession.
Definition executed : CapabilityRequest :=
  with_approval true (Some (bs "allow_once")) (with_arguments (set_session_id (bs "s1") (arguments req)) req).
End Demo.


(** ** What a disconnected caller loses *)
Lemma fold_proj {S T A} (g : S -> T) (f : S -> A -> S) (f' : T -> A -> T) l s :
  (forall s x, g (f s x) = f' (g s) x) -> g (fold_left f l s) = fold_left f' l (g s).
Proof. intros H. revert s. induction l as [| x l IH]; intros s; cbn; [done |]. by rewrite IH, H. Qed.

Lemma fold_same {S T A} (g : S -> T) (f : S -> A -> S) l s :
  (forall s x, g (f s x) = g s) -> g (fold_left f l s) = g s.
Proof. intros H. revert s. induction l as [| x l IH]; intros s; cbn; [done |]. by rewrite IH, H. Qed.

Lemma fold_delete {A} (l : list (list Z * A)) (m : gmap (list Z) A) x :
  fold_left (fun m kv => delete kv.1 m) l m !! x = if bool_decide (x ∈ l.*1) then None else m !! x.
Proof.
  revert m. induction l as [| kv l IH]; intros m; cbn [fold_left]; [done |]. rewrite IH, fmap_cons.
  destruct (decide (x ∈ l.*1)) as [Hx | Hx].
  - rewrite !bool_decide_eq_true_2; [done | by right | done].
  - rewrite (bool_decide_eq_false_2 (x ∈ l.*1)) by done. destruct (decide (x = kv.1)) as [-> | Hn].
    + rewrite bool_decide_eq_true_2 by left. by rewrite lookup_delete_eq.
    + rewrite bool_decide_eq_false_2; [by rewrite lookup_delete_ne |]. rewrite elem_of_cons. tauto.
Qed.

Lemma fold_cancel {A} (f : A -> nat) l (c : gset nat) t :
  t ∈ fold_left (fun c x => {[f x]} ∪ c) l c <-> t ∈ c \/ exists x, x ∈ l /\ f x = t.
Proof.
  revert c. induction l as [| x l IH]; intros c; cbn [fold_left].
  { split; [by left |]. intros [? | (x & Hx & _)]; [done |]. by apply not_elem_of_nil in Hx. }
  rewrite IH, elem_of_union, elem_of_singleton. setoid_rewrite elem_of_cons. split.
  - intros [[-> | H] | (y & H & E)]; [right; exists x; auto | auto | right; exists y; auto].
  - intros [H | (y & [-> | H] & E)]; [auto | auto | right; by exists y].
Qed.

(** The entries of a map that satisfy a test, taken out one by one. *)
Lemma selected_elem {A} (f : list Z * A -> bool) (m : gmap (list Z) A) k v :
  (k, v) ∈ List.filter f (map_to_list m) <-> m !! k = Some v /\ f (k, v) = true.
Proof. by rewrite list_elem_of_In, filter_In, <- list_elem_of_In, elem_of_map_to_list. Qed.

Lemma delete_selected {A} (f : list Z * A -> bool) (m : gmap (list Z) A) x v :
  fold_left (fun m kv => delete kv.1 m) (List.filter f (map_to_list m)) m !! x = Some v
  <-> m !! x = Some v /\ f (x, v) = false.
Proof.
  rewrite fold_delete. case_bool_decide as Hx.
  - split; [done |]. intros [H1 H2]. apply list_elem_of_fmap in Hx as ([k v'] & -> & Hin). cbn in *.
    apply selected_elem in Hin as [H3 H4]. congruence.
  - split; [| tauto]. intros H. split; [done |]. apply not_true_iff_false. intros Hf. apply Hx.
    apply list_elem_of_fmap. exists (x, v). split; [done |]. by apply selected_elem.
Qed.

(** The state behind a disconnection, field by field. *)
Lemma disconnected_fields conn s :
  let s' := fst (connection_disconnected conn s) in
  (forall x p, pending_approvals s' !! x = Some p
               <-> pending_approvals s !! x = Some p /\ connection_id (request p) <> conn)
  /\ (forall x o, active_requests s' !! x = Some o <-> active_requests s !! x = Some o /\ o.1 <> conn)
  /\ (forall x o, pending_session_opens s' !! x = Some o
                  <-> pending_session_opens s !! x = Some o /\ client_connection_id o <> conn)
  /\ (forall key, key ∈ session_grants s' <-> key ∈ session_grants s /\ key.1.1 <> conn)
  /\ outputs s' = delete conn (outputs s) /\ owners s' = delete conn (owners s).
Proof.
  unfold connection_disconnected. cbn [fst].
  set (s0 := Runtime _ _ _ _ (delete conn (outputs s)) _ _ _ _).
  set (f1 := fun (s : CapabilityRuntimeState) (kv : list Z * (list Z * nat)) => cancel kv.2.2 (remove_active kv.1 s)).
  set (s1 := fold_left f1 (active_of conn s0) s0).
  set (f2 := fun (s : CapabilityRuntimeState) (kv : list Z * PendingCapabilityApproval) =>
               cancel (cancellation (request kv.2)) (drop_pending kv.1 s)).
  set (s2 := fold_left f2 (pending_of conn s1) s1).
  set (f3 := fun (s : CapabilityRuntimeState) (kv : list Z * PendingCapabilitySessionOpen) => cancel_open kv.1 kv.2 s).
  set (s3 := fold_left f3 (opens_of conn s2) s2). cbn [record pending_approvals active_requests pending_session_opens session_grants outputs owners].
  assert (Hb : forall a b : list Z, beq a b = false <-> a <> b).
  { intros a b. unfold beq. by rewrite bool_decide_eq_false. }
  split_and!.
  - intros x p. unfold s3. rewrite (fold_same pending_approvals f3) by done. unfold s2.
    rewrite (fold_proj pending_approvals f2 (fun m kv => delete kv.1 m)) by done. unfold pending_of.
    rewrite delete_selected, Hb. unfold s1. rewrite (fold_same pending_approvals f1) by done. done.
  - intros x o. unfold s3. rewrite (fold_same active_requests f3) by done. unfold s2.
    rewrite (fold_same active_requests f2) by done. unfold s1.
    rewrite (fold_proj active_requests f1 (fun m kv => delete kv.1 m)) by done. unfold active_of.
    by rewrite delete_selected, Hb.
  - intros x o. unfold s3. rewrite (fold_proj pending_session_opens f3 (fun m kv => delete kv.1 m)) by done.
    unfold opens_of. rewrite delete_selected, Hb. unfold s2. rewrite (fold_same pending_session_opens f2) by done.
    unfold s1. by rewrite (fold_same pending_session_opens f1).
  - intros key. rewrite elem_of_filter. unfold s3. rewrite (fold_same session_grants f3) by done. unfold s2.
    rewrite (fold_same session_grants f2) by done. unfold s1. rewrite (fold_same session_grants f1) by done. tauto.
  - unfold s3. rewrite (fold_same outputs f3) by done. unfold s2. rewrite (fold_same outputs f2) by done.
    unfold s1. by rewrite (fold_same outputs f1).
  - unfold s3. rewrite (fold_same owners f3) by done. unfold s2. rewrite (fold_same owners f2) by done.
    unfold s1. by rewrite (fold_same owners f1).
Qed.

Lemma disconnected_cancels conn s t :
  (exists x, active_requests s !! x = Some (conn, t))
  \/ (exists x p, pending_approvals s !! x = Some p /\ connection_id (request p) = conn /\ cancellation (request p) = t) ->
  t ∈ cancelled (fst (connection_disconnected conn s)).
Proof.
  intros H. unfold connection_disconnected. cbn [fst].
  set (s0 := Runtime _ _ _ _ (delete conn (outputs s)) _ _ _ _).
  set (f1 := fun (s : CapabilityRuntimeState) (kv : list Z * (list Z * nat)) => cancel kv.2.2 (remove_active kv.1 s)).
  set (s1 := fold_left f1 (active_of conn s0) s0).
  set (f2 := fun (s : CapabilityRuntimeState) (kv : list Z * PendingCapabilityApproval) =>
               cancel (cancellation (request kv.2)) (drop_pending kv.1 s)).
  set (s2 := fold_left f2 (pending_of conn s1) s1).
  set (f3 := fun (s : CapabilityRuntimeState) (kv : list Z * PendingCapabilitySessionOpen) => cancel_open kv.1 kv.2 s).
  cbn [record cancelled].
  rewrite (fold_proj cancelled f3 (fun c kv => {[o_cancellation kv.2]} ∪ c)) by done. apply fold_cancel. left.
  unfold s2. rewrite (fold_proj cancelled f2 (fun c kv => {[cancellation (request kv.2)]} ∪ c)) by done. apply fold_cancel.
  destruct H as [(x & Hx) | (x & p & Hp & Hc & <-)].
  - left. unfold s1. rewrite (fold_proj cancelled f1 (fun c kv => {[kv.2.2]} ∪ c)) by done. apply fold_cancel.
    right. exists (x, (conn, t)). split; [| done]. apply selected_elem. split; [done |]. apply beq_refl.
  - right. exists (x, p). split; [| done]. apply selected_elem. unfold s1.
    rewrite (fold_same pending_approvals f1) by done. split; [done |]. cbn. rewrite Hc. apply beq_refl.
Qed.

Lemma reply_all_log code rs s : log (reply_all code rs s) = log s ++ map (fun r => Replied (request_id r) (bs code)) rs.
Proof.
  unfold reply_all. revert s. induction rs as [| r rs IH]; intros s; cbn [fold_left map]; [by rewrite app_nil_r |].
  rewrite IH. cbn. by rewrite <- app_assoc.
Qed.

Lemma disconnected_removed conn s x p :
  pending_approvals s !! x = Some p -> connection_id (request p) = conn ->
  In (request p) (snd (connection_disconnected conn s)).
Proof.
  intros Hp Hc. unfold connection_disconnected. cbn [snd]. apply in_map_iff. exists (x, p). split; [done |].
  apply list_elem_of_In, selected_elem. split; [| cbn; rewrite Hc; apply beq_refl].
  by rewrite (fold_same pending_approvals).
Qed.

(** When a caller disconnects (or its credential expires), everything it
    held ends and nothing of others does: its pending approvals, session grants,
    active requests, session openings and stored output are gone, the tokens of
    its active and pending requests are cancelled, each of its pending requests
    is answered, and every entry of another connection is kept. *)
Theorem capability_disconnect_revokes conn s :
  let s' := handle_mcp_disconnect conn s in
  (forall x p, pending_approvals s' !! x = Some p
               <-> pending_approvals s !! x = Some p /\ connection_id (request p) <> conn)
  /\ (forall x o, active_requests s' !! x = Some o <-> active_requests s !! x = Some o /\ o.1 <> conn)
  /\ (forall x o, pending_session_opens s' !! x = Some o
                  <-> pending_session_opens s !! x = Some o /\ client_connection_id o <> conn)
  /\ (forall key, key ∈ session_grants s' <-> key ∈ session_grants s /\ key.1.1 <> conn)
  /\ outputs s' = delete conn (outputs s) /\ owners s' = delete conn (owners s)
  /\ (forall x t, active_requests s !! x = Some (conn, t) -> t ∈ cancelled s')
  /\ (forall x p, pending_approvals s !! x = Some p -> connection_id (request p) = conn ->
        cancellation (request p) ∈ cancelled s' /\ In (Replied (request_id (request p)) (bs "cancelled")) (log s')).
Proof.
  cbn zeta. unfold handle_mcp_disconnect. pose proof (disconnected_fields conn s) as HF. cbn zeta in HF.
  pose proof (disconnected_cancels conn s) as HC. pose proof (disconnected_removed conn s) as HR.
  destruct (connection_disconnected conn s) as [s1 rs]. cbn [fst snd] in *.
  assert (E : forall {T} (g : CapabilityRuntimeState -> T),
    (forall s id code, g (reply id code s) = g s) -> g (reply_all "cancelled" rs s1) = g s1).
  { intros T g Hg. unfold reply_all. apply fold_same. intros. apply Hg. }
  rewrite (E _ pending_approvals), (E _ active_requests), (E _ pending_session_opens), (E _ session_grants),
    (E _ outputs), (E _ owners), (E _ cancelled) by done.
  destruct HF as (F1 & F2 & F3 & F4 & F5 & F6). split_and!; try done.
  - intros x t Hx. apply HC. left. by exists x.
  - intros x p Hp Hc. split; [apply HC; right; by exists x, p |]. rewrite reply_all_log. apply in_app_iff. right.
    apply in_map_iff. exists (request p). split; [done | by apply (HR x)].
Qed.
