(* ===== verification/Prompt.v ===== *)
(** Recognition of shell prompts in front of a command
    (zzclawterm-core/src/terminal/input_tracker.rs, the prefix matchers and
    [sanitize_terminal_command]). The regular expressions are the source's; the
    engine that runs them is a third-party crate and therefore an interface
    ([PromptMatchers]) with what its documentation promises of a match. A
    backtracking matcher of the patterns is an instance of it. *)
From stdpp Require Import base list numbers strings.
From Stdlib Require Import ZArith Lia.
From S2P Require Import Prelude Text Boundary.

Inductive PromptPattern :=
  leading_env_prefix | bracket_prompt_prefix | posix_prompt_prefix | powershell_prompt_prefix
  | windows_prompt_prefix | simple_prompt_prefix.

(** ** The patterns *)
Inductive Pattern :=
| One (f : list Z -> bool)
| Star (f : list Z -> bool)
| Seq (p q : Pattern)
| Opt (p : Pattern).

Definition lit (b : Z) : Pattern := One (fun c => beq c [b]).
Definition among (bytes : list Z) (c : list Z) : bool := existsb (fun b => beq c [b]) bytes.
Definition except (bytes : list Z) (c : list Z) : bool := negb (among bytes c).
Definition plus (f : list Z -> bool) : Pattern := Seq (One f) (Star f).
Definition letter (c : list Z) : bool :=
  match c with [b] => ((65 <=? b) && (b <=? 90)) || ((97 <=? b) && (b <=? 122)) | _ => false end.

Fixpoint in_sequence (ps : list Pattern) (last : Pattern) : Pattern :=
  match ps with [] => last | p :: ps' => Seq p (in_sequence ps' last) end.

(** All are anchored at the start of the text. *)
Definition pattern_of (p : PromptPattern) : Pattern :=
  let spaces := Star is_whitespace in
  match p with
  | leading_env_prefix => in_sequence [lit 40; plus (except [40; 41; 13; 10]); lit 41] spaces
  | bracket_prompt_prefix =>
      in_sequence [lit 91; plus (except [93; 13; 10]); lit 93; spaces; One (among [35; 36])] spaces
  | posix_prompt_prefix =>
      in_sequence [plus (fun c => negb (is_whitespace c) && except [64] c); lit 64;
                   plus (fun c => negb (is_whitespace c) && except [58] c); lit 58;
                   Star (except [35; 36; 13; 10]); One (among [35; 36])] spaces
  | powershell_prompt_prefix =>
      in_sequence [lit 80; lit 83; plus is_whitespace; plus (except [62; 13; 10]); lit 62] spaces
  | windows_prompt_prefix =>
      in_sequence [One letter; lit 58; Opt (Seq (One (among [92; 47])) (Star (except [62; 13; 10]))); lit 62] spaces
  | simple_prompt_prefix => Seq (One (among [35; 36])) (plus is_whitespace)
  end.

(** ** What the sources rely on *)
Class PromptMatchers := {
  (** The end of the match at the start of the text, if there is one. *)
  find_end : PromptPattern -> list Z -> option nat;
  find_end_boundary p s e : utf8_valid s = true -> find_end p s = Some e -> is_char_boundary s e = true;
  find_end_env s e : find_end leading_env_prefix s = Some e -> (0 < e)%nat;
}.

Section Prompt.
Context `{PromptMatchers}.

(** The loop that strips prefixes such as a virtual environment's; every match
    consumes a character. *)
Fixpoint strip_env_loop (fuel : nat) (remaining : list Z) : list Z :=
  match fuel with
  | O => remaining
  | S fuel' =>
      match find_end leading_env_prefix remaining with
      | Some e => strip_env_loop fuel' (drop e remaining)
      | None => remaining
      end
  end.
Definition strip_leading_env_prefixes (input : list Z) : list Z := strip_env_loop (S (length input)) input.

Fixpoint strip_first (matchers : list PromptPattern) (input : list Z) : list Z :=
  match matchers with
  | [] => input
  | m :: ms => match find_end m input with Some e => drop e input | None => strip_first ms input end
  end.
Definition strip_known_prompt_prefix (input : list Z) : list Z :=
  strip_first [bracket_prompt_prefix; posix_prompt_prefix; powershell_prompt_prefix; windows_prompt_prefix;
               simple_prompt_prefix] input.

Definition strip_terminal_command_prompt (input : list Z) : list Z :=
  let without_leading := trim_start input in
  if beq (trim without_leading) [] then []
  else strip_known_prompt_prefix (strip_leading_env_prefixes without_leading).

Definition sanitize_terminal_command (input : list Z) : list Z := trim (strip_terminal_command_prompt input).

(** ** Lemmas *)
Lemma strip_env_valid fuel s : utf8_valid s = true -> utf8_valid (strip_env_loop fuel s) = true.
Proof.
  revert s. induction fuel as [| fuel IH]; intros s Hv; cbn [strip_env_loop]; [done |].
  destruct (find_end _ s) as [e |] eqn:E; [| done]. apply IH.
  by apply (boundary_cut s e Hv), (find_end_boundary _ _ _ Hv E).
Qed.

Lemma strip_first_valid ms s : utf8_valid s = true -> utf8_valid (strip_first ms s) = true.
Proof.
  intros Hv. induction ms as [| m ms IH]; cbn [strip_first]; [done |].
  destruct (find_end m s) as [e |] eqn:E; [| done].
  by apply (boundary_cut s e Hv), (find_end_boundary _ _ _ Hv E).
Qed.

Lemma strip_prompt_valid s : utf8_valid s = true -> utf8_valid (strip_terminal_command_prompt s) = true.
Proof.
  intros Hv. unfold strip_terminal_command_prompt. destruct (beq _ []); [done |].
  by apply strip_first_valid, strip_env_valid, trim_start_valid.
Qed.

Lemma sanitize_valid s : utf8_valid s = true -> utf8_valid (sanitize_terminal_command s) = true.
Proof. intros Hv. by apply trim_valid, strip_prompt_valid. Qed.

Lemma strip_env_length fuel s : (length (strip_env_loop fuel s) <= length s)%nat.
Proof.
  revert s. induction fuel as [| fuel IH]; intros s; cbn [strip_env_loop]; [done |].
  destruct (find_end _ s) as [e |]; [| done]. etrans; [apply IH |]. rewrite length_drop. lia.
Qed.

Lemma strip_first_length ms s : (length (strip_first ms s) <= length s)%nat.
Proof.
  induction ms as [| m ms IH]; cbn [strip_first]; [done |].
  destruct (find_end m s); [rewrite length_drop; lia | done].
Qed.

Lemma sanitize_length s : (length (sanitize_terminal_command s) <= length s)%nat.
Proof.
  unfold sanitize_terminal_command. etrans; [apply trim_length |]. unfold strip_terminal_command_prompt.
  destruct (beq _ []); [cbn; lia |]. etrans; [apply strip_first_length |].
  etrans; [apply strip_env_length | apply trim_start_length].
Qed.

(** The fuel of the loop is enough: it ends at a text without the prefix. *)
Lemma strip_env_done fuel s :
  utf8_valid s = true -> (length s < fuel)%nat ->
  find_end leading_env_prefix (strip_env_loop fuel s) = None.
Proof.
  revert s. induction fuel as [| fuel IH]; intros s Hv Hf; [lia |]. cbn [strip_env_loop].
  destruct (find_end _ s) as [e |] eqn:E; [| done]. pose proof (find_end_env _ _ E) as He.
  pose proof (find_end_boundary _ _ _ Hv E) as Hb. apply IH; [by apply (boundary_cut s e Hv) |].
  apply boundary_le in Hb. rewrite length_drop. lia.
Qed.
End Prompt.

(** ** A matcher of the patterns *)
Module Backtrack.

Fixpoint star (f : list Z -> bool) (k : list (list Z) -> option (list (list Z))) (cs : list (list Z)) :
    option (list (list Z)) :=
  match cs with
  | c :: cs' => if f c then match star f k cs' with Some r => Some r | None => k cs end else k cs
  | [] => k []
  end.

(** Greedy matching with backtracking; the answer is what is left behind the match. *)
Fixpoint run (p : Pattern) (k : list (list Z) -> option (list (list Z))) (cs : list (list Z)) :
    option (list (list Z)) :=
  match p with
  | One f => match cs with c :: cs' => if f c then k cs' else None | [] => None end
  | Star f => star f k cs
  | Seq p q => run p (run q k) cs
  | Opt p => match run p k cs with Some r => Some r | None => k cs end
  end.

Definition find (p : PromptPattern) (s : list Z) : option nat :=
  (fun rest => (clen (chars s) - clen rest)%nat) <$> run (pattern_of p) Some (chars s).

Definition suffix_of (k : list (list Z) -> option (list (list Z))) : Prop :=
  forall cs r, k cs = Some r -> exists n, r = drop n cs.

Lemma suffix_tail (c : list Z) cs r : (exists n, r = drop n cs) -> exists n, r = drop n (c :: cs).
Proof. intros [n ->]. by exists (S n). Qed.

Lemma star_suffix f k : suffix_of k -> suffix_of (star f k).
Proof.
  intros Hk cs. induction cs as [| c cs IH]; intros r; cbn [star]; [apply Hk |].
  destruct (f c); [| apply Hk]. destruct (star f k cs) as [r' |] eqn:E; [| apply Hk].
  intros [= <-]. by apply suffix_tail, IH.
Qed.

Lemma run_suffix p k : suffix_of k -> suffix_of (run p k).
Proof.
  revert k. induction p as [f | f | p IHp q IHq | p IH]; intros k Hk; cbn [run].
  - intros [| c cs] r; [done |]. destruct (f c); [| done]. intros E. by apply suffix_tail, Hk.
  - by apply star_suffix.
  - by apply IHp, IHq.
  - intros cs r. destruct (run p k cs) eqn:E; [intros [= <-]; by apply (IH k Hk) | apply Hk].
Qed.

Lemma id_suffix : suffix_of Some.
Proof. intros cs r [= <-]. by exists 0%nat. Qed.

Lemma find_split p s e : find p s = Some e -> exists n, run (pattern_of p) Some (chars s) = Some (drop n (chars s))
  /\ e = clen (take n (chars s)).
Proof.
  unfold find. destruct (run _ _ _) as [r |] eqn:E; [| done]. intros [= <-].
  destruct (run_suffix _ _ id_suffix _ _ E) as [n ->]. exists n. split; [done |].
  rewrite <- (take_drop n (chars s)) at 1. rewrite clen_app. lia.
Qed.

#[export, refine] Instance prompt_matchers : PromptMatchers := {| find_end := find |}.
Proof.
  - intros p s e Hv E. destruct (find_split p s e E) as (n & _ & ->). by apply boundary_nth.
  - intros s e E. destruct (find_split _ s e E) as (n & Er & ->). cbn [pattern_of in_sequence run lit] in Er.
    pose proof (chars_nonempty s) as Hne. destruct (chars s) as [| c cs]; [done |].
    destruct (beq c [40]); [| done].
    pose proof (run_suffix (Seq (plus (except [40; 41; 13; 10])) (Seq (lit 41) (Star is_whitespace))) Some id_suffix cs) as H.
    destruct (H _ Er) as [m Em]. destruct n as [| n].
    + rewrite drop_0 in Em. apply (f_equal length) in Em. rewrite length_drop in Em. cbn [length] in Em. lia.
    + apply Forall_cons in Hne as [Hc _]. unfold clen. cbn [take concat]. rewrite length_app.
      destruct c; [done | cbn; lia].
Defined.
End Backtrack.

#[local] Existing Instance Backtrack.prompt_matchers.

(** The examples of the source's tests. *)
Example sanitize_examples :
  sanitize_terminal_command (bs "user@host:~$ ls -la") = bs "ls -la"
  /\ sanitize_terminal_command (bs "PS C:\Users> dir") = bs "dir"
  /\ sanitize_terminal_command (bs "(venv) (x) [root@rocky9 ~]# vi a.sh ") = bs "vi a.sh"
  /\ sanitize_terminal_command (bs "PS  > dir") = bs "dir"
  /\ sanitize_terminal_command (bs "C:> dir") = bs "dir"
  /\ sanitize_terminal_command (bs "$ ls") = bs "ls".
Proof. vm_compute. done. Qed.
