(* ===== verification/InputTracker.v ===== *)
(** The local tracker of the input line
    (zzclawterm-core/src/terminal/input_tracker.rs): what the user sends to the
    shell is applied to a copy of the command line, which suggestions, history
    and editing plans read. [None] is the panic of cutting a string inside a
    character. *)
From stdpp Require Import base list numbers strings.
From Stdlib Require Import ZArith Lia.
From S2P Require Import Prelude Text Boundary CharOffsets Prompt.

(** The reasons of the source, which are string literals. *)
Inductive DesyncReason := tab | terminal | too_long.
#[global] Instance DesyncReason_eq_dec : EqDecision DesyncReason.
Proof. solve_decision. Defined.

Record TerminalInputState := Tracked {
  value : list Z;
  cursor : nat;
  desynced : bool;
  desync_reason : option DesyncReason;
  line_rewrite_required : bool;
  multiline : bool;
  paste_mode : bool
}.

Definition reset (multiline : bool) : TerminalInputState := Tracked [] 0 false None false multiline false.
Definition new : TerminalInputState := reset false.

(** Field updates. *)
Definition set_line (v : list Z) (c : nat) (s : TerminalInputState) : TerminalInputState :=
  Tracked v c (desynced s) (desync_reason s) (line_rewrite_required s) (multiline s) (paste_mode s).
Definition set_cursor (c : nat) (s : TerminalInputState) : TerminalInputState := set_line (value s) c s.
Definition set_multiline (b : bool) (s : TerminalInputState) : TerminalInputState :=
  Tracked (value s) (cursor s) (desynced s) (desync_reason s) (line_rewrite_required s) b (paste_mode s).
Definition set_paste (b : bool) (s : TerminalInputState) : TerminalInputState :=
  Tracked (value s) (cursor s) (desynced s) (desync_reason s) (line_rewrite_required s) (multiline s) b.

Definition clamp_cursor (v : list Z) (c : nat) : nat := Nat.min c (length v).
Definition MAX_TRACKED_INPUT_BYTES : nat := Z.to_nat 4096.
Definition has_newline (l : list Z) : bool := has_byte 10 l || has_byte 13 l.

Definition mark_desynced (reason : DesyncReason) (s : TerminalInputState) : TerminalInputState :=
  Tracked (value s) (cursor s) true (Some reason)
    (line_rewrite_required s || bool_decide (reason = tab)) (multiline s) (paste_mode s).

(** [String::insert_str]. *)
Definition insert_str (i : nat) (text l : list Z) : option (list Z) :=
  if is_char_boundary l i then Some (take i l ++ text ++ drop i l) else None.

Definition insert_text (text : list Z) (s : TerminalInputState) : option TerminalInputState :=
  if beq text [] then Some s
  else
    let c := clamp_cursor (value s) (cursor s) in
    if (MAX_TRACKED_INPUT_BYTES <? length (value s) + length text)%nat then Some (mark_desynced too_long s)
    else
      let* v := insert_str c text (value s) in
      Some (set_multiline (multiline s || has_newline text) (set_line v (c + length text) s)).

Definition refresh_multiline_after_delete (s : TerminalInputState) : TerminalInputState :=
  if multiline s then set_multiline (has_newline (value s)) s else s.

(** The start of the character before, and the start of the one behind the next. *)
Definition prev_start (v : list Z) (c : nat) : option nat :=
  let* p := slice_to v c in Some (clen (removelast (chars p))).
Definition next_start (v : list Z) (c : nat) : option nat :=
  let* p := slice_from v c in
  Some (match chars p with ch :: _ :: _ => (c + length ch)%nat | _ => length v end).

Definition delete_left (s : TerminalInputState) : option TerminalInputState :=
  let c := clamp_cursor (value s) (cursor s) in
  if (c =? 0)%nat then Some s
  else
    let* prev := prev_start (value s) c in
    let* v := replace_range prev c [] (value s) in
    Some (refresh_multiline_after_delete (set_line v prev s)).

Definition delete_right (s : TerminalInputState) : option TerminalInputState :=
  let c := clamp_cursor (value s) (cursor s) in
  if (length (value s) <=? c)%nat then Some s
  else
    let* next := next_start (value s) c in
    let* v := replace_range c next [] (value s) in
    Some (refresh_multiline_after_delete (set_line v c s)).

(** The loops over the characters before the cursor, last one first: [start]
    moves to the start of each character that passes the test. *)
Fixpoint back_over (test : list Z -> bool) (rcs : list (list Z)) (start : nat) : nat :=
  match rcs with
  | ch :: rcs' => if test ch then back_over test rcs' (start - length ch) else start
  | [] => start
  end.

Definition delete_previous_word (s : TerminalInputState) : option TerminalInputState :=
  let c := clamp_cursor (value s) (cursor s) in
  if (c =? 0)%nat then Some s
  else
    let* p := slice_to (value s) c in
    let start := back_over is_whitespace (rev (chars p)) c in
    let* p := slice_to (value s) start in
    let start := back_over (fun ch => negb (is_whitespace ch)) (rev (chars p)) start in
    let* v := replace_range start c [] (value s) in
    Some (refresh_multiline_after_delete (set_line v start s)).

Definition paste_open : list Z := 27 :: bs "[200~".
Definition paste_close : list Z := 27 :: bs "[201~".

(** Text typed behind a completion: tracking resumes, but the line must be read back. *)
Definition resume_after_tab (s : TerminalInputState) : TerminalInputState :=
  if desynced s && bool_decide (desync_reason s = Some tab)
  then Tracked (value s) (cursor s) false None true (multiline s) (paste_mode s)
  else s.

Definition apply_pasted_input_data (data : list Z) (s : TerminalInputState) : option TerminalInputState :=
  let '(s, text) := if contains paste_open data then (set_paste true s, remove_sub paste_open data) else (s, data) in
  let '(s, text) := if contains paste_close text then (set_paste false s, remove_sub paste_close text) else (s, text) in
  let text := replace_byte 13 10 (replace_crlf text) in
  if beq text [] then Some s
  else insert_text text (resume_after_tab s).

Definition is_key (data : list Z) (keys : list (list Z)) : bool := existsb (beq data) keys.
Definition csi (final : string) : list Z := 27 :: 91 :: bs final.
Definition ss3 (final : string) : list Z := 27 :: 79 :: bs final.

Definition apply_terminal_input_data (data : list Z) (s : TerminalInputState) : option TerminalInputState :=
  let c := clamp_cursor (value s) (cursor s) in
  if beq data [] then Some s
  else if is_key data [[13]; [3]] then Some (reset false)
  else if is_key data [[1]] then Some (set_cursor 0 s)
  else if is_key data [[5]] then Some (set_cursor (length (value s)) s)
  else if is_key data [[21]] then
    let* v := replace_range 0 c [] (value s) in
    Some (refresh_multiline_after_delete (set_line v 0 s))
  else if is_key data [[23]] then delete_previous_word s
  else if is_key data [[11]] then
    let* v := slice_to (value s) c in
    Some (refresh_multiline_after_delete (set_line v c s))
  else if is_key data [[12]] then Some s
  else if is_key data [[127]; [8]] then delete_left s
  else if is_key data [csi "D"; ss3 "D"] then
    let* i := if (c =? 0)%nat then Some 0%nat else prev_start (value s) c in Some (set_cursor i s)
  else if is_key data [csi "C"; ss3 "C"] then
    let* i := if (length (value s) <=? c)%nat then Some (length (value s)) else next_start (value s) c in
    Some (set_cursor i s)
  else if is_key data [csi "H"; ss3 "H"] then Some (set_cursor 0 s)
  else if is_key data [csi "F"; ss3 "F"] then Some (set_cursor (length (value s)) s)
  else if is_key data [csi "3~"] then delete_right s
  else if is_key data [[9]] then Some (mark_desynced tab s)
  else if paste_mode s || contains paste_open data || contains paste_close data
  then apply_pasted_input_data data s
  else if has_newline data && negb (beq data [13]) then apply_pasted_input_data data s
  else if starts_with [27] data then Some (mark_desynced terminal s)
  else if existsb is_control (chars data) then Some (mark_desynced terminal s)
  else insert_text data (resume_after_tab s).

(** A sequence of chunks. *)
Fixpoint apply_all (chunks : list (list Z)) (s : TerminalInputState) : option TerminalInputState :=
  match chunks with
  | [] => Some s
  | d :: ds => let* s' := apply_terminal_input_data d s in apply_all ds s'
  end.

(** ** Reading the tracker *)
Section Commands.
Context `{PM : PromptMatchers}.

Definition get_tracked_command (s : TerminalInputState) : list Z :=
  if desynced s || multiline s then [] else sanitize_terminal_command (value s).
Definition can_suggest_from_tracked_command (s : TerminalInputState) (command : list Z) : bool :=
  negb (desynced s) && negb (multiline s) && (cursor s =? length (value s))%nat && negb (beq command []).
Definition can_suggest_from_tracker (s : TerminalInputState) : bool :=
  can_suggest_from_tracked_command s (get_tracked_command s).
Definition terminal_input_tracker_below_min_chars (s : TerminalInputState) (min_chars : nat) : bool :=
  (length (chars (value s)) <? Nat.max min_chars 1)%nat.
Definition can_register_command_from_tracker (s : TerminalInputState) : bool :=
  negb (desynced s) && negb (multiline s) && negb (line_rewrite_required s).
Definition get_tracked_submission_command (s : TerminalInputState) : list Z :=
  if negb (can_register_command_from_tracker s) then [] else sanitize_terminal_command (value s).

(** ** Reading the line back from the terminal *)
Definition normalize_line_content (l : list Z) : list Z :=
  List.filter (fun x => negb ((x =? 10) || (x =? 13))) (remove_sub [13; 10] l).

Definition push_candidate (previous_command raw : list Z) (candidates : list (list Z * Z)) : list (list Z * Z) :=
  let command := sanitize_terminal_command (strip_terminal_command_prompt (normalize_line_content raw)) in
  if beq command [] then candidates
  else
    let score := if beq previous_command [] || starts_with previous_command command
                 then wrap 32 (len command) else 0 in
    if negb (beq previous_command []) && (score =? 0) then candidates
    else candidates ++ [(command, score)].

(** The candidate of a prefix: the command from where the prefix occurs in it. *)
Definition suffix_candidate (previous_command line_content prefix : list Z) (candidates : list (list Z * Z)) :
    list (list Z * Z) :=
  let source_cmd := sanitize_terminal_command (normalize_line_content line_content) in
  let prefix_cmd := sanitize_terminal_command prefix in
  match (if beq prefix_cmd [] then None else find_sub prefix_cmd source_cmd) with
  | Some pos => push_candidate previous_command (drop pos source_cmd) candidates
  | None => candidates
  end.

(** The first candidate of the stable sort: the best score, then the longest,
    then the earliest. *)
Definition better (a b : list Z * Z) : bool :=
  (snd b <? snd a) || ((snd b =? snd a) && (len (fst b) <? len (fst a))).
Definition best (candidates : list (list Z * Z)) : option (list Z * Z) :=
  fold_left (fun acc c => match acc with
                          | None => Some c
                          | Some a => if better c a then Some c else Some a
                          end) candidates None.

Definition choose_terminal_line_command (previous_value line_content : list Z) : option (list Z) :=
  let previous_command := sanitize_terminal_command previous_value in
  let sanitized_line := sanitize_terminal_command line_content in
  let cs := push_candidate previous_command sanitized_line [] in
  let cs := push_candidate previous_command line_content cs in
  let cs := fold_left (fun cs prefix => suffix_candidate previous_command line_content prefix cs)
              [previous_value; previous_command; sanitized_line] cs in
  fst <$> best cs.

Definition resync_from_terminal_line (current : TerminalInputState) (line_content : list Z) :
    option TerminalInputState :=
  (fun v => Tracked v (length v) false None false false false)
    <$> choose_terminal_line_command (value current) line_content.
End Commands.

(** ** Ranges and cursor moves *)
Definition input_selection_range (start stop : nat) : option (nat * nat) :=
  if (start <? stop)%nat then Some (start, stop) else None.
Definition slice (lo hi : nat) (l : list Z) : option (list Z) :=
  if is_char_boundary l lo && is_char_boundary l hi && (lo <=? hi)%nat then Some (take (hi - lo) (drop lo l)) else None.
Definition len_chars (r : nat * nat) (v : list Z) : option nat :=
  let stop := Nat.min (snd r) (length v) in
  let start := Nat.min (fst r) stop in
  let* p := slice start stop v in Some (length (chars p)).

Definition delete_terminal_input_range (s : TerminalInputState) (start stop : nat) : option TerminalInputState :=
  let n := length (value s) in
  let from := Nat.min start n in
  let to := Nat.max (Nat.min stop n) from in
  if (to <=? from)%nat then Some s
  else
    let* v := replace_range from to [] (value s) in
    Some (refresh_multiline_after_delete (set_line v from s)).

(** The moves of the source are one string; here the list of its keys. *)
Definition move_keys (v : list Z) (current_cursor target_cursor : nat) : option (list (list Z)) :=
  let* p := slice_to v (Nat.min current_cursor (length v)) in
  let* q := slice_to v (Nat.min target_cursor (length v)) in
  let current := length (chars p) in
  let target := length (chars q) in
  Some (if (current <? target)%nat then repeat (csi "C") (target - current)
        else if (target <? current)%nat then repeat (csi "D") (current - target)
        else []).
Definition build_move_input_cursor_data (v : list Z) (current_cursor target_cursor : nat) : option (list Z) :=
  @concat Z <$> move_keys v current_cursor target_cursor.

Definition char_index_to_byte (v : list Z) (char_index : nat) : nat :=
  if (char_index <? length (chars v))%nat then clen (take char_index (chars v)) else length v.
Definition byte_index_to_char (v : list Z) (byte_index : nat) : option nat :=
  let* p := slice_to v (Nat.min byte_index (length v)) in Some (length (chars p)).
