(* ===== verification/InputTrackerSpec.v ===== *)
(** Correctness of the input tracker: it never panics and stays well formed, and
    as long as it is in step with the shell its line is the one a line editor
    would have. *)
From stdpp Require Import base list numbers strings.
From Stdlib Require Import ZArith Lia.
From S2P Require Import Prelude Text Boundary CharOffsets Prompt InputTracker.

#[local] Arguments chars : simpl never.
#[local] Arguments clen : simpl never.
#[local] Arguments MAX_TRACKED_INPUT_BYTES : simpl never.

(** The tracked line, in characters: [k] of them are before the cursor. *)
Record holds (s : TerminalInputState) (cs : list (list Z)) (k : nat) : Prop := {
  h_valid : utf8_valid (value s) = true;
  h_chars : chars (value s) = cs;
  h_cursor : cursor s = offset cs k;
  h_in : (k <= length cs)%nat;
}.

Record flags_ok (s : TerminalInputState) : Prop := {
  f_multiline : multiline s = has_newline (value s);
  f_reason : desynced s = true <-> is_Some (desync_reason s);
  f_bound : (length (value s) <= MAX_TRACKED_INPUT_BYTES)%nat;
}.

Definition tracker_ok (s : TerminalInputState) : Prop := flags_ok s /\ exists cs k, holds s cs k.

(** ** The line in characters *)
Lemma holds_clamp s cs k : holds s cs k -> clamp_cursor (value s) (cursor s) = offset cs k.
Proof.
  intros [Hv Hc -> Hk]. unfold clamp_cursor. rewrite (length_chars (value s)), Hc. apply Nat.min_l.
  apply offset_le; [rewrite <- Hc; apply chars_nonempty | lia].
Qed.

Lemma holds_length s cs k : holds s cs k -> length (value s) = offset cs (length cs).
Proof. intros [_ <- _ _]. apply length_chars. Qed.

Lemma holds_nonempty s cs k : holds s cs k -> Forall (fun c => c <> []) cs.
Proof. intros [_ <- _ _]. apply chars_nonempty. Qed.

Lemma holds_zero s cs k : holds s cs k -> (offset cs k =? 0)%nat = (k =? 0)%nat.
Proof.
  intros H. apply (offset_eqb cs (holds_nonempty _ _ _ H) k 0); [apply (h_in _ _ _ H) | lia].
Qed.

Lemma holds_end s cs k : holds s cs k -> (length (value s) <=? offset cs k)%nat = (length cs <=? k)%nat.
Proof.
  intros H. rewrite (holds_length _ _ _ H). apply offset_leb; [by eapply holds_nonempty | lia | apply (h_in _ _ _ H)].
Qed.

Lemma prev_start_at s cs k : holds s cs k -> prev_start (value s) (offset cs k) = Some (offset cs (k - 1)).
Proof.
  intros [Hv <- _ Hk]. unfold prev_start. rewrite (proj1 (slice_to_chars _ Hv k)). by rewrite last_char_start.
Qed.

Lemma next_start_at s cs k :
  holds s cs k -> (k < length cs)%nat -> next_start (value s) (offset cs k) = Some (offset cs (S k)).
Proof.
  intros H Hk. pose proof (holds_length _ _ _ H) as Hl. destruct H as [Hv <- _ _]. unfold next_start.
  destruct (slice_from_chars _ Hv k) as [-> ->].
  destruct (lookup_lt_is_Some_2 _ _ Hk) as [c Ec]. rewrite (drop_S _ _ _ Ec). f_equal.
  destruct (drop (S k) (chars (value s))) as [| c' r] eqn:Ed; [| by rewrite (offset_nth _ _ _ Ec)].
  rewrite Hl. f_equal. apply (f_equal length) in Ed. rewrite length_drop in Ed. cbn in Ed. lia.
Qed.

Lemma back_over_run test cs k :
  (k <= length cs)%nat ->
  back_over test (rev (take k cs)) (offset cs k) = offset cs (k - length (take_while test (rev (take k cs)))).
Proof.
  induction k as [| k IH]; intros Hk; [done |].
  destruct (lookup_lt_is_Some_2 cs k) as [c Ec]; [lia |]. rewrite (take_S_r _ _ _ Ec), rev_app_distr.
  cbn [rev app back_over take_while]. destruct (test c); [| by rewrite Nat.sub_0_r].
  rewrite (offset_nth _ _ _ Ec), Nat.add_sub, IH by lia. done.
Qed.

(** ** Edits *)
Lemma has_newline_app a b : has_newline (a ++ b) = has_newline a || has_newline b.
Proof.
  unfold has_newline, has_byte. rewrite !existsb_app.
  destruct (existsb (Z.eqb 10) a), (existsb (Z.eqb 10) b), (existsb (Z.eqb 13) a); done.
Qed.

(** Moving the cursor. *)
Lemma set_cursor_ok s cs k i :
  flags_ok s -> holds s cs k -> (i <= length cs)%nat ->
  flags_ok (set_cursor (offset cs i) s) /\ holds (set_cursor (offset cs i) s) cs i.
Proof. intros [] [] Hi. split; by constructor. Qed.

(** Deleting a range of characters. *)
Lemma delete_range_ok s cs k a b :
  flags_ok s -> holds s cs k -> (a <= b <= length cs)%nat ->
  exists v, replace_range (offset cs a) (offset cs b) [] (value s) = Some v
    /\ let s' := refresh_multiline_after_delete (set_line v (offset cs a) s) in
       flags_ok s' /\ holds s' (take a cs ++ drop b cs) a
       /\ desynced s' = desynced s /\ desync_reason s' = desync_reason s
       /\ line_rewrite_required s' = line_rewrite_required s /\ paste_mode s' = paste_mode s /\ value s' = v.
Proof.
  intros [Fm Fr Fb] [Hv <- Hc Hk] Hab. destruct (splice_chars (value s) Hv a b [] eq_refl Hab) as (v & E & Hv' & Ec & El & Ev).
  exists v. split; [done |]. cbn zeta. rewrite app_nil_l in Ec, Ev. rewrite Nat.add_0_r in El.
  change (length (chars [])) with 0%nat in El. rewrite Nat.add_0_r in El.
  assert (Hm : has_newline v = true -> has_newline (value s) = true).
  { rewrite Ev, has_newline_app, orb_true_iff. intros [H | H].
    - rewrite <- (take_drop (offset (chars (value s)) a) (value s)), has_newline_app, H. done.
    - rewrite <- (take_drop (offset (chars (value s)) b) (value s)), has_newline_app, H. apply orb_true_r. }
  assert (Hlen : (length v <= length (value s))%nat).
  { rewrite Ev, length_app, length_take, length_drop.
    pose proof (offset_le (chars (value s)) (chars_nonempty _) a b Hab). lia. }
  unfold refresh_multiline_after_delete. cbn [multiline set_line].
  destruct (multiline s) eqn:Em; (split_and!; try done); (constructor; cbn; try done; try lia).
  - rewrite El, Ec. done.
  - rewrite length_app, length_take. lia.
  - rewrite Em. destruct (has_newline v); [| done]. specialize (Hm eq_refl). congruence.
  - rewrite El, Ec. done.
  - rewrite length_app, length_take. lia.
Qed.

(** Typing a text. *)
Lemma insert_text_ok t s cs k :
  flags_ok s -> holds s cs k -> utf8_valid t = true -> t <> [] ->
  (length (value s) + length t <= MAX_TRACKED_INPUT_BYTES)%nat ->
  exists s', insert_text t s = Some s' /\ flags_ok s'
    /\ holds s' (take k cs ++ chars t ++ drop k cs) (k + length (chars t))
    /\ desynced s' = desynced s /\ desync_reason s' = desync_reason s
    /\ line_rewrite_required s' = line_rewrite_required s /\ paste_mode s' = paste_mode s
    /\ length (value s') = (length (value s) + length t)%nat.
Proof.
  intros [Fm Fr Fb] H Ht Hne Hlen. unfold insert_text. unfold beq. rewrite bool_decide_eq_false_2 by done.
  rewrite (proj2 (Nat.ltb_ge _ _)) by lia. rewrite (holds_clamp _ _ _ H). destruct H as [Hv <- Hc Hk].
  destruct (splice_chars (value s) Hv k k t Ht ltac:(lia)) as (v & E & Hv' & Ec & El & Ev).
  unfold insert_str. rewrite (boundary_nth _ k Hv : is_char_boundary _ (offset _ _) = true).
  rewrite <- Ev. eexists. split; [reflexivity |].
  assert (Hl : length v = (length (value s) + length t)%nat).
  { rewrite Ev, !length_app, length_take, length_drop. pose proof (boundary_le _ _ (boundary_nth _ k Hv)). unfold offset. lia. }
  split_and!; try done; constructor; cbn; try done; try lia.
  - rewrite Ev, !has_newline_app. rewrite <- (take_drop (offset (chars (value s)) k) (value s)) in Fm at 1.
    rewrite Fm, has_newline_app. destruct (has_newline t); [by rewrite !orb_true_r |].
    by rewrite orb_false_r.
  - by rewrite El, Ec.
  - rewrite !length_app, length_take. lia.
Qed.

(** ** Every chunk keeps the tracker well formed *)
Lemma mark_desynced_ok r s : tracker_ok s -> tracker_ok (mark_desynced r s).
Proof.
  intros ([Fm Fr Fb] & cs & k & [Hv Hc Hcur Hk]). split; [| exists cs, k; by constructor].
  constructor; cbn; [done | | done]. split; [by eexists | done].
Qed.

Lemma set_paste_ok b s : tracker_ok s -> tracker_ok (set_paste b s).
Proof. intros ([] & cs & k & []). split; [by constructor | exists cs, k; by constructor]. Qed.

Lemma resume_holds s cs k : flags_ok s -> holds s cs k -> flags_ok (resume_after_tab s) /\ holds (resume_after_tab s) cs k.
Proof.
  intros [Fm Fr Fb] [Hv Hc Hcur Hk]. unfold resume_after_tab. case_match; split; constructor; try done.
  cbn. split; [done | by intros []].
Qed.

Lemma insert_text_total t s : tracker_ok s -> utf8_valid t = true -> exists s', insert_text t s = Some s' /\ tracker_ok s'.
Proof.
  intros H Ht. destruct (decide (t = [])) as [-> | Hne]; [by exists s |].
  destruct (decide (length (value s) + length t <= MAX_TRACKED_INPUT_BYTES)%nat) as [Hl | Hl].
  - destruct H as (Hf & cs & k & Hh). destruct (insert_text_ok t s cs k Hf Hh Ht Hne Hl) as (s' & -> & Hf' & Hh' & _).
    eexists. split; [done |]. split; [done |]. eauto.
  - unfold insert_text. unfold beq. rewrite bool_decide_eq_false_2 by done.
    rewrite (proj2 (Nat.ltb_lt _ _)) by lia. eexists. split; [done |]. by apply mark_desynced_ok.
Qed.

Lemma resume_insert_total t s :
  tracker_ok s -> utf8_valid t = true -> exists s', insert_text t (resume_after_tab s) = Some s' /\ tracker_ok s'.
Proof.
  intros (Hf & cs & k & Hh) Ht. destruct (resume_holds s cs k Hf Hh). apply insert_text_total; [| done].
  split; [done |]. eauto.
Qed.

Lemma paste_total data s :
  tracker_ok s -> utf8_valid data = true -> exists s', apply_pasted_input_data data s = Some s' /\ tracker_ok s'.
Proof.
  intros Hs Hv. unfold apply_pasted_input_data.
  assert (H1 : exists s1 t1, (if contains paste_open data then (set_paste true s, remove_sub paste_open data) else (s, data)) = (s1, t1)
    /\ tracker_ok s1 /\ utf8_valid t1 = true).
  { case_match; do 2 eexists; (split; [reflexivity |]); [| done]. split; [by apply set_paste_ok |].
    apply remove_sub_valid; [done | by apply (bool_decide_unpack _) | done]. }
  destruct H1 as (s1 & t1 & -> & Hs1 & Hv1).
  assert (H2 : exists s2 t2, (if contains paste_close t1 then (set_paste false s1, remove_sub paste_close t1) else (s1, t1)) = (s2, t2)
    /\ tracker_ok s2 /\ utf8_valid t2 = true).
  { case_match; do 2 eexists; (split; [reflexivity |]); [| done]. split; [by apply set_paste_ok |].
    apply remove_sub_valid; [done | by apply (bool_decide_unpack _) | done]. }
  destruct H2 as (s2 & t2 & -> & Hs2 & Hv2). cbn zeta. case_match; [eauto |].
  apply resume_insert_total; [done |]. apply replace_byte_valid; [lia | lia |]. by apply replace_crlf_valid.
Qed.

(** What a deletion key does, whatever the state. *)
Lemma delete_at s cs k a b :
  flags_ok s -> holds s cs k -> (a <= b <= length cs)%nat ->
  exists s', (let* v := replace_range (offset cs a) (offset cs b) [] (value s) in
              Some (refresh_multiline_after_delete (set_line v (offset cs a) s))) = Some s'
    /\ flags_ok s' /\ holds s' (take a cs ++ drop b cs) a
    /\ desynced s' = desynced s /\ desync_reason s' = desync_reason s
    /\ line_rewrite_required s' = line_rewrite_required s /\ paste_mode s' = paste_mode s
    /\ (length (value s') <= length (value s))%nat.
Proof.
  intros Hf Hh Hab. destruct (delete_range_ok s cs k a b Hf Hh Hab) as (v & -> & Hf' & Hh' & E1 & E2 & E3 & E4 & E5).
  eexists. split; [reflexivity |]. split_and!; try done. rewrite E5.
  pose proof (f_equal length (h_chars _ _ _ Hh')) as Hl. rewrite (length_chars v), (length_chars (value s)).
  rewrite (h_chars _ _ _ Hh). rewrite <- E5, (h_chars _ _ _ Hh'), !offset_all, clen_app.
  rewrite <- (take_drop b cs) at 3. rewrite clen_app.
  pose proof (offset_le cs (holds_nonempty _ _ _ Hh) a b Hab) as Ho. unfold offset in Ho. lia.
Qed.

(** ** The keys of a line editor *)
Inductive LineKey :=
| Typed (t : list Z) | KeyLeft | KeyRight | Home | End_ | Backspace | DeleteKey | KillLine | KillEnd | KillWord.

(** The chunks that terminals send for a key. *)
Definition chunks_of (key : LineKey) : list (list Z) :=
  match key with
  | Typed t => [t]
  | KeyLeft => [csi "D"; ss3 "D"]
  | KeyRight => [csi "C"; ss3 "C"]
  | Home => [[1]; csi "H"; ss3 "H"]
  | End_ => [[5]; csi "F"; ss3 "F"]
  | Backspace => [[127]; [8]]
  | DeleteKey => [csi "3~"]
  | KillLine => [[21]]
  | KillEnd => [[11]]
  | KillWord => [[23]]
  end.

Definition word_before (rcs : list (list Z)) : nat :=
  let n := length (take_while is_whitespace rcs) in
  (n + length (take_while (fun ch => negb (is_whitespace ch)) (drop n rcs)))%nat.

(** What the line editor of a shell does. *)
Definition press (key : LineKey) (line : list (list Z) * nat) : list (list Z) * nat :=
  let '(cs, k) := line in
  match key with
  | Typed t => (take k cs ++ chars t ++ drop k cs, k + length (chars t))
  | KeyLeft => (cs, k - 1)
  | KeyRight => (cs, Nat.min (S k) (length cs))
  | Home => (cs, 0)
  | End_ => (cs, length cs)
  | Backspace => (take (k - 1) cs ++ drop k cs, k - 1)
  | DeleteKey => (take k cs ++ drop (S k) cs, k)
  | KillLine => (drop k cs, 0)
  | KillEnd => (take k cs, k)
  | KillWord => (take (k - word_before (rev (take k cs))) cs ++ drop k cs, k - word_before (rev (take k cs)))
  end%nat.

Definition printable (t : list Z) : Prop :=
  utf8_valid t = true /\ t <> [] /\ existsb is_control (chars t) = false.
Definition key_ok (key : LineKey) : Prop := match key with Typed t => printable t | _ => True end.
Definition typed_bytes (key : LineKey) : nat := match key with Typed t => length t | _ => 0 end.

(** *** Text is no key *)

(** A control character that is no line feed; every key has one. *)
Definition hard_control (ch : list Z) : bool := is_control ch && negb (beq ch [10]).

Lemma control_byte t b : In b t -> 0 <= b <= 31 -> b <> 10 -> existsb hard_control (chars t) = true.
Proof.
  intros Hin Hb Hne. apply in_split in Hin as (a & c & ->). rewrite chars_app_ascii, existsb_app by lia.
  cbn [existsb]. unfold hard_control at 2. cbn [is_control]. destruct (Z.leb_spec b 31); [| lia].
  unfold beq. rewrite bool_decide_eq_false_2 by congruence. cbn. apply orb_true_r.
Qed.

Section Plain.
Context (t : list Z) (Ht : existsb hard_control (chars t) = false).

Lemma plain_no_key keys : forallb (fun d => existsb hard_control (chars d)) keys = true -> is_key t keys = false.
Proof.
  intros Hk. unfold is_key. induction keys as [| d keys IH]; [done |]. cbn [forallb existsb] in *.
  apply andb_true_iff in Hk as [Hd Hk]. rewrite IH, orb_false_r by done.
  destruct (beq t d) eqn:E; [| done]. apply beq_true in E. congruence.
Qed.

Lemma plain_no_sub p b : In b p -> 0 <= b <= 31 -> b <> 10 -> contains p t = false.
Proof.
  intros Hin Hb Hne. destruct (contains p t) eqn:E; [| done]. apply contains_spec in E as (a & c & Ea).
  rewrite (control_byte t b) in Ht; [done | | done | done]. rewrite Ea, !in_app_iff. auto.
Qed.

Lemma plain_no_byte b : 0 <= b <= 31 -> b <> 10 -> ~ In b t.
Proof. intros Hb Hne Hin. by rewrite (control_byte t b) in Ht. Qed.

Lemma plain_no_escape : starts_with [27] t = false.
Proof.
  destruct (starts_with [27] t) eqn:E; [| done]. unfold starts_with in E.
  destruct (strip_prefix [27] t) as [r |] eqn:Er; [| done]. apply strip_prefix_Some in Er.
  rewrite (control_byte t 27) in Ht; [done | rewrite Er; by left | lia | lia].
Qed.

Lemma plain_control : has_newline t = false -> existsb is_control (chars t) = false.
Proof.
  intros Hn. apply not_true_iff_false. rewrite existsb_exists. intros (ch & Hin & Hc).
  assert (Hh : hard_control ch = false).
  { apply not_true_iff_false. intros H. apply not_true_iff_false in Ht. apply Ht, existsb_exists. eauto. }
  unfold hard_control in Hh. rewrite Hc in Hh. cbn in Hh. apply negb_false_iff, beq_true in Hh as ->.
  apply orb_false_iff in Hn as [Hn _]. apply not_true_iff_false in Hn. apply Hn. unfold has_byte.
  apply existsb_exists. exists 10. split; [| done]. rewrite <- (concat_chars t). apply in_concat. exists [10]. split; [done | by left].
Qed.

(** Text of any lines is inserted as it is. *)
Lemma apply_plain s :
  t <> [] -> paste_mode s = false -> apply_terminal_input_data t s = insert_text t (resume_after_tab s).
Proof.
  intros Hne Hp. unfold apply_terminal_input_data. cbn zeta.
  unfold beq at 1. rewrite bool_decide_eq_false_2 by done.
  rewrite !plain_no_key by (vm_compute; reflexivity).
  rewrite Hp, (plain_no_sub paste_open 27), (plain_no_sub paste_close 27) by (lia || by left). cbn [orb].
  assert (H13 : ~ In 13 t) by (apply plain_no_byte; lia).
  destruct (has_newline t) eqn:En; cbn [andb].
  - assert (E13 : beq t [13] = false).
    { destruct (beq t [13]) eqn:E; [| done]. apply beq_true in E. rewrite E in H13. destruct H13. by left. }
    rewrite E13. cbn [negb]. unfold apply_pasted_input_data.
    rewrite (plain_no_sub paste_open 27), (plain_no_sub paste_close 27) by (lia || by left). cbn zeta.
    rewrite replace_crlf_id, replace_byte_id by done. unfold beq. by rewrite bool_decide_eq_false_2.
  - by rewrite plain_no_escape, (plain_control En).
Qed.
End Plain.

Lemma printable_plain t : printable t -> existsb hard_control (chars t) = false.
Proof.
  intros (_ & _ & Ht). apply not_true_iff_false. rewrite existsb_exists. intros (ch & Hin & Hc).
  apply andb_true_iff in Hc as [Hc _]. apply not_true_iff_false in Ht. apply Ht, existsb_exists. eauto.
Qed.

(** Evaluates the comparisons of a concrete chunk with the known keys. *)
Ltac eval_keys :=
  unfold apply_terminal_input_data; cbn zeta;
  repeat match goal with
  | |- context [is_key ?d ?keys] =>
      let b := eval vm_compute in (is_key d keys) in change (is_key d keys) with b
  | |- context [beq ?d []] => let b := eval vm_compute in (beq d []) in change (beq d []) with b
  end; cbn match.

(** [s'] holds the line [line], and is otherwise as [s], with at most [n] bytes more. *)
Definition keeps (s : TerminalInputState) (n : nat) (line : list (list Z) * nat) (s' : TerminalInputState) : Prop :=
  flags_ok s' /\ holds s' (fst line) (snd line)
  /\ desynced s' = desynced s /\ desync_reason s' = desync_reason s
  /\ line_rewrite_required s' = line_rewrite_required s /\ paste_mode s' = paste_mode s
  /\ (length (value s') <= length (value s) + n)%nat.

Section Press.
Context (s : TerminalInputState) (cs : list (list Z)) (k : nat) (Hf : flags_ok s) (Hh : holds s cs k).

Lemma keeps_same : keeps s 0 (cs, k) s.
Proof. split_and!; try done. cbn. lia. Qed.

Lemma keeps_cursor i : (i <= length cs)%nat -> keeps s 0 (cs, i) (set_cursor (offset cs i) s).
Proof. intros Hi. destruct (set_cursor_ok s cs k i Hf Hh Hi). split_and!; try done. cbn. lia. Qed.

Lemma keeps_delete a b :
  (a <= b <= length cs)%nat ->
  exists s', (let* v := replace_range (offset cs a) (offset cs b) [] (value s) in
              Some (refresh_multiline_after_delete (set_line v (offset cs a) s))) = Some s'
    /\ keeps s 0 (take a cs ++ drop b cs, a) s'.
Proof.
  intros Hab. destruct (delete_at s cs k a b Hf Hh Hab) as (s' & -> & H). exists s'. split; [done |].
  unfold keeps. cbn [fst snd]. intuition lia.
Qed.

Lemma keeps_kill_end :
  exists s', (let* v := slice_to (value s) (offset cs k) in
              Some (refresh_multiline_after_delete (set_line v (offset cs k) s))) = Some s'
    /\ keeps s 0 (take k cs, k) s'.
Proof.
  destruct (keeps_delete k (length cs)) as (s' & E & H); [pose proof (h_in _ _ _ Hh); lia |].
  rewrite drop_all, app_nil_r in H. exists s'. split; [| done]. rewrite <- E.
  pose proof (h_chars _ _ _ Hh) as Hc. pose proof (h_valid _ _ _ Hh) as Hv.
  rewrite <- Hc, (proj1 (slice_to_chars _ Hv k)).
  destruct (splice_chars _ Hv k (length (chars (value s))) [] eq_refl) as (v & -> & _ & _ & _ & ->).
  { rewrite Hc. pose proof (h_in _ _ _ Hh). lia. }
  rewrite <- length_chars, drop_all, !app_nil_r. done.
Qed.

Lemma kill_word_start :
  let n := length (take_while is_whitespace (rev (take k cs))) in
  back_over is_whitespace (rev (take k cs)) (offset cs k) = offset cs (k - n)
  /\ back_over (fun ch => negb (is_whitespace ch)) (rev (take (k - n) cs)) (offset cs (k - n))
     = offset cs (k - word_before (rev (take k cs)))
  /\ (n <= k)%nat.
Proof.
  pose proof (h_in _ _ _ Hh) as Hk. cbn zeta. set (n := length (take_while is_whitespace (rev (take k cs)))).
  assert (Hn : (n <= k)%nat).
  { subst n. assert (H : forall f (l : list (list Z)), (length (take_while f l) <= length l)%nat).
    { intros f l. induction l as [| c l IH]; cbn; [done |]. case_match; cbn; lia. }
    etrans; [apply H |]. rewrite length_rev, length_take. lia. }
  split; [by apply back_over_run |]. split; [| done]. rewrite back_over_run by lia. f_equal.
  unfold word_before. fold n. rewrite skipn_rev, length_take, (Nat.min_l k), take_take, Nat.min_l by lia. lia.
Qed.

Lemma keeps_left :
  exists s', (let* i := if (offset cs k =? 0)%nat then Some 0%nat else prev_start (value s) (offset cs k) in
              Some (set_cursor i s)) = Some s' /\ keeps s 0 (cs, k - 1)%nat s'.
Proof.
  pose proof (h_in _ _ _ Hh). rewrite (holds_zero _ _ _ Hh), (prev_start_at _ _ _ Hh).
  destruct (Nat.eqb_spec k 0) as [E |]; eexists; (split; [reflexivity |]); [| apply keeps_cursor; lia].
  replace (k - 1)%nat with 0%nat by lia. apply (keeps_cursor 0). lia.
Qed.

Lemma keeps_right :
  exists s', (let* i := if (length (value s) <=? offset cs k)%nat then Some (length (value s))
                        else next_start (value s) (offset cs k) in
              Some (set_cursor i s)) = Some s' /\ keeps s 0 (cs, Nat.min (S k) (length cs)) s'.
Proof.
  rewrite (holds_end _ _ _ Hh). destruct (Nat.leb_spec (length cs) k).
  - rewrite (holds_length _ _ _ Hh), Nat.min_r by lia. eexists. split; [reflexivity |]. apply keeps_cursor. lia.
  - rewrite (next_start_at _ _ _ Hh), Nat.min_l by lia. eexists. split; [reflexivity |]. apply keeps_cursor. lia.
Qed.

Lemma keeps_backspace :
  exists s', delete_left s = Some s' /\ keeps s 0 (take (k - 1) cs ++ drop k cs, k - 1)%nat s'.
Proof.
  pose proof (h_in _ _ _ Hh). unfold delete_left.
  rewrite (holds_clamp _ _ _ Hh), (holds_zero _ _ _ Hh), (prev_start_at _ _ _ Hh).
  destruct (Nat.eqb_spec k 0) as [E |]; [| apply keeps_delete; lia]. eexists. split; [reflexivity |].
  assert (El : (take (k - 1) cs ++ drop k cs, k - 1)%nat = (cs, k)) by (rewrite E; cbn; by rewrite drop_0).
  rewrite El. apply keeps_same.
Qed.

Lemma keeps_delete_right :
  exists s', delete_right s = Some s' /\ keeps s 0 (take k cs ++ drop (S k) cs, k) s'.
Proof.
  unfold delete_right. rewrite (holds_clamp _ _ _ Hh), (holds_end _ _ _ Hh). destruct (Nat.leb_spec (length cs) k).
  - eexists. split; [reflexivity |]. rewrite take_ge, drop_ge, app_nil_r by lia. apply keeps_same.
  - rewrite (next_start_at _ _ _ Hh) by lia. apply keeps_delete. lia.
Qed.

Lemma keeps_kill_word :
  exists s', delete_previous_word s = Some s'
    /\ keeps s 0 (take (k - word_before (rev (take k cs))) cs ++ drop k cs, k - word_before (rev (take k cs)))%nat s'.
Proof.
  pose proof (h_in _ _ _ Hh). pose proof (h_chars _ _ _ Hh) as Hc. pose proof (h_valid _ _ _ Hh) as Hv.
  unfold delete_previous_word. rewrite (holds_clamp _ _ _ Hh), (holds_zero _ _ _ Hh).
  destruct (Nat.eqb_spec k 0) as [E | Hk0].
  { eexists. split; [reflexivity |].
    assert (El : (take (k - word_before (rev (take k cs))) cs ++ drop k cs, k - word_before (rev (take k cs)))%nat = (cs, k))
      by (rewrite E; cbn; by rewrite drop_0).
    rewrite El. apply keeps_same. }
  destruct kill_word_start as (E1 & E2 & Hn).
  assert (Hs : forall i, slice_to (value s) (offset cs i) = Some (take (offset cs i) (value s))
    /\ chars (take (offset cs i) (value s)) = take i cs) by (intros i; rewrite <- Hc; by apply slice_to_chars).
  rewrite (proj1 (Hs k)), (proj2 (Hs k)), E1, (proj1 (Hs _)), (proj2 (Hs _)), E2. apply keeps_delete. lia.
Qed.

(** Every key has on the tracked line the effect it has in the shell. *)
Lemma press_key key d :
  key_ok key -> In d (chunks_of key) -> desynced s = false -> paste_mode s = false ->
  (length (value s) + typed_bytes key <= MAX_TRACKED_INPUT_BYTES)%nat ->
  exists s', apply_terminal_input_data d s = Some s' /\ keeps s (typed_bytes key) (press key (cs, k)) s'.
Proof.
  intros Hok Hd Hdes Hp Hlen. pose proof (h_in _ _ _ Hh) as Hk.
  destruct key; cbn [chunks_of key_ok typed_bytes press] in *.
  { destruct Hd as [<- | []]. rewrite apply_plain by (done || by apply printable_plain || apply Hok). unfold resume_after_tab. rewrite Hdes. cbn [andb].
    destruct (insert_text_ok t s cs k Hf Hh (proj1 Hok) (proj1 (proj2 Hok)) Hlen) as (s' & -> & H). exists s'.
    split; [done |]. unfold keeps. cbn [fst snd]. intuition lia. }
  all: cbn [In] in Hd; decompose [or] Hd; try done; subst d; eval_keys; rewrite ?(holds_clamp _ _ _ Hh).
  all: try apply keeps_left; try apply keeps_right; try apply keeps_backspace; try apply keeps_delete_right;
    try apply keeps_kill_end; try apply keeps_kill_word; try (apply (keeps_delete 0 k); lia).
  all: eexists; (split; [reflexivity |]).
  all: try (apply (keeps_cursor 0); lia).
  all: rewrite (holds_length _ _ _ Hh); apply keeps_cursor; lia.
Qed.
End Press.

(** ** Any input *)
Lemma keeps_ok s n line s' : keeps s n line s' -> tracker_ok s'.
Proof. intros (Hf & Hh & _). split; [done |]. eauto. Qed.

Lemma keeps_total s n line (o : option TerminalInputState) :
  (exists s', o = Some s' /\ keeps s n line s') -> exists s', o = Some s' /\ tracker_ok s'.
Proof. intros (s' & -> & H). exists s'. split; [done |]. by eapply keeps_ok. Qed.

Lemma tracker_new_ok : tracker_ok new.
Proof.
  split; [constructor; cbn; [done | | lia] | exists [], 0%nat; by constructor]. split; [done | by intros []].
Qed.

Lemma apply_total data s :
  tracker_ok s -> utf8_valid data = true ->
  exists s', apply_terminal_input_data data s = Some s' /\ tracker_ok s'.
Proof.
  intros Hs Hv. pose proof Hs as (Hf & cs & k & Hh). pose proof (h_in _ _ _ Hh) as Hk.
  unfold apply_terminal_input_data. rewrite (holds_clamp _ _ _ Hh). cbn zeta.
  repeat match goal with |- exists _, (if ?b then _ else _) = _ /\ _ => destruct b eqn:? end.
  all: try (by eauto using mark_desynced_ok, paste_total, resume_insert_total, tracker_new_ok).
  all: eapply keeps_total; eauto using keeps_left, keeps_right, keeps_backspace, keeps_delete_right, keeps_kill_end, keeps_kill_word.
  all: try (apply (keeps_delete s cs k Hf Hh 0 k); lia).
  all: eexists; (split; [reflexivity |]).
  all: try (apply (keeps_cursor s cs k Hf Hh 0); lia).
  all: rewrite (holds_length _ _ _ Hh); apply (keeps_cursor s cs k Hf Hh); lia.
Qed.

(** C30: The input tracker is well formed after any input. Whatever chunks the
    user and programs send, in any order and with any text, the tracker does not
    panic; its line is valid text of at most 4096 bytes, its cursor stands
    between two of its characters, it is marked multi-line exactly when the line
    has a line break, and it names a reason exactly when it is out of step. *)
Theorem input_tracker_well_formed chunks :
  Forall (fun d => utf8_valid d = true) chunks ->
  exists s, apply_all chunks new = Some s /\ tracker_ok s.
Proof.
  intros Hc. assert (Hs : tracker_ok new) by apply tracker_new_ok. revert Hs. generalize new as s.
  induction Hc as [| d ds Hd _ IH]; intros s Hs; [by exists s |]. cbn [apply_all].
  destruct (apply_total d s Hs Hd) as (s' & -> & Hs'). by apply IH.
Qed.

Lemma input_tracker_well_formed_witness :
  exists s, apply_all [bs "a"; 27 :: bs "[200~b"; [13; 10]; paste_close; [23]; [9]; bs "c"; [195; 169]; csi "D"; csi "Z"] new = Some s
    /\ tracker_ok s.
Proof. apply input_tracker_well_formed. apply (bool_decide_unpack _). vm_compute. exact I. Defined.

Definition press_all (keys : list LineKey) (line : list (list Z) * nat) : list (list Z) * nat :=
  fold_left (fun l key => press key l) keys line.

Lemma press_keys keys ds s cs k :
  Forall2 (fun key d => key_ok key /\ In d (chunks_of key)) keys ds ->
  flags_ok s -> holds s cs k -> desynced s = false -> paste_mode s = false ->
  (length (value s) + list_sum (map typed_bytes keys) <= MAX_TRACKED_INPUT_BYTES)%nat ->
  exists s', apply_all ds s = Some s' /\ keeps s (list_sum (map typed_bytes keys)) (press_all keys (cs, k)) s'.
Proof.
  intros Hk. revert s cs k. induction Hk as [| key d keys ds [Hok Hd] _ IH]; intros s cs k Hf Hh Hs Hp Hlen.
  { exists s. split; [done |]. by apply keeps_same. }
  cbn [apply_all map] in *.
  change (list_sum (typed_bytes key :: map typed_bytes keys)) with (typed_bytes key + list_sum (map typed_bytes keys))%nat in *.
  destruct (press_key s cs k Hf Hh key d Hok Hd Hs Hp ltac:(lia)) as (s1 & -> & Hf1 & Hh1 & E1 & E2 & E3 & E4 & E5).
  change (press_all (key :: keys) (cs, k)) with (press_all keys (press key (cs, k))).
  destruct (press key (cs, k)) as [cs' k'].
  destruct (IH s1 cs' k' Hf1 Hh1) as (s' & -> & H); [congruence | congruence | lia |].
  exists s'. split; [done |]. destruct H as (H1 & H2 & H3 & H4 & H5 & H6 & H7). split_and!; try congruence; try done. lia.
Qed.

(** C29: As long as the user edits the line with text and the keys of a line
    editor (at most 4096 typed bytes), whichever of its encodings a key is sent
    with, the tracker stays in step and holds exactly the line and the caret
    that the shell's line editor has. *)
Theorem input_tracker_follows_line_editor keys ds :
  Forall2 (fun key d => key_ok key /\ In d (chunks_of key)) keys ds ->
  (list_sum (map typed_bytes keys) <= MAX_TRACKED_INPUT_BYTES)%nat ->
  exists s, apply_all ds new = Some s /\ desynced s = false /\ tracker_ok s
    /\ holds s (fst (press_all keys ([], 0%nat))) (snd (press_all keys ([], 0%nat))).
Proof.
  intros Hk Hl. destruct (press_keys keys ds new [] 0 Hk) as (s & E & H); try done; [apply (proj1 tracker_new_ok) |].
  exists s. pose proof (keeps_ok _ _ _ _ H). destruct H as (Hf & Hh & E1 & _). split_and!; done.
Qed.

Lemma input_tracker_follows_line_editor_witness :
  exists s, apply_all [bs "ls foo"; [23]; ss3 "D"; [127]; csi "H"] new = Some s /\ desynced s = false /\ tracker_ok s
    /\ holds s (map (fun b => [b]) (bs "l ")) 0.
Proof.
  apply (input_tracker_follows_line_editor [Typed (bs "ls foo"); KillWord; KeyLeft; Backspace; Home]
    [bs "ls foo"; [23]; ss3 "D"; [127]; csi "H"]).
  - repeat (apply Forall2_cons; split; [split; [| vm_compute; tauto]; cbn; try exact I |]); [| constructor].
    split; [vm_compute; reflexivity |]. split; [discriminate | vm_compute; reflexivity].
  - apply Nat.leb_le. vm_compute. reflexivity.
Defined.

(** ** Reading the line back *)
Section Resync.
Context `{PM : PromptMatchers}.

Lemma drop_whitespace_In c cs : In c (drop_whitespace cs) -> In c cs.
Proof.
  destruct (drop_whitespace_suffix cs) as [n ->]. intros H. rewrite <- (take_drop n cs). apply in_app_iff. by right.
Qed.

Lemma trim_In b l : In b (trim l) -> In b l.
Proof.
  unfold trim. rewrite in_concat. intros (c & Hc & Hb).
  apply in_rev, drop_whitespace_In, in_rev, drop_whitespace_In in Hc.
  rewrite <- (concat_chars l). apply in_concat. eauto.
Qed.

Lemma strip_prompt_In b s : In b (strip_terminal_command_prompt s) -> In b s.
Proof.
  assert (Hdrop : forall n l, In b (drop n l) -> In b l).
  { intros n l H. rewrite <- (take_drop n l). apply in_app_iff. by right. }
  assert (Hfirst : forall ms l, In b (strip_first ms l) -> In b l).
  { intros ms l. induction ms as [| m ms IH]; cbn [strip_first]; [done |]. case_match; [apply Hdrop | apply IH]. }
  assert (Henv : forall fuel l, In b (strip_env_loop fuel l) -> In b l).
  { induction fuel as [| fuel IH]; intros l; cbn [strip_env_loop]; [done |]. case_match; [| done].
    intros H'%IH. by apply Hdrop in H'. }
  unfold strip_terminal_command_prompt. case_match; [done |]. intros H'%Hfirst%Henv. unfold trim_start in H'.
  apply in_concat in H' as (c & Hc%drop_whitespace_In & Hb). rewrite <- (concat_chars s). apply in_concat. eauto.
Qed.

(** A candidate continues the typed command and has no line break. *)
Definition candidate_ok (previous : list Z) (c : list Z * Z) : Prop :=
  utf8_valid (fst c) = true /\ fst c <> [] /\ starts_with previous (fst c) = true /\ has_newline (fst c) = false.

Lemma filter_newlines_valid l :
  utf8_valid l = true -> utf8_valid (List.filter (fun x => negb ((x =? 10) || (x =? 13))) l) = true.
Proof.
  apply pass_valid; [done | |].
  - intros b r Hb. cbn [List.filter]. destruct (Z.eqb_spec b 10), (Z.eqb_spec b 13); try lia. done.
  - intros b r Hb Hv IH. cbn [List.filter]. destruct (negb _); [rewrite utf8_valid_cons_low by done |]; by apply IH.
Qed.

Lemma normalize_line_valid l : utf8_valid l = true -> utf8_valid (normalize_line_content l) = true.
Proof.
  intros Hv. apply filter_newlines_valid, remove_sub_valid; [done | by apply (bool_decide_unpack _) | done].
Qed.

Lemma normalize_line_newline l : has_newline (normalize_line_content l) = false.
Proof.
  unfold has_newline, has_byte, normalize_line_content. apply orb_false_iff.
  split; apply not_true_iff_false; rewrite existsb_exists; intros (x & Hin & <-%Z.eqb_eq); by apply filter_In in Hin as [_ ?].
Qed.

Lemma has_newline_sub l l' : (forall b, In b l' -> In b l) -> has_newline l = false -> has_newline l' = false.
Proof.
  intros Hsub. rewrite <- !not_true_iff_false. unfold has_newline, has_byte. rewrite !orb_true_iff, !existsb_exists.
  intros Hn [(b & Hin & E) | (b & Hin & E)]; apply Hn; [left | right]; eauto.
Qed.

Lemma push_candidate_ok previous raw cands :
  utf8_valid raw = true -> Forall (candidate_ok previous) cands -> Forall (candidate_ok previous) (push_candidate previous raw cands).
Proof.
  intros Hv Hc. unfold push_candidate. set (command := sanitize_terminal_command _).
  assert (Hvc : utf8_valid command = true) by (by apply sanitize_valid, strip_prompt_valid, normalize_line_valid).
  assert (Hn : has_newline command = false).
  { eapply has_newline_sub; [| apply (normalize_line_newline raw)]. intros b H'.
    by apply trim_In, strip_prompt_In, strip_prompt_In in H'. }
  clearbody command. destruct (beq command []) eqn:Ec; [done |].
  assert (Hne : command <> []) by (intros ->; by rewrite beq_refl in Ec).
  destruct (beq previous []) eqn:Ep.
  - apply beq_true in Ep as ->. cbn [orb negb andb]. apply Forall_app. split; [done |]. by repeat constructor.
  - cbn [orb negb andb]. destruct (starts_with previous command) eqn:Es; [| done]. case_match; [done |].
    apply Forall_app. split; [done |]. by repeat constructor.
Qed.

Lemma best_In cands c : best cands = Some c -> In c cands.
Proof.
  unfold best. assert (H : forall l acc c, fold_left (fun acc c => match acc with
      | None => Some c | Some a => if better c a then Some c else Some a end) l acc = Some c ->
      acc = Some c \/ In c l).
  { induction l as [| x l IH]; intros acc c'; cbn [fold_left]; [by left |]. intros H'%IH.
    destruct H' as [H' | H']; [| right; by right]. destruct acc as [a |]; [case_match |]; simplify_eq; auto using in_eq. }
  intros H'%H. by destruct H'.
Qed.

Lemma suffix_candidate_ok previous line prefix cands :
  utf8_valid line = true -> utf8_valid prefix = true -> Forall (candidate_ok previous) cands ->
  Forall (candidate_ok previous) (suffix_candidate previous line prefix cands).
Proof.
  intros Hl Hp Hc. unfold suffix_candidate.
  set (source := sanitize_terminal_command (normalize_line_content line)).
  assert (Hvs : utf8_valid source = true) by (by apply sanitize_valid, normalize_line_valid).
  set (p := sanitize_terminal_command prefix). assert (Hvp : utf8_valid p = true) by (by apply sanitize_valid).
  clearbody source p. destruct (beq p []) eqn:Ep; [done |].
  destruct (find_sub p source) as [pos |] eqn:Ef; [| done]. apply push_candidate_ok; [| done].
  apply (find_sub_valid p); [| done | done | done]. intros ->. by rewrite beq_refl in Ep.
Qed.

(** Reading the line back after a completion never loses what was typed. When
    the tracker resynchronises from a line of the terminal, whatever prompt and
    text the line holds, the recovered command starts with the command typed so
    far, is not empty, is valid text without line breaks, and the caret stands at
    its end; the tracker is in step again. *)
Theorem input_resync_keeps_typed current line s :
  utf8_valid (value current) = true -> utf8_valid line = true ->
  resync_from_terminal_line current line = Some s ->
  starts_with (sanitize_terminal_command (value current)) (value s) = true
  /\ value s <> [] /\ holds s (chars (value s)) (length (chars (value s)))
  /\ multiline s = has_newline (value s) /\ desynced s = false /\ can_register_command_from_tracker s = true.
Proof.
  intros Hv Hl. unfold resync_from_terminal_line.
  destruct (choose_terminal_line_command (value current) line) as [v |] eqn:E; [| done]. intros [= <-].
  unfold choose_terminal_line_command in E. set (previous := sanitize_terminal_command (value current)) in *.
  assert (Hvp : utf8_valid previous = true) by (by apply sanitize_valid).
  destruct (best _) as [c |] eqn:Eb; [| done]. injection E as <-. apply best_In in Eb.
  assert (Hc : candidate_ok previous c).
  { revert Eb. apply List.Forall_forall. cbn [fold_left].
    apply suffix_candidate_ok; [exact Hl | by apply sanitize_valid |].
    apply suffix_candidate_ok; [exact Hl | exact Hvp |].
    apply suffix_candidate_ok; [exact Hl | exact Hv |].
    apply push_candidate_ok; [exact Hl |]. apply push_candidate_ok; [by apply sanitize_valid | constructor]. }
  destruct Hc as (H1 & H2 & H3 & H4). cbn [value multiline desynced]. repeat split; try assumption; try (symmetry; assumption).
  - apply length_chars.
  - lia.
Qed.
End Resync.

#[local] Existing Instance Backtrack.prompt_matchers.

Lemma input_resync_keeps_typed_witness :
  let current := Tracked (bs "doc") 3 true (Some tab) true false false in
  let s := Tracked (bs "docker compose ps") 17 false None false false false in
  starts_with (sanitize_terminal_command (value current)) (value s) = true
  /\ value s <> [] /\ holds s (chars (value s)) (length (chars (value s)))
  /\ multiline s = has_newline (value s) /\ desynced s = false /\ can_register_command_from_tracker s = true.
Proof.
  apply (input_resync_keeps_typed (Tracked (bs "doc") 3 true (Some tab) true false false)
    (bs "user@host:~$ docker compose ps")); vm_compute; reflexivity.
Defined.
