(* ===== verification/ShellEdit.v ===== *)
(** Editing plans for the shell's line (zzclawterm-core/src/terminal/editing.rs):
    an edit of the predicted line is turned into cursor steps, deletions and
    text, sent to the shell, and the prediction replaces the tracked line until
    the echo confirms it. [graphemes] stands for the segmentation of the
    third-party unicode_segmentation crate; times are nanoseconds. *)
From stdpp Require Import base list numbers strings.
From Stdlib Require Import ZArith Lia.
From S2P Require Import Prelude Text Boundary CharOffsets InputTracker InputTrackerSpec.

#[local] Arguments chars : simpl never.
#[local] Arguments clen : simpl never.
#[local] Arguments MAX_TRACKED_INPUT_BYTES : simpl never.

Definition EDIT_CONFIRMATION_TIMEOUT : Z := 2 * 1000000000.

Inductive EditCapability := NoEditing | MarkedShell | EchoMatched.
Definition allows_editing (c : EditCapability) (echo_line_editor : bool) : bool :=
  match c with NoEditing => false | MarkedShell => true | EchoMatched => echo_line_editor end.

Inductive EditPhase := Ready | Pending | Uncertain.
#[global] Instance EditPhase_eq_dec : EqDecision EditPhase.
Proof. solve_decision. Defined.

Inductive EditIntent :=
| MoveTo (target : nat)
| DeleteRange (start stop : nat)
| ReplaceRange (start stop : nat) (text : list Z).

Record EditPlan := Plan {
  input_version : Z;
  move_right : bool;
  move_steps : nat;
  delete_range : option (nat * nat);
  delete_steps : nat;
  insert_text_of : list Z;
  predicted : TerminalInputState
}.

Section Plans.
Context (graphemes : list Z -> list (list Z)).

Definition supports_scalar_editing (v : list Z) : bool :=
  negb (existsb is_control (chars v)) && forallb (fun g => (length (chars g) =? 1)%nat) (graphemes v).

(** The target of the cursor, the range to delete and the text. *)
Definition intent_parts (i : EditIntent) : nat * option (nat * nat) * list Z :=
  match i with
  | MoveTo target => (target, None, [])
  | DeleteRange start stop => (stop, Some (start, stop), [])
  | ReplaceRange start stop text => (stop, Some (start, stop), text)
  end.

(** The control characters that a replacement may not contain. *)
Definition refused_control (ch : list Z) : bool := is_control ch && negb (beq ch [13] || beq ch [10]).

Definition range_refused (start stop : nat) (text v : list Z) : bool :=
  (stop <=? start)%nat || (length v <? stop)%nat
  || negb (is_char_boundary v start) || negb (is_char_boundary v stop)
  || (MAX_TRACKED_INPUT_BYTES <? length v - (stop - start) + length text)%nat
  || existsb refused_control (chars text).

(** Every slice is taken behind its boundary test. *)
Definition plan_edit (input : TerminalInputState) (version : Z) (intent : EditIntent) : option EditPlan :=
  let v := value input in
  if desynced input || line_rewrite_required input || multiline input || paste_mode input
     || negb (supports_scalar_editing v) || negb (is_char_boundary v (cursor input))
  then None
  else
    let '(target, range, text) := intent_parts intent in
    if (length v <? target)%nat || negb (is_char_boundary v target) then None
    else
      let current := length (chars (take (cursor input) v)) in
      let steps_to := length (chars (take target v)) in
      let plan deleted p :=
        Plan version (current <? steps_to)%nat
          ((current - steps_to) + (steps_to - current)) range deleted text p in
      match range with
      | Some (start, stop) =>
          if range_refused start stop text v then None
          else
            let v' := take start v ++ text ++ drop stop v in
            Some (plan (length (chars (take (stop - start) (drop start v))))
                    (set_multiline (has_newline v') (set_line v' (start + length text) input)))
      | None => Some (plan 0%nat (set_cursor target input))
      end.
End Plans.

(** ** What is sent for a plan (shell_edit_payload of
    zzclawterm-desktop/src/features/terminal/terminal_selection_runtime/smart_input.rs) *)
Inductive NavigationKey := NavUp | NavDown | NavRight | NavLeft | NavHome | NavEnd.
Definition navigation_key_bytes (key : NavigationKey) (application_cursor : bool) : list Z :=
  let encode := if application_cursor then ss3 else csi in
  match key with
  | NavUp => encode "A"
  | NavDown => encode "B"
  | NavRight => encode "C"
  | NavLeft => encode "D"
  | NavHome => encode "H"
  | NavEnd => encode "F"
  end%string.

(** The keys of the logical payload. *)
Definition plan_keys (plan : EditPlan) (application_cursor : bool) : list (list Z) :=
  repeat (navigation_key_bytes (if move_right plan then NavRight else NavLeft) application_cursor) (move_steps plan)
  ++ repeat [127] (delete_steps plan) ++ [insert_text_of plan].
Definition shell_edit_payload (plan : EditPlan) (application_cursor : bool) : list Z :=
  concat (plan_keys plan application_cursor).

(** ** The state of a session's line *)
Record ShellEditState := Shell {
  input : TerminalInputState;
  version : Z;
  phase : EditPhase;
  queued_cursor : option nat;
  last_input_at : option Z
}.
Definition initial : ShellEditState := Shell new 0 Uncertain None None.

Definition assist_input (s : ShellEditState) : option TerminalInputState :=
  if negb (bool_decide (phase s = Uncertain)) && negb (desynced (input s)) then Some (input s) else None.

Definition invalidate (s : ShellEditState) : ShellEditState :=
  Shell (input s) (wrapping_add 64 (version s) 1) Uncertain None None.
Definition clear_input (s : ShellEditState) : ShellEditState :=
  invalidate (Shell new (version s) (phase s) (queued_cursor s) (last_input_at s)).
Definition deactivate (editable : bool) (s : ShellEditState) : ShellEditState :=
  if negb (bool_decide (phase s = Ready)) || negb editable then clear_input s else invalidate s.

Definition note_input (text : list Z) (now : Z) (s : ShellEditState) : option ShellEditState :=
  let* i := apply_terminal_input_data text (input s) in
  Some (Shell i (wrapping_add 64 (version s) 1)
    (if desynced i || line_rewrite_required i || multiline i || paste_mode i || beq (value i) []
     then Uncertain else Pending) None (Some now)).

Definition accept_plan (plan : EditPlan) (now : Z) (s : ShellEditState) : ShellEditState * bool :=
  if negb (bool_decide (phase s = Ready)) || negb (input_version plan =? version s) then (s, false)
  else (Shell (predicted plan) (wrapping_add 64 (version s) 1) Pending None (Some now), true).

Definition confirm (s : ShellEditState) : ShellEditState * option nat :=
  (Shell (input s) (version s) Ready None None, queued_cursor s).

(** The desktop queues a click that arrives while an edit is pending. *)
Definition queue_cursor (target : option nat) (s : ShellEditState) : ShellEditState :=
  Shell (input s) (version s) (phase s) target (last_input_at s).

Definition expire (now : Z) (s : ShellEditState) : ShellEditState * bool :=
  match phase s, last_input_at s with
  | Pending, Some last =>
      if EDIT_CONFIRMATION_TIMEOUT <=? Z.max 0 (now - last) then (invalidate s, true) else (s, false)
  | _, _ => (s, false)
  end.
