(* ===== verification/ShellEditSpec.v ===== *)
(** Correctness of the editing plans: the keys of a plan produce its prediction,
    and a plan is only accepted for the line it was made for. *)
From stdpp Require Import base list numbers strings.
From Stdlib Require Import ZArith Lia.
From S2P Require Import Prelude Text Boundary CharOffsets InputTracker InputTrackerSpec ShellEdit.

#[local] Arguments chars : simpl never.
#[local] Arguments clen : simpl never.
#[local] Arguments MAX_TRACKED_INPUT_BYTES : simpl never.

(** ** Repeated keys *)
Lemma press_all_right n cs k :
  (k + n <= length cs)%nat -> press_all (repeat KeyRight n) (cs, k) = (cs, (k + n)%nat).
Proof.
  revert k. induction n as [| n IH]; intros k Hk; [by rewrite Nat.add_0_r |].
  change (press_all (repeat KeyRight (S n)) (cs, k)) with (press_all (repeat KeyRight n) (cs, Nat.min (S k) (length cs))).
  rewrite Nat.min_l, IH by lia. f_equal. lia.
Qed.

Lemma press_all_left n cs k : press_all (repeat KeyLeft n) (cs, k) = (cs, (k - n)%nat).
Proof.
  revert k. induction n as [| n IH]; intros k; [by rewrite Nat.sub_0_r |].
  change (press_all (repeat KeyLeft (S n)) (cs, k)) with (press_all (repeat KeyLeft n) (cs, (k - 1)%nat)).
  rewrite IH. f_equal. lia.
Qed.

Lemma press_all_backspace n cs k :
  (n <= k <= length cs)%nat -> press_all (repeat Backspace n) (cs, k) = (take (k - n) cs ++ drop k cs, (k - n)%nat).
Proof.
  revert cs k. induction n as [| n IH]; intros cs k Hk; [by rewrite Nat.sub_0_r, take_drop |].
  change (press_all (repeat Backspace (S n)) (cs, k))
    with (press_all (repeat Backspace n) (take (k - 1) cs ++ drop k cs, (k - 1)%nat)).
  rewrite IH by (rewrite length_app, length_take; lia). f_equal; [| lia].
  rewrite take_app_le, take_take, Nat.min_l by (rewrite ?length_take; lia).
  rewrite drop_app_length' by (rewrite length_take; lia). f_equal. f_equal. lia.
Qed.

Lemma apply_all_app a b s : apply_all (a ++ b) s = let* s' := apply_all a s in apply_all b s'.
Proof.
  revert s. induction a as [| d a IH]; intros s; [done |]. cbn [app apply_all].
  destruct (apply_terminal_input_data d s); [apply IH | done].
Qed.

Lemma sum_repeat key n : typed_bytes key = 0%nat -> list_sum (map typed_bytes (repeat key n)) = 0%nat.
Proof.
  intros E. induction n as [| n IH]; [done |].
  transitivity (typed_bytes key + list_sum (map typed_bytes (repeat key n)))%nat; [done | lia].
Qed.

(** A key without text, pressed [n] times. *)
Lemma press_repeat key d n s cs k :
  typed_bytes key = 0%nat -> key_ok key -> In d (chunks_of key) ->
  flags_ok s -> holds s cs k -> desynced s = false -> paste_mode s = false ->
  exists s', apply_all (repeat d n) s = Some s' /\ keeps s 0 (press_all (repeat key n) (cs, k)) s'.
Proof.
  intros E Hok Hd Hf Hh Hs Hp. destruct (press_keys (repeat key n) (repeat d n) s cs k) as (s' & E' & H); try done.
  - induction n; cbn; constructor; auto.
  - rewrite (sum_repeat _ _ E). pose proof (f_bound _ Hf). lia.
  - rewrite (sum_repeat _ _ E) in H. by exists s'.
Qed.

(** ** The parts of a plan *)
Lemma offset_drop cs a n : offset (drop a cs) n = (offset cs (a + n) - offset cs a)%nat.
Proof.
  unfold offset. rewrite <- (take_drop a (take (a + n) cs)) at 1. rewrite clen_app, take_take, Nat.min_l by lia.
  rewrite skipn_firstn_comm. replace (a + n - a)%nat with n by lia. lia.
Qed.

(** The number of characters of a range. *)
Lemma chars_range v a b :
  utf8_valid v = true -> (a <= b <= length (chars v))%nat ->
  length (chars (take (offset (chars v) b - offset (chars v) a) (drop (offset (chars v) a) v))) = (b - a)%nat.
Proof.
  intros Hv Hab. destruct (slice_from_chars v Hv a) as [_ Ec].
  assert (Hd : utf8_valid (drop (offset (chars v) a) v) = true) by (apply (boundary_cut v _ Hv), boundary_nth, Hv).
  destruct (slice_to_chars _ Hd (b - a)) as [_ E]. rewrite Ec, offset_drop in E.
  replace (a + (b - a))%nat with b in E by lia. rewrite E, length_take, length_drop. lia.
Qed.

Lemma chars_before v k : utf8_valid v = true -> (k <= length (chars v))%nat -> length (chars (take (offset (chars v) k) v)) = k.
Proof. intros Hv Hk. rewrite (proj2 (slice_to_chars v Hv k)), length_take. lia. Qed.

Lemma state_eq s s' :
  value s = value s' -> cursor s = cursor s' -> desynced s = desynced s' -> desync_reason s = desync_reason s' ->
  line_rewrite_required s = line_rewrite_required s' -> multiline s = multiline s' -> paste_mode s = paste_mode s' -> s = s'.
Proof. destruct s, s'; cbn; intros; congruence. Qed.

(** A state is determined by its line and its flags. *)
Lemma keeps_eq s n cs k s' p :
  keeps s n (cs, k) s' -> chars (value p) = cs -> cursor p = offset cs k -> multiline p = has_newline (value p) ->
  desynced p = desynced s -> desync_reason p = desync_reason s ->
  line_rewrite_required p = line_rewrite_required s -> paste_mode p = paste_mode s -> s' = p.
Proof.
  intros ([Fm _ _] & [_ Hc Hcur _] & E1 & E2 & E3 & E4 & _) Hp Hcp Hm D1 D2 D3 D4. cbn [fst snd] in *.
  assert (Hv : value s' = value p) by (rewrite <- (concat_chars (value s')), <- (concat_chars (value p)); congruence).
  apply state_eq; congruence.
Qed.

Lemma keeps_trans s n line s1 m line' s2 : keeps s n line s1 -> keeps s1 m line' s2 -> keeps s (n + m) line' s2.
Proof.
  intros (_ & _ & E1 & E2 & E3 & E4 & E5) (Hf & Hh & D1 & D2 & D3 & D4 & D5).
  split_and!; try done; try congruence. lia.
Qed.

(** The moves of a plan bring the cursor from character [k] to character [j]. *)
Lemma move_keys_reach s cs k j app :
  flags_ok s -> holds s cs k -> desynced s = false -> paste_mode s = false -> (j <= length cs)%nat ->
  exists s', apply_all (repeat (navigation_key_bytes (if (k <? j)%nat then NavRight else NavLeft) app)
                          ((k - j) + (j - k))) s = Some s' /\ keeps s 0 (cs, j) s'.
Proof.
  intros Hf Hh Hs Hp Hj. pose proof (h_in _ _ _ Hh) as Hk. destruct (Nat.ltb_spec k j).
  - replace (k - j + (j - k))%nat with (j - k)%nat by lia.
    destruct (press_repeat KeyRight (navigation_key_bytes NavRight app) (j - k) s cs k) as (s' & E & H'); try done.
    { destruct app; cbn; tauto. }
    rewrite press_all_right in H' by lia. replace (k + (j - k))%nat with j in H' by lia. by exists s'.
  - replace (k - j + (j - k))%nat with (k - j)%nat by lia.
    destruct (press_repeat KeyLeft (navigation_key_bytes NavLeft app) (k - j) s cs k) as (s' & E & H'); try done.
    { destruct app; cbn; tauto. }
    rewrite press_all_left in H'. replace (k - (k - j))%nat with j in H' by lia. by exists s'.
Qed.

(** Text without a carriage return that a plan accepts. *)
Lemma plan_text_plain t :
  existsb refused_control (chars t) = false -> ~ In 13 t -> existsb hard_control (chars t) = false.
Proof.
  intros Ht H13. apply not_true_iff_false. rewrite existsb_exists. intros (ch & Hin & Hc).
  apply not_true_iff_false in Ht. apply Ht, existsb_exists. exists ch. split; [done |].
  unfold hard_control, refused_control in *. apply andb_true_iff in Hc as [-> Hc]. cbn [andb].
  destruct (beq ch [13]) eqn:E; [| done]. apply beq_true in E as ->. exfalso. apply H13.
  rewrite <- (concat_chars t). apply in_concat. exists [13]. split; [done | by left].
Qed.

Lemma type_plain t s cs k :
  flags_ok s -> holds s cs k -> desynced s = false -> paste_mode s = false ->
  utf8_valid t = true -> existsb hard_control (chars t) = false ->
  (length (value s) + length t <= MAX_TRACKED_INPUT_BYTES)%nat ->
  exists s', apply_all [t] s = Some s'
    /\ keeps s (length t) (take k cs ++ chars t ++ drop k cs, (k + length (chars t))%nat) s'.
Proof.
  intros Hf Hh Hs Hp Hv Ht Hl. cbn [apply_all]. destruct (decide (t = [])) as [-> | Hne].
  { exists s. split; [done |]. change (chars []) with (@nil (list Z)). cbn [app length]. rewrite take_drop, Nat.add_0_r.
    by apply keeps_same. }
  rewrite apply_plain by done. unfold resume_after_tab. rewrite Hs. cbn [andb].
  destruct (insert_text_ok t s cs k Hf Hh Hv Hne Hl) as (s' & -> & H). exists s'. split; [done |].
  unfold keeps. cbn [fst snd]. intuition lia.
Qed.

(** ** Plans *)
Section Plans.
Context (graphemes : list Z -> list (list Z)).

(** What the guards of a plan give. *)
Lemma plan_guards i ver intent plan :
  plan_edit graphemes i ver intent = Some plan ->
  desynced i = false /\ line_rewrite_required i = false /\ multiline i = false /\ paste_mode i = false
  /\ is_char_boundary (value i) (fst (fst (intent_parts intent))) = true
  /\ match snd (fst (intent_parts intent)) with
     | Some (start, stop) => range_refused start stop (snd (intent_parts intent)) (value i) = false
     | None => True
     end
  /\ input_version plan = ver /\ insert_text_of plan = snd (intent_parts intent).
Proof.
  unfold plan_edit. destruct (desynced i), (line_rewrite_required i), (multiline i), (paste_mode i); try done.
  cbn [orb]. destruct (negb (supports_scalar_editing _ _) || _); [done |].
  destruct (intent_parts intent) as [[target range] text]. cbn [fst snd].
  destruct (is_char_boundary (value i) target) eqn:Eb; [| by rewrite orb_true_r].
  destruct (length (value i) <? target)%nat; [done |]. cbn [orb negb].
  destruct range as [[start stop] |]; [destruct (range_refused _ _ _ _) eqn:Er; [done |] |]; by intros [= <-].
Qed.

Lemma range_accepted start stop text v :
  utf8_valid v = true -> range_refused start stop text v = false ->
  exists a b, (a <= b <= length (chars v))%nat /\ start = offset (chars v) a /\ stop = offset (chars v) b
    /\ (length v - (stop - start) + length text <= MAX_TRACKED_INPUT_BYTES)%nat
    /\ existsb refused_control (chars text) = false.
Proof.
  intros Hv H. unfold range_refused in H. repeat (apply orb_false_iff in H as [H ?]).
  apply negb_false_iff in H2, H3. destruct (boundary_index v start Hv H3) as (a & Ha & Ea).
  destruct (boundary_index v stop Hv H2) as (b & Hb & Eb). fold (offset (chars v) a) in Ea. fold (offset (chars v) b) in Eb.
  exists a, b. apply Nat.leb_gt in H. apply Nat.ltb_ge in H1. split_and!; try done.
  destruct (decide (a <= b)%nat); [done |]. pose proof (offset_lt (chars v) (chars_nonempty v) b a). lia.
Qed.

(** The keys of a plan, typed into the line it was made for, give its prediction. *)
Lemma plan_keys_predict i ver intent plan mode :
  tracker_ok i -> plan_edit graphemes i ver intent = Some plan ->
  utf8_valid (insert_text_of plan) = true -> ~ In 13 (insert_text_of plan) ->
  apply_all (plan_keys plan mode) i = Some (predicted plan).
Proof.
  intros (Hf & cs & k & Hh) Hp Hvt H13. destruct (plan_guards _ _ _ _ Hp) as (G1 & G2 & G3 & G4 & Gb & Gr & _ & Et).
  rewrite Et in Hvt, H13. pose proof (h_valid _ _ _ Hh) as Hv. pose proof (h_chars _ _ _ Hh) as Hc.
  pose proof (h_in _ _ _ Hh) as Hk. destruct (boundary_index _ _ Hv Gb) as (j & Hj & Ej).
  fold (offset (chars (value i)) j) in Ej. rewrite Hc in Hj, Ej.
  destruct (move_keys_reach i cs k j mode Hf Hh G1 G4 Hj) as (s1 & Em & K1).
  revert Hp. unfold plan_edit. match goal with |- (if ?b then _ else _) = _ -> _ => destruct b; [done |] end.
  destruct (intent_parts intent) as [[target range] text] eqn:Ei. cbn [fst snd] in *.
  match goal with |- (if ?b then _ else _) = _ -> _ => destruct b; [done |] end.
  rewrite (h_cursor _ _ _ Hh), Ej. rewrite <- Hc in *. rewrite !chars_before by done.
  destruct range as [[start stop] |].
  - rewrite Gr. destruct (range_accepted start stop text (value i) Hv Gr) as (a & b & Hab & Ea & Eb & Hlen & Hctl).
    assert (Hjb : j = b).
    { assert (target = stop) by (destruct intent; cbn in Ei; congruence).
      apply (offset_inj (chars (value i)) (chars_nonempty _)); [done | lia | congruence]. }
    subst j. rewrite Ea, Eb, chars_range by done. intros [= <-]. unfold plan_keys. cbn [move_right move_steps delete_steps insert_text_of predicted].
    pose proof K1 as (F1 & H1 & D1 & _ & _ & P1 & B1). cbn [fst snd] in H1.
    destruct (press_repeat Backspace [127] (b - a) s1 _ _ eq_refl I ltac:(cbn; tauto) F1 H1) as (s2 & Ed & K2); [congruence | congruence |].
    rewrite press_all_backspace in K2 by lia. replace (b - (b - a))%nat with a in K2 by lia.
    pose proof K2 as (F2 & H2 & D2 & _ & _ & P2 & B2). cbn [fst snd] in H2.
    destruct (type_plain text s2 _ _ F2 H2) as (s3 & Et3 & K3); [congruence | congruence | done | by apply plan_text_plain | |].
    { rewrite (holds_length _ _ _ H2), offset_all, clen_app. rewrite (length_chars (value i)), offset_all in Hlen.
      rewrite <- (take_drop b (chars (value i))) in Hlen at 1. rewrite clen_app, Ea, Eb in Hlen. unfold offset in Hlen.
      pose proof (offset_le (chars (value i)) (chars_nonempty _) a b Hab) as Ho. unfold offset in Ho. lia. }
    rewrite apply_all_app, Em, apply_all_app, Ed, Et3. f_equal.
    destruct (splice_chars (value i) Hv a b text Hvt Hab) as (v & _ & _ & Ec & El & ->).
    eapply keeps_eq; [exact (keeps_trans _ _ _ _ _ _ _ (keeps_trans _ _ _ _ _ _ _ K1 K2) K3) | ..]; try done;
      cbn [value cursor set_multiline set_line]; rewrite ?El, Ec;
      rewrite (take_app_length' (take a _)), (drop_app_length' (take a _)) by (rewrite length_take; lia); done.
  - intros [= <-]. unfold plan_keys. cbn [move_right move_steps delete_steps insert_text_of predicted].
    assert (text = []) as -> by (destruct intent; cbn in Ei; by simplify_eq).
    rewrite apply_all_app, Em. change (apply_all (repeat [127] 0 ++ [[]]) s1) with (Some s1). f_equal.
    eapply keeps_eq; [exact K1 | try done..]. apply (f_multiline _ Hf).
Qed.
End Plans.

(** ** Carriage returns *)

(** The tracker's line never has a carriage return: a lone one submits the
    line, and others are turned into line feeds. *)
Definition no_cr (s : TerminalInputState) : Prop := ~ In 13 (value s).

Lemma no_cr_cut v a b text : ~ In 13 v -> ~ In 13 text -> ~ In 13 (take a v ++ text ++ drop b v).
Proof.
  intros Hv Ht. rewrite !in_app_iff. intros [H | [H | H]]; [| done |]; apply Hv.
  - rewrite <- (take_drop a v). apply in_app_iff. by left.
  - rewrite <- (take_drop b v). apply in_app_iff. by right.
Qed.

Lemma no_cr_replaced a b v v' : ~ In 13 v -> replace_range a b [] v = Some v' -> ~ In 13 v'.
Proof. unfold replace_range. destruct (_ && _); [| done]. intros Hv [= <-]. apply (no_cr_cut v a b []); [done | by intros []]. Qed.

Lemma no_cr_refresh v c s : ~ In 13 v -> no_cr (refresh_multiline_after_delete (set_line v c s)).
Proof. unfold no_cr, refresh_multiline_after_delete. by destruct (multiline _). Qed.

Lemma no_cr_insert t s s' : no_cr s -> ~ In 13 t -> insert_text t (resume_after_tab s) = Some s' -> no_cr s'.
Proof.
  intros Hs Ht. assert (Hr : no_cr (resume_after_tab s)) by (unfold no_cr, resume_after_tab; by destruct (_ && _)).
  unfold insert_text. destruct (beq t []); [by intros [= <-] |]. destruct (_ <? _)%nat; [by intros [= <-] |].
  unfold insert_str. destruct (is_char_boundary _ _); [| done]. intros [= <-]. by apply no_cr_cut.
Qed.

Lemma no_cr_text t : ~ In 13 (replace_byte 13 10 t).
Proof. unfold replace_byte. rewrite in_map_iff. intros (x & E & _). by destruct (Z.eqb_spec x 13). Qed.

Lemma no_cr_paste d s s' : no_cr s -> apply_pasted_input_data d s = Some s' -> no_cr s'.
Proof.
  intros Hs. unfold apply_pasted_input_data.
  destruct (contains paste_open d); (destruct (contains paste_close _); destruct (beq _ []));
    first [by intros [= <-] | intros E; eapply no_cr_insert; [| apply no_cr_text | exact E]; exact Hs].
Qed.

Lemma no_cr_printable d : existsb is_control (chars d) = false -> ~ In 13 d.
Proof.
  intros Hd Hin. apply in_split in Hin as (a & c & ->). rewrite chars_app_ascii, existsb_app in Hd by lia.
  cbn in Hd. by rewrite orb_true_r in Hd.
Qed.

Lemma no_cr_step d s s' : no_cr s -> apply_terminal_input_data d s = Some s' -> no_cr s'.
Proof.
  intros Hs. unfold apply_terminal_input_data, delete_left, delete_right, delete_previous_word. cbn zeta.
  repeat match goal with
  | |- (if ?b then _ else _) = _ -> _ => destruct b eqn:?
  | |- match ?o with Some _ => _ | None => _ end = _ -> _ => destruct o eqn:?; [| done]
  end.
  all: try (by intros [= <-]); try (intros [= <-]; apply no_cr_refresh; by eapply no_cr_replaced).
  all: try (intros E; by eapply no_cr_paste).
  - by intros [= <-] [].
  - intros [= <-]. apply no_cr_refresh. unfold slice_to in *. destruct (is_char_boundary _ _); [| done]. simplify_eq.
    intros H. apply (no_cr_cut (value s) (clamp_cursor (value s) (cursor s)) (length (value s)) []); [done | by intros [] |].
    rewrite drop_all. by rewrite !app_nil_r.
  - intros E. eapply no_cr_insert; [exact Hs | by apply no_cr_printable | exact E].
Qed.

Lemma no_cr_all ds s s' : no_cr s -> apply_all ds s = Some s' -> no_cr s'.
Proof.
  revert s. induction ds as [| d ds IH]; intros s Hs; cbn [apply_all]; [by intros [= <-] |].
  destruct (apply_terminal_input_data d s) as [s1 |] eqn:E; [| done]. apply IH. by eapply no_cr_step.
Qed.

Lemma apply_all_total ds s : tracker_ok s -> Forall (fun d => utf8_valid d = true) ds -> exists s', apply_all ds s = Some s'.
Proof.
  intros Hs Hd. revert s Hs. induction Hd as [| d ds Hd _ IH]; intros s Hs; [by exists s |]. cbn [apply_all].
  destruct (apply_total d s Hs Hd) as (s' & -> & Hs'). by apply IH.
Qed.

Lemma valid_repeat d n : utf8_valid d = true -> Forall (fun d => utf8_valid d = true) (repeat d n).
Proof. intros Hd. induction n; cbn; by constructor. Qed.

(** A plan for text with a carriage return predicts a line that its keys do not give. *)
Lemma plan_cr_mispredicts graphemes i ver intent plan mode :
  tracker_ok i -> plan_edit graphemes i ver intent = Some plan ->
  utf8_valid (insert_text_of plan) = true -> In 13 (insert_text_of plan) ->
  exists t, apply_all (plan_keys plan mode) i = Some t /\ ~ In 13 (value t) /\ In 13 (value (predicted plan)).
Proof.
  intros Hok Hp Hv H13. destruct (apply_all_total (plan_keys plan mode) i Hok) as [t Et].
  { unfold plan_keys. rewrite !Forall_app. split_and!; [apply valid_repeat | by apply valid_repeat | by repeat constructor].
    by destruct (move_right plan), mode. }
  revert Hp. unfold plan_edit. match goal with |- (if ?b then _ else _) = _ -> _ => destruct b eqn:Eg; [done |] end.
  destruct (intent_parts intent) as [[target range] text] eqn:Ei.
  match goal with |- (if ?b then _ else _) = _ -> _ => destruct b; [done |] end.
  assert (Hi : no_cr i).
  { apply no_cr_printable. apply orb_false_iff in Eg as [Eg _]. apply orb_false_iff in Eg as [_ Eg].
    apply negb_false_iff in Eg. unfold supports_scalar_editing in Eg. apply andb_true_iff in Eg as [Eg _].
    by apply negb_true_iff in Eg. }
  exists t. split; [done |]. split; [by eapply no_cr_all |].
  destruct range as [[start stop] |]; [destruct (range_refused _ _ _ _); [done |] |]; injection Hp as <-; cbn in *.
  - rewrite !in_app_iff. auto.
  - assert (text = []) as -> by (destruct intent; cbn in Ei; by simplify_eq). done.
Qed.

(** An editing plan does what it predicts. When a plan is made for a
    well-formed tracked line, the cursor steps, deletions and text it sends,
    read by the tracker key by key in either cursor-key mode, lead to exactly
    the predicted line, caret and flags (for text without a carriage return,
    which submits the line instead). *)
Theorem plan_edit_predicts graphemes i ver intent plan mode :
  tracker_ok i -> plan_edit graphemes i ver intent = Some plan ->
  utf8_valid (insert_text_of plan) = true -> ~ In 13 (insert_text_of plan) ->
  apply_all (plan_keys plan mode) i = Some (predicted plan).
Proof. apply plan_keys_predict. Qed.

(** ** A session *)
Inductive EditOp :=
| NoteInput (text : list Z) (now : Z)
| AcceptPlan (plan : EditPlan) (now : Z)
| ConfirmEcho
| InvalidateLine
| ClearLine
| Deactivate (editable : bool)
| Expire (now : Z)
| QueueCursor (target : option nat).

Definition run_op (op : EditOp) (s : ShellEditState) : option ShellEditState :=
  match op with
  | NoteInput text now => note_input text now s
  | AcceptPlan plan now => Some (fst (accept_plan plan now s))
  | ConfirmEcho => Some (fst (confirm s))
  | InvalidateLine => Some (invalidate s)
  | ClearLine => Some (clear_input s)
  | Deactivate editable => Some (deactivate editable s)
  | Expire now => Some (fst (expire now s))
  | QueueCursor target => Some (queue_cursor target s)
  end.

Fixpoint run_ops (ops : list EditOp) (s : ShellEditState) : option ShellEditState :=
  match ops with
  | [] => Some s
  | op :: ops' => let* s' := run_op op s in run_ops ops' s'
  end.

(** An operation that keeps the version keeps the line. *)
Lemma run_op_version op s s' :
  run_op op s = Some s' ->
  (version s' = version s /\ input s' = input s) \/ version s' = wrapping_add 64 (version s) 1.
Proof.
  destruct op; cbn [run_op].
  - unfold note_input. destruct (apply_terminal_input_data text (input s)); [| done]. intros [= <-]. by right.
  - intros [= <-]. unfold accept_plan. destruct (_ || _); [by left | by right].
  - intros [= <-]. by left.
  - intros [= <-]. by right.
  - intros [= <-]. by right.
  - intros [= <-]. unfold deactivate. destruct (_ || _); by right.
  - intros [= <-]. unfold expire. destruct (phase s); try by left. destruct (last_input_at s); [| by left].
    destruct (_ <=? _); [by right | by left].
  - intros [= <-]. by left.
Qed.

(** Versions count the changes, modulo the width of the counter. *)
Lemma run_ops_version ops s s' :
  0 <= version s < 2 ^ 64 -> run_ops ops s = Some s' ->
  exists n, (n <= length ops)%nat /\ version s' = (version s + Z.of_nat n) mod 2 ^ 64 /\ (n = 0%nat -> input s' = input s).
Proof.
  revert s. induction ops as [| op ops IH]; intros s Hs; cbn [run_ops].
  { intros [= <-]. exists 0%nat. split; [done |]. split; [| done]. rewrite Z.add_0_r. symmetry. by apply Z.mod_small. }
  destruct (run_op op s) as [s1 |] eqn:E; [| done]. intros E'. destruct (run_op_version _ _ _ E) as [[Ev Ei] | Ev].
  - destruct (IH s1) as (n & Hn & Hver & Hin); [by rewrite Ev | done |]. exists n. cbn [length]. rewrite Ev in Hver.
    split; [lia |]. split; [done |]. intros ->. rewrite Hin by done. done.
  - pose proof (wrapping_add_range 64 (version s) 1). destruct (IH s1) as (n & Hn & Hver & _); [lia | done |].
    exists (S n). cbn [length]. split; [lia |]. split; [| done]. rewrite Hver, Ev. unfold wrapping_add, wrap.
    rewrite Zplus_mod_idemp_l. f_equal. lia.
Qed.

(** C9: A plan is accepted only for the line it was made for. Between making a
    plan and accepting it, any sequence of inputs, other plans, confirmations,
    invalidations, session switches and timeouts may happen (fewer than 2^64);
    if the plan is then accepted, the tracked line is still the one it was
    planned on and the line was confirmed. The state after acceptance is the one
    that the plan's keys produce from that line exactly when the inserted text
    has no carriage return, which [plan_edit] accepts: the tracker submits the
    line on a lone one and turns others into line feeds, so that its line has
    none, while the prediction has it. *)
Theorem accepted_plan_is_current graphemes s0 intent plan ops s now mode :
  0 <= version s0 < 2 ^ 64 -> Z.of_nat (length ops) < 2 ^ 64 -> tracker_ok (input s0) ->
  plan_edit graphemes (input s0) (version s0) intent = Some plan ->
  utf8_valid (insert_text_of plan) = true ->
  run_ops ops s0 = Some s -> snd (accept_plan plan now s) = true ->
  phase s = Ready /\ input s = input s0
  /\ (~ In 13 (insert_text_of plan) ->
      apply_all (plan_keys plan mode) (input s) = Some (input (fst (accept_plan plan now s))))
  /\ (In 13 (insert_text_of plan) ->
      exists t, apply_all (plan_keys plan mode) (input s) = Some t
      /\ ~ In 13 (value t) /\ In 13 (value (input (fst (accept_plan plan now s))))).
Proof.
  intros Hs0 Hops Hok Hplan Hv Hrun Hacc. destruct (run_ops_version ops s0 s Hs0 Hrun) as (n & Hn & Hver & Hin).
  destruct (plan_guards _ _ _ _ _ Hplan) as (_ & _ & _ & _ & _ & _ & Epv & _).
  revert Hacc. unfold accept_plan. destruct (decide (phase s = Ready)) as [Hr | Hr];
    [rewrite (bool_decide_eq_true_2 _ Hr) | by rewrite (bool_decide_eq_false_2 _ Hr)].
  cbn [negb orb]. destruct (Z.eqb_spec (input_version plan) (version s)) as [E | E]; [| done]. intros _.
  assert (n = 0%nat) as ->.
  { rewrite Epv, Hver in E. destruct (decide (n = 0)%nat); [done |].
    destruct (decide (version s0 + Z.of_nat n < 2 ^ 64)); [rewrite Z.mod_small in E by lia; lia |].
    assert (Hm : (version s0 + Z.of_nat n) mod 2 ^ 64 = version s0 + Z.of_nat n - 2 ^ 64).
    { symmetry. apply (Z.mod_unique_pos _ _ 1); lia. }
    lia. }
  split; [done |]. rewrite Hin by done. split; [done |]. cbn [fst input].
  split; intros H13; [by eapply plan_keys_predict | by eapply plan_cr_mispredicts].
Qed.

(** ** Examples *)
Definition scalar_graphemes (v : list Z) : list (list Z) := chars v.

(** The line of the source's test: "a界b " with the cursor behind the first character. *)
Definition demo_line : TerminalInputState := Tracked [97; 231; 149; 140; 98; 32] 1 false None false false false.
Definition demo_plan : EditPlan :=
  Plan 7 true 1 (Some (1, 4)%nat) 1 [231; 140; 171] (Tracked [97; 231; 140; 171; 98; 32] 4 false None false false false).

Lemma demo_ok : tracker_ok demo_line.
Proof.
  split; [constructor; [done | split; [done | by intros []] | apply Nat.leb_le; by vm_compute] |].
  exists [[97]; [231; 149; 140]; [98]; [32]], 1%nat. constructor; [by vm_compute | by vm_compute | by vm_compute | cbn; lia].
Qed.

Lemma demo_planned : plan_edit scalar_graphemes demo_line 7 (ReplaceRange 1 4 [231; 140; 171]) = Some demo_plan.
Proof. vm_compute. reflexivity. Qed.

Lemma plan_edit_predicts_witness : apply_all (plan_keys demo_plan true) demo_line = Some (predicted demo_plan).
Proof.
  apply (plan_edit_predicts scalar_graphemes demo_line 7 (ReplaceRange 1 4 [231; 140; 171]));
    [exact demo_ok | exact demo_planned | vm_compute; reflexivity | cbn; lia].
Defined.

(** The same replacement with a carriage return in the text. *)
Definition cr_plan : EditPlan :=
  Plan 7 true 1 (Some (1, 4)%nat) 1 [120; 13] (Tracked [97; 120; 13; 98; 32] 3 false None false true false).

Lemma accepted_plan_is_current_witness :
  let s := Shell demo_line 7 Ready None None in
  apply_all (plan_keys demo_plan false) demo_line = Some (input (fst (accept_plan demo_plan 5 s)))
  /\ exists t, apply_all (plan_keys cr_plan false) demo_line = Some t
     /\ ~ In 13 (value t) /\ In 13 (value (input (fst (accept_plan cr_plan 5 s)))).
Proof.
  pose proof (accepted_plan_is_current scalar_graphemes (Shell demo_line 7 Pending None (Some 0))) as H. split.
  - apply (H (ReplaceRange 1 4 [231; 140; 171]) demo_plan [QueueCursor (Some 0%nat); ConfirmEcho]
      (Shell demo_line 7 Ready None None) 5 false);
      [cbn; lia | cbn; lia | exact demo_ok | exact demo_planned | vm_compute; reflexivity | reflexivity | vm_compute; reflexivity | cbn; lia].
  - apply (H (ReplaceRange 1 4 [120; 13]) cr_plan [QueueCursor (Some 0%nat); ConfirmEcho]
      (Shell demo_line 7 Ready None None) 5 false);
      [cbn; lia | cbn; lia | exact demo_ok | vm_compute; reflexivity | vm_compute; reflexivity | reflexivity | vm_compute; reflexivity | cbn; tauto].
Defined.
