(* ===== verification/CommandShell.v ===== *)
(** Recognition of the program a submitted command line starts
    (zzclawterm-core/src/command_suggestion_suppression.rs): command segments,
    shell-like words, unwrapping of sudo, env and similar prefixes, and the
    tests for pagers, interpreters and line editors built on them.
    [to_lowercase] stands for the Unicode case tables of [str::to_lowercase].
    [None] is a panic. *)
From stdpp Require Import base list numbers strings.
From Stdlib Require Import ZArith Lia.
From S2P Require Import Prelude Text Boundary Prompt.

Definition interactive_commands : list string :=
  ["btop"; "htop"; "less"; "man"; "more"; "nano"; "nvim"; "top"; "vi"; "vim"; "watch"]%string.
Definition sudo_option_requires_value : list string := ["-C"; "-g"; "-h"; "-p"; "-T"; "-u"]%string.

Definition quote_char (c : list Z) : bool := beq c [39] || beq c [34].

(** The scanners keep the pieces read, the piece being read, the open quote and
    whether the last character was a backslash. *)
Record scan := Scan { pieces : list (list Z); current : list Z; quote : option (list Z); escaped : bool }.
Definition scan_start : scan := Scan [] [] None false.

Definition push_trimmed (s : scan) : list (list Z) :=
  if beq (trim (current s)) [] then pieces s else pieces s ++ [trim (current s)].

Definition segment_char (s : scan) (ch : list Z) : scan :=
  if escaped s then Scan (pieces s) (current s ++ ch) (quote s) false
  else if beq ch [92] && negb (bool_decide (quote s = Some [39]))
  then Scan (pieces s) (current s ++ ch) (quote s) true
  else if quote_char ch && bool_decide (quote s = None)
  then Scan (pieces s) (current s ++ ch) (Some ch) false
  else if bool_decide (quote s = Some ch) then Scan (pieces s) (current s ++ ch) None false
  else if bool_decide (quote s = None) && (beq ch [124] || beq ch [59] || beq ch [38])
  then Scan (push_trimmed s) [] (quote s) false
  else Scan (pieces s) (current s ++ ch) (quote s) false.
Definition split_command_segments (input : list Z) : list (list Z) :=
  push_trimmed (fold_left segment_char (chars input) scan_start).

Definition push_word (s : scan) : list (list Z) :=
  if beq (current s) [] then pieces s else pieces s ++ [current s].

Definition word_char (s : scan) (ch : list Z) : scan :=
  if escaped s then Scan (pieces s) (current s ++ ch) (quote s) false
  else if beq ch [92] && negb (bool_decide (quote s = Some [39]))
  then Scan (pieces s) (current s) (quote s) true
  else if quote_char ch && bool_decide (quote s = None) then Scan (pieces s) (current s) (Some ch) false
  else if bool_decide (quote s = Some ch) then Scan (pieces s) (current s) None false
  else if bool_decide (quote s = None) && is_whitespace ch then Scan (push_word s) [] (quote s) false
  else Scan (pieces s) (current s ++ ch) (quote s) false.
Definition tokenize_shell_like (input : list Z) : list (list Z) :=
  push_word (fold_left word_char (chars input) scan_start).

Definition is_alpha (b : Z) : bool := ((65 <=? b) && (b <=? 90)) || ((97 <=? b) && (b <=? 122)).
Definition is_alnum (b : Z) : bool := is_alpha b || ((48 <=? b) && (b <=? 57)).

(** An assignment word: a name, an equals sign, a value. *)
Definition env_name (token : list Z) : list Z := take_while (fun b => negb (b =? 61)) token.
Definition env_word (token : list Z) : bool :=
  has_byte 61 token
  && match env_name token with
     | [] => false
     | b :: _ => (is_alpha b || (b =? 95)) && forallb (fun c => is_alnum c || (c =? 95)) (env_name token)
     end.

(** Indices into the words, with the bound of the loop as fuel. *)
Fixpoint skip_env_loop (fuel : nat) (tokens : list (list Z)) (next : nat) : nat :=
  match fuel with
  | O => next
  | S fuel' =>
      match tokens !! next with
      | Some t => if env_word t then skip_env_loop fuel' tokens (S next) else next
      | None => next
      end
  end.
Definition skip_env_prefix (tokens : list (list Z)) (index : nat) : nat :=
  skip_env_loop (length tokens) tokens index.

Fixpoint skip_sudo_loop (fuel : nat) (tokens : list (list Z)) (next : nat) : nat :=
  match fuel with
  | O => next
  | S fuel' =>
      match tokens !! next with
      | None => next
      | Some token =>
          if beq token (bs "--") then S next
          else if negb (starts_with [45] token) || beq token (bs "-") then next
          else if one_of token sudo_option_requires_value then skip_sudo_loop fuel' tokens (next + 2)
          else skip_sudo_loop fuel' tokens (S next)
      end
  end.
Definition skip_sudo_like (tokens : list (list Z)) (index : nat) : nat :=
  skip_sudo_loop (length tokens) tokens (S index).

Fixpoint skip_dashes (fuel : nat) (tokens : list (list Z)) (index : nat) : nat :=
  match fuel with
  | O => index
  | S fuel' =>
      match tokens !! index with
      | Some t => if starts_with [45] t then skip_dashes fuel' tokens (S index) else index
      | None => index
      end
  end.

Definition has_option (tokens : list (list Z)) (long_name : string) (short_name : option Z) : bool :=
  existsb (fun token =>
    beq token (bs long_name)
    || match short_name with
       | Some short => starts_with [45] token && negb (starts_with (bs "--") token) && has_byte short token
       | None => false
       end) tokens.

Inductive outcome := Value (b : bool) | Panics | OutOfFuel.
Definition of_option (o : option bool) : outcome := match o with Some b => Value b | None => Panics end.

Section Recognition.
Context `{PM : PromptMatchers} (to_lowercase : list Z -> list Z).

Definition command_name (token : list Z) : list Z :=
  to_lowercase (after_last (Z.eqb 47) (replace_byte 92 47 token)).

Fixpoint unwrap_loop (fuel : nat) (tokens : list (list Z)) (index : nat) : nat :=
  match fuel with
  | O => index
  | S fuel' =>
      match tokens !! index with
      | None => index
      | Some token =>
          let name := command_name token in
          if one_of name ["sudo"; "doas"] then
            unwrap_loop fuel' tokens (skip_env_prefix tokens (skip_sudo_like tokens index))
          else if beq name (bs "env") then unwrap_loop fuel' tokens (skip_env_prefix tokens (S index))
          else if one_of name ["command"; "builtin"; "exec"; "time"] then unwrap_loop fuel' tokens (S index)
          else if one_of name ["nice"; "nohup"]
          then unwrap_loop fuel' tokens (skip_dashes (length tokens) tokens (S index))
          else index
      end
  end.

(** [tokens[index..]] panics when the index is beyond the end. *)
Definition unwrap_command (tokens : list (list Z)) : option (list (list Z)) :=
  let index := unwrap_loop (S (length tokens)) tokens (skip_env_prefix tokens 0) in
  if (index <=? length tokens)%nat then Some (drop index tokens) else None.

Definition command_segment_starts_interactive_program (segment : list Z) : option bool :=
  let* tokens := unwrap_command (tokenize_shell_like segment) in
  match tokens with
  | [] => Some false
  | first :: _ =>
      let name := command_name first in
      Some (if beq name [] then false
            else if one_of name interactive_commands then true
            else if beq name (bs "journalctl") then negb (has_option tokens "--no-pager" None)
            else if beq name (bs "tail") then has_option tokens "--follow" (Some 102)
            else false)
  end.

(** [Iterator::any]: later segments are not looked at once one answers yes. *)
Fixpoint any_segment (f : list Z -> option bool) (segments : list (list Z)) : option bool :=
  match segments with
  | [] => Some false
  | s :: rest => let* b := f s in if b then Some true else any_segment f rest
  end.

Definition command_starts_suggestion_suppressing_program (command : list Z) : option bool :=
  let normalized := sanitize_terminal_command command in
  if beq normalized [] then Some false
  else any_segment command_segment_starts_interactive_program (split_command_segments normalized).

Definition segment_reads_input (segment : list Z) : option bool :=
  let* tokens := unwrap_command (tokenize_shell_like segment) in
  match tokens with
  | [] => Some false
  | first :: rest =>
      let name := command_name first in
      Some (if one_of name ["cmd"; "powershell"; "pwsh"; "bash"; "zsh"; "fish"; "sh"; "wsl"] then
              (length tokens =? 1)%nat || forallb (fun t => one_of (to_ascii_lowercase t) ["-i"; "/k"]) rest
            else if one_of name ["python"; "python3"; "python2"; "node"; "ruby"; "php"] then
              (length tokens =? 1)%nat || existsb (fun t => one_of t ["-i"; "--interactive"; "-a"]) tokens
            else one_of name ["mysql"; "mariadb"; "psql"; "sqlite3"; "redis-cli"; "irb"; "ipython"; "R"; "julia";
                              "lua"; "telnet"; "ftp"; "sftp"])
  end.

Definition command_starts_interactive_input (command : list Z) : option bool :=
  let* b := command_starts_suggestion_suppressing_program command in
  if b then Some true else any_segment segment_reads_input (split_command_segments (sanitize_terminal_command command)).

(** The options of a container command; [None] for one that is not known. *)
Fixpoint container_options (fuel : nat) (tokens : list (list Z)) (index : nat) : option nat :=
  match fuel with
  | O => Some index
  | S fuel' =>
      match tokens !! index with
      | Some option =>
          if starts_with [45] option then
            if one_of option ["-i"; "-t"; "-it"; "-ti"; "--interactive"; "--tty"; "--rm"]
            then container_options fuel' tokens (S index)
            else if one_of option ["-u"; "--user"; "-w"; "--workdir"; "-e"; "--env"]
            then container_options fuel' tokens (index + 2)
            else None
          else Some index
      | None => Some index
      end
  end.

Definition runs_task (tokens : list (list Z)) : bool :=
  existsb (fun token =>
    one_of (to_ascii_lowercase token) ["-c"; "-e"; "--execute"; "--command"; "-command"; "-file"; "/c"]
    || starts_with (bs "--execute=") token || starts_with (bs "--command=") token) tokens.

Definition shell_name (name : list Z) : bool := one_of name ["bash"; "zsh"; "fish"; "sh"].

(** The words that a container command runs, or [None] if it is not an
    interactive one with known options. *)
Definition container_child (tokens : list (list Z)) : option (list (list Z)) :=
  if negb (match tokens !! 1%nat with Some t => one_of t ["exec"; "run"] | None => false end)
     || negb (has_option tokens "--interactive" (Some 105)) || negb (has_option tokens "--tty" (Some 116))
  then None
  else (fun index => drop (Nat.min (index + 1) (length tokens)) tokens)
         <$> container_options (length tokens) tokens 2.

Fixpoint line_editor (fuel : nat) (command : list Z) : outcome :=
  match fuel with
  | O => OutOfFuel
  | S fuel' =>
      match split_command_segments (sanitize_terminal_command command) with
      | [segment] =>
          match command_starts_suggestion_suppressing_program command with
          | None => Panics
          | Some true => Value false
          | Some false =>
              match unwrap_command (tokenize_shell_like segment) with
              | None => Panics
              | Some [] => Value false
              | Some (first :: rest) =>
                  let name := command_name first in
                  if one_of name ["docker"; "podman"] then
                    match container_child (first :: rest) with
                    | None => Value false
                    | Some child =>
                        match child with
                        | shell :: _ =>
                            if shell_name (command_name shell) then line_editor fuel' (join_with [32] child)
                            else Value false
                        | [] => Value false
                        end
                    end
                  else if one_of name ["ssh"; "telnet"; "ftp"; "sftp"] then Value false
                  else if runs_task (first :: rest) then Value false
                  else of_option (command_starts_interactive_input command)
              end
          end
      | _ => Value false
      end
  end.
Definition command_starts_line_editor (command : list Z) : outcome := line_editor (S (length command)) command.

Definition is_pager_search_or_command_input (value : list Z) : bool :=
  match trim_start value with b :: _ => (b =? 47) || (b =? 63) || (b =? 58) | [] => false end.
Definition is_pager_single_key_input (d : list Z) : bool :=
  one_of d [" "; "b"; "g"; "G"; "n"; "N"; "q"].
End Recognition.

(** ** Termination of the container recursion *)
#[local] Arguments chars : simpl never.
#[local] Arguments trim : simpl never.
#[local] Arguments beq : simpl never.

(** The bytes that words take when a separator follows each. *)
Definition weight (ws : list (list Z)) : nat := list_sum (map (fun w => S (length w)) ws).

Lemma weight_app a b : weight (a ++ b) = (weight a + weight b)%nat.
Proof. unfold weight. by rewrite map_app, list_sum_app. Qed.

Lemma weight_join ws : ws <> [] -> S (length (join_with [32] ws)) = weight ws.
Proof.
  induction ws as [| w ws IH]; [done |]. intros _. destruct ws as [| w' ws]; [cbn; lia |].
  change (join_with [32] (w :: w' :: ws)) with (w ++ [32] ++ join_with [32] (w' :: ws)).
  rewrite !length_app. specialize (IH ltac:(done)). change (weight (w :: w' :: ws)) with (S (length w) + weight (w' :: ws))%nat.
  cbn [length] in *. lia.
Qed.

Lemma weight_drop n ws : (0 < n)%nat -> ws <> [] -> (weight (drop n ws) < weight ws)%nat.
Proof.
  intros Hn Hw. rewrite <- (take_drop n ws) at 2. rewrite weight_app.
  destruct ws as [| w ws]; [done |]. destruct n; [lia |]. cbn. lia.
Qed.

Lemma weight_drop_le n ws : (weight (drop n ws) <= weight ws)%nat.
Proof. rewrite <- (take_drop n ws) at 2. rewrite weight_app. lia. Qed.

(** Scanning never makes text longer. *)
Lemma word_char_weight s ch : ch <> [] ->
  (weight (pieces (word_char s ch)) + length (current (word_char s ch))
   <= weight (pieces s) + length (current s) + length ch)%nat.
Proof.
  intros Hch. assert (1 <= length ch)%nat by (destruct ch; cbn; [done | lia]).
  unfold word_char, push_word. repeat case_match; cbn [pieces current]; rewrite ?length_app, ?weight_app; cbn; lia.
Qed.

Lemma tokenize_weight input : (weight (tokenize_shell_like input) <= S (length input))%nat.
Proof.
  unfold tokenize_shell_like.
  assert (H : forall cs s, Forall (fun c => c <> []) cs ->
    let s' := fold_left word_char cs s in
    (weight (pieces s') + length (current s') <= weight (pieces s) + length (current s) + clen cs)%nat).
  { induction cs as [| c cs IH]; intros s Hcs; cbn [fold_left]; [lia |]. apply Forall_cons in Hcs as [Hc Hcs].
    specialize (IH (word_char s c) Hcs). cbn zeta in IH. pose proof (word_char_weight s c Hc).
    change (c :: cs) with ([c] ++ cs). rewrite clen_app. unfold clen at 1. cbn. rewrite app_nil_r. lia. }
  specialize (H (chars input) scan_start (chars_nonempty input)). cbn zeta in H. unfold clen in H.
  rewrite concat_chars in H. cbn in H.
  set (s := fold_left word_char (chars input) scan_start) in *. unfold push_word. case_match; [lia |].
  rewrite weight_app. cbn. lia.
Qed.

Lemma segments_length input s : In s (split_command_segments input) -> (length s <= length input)%nat.
Proof.
  unfold split_command_segments.
  assert (H : forall cs s0,
    let s' := fold_left segment_char cs s0 in
    (length (current s') <= length (current s0) + clen cs)%nat
    /\ forall x, In x (pieces s') -> In x (pieces s0) \/ (length x <= length (current s0) + clen cs)%nat).
  { induction cs as [| c cs IH]; intros s0; cbn [fold_left]; [unfold clen; cbn; split; [lia | tauto] |].
    specialize (IH (segment_char s0 c)). cbn zeta in IH. destruct IH as [IH1 IH2].
    change (c :: cs) with ([c] ++ cs). rewrite clen_app. unfold clen at 1 3. cbn [concat]. rewrite app_nil_r.
    pose proof (trim_length (current s0)) as Ht.
    assert (Hc : (length (current (segment_char s0 c)) <= length (current s0) + length c)%nat
      /\ forall x, In x (pieces (segment_char s0 c)) -> In x (pieces s0) \/ (length x <= length (current s0))%nat).
    { unfold segment_char, push_trimmed. repeat case_match; cbn [current pieces]; rewrite ?length_app;
        (split; [cbn; lia | intros x Hx; try (by left)]).
      apply in_app_iff in Hx as [Hx | [<- | []]]; [by left | right; lia]. }
    destruct Hc as [Hc1 Hc2]. split; [lia |]. intros x Hx. destruct (IH2 x Hx) as [Hx' | Hx']; [| right; lia].
    destruct (Hc2 x Hx') as [? | ?]; [by left | right; lia]. }
  destruct (H (chars input) scan_start) as [H1 H2]. cbn [current pieces scan_start] in *. unfold clen in *.
  rewrite concat_chars in *. set (s' := fold_left segment_char (chars input) scan_start) in *.
  unfold push_trimmed. pose proof (trim_length (current s')) as Ht. cbn in H1, H2. case_match; intros Hin.
  - destruct (H2 s Hin) as [[] | ?]. done.
  - apply in_app_iff in Hin as [Hin | [<- | []]]; [by destruct (H2 s Hin) as [[] | ?] | lia].
Qed.

Section Termination.
Context `{PM : PromptMatchers} (to_lowercase : list Z -> list Z).

Lemma unwrap_suffix ts us : unwrap_command to_lowercase ts = Some us -> exists n, us = drop n ts.
Proof. unfold unwrap_command. case_match; [| done]. intros [= <-]. eauto. Qed.

Lemma container_child_shorter ts child :
  ts <> [] -> container_child ts = Some child -> child <> [] -> (weight child < weight ts)%nat.
Proof.
  intros Hts H Hc. unfold container_child in H. case_match; [done |].
  destruct (container_options (length ts) ts 2) as [i |] eqn:E; [| done]. cbn in H. injection H as <-.
  apply weight_drop; [| done]. destruct ts; [done |]. cbn. lia.
Qed.

Lemma line_editor_total fuel command :
  (length command < fuel)%nat ->
  line_editor to_lowercase fuel command <> OutOfFuel.
Proof.
  revert command. induction fuel as [| fuel IH]; intros command Hf; [lia |]. cbn [line_editor].
  destruct (split_command_segments (sanitize_terminal_command command)) as [| segment [|]] eqn:E; try done.
  assert (Hseg : (length segment <= length command)%nat).
  { etransitivity; [| apply (sanitize_length command)]. apply segments_length. rewrite E. by left. }
  destruct (command_starts_suggestion_suppressing_program _ _) as [[] |]; try done.
  destruct (unwrap_command to_lowercase (tokenize_shell_like segment)) as [[| first rest] |] eqn:Eu; try done.
  case_match; [| unfold of_option; by repeat case_match].
  destruct (container_child (first :: rest)) as [[| shell child] |] eqn:Ec; try done. case_match; [| done].
  apply IH. apply unwrap_suffix in Eu as (n & Eu).
  assert (H1 : (weight (shell :: child) < weight (first :: rest))%nat) by (by eapply container_child_shorter). rewrite Eu in H1.
  pose proof (weight_drop_le n (tokenize_shell_like segment)). pose proof (tokenize_weight segment).
  pose proof (weight_join (shell :: child) ltac:(done)). lia.
Qed.
End Termination.

(** Recognising a line editor terminates: the function calls itself on the
    command that a container command runs, and the text it builds for that call
    is shorter than the text it was given, whatever quotes and separators the
    words were written with. *)
Theorem line_editor_terminates `{PM : PromptMatchers} to_lowercase command :
  command_starts_line_editor to_lowercase command <> OutOfFuel.
Proof. apply line_editor_total. lia. Qed.

#[local] Existing Instance Backtrack.prompt_matchers.

Lemma line_editor_terminates_witness :
  command_starts_line_editor to_ascii_lowercase (bs "docker run -it a docker run -it b sh") <> OutOfFuel.
Proof. apply line_editor_terminates. Defined.

(** ** Where unwrapping panics *)

(** The last word is a sudo option whose value is missing. *)
Definition dangling (ts : list (list Z)) : Prop :=
  exists t, last ts = Some t /\ one_of t sudo_option_requires_value = true.

Lemma skip_env_bound fuel ts n : (n <= length ts)%nat -> (skip_env_loop fuel ts n <= length ts)%nat.
Proof.
  revert n. induction fuel as [| fuel IH]; intros n Hn; cbn; [done |].
  destruct (ts !! n) eqn:E; [| done]. case_match; [| done]. apply IH. apply lookup_lt_Some in E. lia.
Qed.

Lemma skip_env_beyond ts n : (length ts <= n)%nat -> skip_env_prefix ts n = n.
Proof.
  intros Hn. unfold skip_env_prefix. destruct (length ts) as [| f] eqn:E; [done |]. cbn.
  by rewrite lookup_ge_None_2 by lia.
Qed.

Lemma skip_dashes_bound fuel ts n : (n <= length ts)%nat -> (skip_dashes fuel ts n <= length ts)%nat.
Proof.
  revert n. induction fuel as [| fuel IH]; intros n Hn; cbn; [done |].
  destruct (ts !! n) eqn:E; [| done]. case_match; [| done]. apply IH. apply lookup_lt_Some in E. lia.
Qed.

Lemma skip_sudo_bound fuel ts n :
  (n <= length ts)%nat ->
  (skip_sudo_loop fuel ts n <= length ts)%nat \/ dangling ts.
Proof.
  revert n. induction fuel as [| fuel IH]; intros n Hn; cbn [skip_sudo_loop]; [by left |].
  destruct (ts !! n) as [t |] eqn:E; [| by left]. apply lookup_lt_Some in E as Hlt.
  case_match; [left; lia |]. case_match; [left; lia |]. destruct (one_of t sudo_option_requires_value) eqn:Eo.
  - destruct (decide (n + 2 <= length ts)%nat); [by apply IH |]. right. exists t. split; [| done].
    rewrite last_lookup. replace (Nat.pred (length ts)) with n by lia. done.
  - apply IH. lia.
Qed.

Section Unwrap.
Context (to_lowercase : list Z -> list Z).

Lemma unwrap_bound fuel ts n :
  (n <= length ts)%nat -> (unwrap_loop to_lowercase fuel ts n <= length ts)%nat \/ dangling ts.
Proof.
  revert n. induction fuel as [| fuel IH]; intros n Hn; cbn [unwrap_loop]; [by left |].
  destruct (ts !! n) as [t |] eqn:E; [| by left]. apply lookup_lt_Some in E as Hlt.
  case_match.
  - destruct (skip_sudo_bound (length ts) ts (S n)) as [H1 | H1]; [lia | | by right].
    apply IH. by apply skip_env_bound.
  - case_match; [apply IH; apply skip_env_bound; lia |]. case_match; [apply IH; lia |].
    case_match; [| left; lia]. apply IH. apply skip_dashes_bound. lia.
Qed.
End Unwrap.

(** Unwrapping prefixes yields a suffix of the words and does not panic,
    unless the last word is a sudo option that requires a value. *)
Theorem unwrap_command_safe to_lowercase ts :
  ~ dangling ts -> exists n, (n <= length ts)%nat /\ unwrap_command to_lowercase ts = Some (drop n ts).
Proof.
  intros Hd. unfold unwrap_command.
  destruct (unwrap_bound to_lowercase (S (length ts)) ts (skip_env_prefix ts 0)) as [H | H]; [| | done].
  - apply skip_env_bound. lia.
  - eexists. split; [exact H |]. by destruct (Nat.leb_spec (unwrap_loop to_lowercase (S (length ts)) ts (skip_env_prefix ts 0)) (length ts)); [| lia].
Qed.

(** ** A dangling option crashes *)
Definition flag_word (t : list Z) : Prop :=
  starts_with [45] t = true /\ t <> bs "--" /\ t <> bs "-" /\ one_of t sudo_option_requires_value = false.

Lemma skip_sudo_flags pre flags opt fuel :
  Forall flag_word flags -> one_of opt sudo_option_requires_value = true -> (length flags < fuel)%nat ->
  skip_sudo_loop fuel (pre ++ flags ++ [opt]) (length pre) = S (length (pre ++ flags ++ [opt])).
Proof.
  intros Hf Ho. revert pre fuel. induction Hf as [| t flags (H1 & H2 & H3 & H4) _ IH]; intros pre fuel Hfuel.
  - destruct fuel as [| fuel]; [cbn in Hfuel; lia |]. cbn [skip_sudo_loop app].
    rewrite list_lookup_middle by done. apply one_of_In in Ho as Hin.
    assert (E : beq opt (bs "--") = false /\ negb (starts_with [45] opt) || beq opt (bs "-") = false).
    { cbn in Hin. decompose [or] Hin; subst; try done. }
    destruct E as [-> ->]. rewrite Ho. destruct fuel as [| fuel]; cbn [skip_sudo_loop]; [rewrite length_app; cbn; lia |].
    rewrite lookup_ge_None_2 by (rewrite length_app; cbn; lia). rewrite length_app. cbn. lia.
  - destruct fuel as [| fuel]; [cbn in Hfuel; lia |]. cbn [skip_sudo_loop app]. rewrite list_lookup_middle by done.
    unfold beq at 1 2. rewrite !bool_decide_eq_false_2 by done. rewrite H1, H4. cbn [negb orb].
    replace (pre ++ t :: flags ++ [opt]) with ((pre ++ [t]) ++ flags ++ [opt]) by (by rewrite <- app_assoc).
    replace (S (length pre)) with (length (pre ++ [t])) by (rewrite length_app; cbn; lia).
    apply IH. cbn in Hfuel. lia.
Qed.

Lemma unwrap_dangling to_lowercase flags opt :
  to_lowercase (bs "sudo") = bs "sudo" ->
  Forall flag_word flags -> one_of opt sudo_option_requires_value = true ->
  unwrap_command to_lowercase (bs "sudo" :: flags ++ [opt]) = None.
Proof.
  intros Hl Hf Ho. set (ts := bs "sudo" :: flags ++ [opt]). unfold unwrap_command.
  assert (E0 : skip_env_prefix ts 0 = 0%nat) by reflexivity. rewrite E0.
  assert (E1 : skip_sudo_like ts 0 = S (length ts)).
  { unfold skip_sudo_like. apply (skip_sudo_flags [bs "sudo"] flags opt); [done | done |].
    unfold ts. cbn. rewrite length_app. cbn. lia. }
  cbn [unwrap_loop]. change (ts !! 0%nat) with (Some (bs "sudo")). cbn iota zeta.
  assert (En : command_name to_lowercase (bs "sudo") = bs "sudo") by (unfold command_name; apply Hl). rewrite En.
  change (one_of (bs "sudo") ["sudo"; "doas"]%string) with true. cbn iota. rewrite E1, skip_env_beyond by lia.
  assert (E2 : unwrap_loop to_lowercase (length ts) ts (S (length ts)) = S (length ts)).
  { unfold ts at 1. cbn [length unwrap_loop]. by rewrite lookup_ge_None_2 by lia. }
  rewrite E2. destruct (Nat.leb_spec (S (length ts)) (length ts)); [lia | done].
Qed.

(** A byte that both scanners take as part of a word. *)
Definition safe_byte (b : Z) : Prop := 33 <= b <= 126 /\ ~ In b [39; 34; 92; 124; 59; 38].

Lemma word_char_safe P cur b :
  safe_byte b -> word_char (Scan P cur None false) [b] = Scan P (cur ++ [b]) None false.
Proof.
  intros [H Hs]. cbn [In] in Hs. unfold word_char, quote_char, beq. cbn [escaped quote pieces current].
  rewrite !(bool_decide_eq_false_2 ([b] = _)) by (injection; lia). cbn [andb orb negb].
  rewrite !(bool_decide_eq_false_2 (None = _)) by done.
  rewrite (whitespace_word b) by (unfold word_byte; lia). by rewrite andb_false_r.
Qed.

Lemma segment_char_safe P cur b :
  safe_byte b \/ b = 32 -> segment_char (Scan P cur None false) [b] = Scan P (cur ++ [b]) None false.
Proof.
  intros H. assert (Hs : ~ In b [39; 34; 92; 124; 59; 38]) by (destruct H as [[_ H] | ->]; [done | cbn; lia]).
  cbn [In] in Hs. unfold segment_char, quote_char, beq. cbn [escaped quote pieces current].
  rewrite !(bool_decide_eq_false_2 ([b] = _)) by (injection; lia). cbn [andb orb negb].
  rewrite !(bool_decide_eq_false_2 (None = _)) by done. by rewrite andb_false_r.
Qed.

Lemma fold_word_safe w P cur rest :
  Forall safe_byte w ->
  fold_left word_char (map (fun b => [b]) w ++ rest) (Scan P cur None false)
  = fold_left word_char rest (Scan P (cur ++ w) None false).
Proof.
  revert cur. induction w as [| b w IH]; intros cur Hw; [by rewrite app_nil_r |].
  apply Forall_cons in Hw as [Hb Hw]. cbn [map app fold_left]. rewrite word_char_safe, IH by done.
  by rewrite <- app_assoc.
Qed.

Lemma fold_words ws P :
  Forall (fun w => w <> [] /\ Forall safe_byte w) ws -> ws <> [] ->
  push_word (fold_left word_char (map (fun b => [b]) (join_with [32] ws)) (Scan P [] None false)) = P ++ ws.
Proof.
  intros Hws Hne. revert P. induction Hws as [| w ws [Hw Hs] Hws IH]; [done |]. intros P.
  assert (Hb : beq w [] = false) by (unfold beq; by apply bool_decide_eq_false_2).
  destruct ws as [| w' ws].
  - cbn [join_with]. rewrite <- (app_nil_r (map _ w)), fold_word_safe by done. cbn [fold_left app].
    unfold push_word. cbn [current pieces]. by rewrite Hb.
  - change (join_with [32] (w :: w' :: ws)) with (w ++ 32 :: join_with [32] (w' :: ws)). rewrite map_app.
    rewrite fold_word_safe by done. cbn [map fold_left app].
    assert (E : word_char (Scan P w None false) [32] = Scan (P ++ [w]) [] None false).
    { change (word_char (Scan P w None false) [32]) with (Scan (push_word (Scan P w None false)) [] None false).
      unfold push_word. cbn [current pieces]. by rewrite Hb. }
    rewrite E, IH by done. by rewrite <- app_assoc.
Qed.

Lemma fold_segment_safe l P cur :
  Forall (fun b => safe_byte b \/ b = 32) l ->
  fold_left segment_char (map (fun b => [b]) l) (Scan P cur None false) = Scan P (cur ++ l) None false.
Proof.
  revert cur. induction l as [| b l IH]; intros cur Hl; [by rewrite app_nil_r |].
  apply Forall_cons in Hl as [Hb Hl]. cbn [map fold_left]. rewrite segment_char_safe, IH by done.
  by rewrite <- app_assoc.
Qed.

(** A line of plain words is one segment and is split into those words. *)
Lemma join_safe ws : Forall (fun w => w <> [] /\ Forall safe_byte w) ws ->
  Forall (fun b => safe_byte b \/ b = 32) (join_with [32] ws).
Proof.
  induction 1 as [| w ws [_ Hw] Hws IH]; [done |].
  assert (Hw' : Forall (fun b => safe_byte b \/ b = 32) w) by (eapply Forall_impl; [exact Hw | by left]).
  destruct ws as [| w' ws]; [done |].
  change (join_with [32] (w :: w' :: ws)) with (w ++ 32 :: join_with [32] (w' :: ws)). apply Forall_app. split; [done |].
  constructor; [by right | done].
Qed.

Lemma safe_chars l : Forall (fun b => safe_byte b \/ b = 32) l -> chars l = map (fun b => [b]) l.
Proof.
  induction 1 as [| b l Hb _ IH]; [done |].
  rewrite chars_cons_ascii by (destruct Hb as [[Hb _] | ->]; lia). cbn. by rewrite IH.
Qed.

Lemma words_tokens ws :
  Forall (fun w => w <> [] /\ Forall safe_byte w) ws -> ws <> [] ->
  tokenize_shell_like (join_with [32] ws) = ws.
Proof.
  intros Hws Hne. unfold tokenize_shell_like. rewrite safe_chars by (by apply join_safe). by apply fold_words.
Qed.

Lemma words_segment ws :
  Forall (fun w => w <> [] /\ Forall safe_byte w) ws -> ws <> [] -> trim (join_with [32] ws) = join_with [32] ws ->
  split_command_segments (join_with [32] ws) = [join_with [32] ws].
Proof.
  intros Hws Hne Ht. unfold split_command_segments. rewrite safe_chars by (by apply join_safe).
  unfold scan_start. rewrite fold_segment_safe by (by apply join_safe). unfold push_trimmed. cbn [current pieces app].
  rewrite Ht. destruct (beq (join_with [32] ws) []) eqn:E; [| done]. apply beq_true in E.
  destruct ws as [| w [| w' ws]]; [done | |]; apply Forall_cons in Hws as [[Hw _] _]; by destruct w.
Qed.

(** Submitting a sudo command line that ends in an option whose value is
    missing, such as "sudo -u", crashes: the index steps over the value that is
    not there and the slice of the words behind it is out of range. *)
Theorem sudo_dangling_option_panics `{PM : PromptMatchers} to_lowercase flags opt :
  to_lowercase (bs "sudo") = bs "sudo" ->
  Forall (fun f => flag_word f /\ Forall safe_byte f) flags -> one_of opt sudo_option_requires_value = true ->
  let line := join_with [32] (bs "sudo" :: flags ++ [opt]) in
  sanitize_terminal_command line = line -> trim line = line ->
  command_starts_suggestion_suppressing_program to_lowercase line = None
  /\ command_starts_interactive_input to_lowercase line = None
  /\ command_starts_line_editor to_lowercase line = Panics.
Proof.
  intros Hl Hf Ho line Hs Ht. set (ws := bs "sudo" :: flags ++ [opt]) in *.
  assert (Hsafe : Forall (fun w => w <> [] /\ Forall safe_byte w) ws).
  { constructor; [split; [done |] |].
    { repeat (constructor; [split; [vm_compute; by split | cbn; lia] |]). constructor. }
    apply Forall_app. split.
    - eapply Forall_impl; [exact Hf |]. intros f [(H1 & _) H2]. split; [by intros -> | done].
    - constructor; [| done]. apply one_of_In in Ho. cbn in Ho. decompose [or] Ho; subst; try done;
        (split; [done |]); repeat (constructor; [split; [vm_compute; by split | cbn; lia] |]); constructor. }
  assert (Hseg : split_command_segments line = [line]) by (by apply words_segment).
  assert (Hu : unwrap_command to_lowercase (tokenize_shell_like line) = None).
  { unfold line. rewrite words_tokens by done. apply unwrap_dangling; [done | | done].
    eapply Forall_impl; [exact Hf |]. by intros f [? _]. }
  assert (Hne : beq line [] = false) by (by unfold line, ws; cbn; destruct (flags ++ [opt])).
  assert (Hc : command_starts_suggestion_suppressing_program to_lowercase line = None).
  { unfold command_starts_suggestion_suppressing_program. rewrite Hs, Hne, Hseg. cbn [any_segment].
    unfold command_segment_starts_interactive_program. by rewrite Hu. }
  split_and!; [done | unfold command_starts_interactive_input; by rewrite Hc |].
  unfold command_starts_line_editor. cbn [line_editor]. by rewrite Hs, Hseg, Hc.
Qed.

Lemma sudo_dangling_option_panics_witness :
  command_starts_line_editor to_ascii_lowercase (bs "sudo -E -u") = Panics.
Proof.
  refine (proj2 (proj2 (sudo_dangling_option_panics to_ascii_lowercase [bs "-E"] (bs "-u") _ _ _ _ _)));
    try (vm_compute; done).
  constructor; [| done]. split; [by vm_compute |].
  repeat (constructor; [split; [vm_compute; by split | cbn; lia] |]). constructor.
Defined.
