(* ===== verification/HexDocument.v ===== *)
(** The byte editor (zzclawterm-core/src/hex_document.rs): nibble-wise typing,
    selections, insertion and deletion over a vector of bytes, and the text
    formats that are copied and pasted. [None] is a panic of an index or of a
    range beyond the bytes. *)
From stdpp Require Import base list numbers strings.
From Stdlib Require Import ZArith Lia.
From S2P Require Import Prelude Text.

Inductive HexNibble := High | Low.
Record HexCursor := Cursor { byte_index : nat; nibble : HexNibble }.
Record HexSelection := Selection { anchor : nat; send : nat }.
Record HexDocument := Doc {
  bytes : list Z;
  cursor : HexCursor;
  hselection : option HexSelection;
  pending_nibble : option Z
}.

Definition default : HexDocument := Doc [] (Cursor 0 High) None None.

(** The selected range, if it is not empty. *)
Definition selection (d : HexDocument) : option (nat * nat) :=
  match hselection d with
  | Some s =>
      let lo := Nat.min (anchor s) (send s) in
      let hi := Nat.max (anchor s) (send s) in
      if (lo =? hi)%nat then None else Some (lo, hi)
  | None => None
  end.

Definition selection_anchor (d : HexDocument) : nat :=
  match hselection d with Some s => anchor s | None => byte_index (cursor d) end.

Definition set_bytes (bs : list Z) (d : HexDocument) : HexDocument := Doc bs (Cursor 0 High) None None.

Definition move_cursor (c : HexCursor) (extend : bool) (d : HexDocument) : HexDocument :=
  let index := Nat.min (byte_index c) (length (bytes d)) in
  let sel := if extend then Some (Selection (selection_anchor d) index) else None in
  Doc (bytes d)
    (Cursor index (if (index =? length (bytes d))%nat then High else nibble c)) sel None.

Definition select_all (d : HexDocument) : HexDocument :=
  Doc (bytes d) (Cursor (length (bytes d)) High) (Some (Selection 0 (length (bytes d)))) None.

Definition cancel_selection (d : HexDocument) : HexDocument :=
  Doc (bytes d) (Cursor (byte_index (cursor d)) High) None None.

(** [Vec::drain] of a range, which panics beyond the end. *)
Definition drain (lo hi : nat) (l : list Z) : option (list Z) :=
  if (hi <=? length l)%nat then Some (take lo l ++ drop hi l) else None.

Definition delete_selection (d : HexDocument) : option (HexDocument * bool) :=
  match selection d with
  | None => Some (d, false)
  | Some (lo, hi) =>
      let* bs := drain lo hi (bytes d) in
      Some (Doc bs (Cursor lo High) None None, true)
  end.

Definition type_nibble (n : Z) (d : HexDocument) : option HexDocument :=
  if 15 <? n then Some d
  else
    let* p := delete_selection d in
    let d := fst p in
    let index := byte_index (cursor d) in
    match nibble (cursor d) with
    | High => Some (Doc (bytes d) (Cursor index Low) (hselection d) (Some n))
    | Low =>
        let* high := match pending_nibble d with
                     | Some h => Some h
                     | None => (fun b => Z.shiftr b 4) <$> bytes d !! index
                     end in
        let byte := Z.lor (wrap 8 (Z.shiftl high 4)) n in
        let* bs := if (index =? length (bytes d))%nat then Some (bytes d ++ [byte])
                   else if (index <? length (bytes d))%nat then Some (<[index := byte]> (bytes d)) else None in
        Some (Doc bs (Cursor (index + 1) High) (hselection d) None)
    end.

Definition insert_bytes (new : list Z) (d : HexDocument) : option HexDocument :=
  match new with
  | [] => Some d
  | _ =>
      let* p := delete_selection d in
      let d := fst p in
      let index := byte_index (cursor d) in
      if (index <=? length (bytes d))%nat
      then Some (Doc (take index (bytes d) ++ new ++ drop index (bytes d)) (Cursor (index + length new) High)
                   (hselection d) None)
      else None
  end.

Definition delete (backwards : bool) (d : HexDocument) : option HexDocument :=
  match pending_nibble d with
  | Some _ => Some (Doc (bytes d) (Cursor (byte_index (cursor d)) High) (hselection d) None)
  | None =>
      let* p := delete_selection d in
      let d := fst p in
      if snd p then Some d
      else
        let index := byte_index (cursor d) in
        if backwards && (0 <? index)%nat then
          let* bs := drain (index - 1) index (bytes d) in
          Some (Doc bs (Cursor (index - 1) High) (hselection d) None)
        else if negb backwards && (index <? length (bytes d))%nat then
          let* bs := drain index (index + 1) (bytes d) in
          Some (Doc bs (Cursor index High) (hselection d) None)
        else Some (Doc (bytes d) (Cursor index High) (hselection d) None)
  end.

Definition selected_bytes (d : HexDocument) : option (list Z) :=
  match selection d with
  | None => Some (bytes d)
  | Some (lo, hi) => if (hi <=? length (bytes d))%nat then Some (take (hi - lo) (drop lo (bytes d))) else None
  end.

(** ** Paste and copy *)
Inductive HexPasteError := InvalidFormat | IncompleteByte.

Definition hex_digit (ch : Z) : option Z :=
  if (48 <=? ch) && (ch <=? 57) then Some (ch - 48)
  else if (97 <=? ch) && (ch <=? 102) then Some (ch - 97 + 10)
  else if (65 <=? ch) && (ch <=? 70) then Some (ch - 65 + 10)
  else None.
Definition is_ascii_whitespace (ch : Z) : bool :=
  (ch =? 32) || (ch =? 9) || (ch =? 10) || (ch =? 12) || (ch =? 13).

Definition is_pair_prefix (l : list Z) : bool :=
  starts_with (bs "0x") l || starts_with (bs "0X") l || starts_with (bs "\x") l || starts_with (bs "\X") l.

(** A further digit directly behind a prefixed pair, unless it starts another
    prefix. *)
Definition runs_on (l : list Z) : bool :=
  match l with
  | ch :: _ =>
      match hex_digit ch with Some _ => true | None => false end
      && negb (starts_with (bs "0x") l) && negb (starts_with (bs "0X") l)
  | [] => false
  end.

Definition even (l : list Z) : bool := Nat.even (length l).

Fixpoint paste_loop (fuel : nat) (input digits : list Z) : result (list Z) HexPasteError :=
  match fuel, input with
  | _, [] | O, _ => Ok digits
  | S fuel', ch :: rest =>
      if is_ascii_whitespace ch || (ch =? 44) then
        if negb (even digits) then Err IncompleteByte else paste_loop fuel' rest digits
      else if is_pair_prefix input then
        if negb (even digits) then Err IncompleteByte
        else
          match drop 2 input with
          | c1 :: c2 :: rest2 =>
              let? d1 := ok_or (hex_digit c1) InvalidFormat in
              let? d2 := ok_or (hex_digit c2) InvalidFormat in
              if runs_on rest2 then Err InvalidFormat else paste_loop fuel' rest2 (digits ++ [d1; d2])
          | _ => Err IncompleteByte
          end
      else
        let? d := ok_or (hex_digit ch) InvalidFormat in
        paste_loop fuel' rest (digits ++ [d])
  end.

(** Consecutive digits in pairs. *)
Fixpoint pair_up (digits : list Z) : list Z :=
  match digits with
  | a :: b :: rest => Z.lor (wrap 8 (Z.shiftl a 4)) b :: pair_up rest
  | _ => []
  end.

Definition parse_hex_paste (text : list Z) : result (list Z) HexPasteError :=
  let? digits := paste_loop (length text) text [] in
  if even digits then Ok (pair_up digits) else Err IncompleteByte.

Inductive HexCopyFormat := Hex | Compact | CArray | Escaped | Ascii.

Definition upper_digit (d : Z) : Z := if d <? 10 then 48 + d else 55 + d.
(** [{b:02X}]. *)
Definition show_02X (b : Z) : list Z := [upper_digit (b / 16); upper_digit (b mod 16)].

Definition prefix_separator (f : HexCopyFormat) : list Z * list Z :=
  match f with
  | Hex => ([], [32])
  | Compact => ([], [])
  | CArray => (bs "0x", bs ", ")
  | Escaped => (bs "\x", [])
  | Ascii => ([], [])
  end.

Definition format_hex (l : list Z) (f : HexCopyFormat) : list Z :=
  match f with
  | Ascii => concat (map (fun b => if (32 <=? b) && (b <=? 126) then [b] else [194; 183]) l)
  | _ =>
      let '(prefix, separator) := prefix_separator f in
      join_with separator (map (fun b => prefix ++ show_02X b) l)
  end.

(** ** Well-formed documents *)
Inductive HexOp :=
| OSetBytes (new : list Z)
| OMove (c : HexCursor) (extend : bool)
| OSelectAll
| OCancel
| OType (n : Z)
| OInsert (new : list Z)
| ODelete (backwards : bool).

Definition run (op : HexOp) (d : HexDocument) : option HexDocument :=
  match op with
  | OSetBytes new => Some (set_bytes new d)
  | OMove c extend => Some (move_cursor c extend d)
  | OSelectAll => Some (select_all d)
  | OCancel => Some (cancel_selection d)
  | OType n => type_nibble n d
  | OInsert new => insert_bytes new d
  | ODelete backwards => delete backwards d
  end.

Record hd_ok (d : HexDocument) : Prop := {
  hd_index : (byte_index (cursor d) <= length (bytes d))%nat;
  hd_low : nibble (cursor d) = Low -> is_Some (pending_nibble d) \/ (byte_index (cursor d) < length (bytes d))%nat;
  hd_pending : forall n, pending_nibble d = Some n -> nibble (cursor d) = Low /\ 0 <= n <= 15;
  hd_selection : forall s, hselection d = Some s -> (anchor s <= length (bytes d))%nat /\ (send s <= length (bytes d))%nat;
  hd_bytes : bytes_ok (bytes d)
}.

(** The arguments of an operation are bytes and nibbles; a deletion does not
    meet a selection that has been collapsed to nothing. *)
Definition op_ok (op : HexOp) (d : HexDocument) : Prop :=
  match op with
  | OSetBytes new | OInsert new => bytes_ok new
  | OType n => 0 <= n
  | ODelete _ => hselection d = None \/ selection d <> None \/ pending_nibble d <> None
  | _ => True
  end.

Lemma selection_spec d lo hi :
  hd_ok d -> selection d = Some (lo, hi) -> (lo < hi <= length (bytes d))%nat.
Proof.
  intros H Hs. unfold selection in Hs. destruct (hselection d) as [s |] eqn:E; [| done].
  destruct (hd_selection d H s E) as [H1 H2]. destruct (Nat.eqb_spec (Nat.min (anchor s) (send s)) (Nat.max (anchor s) (send s)));
    [done |]. injection Hs as <- <-. lia.
Qed.

Lemma drain_ok lo hi l :
  (lo <= hi <= length l)%nat -> bytes_ok l ->
  exists l', drain lo hi l = Some l' /\ length l' = (length l - (hi - lo))%nat /\ bytes_ok l'.
Proof.
  intros H Hb. unfold drain. destruct (Nat.leb_spec hi (length l)); [| lia]. eexists. split; [done |].
  rewrite length_app, length_take, length_drop. split; [lia |].
  apply Forall_app. split; [by apply Forall_take | by apply Forall_drop].
Qed.

(** Deleting the selection succeeds; either there was none and nothing changed,
    or the selection is gone. *)
Lemma delete_selection_ok d :
  hd_ok d ->
  (selection d = None /\ delete_selection d = Some (d, false))
  \/ exists d', delete_selection d = Some (d', true) /\ hd_ok d' /\ hselection d' = None.
Proof.
  intros H. unfold delete_selection. destruct (selection d) as [[lo hi] |] eqn:E; [| by left]. right.
  pose proof (selection_spec d lo hi H E) as Hr.
  destruct (drain_ok lo hi (bytes d)) as (l & -> & Hl & Hb); [lia | apply H |]. eexists. split; [done |].
  split; [| done]. constructor; cbn; try done. lia.
Qed.

Lemma nibble_byte h n : 0 <= h <= 15 -> 0 <= n <= 15 -> byte_ok (Z.lor (wrap 8 (Z.shiftl h 4)) n).
Proof.
  intros Hh Hn. apply (lor_range 8); [lia | apply wrap_range; lia | lia].
Qed.

Lemma type_nibble_ok n d : hd_ok d -> 0 <= n -> exists d', type_nibble n d = Some d' /\ hd_ok d'.
Proof.
  intros H Hn. unfold type_nibble. destruct (Z.ltb_spec 15 n); [by exists d |].
  assert (Hd : exists d1 b, delete_selection d = Some (d1, b) /\ hd_ok d1).
  { destruct (delete_selection_ok d H) as [[_ ->] | (d1 & -> & H1 & _)]; eauto. }
  destruct Hd as (d1 & b & -> & H1). cbn [fst]. clear d H. destruct H1 as [A1 A2 A3 A4 A5].
  destruct (nibble (cursor d1)) eqn:En.
  - eexists. split; [done |]. constructor; cbn; try done; [by left |]. intros ? [= <-]. split; [done | lia].
  - set (i := byte_index (cursor d1)) in *.
    assert (Hh : exists h, match pending_nibble d1 with Some h => Some h | None => (fun b => Z.shiftr b 4) <$> bytes d1 !! i end
                  = Some h /\ 0 <= h <= 15).
    { destruct (pending_nibble d1) as [h |] eqn:Ep; [exists h; split; [done | by apply A3] |].
      destruct (A2 eq_refl) as [[? ?] | Hi]; [done |]. destruct (lookup_lt_is_Some_2 (bytes d1) i Hi) as [b0 Hb0].
      exists (Z.shiftr b0 4). rewrite Hb0. split; [done |]. apply (Forall_lookup_1 _ _ _ _ A5) in Hb0. unfold byte_ok in Hb0.
      rewrite Z.shiftr_div_pow2 by lia. change (2 ^ 4) with 16.
      pose proof (Z.div_lt_upper_bound b0 16 16 ltac:(lia) ltac:(lia)). pose proof (Z.div_pos b0 16 ltac:(lia) ltac:(lia)). lia. }
    destruct Hh as (h & -> & Hh). pose proof (nibble_byte h n Hh ltac:(lia)) as Hbyte.
    destruct (Nat.eqb_spec i (length (bytes d1))) as [Ei | Ei].
    + eexists. split; [done |]. constructor; cbn; rewrite ?length_app; cbn; try done; try lia.
      * intros s Hs. specialize (A4 s Hs). lia.
      * apply Forall_app. by split; [| constructor].
    + destruct (Nat.ltb_spec i (length (bytes d1))); [| lia]. eexists. split; [done |].
      constructor; cbn; rewrite ?length_insert; try done; try lia. by apply Forall_insert.
Qed.

Lemma insert_bytes_ok new d : hd_ok d -> bytes_ok new -> exists d', insert_bytes new d = Some d' /\ hd_ok d'.
Proof.
  intros H Hn. unfold insert_bytes. destruct new as [| b0 new]; [by exists d |].
  assert (Hd : exists d1 b, delete_selection d = Some (d1, b) /\ hd_ok d1).
  { destruct (delete_selection_ok d H) as [[_ ->] | (d1 & -> & H1 & _)]; eauto. }
  destruct Hd as (d1 & b & -> & H1). cbn [fst]. destruct H1 as [A1 A2 A3 A4 A5].
  destruct (Nat.leb_spec (byte_index (cursor d1)) (length (bytes d1))); [| lia]. eexists. split; [done |].
  set (i := byte_index (cursor d1)) in *.
  assert (El : length (take i (bytes d1) ++ (b0 :: new) ++ drop i (bytes d1)) = (length (bytes d1) + length (b0 :: new))%nat)
    by (rewrite !length_app, length_take, length_drop; lia).
  constructor; cbn [bytes cursor hselection pending_nibble byte_index nibble]; rewrite ?El; try done; try lia.
  - intros s Hs. specialize (A4 s Hs). lia.
  - apply Forall_app. split; [by apply Forall_take |]. apply Forall_app. split; [done | by apply Forall_drop].
Qed.

Lemma delete_ok backwards d : hd_ok d -> op_ok (ODelete backwards) d -> exists d', delete backwards d = Some d' /\ hd_ok d'.
Proof.
  intros H Hop. unfold delete. destruct (pending_nibble d) as [n |] eqn:Ep.
  { eexists. split; [done |]. destruct H as [A1 A2 A3 A4 A5]. by constructor. }
  destruct (delete_selection_ok d H) as [[Hs ->] | (d1 & -> & H1 & _)]; cbn [fst snd]; [| by exists d1].
  assert (Hn : hselection d = None) by (cbn in Hop; destruct Hop as [? | [? | ?]]; [done | by rewrite Hs in * | done]).
  destruct H as [A1 A2 A3 A4 A5]. set (i := byte_index (cursor d)) in *.
  destruct (backwards && (0 <? i)%nat) eqn:E1.
  - apply andb_true_iff in E1 as [_ E1]. apply Nat.ltb_lt in E1.
    destruct (drain_ok (i - 1) i (bytes d)) as (l & -> & Hl & Hb); [lia | done |]. eexists. split; [done |].
    rewrite Hn. constructor; cbn; try done. lia.
  - destruct (negb backwards && (i <? length (bytes d))%nat) eqn:E2.
    + apply andb_true_iff in E2 as [_ E2]. apply Nat.ltb_lt in E2.
      destruct (drain_ok i (i + 1) (bytes d)) as (l & -> & Hl & Hb); [lia | done |]. eexists. split; [done |].
      rewrite Hn. constructor; cbn; try done. lia.
    + eexists. split; [done |]. rewrite Hn. by constructor.
Qed.

(** Every operation of the byte editor keeps the document well formed and
    does not panic: the cursor is within the bytes, a low nibble is typed only
    over an existing byte or behind a typed high one, a typed nibble is below
    16, and the selection is within the bytes, as long as no deletion meets a
    selection collapsed to nothing; in such a document copying the selection
    does not panic either. *)
Theorem hex_document_well_formed op d :
  hd_ok d -> op_ok op d ->
  exists d', run op d = Some d' /\ hd_ok d' /\ is_Some (selected_bytes d').
Proof.
  intros H Hop. assert (Hr : exists d', run op d = Some d' /\ hd_ok d').
  { destruct op; cbn [run op_ok] in *.
    - eexists. split; [done |]. constructor; cbn; try done. lia.
    - eexists. split; [done |]. destruct H as [A1 A2 A3 A4 A5]. unfold move_cursor.
      constructor; cbn [bytes cursor hselection pending_nibble byte_index nibble]; try done; [lia | |].
      + destruct (Nat.eqb_spec (Nat.min (byte_index c) (length (bytes d))) (length (bytes d))); [done |]. right. lia.
      + intros s Hs. destruct extend; [| done]. injection Hs as <-. cbn. split; [| lia]. unfold selection_anchor.
        destruct (hselection d) as [s |] eqn:E; [by destruct (A4 s eq_refl) | done].
    - eexists. split; [done |]. destruct H. constructor; cbn; try done; try lia. intros s [= <-]. cbn. lia.
    - eexists. split; [done |]. destruct H. by constructor.
    - by apply type_nibble_ok.
    - by apply insert_bytes_ok.
    - by apply delete_ok. }
  destruct Hr as (d' & Hr & Hd'). exists d'. split_and!; [done | done |]. unfold selected_bytes.
  destruct (selection d') as [[lo hi] |] eqn:E; [| done]. pose proof (selection_spec d' lo hi Hd' E).
  destruct (Nat.leb_spec hi (length (bytes d'))); [done | lia].
Qed.

Lemma hex_document_well_formed_witness :
  exists d', run (OType 9) (Doc [72; 101] (Cursor 1 Low) (Some (Selection 1 1)) None) = Some d' /\ hd_ok d' /\ is_Some (selected_bytes d').
Proof.
  refine (hex_document_well_formed (OType 9) (Doc [72; 101] (Cursor 1 Low) (Some (Selection 1 1)) None) _ _); [| done].
  constructor; cbn; try done; [lia | right; lia | intros s [= <-]; cbn; lia |]. repeat constructor; done.
Defined.

(** A selection collapsed to nothing keeps its anchor: shift-moving at the
    end of any non-empty document, deleting backwards, and shift-moving to the
    start selects beyond the bytes, so that copying or deleting the selection
    panics. *)
Theorem hex_stale_anchor_panics new d :
  new <> [] ->
  let end_ := Cursor (length new) High in
  let d1 := move_cursor end_ true (move_cursor end_ false (set_bytes new d)) in
  exists d2, delete true d1 = Some d2
    /\ selected_bytes (move_cursor (Cursor 0 High) true d2) = None
    /\ delete true (move_cursor (Cursor 0 High) true d2) = None.
Proof.
  intros Hne end_ d1.
  assert (E1 : d1 = Doc new (Cursor (length new) High) (Some (Selection (length new) (length new))) None).
  { unfold d1, end_, move_cursor, set_bytes, selection_anchor. cbn. by rewrite Nat.min_id, Nat.eqb_refl. }
  destruct (exists_last Hne) as (l & x & ->). set (n := length (l ++ [x])) in *.
  assert (Hn : n = S (length l)) by (unfold n; rewrite length_app; cbn; lia).
  exists (Doc l (Cursor (length l) High) (Some (Selection n n)) None).
  assert (Ed : delete true d1 = Some (Doc l (Cursor (length l) High) (Some (Selection n n)) None)).
  { rewrite E1. unfold delete, delete_selection, selection. cbn [pending_nibble hselection anchor send].
    rewrite Nat.min_id, Nat.max_id, Nat.eqb_refl. cbn [fst snd cursor byte_index bytes andb].
    destruct (Nat.ltb_spec 0 n); [| lia]. unfold drain. fold n. rewrite Nat.leb_refl, Hn. cbn [Nat.sub].
    rewrite Nat.sub_0_r, take_app_length. by rewrite drop_ge, app_nil_r by (rewrite length_app; cbn; lia). }
  rewrite Ed. split; [done |].
  assert (Es : move_cursor (Cursor 0 High) true (Doc l (Cursor (length l) High) (Some (Selection n n)) None)
               = Doc l (Cursor 0 High) (Some (Selection n 0)) None).
  { unfold move_cursor. cbn. by destruct (length l). }
  rewrite Es. unfold selected_bytes, delete, delete_selection, selection. cbn [pending_nibble hselection anchor send bytes].
  rewrite Nat.min_0_r, Nat.max_0_r, Hn. cbn [Nat.eqb]. unfold drain.
  destruct (Nat.leb_spec (S (length l)) (length l)); [lia | done].
Qed.

Lemma hex_stale_anchor_panics_witness :
  exists d2, delete true (move_cursor (Cursor 1 High) true (move_cursor (Cursor 1 High) false (set_bytes [72] default))) = Some d2
    /\ selected_bytes (move_cursor (Cursor 0 High) true d2) = None
    /\ delete true (move_cursor (Cursor 0 High) true d2) = None.
Proof. by apply (hex_stale_anchor_panics [72] default). Defined.

(** ** Copy and paste *)
Lemma upper_digit_facts d : 0 <= d <= 15 ->
  hex_digit (upper_digit d) = Some d /\ upper_digit d <> 120 /\ upper_digit d <> 88 /\ upper_digit d <> 92
  /\ is_ascii_whitespace (upper_digit d) = false /\ (upper_digit d =? 44) = false.
Proof.
  intros H. assert (Hd : In d (map Z.of_nat (seq 0 16))).
  { apply in_map_iff. exists (Z.to_nat d). split; [lia |]. apply in_seq. lia. }
  revert Hd. cbn. intros Hd. decompose [or] Hd; subst; try done; vm_compute; split_and!; congruence.
Qed.

Lemma byte_digits b : byte_ok b ->
  0 <= b / 16 <= 15 /\ 0 <= b mod 16 <= 15 /\ Z.lor (wrap 8 (Z.shiftl (b / 16) 4)) (b mod 16) = b.
Proof.
  intros Hb. unfold byte_ok in Hb. pose proof (Z.div_lt_upper_bound b 16 16 ltac:(lia) ltac:(lia)).
  pose proof (Z.div_pos b 16 ltac:(lia) ltac:(lia)). pose proof (Z.mod_pos_bound b 16 ltac:(lia)).
  split_and!; try lia. rewrite wrap_small; [| rewrite Z.shiftl_mul_pow2 by lia; lia].
  apply Z.bits_inj'. intros i Hi. rewrite Z.lor_spec, Z.shiftl_spec by done.
  change 16 with (2 ^ 4) at 1 2. rewrite <- Z.shiftr_div_pow2 by lia.
  destruct (Z.ltb_spec i 4).
  - rewrite Z.testbit_neg_r by lia. cbn. by rewrite Z.mod_pow2_bits_low by lia.
  - rewrite Z.shiftr_spec by lia. rewrite Z.mod_pow2_bits_high by lia. rewrite orb_false_r. f_equal. lia.
Qed.

Definition digits_of (l : list Z) : list Z := concat (map (fun b => [b / 16; b mod 16]) l).

Lemma pair_up_digits l : bytes_ok l -> pair_up (digits_of l) = l.
Proof.
  induction 1 as [| b l Hb _ IH]; [done |]. cbn [digits_of map concat app pair_up].
  destruct (byte_digits b Hb) as (_ & _ & E). rewrite E. f_equal. apply IH.
Qed.

Lemma even_digits l r : even r = true -> even (r ++ digits_of l) = true.
Proof.
  unfold even, digits_of. rewrite length_app. intros H. induction l as [| b l IH]; [by rewrite Nat.add_0_r |].
  cbn [map concat app length]. rewrite !Nat.add_succ_r. exact IH.
Qed.

Lemma not_pair_prefix c c2 rest :
  c <> 92 -> c2 <> 120 -> c2 <> 88 -> is_pair_prefix (c :: c2 :: rest) = false.
Proof.
  intros H1 H2 H3. unfold is_pair_prefix, starts_with. cbn.
  repeat match goal with |- context [Z.eqb ?x ?y] => destruct (Z.eqb_spec x y); try lia end; done.
Qed.

Lemma not_pair_prefix_one c : is_pair_prefix [c] = false.
Proof.
  unfold is_pair_prefix, starts_with. cbn.
  repeat match goal with |- context [Z.eqb ?x ?y] => destruct (Z.eqb_spec x y); try lia end; done.
Qed.

(** What follows the digits of a byte in a format. *)
Definition follows (f : HexCopyFormat) (rest : list Z) : Prop :=
  match rest with
  | [] => True
  | c :: _ => c <> 120 /\ c <> 88 /\ (fst (prefix_separator f) <> [] -> hex_digit c = None)
  end.

(** Two plain digits are taken one by one. *)
Lemma paste_plain b rest digits fuel :
  byte_ok b -> match rest with [] => True | c :: _ => c <> 120 /\ c <> 88 end ->
  paste_loop (S (S fuel)) (show_02X b ++ rest) digits = paste_loop fuel rest (digits ++ [b / 16; b mod 16]).
Proof.
  intros Hb Hr. destruct (byte_digits b Hb) as (H1 & H2 & _). unfold show_02X. cbn [app].
  destruct (upper_digit_facts _ H1) as (A1 & A2 & A3 & A4 & A5 & A6).
  destruct (upper_digit_facts _ H2) as (B1 & B2 & B3 & B4 & B5 & B6).
  cbn [paste_loop]. rewrite A5, A6. cbn [orb]. rewrite not_pair_prefix by done. rewrite A1. cbn [ok_or result_bind].
  rewrite B5, B6. cbn [orb].
  assert (E : is_pair_prefix (upper_digit (b mod 16) :: rest) = false).
  { destruct rest as [| c rest]; [apply not_pair_prefix_one |]. destruct Hr. by apply not_pair_prefix. }
  rewrite E, B1. cbn [ok_or result_bind]. by rewrite <- app_assoc.
Qed.

(** A prefixed pair is taken at once. *)
Lemma paste_prefixed p b rest digits fuel :
  byte_ok b -> p = bs "0x" \/ p = bs "\x" -> even digits = true ->
  match rest with [] => True | c :: _ => hex_digit c = None end ->
  paste_loop (S fuel) (p ++ show_02X b ++ rest) digits = paste_loop fuel rest (digits ++ [b / 16; b mod 16]).
Proof.
  intros Hb Hp He Hr. destruct (byte_digits b Hb) as (H1 & H2 & _).
  destruct (upper_digit_facts _ H1) as (A1 & _). destruct (upper_digit_facts _ H2) as (B1 & _).
  assert (Hrun : runs_on rest = false) by (destruct rest as [| c rest]; [done |]; unfold runs_on; by rewrite Hr).
  unfold show_02X. destruct Hp as [-> | ->]; cbn [paste_loop]; cbn -[upper_digit paste_loop hex_digit runs_on even Z.div Z.modulo];
    rewrite He; cbn [negb]; rewrite A1, B1; cbn [ok_or result_bind]; by rewrite Hrun.
Qed.

Lemma paste_item f b rest digits fuel :
  f <> Ascii -> byte_ok b -> even digits = true -> follows f rest ->
  (length ((fst (prefix_separator f) ++ show_02X b) ++ rest) <= fuel)%nat ->
  exists fuel', (length rest <= fuel')%nat
    /\ paste_loop fuel ((fst (prefix_separator f) ++ show_02X b) ++ rest) digits
       = paste_loop fuel' rest (digits ++ [b / 16; b mod 16]).
Proof.
  intros Hf Hb He Hr Hl. rewrite <- app_assoc in *. rewrite !length_app in Hl. cbn [show_02X length] in Hl.
  destruct fuel as [| [| fuel]]; [lia | lia |].
  assert (Hp : fst (prefix_separator f) = [] \/ fst (prefix_separator f) = bs "0x" \/ fst (prefix_separator f) = bs "\x")
    by (destruct f; auto).
  destruct Hp as [E | E]; rewrite ?E in *.
  - exists fuel. split; [cbn in Hl; lia |]. cbn [app]. apply paste_plain; [done |]. by destruct rest; [| destruct Hr as (? & ? & _)].
  - assert (Hne : fst (prefix_separator f) <> []) by (destruct E as [-> | ->]; done).
    exists (S fuel). split; [destruct E as [E | E]; rewrite E in Hl; cbn in Hl; lia |].
    apply paste_prefixed; [done | done | done |]. destruct rest as [| c rest]; [done |]. destruct Hr as (_ & _ & Hr). auto.
Qed.

Lemma paste_separator f rest digits fuel :
  f <> Ascii -> even digits = true -> (length (snd (prefix_separator f) ++ rest) <= fuel)%nat ->
  exists fuel', (length rest <= fuel')%nat
    /\ paste_loop fuel (snd (prefix_separator f) ++ rest) digits = paste_loop fuel' rest digits.
Proof.
  intros Hf He Hl. destruct f; try done; cbn [prefix_separator snd] in *.
  - destruct fuel as [| fuel]; [cbn in Hl; lia |]. exists fuel. split; [cbn in Hl; lia |]. cbn. by rewrite He.
  - by exists fuel.
  - destruct fuel as [| [| fuel]]; [cbn in Hl; lia | cbn in Hl; lia |]. exists fuel. split; [cbn in Hl; lia |].
    change (bs ", ") with [44; 32]. cbn. rewrite He. cbn. done.
  - by exists fuel.
Qed.

Lemma follows_next f b l : f <> Ascii -> byte_ok b ->
  follows f (snd (prefix_separator f) ++ (fst (prefix_separator f) ++ show_02X b) ++ l).
Proof.
  intros Hf Hb. destruct (byte_digits b Hb) as (H1 & _). destruct (upper_digit_facts _ H1) as (_ & A2 & A3 & _).
  destruct f; try done; cbn; split_and!; try done.
Qed.

Lemma paste_text f l digits fuel :
  f <> Ascii -> bytes_ok l -> even digits = true ->
  (length (join_with (snd (prefix_separator f)) (map (fun b => fst (prefix_separator f) ++ show_02X b) l)) <= fuel)%nat ->
  paste_loop fuel (join_with (snd (prefix_separator f)) (map (fun b => fst (prefix_separator f) ++ show_02X b) l)) digits
  = Ok (digits ++ digits_of l).
Proof.
  intros Hf Hl. revert digits fuel. induction Hl as [| b l Hb Hl IH]; intros digits fuel He Hfuel.
  { cbn. rewrite app_nil_r. by destruct fuel. }
  set (P := fst (prefix_separator f)) in *. set (S := snd (prefix_separator f)) in *.
  assert (He' : even (digits ++ [b / 16; b mod 16]) = true) by (apply (even_digits [b] digits He)).
  destruct l as [| b2 l].
  - cbn [map join_with] in *. rewrite <- (app_nil_r (P ++ show_02X b)) in *.
    destruct (paste_item f b [] digits fuel Hf Hb He I Hfuel) as (fuel' & _ & E). fold P in E. rewrite E. by destruct fuel'.
  - set (R := join_with S (map (fun b => P ++ show_02X b) (b2 :: l))) in *.
    change (join_with S (map (fun b => P ++ show_02X b) (b :: b2 :: l))) with ((P ++ show_02X b) ++ S ++ R) in *.
    assert (Hfol : follows f (S ++ R)).
    { apply Forall_cons in Hl as [Hb2 _]. unfold R. destruct l as [| b3 l].
      - cbn [map join_with]. rewrite <- (app_nil_r (P ++ show_02X b2)). by apply follows_next.
      - change (join_with S (map (fun b => P ++ show_02X b) (b2 :: b3 :: l)))
          with ((P ++ show_02X b2) ++ S ++ join_with S (map (fun b => P ++ show_02X b) (b3 :: l))). by apply follows_next. }
    destruct (paste_item f b (S ++ R) digits fuel Hf Hb He Hfol Hfuel) as (fuel1 & H1 & E1). fold P in E1. rewrite E1.
    destruct (paste_separator f R (digits ++ [b / 16; b mod 16]) fuel1 Hf He' H1) as (fuel2 & H2 & E2). fold S in E2. rewrite E2.
    unfold R. rewrite IH by done. by rewrite <- app_assoc.
Qed.

(** Bytes copied in any of the four hexadecimal formats are pasted back as
    the same bytes. *)
Theorem hex_paste_roundtrip l f :
  bytes_ok l -> f <> Ascii -> parse_hex_paste (format_hex l f) = Ok l.
Proof.
  intros Hl Hf. assert (E : format_hex l f
    = join_with (snd (prefix_separator f)) (map (fun b => fst (prefix_separator f) ++ show_02X b) l)) by (by destruct f).
  unfold parse_hex_paste. rewrite E, paste_text by done. cbn [result_bind app].
  pose proof (even_digits l [] eq_refl) as He. cbn [app] in He. by rewrite He, pair_up_digits.
Qed.

Lemma hex_paste_roundtrip_witness :
  parse_hex_paste (bs "0x48, 0x00, 0xFF") = Ok [72; 0; 255].
Proof. apply (hex_paste_roundtrip [72; 0; 255] CArray); [repeat constructor; done | done]. Defined.

(** Typing the two digits of a byte at a high nibble, with nothing
    selected, changes no byte after the first digit and then overwrites the
    byte at the cursor, or appends it at the end, leaving the cursor behind it. *)
Theorem hex_typing_commits b d :
  hd_ok d -> byte_ok b -> selection d = None -> nibble (cursor d) = High ->
  let i := byte_index (cursor d) in
  exists d1, type_nibble (b / 16) d = Some d1 /\ bytes d1 = bytes d
    /\ exists d2, type_nibble (b mod 16) d1 = Some d2
       /\ bytes d2 = take i (bytes d) ++ [b] ++ drop (i + 1) (bytes d)
       /\ cursor d2 = Cursor (i + 1) High /\ pending_nibble d2 = None.
Proof.
  intros H Hb Hs Hn i. destruct (byte_digits b Hb) as (B1 & B2 & B3).
  assert (Hd : forall p n, delete_selection (Doc (bytes d) (Cursor i n) (hselection d) p)
                           = Some (Doc (bytes d) (Cursor i n) (hselection d) p, false)).
  { intros p n. unfold delete_selection, selection in *. cbn [hselection]. by destruct (hselection d); rewrite ?Hs. }
  assert (E0 : d = Doc (bytes d) (Cursor i High) (hselection d) (pending_nibble d)).
  { unfold i. destruct d as [l [j nb] s p]. cbn in *. by subst. }
  exists (Doc (bytes d) (Cursor i Low) (hselection d) (Some (b / 16))).
  split; [| split; [done |]].
  { rewrite E0 at 1. unfold type_nibble. destruct (Z.ltb_spec 15 (b / 16)); [lia |]. by rewrite Hd. }
  pose proof (hd_index d H) as Hi. fold i in Hi. unfold type_nibble. destruct (Z.ltb_spec 15 (b mod 16)); [lia |].
  rewrite Hd. cbn [fst cursor nibble pending_nibble byte_index bytes hselection]. rewrite B3.
  destruct (Nat.eqb_spec i (length (bytes d))) as [Ei | Ei].
  - eexists. split; [done |]. cbn. split_and!; try done.
    rewrite Ei, take_ge, drop_ge by lia. done.
  - destruct (Nat.ltb_spec i (length (bytes d))); [| lia]. eexists. split; [done |]. cbn. split_and!; try done.
    rewrite insert_take_drop by lia. by replace (S i) with (i + 1)%nat by lia.
Qed.

Lemma hex_typing_commits_witness :
  exists d1, type_nibble (75 / 16) (Doc [72; 73] (Cursor 1 High) None None) = Some d1 /\ bytes d1 = [72; 73]
    /\ exists d2, type_nibble (75 mod 16) d1 = Some d2 /\ bytes d2 = [72; 75]
       /\ cursor d2 = Cursor 2 High /\ pending_nibble d2 = None.
Proof.
  refine (hex_typing_commits 75 (Doc [72; 73] (Cursor 1 High) None None) _ _ _ _); try done.
  constructor; cbn; try done; [lia |]. repeat constructor; done.
Defined.
