(* ===== verification/TextEditSpec.v ===== *)
(** The contract of the text editor: a list of characters, a caret between two
    of them and possibly a mark at another place. The byte-offset editor of
    TextEdit implements it, so offsets always stay between characters and no
    slice panics. *)
From stdpp Require Import base list numbers strings.
From Stdlib Require Import ZArith Lia.
From S2P Require Import Prelude Text Boundary CharOffsets TextEdit.

#[local] Arguments chars : simpl never.
#[local] Arguments clen : simpl never.

(** ** The abstract editor *)
Record Line := mkLine { text : list (list Z); caret : nat; mark : option nat }.

Definition unmark (s : Line) : Line :=
  if bool_decide (mark s = Some (caret s)) then mkLine (text s) (caret s) None else s.
Definition span (s : Line) : nat * nat :=
  match mark s with Some m => (Nat.min m (caret s), Nat.max m (caret s)) | None => (caret s, caret s) end.
Definition put (lo hi : nat) (t : list (list Z)) (s : Line) : Line :=
  mkLine (take lo (text s) ++ t ++ drop hi (text s)) (lo + length t) None.

Section Words.
Context (alphanumeric : list Z -> bool).
Abbreviation class := (char_class alphanumeric).

Definition run_of (kind : CharClass) (cs : list (list Z)) : nat :=
  length (take_while (fun c => bool_decide (class c = kind)) cs).
Definition leading_run (cs : list (list Z)) : nat :=
  match cs with c :: _ => run_of (class c) cs | [] => O end.

(** Over white space, then over one run of a class. *)
Definition word_length (cs : list (list Z)) : nat :=
  let n := run_of Space cs in (n + leading_run (drop n cs))%nat.
Definition word_before (s : Line) : nat := caret s - word_length (rev (take (caret s) (text s))).
Definition word_after (s : Line) : nat := caret s + word_length (drop (caret s) (text s)).

Definition target (m : CursorMotion) (s : Line) : nat :=
  match m with
  | Left => caret s - 1
  | Right => Nat.min (S (caret s)) (length (text s))
  | WordLeft => word_before s
  | WordRight => word_after s
  | Start => 0
  | End_ => length (text s)
  end%nat.

Definition edge (m : CursorMotion) (s : Line) : nat :=
  match m with
  | Left | WordLeft => fst (span s)
  | Right | WordRight => snd (span s)
  | Start => 0%nat
  | End_ => length (text s)
  end.

Definition move (m : CursorMotion) (extend : bool) (s : Line) : Line :=
  if extend then unmark (mkLine (text s) (target m s) (Some (default (caret s) (mark s))))
  else mkLine (text s) (match mark s with Some _ => edge m s | None => target m s end) None.

(** Deletion answers whether there was something to delete. *)
Definition erase (lo hi : nat) (s : Line) : Line * bool :=
  let r := match mark s with Some _ => span s | None => (lo, hi) end in
  if (fst r <? snd r)%nat then (put (fst r) (snd r) [] s, true) else (s, false).

Inductive Action :=
  | Insert (t : list Z)
  | Replace (lo hi : nat) (t : list Z)
  | DeleteBackward
  | DeleteForward
  | DeleteWordBackward
  | Move (m : CursorMotion) (extend : bool)
  | SelectAll
  | SetCursor (offset : nat)
  | SetSelection (lo hi : nat) (reversed : bool)
  | SetContent (t : list Z).

Definition edit (a : Action) (s : Line) : Line * bool :=
  match a with
  | Insert t => (put (fst (span s)) (snd (span s)) (chars t) s, true)
  | Replace lo hi t =>
      let lo := whole_chars (text s) lo in
      (put lo (Nat.max (whole_chars (text s) hi) lo) (chars t) s, true)
  | DeleteBackward => erase (caret s - 1) (caret s) s
  | DeleteForward => erase (caret s) (Nat.min (S (caret s)) (length (text s))) s
  | DeleteWordBackward => erase (word_before s) (caret s) s
  | Move m extend => (move m extend s, true)
  | SelectAll => (unmark (mkLine (text s) (length (text s)) (Some 0%nat)), true)
  | SetCursor n => (mkLine (text s) (whole_chars (text s) n) None, true)
  | SetSelection lo hi reversed =>
      let start := whole_chars (text s) lo in
      let stop := whole_chars (text s) (Nat.max hi lo) in
      (unmark (if reversed then mkLine (text s) start (Some stop) else mkLine (text s) stop (Some start)), true)
  | SetContent t =>
      let place k := whole_chars (chars t) (clen (take k (text s))) in
      (unmark (mkLine (chars t) (place (caret s)) (place <$> mark s)), true)
  end.

(** The same actions of the byte-offset editor. *)
Definition act (a : Action) (e : TextEdit) : option (TextEdit * bool) :=
  match a with
  | Insert t => let* e' := insert t e in Some (e', true)
  | Replace lo hi t => let* e' := replace lo hi t e in Some (e', true)
  | DeleteBackward => delete_backward e
  | DeleteForward => delete_forward e
  | DeleteWordBackward => delete_word_backward alphanumeric e
  | Move m extend => let* e' := move_cursor alphanumeric m extend e in Some (e', true)
  | SelectAll => Some (select_all e, true)
  | SetCursor n => Some (set_cursor n e, true)
  | SetSelection lo hi reversed => Some (set_selection lo hi reversed e, true)
  | SetContent t => Some (set_content t e, true)
  end.

Definition typed (a : Action) : Prop :=
  match a with Insert t | Replace _ _ t | SetContent t => utf8_valid t = true | _ => True end.

Fixpoint act_all (acts : list Action) (e : TextEdit) : option (TextEdit * list bool) :=
  match acts with
  | [] => Some (e, [])
  | a :: acts' =>
      let* r := act a e in
      let* q := act_all acts' (fst r) in
      Some (fst q, snd r :: snd q)
  end.
Fixpoint edit_all (acts : list Action) (s : Line) : Line * list bool :=
  match acts with
  | [] => (s, [])
  | a :: acts' => let q := edit_all acts' (fst (edit a s)) in (fst q, snd (edit a s) :: snd q)
  end.

(** ** The representation *)
Record rep (e : TextEdit) (s : Line) : Prop := {
  rep_valid : utf8_valid (content e) = true;
  rep_text : chars (content e) = text s;
  rep_caret : cursor e = offset (text s) (caret s);
  rep_in : (caret s <= length (text s))%nat;
  rep_mark : anchor e = offset (text s) <$> mark s;
  rep_mark_in : forall m, mark s = Some m -> (m <= length (text s))%nat /\ m <> caret s;
}.

(** ** The editor's walks, counted in characters *)
Section Walks.
Context (e : TextEdit) (Hv : utf8_valid (content e) = true).
Abbreviation cs := (chars (content e)).

Lemma content_length : length (content e) = offset cs (length cs).
Proof. apply length_chars. Qed.

Lemma content_fuel : (length cs <= length (content e))%nat.
Proof. rewrite content_length, offset_all. apply length_offset, chars_nonempty. Qed.

Lemma previous_offset k :
  (k <= length cs)%nat -> previous_boundary e (offset cs k) = Some (offset cs (k - 1)).
Proof.
  intros Hk. unfold previous_boundary. rewrite floor_offset by done.
  rewrite (proj1 (slice_to_chars (content e) Hv k)). by rewrite last_char_start.
Qed.

Lemma slice_head k : exists p, slice_from (content e) (offset cs k) = Some p /\ head (chars p) = cs !! k.
Proof.
  destruct (slice_from_chars (content e) Hv k) as [E1 E2]. eexists. split; [exact E1 |]. rewrite E2.
  destruct (cs !! k) as [c |] eqn:E; [by rewrite (drop_S _ _ _ E) |].
  rewrite drop_ge; [done | by apply lookup_ge_None_1].
Qed.

Lemma next_offset k :
  (k <= length cs)%nat -> next_boundary e (offset cs k) = Some (offset cs (Nat.min (S k) (length cs))).
Proof.
  intros Hk. unfold next_boundary. rewrite floor_offset by done. destruct (slice_head k) as (p & -> & ->).
  f_equal. destruct (cs !! k) as [c |] eqn:E.
  - apply lookup_lt_Some in E as Hlt. rewrite Nat.min_l by lia. by rewrite (offset_nth _ _ _ E).
  - apply lookup_ge_None_1 in E. rewrite Nat.min_r by lia. f_equal. lia.
Qed.

Lemma class_at_offset k : class_at alphanumeric e (offset cs k) = Some (class <$> cs !! k).
Proof. unfold class_at. by destruct (slice_head k) as (p & -> & ->). Qed.

Lemma offset_zero k : (k <= length cs)%nat -> (offset cs k =? 0)%nat = (k =? 0)%nat.
Proof. intros Hk. apply (offset_eqb cs (chars_nonempty _) k 0); lia. Qed.

Lemma run_of_length kind l : (run_of kind l <= length l)%nat.
Proof.
  unfold run_of. induction l as [| c l IH]; cbn; [done |]. case_match; cbn; lia.
Qed.

Lemma back_loop_run kind k fuel :
  (k <= length cs)%nat -> (k <= fuel)%nat ->
  back_loop alphanumeric fuel e kind (offset cs k) = Some (offset cs (k - run_of kind (rev (take k cs)))).
Proof.
  revert fuel. induction k as [| k IH]; intros fuel Hk Hf.
  { destruct fuel; done. }
  destruct fuel as [| fuel]; [lia |]. cbn [back_loop]. rewrite offset_zero by done. cbn [Nat.eqb].
  rewrite previous_offset by done. replace (S k - 1)%nat with k by lia.
  rewrite class_at_offset.
  destruct (lookup_lt_is_Some_2 cs k) as [c Ec]; [lia |]. rewrite Ec, (take_S_r _ _ _ Ec), rev_app_distr.
  unfold run_of. cbn [rev app take_while fmap option_fmap option_map].
  destruct (decide (class c = kind)) as [E | E].
  - rewrite !bool_decide_eq_true_2 by congruence. rewrite IH by lia. done.
  - rewrite !bool_decide_eq_false_2 by congruence. done.
Qed.

Lemma forward_loop_run kind k fuel :
  (k <= length cs)%nat -> (length cs - k <= fuel)%nat ->
  forward_loop alphanumeric fuel e kind (offset cs k) = Some (offset cs (k + run_of kind (drop k cs))).
Proof.
  remember (length cs - k)%nat as m eqn:Hm. revert k Hm fuel. induction m as [| m IH]; intros k Hm fuel Hk Hf.
  { rewrite (drop_ge cs k) by lia. rewrite Nat.add_0_r. destruct fuel; [done |]. cbn [forward_loop].
    rewrite content_length, offset_leb by (apply chars_nonempty || lia).
    destruct (Nat.leb_spec (length cs) k); [done | lia]. }
  destruct fuel as [| fuel]; [lia |]. cbn [forward_loop].
  rewrite content_length, offset_leb by (apply chars_nonempty || lia).
  destruct (Nat.leb_spec (length cs) k); [lia |]. destruct (slice_head k) as (p & -> & ->).
  destruct (lookup_lt_is_Some_2 cs k) as [c Ec]; [lia |]. rewrite Ec, (drop_S _ _ _ Ec).
  unfold run_of. cbn [take_while]. destruct (bool_decide (class c = kind)) eqn:E.
  - rewrite <- (offset_nth _ _ _ Ec). rewrite IH by lia. do 2 f_equal. cbn [length]. fold (run_of kind (drop (S k) cs)). lia.
  - by rewrite Nat.add_0_r.
Qed.

Lemma word_boundary_before_walk k :
  (k <= length cs)%nat ->
  word_boundary_before alphanumeric e (offset cs k)
  = Some (offset cs (k - word_length (rev (take k cs)))).
Proof.
  intros Hk. pose proof content_fuel as Hf. unfold word_boundary_before. rewrite floor_offset by done.
  rewrite back_loop_run by lia. set (n := run_of Space (rev (take k cs))).
  assert (Hn : (n <= k)%nat).
  { pose proof (run_of_length Space (rev (take k cs))) as H. rewrite length_rev, length_take in H. lia. }
  assert (Hd : drop n (rev (take k cs)) = rev (take (k - n) cs)).
  { rewrite skipn_rev, length_take, (Nat.min_l k), take_take, Nat.min_l by lia. done. }
  unfold word_length. fold n. rewrite Hd. unfold class_before. rewrite offset_zero by lia.
  destruct (Nat.eqb_spec (k - n) 0) as [E | E].
  { rewrite E. cbn [take rev leading_run]. do 2 f_equal. lia. }
  rewrite previous_offset by lia. rewrite class_at_offset.
  destruct (lookup_lt_is_Some_2 cs (k - n - 1)) as [c Ec]; [lia |]. rewrite Ec.
  cbn [fmap option_fmap option_map]. rewrite back_loop_run by lia. do 2 f_equal.
  enough (El : leading_run (rev (take (k - n) cs)) = run_of (class c) (rev (take (k - n) cs))) by lia.
  replace (k - n)%nat with (S (k - n - 1)) by lia. by rewrite (take_S_r _ _ _ Ec), rev_app_distr.
Qed.

Lemma word_boundary_after_walk k :
  (k <= length cs)%nat ->
  word_boundary_after alphanumeric e (offset cs k) = Some (offset cs (k + word_length (drop k cs))).
Proof.
  intros Hk. pose proof content_fuel as Hf. unfold word_boundary_after. rewrite floor_offset by done.
  rewrite forward_loop_run by lia. set (n := run_of Space (drop k cs)).
  assert (Hn : (k + n <= length cs)%nat).
  { pose proof (run_of_length Space (drop k cs)) as H. rewrite length_drop in H. lia. }
  rewrite class_at_offset. unfold word_length. fold n. rewrite drop_drop.
  destruct (cs !! (k + n)%nat) as [c |] eqn:Ec; cbn [fmap option_fmap option_map].
  - rewrite forward_loop_run by lia. do 2 f_equal. rewrite (drop_S _ _ _ Ec). cbn [leading_run]. lia.
  - apply lookup_ge_None_1 in Ec. rewrite (drop_ge cs (k + n)) by lia. cbn [leading_run]. do 2 f_equal. lia.
Qed.
End Walks.

(** ** Each operation implements its abstract counterpart *)
Lemma rep_plain l k :
  utf8_valid l = true -> (k <= length (chars l))%nat ->
  rep (Edit l (offset (chars l) k) None) (mkLine (chars l) k None).
Proof. intros Hv Hk. by constructor. Qed.

Lemma rep_collapse l k m :
  utf8_valid l = true -> (k <= length (chars l))%nat -> (m <= length (chars l))%nat ->
  rep (collapse_empty_selection (Edit l (offset (chars l) k) (Some (offset (chars l) m))))
      (unmark (mkLine (chars l) k (Some m))).
Proof.
  intros Hv Hk Hm. unfold collapse_empty_selection, unmark. cbn [anchor cursor content mark caret text].
  destruct (decide (m = k)) as [-> | Hne].
  - rewrite !bool_decide_eq_true_2 by done. by apply rep_plain.
  - rewrite !bool_decide_eq_false_2; [| congruence |].
    + constructor; cbn; try done. intros m' [= <-]. done.
    + intros [= E]. apply Hne. eapply offset_inj; [apply (chars_nonempty l) | done | done | done].
Qed.

Lemma replace_put e s lo hi a b t :
  rep e s -> utf8_valid t = true ->
  floor_boundary (content e) lo = offset (text s) a ->
  Nat.max (floor_boundary (content e) hi) (offset (text s) a) = offset (text s) b ->
  (a <= b <= length (text s))%nat ->
  exists e', replace lo hi t e = Some e' /\ rep e' (put a b (chars t) s).
Proof.
  intros [Hv Ht _ _ _ _] Hvt Ea Eb [Hab Hb]. rewrite <- Ht in *. unfold replace. rewrite Ea, Eb.
  destruct (splice_chars (content e) Hv a b t Hvt) as (l' & -> & Hv' & Ec & El & _); [lia |].
  eexists. split; [reflexivity |]. rewrite El.
  constructor; cbn [content cursor anchor text caret mark put]; rewrite <- ?Ht, <- ?Ec; try done.
  rewrite Ec, !length_app, length_take. lia.
Qed.

Lemma replace_span e s a b t :
  rep e s -> utf8_valid t = true -> (a <= b <= length (text s))%nat ->
  exists e', replace (offset (text s) a) (offset (text s) b) t e = Some e' /\ rep e' (put a b (chars t) s).
Proof.
  intros Hr Hvt Hab. pose proof (rep_valid _ _ Hr) as Hv. pose proof (rep_text _ _ Hr) as Ht.
  pose proof (chars_nonempty (content e)) as Hne. rewrite Ht in Hne.
  apply replace_put; try done; rewrite <- Ht in *.
  - apply floor_offset; [done | lia].
  - rewrite floor_offset, offset_max by (done || lia). f_equal. lia.
Qed.

Lemma selection_span e s :
  rep e s ->
  selection e = (offset (text s) (fst (span s)), offset (text s) (snd (span s)))
  /\ (fst (span s) <= snd (span s) <= length (text s))%nat.
Proof.
  intros [Hv Ht Hc Hin Hm Hmi]. pose proof (chars_nonempty (content e)) as Hne. rewrite Ht in Hne.
  unfold selection, span. rewrite Hm, Hc. destruct (mark s) as [m |]; cbn [fmap option_fmap option_map fst snd]; [| done].
  destruct (Hmi m eq_refl) as [Hml Hmc]. rewrite offset_leb by done. destruct (Nat.leb_spec m (caret s)).
  - rewrite Nat.min_l, Nat.max_r by lia. done.
  - rewrite Nat.min_r, Nat.max_l by lia. split; [done | lia].
Qed.

Lemma delete_or_erase e s fallback a b :
  rep e s -> fallback = Some (offset (text s) a, offset (text s) b) -> (a <= b <= length (text s))%nat ->
  exists r, delete_or fallback e = Some r /\ rep (fst r) (fst (erase a b s)) /\ snd r = snd (erase a b s).
Proof.
  intros Hr -> Hab. destruct (selection_span e s Hr) as [Es Hs].
  pose proof (chars_nonempty (content e)) as Hne. rewrite (rep_text _ _ Hr) in Hne.
  unfold delete_or, erase, range_is_empty. rewrite Es. cbn [fst snd]. rewrite !offset_ltb by (done || lia).
  set (r := match mark s with Some _ => span s | None => (a, b) end).
  assert (Er : (if negb (fst (span s) <? snd (span s))%nat then Some (offset (text s) a, offset (text s) b)
                else Some (offset (text s) (fst (span s)), offset (text s) (snd (span s))))
               = Some (offset (text s) (fst r), offset (text s) (snd r)) /\ (fst r <= snd r <= length (text s))%nat).
  { subst r. pose proof (rep_mark_in _ _ Hr) as Hm. unfold span in *. destruct (mark s) as [m |]; cbn [fst snd] in *.
    - destruct (Hm m eq_refl). rewrite (proj2 (Nat.ltb_lt _ _)) by lia. done.
    - by rewrite Nat.ltb_irrefl. }
  destruct Er as [-> Hlen]. clearbody r. cbn [fst snd]. rewrite offset_ltb by (done || lia).
  destruct (Nat.ltb_spec (fst r) (snd r)); cbn [negb].
  - destruct (replace_span e s (fst r) (snd r) [] Hr eq_refl Hlen) as (e' & -> & Hr'). eexists. split; [reflexivity |]. done.
  - eexists. split; [reflexivity |]. done.
Qed.

Lemma word_length_le l : (word_length l <= length l)%nat.
Proof.
  unfold word_length. pose proof (run_of_length Space l) as H. set (n := run_of Space l) in *.
  assert (H' : (leading_run (drop n l) <= length (drop n l))%nat).
  { destruct (drop n l) as [| c d]; [done |]. apply run_of_length. }
  rewrite length_drop in H'. lia.
Qed.

Lemma target_in m s : (caret s <= length (text s))%nat -> (target m s <= length (text s))%nat.
Proof.
  intros Hc. destruct m; cbn [target]; try lia; unfold word_before, word_after; [lia |].
  pose proof (word_length_le (drop (caret s) (text s))) as H. rewrite length_drop in H. lia.
Qed.

Lemma move_target_offset m e s :
  rep e s -> move_target alphanumeric m e = Some (offset (text s) (target m s)).
Proof.
  intros Hr. pose proof (rep_valid _ _ Hr) as Hv. pose proof (rep_text _ _ Hr) as Ht.
  pose proof (rep_in _ _ Hr) as Hc. unfold move_target. rewrite (rep_caret _ _ Hr). rewrite <- Ht in *.
  destruct m; cbn [target]; unfold word_before, word_after; rewrite <- ?Ht.
  - by apply previous_offset.
  - by apply next_offset.
  - by apply word_boundary_before_walk.
  - by apply word_boundary_after_walk.
  - done.
  - by rewrite content_length.
Qed.

Lemma set_cursor_offset e s k :
  rep e s -> (k <= length (text s))%nat -> rep (set_cursor (offset (text s) k) e) (mkLine (text s) k None).
Proof.
  intros Hr Hk. pose proof (rep_valid _ _ Hr) as Hv. pose proof (rep_text _ _ Hr) as Ht. rewrite <- Ht in *.
  unfold set_cursor. rewrite floor_offset by done. by apply rep_plain.
Qed.

Lemma move_cursor_move m extend e s :
  rep e s -> exists e', move_cursor alphanumeric m extend e = Some e' /\ rep e' (move m extend s).
Proof.
  intros Hr. pose proof (rep_valid _ _ Hr) as Hv. pose proof (rep_text _ _ Hr) as Ht.
  pose proof (target_in m s (rep_in _ _ Hr)) as Hin. destruct (selection_span e s Hr) as [Es Hs].
  unfold move_cursor, move, has_selection, collapses. rewrite (move_target_offset m e s Hr), (rep_mark _ _ Hr).
  destruct extend; cbn [negb andb].
  - eexists. split; [reflexivity |]. rewrite (rep_caret _ _ Hr), <- Ht in *.
    replace (match offset (chars (content e)) <$> mark s with Some a => a | None => offset (chars (content e)) (caret s) end)
      with (offset (chars (content e)) (default (caret s) (mark s))) by (by destruct (mark s)).
    apply rep_collapse; [done | done |]. pose proof (rep_in _ _ Hr) as Hc. pose proof (rep_mark_in _ _ Hr) as Hm.
    rewrite Ht. destruct (mark s) as [k |]; cbn; [apply (Hm k eq_refl) | done].
  - destruct (mark s) as [k |] eqn:Ek; cbn [fmap option_fmap option_map].
    + rewrite Es. destruct m; (eexists; split; [reflexivity |]); apply set_cursor_offset; cbn [edge fst snd target]; try done; lia.
    + eexists. split; [reflexivity |]. by apply set_cursor_offset.
Qed.

Lemma floor_rep e s n : rep e s -> floor_boundary (content e) n = offset (text s) (whole_chars (text s) n).
Proof. intros Hr. rewrite <- (rep_text _ _ Hr). apply floor_whole, (rep_valid _ _ Hr). Qed.

(** Every action succeeds and has the effect of the abstract one. *)
Lemma act_edit a e s :
  rep e s -> typed a ->
  exists r, act a e = Some r /\ rep (fst r) (fst (edit a s)) /\ snd r = snd (edit a s).
Proof.
  intros Hr Hv. pose proof (rep_valid _ _ Hr) as Hve. pose proof (rep_text _ _ Hr) as Ht.
  pose proof (rep_in _ _ Hr) as Hin. destruct (selection_span e s Hr) as [Es Hs].
  destruct a; cbn [act edit typed] in *.
  - unfold insert. rewrite Es. cbn [fst snd]. destruct (replace_span e s _ _ t Hr Hv Hs) as (e' & -> & Hr'). eauto.
  - pose proof (whole_chars_length (text s) lo). pose proof (whole_chars_length (text s) hi).
    pose proof (chars_nonempty (content e)) as Hne. rewrite Ht in Hne.
    destruct (replace_put e s lo hi (whole_chars (text s) lo)
      (Nat.max (whole_chars (text s) hi) (whole_chars (text s) lo)) t) as (e' & -> & Hr'); eauto using floor_rep.
    + rewrite (floor_rep e s) by done. by apply offset_max.
    + lia.
  - apply delete_or_erase; [done | | lia]. rewrite (move_target_offset Left e s Hr : previous_boundary _ _ = _).
    by rewrite (rep_caret _ _ Hr).
  - apply delete_or_erase; [done | | lia]. rewrite (move_target_offset Right e s Hr : next_boundary _ _ = _).
    by rewrite (rep_caret _ _ Hr).
  - apply delete_or_erase; [done | | unfold word_before; lia].
    rewrite (move_target_offset WordLeft e s Hr : word_boundary_before _ _ _ = _). by rewrite (rep_caret _ _ Hr).
  - destruct (move_cursor_move m extend e s Hr) as (e' & -> & Hr'). eauto.
  - eexists. split; [reflexivity |]. split; [| done]. unfold select_all. rewrite (content_length e), <- Ht.
    apply (rep_collapse (content e) (length (chars (content e))) 0); [done | lia | lia].
  - eexists. split; [reflexivity |]. split; [| done]. unfold set_cursor. rewrite floor_whole, Ht by done.
    rewrite <- Ht. apply rep_plain; [done | apply whole_chars_length].
  - eexists. split; [reflexivity |]. split; [| done]. unfold set_selection. rewrite !floor_whole, <- Ht by done.
    destruct reversed; apply rep_collapse; auto using whole_chars_length.
  - eexists. split; [reflexivity |]. split; [| done]. unfold set_content.
    rewrite (rep_caret _ _ Hr), (rep_mark _ _ Hr). cbn [fst]. destruct (mark s) as [m |]; cbn [fmap option_fmap option_map].
    + rewrite !floor_whole by done. apply rep_collapse; auto using whole_chars_length.
    + rewrite !floor_whole by done. apply rep_plain; [done | apply whole_chars_length].
Qed.

(** C8: The text editor implements its character-level contract. Starting from
    any text, every sequence of insertions, replacements, deletions by
    character and by word, caret motions with and without selection, and
    changes of caret, selection or content at arbitrary byte offsets runs
    without a panic; its content is valid text whose characters are those of
    the abstract line, its caret and anchor stand between two characters, a
    kept anchor differs from the caret, and each deletion reports whether it
    removed something. *)
Theorem text_edit_refines t acts :
  utf8_valid t = true -> Forall typed acts ->
  exists r, act_all acts (new t) = Some r
    /\ rep (fst r) (fst (edit_all acts (mkLine (chars t) (length (chars t)) None)))
    /\ snd r = snd (edit_all acts (mkLine (chars t) (length (chars t)) None)).
Proof.
  intros Hv Ha. assert (Hr : rep (new t) (mkLine (chars t) (length (chars t)) None)).
  { unfold new. replace (length t) with (offset (chars t) (length (chars t))); [by apply rep_plain |].
    symmetry. apply (content_length (Edit t 0 None)). }
  revert Hr. generalize (mkLine (chars t) (length (chars t)) None) as s. generalize (new t) as e.
  induction Ha as [| a acts Ha _ IH]; intros e s Hr; [eexists; split; [reflexivity | done] |].
  destruct (act_edit a e s Hr Ha) as (r & Er & Hr' & Eb). destruct (IH _ _ Hr') as (q & Eq & Hq & Ebs).
  exists (fst q, snd r :: snd q). cbn [act_all edit_all]. rewrite Er, Eq. cbn. split_and!; [done | done | by f_equal].
Qed.

(** ** Double click *)
Lemma run_of_run kind l i : (i < run_of kind l)%nat -> exists c, l !! i = Some c /\ class c = kind.
Proof.
  unfold run_of. revert i. induction l as [| c l IH]; intros i Hi; cbn in Hi; [lia |].
  destruct (bool_decide (class c = kind)) eqn:E; cbn in Hi; [| lia]. apply bool_decide_eq_true_1 in E.
  destruct i as [| i]; [by exists c |]. apply IH. lia.
Qed.

Lemma run_of_stop kind l c : l !! run_of kind l = Some c -> class c <> kind.
Proof.
  unfold run_of. induction l as [| d l IH]; cbn; [done |].
  destruct (bool_decide (class d = kind)) eqn:E; cbn; [apply IH |]. intros [= <-].
  by apply bool_decide_eq_false_1 in E.
Qed.

Lemma lookup_rev_take (l : list (list Z)) k i :
  (i < k <= length l)%nat -> rev (take k l) !! i = l !! (k - 1 - i)%nat.
Proof.
  intros H. rewrite rev_alt. change (rev_append (take k l) []) with (reverse (take k l)).
  rewrite reverse_lookup by (rewrite length_take; lia).
  rewrite length_take, lookup_take_lt by lia. f_equal. lia.
Qed.

(** The characters [a..b) are the whole run of one class around the character [k]. *)
Definition class_run (s : Line) (k a b : nat) : Prop :=
  (a <= k < b)%nat /\ (b <= length (text s))%nat
  /\ exists kind,
    (forall i, (a <= i < b)%nat -> class <$> text s !! i = Some kind)
    /\ ((0 < a)%nat -> class <$> text s !! (a - 1)%nat <> Some kind)
    /\ class <$> text s !! b <> Some kind.

Lemma class_run_around s k c :
  text s !! k = Some c ->
  class_run s k (k - run_of (class c) (rev (take k (text s)))) (k + run_of (class c) (drop k (text s))).
Proof.
  intros Ec. apply lookup_lt_Some in Ec as Hk.
  pose proof (run_of_length (class c) (rev (take k (text s)))) as Hl. rewrite length_rev, length_take in Hl.
  pose proof (run_of_length (class c) (drop k (text s))) as Hr. rewrite length_drop in Hr.
  pose proof (run_of_run (class c) (rev (take k (text s)))) as Hbefore.
  pose proof (run_of_run (class c) (drop k (text s))) as Hafter.
  pose proof (run_of_stop (class c) (rev (take k (text s)))) as Hsb.
  pose proof (run_of_stop (class c) (drop k (text s))) as Hsa.
  assert (H0 : (0 < run_of (class c) (drop k (text s)))%nat).
  { rewrite (drop_S _ _ _ Ec). unfold run_of. cbn [take_while]. rewrite bool_decide_eq_true_2 by done. cbn. lia. }
  split; [lia |]. split; [lia |]. exists (class c). split; [| split].
  - intros i Hi. destruct (decide (i < k)%nat).
    + destruct (Hbefore (k - 1 - i)%nat ltac:(lia)) as (d & Ed & Hd). rewrite lookup_rev_take in Ed by lia.
      replace (k - 1 - (k - 1 - i))%nat with i in Ed by lia. rewrite Ed. cbn. by rewrite Hd.
    + destruct (Hafter (i - k)%nat ltac:(lia)) as (d & Ed & Hd). rewrite lookup_drop in Ed.
      replace (k + (i - k))%nat with i in Ed by lia. rewrite Ed. cbn. by rewrite Hd.
  - intros Ha E. apply fmap_Some in E as (d & Ed & Hd). apply (Hsb d); [| done].
    rewrite lookup_rev_take by lia. rewrite <- Ed. f_equal. lia.
  - intros E. apply fmap_Some in E as (d & Ed & Hd). apply (Hsa d); [| done]. by rewrite lookup_drop.
Qed.

(** A double click at any byte offset of a non-empty line selects, without a
    panic, the whole run of one character class around the character at the
    offset (the last character, for an offset at or behind the end): never
    nothing, never across a change of class, and never part of a run. *)
Theorem word_range_is_class_run e s n :
  rep e s -> text s <> [] ->
  exists a b, word_range_at alphanumeric e n = Some (offset (text s) a, offset (text s) b)
    /\ class_run s (Nat.min (whole_chars (text s) n) (length (text s) - 1)) a b.
Proof.
  intros Hr Hne. pose proof (rep_valid _ _ Hr) as Hv. pose proof (rep_text _ _ Hr) as Ht.
  pose proof (content_fuel e) as Hf. pose proof (whole_chars_length (text s) n) as Hw.
  assert (Hpos : (0 < length (text s))%nat) by (destruct (text s); [done | cbn; lia]).
  set (k := Nat.min (whole_chars (text s) n) (length (text s) - 1)).
  destruct (lookup_lt_is_Some_2 (text s) k) as [c Ec]; [lia |].
  do 2 eexists. split; [| by apply class_run_around].
  unfold word_range_at. rewrite (floor_rep e s) by done. rewrite (content_length e).
  destruct (content e) as [| b l] eqn:El; [by rewrite <- Ht in Hne |]. rewrite <- El, Ht in *.
  rewrite offset_eqb by (rewrite <- Ht; apply chars_nonempty || (rewrite Ht; lia)).
  assert (Ep : (if (whole_chars (text s) n =? length (text s))%nat
    then previous_boundary e (offset (text s) (whole_chars (text s) n))
    else Some (offset (text s) (whole_chars (text s) n))) = Some (offset (text s) k)).
  { destruct (Nat.eqb_spec (whole_chars (text s) n) (length (text s))) as [E | E].
    - rewrite E, <- Ht, previous_offset by (done || lia). do 2 f_equal. rewrite Ht. lia.
    - do 2 f_equal. lia. }
  apply lookup_lt_Some in Ec as Hk. clearbody k.
  rewrite Ep. rewrite <- Ht in *. rewrite class_at_offset, Ec by done. cbn [fmap option_fmap option_map].
  rewrite <- content_length, back_loop_run, forward_loop_run by (done || lia). done.
Qed.
End Words.

(** ** Examples *)
Definition ascii_alphanumeric (c : list Z) : bool :=
  match c with
  | [b] => ((48 <=? b) && (b <=? 57)) || ((65 <=? b) && (b <=? 90)) || ((97 <=? b) && (b <=? 122))
  | _ => false
  end.

Example text_edit_refines_witness :
  utf8_valid (bs "user@host.example") = true
  /\ act_all ascii_alphanumeric [Move WordLeft true; Insert (bs "lan"); Move Start true; DeleteBackward; DeleteBackward]
       (new (bs "user@host.example")) = Some (Edit [] 0 None, [true; true; true; true; false])
  /\ rep (Edit [] 0 None) (fst (edit_all ascii_alphanumeric
       [Move WordLeft true; Insert (bs "lan"); Move Start true; DeleteBackward; DeleteBackward]
       (mkLine (chars (bs "user@host.example")) 17 None))).
Proof.
  assert (H : act_all ascii_alphanumeric [Move WordLeft true; Insert (bs "lan"); Move Start true; DeleteBackward; DeleteBackward]
       (new (bs "user@host.example")) = Some (Edit [] 0 None, [true; true; true; true; false])) by (vm_compute; reflexivity).
  split; [vm_compute; reflexivity |]. split; [exact H |].
  destruct (text_edit_refines ascii_alphanumeric (bs "user@host.example")
    [Move WordLeft true; Insert (bs "lan"); Move Start true; DeleteBackward; DeleteBackward]) as (r & Er & Hr & _).
  - vm_compute. reflexivity.
  - repeat constructor.
  - rewrite H in Er. injection Er as <-. exact Hr.
Defined.

Example word_range_is_class_run_witness :
  word_range_at ascii_alphanumeric (new (bs "user@host")) 6 = Some (5, 9)%nat
  /\ exists a b,
    word_range_at ascii_alphanumeric (new (bs "user@host")) 6
      = Some (offset (chars (bs "user@host")) a, offset (chars (bs "user@host")) b)
    /\ class_run ascii_alphanumeric (mkLine (chars (bs "user@host")) 9 None) 6 a b.
Proof.
  split; [vm_compute; reflexivity |].
  apply (word_range_is_class_run ascii_alphanumeric (new (bs "user@host")) (mkLine (chars (bs "user@host")) 9 None) 6).
  - by apply (rep_plain (bs "user@host") 9); [| vm_compute; lia].
  - discriminate.
Defined.
