(* ===== verification/ShellArgs.v ===== *)
(** Saved terminal input policies and shell arguments
    (zzclawterm-core/src/terminal/connection_input.rs). *)
From stdpp Require Import base list numbers strings.
From Stdlib Require Import ZArith Lia.
From S2P Require Import Prelude Text Boundary.

#[local] Arguments chars : simpl never.

Inductive BackspaceMode := Delete | Backspace.
Definition parse_backspace_mode (value : list Z) : BackspaceMode :=
  if one_of value ["ctrl-h"; "ctrl_h"; "bs"] then Backspace else Delete.
Definition persistence_id (m : BackspaceMode) : list Z :=
  match m with Delete => bs "del" | Backspace => bs "ctrl_h" end.

Inductive KeepaliveMode := Disabled | Strict | Compatible.
Definition parse_keepalive_mode (value : list Z) : KeepaliveMode :=
  if beq value (bs "disabled") then Disabled else if beq value (bs "strict") then Strict else Compatible.

(** ** Arguments *)
Record scanner := Scanner {
  args : list (list Z);
  current : list Z;
  quote : option (list Z);
  started : bool
}.

Definition quote_char (c : list Z) : bool := beq c [39] || beq c [34].
Definition push (c : list Z) (s : scanner) : scanner := Scanner (args s) (current s ++ c) (quote s) true.

(** Whether a backslash escapes the character behind it. *)
Definition escapes (q : option (list Z)) (next : list Z) : bool :=
  match q with
  | Some active => beq next active || beq next [92]
  | None => is_whitespace next || quote_char next || beq next [92]
  end.

(** A character that is not a backslash. *)
Definition scan_char (c : list Z) (s : scanner) : scanner :=
  match quote s with
  | Some active =>
      if beq c active then Scanner (args s) (current s) None (started s)
      else Scanner (args s) (current s ++ c) (quote s) (started s)
  | None =>
      if quote_char c then Scanner (args s) (current s) (Some c) true
      else if is_whitespace c then
        if started s then Scanner (args s ++ [current s]) [] None false else s
      else push c s
  end.

Fixpoint scan_args (cs : list (list Z)) (s : scanner) : scanner :=
  match cs with
  | [] => s
  | c :: rest =>
      if beq c [92] then
        match rest with
        | next :: rest' => if escapes (quote s) next then scan_args rest' (push next s) else scan_args rest (push c s)
        | [] => push c s
        end
      else scan_args rest (scan_char c s)
  end.

(** The error is an unclosed quote. *)
Definition parse_shell_args (input : list Z) : result (list (list Z)) unit :=
  let s := scan_args (chars input) (Scanner [] [] None false) in
  match quote s with
  | Some _ => Err tt
  | None => Ok (if started s then args s ++ [current s] else args s)
  end.

(** ** Quoting and parsing back *)

(** An argument in double quotes, with its quotes and backslashes escaped. *)
Definition escape (c : list Z) : list (list Z) :=
  if beq c [34] || beq c [92] then [[92]; c] else [c].
Definition quoted (arg : list Z) : list Z := [34] ++ concat (concat (map escape (chars arg))) ++ [34].
Definition render (args : list (list Z)) : list Z := join_with [32] (map quoted args).

Lemma scan_quoted cs rest A cur :
  scan_args (concat (map escape cs) ++ [34] :: rest) (Scanner A cur (Some [34]) true)
  = scan_args rest (Scanner A (cur ++ concat cs) None true).
Proof.
  revert cur. induction cs as [| c cs IH]; intros cur; cbn [map concat app].
  - rewrite app_nil_r. done.
  - unfold escape. destruct (beq c [34] || beq c [92]) eqn:E.
    + cbn [app scan_args]. change (beq [92] [92]) with true. cbn match. cbn [escapes quote]. rewrite E.
      unfold push. cbn [args current quote]. rewrite IH. by rewrite app_assoc.
    + apply orb_false_iff in E as [E1 E2]. cbn [app scan_args]. rewrite E2. unfold scan_char. cbn [quote]. rewrite E1.
      cbn [args current started]. rewrite IH. by rewrite app_assoc.
Qed.

Lemma escape_bytes arg :
  utf8_valid arg = true -> chars (concat (concat (map escape (chars arg)))) = concat (map escape (chars arg)).
Proof.
  intros Hv. revert arg Hv. refine (utf8_valid_ind _ _ _); [done |]. intros l n E Hv IH.
  rewrite (chars_step l n E). cbn [map concat]. rewrite concat_app.
  assert (Hc : utf8_valid (take n l) = true /\ chars (take n l) = [take n l]).
  { pose proof (utf8_char_len_take _ _ E) as Et. split.
    - rewrite (utf8_valid_step _ _ Et), drop_ge; [done | rewrite length_take; lia].
    - rewrite (chars_step _ _ Et), take_ge, drop_ge by (rewrite length_take; lia). done. }
  destruct Hc as [Hvc Ec]. rewrite chars_app, IH.
  - f_equal. unfold escape. destruct (_ || _); cbn [concat]; rewrite app_nil_r; [| done].
    rewrite (chars_app [92]) by done. by rewrite Ec.
  - unfold escape. destruct (_ || _); cbn [concat]; rewrite app_nil_r; [| done]. by apply utf8_valid_app.
Qed.

Lemma chars_quoted arg rest :
  utf8_valid arg = true -> chars (quoted arg ++ rest) = [34] :: concat (map escape (chars arg)) ++ [34] :: chars rest.
Proof.
  intros Hv. unfold quoted. rewrite <- !app_assoc. rewrite (chars_app [34]) by done.
  change ([34] ++ rest) with (34 :: rest). rewrite chars_app_ascii by lia. rewrite escape_bytes by done. done.
Qed.

Lemma scan_one a rest A :
  utf8_valid a = true ->
  scan_args (chars (quoted a ++ rest)) (Scanner A [] None false) = scan_args (chars rest) (Scanner A a None true).
Proof.
  intros Hv. rewrite chars_quoted by done.
  change (scan_args ([34] :: ?x) (Scanner A [] None false)) with (scan_args x (Scanner A [] (Some [34]) true)).
  by rewrite scan_quoted, concat_chars.
Qed.

Lemma scan_render args0 A :
  Forall (fun a => utf8_valid a = true) args0 ->
  let s := scan_args (chars (render args0)) (Scanner A [] None false) in
  quote s = None /\ (if started s then args s ++ [current s] else args s) = A ++ args0.
Proof.
  intros H. revert A. induction H as [| a args0 Ha H IH]; intros A; [cbn; by rewrite app_nil_r |].
  destruct args0 as [| a' args0].
  - change (render [a]) with (quoted a). rewrite <- (app_nil_r (quoted a)), scan_one by done. done.
  - change (render (a :: a' :: args0)) with (quoted a ++ [32] ++ render (a' :: args0)).
    rewrite scan_one, (chars_app [32]) by done.
    change (scan_args (chars [32] ++ ?x) (Scanner A a None true)) with (scan_args x (Scanner (A ++ [a]) [] None false)).
    destruct (IH (A ++ [a])) as [IH1 IH2]. split; [exact IH1 |]. cbn zeta in *. rewrite IH2, <- app_assoc. done.
Qed.

(** Arguments survive the saved syntax: any list of arguments, empty ones and
    ones with spaces, quotes, backslashes and any other text included, written in
    double quotes with quotes and backslashes escaped, is parsed back to exactly
    the same list. *)
Theorem shell_args_roundtrip args0 :
  Forall (fun a => utf8_valid a = true) args0 -> parse_shell_args (render args0) = Ok args0.
Proof.
  intros H. unfold parse_shell_args. destruct (scan_render args0 [] H) as [E1 E2]. cbn zeta in *. by rewrite E1, E2.
Qed.

Lemma shell_args_roundtrip_witness :
  parse_shell_args (render [bs "-Command"; []; [97; 34; 92; 32; 39]; [228; 184; 173]])
  = Ok [bs "-Command"; []; [97; 34; 92; 32; 39]; [228; 184; 173]].
Proof. apply shell_args_roundtrip. apply (bool_decide_unpack _). vm_compute. exact I. Defined.
