(* ===== verification/AgentCapture.v ===== *)
(** * AgentCapture: the output of a command run for the agent
    (zzclawterm-terminal/src/agent_capture.rs)

    A command is wrapped so that the shell prints a start and an end marker
    around its output. The processor reads the session's output chunk by chunk,
    hides the control strings from the marker search, collects the text between
    the markers and reports it with the exit status; the retired filter removes
    the markers of a command that is no longer observed. Instants are
    nanoseconds and arguments; a [HashMap] is a [gmap] and is iterated in the
    order of [map_to_list]. *)
From stdpp Require Import base list numbers strings gmap.
From Stdlib Require Import ZArith Lia.
From S2P Require Import Prelude Text Boundary.

Definition MAX_CAPTURE_BYTES : Z := 8 * 1024 * 1024.
Definition MARKER_PREFIX : list Z := bs "__DF_CMD_".

Definition start_marker (id : list Z) : list Z := MARKER_PREFIX ++ bs "START_" ++ id ++ bs "__".
Definition end_prefix (id : list Z) : list Z := MARKER_PREFIX ++ bs "END_" ++ id ++ bs "_".

(** ** Standard library *)

(** [str::parse::<i32>]. *)
Definition parse_i32 (l : list Z) : option Z :=
  match l with
  | 45 :: ds => if beq ds [] then None else Z.opp <$> parse_digits 10 (2 ^ 31) 0 ds
  | _ => from_str_radix 10 (2 ^ 31 - 1) l
  end.

(** [str::match_indices]: occurrences from the left that do not overlap. *)
Fixpoint match_indices_from (p l : list Z) (skip i : nat) : list nat :=
  match l with
  | [] => []
  | _ :: l' =>
      match skip with
      | S k => match_indices_from p l' k (S i)
      | O =>
          if starts_with p l then i :: match_indices_from p l' (length p - 1) (S i)
          else match_indices_from p l' 0 (S i)
      end
  end.
Definition match_indices (p l : list Z) : list nat := match_indices_from p l 0 0.

(** [Iterator::min_by_key]: the first of the smallest elements. *)
Fixpoint min_by_key {A} (key : A -> nat) (l : list A) : option A :=
  match l with
  | [] => None
  | x :: l' =>
      match min_by_key key l' with
      | Some y => if (key x <=? key y)%nat then Some x else Some y
      | None => Some x
      end
  end.

Definition strip_suffix_byte (b : Z) (l : list Z) : list Z :=
  match rev l with c :: r => if c =? b then rev r else l | [] => l end.
Definition strip_suffix (s l : list Z) : option (list Z) := @rev Z <$> strip_prefix (rev s) (rev l).

(** [Instant::elapsed] in milliseconds, cast to a [u64]. *)
Definition elapsed_ms (now start : Z) : Z := wrap 64 (Z.max 0 (now - start) / 1000000).

(** ** Control strings *)
Record CaptureControlFilter := Control {
  cf_pending : list Z;
  in_string : option bool;
  string_escape : bool
}.
Definition control_default : CaptureControlFilter := Control [] None false.
Definition ESC : list Z := [27].

Definition has_pending (f : CaptureControlFilter) : bool :=
  bool_decide (is_Some (in_string f)) || negb (beq (cf_pending f) []).

(** The terminal queries that stay visible during a capture. *)
Definition is_query (body : list Z) : bool :=
  one_of body ["5n"; "6n"; "?6n"; "c"; "0c"; ">c"; ">0c"; "14t"; "16t"; "18t"; "19t"].

Definition final_byte (ch : list Z) : bool := match ch with [b] => (64 <=? b) && (b <=? 126) | _ => false end.

(** One character: the new state, the text and the queries it releases. *)
Definition control_step (f : CaptureControlFilter) (ch : list Z) : CaptureControlFilter * (list Z * list Z) :=
  match in_string f with
  | Some osc =>
      let closes := (osc && beq ch [7]) || beq ch [194; 156] || (string_escape f && beq ch [92]) in
      (Control (cf_pending f) (if closes then None else Some osc) (beq ch ESC), ([], []))
  | None =>
      if beq ch ESC then (Control ch None (string_escape f), ([], []))
      else if beq (cf_pending f) ESC then
        if beq ch [91] then (Control (cf_pending f ++ ch) None (string_escape f), ([], []))
        else if one_of ch ["]"; "P"; "X"; "^"; "_"] then (Control [] (Some (beq ch [93])) false, ([], []))
        else if beq ch [90] then (Control [] None (string_escape f), (ESC ++ [90], ESC ++ [90]))
        else (Control [] None (string_escape f), (cf_pending f ++ ch, []))
      else if starts_with (ESC ++ [91]) (cf_pending f) then
        let pending := cf_pending f ++ ch in
        if final_byte ch then
          (Control [] None (string_escape f), (pending, if is_query (drop 2 pending) then pending else []))
        else (Control (if 64 <? len pending then [] else pending) None (string_escape f), ([], []))
      else if beq ch [194; 155] then (Control (cf_pending f ++ ESC ++ [91]) None (string_escape f), ([], []))
      else if existsb (beq ch) [[194; 157]; [194; 144]; [194; 152]; [194; 158]; [194; 159]] then
        (Control (cf_pending f) (Some (beq ch [194; 157])) false, ([], []))
      else (f, (ch, []))
  end.

Fixpoint control_chars (f : CaptureControlFilter) (cs : list (list Z)) : CaptureControlFilter * (list Z * list Z) :=
  match cs with
  | [] => (f, ([], []))
  | ch :: cs' =>
      let '(f, (t, q)) := control_step f ch in
      let '(f, (t', q')) := control_chars f cs' in
      (f, (t ++ t', q ++ q'))
  end.
Definition control_process (f : CaptureControlFilter) (text : list Z) : CaptureControlFilter * (list Z * list Z) :=
  control_chars f (chars text).

(** ** The processor *)
Inductive CapturePhase := WaitingForStart | Capturing | PostCapture.
#[global] Instance CapturePhase_eq_dec : EqDecision CapturePhase.
Proof. solve_decision. Defined.

Record AgentCapturedOutput := Captured {
  marker_id : list Z;
  output : list Z;
  exit_code : option Z;
  duration_ms : Z;
  was_truncated : bool
}.
Record AgentCaptureProcessResult := Processed {
  visible_text : list Z;
  recording_text : list Z;
  completed_now : list AgentCapturedOutput
}.
Record AgentCaptureCancelResult := CancelResult {
  cancelled_output : AgentCapturedOutput;
  cancelled_recording : list Z
}.
Record ActiveCapture := Active {
  buffer : list Z;
  phase : CapturePhase;
  start_time : Z;
  source_truncated : bool;
  start_newline : bool;
  recording_tail : list Z;
  end_newline : bool
}.
Record AgentOutputCaptureProcessor := Processor {
  active : gmap (list Z) ActiveCapture;
  pending_marker_tail : list Z;
  completed : list AgentCapturedOutput;
  control_filter : CaptureControlFilter
}.

Definition new : AgentOutputCaptureProcessor := Processor ∅ [] [] control_default.

Definition with_active (a : gmap (list Z) ActiveCapture) (p : AgentOutputCaptureProcessor) : AgentOutputCaptureProcessor :=
  Processor a (pending_marker_tail p) (completed p) (control_filter p).
Definition with_tail (t : list Z) (p : AgentOutputCaptureProcessor) : AgentOutputCaptureProcessor :=
  Processor (active p) t (completed p) (control_filter p).
Definition with_control (f : CaptureControlFilter) (p : AgentOutputCaptureProcessor) : AgentOutputCaptureProcessor :=
  Processor (active p) (pending_marker_tail p) (completed p) f.
Definition with_phase (ph : CapturePhase) (c : ActiveCapture) : ActiveCapture :=
  Active (buffer c) ph (start_time c) (source_truncated c) (start_newline c) (recording_tail c) (end_newline c).

Definition register_with_end_newline (now : Z) (id : list Z) (end_newline : bool) (p : AgentOutputCaptureProcessor) :
    AgentOutputCaptureProcessor :=
  with_active (<[id := Active [] WaitingForStart now false true [] end_newline]> (active p)) p.
Definition register (now : Z) (id : list Z) (p : AgentOutputCaptureProcessor) : AgentOutputCaptureProcessor :=
  register_with_end_newline now id true p.

Definition no_active (p : AgentOutputCaptureProcessor) : bool := bool_decide (active p = ∅).
Definition has_pending_control (p : AgentOutputCaptureProcessor) : bool := has_pending (control_filter p).
Definition has_active (p : AgentOutputCaptureProcessor) : bool := negb (no_active p) || has_pending_control p.

Definition continue_control_sequences_from (previous p : AgentOutputCaptureProcessor) : AgentOutputCaptureProcessor :=
  with_control (control_filter previous) p.

Definition clear_tail_if_idle (p : AgentOutputCaptureProcessor) : AgentOutputCaptureProcessor :=
  if no_active p then with_tail [] p else p.

Definition cancel (now : Z) (id : list Z) (p : AgentOutputCaptureProcessor) :
    AgentOutputCaptureProcessor * option AgentCaptureCancelResult :=
  match active p !! id with
  | None => (p, None)
  | Some c =>
      (clear_tail_if_idle (with_active (delete id (active p)) p),
       Some (CancelResult (Captured id (buffer c) None (elapsed_ms now (start_time c)) (source_truncated c))
               (recording_tail c)))
  end.

Definition drain_completed (p : AgentOutputCaptureProcessor) : AgentOutputCaptureProcessor * list AgentCapturedOutput :=
  (Processor (active p) (pending_marker_tail p) [] (control_filter p), completed p).

(** [append_capture_output]: the capture and the recorded text of this call. *)
Definition newline_len (l : list Z) : nat :=
  if ends_with [13; 10] l then 2%nat else if ends_with [13] l || ends_with [10] l then 1%nat else 0%nat.

Definition record_text (c : ActiveCapture) (text recording : list Z) : list Z * list Z :=
  if beq text [] then (recording_tail c, recording)
  else
    let recording := recording ++ recording_tail c ++ text in
    let cut := (length recording - newline_len recording)%nat in
    (drop cut recording, take cut recording).

Definition append_text (c : ActiveCapture) (starting : bool) (text recording : list Z) : ActiveCapture * list Z :=
  let '(tail, recording) := record_text c text recording in
  let available := saturating_sub MAX_CAPTURE_BYTES (len (buffer c)) in
  let stop := floor_loop text (Z.to_nat (Z.min available (len text))) in
  (Active (buffer c ++ take stop text) (phase c) (start_time c)
     (source_truncated c || (stop <? length text)%nat) starting tail (end_newline c), recording).

Definition append_capture_output (c : ActiveCapture) (text recording : list Z) : ActiveCapture * list Z :=
  if start_newline c then
    match drop_byte 13 text with
    | [] => (c, recording)
    | text => append_text c false (match strip_prefix [10] text with Some t => t | None => text end) recording
    end
  else append_text c false text recording.

Definition any_in_phase (target : CapturePhase) (p : AgentOutputCaptureProcessor) : option (list Z) :=
  fst <$> List.find (fun kv => bool_decide (phase kv.2 = target)) (map_to_list (active p)).

(** The captures of a phase, in the order of the map. *)
Definition in_phase (target : CapturePhase) (p : AgentOutputCaptureProcessor) : list (list Z) :=
  map fst (List.filter (fun kv => bool_decide (phase kv.2 = target)) (map_to_list (active p))).

(** The text behind the marker that starts a capture. *)
Definition try_match_start (text : list Z) (p : AgentOutputCaptureProcessor) :
    option (AgentOutputCaptureProcessor * list Z) :=
  match min_by_key snd
          (omap (fun id => (fun start => (id, (start + length (start_marker id))%nat)) <$> find_sub (start_marker id) text)
             (in_phase WaitingForStart p)) with
  | None => None
  | Some (id, stop) => Some (with_active (alter (with_phase Capturing) id (active p)) p, drop stop text)
  end.

(** The end markers of one capture: start, end and exit status. *)
Definition end_matches (text id : list Z) : list (list Z * nat * nat * Z) :=
  omap (fun start =>
          let after := (start + length (end_prefix id))%nat in
          match find_sub (bs "__") (drop after text) with
          | None => None
          | Some suffix =>
              (fun code => (id, start, (after + suffix + 2)%nat, code)) <$> parse_i32 (take suffix (drop after text))
          end)
    (match_indices (end_prefix id) text).

Definition try_match_end (now : Z) (text recording : list Z) (p : AgentOutputCaptureProcessor) :
    option (AgentOutputCaptureProcessor * list Z) :=
  match min_by_key (fun m => m.1.1.2) (flat_map (end_matches text) (in_phase Capturing p)) with
  | None => None
  | Some (id, start, stop, code) =>
      match active p !! id with
      | None => None
      | Some c =>
          let '(c, recording) := append_capture_output c (take start text) recording in
          let recording := if end_newline c then recording else recording ++ recording_tail c in
          let done := Captured id (trim (buffer c)) (Some code) (elapsed_ms now (start_time c)) (source_truncated c) in
          let c := Active [] PostCapture (start_time c) (source_truncated c) (start_newline c) [] (end_newline c) in
          let a := if beq (trim (drop stop text)) [] then <[id := c]> (active p) else delete id (active p) in
          Some (Processor a (pending_marker_tail p) (completed p ++ [done]) (control_filter p), recording)
      end
  end.

Definition digits_or_minus (l : list Z) : bool := forallb (fun b => ((48 <=? b) && (b <=? 57)) || (b =? 45)) l.

Definition is_possible_marker_prefix (p : AgentOutputCaptureProcessor) (value : list Z) : bool :=
  negb (beq value [])
  && (starts_with value MARKER_PREFIX
      || existsb (fun kv =>
           starts_with value (start_marker kv.1) || starts_with value (end_prefix kv.1)
           || (starts_with (end_prefix kv.1) value
               && (length value <=? length (end_prefix kv.1) + 12)%nat
               && digits_or_minus (strip_suffix_byte 95 (drop (length (end_prefix kv.1)) value))))
           (map_to_list (active p))).

Fixpoint tail_start (p : AgentOutputCaptureProcessor) (cs : list (list Z)) (idx : nat) : option nat :=
  match cs with
  | [] => None
  | c :: cs' => if is_possible_marker_prefix p (concat cs) then Some idx else tail_start p cs' (idx + length c)
  end.
Definition possible_marker_tail_start (p : AgentOutputCaptureProcessor) (text : list Z) : option nat :=
  tail_start p (chars text) 0.

Definition append_to (id text recording : list Z) (p : AgentOutputCaptureProcessor) :
    AgentOutputCaptureProcessor * list Z :=
  match active p !! id with
  | None => (p, recording)
  | Some c =>
      let '(c, recording) := append_capture_output c text recording in
      (with_active (<[id := c]> (active p)) p, recording)
  end.

(** One turn of the loop over the text that remains. *)
Definition process_turn (now : Z) (remaining visible recording : list Z) (p : AgentOutputCaptureProcessor) :
    AgentOutputCaptureProcessor * list Z * list Z * list Z :=
  match try_match_start remaining p with
  | Some (p, after) => (p, after, visible, recording)
  | None =>
  match try_match_end now remaining recording p with
  | Some (p, recording) => (p, [], visible, recording)
  | None =>
  match any_in_phase Capturing p with
  | Some id =>
      match find_sub MARKER_PREFIX remaining with
      | Some pos =>
          let '(p, recording) := append_to id (take pos remaining) recording p in
          let candidate := drop pos remaining in
          if is_possible_marker_prefix p candidate
          then (with_tail (pending_marker_tail p ++ candidate) p, [], visible, recording)
          else if (pos =? 0)%nat then
            let '(p, recording) := append_to id MARKER_PREFIX recording p in
            (p, drop (length MARKER_PREFIX) remaining, visible, recording)
          else (p, candidate, visible, recording)
      | None =>
          let at_tail := match possible_marker_tail_start p remaining with Some i => i | None => length remaining end in
          let '(p, recording) := append_to id (take at_tail remaining) recording p in
          (with_tail (pending_marker_tail p ++ drop at_tail remaining) p, [], visible, recording)
      end
  | None =>
  match any_in_phase PostCapture p with
  | Some id => (clear_tail_if_idle (with_active (delete id (active p)) p), [], visible, recording)
  | None =>
  match any_in_phase WaitingForStart p with
  | Some _ =>
      (match possible_marker_tail_start p remaining with
       | Some i => with_tail (pending_marker_tail p ++ drop i remaining) p
       | None => p
       end, [], visible, recording)
  | None =>
      match find_sub MARKER_PREFIX remaining with
      | Some pos =>
          if (pos =? 0)%nat
          then (p, drop (length MARKER_PREFIX) remaining, visible ++ MARKER_PREFIX, recording)
          else (p, drop pos remaining, visible ++ take pos remaining, recording)
      | None => (p, [], visible ++ remaining, recording)
      end
  end end end end end.

(** The fuel is the length of the text, of which every turn consumes some. *)
Fixpoint process_loop (fuel : nat) (now : Z) (remaining visible recording : list Z) (p : AgentOutputCaptureProcessor) :
    AgentOutputCaptureProcessor * list Z * list Z :=
  match fuel, remaining with
  | S fuel', _ :: _ =>
      let '(p, remaining, visible, recording) := process_turn now remaining visible recording p in
      process_loop fuel' now remaining visible recording p
  | _, _ => (p, visible, recording)
  end.

Definition finish_call (visible recording : list Z) (p : AgentOutputCaptureProcessor) :
    AgentOutputCaptureProcessor * AgentCaptureProcessResult :=
  let '(p, done) := drain_completed p in (p, Processed visible recording done).

Definition process (now : Z) (text : list Z) (p : AgentOutputCaptureProcessor) :
    AgentOutputCaptureProcessor * AgentCaptureProcessResult :=
  if negb (has_active p) then finish_call text [] p
  else
    let '(f, (filtered, queries)) := control_process (control_filter p) text in
    let p := with_control f p in
    if no_active p then finish_call filtered [] p
    else
      let remaining := pending_marker_tail p ++ filtered in
      let '(p, visible, recording) := process_loop (length remaining) now remaining queries [] (with_tail [] p) in
      finish_call visible recording p.

(** ** The filter of late markers *)
Record RetiredCaptureFilter := Retired {
  r_start : list Z;
  r_end : list Z;
  r_pending : list Z;
  r_control : CaptureControlFilter;
  finished : bool
}.
Definition retired_new (id : list Z) : RetiredCaptureFilter :=
  Retired (start_marker id) (end_prefix id) [] control_default false.

(** The text behind the end prefix is a whole exit status, or may become one. *)
Definition closes_marker (code : list Z) : bool :=
  match strip_suffix (bs "__") code with Some c => bool_decide (is_Some (parse_i32 c)) | None => false end.
Definition open_code (code : list Z) : bool :=
  (length code <=? 12)%nat && digits_or_minus (strip_suffix_byte 95 code).

(** The inner loop: what stays pending, what is let through, and whether the
    end marker was seen. Every turn that goes on takes one character off. *)
Fixpoint retired_loop (start end_ : list Z) (cs : list (list Z)) : list Z * list Z * bool :=
  match cs with
  | [] => ([], [], false)
  | ch :: cs' =>
      let pending := concat cs in
      let pop := let '(rest, out, fin) := retired_loop start end_ cs' in (rest, ch ++ out, fin) in
      if beq pending start then ([], [], false)
      else if starts_with pending start || starts_with pending end_ then (pending, [], false)
      else
        match strip_prefix end_ pending with
        | Some code =>
            if closes_marker code then ([], [], true)
            else if open_code code then (pending, [], false) else pop
        | None => pop
        end
  end.

Definition retired_step (r : RetiredCaptureFilter) (ch : list Z) : RetiredCaptureFilter * list Z :=
  let '(pending, out, fin) := retired_loop (r_start r) (r_end r) (chars (r_pending r ++ ch)) in
  (Retired (r_start r) (r_end r) pending (r_control r) (finished r || fin), out).

Fixpoint retired_chars (r : RetiredCaptureFilter) (cs : list (list Z)) : RetiredCaptureFilter * list Z :=
  match cs with
  | [] => (r, [])
  | ch :: cs' =>
      let '(r, o) := retired_step r ch in
      let '(r, o') := retired_chars r cs' in (r, o ++ o')
  end.

Definition with_r_control (f : CaptureControlFilter) (r : RetiredCaptureFilter) : RetiredCaptureFilter :=
  Retired (r_start r) (r_end r) (r_pending r) f (finished r).

Definition retired_process (text : list Z) (r : RetiredCaptureFilter) : RetiredCaptureFilter * (list Z * bool) :=
  let '(f, (filtered, _)) := control_process (r_control r) text in
  let '(r, out) := retired_chars (with_r_control f r) (chars filtered) in
  (r, (out, finished r && negb (has_pending (r_control r)))).

Definition retire (id : list Z) (p : AgentOutputCaptureProcessor) : AgentOutputCaptureProcessor * RetiredCaptureFilter :=
  let '(r, _) := retired_process (pending_marker_tail p) (retired_new id) in
  (Processor (active p) [] (completed p) control_default, with_r_control (control_filter p) r).
