(* ===== verification/AgentCaptureSpec.v ===== *)
(** * AgentCaptureSpec: what the capture of a command's output promises

    However the session's output is cut into chunks, the text between the markers
    of a command is delivered once, with its exit status, and nothing but
    terminal queries is shown meanwhile; control strings never take part in the
    search for markers; the filter of a retired command removes its markers and
    passes everything else. *)
From stdpp Require Import base list numbers strings gmap.
From Stdlib Require Import ZArith Lia.
From S2P Require Import Prelude Text Boundary AgentCapture.

#[local] Arguments chars : simpl never.
#[local] Arguments find_sub : simpl never.
#[local] Arguments starts_with : simpl never.

(** ** Occurrences of a pattern *)
Lemma starts_with_take p l : starts_with p l = beq (take (length p) l) p.
Proof.
  revert l. induction p as [| b p IH]; intros l; [by rewrite take_0 |].
  destruct l as [| c l]; [done |]. unfold starts_with in *. cbn [strip_prefix length firstn].
  specialize (IH l). destruct (Z.eqb_spec b c) as [-> |]; [| by unfold beq; rewrite bool_decide_false by congruence].
  rewrite IH. unfold beq. apply bool_decide_ext. split; congruence.
Qed.

Definition at_ (p l : list Z) (i : nat) : bool := starts_with p (drop i l).

Lemma at_take p l i : at_ p l i = true <-> take (length p) (drop i l) = p.
Proof. unfold at_. by rewrite starts_with_take, beq_true. Qed.

Lemma at_bound p l i : p <> [] -> at_ p l i = true -> (i + length p <= length l)%nat.
Proof.
  rewrite at_take. intros Hp E. apply (f_equal length) in E. rewrite length_take, length_drop in E.
  destruct p; [done |]. cbn [length] in *. lia.
Qed.

(** A piece of [l] that starts at [length a] sees the same occurrences. *)
Lemma at_piece p a r b j : (j + length p <= length r)%nat -> at_ p r j = at_ p (a ++ r ++ b) (length a + j).
Proof.
  intros Hj. unfold at_. rewrite !starts_with_take, <- drop_drop, drop_app_length. f_equal.
  rewrite drop_app_le by lia. rewrite take_app_le; [done |]. rewrite length_drop. lia.
Qed.

Lemma at_drop p l k i : at_ p (drop k l) i = at_ p l (k + i).
Proof. unfold at_. by rewrite drop_drop. Qed.

Lemma find_sub_unfold p b l :
  find_sub p (b :: l) = if starts_with p (b :: l) then Some 0%nat else S <$> find_sub p l.
Proof. done. Qed.

Lemma find_sub_Some p l i :
  p <> [] -> find_sub p l = Some i <-> at_ p l i = true /\ (forall j, (j < i)%nat -> at_ p l j = false).
Proof.
  intros Hp. revert i. induction l as [| b l IH]; intros i.
  - split.
    + unfold find_sub, starts_with. destruct p; [done |]. discriminate.
    + intros [H _]. apply at_bound in H; [| done]. destruct p; [done |]. cbn [length] in H. lia.
  - rewrite find_sub_unfold. destruct (starts_with p (b :: l)) eqn:E.
    + split; [intros [= <-]; split; [done | lia] |]. intros [_ H]. destruct i as [| i]; [done |].
      specialize (H 0%nat ltac:(lia)). unfold at_ in H. cbn [drop] in H. congruence.
    + split.
      * destruct (find_sub p l) as [k |] eqn:F; [| done]. intros [= <-]. destruct (proj1 (IH k) eq_refl) as [F1 F2].
        split; [done |]. intros [| j] Hj; [done |]. apply (F2 j). lia.
      * intros [H1 H2]. destruct i as [| i]; [unfold at_ in H1; cbn [drop] in H1; congruence |].
        rewrite (proj2 (IH i)); [done |]. split; [done |]. intros j Hj. apply (H2 (S j)). lia.
Qed.

Lemma find_sub_None p l : p <> [] -> find_sub p l = None <-> (forall j, at_ p l j = false).
Proof.
  intros Hp. split.
  - intros H j. destruct (at_ p l j) eqn:E; [| done]. exfalso. revert l H E.
    induction j as [| j IH]; intros [| b l] H E; try (apply at_bound in E; [| done]; destruct p; [done |]; cbn [length] in E; lia);
      rewrite find_sub_unfold in H; destruct (starts_with p (b :: l)) eqn:F; try done.
    + unfold at_ in E. cbn [drop] in E. congruence.
    + destruct (find_sub p l) eqn:G; [done |]. by apply (IH l G).
  - intros H. destruct (find_sub p l) as [i |] eqn:E; [| done]. apply find_sub_Some in E as [E _]; [| done].
    by rewrite H in E.
Qed.

(** The occurrences listed without overlap: the first one is the first of all,
    and the others lie behind its end. *)
Lemma match_indices_skip p l k i : (match_indices_from p l k i = match_indices_from p (drop k l) 0 (i + k))%nat.
Proof.
  revert k i. induction l as [| b l IH]; intros [| k] i; try done; [by rewrite Nat.add_0_r |].
  cbn [match_indices_from drop]. rewrite IH. f_equal. lia.
Qed.

Lemma match_indices_ge p l i : Forall (fun j => (i <= j)%nat) (match_indices_from p l 0 i).
Proof.
  remember (length l) as n eqn:Hn. revert l i Hn. induction (lt_wf n) as [n _ IH]. intros [| b l] i ->; [constructor |].
  cbn [match_indices_from]. rewrite match_indices_skip. destruct (starts_with p (b :: l)).
  - constructor; [lia |]. eapply Forall_impl; [eapply IH; [| done]; cbn [length]; rewrite length_drop; lia |].
    cbn. intros. lia.
  - eapply Forall_impl; [eapply (IH (length l)); [cbn; lia | done] |]. cbn. intros. lia.
Qed.

Lemma match_indices_from_spec p l i :
  p <> [] ->
  match find_sub p l with
  | Some k => exists r, match_indices_from p l 0 i = (i + k)%nat :: r /\ Forall (fun j => (i + k + length p <= j)%nat) r
  | None => match_indices_from p l 0 i = []
  end.
Proof.
  intros Hp. assert (Hl : (0 < length p)%nat) by (destruct p; [done | cbn; lia]).
  revert i. induction l as [| b l IH]; intros i.
  - destruct (find_sub p []) as [k |] eqn:E; [| done]. apply find_sub_Some in E as [E _]; [| done].
    apply at_bound in E; [| done]. cbn [length] in E. lia.
  - rewrite find_sub_unfold. cbn [match_indices_from]. destruct (starts_with p (b :: l)) eqn:E.
    + eexists. split; [by rewrite Nat.add_0_r |]. rewrite match_indices_skip.
      eapply Forall_impl; [apply match_indices_ge |]. cbn. intros. lia.
    + specialize (IH (S i)). destruct (find_sub p l) as [k |]; cbn [fmap option_fmap option_map]; [| done].
      destruct IH as (r & -> & Hr). exists r. split; [f_equal; lia |].
      eapply Forall_impl; [exact Hr |]. cbn. intros. lia.
Qed.
Lemma match_indices_first p l k :
  p <> [] -> find_sub p l = Some k ->
  exists r, match_indices p l = k :: r /\ Forall (fun j => (k + length p <= j)%nat) r.
Proof. intros Hp E. pose proof (match_indices_from_spec p l 0 Hp) as H. by rewrite E in H. Qed.
Lemma match_indices_nil p l : p <> [] -> find_sub p l = None -> match_indices p l = [].
Proof. intros Hp E. pose proof (match_indices_from_spec p l 0 Hp) as H. by rewrite E in H. Qed.

Lemma match_indices_at p l : p <> [] -> Forall (fun j => at_ p l j = true) (match_indices p l).
Proof.
  intros Hp. unfold match_indices. cut (forall n l i a, (length l <= n)%nat -> length a = i ->
    Forall (fun j => at_ p (a ++ l) j = true) (match_indices_from p l 0 i)); [intros H; by apply (H (length l) l 0%nat []) |].
  clear l. induction n as [| n IH]; intros [| b l] i a Hn Ha; try (by constructor); [cbn in Hn; lia |].
  cbn [match_indices_from]. assert (Hat : at_ p (a ++ b :: l) i = starts_with p (b :: l)).
  { unfold at_. by rewrite <- Ha, drop_app_length. }
  assert (E : forall k, a ++ b :: l = (a ++ b :: take k l) ++ drop k l).
  { intros k. rewrite <- app_assoc. cbn. by rewrite take_drop. }
  rewrite match_indices_skip. destruct (starts_with p (b :: l)) eqn:Hs.
  - constructor; [done |]. destruct (decide (length p - 1 <= length l)%nat).
    + rewrite (E (length p - 1)%nat). apply IH; [rewrite length_drop; cbn in Hn; lia |].
      rewrite length_app. cbn [length]. rewrite length_take. lia.
    + rewrite drop_ge by lia. constructor.
  - rewrite (E 0%nat). apply (IH l (S i)); [cbn in Hn; lia |]. rewrite take_0, length_app. cbn. lia.
Qed.

Lemma min_by_key_first {A} (key : A -> nat) x l :
  Forall (fun y => (key x <= key y)%nat) l -> min_by_key key (x :: l) = Some x.
Proof.
  intros H. cbn [min_by_key]. destruct (min_by_key key l) as [y |] eqn:E; [| done].
  assert (Hy : (key x <= key y)%nat).
  { revert y E. induction H as [| z l Hz Hl IH]; intros y; [done |]. cbn [min_by_key].
    destruct (min_by_key key l) as [w |]; [| by intros [= <-]].
    destruct (key z <=? key w)%nat; intros [= <-]; [done | by apply IH]. }
  by apply Nat.leb_le in Hy as ->.
Qed.

(** ** Termination of the loop *)
Lemma min_by_key_in {A} (key : A -> nat) l x : min_by_key key l = Some x -> x ∈ l.
Proof.
  revert x. induction l as [| y l IH]; intros x; [done |]. cbn [min_by_key].
  destruct (min_by_key key l) as [z |] eqn:E; [destruct (key y <=? key z)%nat |]; intros [= <-]; try constructor.
  by apply IH.
Qed.

(** Every turn leaves less text than it was given. *)
Lemma process_turn_shrinks now b r v rec p :
  (length (process_turn now (b :: r) v rec p).1.1.2 < length (b :: r))%nat.
Proof.
  unfold process_turn. assert (Hmp : (0 < length MARKER_PREFIX)%nat) by (cbn; lia).
  destruct (try_match_start (b :: r) p) as [[p1 after] |] eqn:Es.
  { unfold try_match_start in Es. destruct (min_by_key _ _) as [[id stop] |] eqn:Em; [| done]. injection Es as _ <-.
    apply min_by_key_in, list_elem_of_omap in Em as (id' & _ & Em). destruct (find_sub _ _) as [k |]; [| done].
    injection Em as <- <-. cbn [fst snd]. rewrite length_drop. cbn. lia. }
  destruct (try_match_end now (b :: r) rec p) as [[p1 rec1] |]; [cbn; lia |].
  destruct (any_in_phase Capturing p) as [id |].
  { destruct (find_sub MARKER_PREFIX (b :: r)) as [pos |]; destruct (append_to id _ rec p) as [p1 rec1]; [| cbn; lia].
    destruct (is_possible_marker_prefix _ _); [cbn; lia |]. destruct (Nat.eqb_spec pos 0).
    - destruct (append_to id _ rec1 p1) as [p2 rec2]. cbn [fst snd]. rewrite length_drop. cbn. lia.
    - cbn [fst snd]. rewrite length_drop. cbn. lia. }
  destruct (any_in_phase PostCapture p); [cbn; lia |]. destruct (any_in_phase WaitingForStart p); [cbn; lia |].
  destruct (find_sub MARKER_PREFIX (b :: r)) as [pos |]; [| cbn; lia].
  destruct (Nat.eqb_spec pos 0); cbn [fst snd]; rewrite length_drop; cbn; lia.
Qed.

Lemma process_loop_fuel f1 f2 now r v rec p :
  (length r <= f1)%nat -> (length r <= f2)%nat -> process_loop f1 now r v rec p = process_loop f2 now r v rec p.
Proof.
  revert f2 r v rec p. induction f1 as [| f1 IH]; intros [| f2] [| b r] v rec p H1 H2; cbn [length] in *; try done; try lia.
  cbn [process_loop]. pose proof (process_turn_shrinks now b r v rec p) as Hs.
  destruct (process_turn now (b :: r) v rec p) as [[[p' r'] v'] rec']. cbn [fst snd length] in Hs. apply IH; lia.
Qed.

(** ** Control strings *)
Lemma control_chars_app f a b :
  control_chars f (a ++ b) =
  let '(f1, (t1, q1)) := control_chars f a in
  let '(f2, (t2, q2)) := control_chars f1 b in (f2, (t1 ++ t2, q1 ++ q2)).
Proof.
  revert f. induction a as [| ch a IH]; intros f.
  - cbn. by destruct (control_chars f b) as [? [? ?]].
  - cbn [app control_chars]. destruct (control_step f ch) as [f1 [t q]]. rewrite IH.
    destruct (control_chars f1 a) as [f2 [t2 q2]]. destruct (control_chars f2 b) as [f3 [t3 q3]].
    by rewrite !app_assoc.
Qed.

Lemma control_process_app f a b :
  utf8_valid a = true ->
  control_process f (a ++ b) =
  let '(f1, (t1, q1)) := control_process f a in
  let '(f2, (t2, q2)) := control_process f1 b in (f2, (t1 ++ t2, q1 ++ q2)).
Proof. intros H. unfold control_process. by rewrite (chars_app a b H), control_chars_app. Qed.

(** ** The text of a capture *)

(** Without the line end that the wrapper prints behind the start marker. *)
Definition frame (m : list Z) : list Z :=
  match drop_byte 13 m with
  | [] => []
  | t => match strip_prefix [10] t with Some r => r | None => t end
  end.
(** The text up to its last line end, and that line end. *)
Definition body (l : list Z) : list Z := take (length l - newline_len l) l.
Definition last_newline (l : list Z) : list Z := drop (length l - newline_len l) l.

Lemma body_newline l : body l ++ last_newline l = l.
Proof. apply take_drop. Qed.

Lemma ends_with_snoc s l b : ends_with (s ++ [b]) (l ++ [b]) = ends_with s l.
Proof. unfold ends_with, starts_with. rewrite !rev_app_distr. cbn. by rewrite Z.eqb_refl. Qed.
Lemma ends_with_1 l b c : ends_with [c] (l ++ [b]) = (c =? b).
Proof. unfold ends_with, starts_with. rewrite rev_app_distr. cbn. by destruct (c =? b). Qed.
Lemma ends_with_2 l b c d : ends_with [c; d] (l ++ [b]) = (d =? b) && ends_with [c] l.
Proof. unfold ends_with, starts_with. rewrite rev_app_distr. cbn. by destruct (d =? b). Qed.

Lemma newline_len_snoc l b :
  newline_len (l ++ [b]) =
  if b =? 10 then (if ends_with [13] l then 2%nat else 1%nat) else if b =? 13 then 1%nat else 0%nat.
Proof.
  unfold newline_len. rewrite ends_with_2, !ends_with_1.
  destruct (Z.eqb_spec b 10) as [-> |]; [cbn; by destruct (ends_with [13] l) |].
  destruct (Z.eqb_spec 10 b); [congruence |]. rewrite orb_false_r. cbn [andb]. by rewrite Z.eqb_sym.
Qed.

Lemma newline_len_le l : (newline_len l <= length l)%nat.
Proof.
  destruct l as [| b l _] using rev_ind; [done |]. rewrite newline_len_snoc, length_app. cbn [length].
  destruct (b =? 10); [| destruct (b =? 13); lia]. destruct l as [| c l _] using rev_ind; [by vm_compute; lia |].
  rewrite length_app. cbn [length]. destruct (ends_with [13] (l ++ [c])); lia.
Qed.

Lemma newline_len_app a x :
  x <> [] -> (x = [10] -> ends_with [13] a = false) -> newline_len (a ++ x) = newline_len x.
Proof.
  intros Hx Ha. destruct x as [| b x _] using rev_ind; [done |]. rewrite app_assoc, !newline_len_snoc.
  destruct (Z.eqb_spec b 10) as [-> |]; [| done]. destruct x as [| c x _] using rev_ind.
  - rewrite app_nil_r, Ha by done. done.
  - by rewrite app_assoc, !ends_with_1.
Qed.

(** A text whose last line end is empty ends in no carriage return. *)
Lemma last_newline_nil l : last_newline l = [] -> ends_with [13] (body l) = false.
Proof.
  intros H. pose proof (body_newline l) as E. rewrite H, app_nil_r in E. rewrite E.
  assert (Hl : length (last_newline l) = 0%nat) by by rewrite H.
  unfold last_newline in Hl. rewrite length_drop in Hl. pose proof (newline_len_le l).
  destruct l as [| b l _] using rev_ind; [done |]. rewrite newline_len_snoc, length_app in *. cbn [length] in *.
  rewrite ends_with_1. destruct (Z.eqb_spec b 10); [destruct (ends_with [13] l); lia |].
  rewrite Z.eqb_sym. destruct (b =? 13); [lia | done].
Qed.

Lemma body_app a x :
  x <> [] -> (x = [10] -> ends_with [13] a = false) ->
  body (a ++ x) = a ++ body x /\ last_newline (a ++ x) = last_newline x.
Proof.
  intros Hx Ha. unfold body, last_newline. rewrite newline_len_app by done. pose proof (newline_len_le x).
  rewrite length_app.
  replace (length a + length x - newline_len x)%nat with (length a + (length x - newline_len x))%nat by lia.
  by rewrite take_app_add, drop_app_add.
Qed.

Lemma drop_byte_app b m t :
  drop_byte b (m ++ t) = match drop_byte b m with [] => drop_byte b t | x => x ++ t end.
Proof. induction m as [| c m IH]; [done |]. cbn [app drop_byte]. by destruct (c =? b). Qed.

Lemma frame_app_cr m t : drop_byte 13 m = [] -> frame (m ++ t) = frame t.
Proof. intros H. unfold frame. by rewrite drop_byte_app, H. Qed.
Lemma frame_app m t : drop_byte 13 m <> [] -> frame (m ++ t) = frame m ++ t.
Proof.
  intros H. unfold frame. rewrite drop_byte_app. destruct (drop_byte 13 m) as [| b x]; [done |].
  cbn [app strip_prefix]. by destruct (10 =? b).
Qed.
Lemma frame_length m : (length (frame m) <= length m)%nat.
Proof.
  assert (H : (length (drop_byte 13 m) <= length m)%nat).
  { induction m as [| c m IH]; [done |]. cbn. destruct (c =? 13); cbn; lia. }
  unfold frame. destruct (drop_byte 13 m) as [| b x]; [cbn; lia |]. cbn [strip_prefix].
  destruct (10 =? b); cbn [length] in *; lia.
Qed.

Section Append.
Context (t0 : Z) (en : bool).

(** The capture that has collected [m]. *)
Definition collected (m : list Z) : ActiveCapture :=
  Active (frame m) Capturing t0 false (beq (drop_byte 13 m) []) (last_newline (frame m)) en.

Lemma record_text_spec c l text r prev :
  recording_tail c = last_newline l -> prev ++ r = body l ->
  exists r', record_text c text r = (last_newline (l ++ text), r') /\ prev ++ r' = body (l ++ text).
Proof.
  intros Ht Hr. unfold record_text. destruct (beq text []) eqn:E.
  - apply beq_true in E as ->. rewrite app_nil_r. exists r. by rewrite Ht.
  - assert (Hx : text <> []) by (intros ->; done).
    destruct (body_app prev (r ++ recording_tail c ++ text)) as [E1 E2].
    { by destruct r, (recording_tail c), text. }
    { intros Hn. rewrite Ht in Hn. destruct r as [| ? r]; cycle 1.
      { injection Hn as _ Hn. by destruct r, (last_newline l), text. }
      destruct (last_newline l) as [| ? w] eqn:Hl; cycle 1.
      { injection Hn as _ Hn. by destruct w, text. }
      rewrite app_nil_r in Hr. subst prev. by apply last_newline_nil. }
    assert (E3 : l ++ text = prev ++ r ++ recording_tail c ++ text).
    { by rewrite Ht, (app_assoc prev), Hr, app_assoc, body_newline. }
    exists (body (r ++ recording_tail c ++ text)). by rewrite E3, E1, E2.
Qed.

Lemma append_text_spec c l starting text r prev :
  buffer c = l -> source_truncated c = false -> phase c = Capturing -> start_time c = t0 -> end_newline c = en ->
  recording_tail c = last_newline l -> prev ++ r = body l -> len (l ++ text) <= MAX_CAPTURE_BYTES ->
  exists r', append_text c starting text r
             = (Active (l ++ text) Capturing t0 false starting (last_newline (l ++ text)) en, r')
             /\ prev ++ r' = body (l ++ text).
Proof.
  intros Hb Hs Hph H0 He Ht Hr Hl. destruct (record_text_spec c l text r prev Ht Hr) as (r' & E & Hr').
  exists r'. split; [| done]. unfold append_text. rewrite E, Hb, Hs, Hph, H0, He.
  unfold saturating_sub. rewrite length_app in Hl.
  replace (Z.to_nat _) with (length text) by lia.
  assert (Hf : floor_loop text (length text) = length text).
  { destruct (length text) eqn:En; [done |]. cbn [floor_loop]. by rewrite <- En, boundary_length. }
  by rewrite Hf, firstn_all, Nat.ltb_irrefl.
Qed.

Lemma append_cap m t r prev :
  prev ++ r = body (frame m) -> len (m ++ t) <= MAX_CAPTURE_BYTES ->
  exists r', append_capture_output (collected m) t r = (collected (m ++ t), r') /\ prev ++ r' = body (frame (m ++ t)).
Proof.
  intros Hr Hl. unfold append_capture_output. cbn [start_newline collected].
  destruct (beq (drop_byte 13 m) []) eqn:E.
  - apply beq_true in E. assert (Hm : frame m = []) by (unfold frame; by rewrite E).
    assert (Hc : collected (m ++ t) = Active (frame t) Capturing t0 false (beq (drop_byte 13 t) []) (last_newline (frame t)) en).
    { unfold collected. by rewrite (frame_app_cr m t E), drop_byte_app, E. }
    rewrite Hc, (frame_app_cr m t E). pose proof (frame_length t) as Hft.
    assert (Hd : frame t = match drop_byte 13 t with
                           | [] => []
                           | u => match strip_prefix [10] u with Some v => v | None => u end
                           end) by done.
    destruct (drop_byte 13 t) as [| b x] eqn:F.
    + exists r. rewrite Hm in Hr. unfold collected. by rewrite Hm, E, Hd.
    + cbv zeta in Hd. cbv zeta. rewrite <- Hd. apply (append_text_spec (collected m) []); try done; cbn [collected buffer recording_tail]; rewrite ?Hm; try done.
      * by rewrite Hm in Hr.
      * rewrite length_app in Hl. cbn [app]. lia.
  - assert (En : drop_byte 13 m <> []) by (intros H; by rewrite H in E).
    destruct (append_text_spec (collected m) (frame m) false t r prev) as (r' & Ea & Hr'); try done.
    { pose proof (frame_length m). rewrite !length_app in *. lia. }
    exists r'. rewrite Ea, (frame_app m t En). split; [| done]. unfold collected. rewrite (frame_app m t En), drop_byte_app.
    by destruct (drop_byte 13 m).
Qed.
End Append.

(** ** A processor with one capture, as the application uses it *)
Definition one (id : list Z) (c : ActiveCapture) (t : list Z) (f : CaptureControlFilter) : AgentOutputCaptureProcessor :=
  Processor {[id := c]} t [] f.

Definition possible (id value : list Z) : bool :=
  negb (beq value [])
  && (starts_with value MARKER_PREFIX
      || (starts_with value (start_marker id) || starts_with value (end_prefix id)
          || (starts_with (end_prefix id) value
              && (length value <=? length (end_prefix id) + 12)%nat
              && digits_or_minus (strip_suffix_byte 95 (drop (length (end_prefix id)) value))))).

Lemma possible_one id c t f v : is_possible_marker_prefix (one id c t f) v = possible id v.
Proof.
  unfold is_possible_marker_prefix, possible. cbn [active one]. rewrite map_to_list_singleton.
  cbn [existsb fst]. by rewrite orb_false_r.
Qed.

Lemma in_phase_one ph id c t f : in_phase ph (one id c t f) = if bool_decide (phase c = ph) then [id] else [].
Proof.
  unfold in_phase. cbn [active one]. rewrite map_to_list_singleton. cbn [List.filter snd].
  by destruct (bool_decide (phase c = ph)).
Qed.
Lemma any_in_phase_one ph id c t f :
  any_in_phase ph (one id c t f) = if bool_decide (phase c = ph) then Some id else None.
Proof.
  unfold any_in_phase. cbn [active one]. rewrite map_to_list_singleton. cbn [List.find snd].
  by destruct (bool_decide (phase c = ph)).
Qed.
Lemma no_active_one id c t f : no_active (one id c t f) = false.
Proof. unfold no_active. apply bool_decide_eq_false. cbn. apply map_non_empty_singleton. Qed.

Lemma append_to_one id c t f text r :
  append_to id text r (one id c t f) =
  let '(c', r') := append_capture_output c text r in (one id c' t f, r').
Proof.
  unfold append_to. cbn [active one]. rewrite lookup_singleton_eq.
  destruct (append_capture_output c text r) as [c' r']. unfold with_active, one. cbn. by rewrite insert_singleton_eq.
Qed.

(** Every marker starts with an underscore. *)
Lemma starts_with_head p l v : starts_with p (v :: l) = true -> p <> [] -> head p = Some v.
Proof.
  unfold starts_with. destruct p as [| b p]; [done |]. cbn. by destruct (Z.eqb_spec b v) as [-> |].
Qed.
Lemma possible_head id v : possible id v = true -> head v = Some 95.
Proof.
  unfold possible. intros H. apply andb_true_iff in H as [Hn H].
  assert (Hv : v <> []) by (intros ->; done). unfold start_marker, end_prefix, MARKER_PREFIX in H. cbn [bs app] in H.
  apply orb_true_iff in H as [H | H]; [by apply starts_with_head in H |].
  apply orb_true_iff in H as [H | H]; [apply orb_true_iff in H as [H | H]; by apply starts_with_head in H |].
  apply andb_true_iff in H as [H _]. apply andb_true_iff in H as [H _].
  destruct v as [| b v]; [done |]. by apply starts_with_head in H.
Qed.

(** No byte inside a character is an underscore. *)
Lemma chars_first b l :
  exists m, (1 <= m <= length (b :: l))%nat /\ chars (b :: l) = take m (b :: l) :: chars (drop m (b :: l))
            /\ forall j, (0 < j < m)%nat -> head (drop j (b :: l)) <> Some 95.
Proof.
  destruct (utf8_char_len (b :: l)) as [m |] eqn:E.
  - pose proof (utf8_char_len_bound _ _ E) as Hm. exists m. split; [lia |]. split; [by apply chars_step |].
    intros j Hj Hh. destruct (utf8_char_len_tail _ _ j E Hj) as (x & Hx & Hc).
    rewrite head_lookup, lookup_drop, Nat.add_0_r, Hx in Hh. by injection Hh as ->.
  - exists 1%nat. split; [cbn; lia |]. split; [| lia]. unfold chars at 1. cbn [length chars_fuel]. by rewrite E.
Qed.

Section Tail.
Context (id : list Z) (c : ActiveCapture) (t : list Z) (f : CaptureControlFilter).

Lemma tail_start_bound cs k i : tail_start (one id c t f) cs k = Some i -> (k <= i <= k + length (concat cs))%nat.
Proof.
  revert k. induction cs as [| ch cs IH]; intros k; [done |]. cbn [tail_start].
  destruct (is_possible_marker_prefix _ _); [intros [= <-]; lia |]. intros H. apply IH in H.
  cbn [concat]. rewrite length_app. lia.
Qed.

Lemma tail_start_le l k j :
  possible id (drop j l) = true -> exists i, tail_start (one id c t f) (chars l) k = Some i /\ (i <= k + j)%nat.
Proof.
  remember (length l) as n eqn:Hn. revert l k j Hn. induction (lt_wf n) as [n _ IH]. intros l k j -> Hp.
  destruct l as [| b l]; [by rewrite drop_nil in Hp |].
  destruct j as [| j].
  { exists k. split; [| lia]. rewrite drop_0 in Hp. unfold chars. cbn [length chars_fuel tail_start].
    change (take _ (b :: l) :: _) with (chars (b :: l)). by rewrite possible_one, concat_chars, Hp. }
  destruct (chars_first b l) as (m & Hlen & -> & Hno).
  assert (Hm : (m <= S j)%nat).
  { destruct (decide (m <= S j)%nat); [done |]. exfalso. apply (Hno (S j)); [lia | by apply (possible_head id)]. }
  cbn [tail_start]. destruct (is_possible_marker_prefix _ _); [exists k; split; [done | lia] |].
  destruct (IH (length (drop m (b :: l)))) with (l := drop m (b :: l)) (k := (k + length (take m (b :: l)))%nat)
    (j := (S j - m)%nat) as (i & Hi & Hle); [rewrite length_drop; cbn [length] in *; lia | done | |].
  - rewrite drop_drop. by replace (m + (S j - m))%nat with (S j) by lia.
  - exists i. split; [done |]. rewrite length_take in Hle. lia.
Qed.

(** Where the text that is kept starts: at [j] at the latest, when a marker may start there. *)
Lemma marker_tail l :
  let i := match possible_marker_tail_start (one id c t f) l with Some i => i | None => length l end in
  (i <= length l)%nat /\ (forall j, possible id (drop j l) = true -> (i <= j)%nat).
Proof.
  cbv zeta. unfold possible_marker_tail_start. destruct (tail_start _ _ _) as [i |] eqn:E.
  - split; [apply tail_start_bound in E; rewrite concat_chars in E; lia |].
    intros j Hj. destruct (tail_start_le l 0 j Hj) as (i' & E' & Hi). rewrite E in E'. injection E' as ->. lia.
  - split; [lia |]. intros j Hj. destruct (tail_start_le l 0 j Hj) as (i' & E' & _). congruence.
Qed.
End Tail.

(** ** A stream with one marked command *)
Lemma known_drop (a r b x y : list Z) k :
  drop k (a ++ r ++ b) = x ++ y -> (length a <= k)%nat -> (k <= length a + length r)%nat ->
  (length a + length r <= k + length x)%nat -> drop (k - length a) r = take (length a + length r - k) x.
Proof.
  intros E H1 H2 H3. rewrite drop_app_ge, drop_app_le in E by lia.
  apply (f_equal (@firstn Z (length a + length r - k))) in E.
  rewrite (take_app_le x y) in E by lia. rewrite <- E, take_app_le by (rewrite length_drop; lia).
  symmetry. apply take_ge. rewrite length_drop. lia.
Qed.

Lemma starts_with_prefix n l : starts_with (take n l) l = true.
Proof. rewrite <- (take_drop n l) at 2. apply starts_with_app. Qed.

Lemma at_split p q l i : at_ (p ++ q) l i = true -> at_ p l i = true.
Proof.
  rewrite !at_take. rewrite length_app. intros E.
  replace (length p) with (length p `min` (length p + length q))%nat at 1 by lia.
  by rewrite <- take_take, E, take_app_length.
Qed.

(** ** A session *)
Fixpoint run (chunks : list (Z * list Z)) (p : AgentOutputCaptureProcessor) :
    AgentOutputCaptureProcessor * list AgentCaptureProcessResult :=
  match chunks with
  | [] => (p, [])
  | (now, text) :: cs =>
      let '(p, r) := process now text p in
      let '(p, rs) := run cs p in (p, r :: rs)
  end.
Definition texts (chunks : list (Z * list Z)) : list Z := concat (map snd chunks).

Section Stream.
Context (id pre mid ct post : list Z) (code t0 : Z) (en : bool).
#[local] Abbreviation SM := (start_marker id).
#[local] Abbreviation EP := (end_prefix id).
#[local] Abbreviation EM := (end_prefix id ++ ct ++ bs "__").
#[local] Abbreviation T := (pre ++ SM ++ mid ++ EM ++ post).
#[local] Abbreviation o := (length pre + length SM)%nat.
#[local] Abbreviation wait := (Active [] WaitingForStart t0 false true [] en).
#[local] Abbreviation cap := (collected t0 en).

Hypothesis Hpre : find_sub SM (pre ++ SM) = Some (length pre).
Hypothesis Hmid : find_sub MARKER_PREFIX (mid ++ MARKER_PREFIX) = Some (length mid).
Hypothesis Hdig : digits_or_minus ct = true.
Hypothesis Hct : (length ct <= 11)%nat.
Hypothesis Hcode : parse_i32 ct = Some code.
Hypothesis Hlen : len mid <= MAX_CAPTURE_BYTES.

Lemma start_none j : (j < length pre)%nat -> at_ SM T j = false.
Proof.
  intros Hj. apply find_sub_Some in Hpre as [_ H]; [| done]. specialize (H j Hj).
  rewrite <- H, app_assoc. symmetry. apply (at_piece SM [] (pre ++ SM)). rewrite length_app. lia.
Qed.

Lemma prefix_none j : (o <= j < o + length mid)%nat -> at_ MARKER_PREFIX T j = false.
Proof.
  intros Hj. apply find_sub_Some in Hmid as [_ H]; [| done]. specialize (H (j - o)%nat ltac:(lia)).
  refine (eq_trans _ H).
  replace j with (length (pre ++ SM) + (j - o))%nat at 1 by (rewrite length_app; lia).
  replace T with ((pre ++ SM) ++ (mid ++ MARKER_PREFIX) ++ (bs "END_" ++ id ++ bs "_") ++ ct ++ bs "__" ++ post)
    by (unfold end_prefix; by rewrite <- !app_assoc).
  symmetry. apply at_piece. rewrite length_app. lia.
Qed.

Lemma drop_pre : drop (length pre) T = SM ++ mid ++ EM ++ post.
Proof. apply drop_app_length. Qed.
Lemma drop_mid : drop (o + length mid) T = EM ++ post.
Proof. rewrite !app_assoc, <- !app_assoc, (app_assoc pre), (app_assoc _ mid). apply drop_app_length'. rewrite !length_app. lia. Qed.
Lemma drop_o k : (k <= length mid)%nat -> drop (o + k) T = drop k mid ++ EM ++ post.
Proof.
  intros Hk. rewrite (app_assoc pre). rewrite drop_app_ge by (rewrite length_app; lia).
  rewrite length_app. replace (o + k - o)%nat with k by lia. by rewrite drop_app_le.
Qed.

(** Waiting for the start marker. *)
Lemma start_find d r rest :
  T = d ++ r ++ rest -> (length d <= length pre)%nat ->
  find_sub SM r = if (o <=? length d + length r)%nat then Some (length pre - length d)%nat else None.
Proof.
  intros HT Hd. assert (Hat : forall j, at_ SM r j = true -> (length pre <= length d + j)%nat /\ (j + length SM <= length r)%nat).
  { intros j Hj. assert (Hb := at_bound SM r j ltac:(done) Hj). split; [| done].
    rewrite (at_piece SM d r rest j Hb), <- HT in Hj. destruct (decide (length d + j < length pre)%nat) as [Hl |]; [| lia].
    by rewrite start_none in Hj. }
  destruct (Nat.leb_spec o (length d + length r)).
  - apply find_sub_Some; [done |]. split.
    + rewrite (at_piece SM d r rest) by lia. rewrite <- HT.
      replace (length d + (length pre - length d))%nat with (length pre) by lia.
      unfold at_. rewrite drop_pre. apply starts_with_app.
    + intros j Hj. destruct (at_ SM r j) eqn:E; [| done]. apply Hat in E. lia.
  - apply find_sub_None; [done |]. intros j. destruct (at_ SM r j) eqn:E; [| done]. apply Hat in E. lia.
Qed.

Lemma try_start_wait r f :
  try_match_start r (one id wait [] f) =
  (fun i => (one id (cap []) [] f, drop (i + length SM) r)) <$> find_sub SM r.
Proof.
  unfold try_match_start. rewrite in_phase_one. cbn [phase]. rewrite bool_decide_true by done. cbn [omap list_omap].
  destruct (find_sub SM r) as [i |]; [| done]. cbn. unfold with_active, one. cbn [active pending_marker_tail completed control_filter].
  do 3 f_equal. by rewrite alter_singleton_eq.
Qed.

Lemma wait_found d r rest now v rec f :
  T = d ++ r ++ rest -> (length d <= length pre)%nat -> (o <= length d + length r)%nat ->
  process_turn now r v rec (one id wait [] f) = (one id (cap []) [] f, drop (o - length d) r, v, rec).
Proof.
  intros HT Hd Hr. unfold process_turn. rewrite try_start_wait, (start_find d r rest HT Hd).
  apply Nat.leb_le in Hr as ->. cbn [fmap option_fmap option_map]. do 4 f_equal. lia.
Qed.

Lemma strip_snoc b l : strip_suffix_byte b (l ++ [b]) = l.
Proof. unfold strip_suffix_byte. rewrite rev_app_distr. cbn. by rewrite Z.eqb_refl, rev_involutive. Qed.
Lemma strip_digits l : digits_or_minus l = true -> strip_suffix_byte 95 l = l.
Proof.
  destruct l as [| b l _] using rev_ind; [done |]. unfold digits_or_minus, strip_suffix_byte. rewrite forallb_app, rev_app_distr.
  cbn. intros H. destruct (Z.eqb_spec b 95) as [-> |]; [| done]. by rewrite andb_false_r in H.
Qed.
Lemma digits_take n l : digits_or_minus l = true -> digits_or_minus (take n l) = true.
Proof.
  unfold digits_or_minus. rewrite <- (take_drop n l) at 1. rewrite forallb_app. intros H. by apply andb_true_iff in H as [].
Qed.

Lemma possible_start n : (0 < n)%nat -> possible id (take n SM) = true.
Proof.
  intros Hn. unfold possible. rewrite starts_with_prefix, orb_true_r, andb_true_r. destruct n; [lia |]. done.
Qed.

Lemma possible_end n : (0 < n < length EM)%nat -> possible id (take n EM) = true.
Proof.
  intros Hn. unfold possible. apply andb_true_iff. split; [destruct n; [lia | done] |].
  apply orb_true_iff. right. apply orb_true_iff. destruct (decide (n <= length EP)%nat) as [H | H].
  - left. rewrite take_app_le by done. by rewrite starts_with_prefix, orb_true_r.
  - right. rewrite !length_app in Hn. cbn [length bs] in Hn. change (length (bs "__")) with 2%nat in Hn.
    replace n with (length EP + (n - length EP))%nat by lia. rewrite take_app_add.
    set (k := (n - length EP)%nat). assert (Hk : (0 < k <= length ct + 1)%nat) by lia.
    rewrite starts_with_app, drop_app_length, andb_true_l. apply andb_true_iff. split.
    { apply Nat.leb_le. rewrite length_app, length_take, length_app. lia. }
    destruct (decide (k <= length ct)%nat).
    + rewrite take_app_le by done. pose proof (digits_take k ct Hdig) as Hd. by rewrite strip_digits.
    + replace k with (length ct + 1)%nat by lia. rewrite take_app_add. change (take 1 (bs "__")) with [95].
      by rewrite strip_snoc.
Qed.

Lemma wait_more d r rest now v rec f :
  T = d ++ r ++ rest -> (length d <= length pre)%nat -> (length d + length r < o)%nat ->
  exists i, (i <= length r)%nat /\ (length d + i <= length pre)%nat
            /\ process_turn now r v rec (one id wait [] f) = (one id wait (drop i r) f, [], v, rec).
Proof.
  intros HT Hd Hr. destruct (marker_tail id wait [] f r) as [H1 H2]. revert H1 H2.
  set (i := match possible_marker_tail_start _ r with Some i => i | None => length r end). intros H1 H2.
  exists i. split_and!; [done | |].
  - destruct (decide (length d + length r <= length pre)%nat); [lia |].
    specialize (H2 (length pre - length d)%nat).
    assert (E := known_drop d r rest SM (mid ++ EM ++ post) (length pre)).
    rewrite <- HT, drop_pre in E. rewrite (E eq_refl) in H2 by lia. rewrite possible_start in H2 by lia.
    specialize (H2 eq_refl). lia.
  - unfold process_turn. rewrite try_start_wait, (start_find d r rest HT Hd).
    destruct (Nat.leb_spec o (length d + length r)); [lia |]. cbn [fmap option_fmap option_map].
    unfold try_match_end. rewrite in_phase_one. cbn [phase]. rewrite bool_decide_false by done. cbn [flat_map min_by_key].
    rewrite !any_in_phase_one. cbn [phase]. rewrite !bool_decide_false by done. rewrite bool_decide_true by done.
    unfold i. destruct (possible_marker_tail_start _ r); [done |]. by rewrite drop_all.
Qed.

(** Collecting the output: [d] has been consumed, up to [k] bytes of it. *)
Section Collect.
Context (d r rest : list Z) (k : nat).
Hypothesis HT : T = d ++ r ++ rest.
Hypothesis Hd : length d = (o + k)%nat.
Hypothesis Hk : (k <= length mid)%nat.

Lemma drop_d : r ++ rest = drop k mid ++ EM ++ post.
Proof. rewrite <- (drop_o k Hk), HT, <- Hd. by rewrite drop_app_length. Qed.

Lemma take_mid i : (i <= length r)%nat -> (k + i <= length mid)%nat -> take k mid ++ take i r = take (k + i) mid.
Proof.
  intros Hi Hki. rewrite <- (take_app_le r rest i Hi), drop_d, take_app_le by (rewrite length_drop; lia).
  apply take_take_drop.
Qed.

Lemma end_find p q :
  EM ++ post = p ++ q -> p <> [] -> (forall l i, at_ p l i = true -> at_ MARKER_PREFIX l i = true) ->
  find_sub p r = if (length mid - k + length p <=? length r)%nat then Some (length mid - k)%nat else None.
Proof.
  intros Hq Hp Hmp.
  assert (Hat : forall j, at_ p r j = true -> (length mid - k <= j)%nat /\ (j + length p <= length r)%nat).
  { intros j Hj. assert (Hb := at_bound p r j Hp Hj). split; [| done].
    rewrite (at_piece p d r rest j Hb), <- HT, Hd in Hj. apply Hmp in Hj.
    destruct (decide (k + j < length mid)%nat); [| lia]. by rewrite prefix_none in Hj by lia. }
  destruct (Nat.leb_spec (length mid - k + length p) (length r)).
  - apply find_sub_Some; [done |]. split.
    + rewrite (at_piece p d r rest) by lia. rewrite <- HT, Hd.
      replace (o + k + (length mid - k))%nat with (o + length mid)%nat by lia.
      unfold at_. rewrite drop_mid, Hq. apply starts_with_app.
    + intros j Hj. destruct (at_ p r j) eqn:E; [| done]. apply Hat in E. lia.
  - apply find_sub_None; [done |]. intros j. destruct (at_ p r j) eqn:E; [| done]. apply Hat in E. lia.
Qed.

Lemma prefix_find :
  find_sub MARKER_PREFIX r =
  if (length mid - k + length MARKER_PREFIX <=? length r)%nat then Some (length mid - k)%nat else None.
Proof. apply (end_find MARKER_PREFIX ((bs "END_" ++ id ++ bs "_") ++ ct ++ bs "__" ++ post)); [by unfold end_prefix; rewrite <- !app_assoc | done | done]. Qed.
Lemma end_prefix_find :
  find_sub EP r = if (length mid - k + length EP <=? length r)%nat then Some (length mid - k)%nat else None.
Proof.
  apply (end_find EP (ct ++ bs "__" ++ post)); [by rewrite <- !app_assoc | done |].
  intros l i. apply (at_split MARKER_PREFIX).
Qed.

(** What is behind the output is the end marker, as far as it has come. *)
Lemma drop_marker :
  (length mid - k <= length r)%nat -> (k + length r <= length mid + length EM)%nat ->
  drop (length mid - k) r = take (k + length r - length mid) EM.
Proof.
  intros H1 H2. assert (E := known_drop d r rest EM post (o + length mid)). rewrite <- HT, drop_mid, Hd in E.
  replace (o + length mid - (o + k))%nat with (length mid - k)%nat in E by lia. rewrite (E eq_refl) by lia. f_equal. lia.
Qed.

Lemma digit_no_underscores x l :
  ((48 <=? x) && (x <=? 57)) || (x =? 45) = true -> starts_with (bs "__") (x :: l) = false.
Proof.
  intros Hx. unfold starts_with. change (bs "__") with [95; 95]. cbn [strip_prefix].
  destruct (Z.eqb_spec 95 x) as [<- |]; done.
Qed.
Lemma find_underscores a b : digits_or_minus a = true -> (length b <= 1)%nat -> find_sub (bs "__") (a ++ b) = None.
Proof.
  intros Ha Hb. induction a as [| x a IH].
  - apply find_sub_None; [done |]. intros j. destruct (at_ (bs "__") ([] ++ b) j) eqn:E; [| done].
    apply at_bound in E; [| done]. change (length (bs "__")) with 2%nat in E. cbn [app] in E. lia.
  - cbn in Ha. apply andb_true_iff in Ha as [Hx Ha]. cbn [app].
    by rewrite find_sub_unfold, (IH Ha), digit_no_underscores.
Qed.
Lemma find_code a y : digits_or_minus a = true -> find_sub (bs "__") (a ++ bs "__" ++ y) = Some (length a).
Proof.
  induction a as [| x a IH]; intros Ha; [done |]. cbn in Ha. apply andb_true_iff in Ha as [Hx Ha].
  cbn [app]. by rewrite find_sub_unfold, (IH Ha), digit_no_underscores.
Qed.

(** No end marker is found before it is whole, and then its own. *)
Lemma end_matches_more : (k + length r < length mid + length EM)%nat -> end_matches r id = [].
Proof.
  intros Hm. unfold end_matches. destruct (Nat.leb_spec (length mid - k + length EP) (length r)) as [Hl | Hl]; cycle 1.
  { rewrite match_indices_nil; [done | done |]. rewrite end_prefix_find. by destruct (Nat.leb_spec (length mid - k + length EP) (length r)); [lia |]. }
  destruct (match_indices_first EP r (length mid - k)) as (js & E & Hjs); [done | |].
  { rewrite end_prefix_find. by apply Nat.leb_le in Hl as ->. }
  assert (Hat := match_indices_at EP r ltac:(done)). rewrite E in Hat |- *.
  apply Forall_cons in Hat as [_ Hat]. assert (Hep : (14 <= length EP)%nat).
  { unfold end_prefix. rewrite !length_app. cbn. lia. }
  rewrite !length_app in Hm. change (length (bs "__")) with 2%nat in Hm.
  assert (js = []) as ->.
  { destruct js as [| j js]; [done |]. apply Forall_cons in Hjs as [Hj _]. apply Forall_cons in Hat as [Ha _].
    apply at_bound in Ha; [| done]. lia. }
  cbn [omap list_omap]. rewrite <- drop_drop, drop_marker by (rewrite ?length_app; change (length (bs "__")) with 2%nat; lia).
  rewrite skipn_firstn_comm, drop_app_length.
  set (n := (k + length r - length mid - length EP)%nat). assert (Hn : (n <= length ct + 1)%nat) by lia.
  destruct (decide (n <= length ct)%nat).
  - rewrite take_app_le by done. rewrite <- (app_nil_r (take n ct)). by rewrite find_underscores; [| apply digits_take | cbn; lia].
  - replace n with (length ct + 1)%nat by lia. rewrite take_app_add. by rewrite find_underscores; [| | cbn; lia].
Qed.

Lemma whole_marker :
  (length mid + length EM <= k + length r)%nat -> exists y, r = drop k mid ++ EM ++ y.
Proof.
  intros Hm. assert (E : r ++ rest = (drop k mid ++ EM) ++ post) by (rewrite <- app_assoc; apply drop_d).
  destruct (app_eq_inv _ _ _ _ E) as [(y & -> & _) | (y & Hy & _)]; [exists y; by rewrite <- app_assoc |].
  exists []. rewrite app_nil_r. assert (y = []) as ->; [| by rewrite app_nil_r in Hy].
  apply (f_equal length) in Hy. rewrite (length_app r), (length_app (drop k mid)), length_drop in Hy.
  destruct y; [done |]. cbn [length] in Hy. lia.
Qed.

Lemma end_matches_done :
  (length mid + length EM <= k + length r)%nat ->
  exists stop ms, end_matches r id = (id, (length mid - k)%nat, stop, code) :: ms
                  /\ Forall (fun m => (length mid - k <= m.1.1.2)%nat) ms.
Proof.
  intros Hm. destruct (whole_marker Hm) as [y Hy].
  destruct (match_indices_first EP r (length mid - k)) as (js & E & Hjs); [done | |].
  { rewrite end_prefix_find. rewrite !length_app in Hm.
    by destruct (Nat.leb_spec (length mid - k + length EP) (length r)); [| lia]. }
  assert (Ec : drop (length mid - k + length EP) r = ct ++ bs "__" ++ y).
  { rewrite Hy, <- drop_drop. rewrite drop_app_length' by (by rewrite length_drop).
    by rewrite <- !app_assoc, drop_app_length. }
  unfold end_matches. rewrite E. cbn [omap list_omap]. rewrite Ec, (find_code ct y Hdig), take_app_length, Hcode.
  cbn [fmap option_fmap option_map]. do 2 eexists. split; [reflexivity |].
  apply Forall_forall. intros m Hin. apply list_elem_of_omap in Hin as (j & Hj & Hin).
  rewrite Forall_forall in Hjs. specialize (Hjs j Hj). cbv zeta in Hin.
  destruct (find_sub (bs "__") (drop (j + length EP) r)) as [u |]; [| done].
  destruct (parse_i32 (take u (drop (j + length EP) r))); [| done]. injection Hin as <-. cbn [fst snd]. lia.
Qed.

Lemma no_start_cap m f : try_match_start r (one id (cap m) [] f) = None.
Proof. unfold try_match_start. rewrite in_phase_one. cbn [phase collected]. by rewrite bool_decide_false. Qed.

Lemma cap_more now v rec prev f :
  (k + length r < length mid + length EM)%nat -> prev ++ rec = body (frame (take k mid)) ->
  exists i rec', (i <= length r)%nat /\ (k + i <= length mid)%nat
    /\ process_turn now r v rec (one id (cap (take k mid)) [] f)
       = (one id (cap (take (k + i) mid)) (drop i r) f, [], v, rec')
    /\ prev ++ rec' = body (frame (take (k + i) mid)).
Proof.
  intros Hm Hr. unfold process_turn. rewrite no_start_cap.
  assert (Hno : try_match_end now r rec (one id (cap (take k mid)) [] f) = None).
  { unfold try_match_end. rewrite in_phase_one. cbn [phase collected]. rewrite bool_decide_true by done.
    cbn [flat_map]. by rewrite end_matches_more. }
  rewrite Hno, any_in_phase_one. cbn [phase collected]. rewrite bool_decide_true by done.
  assert (Happ : forall i, (i <= length r)%nat -> (k + i <= length mid)%nat ->
    exists rec', append_to id (take i r) rec (one id (cap (take k mid)) [] f) = (one id (cap (take (k + i) mid)) [] f, rec')
                 /\ prev ++ rec' = body (frame (take (k + i) mid))).
  { intros i H1 H2. rewrite append_to_one, <- (take_mid i H1 H2).
    destruct (append_cap t0 en (take k mid) (take i r) rec prev Hr) as (rec' & -> & Hr'); [| by exists rec'].
    rewrite (take_mid i H1 H2), length_take. lia. }
  rewrite prefix_find. destruct (Nat.leb_spec (length mid - k + length MARKER_PREFIX) (length r)) as [Hp | Hp].
  - assert (Hp' : (0 < length MARKER_PREFIX)%nat) by (cbn; lia).
    destruct (Happ (length mid - k)%nat) as (rec' & -> & Hr'); [lia | lia |].
    exists (length mid - k)%nat, rec'. split_and!; [lia | lia | | done].
    rewrite possible_one, drop_marker, possible_end by lia. done.
  - destruct (marker_tail id (cap (take k mid)) [] f r) as [H1 H2]. revert H1 H2.
    set (i := match possible_marker_tail_start _ r with Some i => i | None => length r end). intros H1 H2.
    assert (Hi : (k + i <= length mid)%nat).
    { destruct (decide (k + length r <= length mid)%nat); [lia |]. specialize (H2 (length mid - k)%nat).
      rewrite drop_marker, possible_end in H2 by lia. specialize (H2 eq_refl). lia. }
    destruct (Happ i H1 Hi) as (rec' & -> & Hr'). exists i, rec'. by split_and!.
Qed.

(** A processor whose capture is over: it only waits for the prompt, if at all. *)
Definition over (p : AgentOutputCaptureProcessor) : Prop :=
  pending_marker_tail p = [] /\
  (active p = ∅ \/ exists c, phase c = PostCapture /\ active p = {[id := c]}).

Definition report (now : Z) : AgentCapturedOutput := Captured id (trim (frame mid)) (Some code) (elapsed_ms now t0) false.
Definition recorded : list Z := if en then body (frame mid) else frame mid.

Lemma cap_done now v rec prev f :
  (length mid + length EM <= k + length r)%nat -> prev ++ rec = body (frame (take k mid)) ->
  exists p' rec', process_turn now r v rec (one id (cap (take k mid)) [] f) = (p', [], v, rec')
    /\ over p' /\ completed p' = [report now] /\ control_filter p' = f /\ prev ++ rec' = recorded.
Proof.
  intros Hm Hr. destruct (end_matches_done Hm) as (stop & ms & Em & Hms). unfold process_turn. rewrite no_start_cap.
  assert (Hl : (k + (length mid - k) = length mid)%nat) by lia.
  assert (Hlr : (length mid - k <= length r)%nat) by (rewrite !length_app in Hm; lia).
  destruct (append_cap t0 en (take k mid) (take (length mid - k) r) rec prev Hr) as (rec' & Ea & Hr').
  { rewrite take_mid, length_take by lia. lia. }
  rewrite take_mid, Hl, firstn_all in Ea, Hr' by lia.
  unfold try_match_end. rewrite in_phase_one. cbn [phase collected]. rewrite bool_decide_true by done.
  cbn [flat_map]. rewrite app_nil_r, Em, min_by_key_first by done. cbn [active one]. rewrite lookup_singleton_eq, Ea.
  do 2 eexists. split; [reflexivity |]. cbn [collected buffer recording_tail end_newline source_truncated start_time].
  split_and!; [| done | done |].
  - split; [done |]. cbn [active]. destruct (beq _ _).
    + right. eexists. split; [| by rewrite insert_singleton_eq]. done.
    + left. apply delete_singleton_eq.
  - unfold recorded. destruct en; [done |]. by rewrite app_assoc, Hr', body_newline.
Qed.
End Collect.

(** The states before the end marker is whole; [c] is the text consumed so far
    and [prev] what has been recorded of it. *)
Definition waiting (c : list Z) (prev : list Z) (f : CaptureControlFilter) (p : AgentOutputCaptureProcessor) : Prop :=
  exists d t, c = d ++ t /\ (length d <= length pre)%nat /\ (length c < o)%nat /\ prev = [] /\ p = one id wait t f.
Definition collecting (c : list Z) (prev : list Z) (f : CaptureControlFilter) (p : AgentOutputCaptureProcessor) : Prop :=
  exists d t k, c = d ++ t /\ length d = (o + k)%nat /\ (k <= length mid)%nat
    /\ (length c < o + length mid + length EM)%nat
    /\ prev = body (frame (take k mid)) /\ p = one id (cap (take k mid)) t f.
Definition live c prev f p : Prop := waiting c prev f p \/ collecting c prev f p.

(** After a call that has consumed [c]. *)
Definition outcome (now : Z) (c prev : list Z) (f : CaptureControlFilter) (p : AgentOutputCaptureProcessor) : Prop :=
  if (o + length mid + length EM <=? length c)%nat
  then over p /\ completed p = [report now] /\ control_filter p = f /\ prev = recorded
  else live c prev f p.

Lemma loop_nil n now v rec p : process_loop n now [] v rec p = (p, v, rec).
Proof. by destruct n. Qed.

Lemma loop_collect n d r rest k now v rec prev f :
  T = d ++ r ++ rest -> length d = (o + k)%nat -> (k <= length mid)%nat -> (length r <= n)%nat ->
  prev ++ rec = body (frame (take k mid)) ->
  exists p' rec', process_loop n now r v rec (one id (cap (take k mid)) [] f) = (p', v, rec')
                  /\ outcome now (d ++ r) (prev ++ rec') f p'.
Proof.
  intros HT Hd Hk Hn Hr. unfold outcome. rewrite (length_app d r), Hd.
  destruct r as [| b r'].
  { rewrite loop_nil. do 2 eexists. split; [done |]. rewrite !length_app. cbn [length].
    destruct (Nat.leb_spec (o + length mid + (length EP + (length ct + length (bs "__")))) (o + k + 0)) as [H | H].
    { exfalso. change (length (bs "__")) with 2%nat in H. lia. }
    right. exists d, [], k. split_and!; try done. rewrite !length_app, Hd. cbn [length]. lia. }
  destruct n as [| n]; [cbn in Hn; lia |]. set (r := b :: r') in *. cbn [process_loop]. fold r.
  destruct (Nat.leb_spec (o + length mid + length EM) (o + k + length r)) as [H | H].
  - destruct (cap_done d r rest k HT Hd Hk now v rec prev f) as (p' & rec' & E & Ho & Hc & Hf & Hrec); [lia | done |].
    unfold r at 1. fold r. rewrite E, loop_nil. by do 2 eexists.
  - destruct (cap_more d r rest k HT Hd Hk now v rec prev f) as (i & rec' & H1 & H2 & E & Hrec); [lia | done |].
    rewrite E, loop_nil. do 2 eexists. split; [done |]. right. exists (d ++ take i r), (drop i r), (k + i)%nat.
    split_and!; try done; [by rewrite <- app_assoc, take_drop | rewrite length_app, length_take; lia | rewrite length_app; lia].
Qed.

Lemma loop_wait n d r rest now v f :
  T = d ++ r ++ rest -> (length d <= length pre)%nat -> (length r <= n)%nat ->
  exists p' rec', process_loop n now r v [] (one id wait [] f) = (p', v, rec') /\ outcome now (d ++ r) rec' f p'.
Proof.
  intros HT Hd Hn. assert (Hsm : (15 <= length SM)%nat) by (unfold start_marker; rewrite !length_app; cbn; lia).
  assert (Hw : (length d + length r < o)%nat -> forall t u, r = u ++ t -> (length d + length u <= length pre)%nat ->
               outcome now (d ++ r) [] f (one id wait t f)).
  { intros Hs t u -> Hu. unfold outcome. rewrite (length_app d).
    destruct (Nat.leb_spec (o + length mid + length EM) (length d + length (u ++ t))); [lia |].
    left. exists (d ++ u), t. rewrite !length_app in *. split_and!; try done; first [by rewrite app_assoc | lia]. }
  destruct r as [| b r'].
  { rewrite loop_nil. do 2 eexists. split; [done |]. apply (Hw ltac:(cbn; lia) [] []); [done | cbn; lia]. }
  destruct n as [| n]; [cbn in Hn; lia |]. set (r := b :: r') in *. cbn [process_loop]. fold r.
  destruct (decide (o <= length d + length r)%nat) as [H | H].
  - rewrite (wait_found d r rest now v [] f HT Hd H).
    destruct (loop_collect n (d ++ take (o - length d) r) (drop (o - length d) r) rest 0 now v [] [] f)
      as (p' & rec' & E & Ho).
    + by rewrite HT, <- (app_assoc d), (app_assoc (take _ r)), take_drop.
    + rewrite length_app, length_take. lia.
    + lia.
    + rewrite length_drop. lia.
    + done.
    + exists p', rec'. by rewrite <- (app_assoc d), take_drop in Ho.
  - destruct (wait_more d r rest now v [] f HT Hd) as (i & H1 & H2 & E); [lia |].
    rewrite E, loop_nil. do 2 eexists. split; [done |]. apply (Hw ltac:(lia) _ (take i r)); [by rewrite take_drop |].
    rewrite length_take. lia.
Qed.

(** One call in such a state: the state of the processor before its report is
    taken away. *)
Lemma call_live now text c prev f p rest f' x q :
  control_process f text = (f', (x, q)) -> T = c ++ x ++ rest -> live c prev f p ->
  exists p' r, process now text p = finish_call q r p' /\ outcome now (c ++ x) (prev ++ r) f' p'.
Proof.
  intros Hc HT Hl.
  assert (Hone : forall cp t, p = one id cp t f -> process now text p =
    let '(p, v, r) := process_loop (length (t ++ x)) now (t ++ x) q [] (one id cp [] f') in finish_call v r p).
  { intros cp t ->. unfold process, has_active. rewrite no_active_one. cbn [negb orb control_filter one]. rewrite Hc.
    change (with_control f' (one id cp t f)) with (one id cp t f'). by rewrite no_active_one. }
  destruct Hl as [(d & t & -> & Hd & Hlen' & -> & Hp) | (d & t & k & -> & Hd & Hk & Hlen' & -> & Hp)];
    rewrite (Hone _ _ Hp), <- !(app_assoc d).
  - destruct (loop_wait (length (t ++ x)) d (t ++ x) rest now q f') as (p' & r & -> & Ho); [| done | done |].
    { by rewrite HT, <- !app_assoc. }
    by exists p', r.
  - destruct (loop_collect (length (t ++ x)) d (t ++ x) rest k now q [] (body (frame (take k mid))) f')
      as (p' & r & -> & Ho); try done.
    { by rewrite HT, <- !app_assoc. }
    { by rewrite app_nil_r. }
    by exists p', r.
Qed.

(** One call when the capture is over. *)
Lemma call_over now text p :
  over p -> completed p = [] ->
  exists p' v, process now text p = (p', Processed v [] []) /\ over p' /\ completed p' = [].
Proof.
  intros [Ht Ha] Hc. unfold process. destruct (has_active p); cbn [negb]; cycle 1.
  { unfold finish_call, drain_completed. rewrite Hc. do 2 eexists. split; [done |]. by repeat split. }
  destruct (control_process (control_filter p) text) as [f' [x q]].
  destruct Ha as [Ha | (cp & Hph & Ha)].
  { unfold no_active. cbn [with_control active]. rewrite bool_decide_true by done.
    unfold finish_call, drain_completed, with_control. rewrite Hc. do 2 eexists. split; [done |]. split; [| done].
    by split; [| left]. }
  destruct p as [a t cs f]. cbn in Ht, Ha, Hc. subst a t cs. change (with_control f' _) with (one id cp [] f').
  rewrite no_active_one. cbn [pending_marker_tail one app]. change (with_tail [] _) with (one id cp [] f').
  destruct x as [| b x].
  { rewrite loop_nil. do 2 eexists. split; [done |]. split; [| done]. split; [done |]. right. by exists cp. }
  cbn [length process_loop]. unfold process_turn.
  unfold try_match_start, try_match_end. rewrite !in_phase_one, !any_in_phase_one, Hph.
  rewrite !bool_decide_false by done. cbn [omap list_omap min_by_key flat_map]. rewrite bool_decide_true by done.
  unfold clear_tail_if_idle, no_active. cbn [with_active active one]. rewrite delete_singleton_eq, bool_decide_true by done.
  rewrite loop_nil. do 2 eexists. split; [done |]. split; [| done]. by split; [| left].
Qed.
(** Whole sessions. *)
Definition silent (r : AgentCaptureProcessResult) : Prop := completed_now r = [] /\ recording_text r = [].

Lemma run_over chunks p : over p -> completed p = [] -> Forall silent (run chunks p).2.
Proof.
  revert p. induction chunks as [| [now text] cs IH]; intros p Ho Hc; [constructor |].
  cbn [run]. destruct (call_over now text p Ho Hc) as (p' & v & -> & Ho' & Hc').
  specialize (IH p' Ho' Hc'). destruct (run cs p') as [p2 rs]. by constructor.
Qed.

Lemma live_drain c prev f p : live c prev f p -> completed p = [] /\ (drain_completed p).1 = p.
Proof. by intros [(d & t & _ & _ & _ & _ & ->) | (d & t & k & _ & _ & _ & _ & _ & ->)]. Qed.

Lemma live_length c prev f p : live c prev f p -> (length c < o + length mid + length EM)%nat.
Proof. intros [(d & t & _ & _ & H & _) | (d & t & k & _ & _ & _ & H & _)]; lia. Qed.

Lemma run_live chunks c prev f p :
  Forall (fun ch => utf8_valid ch.2 = true) chunks -> live c prev f p ->
  T = c ++ (control_process f (texts chunks)).2.1 ->
  exists before now text after rs r rs',
    chunks = before ++ (now, text) :: after /\ (run chunks p).2 = rs ++ r :: rs' /\ length rs = length before
    /\ Forall (fun r => completed_now r = []) rs /\ completed_now r = [report now] /\ Forall silent rs'
    /\ prev ++ concat (map recording_text (rs ++ [r])) = recorded
    /\ concat (map visible_text (rs ++ [r])) = (control_process f (texts (before ++ [(now, text)]))).2.2.
Proof.
  revert c prev f p. induction chunks as [| [now text] cs IH]; intros c prev f p Hv Hl HT.
  { exfalso. apply live_length in Hl. change (control_process f (texts [])).2.1 with (@nil Z) in HT.
    rewrite app_nil_r in HT. rewrite <- HT, !length_app in Hl. lia. }
  apply Forall_cons in Hv as [Hv Hvs]. cbn in Hv. unfold texts in HT. cbn [map concat snd] in HT.
  rewrite (control_process_app f text _ Hv) in HT. destruct (control_process f text) as [f' [x q]] eqn:Ec.
  destruct (control_process f' (concat (map snd cs))) as [f2 [x2 q2]] eqn:Ec2. cbn [fst snd] in HT.
  destruct (call_live now text c prev f p x2 f' x q Ec HT Hl) as (p' & rt & E & Ho).
  cbn [run]. rewrite E. unfold finish_call. destruct (drain_completed p') as [pd cd] eqn:Ed. injection Ed as <- <-.
  unfold outcome in Ho. destruct (_ <=? _)%nat.
  - destruct Ho as (Hov & Hco & _ & Hrec).
    assert (Hrs := run_over cs (drain_completed p').1 Hov eq_refl). cbn [fst drain_completed] in Hrs.
    destruct (run cs _) as [p2 rs']. exists [], now, text, cs, [], (Processed q rt (completed p')), rs'.
    split_and!; try done; cbn [app map concat recording_text visible_text snd texts]; rewrite ?app_nil_r; [done |].
    unfold texts. cbn [map concat snd]. by rewrite ?app_nil_r, Ec.
  - destruct (live_drain _ _ _ _ Ho) as [Hco Hdr]. cbn [drain_completed fst] in Hdr. rewrite Hdr, Hco.
    destruct (IH (c ++ x) (prev ++ rt) f' p' Hvs Ho) as (before & now' & text' & after & rs & r & rs' & -> & Hrun & Hlen' & H1 & H2 & H3 & H4 & H5).
    { unfold texts. rewrite Ec2. by rewrite <- (app_assoc c). }
    destruct (run _ p') as [p2 rsall]. cbn [snd] in Hrun |- *. rewrite Hrun.
    exists ((now, text) :: before), now', text', after, (Processed q rt [] :: rs), r, rs'.
    split_and!; try done; [by cbn; rewrite Hlen' | by constructor | |].
    + cbn [app map concat recording_text]. by rewrite app_assoc.
    + cbn [app map concat visible_text]. rewrite H5. unfold texts. cbn [map concat snd].
      rewrite (control_process_app f text _ Hv), Ec.
      by destruct (control_process f' (concat (map snd (before ++ [(now', text')])))) as [f3 [x3 q3]].
Qed.
End Stream.

(** C18: However the output of a session is cut into chunks of text, a command
    whose output is at most eight mebibytes, and in which no marker prefix begins
    before its end marker (not even one that overlaps it, see
    [capture_end_lost]), is reported exactly once, in the chunk that completes
    its end marker: with the trimmed output, the exit status and the time since
    the registration, untruncated. The recorded
    text is the output without the line end behind the start marker and, where
    the wrapper prints one, without the line end before the end marker. Up to
    that chunk only terminal queries are shown, and later chunks report nothing. *)
Theorem agent_capture_delivers id pre mid ct post code t0 en chunks :
  Forall (fun ch => utf8_valid ch.2 = true) chunks ->
  (control_process control_default (texts chunks)).2.1
    = pre ++ start_marker id ++ mid ++ (end_prefix id ++ ct ++ bs "__") ++ post ->
  find_sub (start_marker id) (pre ++ start_marker id) = Some (length pre) ->
  find_sub MARKER_PREFIX (mid ++ MARKER_PREFIX) = Some (length mid) ->
  digits_or_minus ct = true -> (length ct <= 11)%nat -> parse_i32 ct = Some code ->
  len mid <= MAX_CAPTURE_BYTES ->
  exists before now text after rs r rs',
    chunks = before ++ (now, text) :: after
    /\ (run chunks (register_with_end_newline t0 id en new)).2 = rs ++ r :: rs' /\ length rs = length before
    /\ Forall (fun r => completed_now r = []) rs
    /\ completed_now r = [Captured id (trim (frame mid)) (Some code) (elapsed_ms now t0) false]
    /\ Forall silent rs'
    /\ concat (map recording_text (rs ++ [r])) = (if en then body (frame mid) else frame mid)
    /\ concat (map visible_text (rs ++ [r])) = (control_process control_default (texts (before ++ [(now, text)]))).2.2.
Proof.
  intros Hv HT Hpre Hmid Hdig Hct Hcode Hlen.
  apply (run_live id pre mid ct post code t0 en Hpre Hmid Hdig Hct Hcode Hlen chunks [] [] control_default);
    [done | | by rewrite HT].
  left. exists [], []. split_and!; [done | cbn; lia | | done |].
  - unfold start_marker. rewrite !length_app. cbn. lia.
  - unfold register_with_end_newline, with_active, new, one. cbn. by rewrite insert_empty.
Qed.

Lemma agent_capture_delivers_witness :
  exists before now text after rs r rs',
    [(5, bs "$ wrapper __DF_CMD_STA"); (6, bs "RT_a1__" ++ [10] ++ bs "ok_"); (2000000, [10] ++ bs "__DF_CMD_END_a1_-7_"); (3000000, bs "_ $")]
      = before ++ (now, text) :: after
    /\ (run [(5, bs "$ wrapper __DF_CMD_STA"); (6, bs "RT_a1__" ++ [10] ++ bs "ok_"); (2000000, [10] ++ bs "__DF_CMD_END_a1_-7_"); (3000000, bs "_ $")]
          (register_with_end_newline 0 (bs "a1") true new)).2 = rs ++ r :: rs' /\ length rs = length before
    /\ Forall (fun r => completed_now r = []) rs
    /\ completed_now r = [Captured (bs "a1") (trim (frame ([10] ++ bs "ok_" ++ [10]))) (Some (-7)) (elapsed_ms now 0) false]
    /\ Forall silent rs'
    /\ concat (map recording_text (rs ++ [r])) = body (frame ([10] ++ bs "ok_" ++ [10]))
    /\ concat (map visible_text (rs ++ [r])) = (control_process control_default (texts (before ++ [(now, text)]))).2.2.
Proof.
  apply (agent_capture_delivers (bs "a1") (bs "$ wrapper ") ([10] ++ bs "ok_" ++ [10]) (bs "-7") (bs " $") (-7) 0 true);
    [by repeat constructor | vm_compute; reflexivity | vm_compute; reflexivity | vm_compute; reflexivity
     | reflexivity | cbn; lia | reflexivity | vm_compute; discriminate].
Defined.

(** The condition on the output is needed where the wrapper prints no line end: an
    output that ends in the first eight characters of a marker hides the end
    marker when a chunk ends inside it, but not when the chunk is whole. *)
Definition hidden_end : list Z := bs "__DF_CMD_START_a1__" ++ [10] ++ bs "x__DF_CMD__DF_CMD_E".
Lemma capture_end_lost :
  map completed_now (run [(1, hidden_end); (2, bs "ND_a1_0__ C:")] (register_with_end_newline 0 (bs "a1") false new)).2 = [[]; []]
  /\ map exit_code (concat (map completed_now
       (run [(1, hidden_end ++ bs "ND_a1_0__ C:")] (register_with_end_newline 0 (bs "a1") false new)).2)) = [Some 0].
Proof. split; vm_compute; reflexivity. Qed.
