(* ===== verification/CaptureFilters.v ===== *)
(** * CaptureFilters: the two filters of the agent's capture

    Control strings (titles and the like) disappear without a trace wherever they
    are inserted and however they are cut, and the filter of a retired command
    removes that command's markers and nothing else. *)
From stdpp Require Import base list numbers strings gmap.
From Stdlib Require Import ZArith Lia.
From S2P Require Import Prelude Text Boundary AgentCapture AgentCaptureSpec.

#[local] Arguments chars : simpl never.
#[local] Arguments find_sub : simpl never.
#[local] Arguments starts_with : simpl never.

(** ** Control strings *)

(** What opens a control string, whether it is an operating system command, and
    what closes it. *)
Inductive opens : list (list Z) -> bool -> Prop :=
| opens_esc b : b ∈ [93; 80; 88; 94; 95] -> opens [[27]; [b]] (b =? 93)
| opens_c1 b : b ∈ [157; 144; 152; 158; 159] -> opens [[194; b]] (b =? 157).
Inductive closes : bool -> list (list Z) -> Prop :=
| closes_bel : closes true [[7]]
| closes_st osc : closes osc [[194; 156]]
| closes_esc osc : closes osc [[27]; [92]].

(** A body that holds no terminator: no escape, no string terminator, and no
    bell where the bell is one. *)
Definition plain (osc : bool) (ch : list Z) : Prop := ch <> [27] /\ ch <> [194; 156] /\ (osc = true -> ch <> [7]).

(** No sequence is open. *)
Definition ground (f : CaptureControlFilter) : Prop := in_string f = None /\ cf_pending f = [].

Lemma beq_false l1 l2 : l1 <> l2 -> beq l1 l2 = false.
Proof. intros H. unfold beq. by apply bool_decide_eq_false. Qed.

Lemma control_body osc cs p :
  Forall (plain osc) cs -> control_chars (Control p (Some osc) false) cs = (Control p (Some osc) false, ([], [])).
Proof.
  induction 1 as [| ch cs (H1 & H2 & H3) _ IH]; [done |]. cbn [control_chars control_step in_string string_escape cf_pending].
  rewrite (beq_false ch ESC H1), (beq_false ch [194; 156] H2). cbn [andb orb].
  assert (osc && beq ch [7] = false) as ->; [| cbn [orb]; by rewrite IH].
  destruct osc; [| done]. by apply beq_false, H3.
Qed.

Lemma control_open f op osc :
  ground f -> opens op osc -> control_chars f op = (Control [] (Some osc) false, ([], [])).
Proof.
  destruct f as [p i e]. intros [Hi Hp] Ho. cbn in Hi, Hp. subst i p.
  destruct Ho as [b Hb | b Hb]; repeat (apply elem_of_cons in Hb as [-> | Hb]; [done |]); by apply elem_of_nil in Hb.
Qed.

Lemma control_close osc cl :
  closes osc cl -> control_chars (Control [] (Some osc) false) cl = (Control [] None false, ([], [])).
Proof. by destruct 1 as [| [] | []]. Qed.

(** Two filters that only differ in a flag that the next string resets. *)
Definition same (f g : CaptureControlFilter) : Prop :=
  in_string f = in_string g /\ cf_pending f = cf_pending g
  /\ (is_Some (in_string f) -> string_escape f = string_escape g).

Lemma same_step f g ch :
  same f g -> same (control_step f ch).1 (control_step g ch).1 /\ (control_step f ch).2 = (control_step g ch).2.
Proof.
  destruct f as [p i e], g as [p' i' e']. intros (Hi & Hp & He). cbn in Hi, Hp, He. subst i' p'.
  destruct i as [osc |].
  { rewrite He by done. done. }
  unfold control_step. cbn [in_string cf_pending string_escape].
  repeat match goal with |- context [if ?b then _ else _] => destruct b end;
    (split; [repeat split; try done; by intros [? ?] | done]).
Qed.

Lemma same_chars f g cs : same f g -> (control_chars f cs).2 = (control_chars g cs).2.
Proof.
  revert f g. induction cs as [| ch cs IH]; intros f g H; [done |]. cbn [control_chars].
  destruct (same_step f g ch H) as [H1 H2]. destruct (control_step f ch) as [f1 [t q]], (control_step g ch) as [g1 [t' q']].
  cbn [fst snd] in H1, H2. injection H2 as <- <-. specialize (IH f1 g1 H1).
  destruct (control_chars f1 cs) as [f2 [t2 q2]], (control_chars g1 cs) as [g2 [t3 q3]]. cbn [snd] in *. by injection IH as <- <-.
Qed.

(** A control string (opened by an escape or a C1 control, with any body that
    holds no terminator, and closed) inserted anywhere between two sequences of
    the output changes neither the text that is searched for markers nor the
    queries that are shown. *)
Theorem control_strings_opaque f a op osc body cl b :
  ground (control_chars f a).1 -> opens op osc -> Forall (plain osc) body -> closes osc cl ->
  (control_chars f (a ++ op ++ body ++ cl ++ b)).2 = (control_chars f (a ++ b)).2.
Proof.
  intros Hg Ho Hb Hc. rewrite !(control_chars_app f a). destruct (control_chars f a) as [f1 [t1 q1]]. cbn [fst] in Hg.
  rewrite (control_chars_app f1 op), (control_open f1 op osc Hg Ho).
  rewrite (control_chars_app _ body), (control_body osc body [] Hb).
  rewrite (control_chars_app _ cl), (control_close osc cl Hc).
  assert (Hs : same (Control [] None false) f1).
  { destruct Hg as [H1 H2]. split_and!; [by rewrite H1 | by rewrite H2 | by intros [? ?]]. }
  apply (same_chars _ _ b) in Hs. destruct (control_chars (Control [] None false) b) as [g2 [t2 q2]].
  destruct (control_chars f1 b) as [h2 [t3 q3]]. cbn [snd] in *. by injection Hs as <- <-.
Qed.

Lemma control_strings_opaque_witness :
  (control_chars control_default
     (chars (bs "out") ++ [[27]; [93]] ++ chars (bs "0;__DF_CMD_END_a1_0__") ++ [[7]] ++ chars (bs "put"))).2
  = (control_chars control_default (chars (bs "out") ++ chars (bs "put"))).2.
Proof.
  apply (control_strings_opaque control_default (chars (bs "out")) [[27]; [93]] true (chars (bs "0;__DF_CMD_END_a1_0__")) [[7]]);
    [done | apply (opens_esc 93); set_solver | vm_compute; repeat constructor; discriminate | constructor].
Defined.

(** ** The filter of late markers *)

(** What the inner loop does with a pending text. *)
Inductive verdict := Clear | Hold | Finish | Pop.
Definition verdict_of (start end_ v : list Z) : verdict :=
  if beq v start then Clear
  else if starts_with v start || starts_with v end_ then Hold
  else match strip_prefix end_ v with
       | Some code => if closes_marker code then Finish else if open_code code then Hold else Pop
       | None => Pop
       end.

Definition verdict_result (v : verdict) (l : list Z) : list Z * bool :=
  match v with Clear => ([], false) | Hold => (l, false) | Finish => ([], true) | Pop => ([], false) end.

Lemma retired_loop_cons start end_ ch cs :
  retired_loop start end_ (ch :: cs) =
  match verdict_of start end_ (concat (ch :: cs)) with
  | Pop => let '(rest, out, fin) := retired_loop start end_ cs in (rest, ch ++ out, fin)
  | v => ((verdict_result v (concat (ch :: cs))).1, [], (verdict_result v (concat (ch :: cs))).2)
  end.
Proof.
  cbn [retired_loop]. unfold verdict_of. destruct (beq _ _); [done |]. destruct (_ || _); [done |].
  destruct (strip_prefix _ _) as [code |]; [| done]. destruct (closes_marker code); [done |]. by destruct (open_code code).
Qed.

(** The loop lets through what lies before the first place at which the rest is
    not given up; no place that could start a marker is jumped over. *)
Lemma retired_loop_spec start end_ l :
  start <> [] ->
  exists i, (i <= length l)%nat
    /\ retired_loop start end_ (chars l)
       = ((verdict_result (verdict_of start end_ (drop i l)) (drop i l)).1, take i l,
          (verdict_result (verdict_of start end_ (drop i l)) (drop i l)).2)
    /\ verdict_of start end_ (drop i l) <> Pop
    /\ (forall j, (j < i)%nat -> head (drop j l) = Some 95 -> verdict_of start end_ (drop j l) = Pop).
Proof.
  intros Hs. remember (length l) as n eqn:Hn. revert l Hn. induction (lt_wf n) as [n _ IH]. intros [| b l] ->.
  { exists 0%nat. unfold verdict_of. rewrite drop_0, (beq_false [] start) by done. done || (split_and!; [done | done | done | lia]). }
  destruct (chars_first b l) as (m & Hm & Hc & Hno). rewrite Hc, retired_loop_cons, <- Hc, concat_chars.
  destruct (verdict_of start end_ (b :: l)) eqn:E;
    try (exists 0%nat; rewrite drop_0, take_0, E; split_and!; [lia | done | done | lia]).
  destruct (IH (length (drop m (b :: l)))) with (l := drop m (b :: l)) as (i & Hi & Hr & Hv & Hj);
    [rewrite length_drop; lia | done |].
  exists (m + i)%nat. rewrite Hr, drop_drop in *. rewrite length_drop in Hi. split_and!; [lia | | done |].
  - by rewrite take_take_drop.
  - intros j Hlt Hh. destruct (decide (m <= j)%nat) as [Hmj |].
    + specialize (Hj (j - m)%nat). rewrite drop_drop in Hj. replace (m + (j - m))%nat with j in Hj by lia. apply Hj; [lia | done].
    + destruct j as [| j]; [done |]. exfalso. by apply (Hno (S j)); [lia |].
Qed.

Section Retired.
Context (id : list Z).
#[local] Abbreviation SM := (start_marker id).
#[local] Abbreviation EP := (end_prefix id).
#[local] Abbreviation verd := (verdict_of SM EP).

(** A marker of the command: its start, or its end with a printed exit status. *)
Inductive marker : list Z -> bool -> Prop :=
| marker_start : marker SM false
| marker_end ct : digits_or_minus ct = true -> (length ct <= 11)%nat -> is_Some (parse_i32 ct) ->
    marker (EP ++ ct ++ bs "__") true.

(** Text in which no marker starts, whatever follows. *)
Definition clean (u : list Z) : Prop := find_sub MARKER_PREFIX (u ++ MARKER_PREFIX) = Some (length u).

Lemma verdict_prefix v : verd v <> Pop -> (length MARKER_PREFIX <= length v)%nat -> starts_with MARKER_PREFIX v = true.
Proof.
  intros Hv Hl. unfold verdict_of in Hv. destruct (beq v SM) eqn:E1; [apply beq_true in E1 as ->; apply starts_with_app |].
  assert (Hpre : forall x, starts_with v (MARKER_PREFIX ++ x) = true -> starts_with MARKER_PREFIX v = true).
  { intros x Hx. rewrite starts_with_take in Hx. apply beq_true in Hx. rewrite starts_with_take, <- Hx. apply beq_true.
    rewrite take_take. rewrite Nat.min_l by done. apply take_app_length. }
  destruct (starts_with v SM || starts_with v EP) eqn:E2.
  { apply orb_true_iff in E2 as [E2 | E2]; by apply Hpre in E2. }
  destruct (strip_prefix EP v) as [code |] eqn:E3; [| done]. apply strip_prefix_Some in E3 as ->.
  unfold end_prefix. rewrite <- app_assoc. apply starts_with_app.
Qed.

(** A part of a marker is held; a whole marker is removed. *)
Lemma strip_underscores l : strip_suffix (bs "__") (l ++ bs "__") = Some l.
Proof.
  unfold strip_suffix. rewrite rev_app_distr. change (rev (bs "__")) with [95; 95]. cbn [app strip_prefix].
  rewrite !Z.eqb_refl. cbn. by rewrite rev_involutive.
Qed.
Lemma strip_underscores_no l b : b <> 95 -> strip_suffix (bs "__") (l ++ [b; 95]) = None.
Proof.
  intros Hb. unfold strip_suffix. rewrite rev_app_distr. change (rev (bs "__")) with [95; 95]. cbn [rev app strip_prefix].
  rewrite Z.eqb_refl. by destruct (Z.eqb_spec 95 b).
Qed.
Lemma strip_underscores_last l b : b <> 95 -> strip_suffix (bs "__") (l ++ [b]) = None.
Proof.
  intros Hb. unfold strip_suffix. rewrite rev_app_distr. change (rev (bs "__")) with [95; 95]. cbn [rev app strip_prefix].
  by destruct (Z.eqb_spec 95 b).
Qed.

Lemma closes_open k ct :
  digits_or_minus ct = true -> (0 < k <= length ct + 1)%nat -> ct <> [] -> closes_marker (take k (ct ++ bs "__")) = false.
Proof.
  intros Hd Hk Hn.
  assert (Hlast : forall x l, digits_or_minus (l ++ [x]) = true -> x <> 95).
  { intros x l H. unfold digits_or_minus in H. rewrite forallb_app in H. cbn in H. intros ->. by rewrite andb_false_r in H. }
  assert (H : strip_suffix (bs "__") (take k (ct ++ bs "__")) = None); [| unfold closes_marker; by rewrite H].
  destruct (decide (k <= length ct)%nat) as [Hl |].
  - rewrite take_app_le by done. pose proof (digits_take k ct Hd) as Hd'. revert Hd'.
    assert (Hk' : length (take k ct) = k) by (rewrite length_take; lia). revert Hk'. generalize (take k ct) as w.
    intros w. destruct w as [| x w _] using rev_ind; [cbn; lia |]. intros _ Hw. by apply strip_underscores_last, (Hlast x w).
  - replace k with (length ct + 1)%nat by lia. rewrite take_app_add. change (take 1 (bs "__")) with [95].
    destruct ct as [| x w _] using rev_ind; [done |]. rewrite <- app_assoc. by apply strip_underscores_no, (Hlast x w).
Qed.

Lemma end_not_start n x : (9 < n)%nat -> take n (EP ++ x) <> SM /\ starts_with (take n (EP ++ x)) SM = false.
Proof.
  intros Hn. assert (He : take n (EP ++ x) !! 9%nat = Some 69) by by rewrite lookup_take_lt.
  split; [intros E; by rewrite E in He |].
  destruct (starts_with _ _) eqn:E; [| done]. rewrite starts_with_take in E. apply beq_true in E. exfalso.
  rewrite <- E in He.
  destruct (decide (9 < length (take n (EP ++ x)))%nat) as [Hl | Hl].
  - by rewrite lookup_take_lt in He by done.
  - rewrite lookup_take_ge in He by lia. done.
Qed.

Lemma marker_part M fin n : marker M fin -> (0 < n < length M)%nat -> verd (take n M) = Hold.
Proof.
  intros HM Hn. destruct HM as [| ct Hd Hl [code Hp]].
  - unfold verdict_of. rewrite beq_false, starts_with_prefix; [done |]. intros E. apply (f_equal length) in E.
    rewrite length_take in E. lia.
  - assert (Hs : beq (take n (EP ++ ct ++ bs "__")) SM = false).
    { apply beq_false. destruct (decide (9 < n)%nat) as [H9 | H9]; [by apply end_not_start |].
      intros E. apply (f_equal length) in E. rewrite length_take in E. unfold start_marker in E. rewrite !length_app in E.
      cbn in E. lia. }
    unfold verdict_of. rewrite Hs. destruct (_ || _) eqn:E; [done |]. apply orb_false_iff in E as [_ E].
    assert (Hge : (length EP < n)%nat).
    { destruct (decide (length EP < n)%nat); [done |]. rewrite take_app_le in E by lia. by rewrite starts_with_prefix in E. }
    rewrite !length_app in Hn. change (length (bs "__")) with 2%nat in Hn.
    replace n with (length EP + (n - length EP))%nat by lia. rewrite take_app_add, strip_prefix_app.
    set (k := (n - length EP)%nat). assert (Hk : (0 < k <= length ct + 1)%nat) by lia.
    rewrite closes_open by (first [done | lia | by intros ->]).
    assert (open_code (take k (ct ++ bs "__")) = true) as ->; [| done].
    unfold open_code. apply andb_true_iff. split; [apply Nat.leb_le; rewrite length_take; lia |].
    destruct (decide (k <= length ct)%nat).
    + rewrite take_app_le by done. pose proof (digits_take k ct Hd). by rewrite strip_digits.
    + replace k with (length ct + 1)%nat by lia. rewrite take_app_add. change (take 1 (bs "__")) with [95].
      by rewrite strip_snoc.
Qed.

Lemma marker_whole M fin : marker M fin -> verd M = if fin then Finish else Clear.
Proof.
  destruct 1 as [| ct Hd Hl [code Hp]]; unfold verdict_of; [by rewrite beq_refl |].
  assert (Hlen : (9 < length (EP ++ ct ++ bs "__"))%nat) by (unfold end_prefix; rewrite !length_app; cbn; lia).
  destruct (end_not_start _ (ct ++ bs "__") Hlen) as [H1 H2]. rewrite firstn_all in H1, H2.
  rewrite (beq_false _ _ H1), H2. cbn [orb]. rewrite strip_prefix_app.
  assert (starts_with (EP ++ ct ++ bs "__") EP = false) as ->.
  { apply not_true_is_false. intros E. rewrite starts_with_take in E. apply beq_true, (f_equal length) in E.
    rewrite length_take, !length_app in E. change (length (bs "__")) with 2%nat in E. lia. }
  unfold closes_marker. by rewrite strip_underscores, Hp, bool_decide_true.
Qed.

Lemma marker_head M fin : marker M fin -> exists y, M = MARKER_PREFIX ++ y.
Proof. destruct 1; eexists; [done |]. unfold end_prefix. by rewrite <- app_assoc. Qed.

(** A short text that is not given up is held. *)
Lemma verdict_short v : verd v <> Pop -> (length v < length MARKER_PREFIX)%nat -> verd v = Hold.
Proof.
  intros Hv Hl. assert (Hm : forall y, v <> MARKER_PREFIX ++ y).
  { intros y ->. rewrite length_app in Hl. lia. }
  unfold verdict_of in *. rewrite beq_false in * by apply Hm. destruct (_ || _); [done |].
  destruct (strip_prefix EP v) as [code |] eqn:E; [| done]. apply strip_prefix_Some in E.
  exfalso. apply (Hm ((bs "END_" ++ id ++ bs "_") ++ code)). rewrite E. unfold end_prefix. by rewrite <- !app_assoc.
Qed.

Section Segment.
Context (u M : list Z) (fin : bool).
Hypothesis Hu : clean u.
Hypothesis HM : marker M fin.

(** Before [u] ends no marker starts. *)
Lemma clean_verdict g w y :
  u ++ M = w ++ y -> (g < length u)%nat -> verd (drop g w) <> Pop -> (length (drop g w) < length MARKER_PREFIX)%nat.
Proof.
  intros Hw Hg Hv. destruct (decide (length (drop g w) < length MARKER_PREFIX)%nat) as [| Hl]; [done |]. exfalso.
  apply verdict_prefix in Hv; [| lia]. destruct (marker_head M fin HM) as [z Hz].
  apply find_sub_Some in Hu as [_ Hno]; [| done]. specialize (Hno g Hg).
  change (at_ MARKER_PREFIX w g = true) in Hv. rewrite length_drop in Hl.
  rewrite (at_piece MARKER_PREFIX [] w y) in Hv by (cbn in *; lia). cbn [app length Nat.add] in Hv. rewrite <- Hw, Hz in Hv.
  rewrite (at_piece MARKER_PREFIX [] (u ++ MARKER_PREFIX) z) in Hno by (rewrite length_app; cbn in *; lia).
  cbn [app length Nat.add] in Hno. rewrite <- app_assoc in Hno. congruence.
Qed.

(** The text read so far, behind [u], is the beginning of the marker. *)
Lemma behind_clean w y : u ++ M = w ++ y -> (length u <= length w)%nat -> drop (length u) w = take (length w - length u) M.
Proof.
  intros Hw Hge. apply (f_equal (@skipn Z (length u))) in Hw as Hd. rewrite drop_app_length, drop_app_le in Hd by done.
  rewrite Hd, take_app_le by (rewrite length_drop; lia). rewrite take_ge; [done | rewrite length_drop; lia].
Qed.
Lemma marker_verdict n :
  (0 < n <= length M)%nat ->
  head (take n M) = Some 95 /\ verd (take n M) = if (n =? length M)%nat then (if fin then Finish else Clear) else Hold.
Proof.
  intros Hn. split.
  - destruct (marker_head M fin HM) as [z ->]. destruct n; [lia | done].
  - destruct (Nat.eqb_spec n (length M)) as [-> |]; [by rewrite firstn_all; apply marker_whole |].
    apply (marker_part M fin); [done | lia].
Qed.

Lemma retired_loop_segment w y out pending :
  u ++ M = w ++ y -> out ++ pending = w -> (length out <= length u)%nat ->
  exists pending' o', retired_loop SM EP (chars pending) = (pending', o', beq y [] && fin)
    /\ (length (out ++ o') <= length u)%nat
    /\ if beq y [] then out ++ o' = u /\ pending' = [] else out ++ o' ++ pending' = w.
Proof.
  intros Hw Ho Hout. destruct (retired_loop_spec SM EP pending) as (i & Hi & -> & Hv & Hj); [done |].
  assert (Hdrop : forall j, drop j pending = drop (length out + j) w) by (intros j; by rewrite <- Ho, drop_app_add).
  assert (Hlw : (length w = length out + length pending)%nat) by (by rewrite <- Ho, length_app).
  assert (Hlm : (length u + length M = length w + length y)%nat) by (by rewrite <- !length_app, Hw).
  assert (Hml : (length MARKER_PREFIX <= length M)%nat).
  { destruct (marker_head M fin HM) as [z ->]. rewrite length_app. lia. }
  assert (Hg : (length out + i <= length u)%nat).
  { destruct (decide (length out + i <= length u)%nat); [done |]. exfalso.
    specialize (Hj (length u - length out)%nat ltac:(lia)). rewrite Hdrop in Hj.
    replace (length out + (length u - length out))%nat with (length u) in Hj by lia.
    rewrite (behind_clean w y Hw) in Hj by lia.
    destruct (marker_verdict (length w - length u)) as [H1 H2]; [lia |]. specialize (Hj H1). rewrite H2 in Hj.
    by destruct (_ =? _)%nat, fin. }
  assert (HV : verd (drop i pending) = (if beq y [] then (if fin then Finish else Clear) else Hold)
               /\ (y = [] -> length out + i = length u)%nat).
  { rewrite Hdrop in Hv |- *.
    destruct (decide (length out + i = length u /\ length u < length w)%nat) as [[Hgu Huw] | Hn].
    - split; [| lia]. rewrite Hgu, (behind_clean w y Hw) by lia.
      destruct (marker_verdict (length w - length u)) as [_ ->]; [lia |].
      destruct (Nat.eqb_spec (length w - length u) (length M)), y; cbn [length] in *; try lia; done.
    - assert (Hs : (length (drop (length out + i) w) < length MARKER_PREFIX)%nat).
      { destruct (decide (length out + i < length u)%nat); [by apply (clean_verdict _ w y) |].
        rewrite length_drop. cbn. lia. }
      rewrite (verdict_short _ Hv Hs). rewrite length_drop in Hs. destruct y; cbn [length] in *; [lia | done]. }
  destruct HV as [HV Hend]. rewrite HV. destruct (beq y []) eqn:Hy;
    [exists [], (take i pending) | exists (drop i pending), (take i pending)];
    (split; [by destruct fin |]); (split; [rewrite length_app, length_take; lia |]).
  - apply beq_true in Hy. split; [| done]. specialize (Hend Hy). subst y. rewrite app_nil_r in Hw.
    by rewrite <- (take_app_length u M), Hw, <- Hend, <- Ho, take_app_add.
  - by rewrite take_drop.
Qed.

#[local] Abbreviation retired := (Retired SM EP).

Lemma retired_chars_app r a b :
  retired_chars r (a ++ b) =
  let '(r1, o1) := retired_chars r a in let '(r2, o2) := retired_chars r1 b in (r2, o1 ++ o2).
Proof.
  revert r. induction a as [| ch a IH]; intros r; [cbn; by destruct (retired_chars r b) |].
  cbn [app retired_chars]. destruct (retired_step r ch) as [r1 o]. rewrite IH.
  destruct (retired_chars r1 a) as [r2 o2], (retired_chars r2 b) as [r3 o3]. by rewrite app_assoc.
Qed.

Lemma segment_part cs w y out pending ctl b :
  u ++ M = w ++ concat cs ++ y -> y <> [] -> out ++ pending = w -> (length out <= length u)%nat ->
  exists pending' o', retired_chars (retired pending ctl b) cs = (retired pending' ctl b, o')
    /\ (length (out ++ o') <= length u)%nat /\ out ++ o' ++ pending' = w ++ concat cs.
Proof.
  revert w out pending. induction cs as [| ch cs IH]; intros w out pending Hw Hy Ho Hout.
  { exists pending, []. rewrite !app_nil_r. done. }
  cbn [concat] in Hw. rewrite <- app_assoc, (app_assoc w) in Hw.
  destruct (retired_loop_segment (w ++ ch) (concat cs ++ y) out (pending ++ ch) Hw) as (p1 & o1 & E & Hl & Hr);
    [by rewrite app_assoc, Ho | done |].
  rewrite (beq_false (concat cs ++ y) []) in * by (by destruct (concat cs)). cbn [andb] in E.
  destruct (IH (w ++ ch) (out ++ o1) p1) as (p2 & o2 & E2 & Hl2 & Hr2); [done | done | by rewrite <- app_assoc | done |].
  exists p2, (o1 ++ o2). cbn [retired_chars]. unfold retired_step. cbn [r_start r_end r_pending r_control finished].
  rewrite E, orb_false_r, E2. split; [done |]. rewrite <- !app_assoc in *. split; [done |]. cbn [concat].
  by rewrite app_assoc in Hr2 |- *.
Qed.

(** A segment and its marker: the segment passes, the marker does not. *)
Lemma segment_full ctl b : retired_chars (retired [] ctl b) (chars (u ++ M)) = (retired [] ctl (b || fin), u).
Proof.
  pose proof (concat_chars (u ++ M)) as Hc. pose proof (chars_nonempty (u ++ M)) as Hn.
  destruct (marker_head M fin HM) as [z Hz].
  destruct (chars (u ++ M)) as [| ch cs _] using rev_ind.
  { exfalso. rewrite Hz in Hc. by destruct u. }
  rewrite concat_app in Hc. cbn [concat] in Hc. rewrite app_nil_r in Hc.
  apply Forall_app in Hn as [_ Hn]. apply Forall_cons in Hn as [Hn _].
  destruct (segment_part cs [] ch [] [] ctl b) as (p1 & o1 & E & Hl & Hr); [by rewrite Hc | done | done | cbn; lia |].
  cbn [app] in Hl, Hr. rewrite retired_chars_app, E.
  destruct (retired_loop_segment (u ++ M) [] o1 (p1 ++ ch)) as (p2 & o2 & E2 & _ & Ho & ->); [by rewrite app_nil_r | | done |].
  { by rewrite app_assoc, Hr, Hc. }
  cbn [retired_chars]. unfold retired_step. cbn [r_start r_end r_pending r_control finished]. rewrite E2.
  cbn. by rewrite app_nil_r, Ho.
Qed.
End Segment.

(** ** Streams *)

(** A text with some markers of the command, what is left without them, and
    whether an end marker is among them. *)
Inductive stream : list Z -> list Z -> bool -> Prop :=
| stream_last c : clean c -> utf8_valid c = true -> stream c c false
| stream_marker u M fin rest passed f :
    clean u -> utf8_valid u = true -> marker M fin -> stream rest passed f ->
    stream ((u ++ M) ++ rest) (u ++ passed) (fin || f).

Hypothesis Hid : utf8_valid id = true.

Lemma marker_valid M fin : marker M fin -> utf8_valid M = true.
Proof.
  assert (Ht : forall a, Forall (fun b => b <= 127) a -> utf8_valid (id ++ a) = true).
  { intros a Ha. apply utf8_valid_app; [done |]. rewrite <- (app_nil_r a). by rewrite utf8_valid_app_low. }
  destruct 1 as [| ct Hd _ _]; unfold start_marker, end_prefix, MARKER_PREFIX.
  - rewrite !utf8_valid_app_low by (by apply (bool_decide_unpack _)). apply Ht. by apply (bool_decide_unpack _).
  - rewrite <- !app_assoc. rewrite !utf8_valid_app_low by (by apply (bool_decide_unpack _)). apply Ht.
    repeat (apply Forall_app; split); try (by apply (bool_decide_unpack _)).
    apply Forall_forall. intros x Hx. unfold digits_or_minus in Hd. rewrite forallb_forall in Hd.
    apply list_elem_of_In in Hx. specialize (Hd x Hx). lia.
Qed.

Lemma retired_stream text passed f ctl b :
  stream text passed f ->
  exists pending out, retired_chars (Retired SM EP [] ctl b) (chars text) = (Retired SM EP pending ctl (b || f), out)
                      /\ out ++ pending = passed.
Proof.
  intros H. revert b. induction H as [c Hc Hv | u M fin rest passed f Hu Hv HM _ IH]; intros b.
  - destruct (segment_part c SM false Hc marker_start (chars c) [] SM [] [] ctl b) as (p & out & E & _ & Ho);
      [by rewrite concat_chars | done | done | cbn; lia |].
    exists p, out. rewrite orb_false_r, E. by rewrite concat_chars in Ho.
  - assert (Hvm : utf8_valid (u ++ M) = true) by (apply utf8_valid_app; [done | by apply (marker_valid M fin)]).
    rewrite (chars_app _ rest Hvm), retired_chars_app, (segment_full u M fin Hu HM).
    destruct (IH (b || fin)) as (p & out & -> & Ho). exists p, (u ++ out). rewrite orb_assoc. split; [done |].
    by rewrite <- app_assoc, Ho.
Qed.
End Retired.

(** ** Chunks *)
Fixpoint retired_run (chunks : list (list Z)) (r : RetiredCaptureFilter) : RetiredCaptureFilter * list Z :=
  match chunks with
  | [] => (r, [])
  | t :: ts =>
      let '(r, (o, _)) := retired_process t r in
      let '(r, os) := retired_run ts r in (r, o ++ os)
  end.

Lemma control_step_valid f ch :
  utf8_valid ch = true -> utf8_valid (cf_pending f) = true ->
  utf8_valid (cf_pending (control_step f ch).1) = true /\ utf8_valid (control_step f ch).2.1 = true.
Proof.
  intros Hc Hp. pose proof (utf8_valid_app _ _ Hp Hc) as Ha.
  assert (He : utf8_valid (cf_pending f ++ ESC ++ [91]) = true) by (by apply utf8_valid_app).
  unfold control_step. destruct (in_string f) as [osc |]; [done |].
  repeat match goal with |- context [if ?b then _ else _] => destruct b end; done.
Qed.

Lemma control_chars_valid f cs :
  Forall (fun c => utf8_valid c = true) cs -> utf8_valid (cf_pending f) = true ->
  utf8_valid (cf_pending (control_chars f cs).1) = true /\ utf8_valid (control_chars f cs).2.1 = true.
Proof.
  intros Hcs. revert f. induction Hcs as [| ch cs Hc _ IH]; intros f Hf; [done |]. cbn [control_chars].
  destruct (control_step_valid f ch Hc Hf) as [H1 H2]. destruct (control_step f ch) as [f1 [t q]]. cbn [fst snd] in H1, H2.
  destruct (IH f1 H1) as [H3 H4]. destruct (control_chars f1 cs) as [f2 [t2 q2]]. cbn [fst snd] in *.
  split; [done |]. by apply utf8_valid_app.
Qed.

Lemma retired_chars_control g r cs :
  retired_chars (with_r_control g r) cs = (with_r_control g (retired_chars r cs).1, (retired_chars r cs).2).
Proof.
  revert r. induction cs as [| ch cs IH]; intros r; [done |]. cbn [retired_chars].
  destruct (retired_step r ch) as [r1 o] eqn:E.
  assert (retired_step (with_r_control g r) ch = (with_r_control g r1, o)) as ->.
  { unfold retired_step in *. cbn [with_r_control r_start r_end r_pending finished r_control].
    destruct (retired_loop _ _ _) as [[p out] fin]. injection E as <- <-. done. }
  rewrite IH. by destruct (retired_chars r1 cs).
Qed.

(** The chunks make no difference: the filter sees the filtered text of the whole. *)
Lemma retired_run_chunks chunks r :
  Forall (fun t => utf8_valid t = true) chunks -> utf8_valid (cf_pending (r_control r)) = true ->
  retired_run chunks r =
  let '(f, (x, _)) := control_process (r_control r) (concat chunks) in
  let '(r', out) := retired_chars r (chars x) in (with_r_control f r', out).
Proof.
  intros Hv. revert r. induction Hv as [| t ts Ht _ IH]; intros r Hr; [by destruct r |]. cbn [retired_run concat].
  unfold retired_process. rewrite (control_process_app _ t _ Ht).
  pose proof (control_chars_valid (r_control r) (chars t) (chars_valid t Ht) Hr) as [Hp Hx].
  unfold control_process at 1 2. destruct (control_chars (r_control r) (chars t)) as [f1 [x1 q1]]. cbn [fst snd] in Hp, Hx.
  rewrite retired_chars_control. destruct (retired_chars r (chars x1)) as [r1 o1] eqn:E1. cbn [fst snd].
  rewrite (IH (with_r_control f1 r1) Hp). cbn [r_control with_r_control].
  destruct (control_process f1 (concat ts)) as [f2 [x2 q2]]. rewrite (chars_app x1 x2 Hx), retired_chars_app, E1.
  rewrite retired_chars_control. by destruct (retired_chars r1 (chars x2)).
Qed.

(** Once a command is no longer observed, the filter of its late markers
    passes exactly the output without them: for a text with any number of its
    start and end markers, cut into chunks in any way, what has been let through
    followed by what is still held back is the text between the markers, and the
    filter is finished exactly when an end marker has come by. *)
Theorem retired_filter_removes_markers id chunks passed fin :
  Forall (fun t => utf8_valid t = true) chunks -> utf8_valid id = true ->
  stream id (control_process control_default (concat chunks)).2.1 passed fin ->
  (retired_run chunks (retired_new id)).2 ++ r_pending (retired_run chunks (retired_new id)).1 = passed
  /\ finished (retired_run chunks (retired_new id)).1 = fin.
Proof.
  intros Hv Hid Hs. rewrite (retired_run_chunks chunks (retired_new id) Hv) by done.
  cbn [retired_new r_control]. destruct (control_process control_default (concat chunks)) as [f [x q]]. cbn [fst snd] in Hs.
  destruct (retired_stream id Hid x passed fin control_default false Hs) as (p & out & E & Ho).
  unfold retired_new. rewrite E. done.
Qed.

Lemma retired_filter_removes_markers_witness :
  (retired_run [bs "late_"; bs "__DF_CMD_E"; bs "ND_a1_-3_"; bs "_ready>"] (retired_new (bs "a1"))).2
    ++ r_pending (retired_run [bs "late_"; bs "__DF_CMD_E"; bs "ND_a1_-3_"; bs "_ready>"] (retired_new (bs "a1"))).1
  = bs "late_" ++ bs "ready>"
  /\ finished (retired_run [bs "late_"; bs "__DF_CMD_E"; bs "ND_a1_-3_"; bs "_ready>"] (retired_new (bs "a1"))).1 = true.
Proof.
  apply (retired_filter_removes_markers (bs "a1")); [by repeat constructor | done |].
  apply (stream_marker (bs "a1") (bs "late_") (end_prefix (bs "a1") ++ bs "-3" ++ bs "__") true (bs "ready>") (bs "ready>") false);
    [by vm_compute | done | by apply marker_end; [| cbn; lia | vm_compute; eexists] | by apply stream_last].
Defined.
