(* ===== verification/SyncTypes.v ===== *)
(** The data of configuration synchronisation: causal clocks
    (portable_snapshot/sync_clock.rs), snapshots with their hashes and checks
    (portable_snapshot/mod.rs), and the pointers, states, errors and previews of
    cloud_sync/mod.rs.  Texts are UTF-8 byte lists.  The JSON and SHA-2 libraries
    are the operations of the class [SyncLib]. *)
From stdpp Require Import base list numbers strings gmap.
From Stdlib Require Import ZArith Lia.
From S2P Require Import Prelude Text.

Abbreviation str := (list Z).

(** ** Causal clocks *)

Record SnapshotSyncClock := Clock {
  counters : gmap str Z;
  legacy_revision : option str
}.

#[global] Instance clock_eq_dec : EqDecision SnapshotSyncClock.
Proof. solve_decision. Defined.

(** [counters.get(device).copied().unwrap_or(0)]. *)
Definition count_of (c : SnapshotSyncClock) (device : str) : Z := default 0 (counters c !! device).

Definition strictly_dominates (self other : SnapshotSyncClock) : bool :=
  forallb (fun e => snd e <=? count_of self (fst e)) (map_to_list (counters other)) &&
  existsb (fun e => count_of other (fst e) <? snd e) (map_to_list (counters self)).

Definition merge (self other : SnapshotSyncClock) : SnapshotSyncClock :=
  Clock (union_with (fun current count => Some (Z.max current count)) (counters self) (counters other))
        (match legacy_revision self with Some r => Some r | None => legacy_revision other end).

(** [SnapshotSyncClock::default]. *)
Definition default_clock : SnapshotSyncClock := Clock ∅ None.

(** ** Snapshots *)

Inductive PortableSnapshotKind := KindSync | KindBackup.

Record PortableSnapshotMeta := Meta {
  schema_version : Z;
  snapshot_kind : PortableSnapshotKind;
  meta_revision : str;
  meta_device : str;
  device_name : option str;
  created_at : Z;
  meta_payload_hash : str;
  entities_hash : option str;
  meta_clock : option SnapshotSyncClock;
  meta_app_version : str
}.

Record RawPortableSnapshot := Snapshot {
  meta : PortableSnapshotMeta;
  entities : gmap str str;
  source_hash : option str
}.

#[global] Instance kind_eq_dec : EqDecision PortableSnapshotKind.
Proof. solve_decision. Defined.
#[global] Instance meta_eq_dec : EqDecision PortableSnapshotMeta.
Proof. solve_decision. Defined.
#[global] Instance snapshot_eq_dec : EqDecision RawPortableSnapshot.
Proof. solve_decision. Defined.

Definition set_meta (m : PortableSnapshotMeta) (s : RawPortableSnapshot) : RawPortableSnapshot :=
  Snapshot m (entities s) (source_hash s).
Definition with_identity (revision device : str) (created : Z) (m : PortableSnapshotMeta) : PortableSnapshotMeta :=
  Meta (schema_version m) (snapshot_kind m) revision device (device_name m) created
       (meta_payload_hash m) (entities_hash m) (meta_clock m) (meta_app_version m).
Definition with_name (name : option str) (m : PortableSnapshotMeta) : PortableSnapshotMeta :=
  Meta (schema_version m) (snapshot_kind m) (meta_revision m) (meta_device m) name (created_at m)
       (meta_payload_hash m) (entities_hash m) (meta_clock m) (meta_app_version m).
Definition with_clock (clock : SnapshotSyncClock) (m : PortableSnapshotMeta) : PortableSnapshotMeta :=
  Meta (schema_version m) (snapshot_kind m) (meta_revision m) (meta_device m) (device_name m) (created_at m)
       (meta_payload_hash m) (entities_hash m) (Some clock) (meta_app_version m).
Definition with_hashes (payload all : str) (m : PortableSnapshotMeta) : PortableSnapshotMeta :=
  Meta (schema_version m) (snapshot_kind m) (meta_revision m) (meta_device m) (device_name m) (created_at m)
       payload (Some all) (meta_clock m) (meta_app_version m).

(** A [serde_json::Value].  The fields of an object are in the order of its map,
    without repetitions. *)
Inductive Json :=
| JNull
| JBool (b : bool)
| JNumber (text : str)
| JString (s : str)
| JArray (items : list Json)
| JObject (fields : list (str * Json)).

Inductive PortableSnapshotError :=
| MissingMasterPassword
| CiphertextTooShort
| UnsupportedEncryptionVersion (version : Z)
| InvalidEncryptionEnvelope
| Encrypt (text : str)
| Decrypt (new_error legacy_error : str)
| CorruptPayload
| MissingMetadata
| MissingEntity (name : str)
| UnsupportedVersion (version : Z)
| PayloadHashMismatch
| EntitiesHashMismatch
| SnapshotCodec (text : str)
| SnapshotZip (text : str)
| SnapshotIo (text : str)
| SnapshotJson (text : str).

#[global] Instance snapshot_error_eq_dec : EqDecision PortableSnapshotError.
Proof. solve_decision. Defined.

(** ** Pointers, states and outcomes *)

Record RemoteSyncPointer := Pointer {
  pointer_schema : Z;
  revision_id : str;
  created_at_ms : Z;
  payload_hash : str;
  device_id : str;
  app_version : str;
  sync_clock : option SnapshotSyncClock
}.

Record DeviceHead := Head {
  head_device : str;
  committed : option RemoteSyncPointer;
  pending_revision : option str
}.

Record CloudSyncState := State {
  state_device : str;
  last_synced_payload_hash : option str;
  last_synced_content_hash : option str;
  last_synced_clock : option SnapshotSyncClock;
  last_applied_remote_revision : option str;
  last_checked_at_ms : option Z;
  last_synced_at_ms : option Z;
  last_validated_remote_revision : option str;
  last_full_validation_at_ms : option Z;
  last_gc_attempt_at_ms : option Z
}.

(** The paths are their operating-system bytes. *)
Record LocalCloudSyncOptions := Options {
  config_dir : str;
  portable_key_path : option str;
  remote_dir : str;
  remote_root : str;
  opt_device : str;
  opt_device_name : option str;
  opt_app_version : str;
  master_password : str;
  enabled : bool
}.

#[global] Instance pointer_eq_dec : EqDecision RemoteSyncPointer.
Proof. solve_decision. Defined.
#[global] Instance head_eq_dec : EqDecision DeviceHead.
Proof. solve_decision. Defined.
#[global] Instance state_eq_dec : EqDecision CloudSyncState.
Proof. solve_decision. Defined.

Inductive CloudConflictKind := ContentConflict | RemoteInconsistent.

Record CloudEntityDiff := EntityDiff { entity : str; added : Z; removed : Z; modified : Z }.

Record CloudConflictBranch := Branch {
  branch_revision : str;
  branch_device : str;
  branch_device_name : option str;
  branch_created : Z;
  readable : bool;
  differences : list CloudEntityDiff
}.

Record CloudConflictPreview := Preview {
  branches : list CloudConflictBranch;
  preview_revisions : list str;
  local_content_hash : option str;
  detected_at_ms : Z;
  preview_provider : str;
  conflict_kind : CloudConflictKind;
  local_payload_hash : str;
  remote_payload_hash : str;
  remote_revision : str;
  remote_created_at_ms : Z;
  remote_device_id : str;
  recovery_revision : option str;
  recovery_payload_hash : option str;
  recovery_created_at_ms : option Z;
  overwrite_blocked : bool;
  preview_message : str
}.

Inductive SnapshotUnreadableCause := PayloadNotAuthentic | MasterPasswordMismatch | UnknownCause.

Definition blocks_remote_overwrite (cause : SnapshotUnreadableCause) : bool :=
  match cause with MasterPasswordMismatch => true | _ => false end.

Inductive CloudStorageErrorKind :=
| Dns | Connect | Tls | Timeout | ConnectionReset | PermissionDenied | NotFound | StorageConflict
| Unsupported | InvalidConfiguration | Unexpected.

Inductive CloudSyncError :=
| Storage (provider operation : str) (kind : CloudStorageErrorKind)
| Http (provider operation : str) (status : Z) (retry_after_seconds : option Z)
| Authentication (provider operation : str) (status : Z)
| CredentialsChanged
| CredentialPersistence
| Cancelled
| GistCapacity
| Disabled
| AutoPullDeferred
| LocalChangedDuringSync
| StaleRemoteRevision
| Conflict (preview : CloudConflictPreview)
| RemoteNewer
| NoRemoteSnapshot
| NoNewerRemoteSnapshot
| SnapshotMissing (revision : str)
| RevisionMismatch (pointer_revision snapshot_revision : str)
| HashMismatch (expected actual : str)
| ConcurrentUpdate (expected_revision actual_revision : option str)
| CorruptedSnapshot (revision detail : str)
| RemoteSnapshotUnreadable (revision path : str) (bytes : Z) (digest : str)
    (cause : SnapshotUnreadableCause) (source : PortableSnapshotError)
| RemoteWriteDiverged (revision path : str) (expected_bytes : Z) (expected_digest : str)
    (actual_bytes : Z) (actual_digest : str)
| InvalidRemotePath (path : str)
| Remote (text : str)
| CreateDir (path source : str)
| ReadFile (path source : str)
| WriteFile (path source : str)
| LocalStore (text : str)
| PortableSnapshot (e : PortableSnapshotError)
| JsonError (text : str)
| Base64Error (text : str)
| IoError (text : str).

Abbreviation res A := (result A CloudSyncError).

(** ** Libraries

    SHA-256, the parser and printer of JSON for the types that are exchanged, and
    the [Display] of errors that [thiserror] generates. *)
Class SyncLib := {
  sha256 : list Z -> list Z;
  head_to_vec : DeviceHead -> result (list Z) str;
  head_from_slice : list Z -> result DeviceHead str;
  entities_to_vec : gmap str str -> result (list Z) str;
  raw_value_from_string : str -> result str str;
  raw_object_to_vec : list (str * str) -> result (list Z) str;
  value_from_str : str -> result Json str;
  value_to_string : Json -> str;
  show_error : CloudSyncError -> str
}.

(** What those libraries promise, where a theorem needs it: a head that is
    printed can be read back. *)
Class SyncLibLaws `{L : SyncLib} := {
  head_roundtrip h bytes : head_to_vec h = Ok bytes -> head_from_slice bytes = Ok h
}.

Definition HEX : list Z := bs "0123456789abcdef".
Definition hex_encode (bytes : list Z) : str :=
  flat_map (fun byte => [nth (Z.to_nat (Z.shiftr byte 4)) HEX 0; nth (Z.to_nat (Z.land byte 15)) HEX 0]) bytes.

Section snapshots.
Context `{L : SyncLib}.

Definition sha256_hex (bytes : list Z) : str := hex_encode (sha256 bytes).

(** ** Hashes and checks of a snapshot *)

Definition calculate_entities_hash (es : gmap str str) : result str PortableSnapshotError :=
  let? bytes := map_err SnapshotJson (entities_to_vec es) in
  Ok (hex_encode (sha256 bytes)).

Definition read_raw_entity (es : gmap str str) (key : str) : result str PortableSnapshotError :=
  let? raw := ok_or (es !! key) (MissingEntity key) in
  map_err SnapshotJson (raw_value_from_string raw).

Fixpoint read_raw_entities (es : gmap str str) (keys : list str) : result (list (str * str)) PortableSnapshotError :=
  match keys with
  | [] => Ok []
  | key :: keys' =>
      let? raw := read_raw_entity es key in
      let? rest := read_raw_entities es keys' in
      Ok ((key, raw) :: rest)
  end.

Definition field (name : str) (l : list (str * str)) : list (str * str) :=
  filter (fun e => e.1 = name) l.

(** The order of the reads decides which error is reported; the order of the
    fields of the hash inputs is that of the structures. *)
Definition calculate_v3_raw_payload_hash (es : gmap str str) : result str PortableSnapshotError :=
  let? read := read_raw_entities es (map bs ["settings"; "sessions"; "keys"; "passwords"; "credentials"; "otp";
    "proxies"; "tunnels"; "quick_commands"; "history"; "master_key_token"; "known_hosts"]%string) in
  let fields := fun all names => flat_map (fun name => field (bs name) all) names in
  let hash := fun all names =>
    let? bytes := map_err SnapshotJson (raw_object_to_vec (fields all names)) in
    Ok (hex_encode (sha256 bytes)) in
  if bool_decide (is_Some (es !! bs "proxy_groups")) || bool_decide (is_Some (es !! bs "tunnel_groups")) then
    let? groups := read_raw_entities es (map bs ["proxy_groups"; "tunnel_groups"]%string) in
    if bool_decide (is_Some (es !! bs "notes")) then
      let? notes := read_raw_entities es [bs "notes"] in
      hash (read ++ groups ++ notes)
        ["settings"; "sessions"; "keys"; "passwords"; "credentials"; "otp"; "proxies"; "proxy_groups"; "tunnels";
         "tunnel_groups"; "quick_commands"; "history"; "master_key_token"; "known_hosts"; "notes"]%string
    else
      hash (read ++ groups)
        ["settings"; "sessions"; "keys"; "passwords"; "credentials"; "otp"; "proxies"; "proxy_groups"; "tunnels";
         "tunnel_groups"; "quick_commands"; "history"; "master_key_token"; "known_hosts"]%string
  else
    hash read
      ["settings"; "sessions"; "keys"; "passwords"; "credentials"; "otp"; "proxies"; "tunnels";
       "quick_commands"; "history"; "master_key_token"; "known_hosts"]%string.

Definition recalculate_hash (s : RawPortableSnapshot) : result RawPortableSnapshot PortableSnapshotError :=
  let? payload := calculate_v3_raw_payload_hash (entities s) in
  let? all := calculate_entities_hash (entities s) in
  Ok (Snapshot (with_hashes payload all (meta s)) (entities s) None).

Definition source_payload_hash (s : RawPortableSnapshot) : str :=
  default (meta_payload_hash (meta s)) (source_hash s).

Definition sync_content_hash (s : RawPortableSnapshot) : result str PortableSnapshotError :=
  let? all := calculate_entities_hash (entities s) in
  Ok (bs "entities-v1:" ++ all).

Fixpoint json_is_content_free (value : Json) : bool :=
  match value with
  | JNull => true
  | JString s => match s with [] => true | _ => false end
  | JArray items => match items with [] => true | _ => false end
  | JObject fields => forallb (fun f => json_is_content_free (snd f)) fields
  | _ => false
  end.

Definition USER_CONTENT_ENTITIES : list str :=
  map bs ["sessions"; "keys"; "passwords"; "credentials"; "otp"; "proxies"; "proxy_groups"; "tunnels";
          "tunnel_groups"; "quick_commands"; "known_hosts"]%string.

Definition has_user_content (s : RawPortableSnapshot) : bool :=
  existsb (fun key =>
    match entities s !! key with
    | Some raw =>
        match value_from_str raw with
        | Ok value => negb (json_is_content_free value)
        | Err _ => false
        end
    | None => false
    end) USER_CONTENT_ENTITIES.

Definition PORTABLE_SNAPSHOT_SCHEMA_VERSION : Z := 3.

Definition validate_raw_snapshot (s : RawPortableSnapshot) : result unit PortableSnapshotError :=
  if negb (schema_version (meta s) =? PORTABLE_SNAPSHOT_SCHEMA_VERSION) then
    Err (UnsupportedVersion (schema_version (meta s)))
  else
    let? expected := calculate_v3_raw_payload_hash (entities s) in
    if negb (beq expected (meta_payload_hash (meta s))) then Err PayloadHashMismatch
    else match entities_hash (meta s) with
         | None => Ok tt
         | Some expected =>
             let? actual := calculate_entities_hash (entities s) in
             if negb (beq actual expected) then Err EntitiesHashMismatch else Ok tt
         end.

End snapshots.
