(* ===== verification/SyncEffects.v ===== *)
(** Programs that talk to a remote store, to the local store, to the clock and to
    the cancellation flag, as trees: a node asks one of these and continues with
    whatever is answered.  Nothing is assumed of the answers, so a theorem about
    all runs holds for a remote store that other devices write to meanwhile, that
    serves stale data, fails or lies, and for a cancellation at any moment.

    The traits [CloudSyncRemote] and [CloudLocalStore] of cloud_sync/mod.rs are
    records of programs; [control] models cloud_sync/control.rs. *)
From stdpp Require Import base list numbers strings gmap.
From Stdlib Require Import ZArith Lia.
From S2P Require Import Prelude Text SyncTypes.

(** ** Questions and answers *)

(** The [AtomicU8] of a [CloudSyncOperationControl]. *)
Inductive control_state := PREPARING | CANCELLED | COMMITTING.
#[global] Instance control_state_eq_dec : EqDecision control_state.
Proof. solve_decision. Defined.

Record RemoteFileCapacity := Capacity { used : Z; limit : Z }.
Record CloudSyncBackupInfo := Backup { database_path : str; safety_backup_path : option str }.

(** [AtomicCas new] is [compare_exchange(PREPARING, new)] and answers the value
    that the cell held, so it took place when that is [PREPARING]. *)
Inductive op : Type -> Type :=
| ReadIfExists (path : str) : op (res (option (list Z)))
| Write (path : str) (bytes : list Z) : op (res unit)
| Delete (path : str) : op (res unit)
| ListFiles (path : str) : op (res (list str))
| FileCapacity : op (res (option RemoteFileCapacity))
| MakeDir (path : str) : op (res unit)
| EncodeSnapshot (s : RawPortableSnapshot) (password : str) : op (res (list Z))
| DecodeSnapshot (bytes : list Z) (password : str) : op (res RawPortableSnapshot)
| EncodePointer (p : RemoteSyncPointer) : op (res (list Z))
| DecodePointer (bytes : list Z) : op (res RemoteSyncPointer)
| BuildSnapshot : op (res RawPortableSnapshot)
| ApplySnapshot (s : RawPortableSnapshot) : op (res CloudSyncBackupInfo)
| ApplyChecked (s : RawPortableSnapshot) (expected : str) (state : CloudSyncState) :
    op (res (CloudSyncBackupInfo * CloudSyncState))
| PersistState (state : CloudSyncState) : op (res unit)
| VerifyPassword (password : str) : op (res (option bool))
| AtomicLoad : op control_state
| AtomicCas (new : control_state) : op control_state
| Now : op Z
| NewUuid : op str
| BeforeApply : op (res unit).

(** An operation with its answer. *)
Inductive event :=
| EvRead (path : str) (r : res (option (list Z)))
| EvWrite (path : str) (bytes : list Z) (r : res unit)
| EvDelete (path : str) (r : res unit)
| EvList (path : str) (r : res (list str))
| EvCapacity (r : res (option RemoteFileCapacity))
| EvMakeDir (path : str) (r : res unit)
| EvEncode (s : RawPortableSnapshot) (password : str) (r : res (list Z))
| EvDecode (bytes : list Z) (password : str) (r : res RawPortableSnapshot)
| EvEncodePointer (p : RemoteSyncPointer) (r : res (list Z))
| EvDecodePointer (bytes : list Z) (r : res RemoteSyncPointer)
| EvBuild (r : res RawPortableSnapshot)
| EvApply (s : RawPortableSnapshot) (r : res CloudSyncBackupInfo)
| EvApplyChecked (s : RawPortableSnapshot) (expected : str) (state : CloudSyncState)
    (r : res (CloudSyncBackupInfo * CloudSyncState))
| EvPersist (state : CloudSyncState) (r : res unit)
| EvVerify (password : str) (r : res (option bool))
| EvLoad (v : control_state)
| EvCas (new v : control_state)
| EvNow (t : Z)
| EvUuid (u : str)
| EvBeforeApply (r : res unit).

Definition event_of {X} (o : op X) : X -> event :=
  match o in op X return X -> event with
  | ReadIfExists p => EvRead p
  | Write p b => EvWrite p b
  | Delete p => EvDelete p
  | ListFiles p => EvList p
  | FileCapacity => EvCapacity
  | MakeDir p => EvMakeDir p
  | EncodeSnapshot s pw => EvEncode s pw
  | DecodeSnapshot b pw => EvDecode b pw
  | EncodePointer p => EvEncodePointer p
  | DecodePointer b => EvDecodePointer b
  | BuildSnapshot => EvBuild
  | ApplySnapshot s => EvApply s
  | ApplyChecked s h st => EvApplyChecked s h st
  | PersistState st => EvPersist st
  | VerifyPassword pw => EvVerify pw
  | AtomicLoad => EvLoad
  | AtomicCas n => EvCas n
  | Now => EvNow
  | NewUuid => EvUuid
  | BeforeApply => EvBeforeApply
  end.

(** ** Programs *)

Inductive prog (A : Type) : Type :=
| Ret (a : A)
| Panic
| Do {X : Type} (o : op X) (k : X -> prog A).
Arguments Ret {A} a.
Arguments Panic {A}.
Arguments Do {A X} o k.

Fixpoint pbind {A B} (m : prog A) (f : A -> prog B) : prog B :=
  match m with
  | Ret a => f a
  | Panic => Panic
  | Do o k => Do o (fun x => pbind (k x) f)
  end.

Definition perform {X} (o : op X) : prog X := Do o Ret.

(** A fallible program, and Rust's [?]. *)
Abbreviation M A := (prog (res A)).
Definition mbind_ok {A B} (m : M A) (f : A -> M B) : M B :=
  pbind m (fun r => match r with Ok a => f a | Err e => Ret (Err e) end).
Definition lift {A} (r : res A) : M A := Ret r.
Definition ok {A} (a : A) : M A := Ret (Ok a).
Definition fail {A} (e : CloudSyncError) : M A := Ret (Err e).

Notation "'let!' x ':=' m 'in' k" := (mbind_ok m (fun x => k))
  (at level 10, x pattern, m at level 100, k at level 200) : rust_scope.
Notation "'let~' x ':=' m 'in' k" := (pbind m (fun x => k))
  (at level 10, x pattern, m at level 100, k at level 200) : rust_scope.

(** The runs of a program.  A history lists the events so far, the latest first. *)
Abbreviation history := (list event).
Fixpoint runs {A} (m : prog A) (h h' : history) (r : A) : Prop :=
  match m with
  | Ret a => h' = h /\ r = a
  | Panic => False
  | Do o k => exists x, runs (k x) (event_of o x :: h) h' r
  end.

(** Some answers lead to a panic. *)
Fixpoint may_panic {A} (m : prog A) : Prop :=
  match m with
  | Ret _ => False
  | Panic => True
  | Do o k => exists x, may_panic (k x)
  end.

(** ** The traits *)

Record CloudSyncRemote := RemoteStore {
  provider : str;
  file_capacity : M (option RemoteFileCapacity);
  create_dir : str -> M unit;
  read_if_exists : str -> M (option (list Z));
  write : str -> list Z -> M unit;
  delete : str -> M unit;
  list_files : str -> M (list str)
}.

(** The options that the source passes to [build_sync_snapshot] and to the
    applying methods are the same throughout an operation. *)
Record CloudLocalStore := LocalStoreImpl {
  encode_sync_snapshot : RawPortableSnapshot -> str -> M (list Z);
  decode_sync_snapshot : list Z -> str -> M RawPortableSnapshot;
  encode_sync_pointer : RemoteSyncPointer -> M (list Z);
  decode_sync_pointer : list Z -> M RemoteSyncPointer;
  build_sync_snapshot : M RawPortableSnapshot;
  apply_sync_snapshot : RawPortableSnapshot -> M CloudSyncBackupInfo;
  apply_sync_snapshot_checked : RawPortableSnapshot -> str -> CloudSyncState ->
    M (CloudSyncBackupInfo * CloudSyncState);
  persist_cloud_sync_state : CloudSyncState -> M unit;
  verify_master_password : str -> M (option bool)
}.

(** The provider's and the local store's own implementations: one question each. *)
Definition raw_remote (name : str) : CloudSyncRemote := {|
  provider := name;
  file_capacity := perform FileCapacity;
  create_dir p := perform (MakeDir p);
  read_if_exists p := perform (ReadIfExists p);
  write p b := perform (Write p b);
  delete p := perform (Delete p);
  list_files p := perform (ListFiles p)
|}.

Definition raw_store : CloudLocalStore := {|
  encode_sync_snapshot s pw := perform (EncodeSnapshot s pw);
  decode_sync_snapshot b pw := perform (DecodeSnapshot b pw);
  encode_sync_pointer p := perform (EncodePointer p);
  decode_sync_pointer b := perform (DecodePointer b);
  build_sync_snapshot := perform BuildSnapshot;
  apply_sync_snapshot s := perform (ApplySnapshot s);
  apply_sync_snapshot_checked s h st := perform (ApplyChecked s h st);
  persist_cloud_sync_state st := perform (PersistState st);
  verify_master_password pw := perform (VerifyPassword pw)
|}.

Definition current_time_ms : prog Z := perform Now.
Definition uuid_v4 : prog str := perform NewUuid.

(** ** Cancellation *)

Inductive CloudSyncCancellation := Stopping | FinishingCommit.

(** The compare-and-exchange of the cell itself: the new value and the answer. *)
Definition compare_exchange (new cell : control_state) : control_state * control_state :=
  match cell with PREPARING => (new, PREPARING) | _ => (cell, cell) end.

(** [request_cancel], run by another thread on the cell. *)
Definition request_cancel (cell : control_state) : control_state * CloudSyncCancellation :=
  let (cell', previous) := compare_exchange CANCELLED cell in
  (cell', match previous with PREPARING | CANCELLED => Stopping | COMMITTING => FinishingCommit end).

Definition checkpoint : M unit :=
  let~ v := perform AtomicLoad in
  match v with CANCELLED => fail Cancelled | _ => ok tt end.

Definition begin_commit : M unit :=
  let~ v := perform (AtomicCas COMMITTING) in
  match v with PREPARING | COMMITTING => ok tt | CANCELLED => fail Cancelled end.

Definition controlled_remote (remote : CloudSyncRemote) : CloudSyncRemote := {|
  provider := provider remote;
  file_capacity := let! _ := checkpoint in file_capacity remote;
  create_dir p := let! _ := checkpoint in create_dir remote p;
  read_if_exists p :=
    let! _ := checkpoint in
    let! r := read_if_exists remote p in
    let! _ := checkpoint in
    ok r;
  write p b := let! _ := checkpoint in write remote p b;
  delete p := let! _ := checkpoint in delete remote p;
  list_files p :=
    let! _ := checkpoint in
    let! r := list_files remote p in
    let! _ := checkpoint in
    ok r
|}.

Definition controlled_store (store : CloudLocalStore) : CloudLocalStore := {|
  encode_sync_snapshot s pw := let! _ := checkpoint in encode_sync_snapshot store s pw;
  decode_sync_snapshot b pw := let! _ := checkpoint in decode_sync_snapshot store b pw;
  encode_sync_pointer p := let! _ := checkpoint in encode_sync_pointer store p;
  decode_sync_pointer b := let! _ := checkpoint in decode_sync_pointer store b;
  build_sync_snapshot :=
    let! _ := checkpoint in
    let! s := build_sync_snapshot store in
    let! _ := checkpoint in
    ok s;
  apply_sync_snapshot s := let! _ := begin_commit in apply_sync_snapshot store s;
  apply_sync_snapshot_checked s h st :=
    let! _ := begin_commit in apply_sync_snapshot_checked store s h st;
  persist_cloud_sync_state st := let! _ := begin_commit in persist_cloud_sync_state store st;
  verify_master_password pw := verify_master_password store pw
|}.

(** [Result::is_ok] and [Option::is_some]. *)
Definition is_ok {A E} (r : result A E) : bool := match r with Ok _ => true | Err _ => false end.
Definition is_some {A} (o : option A) : bool := match o with Some _ => true | None => false end.

(** Iteration with early return: [for x in l { body }], with a loop state. *)
Fixpoint for_each {A S} (l : list A) (s : S) (body : A -> S -> M S) : M S :=
  match l with
  | [] => ok s
  | x :: l' => let! s' := body x s in for_each l' s' body
  end.
