(* ===== verification/SyncLogic.v ===== *)
(** A program logic for [SyncEffects]: weakest preconditions over histories with a
    guard on every event, its adequacy for [runs], and what a remote store and a
    local store promise their clients.  The providers' own implementations and the
    wrappers of cloud_sync/control.rs discharge those promises. *)
From stdpp Require Import base list numbers strings gmap.
From Stdlib Require Import ZArith Lia.
From S2P Require Import Prelude Text SyncTypes SyncEffects.

(** ** Histories *)

(** [e] happened after the history [h] and before [h']. *)
Definition since (h h' : history) (e : event) : Prop :=
  exists h0, h `suffix_of` h0 /\ (e :: h0) `suffix_of` h'.

(** Events with these properties happened, the latest one first. *)
Fixpoint happened (ps : list (event -> Prop)) (h : history) : Prop :=
  match ps with
  | [] => True
  | p :: ps' => exists e h', (e :: h') `suffix_of` h /\ p e /\ happened ps' h'
  end.

Lemma happened_mono ps h h' : h `suffix_of` h' -> happened ps h -> happened ps h'.
Proof.
  destruct ps as [| p ps]; [done |]. intros Hs (e & h0 & H0 & He & Hps).
  exists e, h0. split; [| done]. by transitivity h.
Qed.

Lemma happened_since (p : event -> Prop) ps h h' e :
  happened ps h -> since h h' e -> p e -> happened (p :: ps) h'.
Proof.
  intros Hps (h0 & Hs & He) Hp. exists e, h0. split_and!; [done.. |]. by apply (happened_mono _ h).
Qed.

Lemma since_mono h1 h2 h3 h4 e : h1 `suffix_of` h2 -> h3 `suffix_of` h4 -> since h2 h3 e -> since h1 h4 e.
Proof. intros H1 H2 (h0 & Ha & Hb). exists h0. split; by etransitivity. Qed.

Lemma since_suffix h h' e : since h h' e -> h `suffix_of` h'.
Proof. intros (h0 & Ha & Hb). etransitivity; [exact Ha |]. etransitivity; [| exact Hb]. by apply suffix_cons_r. Qed.

Lemma since_head h e : since h (e :: h) e.
Proof. by exists h. Qed.

Create HintDb sync discriminated.
Lemma suffix_self {A} (l : list A) : l `suffix_of` l.
Proof. reflexivity. Qed.
#[export] Hint Resolve suffix_self suffix_cons_r since_head : sync.

(** ** Weakest preconditions *)

Section wp.
Context (G : history -> event -> Prop).

Fixpoint wp {A} (m : prog A) (h : history) (Q : history -> A -> Prop) : Prop :=
  match m with
  | Ret a => Q h a
  | Panic => False
  | Do o k => forall x, G h (event_of o x) /\ wp (k x) (event_of o x :: h) Q
  end.

Lemma wp_mono {A} (m : prog A) h (Q Q' : history -> A -> Prop) :
  (forall h' r, h `suffix_of` h' -> Q h' r -> Q' h' r) -> wp m h Q -> wp m h Q'.
Proof.
  revert h. induction m as [a | | X o k IH]; cbn; intros h HQ Hm; [by apply HQ | done |].
  intros x. destruct (Hm x) as [HG Hk]. split; [done |]. apply (IH x); [| done].
  intros h' r Hs. apply HQ. etransitivity; [| exact Hs]. by apply suffix_cons_r.
Qed.

Lemma wp_pbind {A B} (m : prog A) (f : A -> prog B) h Q :
  wp m h (fun h' a => wp (f a) h' Q) -> wp (pbind m f) h Q.
Proof.
  revert h. induction m as [a | | X o k IH]; cbn; intros h Hm; [done | done |].
  intros x. destruct (Hm x) as [HG Hk]. split; [done |]. by apply IH.
Qed.

(** The rule for [let!]: an error is returned at once. *)
Definition on_ok {A B} (f : A -> M B) (Q : history -> res B -> Prop) (h : history) (r : res A) : Prop :=
  match r with Ok a => wp (f a) h Q | Err e => Q h (Err e) end.

Lemma wp_let {A B} (m : M A) (f : A -> M B) h Q : wp m h (on_ok f Q) -> wp (mbind_ok m f) h Q.
Proof.
  intros Hm. apply wp_pbind. apply (wp_mono m h (on_ok f Q)); [| done]. by intros h' [a | e] _ H.
Qed.

Lemma wp_lift {A} (r : res A) h (Q : history -> res A -> Prop) : Q h r -> wp (lift r) h Q.
Proof. done. Qed.

(** The postcondition may use that the program ran. *)
Lemma wp_runs {A} (m : prog A) h (Q : history -> A -> Prop) :
  wp m h (fun h' r => runs m h h' r -> Q h' r) -> wp m h Q.
Proof.
  revert h Q. induction m as [a | | X o k IH]; cbn; intros h Q Hm; [by apply Hm | done |].
  intros x. destruct (Hm x) as [HG Hk]. split; [done |]. apply IH.
  eapply wp_mono; [| exact Hk]. intros h' r _ H Hr. apply H. by exists x.
Qed.

Lemma wp_perform {X} (o : op X) h Q :
  (forall x, G h (event_of o x)) -> (forall x, Q (event_of o x :: h) x) -> wp (perform o) h Q.
Proof. intros H1 H2 x. split; [apply H1 | apply H2]. Qed.

(** A loop keeps an invariant of the elements that are done, the history and the
    loop state. *)
Lemma wp_for_each_done {A S} (I : list A -> history -> S -> Prop) (body : A -> S -> M S) l0 l h s Q :
  (forall done x h s, I done h s -> wp (body x s) h (fun h' r => forall s', r = Ok s' -> I (done ++ [x]) h' s')) ->
  I l0 h s ->
  (forall h' r, h `suffix_of` h' -> (forall s', r = Ok s' -> I (l0 ++ l) h' s') -> Q h' r) ->
  wp (for_each l s body) h Q.
Proof.
  intros Hbody. revert l0 h s Q. induction l as [| x l IH]; intros l0 h s Q HI HQ; cbn [for_each].
  - apply HQ; [done |]. intros s' [= <-]. by rewrite app_nil_r.
  - apply wp_let. eapply wp_mono; [| by apply (Hbody l0 x)].
    intros h' [s' | e] Hs Hr; cbn [on_ok]; [| by apply HQ].
    apply (IH (l0 ++ [x])); [by apply Hr |]. intros h'' r Hs' Hi. apply HQ; [by etransitivity |].
    by rewrite <- app_assoc in Hi.
Qed.

(** The invariant of the history and the loop state only, for the elements of the
    list. *)
Lemma wp_for_each_in {A S} (I : history -> S -> Prop) (body : A -> S -> M S) l h s Q :
  (forall x h' s, h `suffix_of` h' -> x ∈ l -> I h' s -> wp (body x s) h' (fun h' r => forall s', r = Ok s' -> I h' s')) ->
  I h s ->
  (forall h' r, h `suffix_of` h' -> (forall s', r = Ok s' -> I h' s') -> Q h' r) ->
  wp (for_each l s body) h Q.
Proof.
  revert h s Q. induction l as [| x l IH]; intros h s Q Hbody HI HQ; cbn [for_each].
  - apply HQ; [done |]. by intros s' [= <-].
  - apply wp_let. eapply wp_mono; [| apply Hbody; [done | by left | exact HI]].
    intros h' [s' | e] Hs Hr; cbn [on_ok]; [| by apply HQ].
    apply IH; [| by apply Hr |].
    + intros y h0 s0 H0 Hy. apply Hbody; [by etransitivity | by right].
    + intros h'' r Hs'. apply HQ. by etransitivity.
Qed.

Lemma wp_for_each {A S} (I : history -> S -> Prop) (body : A -> S -> M S) l h s Q :
  (forall x h s, I h s -> wp (body x s) h (fun h' r => forall s', r = Ok s' -> I h' s')) ->
  I h s ->
  (forall h' r, h `suffix_of` h' -> (forall s', r = Ok s' -> I h' s') -> Q h' r) ->
  wp (for_each l s body) h Q.
Proof.
  intros Hb HI HQ. apply (wp_for_each_done (fun _ => I) body [] l); [| done | done].
  intros _ x. apply Hb.
Qed.

(** ** Specifications

    [sp m F]: from any history, every run of [m] respects the guard, and its
    result satisfies [F], which may speak of the events since the start. *)
Definition sp {A} (m : prog A) (F : history -> history -> A -> Prop) : Prop := forall h, wp m h (F h).

Lemma wp_sp {A} (m : prog A) F h Q :
  sp m F -> (forall h' r, h `suffix_of` h' -> F h h' r -> Q h' r) -> wp m h Q.
Proof. intros Hm HQ. eapply wp_mono; [exact HQ | apply Hm]. Qed.

(** [harmless m]: every run of [m] respects the guard. *)
Definition harmless {A} (m : prog A) : Prop := sp m (fun _ _ _ => True).

Definition harmless_from {A} (m : prog A) (h : history) : Prop := wp m h (fun _ _ => True).

Lemma sp_harmless {A} (m : prog A) F : sp m F -> harmless m.
Proof. intros H h. by eapply wp_sp. Qed.

Lemma harmless_ret {A} (a : A) : harmless (Ret a).
Proof. done. Qed.

Lemma harmless_bind {A B} (m : prog A) (f : A -> prog B) :
  harmless m -> (forall a, harmless (f a)) -> harmless (pbind m f).
Proof. intros Hm Hf h. apply wp_pbind. eapply wp_sp; [exact Hm |]. intros h' r _ _. apply Hf. Qed.

Lemma harmless_let {A B} (m : M A) (f : A -> M B) :
  harmless m -> (forall a, harmless (f a)) -> harmless (mbind_ok m f).
Proof. intros Hm Hf. apply harmless_bind; [done |]. intros [a | e]; [apply Hf | done]. Qed.

Lemma harmless_for_each {A S} l (s : S) (body : A -> S -> M S) :
  (forall x s, harmless (body x s)) -> harmless (for_each l s body).
Proof. intros Hb. revert s. induction l as [| x l IH]; intros s; [done |]. by apply harmless_let. Qed.

(** ** Adequacy *)

Lemma wp_adequate {A} (m : prog A) h h' r Q :
  wp m h Q -> runs m h h' r ->
  Q h' r /\ h `suffix_of` h' /\
  forall later e pre, h' = later ++ e :: pre -> h `suffix_of` pre -> G pre e.
Proof.
  revert h. induction m as [a | | X o k IH]; cbn [wp runs]; intros h Hm Hr; [| done |].
  - destruct Hr as [-> ->]. split_and!; [done.. |]. intros later e pre -> Hs. exfalso.
    apply suffix_length in Hs. rewrite length_app in Hs. cbn in Hs. lia.
  - destruct Hr as [x Hr]. destruct (Hm x) as [HG Hk]. destruct (IH x _ Hk Hr) as (HQ & Hs & HE).
    split_and!; [done | by eapply suffix_cons_l |].
    intros later e pre E Hp. destruct Hs as [l ->].
    destruct (decide (length pre = length h)) as [El | El].
    + assert (l ++ event_of o x :: h = later ++ e :: pre) as E' by done.
      apply app_inj_2 in E' as [_ E']; [| cbn; lia]. by injection E' as <- <-.
    + apply (HE later e pre E). destruct Hp as [k' ->].
      assert (Hlen : (length k' > 0)%nat) by (rewrite length_app in El; destruct k'; cbn in *; lia).
      destruct (exists_last (l := k')) as (k0 & e0 & ->); [by destruct k' |].
      exists k0. rewrite <- app_assoc. cbn. f_equal. f_equal.
      rewrite <- app_assoc in E. cbn in E.
      assert (E2 : (l ++ [event_of o x]) ++ h = (later ++ e :: k0 ++ [e0]) ++ h) by (rewrite <- !app_assoc; cbn; by rewrite <- app_assoc).
      apply app_inj_2 in E2 as [E2 _]; [| done].
      apply (f_equal last) in E2. rewrite last_snoc in E2.
      change (later ++ e :: k0 ++ [e0]) with (later ++ (e :: k0) ++ [e0]) in E2.
      rewrite app_assoc, last_snoc in E2. congruence.
Qed.

Lemma wp_no_panic {A} (m : prog A) h Q : wp m h Q -> ~ may_panic m.
Proof.
  revert h. induction m as [a | | X o k IH]; cbn; intros h Hm Hp; [done.. |].
  destruct Hp as [x Hp]. destruct (Hm x) as [_ Hk]. by apply (IH x _ Hk).
Qed.

(** ** What stores promise

    The events that neither change the remote files nor the local data. *)
Definition quiet (e : event) : bool :=
  match e with
  | EvWrite _ _ _ | EvDelete _ _ | EvApply _ _ | EvApplyChecked _ _ _ _ | EvPersist _ _ => false
  | _ => true
  end.

Definition quiet_since (h h' : history) : Prop := exists l, h' = l ++ h /\ Forall (fun e => quiet e = true) l.

Lemma quiet_since_suffix h h' : quiet_since h h' -> h `suffix_of` h'.
Proof. intros (l & -> & _). by exists l. Qed.

Lemma quiet_since_refl h : quiet_since h h.
Proof. by exists []. Qed.

Lemma quiet_since_trans h1 h2 h3 : quiet_since h1 h2 -> quiet_since h2 h3 -> quiet_since h1 h3.
Proof.
  intros (l1 & -> & H1) (l2 & -> & H2). exists (l2 ++ l1). split; [by rewrite app_assoc |]. by apply Forall_app.
Qed.

Lemma quiet_since_cons h e : quiet e = true -> quiet_since h (e :: h).
Proof. intros He. exists [e]. split; [done |]. by constructor. Qed.

(** Questions that only read: they are quiet, and an answer was really given. *)
Definition asks {A} (m : M A) (ev : A -> event) : Prop :=
  sp m (fun h h' r => quiet_since h h' /\ forall a, r = Ok a -> since h h' (ev a)).

(** Changes: allowed when the guard allows them after any quiet events that
    establish [P]. *)
Definition changes (P : history -> Prop) {A} (m : M A) (ev : res A -> event) : Prop :=
  forall h Q,
    (forall h' r, quiet_since h h' -> P h' -> G h' (ev r)) ->
    (forall h' r, h `suffix_of` h' -> (forall a, r = Ok a -> since h h' (ev (Ok a))) -> Q h' r) ->
    wp m h Q.

(** [C] is what a remote store establishes before it writes a file. *)
Class RemoteSpec (C : str -> history -> Prop) (R : CloudSyncRemote) : Prop := {
  remote_read p : asks (read_if_exists R p) (fun o => EvRead p (Ok o));
  remote_list p : asks (list_files R p) (fun l => EvList p (Ok l));
  remote_capacity : asks (file_capacity R) (fun c => EvCapacity (Ok c));
  remote_mkdir p : asks (create_dir R p) (fun u => EvMakeDir p (Ok u));
  remote_write p b : changes (C p) (write R p b) (EvWrite p b);
  remote_delete p : changes (fun _ => True) (delete R p) (EvDelete p)
}.

(** [P] is what a store establishes before it changes the local data. *)
Class StoreSpec (P : history -> Prop) (S : CloudLocalStore) : Prop := {
  store_encode s pw : asks (encode_sync_snapshot S s pw) (fun b => EvEncode s pw (Ok b));
  store_decode b pw : asks (decode_sync_snapshot S b pw) (fun s => EvDecode b pw (Ok s));
  store_encode_pointer p : asks (encode_sync_pointer S p) (fun b => EvEncodePointer p (Ok b));
  store_decode_pointer b : asks (decode_sync_pointer S b) (fun p => EvDecodePointer b (Ok p));
  store_build : asks (build_sync_snapshot S) (fun s => EvBuild (Ok s));
  store_verify pw : asks (verify_master_password S pw) (fun o => EvVerify pw (Ok o));
  store_persist st : changes P (persist_cloud_sync_state S st) (EvPersist st);
  store_apply s hash st : changes P (apply_sync_snapshot_checked S s hash st) (EvApplyChecked s hash st)
}.

Section instances.
Context (Hquiet : forall h e, quiet e = true -> G h e).

Lemma asks_perform {X} (o : op (res X)) : (forall x, quiet (event_of o x) = true) ->
  asks (perform o) (fun a => event_of o (Ok a)).
Proof.
  intros Hq h. apply wp_perform; [by intros x; apply Hquiet |].
  intros x. split; [by apply quiet_since_cons |]. intros a ->. apply since_head.
Qed.

Lemma changes_perform {X} (o : op (res X)) : changes (fun _ => True) (perform o) (event_of o).
Proof.
  intros h Q HG HQ. apply wp_perform; [by intros x; apply HG; [apply quiet_since_refl |] |].
  intros x. apply HQ; [by apply suffix_cons_r |]. intros a ->. apply since_head.
Qed.

Lemma quiet_perform {X} (o : op X) : (forall x, quiet (event_of o x) = true) ->
  sp (perform o) (fun h h' _ => quiet_since h h').
Proof. intros Hq h. apply wp_perform; intros x; [by apply Hquiet | by apply quiet_since_cons]. Qed.

#[export] Instance raw_remote_spec name : RemoteSpec (fun _ _ => True) (raw_remote name).
Proof.
  split; intros; cbn;
    first [by apply (asks_perform (ReadIfExists _)) | by apply (asks_perform (ListFiles _))
          | by apply (asks_perform FileCapacity) | by apply (asks_perform (MakeDir _))
          | apply (changes_perform (Write _ _)) | apply (changes_perform (Delete _))].
Qed.

#[export] Instance raw_store_spec : StoreSpec (fun _ => True) raw_store.
Proof.
  split; intros; cbn;
    first [by apply (asks_perform (EncodeSnapshot _ _)) | by apply (asks_perform (DecodeSnapshot _ _))
          | by apply (asks_perform (EncodePointer _)) | by apply (asks_perform (DecodePointer _))
          | by apply (asks_perform BuildSnapshot) | by apply (asks_perform (VerifyPassword _))
          | apply (changes_perform (PersistState _)) | apply (changes_perform (ApplyChecked _ _ _))].
Qed.

(** A cancellation is noticed; going on means that there was none. *)
Lemma checkpoint_spec : sp checkpoint (fun h h' _ => quiet_since h h').
Proof.
  intros h. apply wp_pbind. eapply wp_sp; [by apply (quiet_perform AtomicLoad) |].
  intros h' v _ Hq. by destruct v.
Qed.

Definition commit_event (e : event) : Prop := exists v, e = EvCas COMMITTING v /\ v <> CANCELLED.

Lemma begin_commit_spec :
  sp begin_commit (fun h h' r => quiet_since h h' /\
    forall u, r = Ok u -> forall ps, happened ps h -> happened (commit_event :: ps) h').
Proof.
  intros h. apply wp_pbind. apply wp_perform; intros v; [by apply Hquiet |].
  assert (Hc : v <> CANCELLED -> forall ps, happened ps h -> happened (commit_event :: ps) (EvCas COMMITTING v :: h)).
  { intros Hv ps Hps. exists (EvCas COMMITTING v), h. split_and!; [done | | done]. by exists v. }
  destruct v; cbn [event_of wp]; (split; [by apply quiet_since_cons |]); intros u Hu; try done; by apply Hc.
Qed.

Lemma begin_commit_commits :
  sp begin_commit (fun h h' r => forall u, r = Ok u -> quiet_since h h' /\ happened [commit_event] h').
Proof.
  intros h. eapply wp_sp; [apply begin_commit_spec |]. intros h' r _ [Hq Hr] u Hu. split; [done |].
  by apply (Hr u Hu []).
Qed.

Lemma asks_let {A B} (m : M A) (f : A -> M B) ev :
  sp m (fun h h' _ => quiet_since h h') -> (forall a, asks (f a) ev) -> asks (mbind_ok m f) ev.
Proof.
  intros Hm Hf h. apply wp_let. eapply wp_sp; [exact Hm |]. intros h1 [a | e] _ Hq; cbn [on_ok]; [| done].
  eapply wp_sp; [apply Hf |]. intros h2 r _ [Hq' He]. split; [by eapply quiet_since_trans |].
  intros a' Ha. eapply since_mono; [by apply quiet_since_suffix | done | by apply He].
Qed.

Lemma asks_checked {A} (m : M A) ev :
  asks m ev -> asks (mbind_ok m (fun a => mbind_ok checkpoint (fun _ => ok a))) ev.
Proof.
  intros Hm h. apply wp_let. eapply wp_sp; [exact Hm |]. intros h1 [a | e] _ [Hq He]; cbn [on_ok]; [| done].
  apply wp_let. eapply wp_sp; [apply checkpoint_spec |]. intros h2 [u | e] _ Hq2; cbn [on_ok].
  - split; [by eapply quiet_since_trans |]. intros a' [= <-].
    eapply since_mono; [done | by apply quiet_since_suffix | by apply He].
  - split; [by eapply quiet_since_trans | done].
Qed.

Lemma changes_let (P P' : history -> Prop) {A B} (m : M A) (f : A -> M B) ev :
  (forall h h', quiet_since h h' -> P' h -> P' h') ->
  sp m (fun h h' r => forall a, r = Ok a -> quiet_since h h' /\ P' h') ->
  (forall a, changes P (f a) ev) -> changes P' (mbind_ok m f) ev.
Proof.
  intros Hmono Hm Hf h Q HG HQ. apply wp_let. eapply wp_sp; [exact Hm |].
  intros h1 [a | e] Hs HP; cbn [on_ok]; [| by apply HQ]. destruct (HP a eq_refl) as [Hq HP'].
  apply Hf.
  - intros h2 r Hq2 _. apply HG; [by eapply quiet_since_trans |]. by apply (Hmono h1).
  - intros h2 r Hs2 He. apply HQ; [by etransitivity |]. intros b Hb.
    by apply (since_mono h h1 h2 h2), He.
Qed.

Lemma checkpoint_first (P : history -> Prop) {A} (m : M A) ev :
  changes P m ev -> changes P (mbind_ok checkpoint (fun _ => m)) ev.
Proof.
  intros Hm h Q HG HQ. apply wp_let. eapply wp_sp; [apply checkpoint_spec |].
  intros h1 [u | e] Hs Hq; cbn [on_ok]; [| by apply HQ]. apply Hm.
  - intros h2 r Hq2 HP. apply HG; [by eapply quiet_since_trans | done].
  - intros h2 r Hs2 He. apply HQ; [by transitivity h1 |]. intros a Ha. by apply (since_mono h h1 h2 h2), He.
Qed.

#[export] Instance controlled_remote_spec C R : RemoteSpec C R -> RemoteSpec C (controlled_remote R).
Proof.
  intros HR. split; intros;
    cbn [controlled_remote read_if_exists list_files file_capacity create_dir write delete];
    repeat first [apply checkpoint_first | apply (asks_let checkpoint); [apply checkpoint_spec | intros _]
                 | apply asks_checked]; apply HR.
Qed.

#[export] Instance controlled_store_spec P S : StoreSpec P S -> StoreSpec (happened [commit_event]) (controlled_store S).
Proof.
  intros HS. split; intros;
    cbn [controlled_store encode_sync_snapshot decode_sync_snapshot encode_sync_pointer decode_sync_pointer
         build_sync_snapshot verify_master_password persist_cloud_sync_state apply_sync_snapshot_checked];
    try (eapply changes_let; [intros h h' Hq; by apply happened_mono, quiet_since_suffix | apply begin_commit_commits | intros _; apply HS]);
    repeat first [apply (asks_let checkpoint); [apply checkpoint_spec | intros _] | apply asks_checked]; apply HS.
Qed.
End instances.

End wp.
