(* ===== verification/SyncHeads.v ===== *)
(** Remote paths (cloud_sync/remote.rs), the heads that devices publish
    (cloud_sync/heads.rs), and the compatibility pointer and conflict previews of
    cloud_sync/mod.rs that they use. *)
From stdpp Require Import base list numbers strings gmap.
From Stdlib Require Import ZArith Lia.
From S2P Require Import Prelude Text SyncTypes SyncEffects.

(** ** Paths *)

Definition SYNC_CURRENT_FILE : str := bs "sync/current.redb.enc".
Definition SYNC_LATEST_FILE : str := bs "sync/latest.redb".
Definition SYNC_SNAPSHOTS_DIR : str := bs "sync/snapshots/".
Definition HEADS_DIR : str := bs "sync/heads/".
Definition MAX_HEAD_BYTES : Z := 64 * 1024.
Definition MAX_DEVICES : Z := 256.
Definition READBACK_VERIFY_ATTEMPTS : nat := 3.
Definition REMOTE_SYNC_POINTER_SCHEMA_VERSION : Z := 3.

(** [trim_matches('/')]. *)
Definition trim_slashes (l : str) : str := trim_end_matches 47 (drop_byte 47 l).

Definition remote_path (base_root child : str) : str :=
  let root := trim_slashes (trim base_root) in
  let child := drop_byte 47 (trim child) in
  match root, child with
  | [], _ => child
  | _, [] => root
  | _, _ => root ++ 47 :: child
  end.

Definition legacy_sync_snapshot_file (revision : str) : str :=
  SYNC_SNAPSHOTS_DIR ++ revision ++ bs ".redb.enc".

(** ** Sorting

    [String]s are ordered by their bytes; the sorts are stable. *)
Fixpoint str_leb (a b : str) : bool :=
  match a, b with
  | [], _ => true
  | _, [] => false
  | x :: a', y :: b' => (x <? y) || ((x =? y) && str_leb a' b')
  end.

Section sorting.
Context {A : Type} (leb : A -> A -> bool).

Fixpoint sort_insert (x : A) (l : list A) : list A :=
  match l with
  | [] => [x]
  | y :: l' => if leb x y then x :: l else y :: sort_insert x l'
  end.
Fixpoint stable_sort (l : list A) : list A :=
  match l with
  | [] => []
  | x :: l' => sort_insert x (stable_sort l')
  end.
End sorting.

(** A [BTreeMap] with string keys as its ordered list of entries: the entry that
    was replaced, and the map after [insert]. *)
Fixpoint btree_insert {V} (key : str) (v : V) (m : list (str * V)) : option V * list (str * V) :=
  match m with
  | [] => (None, [(key, v)])
  | (k, old) :: m' =>
      if beq k key then (Some old, (key, v) :: m')
      else if str_leb key k then (None, (key, v) :: m)
      else let (previous, rest) := btree_insert key v m' in (previous, (k, old) :: rest)
  end.

(** ** Device heads *)

Record RemoteHeads := Heads {
  compatibility : option RemoteSyncPointer;
  selected : option RemoteSyncPointer;
  concurrent : bool;
  heads : list RemoteSyncPointer
}.

Definition dominates (new old : RemoteSyncPointer) : bool :=
  match sync_clock new, sync_clock old with
  | Some new, Some old => strictly_dominates new old
  | Some new, None => bool_decide (legacy_revision new = Some (revision_id old))
  | _, _ => false
  end.

(** The heads that no head of the list supersedes. *)
Definition maximal_of (hs : list RemoteSyncPointer) : list RemoteSyncPointer :=
  List.filter (fun head => negb (existsb (fun other => dominates other head) hs)) hs.

Definition maximal (self : RemoteHeads) : list RemoteSyncPointer := maximal_of (heads self).

Definition observed_revisions (self : RemoteHeads) : list str :=
  stable_sort str_leb (map revision_id (maximal self)).

Definition conflict_preview (options : LocalCloudSyncOptions) (provider local_hash : str)
    (remote : RemoteSyncPointer) : prog CloudConflictPreview :=
  let~ now := current_time_ms in
  Ret {| branches := []; preview_revisions := []; local_content_hash := None; detected_at_ms := now;
         preview_provider := provider; conflict_kind := ContentConflict; local_payload_hash := local_hash;
         remote_payload_hash := payload_hash remote; remote_revision := revision_id remote;
         remote_created_at_ms := created_at_ms remote; remote_device_id := device_id remote;
         recovery_revision := None; recovery_payload_hash := None; recovery_created_at_ms := None;
         overwrite_blocked := false;
         preview_message := bs "Both local and cloud state changed since last sync (" ++ remote_dir options ++ bs ")" |}.

Definition set_message (text : str) (p : CloudConflictPreview) : CloudConflictPreview :=
  Preview (branches p) (preview_revisions p) (local_content_hash p) (detected_at_ms p) (preview_provider p)
    (conflict_kind p) (local_payload_hash p) (remote_payload_hash p) (remote_revision p) (remote_created_at_ms p)
    (remote_device_id p) (recovery_revision p) (recovery_payload_hash p) (recovery_created_at_ms p)
    (overwrite_blocked p) text.

Definition require_single (self : RemoteHeads) (options : LocalCloudSyncOptions) (provider local_hash : str) : M unit :=
  if concurrent self then
    match selected self with
    | None => Panic
    | Some pointer =>
        let~ preview := conflict_preview options provider local_hash pointer in
        fail (Conflict (set_message (bs "Multiple devices published concurrent snapshots. Both branches are retained; explicitly choose local or cloud to resolve them.") preview))
    end
  else ok tt.

Definition checked_add (mx x y : Z) : option Z := if x + y <=? mx then Some (x + y) else None.

Definition validate_clock (clock : SnapshotSyncClock) : res unit :=
  let cs := map_to_list (counters clock) in
  if (len cs =? 0) || (MAX_DEVICES <? len cs)
     || existsb (fun e => (len (fst e) =? 0) || (256 <? len (fst e)) || (snd e =? 0)) cs
  then Err (Remote (bs "invalid cloud sync causal clock"))
  else Ok tt.

(** The clocks merged into [previous] or the empty clock. *)
Definition merged_clock (self : RemoteHeads) (previous : option SnapshotSyncClock) : SnapshotSyncClock :=
  let clock := fold_left (fun clock head => match sync_clock head with Some other => merge clock other | None => clock end)
                 (heads self) (default default_clock previous) in
  match compatibility self with
  | Some legacy =>
      match sync_clock legacy with
      | None => Clock (counters clock) (Some (revision_id legacy))
      | Some _ => clock
      end
  | None => clock
  end.

Definition next_clock (self : RemoteHeads) (previous : option SnapshotSyncClock) (device : str) : res SnapshotSyncClock :=
  let clock := merged_clock self previous in
  let? next := ok_or (checked_add U64_MAX (count_of clock device) 1)
                 (Remote (bs "cloud sync device counter exhausted")) in
  let clock := Clock (<[device := next]> (counters clock)) (legacy_revision clock) in
  let? _ := validate_clock clock in
  Ok clock.

Section heads.
Context `{L : SyncLib}.

Definition device_head_path (root device : str) : str :=
  remote_path root (HEADS_DIR ++ sha256_hex device ++ bs ".json").
Definition pending_head_path (root device : str) : str :=
  remote_path root (HEADS_DIR ++ sha256_hex device ++ bs ".pending.json").

Definition decode_record (bytes : list Z) : res DeviceHead :=
  if MAX_HEAD_BYTES <? len bytes then Err (Remote (bs "cloud sync device head is too large"))
  else
    let? record := map_err JsonError (head_from_slice bytes) in
    match committed record with
    | None => Ok record
    | Some head =>
        if negb (beq (device_id head) (head_device record))
        then Err (Remote (bs "cloud sync device identity mismatch"))
        else
          let? clock := ok_or (sync_clock head) (Remote (bs "cloud sync device head has no causal clock")) in
          let? _ := validate_clock clock in
          Ok record
    end.

Definition expected_head_path (root : str) (record : DeviceHead) : str :=
  match committed record, pending_revision record with
  | None, Some _ => pending_head_path root (head_device record)
  | _, _ => device_head_path root (head_device record)
  end.

Definition read_record (remote : CloudSyncRemote) (root path : str) (records : list DeviceHead) : M (list DeviceHead) :=
  if negb (starts_with (remote_path root HEADS_DIR) path) || negb (ends_with (bs ".json") path) then ok records
  else
    let! read := read_if_exists remote path in
    match read with
    | None => ok records
    | Some bytes =>
        let! record := lift (decode_record bytes) in
        if negb (beq path (expected_head_path root record))
        then fail (Remote (bs "cloud sync device head path does not match its device"))
        else ok (records ++ [record])
    end.

Definition read_records (remote : CloudSyncRemote) (root : str) : M (list DeviceHead) :=
  let! paths := list_files remote (remote_path root HEADS_DIR) in
  if MAX_DEVICES * 2 <? len paths then fail (Remote (bs "too many cloud sync device heads"))
  else for_each paths [] (read_record remote root).

Definition read_device_heads (remote : CloudSyncRemote) (root : str) : M (list RemoteSyncPointer) :=
  let! records := read_records remote root in
  ok (omap committed records).

Definition protected_revisions (remote : CloudSyncRemote) (root : str) : M (gset str) :=
  let! records := read_records remote root in
  ok (list_to_set (flat_map (fun record =>
        option_list (revision_id <$> committed record) ++ option_list (pending_revision record)) records)).

Definition load_sync_pointer_from_remote (local_store : CloudLocalStore) (remote : CloudSyncRemote) (root : str) :
    M (option RemoteSyncPointer) :=
  let! read := read_if_exists remote (remote_path root SYNC_LATEST_FILE) in
  match read with
  | None => ok None
  | Some bytes => let! pointer := decode_sync_pointer local_store bytes in ok (Some pointer)
  end.

(** The attempts that remain to read the record back.  Waiting between attempts
    has no effect on the state. *)
Fixpoint verify_record (remote : CloudSyncRemote) (path : str) (bytes : list Z) (attempts : nat) : M unit :=
  match attempts with
  | O => fail (Remote (bs "cloud sync device commit could not be verified"))
  | S attempts' =>
      let! read := read_if_exists remote path in
      if bool_decide (read = Some bytes) then ok tt else verify_record remote path bytes attempts'
  end.

Definition write_record (remote : CloudSyncRemote) (path : str) (record : DeviceHead) : M unit :=
  let! bytes := lift (map_err JsonError (head_to_vec record)) in
  if MAX_HEAD_BYTES <? len bytes then fail (Remote (bs "cloud sync device head is too large"))
  else
    let! _ := write remote path bytes in
    verify_record remote path bytes READBACK_VERIFY_ATTEMPTS.

Definition stage (remote : CloudSyncRemote) (root device revision : str) : M unit :=
  write_record remote (pending_head_path root device) (Head device None (Some revision)).

Definition publish (remote : CloudSyncRemote) (root : str) (head : RemoteSyncPointer) : M unit :=
  let! _ := write_record remote (device_head_path root (device_id head)) (Head (device_id head) (Some head) None) in
  let~ _ := delete remote (pending_head_path root (device_id head)) in
  ok tt.

(** One entry per revision; two heads that disagree about a revision are refused. *)
Fixpoint unique_heads (hs : list RemoteSyncPointer) (unique : list (str * RemoteSyncPointer)) :
    res (list (str * RemoteSyncPointer)) :=
  match hs with
  | [] => Ok unique
  | head :: hs' =>
      let (previous, unique') := btree_insert (revision_id head) head unique in
      match previous with
      | Some old => if bool_decide (old = head) then unique_heads hs' unique'
                    else Err (Remote (bs "conflicting metadata for the same cloud revision"))
      | None => unique_heads hs' unique'
      end
  end.

(** The head that [read] selects among the maximal ones. *)
Definition select_head (compatibility : option RemoteSyncPointer) (maximal : list RemoteSyncPointer) :
    option RemoteSyncPointer :=
  match (match compatibility with
         | Some latest => List.find (fun head => beq (revision_id head) (revision_id latest)) maximal
         | None => None
         end) with
  | Some head => Some head
  | None => last maximal
  end.

Definition read (local_store : CloudLocalStore) (remote : CloudSyncRemote) (root : str) : M RemoteHeads :=
  let! compatibility := load_sync_pointer_from_remote local_store remote root in
  let! device_heads := read_device_heads remote root in
  let! unique := lift (unique_heads (device_heads ++ option_list compatibility) []) in
  let hs := map snd unique in
  let maximal := maximal_of hs in
  ok (Heads compatibility (select_head compatibility maximal) (1 <? len maximal) hs).

End heads.
