(* ===== verification/SyncHeadsSpec.v ===== *)
(** Causal order of clocks and heads: domination is a strict order, the maximal
    heads are the branches that are not superseded, and the clock of the next
    commit supersedes every head that was read.  Then what reading the heads
    promises its callers, and that the kinds of remote files have different
    paths. *)
From stdpp Require Import base list numbers strings gmap.
From Stdlib Require Import ZArith Lia.
From S2P Require Import Prelude Text SyncTypes SyncEffects SyncLogic SyncHeads.

(** ** Clocks *)

(** The counters are [u64]s. *)
Definition clock_ok (c : SnapshotSyncClock) : Prop := map_Forall (fun _ n => 0 <= n <= U64_MAX) (counters c).
#[global] Instance clock_ok_dec c : Decision (clock_ok c).
Proof. unfold clock_ok. apply _. Defined.

Definition clock_le (a b : SnapshotSyncClock) : Prop := forall d, count_of a d <= count_of b d.

Lemma count_nonneg c d : clock_ok c -> 0 <= count_of c d <= U64_MAX.
Proof.
  intros Hc. unfold count_of. destruct (counters c !! d) as [n |] eqn:E; cbn; [| lia].
  by apply (Hc d n).
Qed.

Lemma strictly_dominates_spec a b : clock_ok a -> clock_ok b ->
  strictly_dominates a b = true <-> clock_le b a /\ exists d, count_of b d < count_of a d.
Proof.
  intros Ha Hb. unfold strictly_dominates. rewrite andb_true_iff, forallb_forall, existsb_exists. split.
  - intros [H1 ((d & n) & Hin & Hlt)]. apply list_elem_of_In, elem_of_map_to_list in Hin. split.
    + intros d'. unfold count_of at 1. destruct (counters b !! d') as [m |] eqn:E; cbn.
      * apply elem_of_map_to_list, list_elem_of_In in E. apply H1 in E. cbn in E. lia.
      * by apply count_nonneg.
    + exists d. cbn in Hlt. unfold count_of at 2. rewrite Hin. cbn. lia.
  - intros [Hle (d & Hd)]. split.
    + intros (d' & m) Hin. apply list_elem_of_In, elem_of_map_to_list in Hin. specialize (Hle d').
      unfold count_of at 1 in Hle. rewrite Hin in Hle. cbn in *. lia.
    + destruct (counters a !! d) as [n |] eqn:E.
      * exists (d, n). split; [by apply list_elem_of_In, elem_of_map_to_list |].
        cbn. unfold count_of at 2 in Hd. rewrite E in Hd. cbn in Hd. lia.
      * pose proof (count_nonneg b d Hb). unfold count_of at 2 in Hd. rewrite E in Hd. cbn in Hd. lia.
Qed.

Lemma strictly_dominates_irrefl a : strictly_dominates a a = false.
Proof.
  apply not_true_is_false. unfold strictly_dominates. rewrite andb_true_iff, existsb_exists.
  intros [_ ((d & n) & Hin & Hlt)]. apply list_elem_of_In, elem_of_map_to_list in Hin.
  cbn in Hlt. unfold count_of in Hlt. rewrite Hin in Hlt. cbn in Hlt. lia.
Qed.

Lemma strictly_dominates_trans a b c : clock_ok a -> clock_ok b -> clock_ok c ->
  strictly_dominates a b = true -> strictly_dominates b c = true -> strictly_dominates a c = true.
Proof.
  intros Ha Hb Hc. rewrite !strictly_dominates_spec by done.
  intros [H1 (d & H2)] [H3 _]. split; [intros e; specialize (H1 e); specialize (H3 e); lia |].
  exists d. specialize (H3 d). lia.
Qed.

Lemma strictly_dominates_asym a b : clock_ok a -> clock_ok b ->
  strictly_dominates a b = true -> strictly_dominates b a = false.
Proof.
  intros Ha Hb Hab. apply not_true_is_false. intros Hba.
  pose proof (strictly_dominates_trans a b a Ha Hb Ha Hab Hba) as H. by rewrite strictly_dominates_irrefl in H.
Qed.

Lemma merge_count a b d : clock_ok a -> clock_ok b -> count_of (merge a b) d = Z.max (count_of a d) (count_of b d).
Proof.
  intros Ha Hb. pose proof (count_nonneg a d Ha) as H1. pose proof (count_nonneg b d Hb) as H2.
  unfold count_of, merge in *. cbn [counters]. rewrite lookup_union_with.
  destruct (counters a !! d) as [x |], (counters b !! d) as [y |]; cbn in *; lia.
Qed.

Lemma merge_ok a b : clock_ok a -> clock_ok b -> clock_ok (merge a b).
Proof.
  intros Ha Hb d n Hd. unfold merge in Hd. cbn [counters] in Hd. rewrite lookup_union_with in Hd.
  destruct (counters a !! d) as [x |] eqn:Ex, (counters b !! d) as [y |] eqn:Ey; cbn in Hd; try done;
    injection Hd as <-; try pose proof (Ha d _ Ex); try pose proof (Hb d _ Ey); cbn in *; lia.
Qed.

(** ** Maximal heads *)

Definition pointer_ok (p : RemoteSyncPointer) : Prop :=
  match sync_clock p with Some c => clock_ok c | None => True end.
#[global] Instance pointer_ok_dec p : Decision (pointer_ok p).
Proof. unfold pointer_ok. destruct (sync_clock p); apply _. Defined.

Lemma dominates_irrefl p : dominates p p = false.
Proof. unfold dominates. destruct (sync_clock p); [apply strictly_dominates_irrefl | done]. Qed.

Lemma dominates_trans a b c : pointer_ok a -> pointer_ok b -> pointer_ok c -> is_Some (sync_clock c) ->
  dominates a b = true -> dominates b c = true -> dominates a c = true.
Proof.
  unfold dominates, pointer_ok. intros Ha Hb Hc [cc Ec]. rewrite Ec in *.
  destruct (sync_clock a) as [ca |], (sync_clock b) as [cb |]; try done.
  by apply strictly_dominates_trans.
Qed.

Lemma dominates_asym a b : pointer_ok a -> pointer_ok b -> is_Some (sync_clock a) ->
  dominates a b = true -> dominates b a = false.
Proof.
  intros Ha Hb [c Ec] Hd. unfold dominates, pointer_ok in *. rewrite Ec in *. destruct (sync_clock b); [| done].
  by apply strictly_dominates_asym.
Qed.

Lemma elem_of_maximal p hs :
  p ∈ maximal_of hs <-> p ∈ hs /\ forall q, q ∈ hs -> dominates q p = false.
Proof.
  unfold maximal_of. rewrite !list_elem_of_In, filter_In, negb_true_iff. split.
  - intros [Hin He]. split; [done |]. intros q Hq. apply not_true_is_false. intros Hd.
    apply not_true_iff_false in He. apply He. apply existsb_exists. exists q.
    by rewrite <- list_elem_of_In.
  - intros [Hin Hall]. split; [done |]. apply not_true_is_false. rewrite existsb_exists.
    intros (q & Hq & Hd). rewrite Hall in Hd; [done |]. by apply list_elem_of_In.
Qed.

Lemma maximal_dominated p hs : pointer_ok p -> is_Some (sync_clock p) -> Forall pointer_ok hs ->
  (forall q, q ∈ hs -> dominates p q = true) -> maximal_of (p :: hs) = [p].
Proof.
  intros Hp [c Ec] Hok Hd. rewrite Forall_forall in Hok. unfold maximal_of. cbn [List.filter].
  assert (existsb (fun q => dominates q p) (p :: hs) = false) as ->.
  { apply not_true_is_false. rewrite existsb_exists. intros (q & [<- | Hq] & Hq2); [by rewrite dominates_irrefl in Hq2 |].
    apply list_elem_of_In in Hq. rewrite (dominates_asym p q) in Hq2; [done | done | by apply Hok | by eexists | by apply Hd]. }
  cbn [negb]. f_equal. destruct (List.filter _ hs) as [| q r] eqn:E; [done |].
  assert (Hq : In q (q :: r)) by by left. rewrite <- E, filter_In in Hq. destruct Hq as [Hin Hn].
  apply list_elem_of_In in Hin. cbn [existsb] in Hn. by rewrite Hd in Hn.
Qed.

Lemma filter_length_lt {A} (f g : A -> bool) l x :
  (forall y, In y l -> f y = true -> g y = true) -> In x l -> f x = false -> g x = true ->
  (length (List.filter f l) < length (List.filter g l))%nat.
Proof.
  intros Hfg Hx Hf Hg. induction l as [| y l IH]; [done |]. cbn [List.filter].
  assert (Hle : (length (List.filter f l) <= length (List.filter g l))%nat).
  { clear - Hfg. induction l as [| z l IH]; [done |]. cbn [List.filter].
    assert (IH' := IH (fun w Hw => Hfg w (match Hw with or_introl e => or_introl e | or_intror h => or_intror (or_intror h) end))).
    destruct (f z) eqn:E; [rewrite (Hfg z) by (cbn; auto) |]; cbn [length]; [| destruct (g z); cbn [length]]; lia. }
  destruct Hx as [-> | Hx].
  - rewrite Hf, Hg. cbn [length]. lia.
  - specialize (IH (fun w Hw => Hfg w (or_intror Hw)) Hx).
    destruct (f y) eqn:E; [rewrite (Hfg y) by (cbn; auto) |]; cbn [length]; [| destruct (g y); cbn [length]]; lia.
Qed.

(** Domination has no infinite ascent in a list: every head that has a clock and is
    not maximal itself is superseded by a maximal one. *)
Lemma maximal_above hs p : Forall pointer_ok hs -> p ∈ hs -> is_Some (sync_clock p) ->
  p ∈ maximal_of hs \/ exists m, m ∈ maximal_of hs /\ dominates m p = true.
Proof.
  intros Hok Hp Hc. rewrite Forall_forall in Hok.
  pose (above := fun q => List.filter (fun r => dominates r q) hs).
  assert (IH : forall n q, (length (above q) <= n)%nat -> q ∈ hs -> is_Some (sync_clock q) ->
    q ∈ maximal_of hs \/ exists m, m ∈ maximal_of hs /\ dominates m q = true); [| by apply (IH (length (above p)))].
  induction n as [| n IH]; intros q Hn Hq Hcq.
  - left. apply elem_of_maximal. split; [done |]. intros r Hr. apply not_true_is_false. intros Hd.
    assert (Hin : In r (above q)) by (apply filter_In; by rewrite <- list_elem_of_In).
    destruct (above q); [done | cbn in Hn; lia].
  - destruct (List.find (fun r => dominates r q) hs) as [r |] eqn:E.
    + apply find_some in E as [Hr Hd]. apply list_elem_of_In in Hr.
      assert (Hcr : is_Some (sync_clock r)) by (unfold dominates in Hd; destruct (sync_clock r); [by eexists | done]).
      assert (Hlt : (length (above r) < length (above q))%nat).
      { apply (filter_length_lt _ _ _ r); [| by apply list_elem_of_In | apply dominates_irrefl | done].
        intros x Hx Hxr. apply list_elem_of_In in Hx. apply (dominates_trans x r q); try done; by apply Hok. }
      destruct (IH r ltac:(lia) Hr Hcr) as [Hm | (m & Hm & Hmr)]; right; [by exists r |].
      exists m. split; [done |]. apply (dominates_trans m r q); try done; apply Hok; try done.
      by apply elem_of_maximal in Hm as [? _].
    + left. apply elem_of_maximal. split; [done |]. intros r Hr.
      by apply (find_none _ _ E), list_elem_of_In.
Qed.

(** ** The next clock *)

(** What [read] establishes: only the pointer of older versions has no clock... *)
Record heads_shape (H : RemoteHeads) : Prop := {
  shape_legacy p : p ∈ heads H -> sync_clock p = None -> compatibility H = Some p;
  shape_compat p : compatibility H = Some p -> p ∈ heads H
}.

(** ... and the selection is among the maximal heads. *)
Record heads_choice (H : RemoteHeads) : Prop := {
  shape_selected : selected H = select_head (compatibility H) (maximal H);
  shape_concurrent : concurrent H = (1 <? len (maximal H))
}.

Definition merge_head (clock : SnapshotSyncClock) (head : RemoteSyncPointer) : SnapshotSyncClock :=
  match sync_clock head with Some other => merge clock other | None => clock end.

Lemma fold_merge hs clock : clock_ok clock -> Forall pointer_ok hs ->
  let c := fold_left merge_head hs clock in
  clock_ok c /\ clock_le clock c /\ Forall (fun p => match sync_clock p with Some o => clock_le o c | None => True end) hs.
Proof.
  revert clock. induction hs as [| p hs IH]; intros clock Hc Hhs; cbn [fold_left].
  - split_and!; [done | intros d; lia | done].
  - apply Forall_cons in Hhs as [Hp Hhs].
    assert (Hm : clock_ok (merge_head clock p) /\ clock_le clock (merge_head clock p) /\
                 match sync_clock p with Some o => clock_le o (merge_head clock p) | None => True end).
    { unfold merge_head, pointer_ok in *. destruct (sync_clock p) as [o |]; [| by split_and!; try done; intros d; lia].
      split_and!; [by apply merge_ok | intros d; rewrite merge_count by done; lia ..]. }
    destruct Hm as (Hm1 & Hm2 & Hm3). destruct (IH (merge_head clock p) Hm1 Hhs) as (H1 & H2 & H3).
    split_and!; [done | intros d; specialize (Hm2 d); specialize (H2 d); lia |].
    constructor; [| done]. destruct (sync_clock p); [| done]. intros d. specialize (Hm3 d). specialize (H2 d). lia.
Qed.

Lemma merged_counters H previous :
  counters (merged_clock H previous) = counters (fold_left merge_head (heads H) (default default_clock previous)).
Proof.
  unfold merged_clock. fold merge_head. destruct (compatibility H) as [p |]; [| done]. by destruct (sync_clock p).
Qed.

Lemma default_clock_ok : clock_ok default_clock.
Proof. by apply map_Forall_empty. Qed.

(** The next clock counts one more commit of the device and is above everything. *)
Lemma next_clock_above H previous device c :
  Forall pointer_ok (heads H) -> match previous with Some p => clock_ok p | None => True end ->
  next_clock H previous device = Ok c ->
  clock_ok c /\ validate_clock c = Ok tt /\ legacy_revision c = legacy_revision (merged_clock H previous) /\
  (forall o, o ∈ option_list previous ++ omap sync_clock (heads H) -> strictly_dominates c o = true).
Proof.
  intros Hok Hprev. unfold next_clock, checked_add.
  destruct (Z.leb_spec (count_of (merged_clock H previous) device + 1) U64_MAX) as [Hle |]; [| done].
  cbn [ok_or result_bind]. destruct (validate_clock _) as [[] |] eqn:V; [| done]. cbn [result_bind].
  intros [= <-]. set (m := merged_clock H previous) in *.
  assert (Hd : clock_ok (default default_clock previous)) by (destruct previous; [done | apply default_clock_ok]).
  destruct (fold_merge (heads H) _ Hd Hok) as (F1 & F2 & F3).
  assert (Em : forall d, count_of m d = count_of (fold_left merge_head (heads H) (default default_clock previous)) d)
    by (intros d; unfold count_of, m; by rewrite merged_counters).
  assert (Hc : clock_ok (Clock (<[device:=count_of m device + 1]> (counters m)) (legacy_revision m))).
  { unfold clock_ok in *. cbn [counters]. apply map_Forall_insert_2.
    - rewrite Em in *. pose proof (count_nonneg _ device F1). lia.
    - unfold m. by rewrite merged_counters. }
  split_and!; [done | done | done |]. intros o Ho.
  assert (Hlo : clock_ok o /\ clock_le o m).
  { apply elem_of_app in Ho as [Ho | Ho].
    - destruct previous as [p |]; [| by apply elem_of_nil in Ho]. apply list_elem_of_singleton in Ho as ->.
      split; [done |]. intros d. rewrite Em. apply F2.
    - apply list_elem_of_omap in Ho as (p & Hp & E). rewrite Forall_forall in Hok, F3.
      specialize (Hok p Hp). specialize (F3 p Hp). unfold pointer_ok in Hok. rewrite E in *.
      split; [done |]. intros d. rewrite Em. apply F3. }
  destruct Hlo as [Hoo Hol]. apply strictly_dominates_spec; [done | done |]. split.
  - intros d. specialize (Hol d). destruct (decide (d = device)) as [-> | Hne].
    + unfold count_of at 2. cbn [counters]. rewrite lookup_insert_eq. cbn. lia.
    + unfold count_of at 2. cbn [counters]. by rewrite lookup_insert_ne by done.
  - exists device. specialize (Hol device). unfold count_of at 2. cbn [counters]. rewrite lookup_insert_eq. cbn. lia.
Qed.

(** A pointer with the next clock supersedes every head that was read. *)
Lemma next_clock_dominates H previous device c p :
  heads_shape H -> Forall pointer_ok (heads H) -> match previous with Some p => clock_ok p | None => True end ->
  next_clock H previous device = Ok c -> sync_clock p = Some c ->
  forall q, q ∈ heads H -> dominates p q = true.
Proof.
  intros HS Hok Hprev Hn Hp q Hq. destruct (next_clock_above _ _ _ _ Hok Hprev Hn) as (_ & _ & Hleg & Hdom).
  unfold dominates. rewrite Hp. destruct (sync_clock q) as [o |] eqn:E.
  - apply Hdom, elem_of_app. right. apply list_elem_of_omap. by exists q.
  - apply bool_decide_eq_true. rewrite Hleg. unfold merged_clock.
    by rewrite (shape_legacy _ HS q Hq E), E.
Qed.

(** ** Selection *)

Lemma select_head_in c ms p : select_head c ms = Some p -> p ∈ ms.
Proof.
  unfold select_head. destruct c as [latest |].
  - destruct (List.find _ ms) as [q |] eqn:E.
    + intros [= <-]. apply find_some in E as [H _]. by apply list_elem_of_In.
    + by apply last_Some_elem_of.
  - by apply last_Some_elem_of.
Qed.

Lemma select_head_none c ms : select_head c ms = None -> ms = [].
Proof.
  unfold select_head. destruct c as [latest |]; [destruct (List.find _ ms); [done |] |]; by intros H%last_None.
Qed.

Lemma selected_single H p : heads_choice H -> concurrent H = false -> selected H = Some p -> maximal H = [p].
Proof.
  intros HS Hc Hp. rewrite (shape_concurrent _ HS) in Hc. rewrite (shape_selected _ HS) in Hp.
  apply select_head_in in Hp. destruct (maximal H) as [| q [| r l]]; [by apply elem_of_nil in Hp | |].
  - by apply list_elem_of_singleton in Hp as ->.
  - apply Z.ltb_ge in Hc. cbn [length] in Hc. lia.
Qed.

Lemma selected_some H : heads_choice H -> concurrent H = true -> is_Some (selected H).
Proof.
  intros HS Hc. rewrite (shape_selected _ HS). destruct (select_head _ _) eqn:E; [by eexists |].
  apply select_head_none in E. rewrite (shape_concurrent _ HS), E in Hc. done.
Qed.

(** A single selected head has seen every other head that has a clock. *)
Lemma selected_above H p q : heads_choice H -> Forall pointer_ok (heads H) -> concurrent H = false ->
  selected H = Some p -> q ∈ heads H -> is_Some (sync_clock q) -> q = p \/ dominates p q = true.
Proof.
  intros HS Hok Hc Hp Hq Hs. pose proof (selected_single H p HS Hc Hp) as Hm. unfold maximal in Hm.
  destruct (maximal_above _ q Hok Hq Hs) as [Hin | (m & Hin & Hd)]; rewrite Hm in Hin;
    apply list_elem_of_singleton in Hin as ->; auto.
Qed.

Lemma btree_insert_elem {V} key (v : V) m x :
  let '(previous, m') := btree_insert key v m in
  (x ∈ map snd m' -> x = v \/ x ∈ map snd m) /\
  (x = v -> x ∈ map snd m') /\ (x ∈ map snd m -> x ∈ map snd m' \/ previous = Some x).
Proof.
  induction m as [| [k old] m IH]; cbn [btree_insert].
  - cbn. rewrite list_elem_of_singleton, elem_of_nil. tauto.
  - destruct (beq k key); [| destruct (str_leb key k)].
    + cbn [map snd]. rewrite !elem_of_cons. split_and!; [tauto | auto |]. intros [-> |]; auto.
    + cbn [map snd]. rewrite !elem_of_cons. tauto.
    + destruct (btree_insert key v m) as [previous rest]. cbn [map snd]. rewrite !elem_of_cons. tauto.
Qed.

Lemma unique_heads_elem hs u u' x : unique_heads hs u = Ok u' ->
  x ∈ map snd u' <-> x ∈ hs \/ x ∈ map snd u.
Proof.
  revert u. induction hs as [| p hs IH]; intros u; cbn [unique_heads].
  - intros [= <-]. rewrite elem_of_nil. tauto.
  - pose proof (btree_insert_elem (revision_id p) p u x) as Hb.
    destruct (btree_insert (revision_id p) p u) as [previous u1]. destruct Hb as (H1 & H2 & H3).
    assert (Hgo : (previous = Some x -> x = p) -> unique_heads hs u1 = Ok u' ->
                  x ∈ map snd u' <-> x ∈ p :: hs \/ x ∈ map snd u).
    { intros Hp Hu. rewrite (IH u1 Hu), elem_of_cons. tauto. }
    destruct previous as [old |]; [| by apply Hgo].
    case_bool_decide as E; [| done]. apply Hgo. by intros [= <-].
Qed.

(** ** Paths *)

Definition path_prefix (root : str) : str :=
  match trim_slashes (trim root) with [] => [] | r => r ++ [47] end.

Lemma remote_path_child root a mid z :
  word_byte a -> a <> 47 -> word_byte z -> remote_path root (a :: mid ++ [z]) = path_prefix root ++ a :: mid ++ [z].
Proof.
  intros Ha Hs Hz. unfold remote_path, path_prefix.
  assert (Ht : trim (a :: mid ++ [z]) = a :: mid ++ [z]).
  { assert (E : chars (a :: mid ++ [z]) = [a] :: chars mid ++ [[z]]).
    { unfold word_byte in *. rewrite chars_cons_ascii by lia. by rewrite (chars_app_ascii mid z []) by lia. }
    apply trim_keep; rewrite E.
    - exists [a], (chars mid ++ [[z]]). split; [done | by apply whitespace_word].
    - exists [z], (rev ([a] :: chars mid)). split; [by rewrite app_comm_cons, rev_app_distr | by apply whitespace_word]. }
  rewrite Ht. cbn [drop_byte]. destruct (Z.eqb_spec a 47); [done |].
  destruct (trim_slashes (trim root)) as [| x r]; [done |]. by rewrite <- app_assoc.
Qed.

Lemma remote_path_between root a p m s z :
  word_byte a -> a <> 47 -> word_byte z ->
  remote_path root ((a :: p) ++ m ++ s ++ [z]) = path_prefix root ++ (a :: p) ++ m ++ s ++ [z].
Proof.
  intros Ha Hs Hz. pose proof (remote_path_child root a (p ++ m ++ s) z Ha Hs Hz) as H.
  by rewrite <- !app_assoc in H.
Qed.

Lemma not_in_app_inj (x : Z) l1 l2 r1 r2 :
  x ∉ l1 -> x ∉ l2 -> l1 ++ x :: r1 = l2 ++ x :: r2 -> l1 = l2 /\ r1 = r2.
Proof.
  revert l2. induction l1 as [| y l1 IH]; intros [| z l2] H1 H2; cbn [app]; rewrite ?elem_of_cons in *.
  - intros [= ->]. done.
  - intros [= -> _]. tauto.
  - intros [= <- _]. tauto.
  - intros [= -> E]. destruct (IH l2) as [-> ->]; tauto.
Qed.

Lemma hex_no_dot l : 46 ∉ hex_encode l.
Proof.
  assert (Hd : forall n, nth n HEX 0 <> 46).
  { intros n H. destruct (nth_in_or_default n HEX 0) as [Hi | Hi]; rewrite H in Hi; [| done].
    cbn in Hi. by repeat destruct Hi as [Hi | Hi]. }
  unfold hex_encode. induction l as [| b l IH]; [apply not_elem_of_nil |]. cbn [flat_map app].
  rewrite !elem_of_cons. intros [E | [E | E]]; [by eapply Hd | by eapply Hd | done].
Qed.

Section paths.
Context `{L : SyncLib} (root : str).

Definition is_head_path (p : str) : Prop := exists d, p = device_head_path root d.

Ltac solve_bytes := first [done | unfold word_byte; lia].

Lemma device_head_path_eq d :
  device_head_path root d = path_prefix root ++ bs "sync/heads/" ++ sha256_hex d ++ bs ".json".
Proof.
  exact (remote_path_between root 115 (bs "ync/heads/") (sha256_hex d) (bs ".jso") 110
    ltac:(solve_bytes) ltac:(solve_bytes) ltac:(solve_bytes)).
Qed.

Lemma pending_head_path_eq d :
  pending_head_path root d = path_prefix root ++ bs "sync/heads/" ++ sha256_hex d ++ bs ".pending.json".
Proof.
  exact (remote_path_between root 115 (bs "ync/heads/") (sha256_hex d) (bs ".pending.jso") 110
    ltac:(solve_bytes) ltac:(solve_bytes) ltac:(solve_bytes)).
Qed.

Lemma snapshot_file_path_eq r :
  remote_path root (legacy_sync_snapshot_file r) = path_prefix root ++ bs "sync/snapshots/" ++ r ++ bs ".redb.enc".
Proof.
  exact (remote_path_between root 115 (bs "ync/snapshots/") r (bs ".redb.en") 99
    ltac:(solve_bytes) ltac:(solve_bytes) ltac:(solve_bytes)).
Qed.

Lemma latest_path_eq : remote_path root SYNC_LATEST_FILE = path_prefix root ++ bs "sync/latest.redb".
Proof.
  exact (remote_path_between root 115 (bs "ync/latest") [] (bs ".red") 98
    ltac:(solve_bytes) ltac:(solve_bytes) ltac:(solve_bytes)).
Qed.

Lemma current_path_eq : remote_path root SYNC_CURRENT_FILE = path_prefix root ++ bs "sync/current.redb.enc".
Proof.
  exact (remote_path_between root 115 (bs "ync/current") [] (bs ".redb.en") 99
    ltac:(solve_bytes) ltac:(solve_bytes) ltac:(solve_bytes)).
Qed.

(** Only publishing writes a device head. *)
Lemma pending_not_head d : ~ is_head_path (pending_head_path root d).
Proof.
  intros [d' E]. rewrite pending_head_path_eq, device_head_path_eq in E. apply app_inv_head in E.
  apply (app_inv_head (bs "sync/heads/")) in E.
  apply (not_in_app_inj 46 (sha256_hex d) (sha256_hex d') (bs "pending.json") (bs "json")) in E as [_ E];
    [done | apply hex_no_dot..].
Qed.

Lemma snapshot_not_head r : ~ is_head_path (remote_path root (legacy_sync_snapshot_file r)).
Proof.
  intros [d E]. rewrite snapshot_file_path_eq, device_head_path_eq in E. by apply app_inv_head in E.
Qed.

Lemma latest_not_head : ~ is_head_path (remote_path root SYNC_LATEST_FILE).
Proof. intros [d E]. rewrite latest_path_eq, device_head_path_eq in E. by apply app_inv_head in E. Qed.

Lemma current_not_head : ~ is_head_path (remote_path root SYNC_CURRENT_FILE).
Proof. intros [d E]. rewrite current_path_eq, device_head_path_eq in E. by apply app_inv_head in E. Qed.
End paths.
