(* ===== verification/SyncProtocol.v ===== *)
(** Reading and authenticating remote snapshots (the first half of
    cloud_sync/protocol.rs), and the collection of old snapshots
    (cloud_sync/gc.rs). *)
From stdpp Require Import base list numbers strings gmap.
From Stdlib Require Import ZArith Lia.
From S2P Require Import Prelude Text SyncTypes SyncEffects SyncHeads.

Definition MIN_ENCRYPTED_SNAPSHOT_BYTES : Z := 13.
Definition MAX_ENCRYPTED_SNAPSHOT_BYTES : Z := 64 * 1024 * 1024.

Definition SYNC_SNAPSHOT_KEEP_RECENT : nat := 5.
(** [SYNC_SNAPSHOT_GC_GRACE_PERIOD] in milliseconds. *)
Definition SYNC_SNAPSHOT_GC_GRACE_PERIOD : Z := 24 * 60 * 60 * 1000.

Definition pointer_from_snapshot (snapshot : RawPortableSnapshot) : RemoteSyncPointer :=
  {| pointer_schema := REMOTE_SYNC_POINTER_SCHEMA_VERSION;
     revision_id := meta_revision (meta snapshot);
     created_at_ms := created_at (meta snapshot);
     payload_hash := source_payload_hash snapshot;
     device_id := meta_device (meta snapshot);
     app_version := meta_app_version (meta snapshot);
     sync_clock := meta_clock (meta snapshot) |}.

Definition validate_snapshot_against_pointer (pointer : RemoteSyncPointer) (snapshot : RawPortableSnapshot) : res unit :=
  if negb (beq (meta_revision (meta snapshot)) (revision_id pointer)) then
    Err (RevisionMismatch (revision_id pointer) (meta_revision (meta snapshot)))
  else if negb (bool_decide (sync_clock pointer = meta_clock (meta snapshot))) then
    Err (Remote (bs "snapshot causal clock does not match its head"))
  else if negb (beq (source_payload_hash snapshot) (payload_hash pointer)) then
    Err (HashMismatch (payload_hash pointer) (source_payload_hash snapshot))
  else Ok tt.

Section protocol.
Context `{L : SyncLib}.

Definition snapshot_path (options : LocalCloudSyncOptions) (revision : str) : str :=
  remote_path (remote_root options) (legacy_sync_snapshot_file revision).

Definition describe_payload (path : str) (bytes : list Z) : str :=
  bs "'" ++ path ++ bs "' (" ++ show_u64 (len bytes) ++ bs " bytes, sha256 " ++ sha256_hex bytes ++ bs ")".

Definition validate_remote_snapshot_size (bytes : list Z) (path revision : str) : res unit :=
  if (MIN_ENCRYPTED_SNAPSHOT_BYTES <=? len bytes) && (len bytes <=? MAX_ENCRYPTED_SNAPSHOT_BYTES) then Ok tt
  else Err (CorruptedSnapshot revision
    (describe_payload path bytes ++ bs " is outside the accepted 13..=67108864 byte range")).

Definition decrypt_cause (local_store : CloudLocalStore) (password : str) : prog SnapshotUnreadableCause :=
  let~ verified := verify_master_password local_store password in
  Ret (match verified with
       | Ok (Some true) => PayloadNotAuthentic
       | Ok (Some false) => MasterPasswordMismatch
       | _ => UnknownCause
       end).

(** The error that is reported for one of the decoder. *)
Definition decode_failure {A} (local_store : CloudLocalStore) (bytes : list Z) (password path revision : str)
    (error : CloudSyncError) : M A :=
  match error with
  | PortableSnapshot (Decrypt a b) =>
      let~ cause := decrypt_cause local_store password in
      fail (RemoteSnapshotUnreadable revision path (len bytes) (sha256_hex bytes) cause (Decrypt a b))
  | PortableSnapshot MissingMasterPassword
  | PortableSnapshot (UnsupportedEncryptionVersion _)
  | PortableSnapshot InvalidEncryptionEnvelope
  | PortableSnapshot (UnsupportedVersion _) => fail error
  | _ =>
      fail (CorruptedSnapshot revision (describe_payload path bytes ++ bs " could not be decoded: " ++ show_error error))
  end.

Definition decode_remote_snapshot (local_store : CloudLocalStore) (bytes : list Z) (password path revision : str) :
    M RawPortableSnapshot :=
  let~ decoded := decode_sync_snapshot local_store bytes password in
  match decoded with
  | Ok snapshot => ok snapshot
  | Err error => decode_failure local_store bytes password path revision error
  end.

Definition decode_and_validate_remote_snapshot (local_store : CloudLocalStore) (bytes : list Z)
    (options : LocalCloudSyncOptions) (path : str) (pointer : RemoteSyncPointer) : M RawPortableSnapshot :=
  let! _ := lift (validate_remote_snapshot_size bytes path (revision_id pointer)) in
  let! snapshot := decode_remote_snapshot local_store bytes (master_password options) path (revision_id pointer) in
  let! _ := lift (validate_snapshot_against_pointer pointer snapshot) in
  ok snapshot.

Definition read_snapshot_for_pointer (local_store : CloudLocalStore) (remote : CloudSyncRemote)
    (options : LocalCloudSyncOptions) (pointer : RemoteSyncPointer) : M RawPortableSnapshot :=
  let path := snapshot_path options (revision_id pointer) in
  let! read := read_if_exists remote path in
  match read with
  | None => fail (SnapshotMissing (revision_id pointer))
  | Some bytes => decode_and_validate_remote_snapshot local_store bytes options path pointer
  end.

Definition read_current_sync_snapshot_compat (local_store : CloudLocalStore) (remote : CloudSyncRemote)
    (options : LocalCloudSyncOptions) : M (option RawPortableSnapshot) :=
  let path := remote_path (remote_root options) SYNC_CURRENT_FILE in
  let! read := read_if_exists remote path in
  match read with
  | None => ok None
  | Some bytes =>
      let! _ := lift (validate_remote_snapshot_size bytes path (bs "current")) in
      let! snapshot := decode_remote_snapshot local_store bytes (master_password options) path (bs "current") in
      ok (Some snapshot)
  end.

(** ** Collection of old snapshots *)

Record SnapshotGcEntry := GcEntry {
  gc_path : str;
  gc_revision : str;
  gc_created : Z;
  deletable : bool
}.

Definition strip_suffix (suffix l : str) : option str :=
  @rev Z <$> strip_prefix (rev suffix) (rev l).

(** [path.rsplit('/').next()] is the part after the last slash. *)
Definition snapshot_revision_from_path (path : str) : option str :=
  match strip_suffix (bs ".redb.enc") (after_last (Z.eqb 47) path) with
  | Some [] | None => None
  | Some revision => Some revision
  end.

Definition causally_collectable (snapshot : RawPortableSnapshot) (clocks : list SnapshotSyncClock) : bool :=
  match meta_clock (meta snapshot) with
  | None => true
  | Some candidate => existsb (fun clock => strictly_dominates clock candidate) clocks
  end.

Definition authenticate_head (local_store : CloudLocalStore) (options : LocalCloudSyncOptions)
    (remote : CloudSyncRemote) (head : RemoteSyncPointer) (s : gset str * list SnapshotSyncClock) :
    M (gset str * list SnapshotSyncClock) :=
  let (seen, clocks) := s in
  if is_some (sync_clock head) && negb (bool_decide (revision_id head ∈ seen)) then
    let! snapshot := read_snapshot_for_pointer local_store remote options head in
    ok ({[revision_id head]} ∪ seen,
        match meta_clock (meta snapshot) with Some clock => clocks ++ [clock] | None => clocks end)
  else ok s.

Definition authenticated_commit_clocks (local_store : CloudLocalStore) (options : LocalCloudSyncOptions)
    (remote : CloudSyncRemote) (latest : option RemoteSyncPointer) : M (list SnapshotSyncClock) :=
  let! heads := read_device_heads remote (remote_root options) in
  let! s := for_each (heads ++ option_list latest) (∅, []) (authenticate_head local_store options remote) in
  ok (snd s).

(** [now_ms.saturating_sub(created) > grace] in milliseconds. *)
Definition plan_snapshot_gc (snapshots : list SnapshotGcEntry) (latest_revision : option str) (now_ms : Z)
    (keep_recent : nat) (grace_ms : Z) : list str :=
  let snapshots := stable_sort (fun a b => gc_created a <=? gc_created b) snapshots in
  let protected : gset str :=
    list_to_set (option_list latest_revision ++ map gc_revision (take keep_recent (rev snapshots))) in
  map gc_path (List.filter (fun s => deletable s && negb (bool_decide (gc_revision s ∈ protected))
                                     && (grace_ms <? saturating_sub now_ms (gc_created s))) snapshots).

Definition gc_entry (local_store : CloudLocalStore) (options : LocalCloudSyncOptions) (remote : CloudSyncRemote)
    (clocks : list SnapshotSyncClock) (path revision : str) : prog SnapshotGcEntry :=
  let kept := GcEntry path revision 0 false in
  let~ read := read_if_exists remote path in
  match read with
  | Ok (Some bytes) =>
      let~ decoded := decode_sync_snapshot local_store bytes (master_password options) in
      Ret (match decoded with
           | Ok snapshot =>
               if beq (meta_revision (meta snapshot)) revision then
                 GcEntry path revision (created_at (meta snapshot))
                   (negb (beq (meta_payload_hash (meta snapshot)) []) && causally_collectable snapshot clocks)
               else kept
           | Err _ => kept
           end)
  | _ => Ret kept
  end.

Definition gc_scan (local_store : CloudLocalStore) (options : LocalCloudSyncOptions) (remote : CloudSyncRemote)
    (protected : gset str) (clocks : list SnapshotSyncClock) (path : str) (snapshots : list SnapshotGcEntry) :
    M (list SnapshotGcEntry) :=
  let! _ := checkpoint in
  match snapshot_revision_from_path path with
  | None => ok snapshots
  | Some revision =>
      if bool_decide (revision ∈ protected) then ok snapshots
      else
        let~ entry := gc_entry local_store options remote clocks path revision in
        ok (snapshots ++ [entry])
  end.

(** The references are read again before every deletion. *)
Definition gc_delete (local_store : CloudLocalStore) (options : LocalCloudSyncOptions) (remote : CloudSyncRemote)
    (path : str) (s : gset str * option CloudSyncError) : M (gset str * option CloudSyncError) :=
  let (protected, first_error) := s in
  let! referenced := protected_revisions remote (remote_root options) in
  let! head := load_sync_pointer_from_remote local_store remote (remote_root options) in
  let protected := protected ∪ referenced ∪ list_to_set (option_list (revision_id <$> head)) in
  if match snapshot_revision_from_path path with
     | Some revision => bool_decide (revision ∈ protected)
     | None => false
     end
  then ok (protected, first_error)
  else
    let~ deleted := delete remote path in
    ok (protected, match deleted, first_error with Err e, None => Some e | _, _ => first_error end).

Definition cleanup_sync_snapshots (local_store : CloudLocalStore) (options : LocalCloudSyncOptions)
    (remote : CloudSyncRemote) (latest : option RemoteSyncPointer) : M unit :=
  let! _ := checkpoint in
  let remote := controlled_remote remote in
  let local_store := controlled_store local_store in
  let! referenced := protected_revisions remote (remote_root options) in
  let protected := referenced ∪ list_to_set (option_list (revision_id <$> latest)) in
  let! clocks := authenticated_commit_clocks local_store options remote latest in
  let! paths := list_files remote (remote_path (remote_root options) SYNC_SNAPSHOTS_DIR) in
  let! snapshots := for_each paths [] (gc_scan local_store options remote protected clocks) in
  let~ now := current_time_ms in
  let plan := plan_snapshot_gc snapshots (revision_id <$> latest) now SYNC_SNAPSHOT_KEEP_RECENT
                SYNC_SNAPSHOT_GC_GRACE_PERIOD in
  let! s := for_each plan (protected, None) (gc_delete local_store options remote) in
  let! _ := checkpoint in
  match snd s with None => ok tt | Some e => fail e end.

End protocol.
