(* ===== verification/SyncReadSpec.v ===== *)
(** What the reading operations of cloud_sync/heads.rs and cloud_sync/protocol.rs
    establish, for any remote store and local store that keep their promises:
    they change nothing, and what they return was really read. *)
From stdpp Require Import base list numbers strings gmap.
From Stdlib Require Import ZArith Lia.
From S2P Require Import Prelude Text SyncTypes SyncEffects SyncLogic SyncHeads SyncHeadsSpec SyncProtocol.

Section rules.
Context (G : history -> event -> Prop).

(** A program that, when it succeeds, has only read, and whose result satisfies
    [F]. *)
Definition rd {A} (m : M A) (F : history -> history -> A -> Prop) : Prop :=
  sp G m (fun h h' r => forall a, r = Ok a -> quiet_since h h' /\ F h h' a).

Lemma rd_wp {A B} (m : M A) F (f : A -> M B) h Q :
  rd m F ->
  (forall h' e, h `suffix_of` h' -> Q h' (Err e)) ->
  (forall h' a, quiet_since h h' -> F h h' a -> wp G (f a) h' Q) ->
  wp G (mbind_ok m f) h Q.
Proof.
  intros Hm He Ha. apply wp_let. eapply wp_sp; [exact Hm |]. intros h' [a | e] Hs Hr; cbn [on_ok]; [| by apply He].
  destruct (Hr a eq_refl). by apply Ha.
Qed.

Lemma rd_let {A B} (m : M A) (f : A -> M B) F1 F2 F :
  rd m F1 -> (forall a, rd (f a) (F2 a)) ->
  (forall h h1 h2 a b, quiet_since h h1 -> quiet_since h1 h2 -> F1 h h1 a -> F2 a h1 h2 b -> F h h2 b) ->
  rd (mbind_ok m f) F.
Proof.
  intros Hm Hf HF h. eapply rd_wp; [exact Hm | by intros | ]. intros h1 a Hq H1.
  eapply wp_sp; [apply Hf |]. intros h2 r _ Hr b Hb. destruct (Hr b Hb) as [Hq2 H2].
  split; [by eapply quiet_since_trans | by eapply HF].
Qed.

Lemma rd_lift {A} (r : res A) F : (forall h a, r = Ok a -> F h h a) -> rd (lift r) F.
Proof. intros H h a Ha. split; [apply quiet_since_refl | by apply H]. Qed.

Lemma rd_ok {A} (a : A) (F : history -> history -> A -> Prop) : (forall h, F h h a) -> rd (ok a) F.
Proof. intros H. apply rd_lift. by intros h a' [= <-]. Qed.

Lemma rd_fail {A} e (F : history -> history -> A -> Prop) : rd (fail e) F.
Proof. by apply rd_lift. Qed.

Lemma rd_map {A B} (m : M A) (g : A -> B) F1 F :
  rd m F1 -> (forall h h1 a, F1 h h1 a -> F h h1 (g a)) -> rd (mbind_ok m (fun a => ok (g a))) F.
Proof.
  intros Hm HF h. eapply rd_wp; [exact Hm | done |]. intros h1 a Hq H1 b [= <-]. split; [done | by apply HF].
Qed.

Lemma rd_asks {A} (m : M A) ev F :
  asks G m ev -> (forall h h' a, since h h' (ev a) -> F h h' a) -> rd m F.
Proof. intros Hm HF h. eapply wp_sp; [exact Hm |]. intros h' r _ [Hq He] a Ha. split; [done | by apply HF, He]. Qed.

Lemma rd_weaken {A} (m : M A) (F F' : history -> history -> A -> Prop) :
  rd m F -> (forall h h' a, F h h' a -> F' h h' a) -> rd m F'.
Proof. intros Hm HF h. eapply wp_sp; [exact Hm |]. intros h' r _ Hr a Ha. destruct (Hr a Ha). auto. Qed.

Lemma rd_harmless {A} (m : M A) F : rd m F -> harmless G m.
Proof. apply sp_harmless. Qed.

Lemma asks_harmless {A} (m : M A) ev : asks G m ev -> harmless G m.
Proof. apply sp_harmless. Qed.
End rules.

Section reading.
Context `{L : SyncLib} (G : history -> event -> Prop) (Hquiet : forall h e, quiet e = true -> G h e).
Context (C : str -> history -> Prop) (R : CloudSyncRemote) (HR : RemoteSpec G C R) (P : history -> Prop) (S : CloudLocalStore) (HS : StoreSpec G P S).

(** ** Heads *)

(** A head file as [read_records] recognises it. *)
Definition head_file (root path : str) : bool :=
  starts_with (remote_path root HEADS_DIR) path && ends_with (bs ".json") path.

(** Since [h] the heads were listed, and every head file of the listing was read:
    it is gone, or it holds one of the records. *)
Definition head_listing (root : str) (h h' : history) (records : list DeviceHead) : Prop :=
  exists paths, since h h' (EvList (remote_path root HEADS_DIR) (Ok paths)) /\
    forall path, path ∈ paths -> head_file root path = true ->
      exists o, since h h' (EvRead path (Ok o)) /\
        match o with None => True | Some bytes => exists rec, decode_record bytes = Ok rec /\ rec ∈ records end.

(** The records were read from their files. *)
Definition record_read (root : str) (h h' : history) (rec : DeviceHead) : Prop :=
  exists bytes, since h h' (EvRead (expected_head_path root rec) (Ok (Some bytes))) /\ decode_record bytes = Ok rec.

Definition scanned (root : str) (h : history) (done : list str) (h' : history) (records : list DeviceHead) : Prop :=
  quiet_since h h' /\
  (forall path, path ∈ done -> head_file root path = true ->
     exists o, since h h' (EvRead path (Ok o)) /\
       match o with None => True | Some bytes => exists rec, decode_record bytes = Ok rec /\ rec ∈ records end) /\
  Forall (record_read root h h') records.

Lemma since_later h h1 h2 e : quiet_since h1 h2 -> since h h1 e -> since h h2 e.
Proof. intros Hq. apply (since_mono h h h1 h2); [done | by apply quiet_since_suffix]. Qed.

Lemma since_earlier h h1 h2 e : quiet_since h h1 -> since h1 h2 e -> since h h2 e.
Proof. intros Hq. apply (since_mono h h1 h2 h2); [by apply quiet_since_suffix | done]. Qed.

Lemma scanned_later root h dn h1 h2 records : quiet_since h1 h2 -> scanned root h dn h1 records -> scanned root h dn h2 records.
Proof.
  intros Hq (H1 & H2 & H3). split_and!; [by eapply quiet_since_trans | |].
  - intros path Hp Hf. destruct (H2 path Hp Hf) as (o & Ho & Hm). exists o. split; [by eapply since_later | done].
  - eapply Forall_impl; [exact H3 |]. intros rec (b & Hb & Hd). exists b. split; [by eapply since_later | done].
Qed.

Lemma read_record_spec root h dn path h0 records :
  scanned root h dn h0 records ->
  wp G (read_record R root path records) h0 (fun h' r => forall records', r = Ok records' ->
    scanned root h (dn ++ [path]) h' records').
Proof.
  intros HI. unfold read_record.
  assert (Hskip : forall h', quiet_since h0 h' ->
    (head_file root path = true -> since h0 h' (EvRead path (Ok None))) -> scanned root h (dn ++ [path]) h' records).
  { intros h' Hq Hf. destruct (scanned_later _ _ _ _ _ _ Hq HI) as (H1 & H2 & H3). split_and!; [done | | done].
    intros p Hp Hpf. apply elem_of_app in Hp as [Hp | Hp]; [by apply H2 |]. apply list_elem_of_singleton in Hp as ->.
    exists None. split; [| done]. eapply since_earlier; [by apply HI | by apply Hf]. }
  destruct (negb _ || negb _) eqn:E.
  { intros records' [= <-]. apply Hskip; [apply quiet_since_refl |]. unfold head_file. intros Hf.
    by rewrite <- negb_andb, Hf in E. }
  apply wp_let. eapply wp_sp; [apply (remote_read G path) |]. intros h1 [o | e] _ [Hq Hev]; cbn [on_ok]; [| done].
  specialize (Hev o eq_refl). destruct o as [bytes |].
  2:{ intros records' [= <-]. by apply Hskip. }
  apply wp_let, wp_lift. destruct (decode_record bytes) as [rec |] eqn:D; cbn [on_ok]; [| done].
  destruct (beq path (expected_head_path root rec)) eqn:Ep; cbn [negb]; [| done].
  apply beq_true in Ep. intros records' [= <-].
  destruct (scanned_later _ _ _ _ _ _ Hq HI) as (H1 & H2 & H3). split_and!; [done | |].
  - intros p Hp Hpf. apply elem_of_app in Hp as [Hp | Hp].
    + destruct (H2 p Hp Hpf) as (o & Ho & Hm). exists o. split; [done |]. destruct o as [b |]; [| done].
      destruct Hm as (rec' & Hr & Hi). exists rec'. split; [done |]. apply elem_of_app. by left.
    + apply list_elem_of_singleton in Hp as ->. exists (Some bytes). split; [eapply since_earlier; [by apply HI | done] |].
      exists rec. split; [done |]. apply elem_of_app. right. by apply list_elem_of_singleton.
  - apply Forall_app. split; [done |]. apply Forall_singleton. exists bytes. rewrite <- Ep.
    split; [eapply since_earlier; [by apply HI | done] | done].
Qed.

Lemma read_records_spec root :
  rd G (read_records R root) (fun h h' records => head_listing root h h' records /\ Forall (record_read root h h') records).
Proof.
  intros h. unfold read_records. eapply rd_wp; [eapply (rd_asks G _ _ (fun h h' paths => since h h' (EvList (remote_path root HEADS_DIR) (Ok paths)))); [apply (remote_list G) | done] | done |].
  intros h1 paths Hq Hl. destruct (_ <? _); [done |].
  apply (wp_for_each_done G (scanned root h) (read_record R root) []).
  - intros dn x h2 s. apply read_record_spec.
  - split_and!; [done | intros p Hp; by apply elem_of_nil in Hp | done].
  - intros h2 r Hs Hr records Ho. destruct (Hr records Ho) as (H1 & H2 & H3). split; [done |]. split; [| done].
    exists paths. split; [| done]. by apply (since_mono h h h1 h2).
Qed.

(** The heads that devices have published. *)
Definition published (root : str) (h h' : history) (p : RemoteSyncPointer) : Prop :=
  exists rec, record_read root h h' rec /\ committed rec = Some p.

Lemma decode_record_clock bytes rec p : decode_record bytes = Ok rec -> committed rec = Some p -> is_Some (sync_clock p).
Proof.
  intros D E. unfold decode_record in D. destruct (_ <? _); [done |].
  destruct (map_err _ _) as [rec' |]; [| done]. cbn [result_bind] in D.
  destruct (committed rec') as [p' |] eqn:E'; [| injection D as ->; congruence].
  destruct (negb _); [done |]. destruct (sync_clock p') as [c |] eqn:Ec; [| done]. cbn [ok_or result_bind] in D.
  destruct (validate_clock c); [| done]. cbn [result_bind] in D. injection D as ->.
  assert (p' = p) by congruence. subst. by eexists.
Qed.

Lemma published_clock root h h' p : published root h h' p -> is_Some (sync_clock p).
Proof. intros (rec & (bytes & _ & D) & E). by apply (decode_record_clock bytes rec). Qed.

Lemma read_device_heads_spec root :
  rd G (read_device_heads R root) (fun h h' hs => Forall (published root h h') hs /\
    exists records, head_listing root h h' records /\ hs = omap committed records).
Proof.
  unfold read_device_heads. eapply rd_map; [apply read_records_spec |].
  intros h h1 records [Hl Hr]. split; [| by exists records]. apply Forall_forall. intros p Hp.
  apply list_elem_of_omap in Hp as (rec & Hi & E). rewrite Forall_forall in Hr. exists rec. auto.
Qed.

(** Revisions that a record keeps alive. *)
Definition names (rec : DeviceHead) (revision : str) : Prop :=
  (exists p, committed rec = Some p /\ revision_id p = revision) \/ pending_revision rec = Some revision.

(** All head files were read since [h] and none of them names the revision. *)
Definition unreferenced (root : str) (h h' : history) (revision : str) : Prop :=
  exists records, head_listing root h h' records /\ forall rec, rec ∈ records -> ~ names rec revision.

Lemma protected_revisions_spec root :
  rd G (protected_revisions R root)
    (fun h h' refs => forall revision, revision ∉ refs -> unreferenced root h h' revision).
Proof.
  unfold protected_revisions. eapply rd_map; [apply read_records_spec |].
  intros h h1 records [Hl _] revision Hn. exists records. split; [done |].
  intros rec Hi Hnames. apply Hn. apply elem_of_list_to_set, list_elem_of_In, in_flat_map. exists rec.
  split; [by apply list_elem_of_In |]. apply in_or_app.
  destruct Hnames as [(p & E & Er) | E]; rewrite E; cbn; [left | right]; auto.
Qed.

(** ** The compatibility pointer *)

Definition latest_read (root : str) (h h' : history) (o : option RemoteSyncPointer) : Prop :=
  exists r, since h h' (EvRead (remote_path root SYNC_LATEST_FILE) (Ok r)) /\
    match r, o with
    | None, None => True
    | Some bytes, Some p => since h h' (EvDecodePointer bytes (Ok p))
    | _, _ => False
    end.

Lemma load_sync_pointer_spec root :
  rd G (load_sync_pointer_from_remote S R root) (fun h h' o => latest_read root h h' o).
Proof.
  unfold load_sync_pointer_from_remote.
  eapply rd_let with (F1 := fun h h' r => since h h' (EvRead (remote_path root SYNC_LATEST_FILE) (Ok r)))
    (F2 := fun r h h' o => match r, o with
                           | None, None => True
                           | Some bytes, Some p => since h h' (EvDecodePointer bytes (Ok p))
                           | _, _ => False end).
  - eapply rd_asks; [apply (remote_read G) | done].
  - intros [bytes |]; [| by apply rd_ok].
    apply rd_map with (F1 := fun h h' p => since h h' (EvDecodePointer bytes (Ok p))); [| done].
    eapply rd_asks; [apply (store_decode_pointer G) | done].
  - intros h h1 h2 r o Hq1 Hq2 Hr Ho. exists r. split; [by eapply since_later |].
    destruct r, o; try done. by eapply since_earlier.
Qed.

(** ** All heads *)

(** The heads were read: every one is published or the pointer of older versions,
    and every published head of the listing is among them. *)
Definition heads_read (root : str) (h h' : history) (H : RemoteHeads) : Prop :=
  heads_shape H /\
  (forall p, p ∈ heads H -> published root h h' p \/ compatibility H = Some p) /\
  latest_read root h h' (compatibility H) /\
  exists records, head_listing root h h' records /\
    forall rec p, rec ∈ records -> committed rec = Some p -> p ∈ heads H.

Lemma read_spec root :
  rd G (read S R root) (fun h h' H => heads_read root h h' H /\ heads_choice H).
Proof.
  intros h. unfold read. eapply rd_wp; [apply load_sync_pointer_spec | done |]. intros h1 c Hq1 Hc.
  eapply rd_wp; [apply read_device_heads_spec | done |]. intros h2 ds Hq2 [Hd (records & (paths & Hl & Hp) & ->)].
  apply wp_let, wp_lift. destruct (unique_heads _ _) as [u |] eqn:U; cbn [on_ok]; [| done].
  intros H [= <-]. split; [by eapply quiet_since_trans |]. split; [| done].
  assert (Hin : forall x, x ∈ map snd u <-> x ∈ omap committed records \/ c = Some x).
  { intros x. rewrite (unique_heads_elem _ _ _ x U), elem_of_app, elem_of_nil.
    destruct c as [y |]; cbn; rewrite ?list_elem_of_singleton, ?elem_of_nil; intuition congruence. }
  rewrite Forall_forall in Hd. unfold heads_read. cbn [heads compatibility]. split_and!.
  - split; cbn [heads compatibility].
    + intros p Hi Hn. apply Hin in Hi as [Hi | Hi]; [| done].
      apply Hd, published_clock in Hi. rewrite Hn in Hi. by destruct Hi.
    + intros p ->. apply Hin. by right.
  - intros p Hi. apply Hin in Hi as [Hi | Hi]; [left | by right].
    destruct (Hd p Hi) as (rec & (b & Hb & Hr) & E). exists rec. split; [| done]. exists b.
    split; [by eapply since_earlier | done].
  - destruct Hc as (r & Hr & Hm). exists r. split; [by eapply since_later |].
    destruct r, c; try done. by eapply since_later.
  - exists records. split.
    + exists paths. split; [by eapply since_earlier |]. intros path Hi Hf. destruct (Hp path Hi Hf) as (o & Ho & Hm).
      exists o. split; [by eapply since_earlier | done].
    + intros rec p Hi E. apply Hin. left. apply list_elem_of_omap. by exists rec.
Qed.

(** ** Snapshots *)

Lemma decode_failure_spec {A} bytes pw path revision e F :
  rd G (decode_failure (A := A) S bytes pw path revision e) F.
Proof.
  destruct e; try (by apply rd_fail). cbn [decode_failure]. destruct e; try (by apply rd_fail).
  intros h. apply wp_pbind, wp_pbind. eapply wp_sp; [apply (store_verify G) |]. intros h' r _ _. by destruct r as [[[] |] |].
Qed.

Lemma decode_remote_snapshot_spec bytes pw path revision :
  rd G (decode_remote_snapshot S bytes pw path revision) (fun h h' s => since h h' (EvDecode bytes pw (Ok s))).
Proof.
  intros h. unfold decode_remote_snapshot. apply wp_pbind. eapply wp_sp; [apply (store_decode G) |].
  intros h1 [s | e] _ [Hq He].
  - intros s' [= <-]. split; [done | by apply He].
  - eapply wp_sp; [apply decode_failure_spec with (F := fun _ _ _ => False) |]. intros h2 r _ Hr a Ha.
    by destruct (Hr a Ha) as [_ []].
Qed.

(** The snapshot of a pointer was read from its file and decoded, and is the one
    that the pointer describes. *)
Definition authentic (options : LocalCloudSyncOptions) (pointer : RemoteSyncPointer) (h h' : history)
    (s : RawPortableSnapshot) : Prop :=
  validate_snapshot_against_pointer pointer s = Ok tt /\
  exists bytes h1,
    since h h1 (EvRead (snapshot_path options (revision_id pointer)) (Ok (Some bytes))) /\
    since h1 h' (EvDecode bytes (master_password options) (Ok s)) /\
    MIN_ENCRYPTED_SNAPSHOT_BYTES <= len bytes <= MAX_ENCRYPTED_SNAPSHOT_BYTES.

Lemma authentic_mono options pointer h h1 h2 h3 s :
  h `suffix_of` h1 -> h2 `suffix_of` h3 -> authentic options pointer h1 h2 s -> authentic options pointer h h3 s.
Proof.
  intros H1 H2 (Hv & bytes & h0 & Ha & Hb & Hs). split; [done |]. exists bytes, h0. split_and!; try lia.
  - by apply (since_mono h h1 h0 h0).
  - by apply (since_mono h0 h0 h2 h3).
Qed.

Lemma snapshot_size_ok bytes path revision :
  validate_remote_snapshot_size bytes path revision = Ok tt ->
  MIN_ENCRYPTED_SNAPSHOT_BYTES <= len bytes <= MAX_ENCRYPTED_SNAPSHOT_BYTES.
Proof. unfold validate_remote_snapshot_size. destruct (_ && _) eqn:E; [| done]. lia. Qed.

Lemma decode_and_validate_spec bytes options path pointer :
  rd G (decode_and_validate_remote_snapshot S bytes options path pointer) (fun h h' s =>
    validate_snapshot_against_pointer pointer s = Ok tt /\
    since h h' (EvDecode bytes (master_password options) (Ok s)) /\
    MIN_ENCRYPTED_SNAPSHOT_BYTES <= len bytes <= MAX_ENCRYPTED_SNAPSHOT_BYTES).
Proof.
  intros h. unfold decode_and_validate_remote_snapshot. apply wp_let, wp_lift.
  destruct (validate_remote_snapshot_size _ _ _) as [[] |] eqn:V; cbn [on_ok]; [| done].
  eapply rd_wp; [apply decode_remote_snapshot_spec | done |]. intros h1 s Hq Hd.
  apply wp_let, wp_lift. destruct (validate_snapshot_against_pointer pointer s) as [[] |] eqn:Vp; cbn [on_ok]; [| done].
  intros s' [= <-]. split_and!; [done.. | by eapply snapshot_size_ok | by eapply snapshot_size_ok].
Qed.

Lemma read_snapshot_for_pointer_spec options pointer :
  rd G (read_snapshot_for_pointer S R options pointer) (fun h h' s => authentic options pointer h h' s).
Proof.
  intros h. unfold read_snapshot_for_pointer. apply wp_let. eapply wp_sp; [apply (remote_read G) |].
  intros h1 [[bytes |] | e] _ [Hq He]; cbn [on_ok]; try done.
  eapply wp_sp; [apply decode_and_validate_spec |]. intros h2 r _ Hr s Hs.
  destruct (Hr s Hs) as (Hq2 & Hv & Hd & Hz). split; [by eapply quiet_since_trans |].
  split; [done |]. exists bytes, h1. split_and!; [by apply He | done | lia | lia].
Qed.

(** The copy in the current file, with the bytes that were decoded. *)
Definition current_read (options : LocalCloudSyncOptions) (h h' : history) (s : RawPortableSnapshot) : Prop :=
  exists bytes, since h h' (EvRead (remote_path (remote_root options) SYNC_CURRENT_FILE) (Ok (Some bytes))) /\
    since h h' (EvDecode bytes (master_password options) (Ok s)).

Lemma read_current_spec options :
  rd G (read_current_sync_snapshot_compat S R options)
    (fun h h' o => forall s, o = Some s -> current_read options h h' s).
Proof.
  intros h. unfold read_current_sync_snapshot_compat. apply wp_let. eapply wp_sp; [apply (remote_read G) |].
  intros h1 [[bytes |] | e] _ [Hq He]; cbn [on_ok]; [| by intros a [= <-] | done].
  apply wp_let, wp_lift. destruct (validate_remote_snapshot_size _ _ _); cbn [on_ok]; [| done].
  eapply rd_wp; [apply decode_remote_snapshot_spec | done |]. intros h2 s Hq2 Hd o [= <-].
  split; [by eapply quiet_since_trans |]. intros s' [= <-]. exists bytes. split.
  - eapply since_later; [exact Hq2 | by apply He].
  - by eapply since_earlier.
Qed.

(** ** Clocks that authorise a deletion *)

(** The clock of a commit: a head that was read, or the one given, whose snapshot
    was authenticated. *)
Definition committed_clock (options : LocalCloudSyncOptions) (given : option RemoteSyncPointer) (h h' : history)
    (c : SnapshotSyncClock) : Prop :=
  exists p s, (published (remote_root options) h h' p \/ given = Some p) /\
    authentic options p h h' s /\ meta_clock (meta s) = Some c.

Lemma published_mono root h h1 h2 h3 p :
  h `suffix_of` h1 -> h2 `suffix_of` h3 -> published root h1 h2 p -> published root h h3 p.
Proof.
  intros H1 H2 (rec & (b & Hb & Hd) & E). exists rec. split; [| done]. exists b. split; [| done].
  by apply (since_mono h h1 h2 h3).
Qed.

Lemma committed_clock_mono options given h h1 h2 h3 c :
  h `suffix_of` h1 -> h2 `suffix_of` h3 -> committed_clock options given h1 h2 c -> committed_clock options given h h3 c.
Proof.
  intros H1 H2 (p & s & Hp & Ha & Hc). exists p, s. split_and!; [| by eapply authentic_mono | done].
  destruct Hp as [Hp |]; [left; by eapply published_mono | by right].
Qed.

Lemma authenticated_commit_clocks_spec options latest :
  rd G (authenticated_commit_clocks S options R latest) (fun h h' clocks =>
    Forall (committed_clock options latest h h') clocks).
Proof.
  intros h. unfold authenticated_commit_clocks. eapply rd_wp; [apply read_device_heads_spec | done |].
  intros h1 hs Hq1 [Hh _]. rewrite Forall_forall in Hh.
  set (I := fun h' (s : gset str * list SnapshotSyncClock) =>
    quiet_since h h' /\ Forall (committed_clock options latest h h') (snd s)).
  apply wp_let. apply (wp_for_each_in G I); [| by split |].
  - intros p h2 [seen clocks] Hs12 Hp [Hq2 HI]. unfold authenticate_head. destruct (_ && _).
    2:{ intros s [= <-]. by split. }
    eapply rd_wp; [apply read_snapshot_for_pointer_spec | done |]. intros h3 s Hq3 Ha s' [= <-].
    assert (Hs : h `suffix_of` h2) by by apply quiet_since_suffix.
    assert (Hs3 : h2 `suffix_of` h3) by by apply quiet_since_suffix.
    split; [by eapply quiet_since_trans |]. cbn [snd].
    assert (Hold : Forall (committed_clock options latest h h3) clocks).
    { eapply Forall_impl; [exact HI |]. intros c. by apply committed_clock_mono. }
    destruct (meta_clock (meta s)) as [c |] eqn:Ec; [| done]. apply Forall_app. split; [done |].
    apply Forall_singleton. exists p, s. split_and!; [| by apply (authentic_mono _ _ h h2 h3 h3) | done].
    apply elem_of_app in Hp as [Hp | Hp].
    + left. apply (published_mono _ h h h1 h3); [done | by transitivity h2 | by apply Hh].
    + right. destruct latest; cbn in Hp; [by apply list_elem_of_singleton in Hp as -> | by apply elem_of_nil in Hp].
  - intros h2 [s | e] Hs Hr; cbn [on_ok]; [| done]. intros a [= <-]. by apply Hr.
Qed.

End reading.
