(* ===== verification/SyncUpload.v ===== *)
(** Making room for a snapshot (cloud_sync/gc.rs), uploading it and reading it
    back, resolving what a remote head refers to, and recovering from the copy in
    the current file (the second half of cloud_sync/protocol.rs). *)
From stdpp Require Import base list numbers strings gmap.
From Stdlib Require Import ZArith Lia.
From S2P Require Import Prelude Text SyncTypes SyncEffects SyncHeads SyncProtocol.

Section upload.
Context `{L : SyncLib}.
Context (local_store : CloudLocalStore) (remote : CloudSyncRemote) (options : LocalCloudSyncOptions).

(** ** Room for the snapshot *)

Abbreviation candidate := (Z * str * str)%type.
Definition candidate_leb (a b : candidate) : bool :=
  let '(t1, p1, r1) := a in
  let '(t2, p2, r2) := b in
  (t1 <? t2) || ((t1 =? t2) && (if beq p1 p2 then str_leb r1 r2 else str_leb p1 p2)).

Definition reserve_scan (prefix : str) (protected : gset str) (clocks : list SnapshotSyncClock)
    (path : str) (candidates : list candidate) : M (list candidate) :=
  match strip_prefix prefix path with
  | None => ok candidates
  | Some name =>
      if has_byte 47 name then ok candidates
      else
        match snapshot_revision_from_path name with
        | None => ok candidates
        | Some revision =>
            if bool_decide (revision ∈ protected) then ok candidates
            else
              let! read := read_if_exists remote path in
              match read with
              | None => ok candidates
              | Some bytes =>
                  let~ decoded := decode_sync_snapshot local_store bytes (master_password options) in
                  match decoded with
                  | Err _ => ok candidates
                  | Ok snapshot =>
                      if beq (meta_revision (meta snapshot)) revision
                         && is_ok (validate_raw_snapshot snapshot)
                         && causally_collectable snapshot clocks
                      then ok (candidates ++ [(created_at (meta snapshot), path, revision)])
                      else ok candidates
                  end
              end
        end
  end.

Fixpoint reserve_delete (candidates : list candidate) (protected : gset str) (freed needed : Z) : M unit :=
  match candidates with
  | [] => fail GistCapacity
  | (_, path, revision) :: candidates' =>
      let! head := load_sync_pointer_from_remote local_store remote (remote_root options) in
      let! referenced := protected_revisions remote (remote_root options) in
      let protected := protected ∪ list_to_set (option_list (revision_id <$> head)) ∪ referenced in
      if bool_decide (revision ∈ protected) then reserve_delete candidates' protected freed needed
      else
        let! _ := delete remote path in
        let! read := read_if_exists remote path in
        let freed := if is_some read then freed else freed + 1 in
        if needed <=? freed then ok tt else reserve_delete candidates' protected freed needed
  end.

Definition count_missing (path : str) (additional : Z) : M Z :=
  let! read := read_if_exists remote path in
  ok (if is_some read then additional else additional + 1).

(** The revision that the current file holds, when it can be decoded. *)
Definition current_revision : M (option str) :=
  let! read := read_if_exists remote (remote_path (remote_root options) SYNC_CURRENT_FILE) in
  match read with
  | None => ok None
  | Some bytes =>
      let~ decoded := decode_sync_snapshot local_store bytes (master_password options) in
      match decoded with
      | Ok snapshot => ok (Some (meta_revision (meta snapshot)))
      | Err _ => ok None
      end
  end.

Definition reserve_snapshot_capacity (expected : option RemoteSyncPointer) (target_revision : str) : M unit :=
  let root := remote_root options in
  let! capacity := file_capacity remote in
  match capacity with
  | None => ok tt
  | Some capacity =>
      let! additional := for_each [remote_path root (legacy_sync_snapshot_file target_revision);
                                   remote_path root SYNC_LATEST_FILE;
                                   remote_path root SYNC_CURRENT_FILE;
                                   device_head_path root (opt_device options);
                                   pending_head_path root (opt_device options)] 0 count_missing in
      let needed := saturating_sub (saturating_add USIZE_MAX (used capacity) additional) (limit capacity) in
      if needed =? 0 then ok tt
      else
        let! referenced := protected_revisions remote root in
        let protected := referenced ∪ list_to_set (target_revision :: option_list (revision_id <$> expected)) in
        let! clocks := authenticated_commit_clocks local_store options remote expected in
        let! current := current_revision in
        let protected := protected ∪ list_to_set (option_list current) in
        let prefix := trim_end_matches 47 (remote_path root SYNC_SNAPSHOTS_DIR) ++ [47] in
        let! paths := list_files remote prefix in
        let! candidates := for_each paths [] (reserve_scan prefix protected clocks) in
        reserve_delete (stable_sort candidate_leb candidates) protected 0 needed
  end.

(** ** Upload and verification *)

Definition verify_written_snapshot (pointer : RemoteSyncPointer) (written : list Z) : M unit :=
  let path := snapshot_path options (revision_id pointer) in
  let! read := read_if_exists remote path in
  match read with
  | None => fail (SnapshotMissing (revision_id pointer))
  | Some read_back =>
      if negb (beq read_back written) then
        fail (RemoteWriteDiverged (revision_id pointer) path (len written) (sha256_hex written)
                (len read_back) (sha256_hex read_back))
      else
        let! _ := decode_and_validate_remote_snapshot local_store read_back options path pointer in
        ok tt
  end.

Definition readback_retry_is_useful (error : CloudSyncError) : bool :=
  match error with Cancelled | Disabled | GistCapacity => false | _ => true end.

Definition capacity_error (capacity_limited : bool) (error : CloudSyncError) : CloudSyncError :=
  match error with
  | SnapshotMissing _ => if capacity_limited then GistCapacity else error
  | _ => error
  end.

(** Room is made and the revision is registered before each write. *)
Definition prepare_upload (pointer : RemoteSyncPointer) (expected : option RemoteSyncPointer)
    (stage_device : bool) : M unit :=
  let! _ := reserve_snapshot_capacity expected (revision_id pointer) in
  if stage_device then stage remote (remote_root options) (opt_device options) (revision_id pointer) else ok tt.

(** [remaining] attempts are left; the first one has [first = true]. *)
Fixpoint upload_attempts (capacity_limited stage_device : bool) (attempts : Z) (pointer : RemoteSyncPointer)
    (expected : option RemoteSyncPointer) (bytes : list Z) (first : bool) (remaining : nat) : M unit :=
  let path := snapshot_path options (revision_id pointer) in
  match remaining with
  | O => fail (Remote (bs "remote snapshot " ++ path ++ bs " could not be verified after " ++ show_u64 attempts
                       ++ bs " attempts"))
  | S remaining' =>
      let next := upload_attempts capacity_limited stage_device attempts pointer expected bytes false remaining' in
      let last_attempt := (remaining' =? 0)%nat in
      let verify :=
        let~ verified := verify_written_snapshot pointer bytes in
        match verified with
        | Ok _ => ok tt
        | Err error =>
            if last_attempt || negb (readback_retry_is_useful error)
            then fail (capacity_error capacity_limited error)
            else next
        end in
      if capacity_limited || first then
        let! _ := prepare_upload pointer expected stage_device in
        let~ written := write remote path bytes in
        match written with
        | Ok _ => verify
        | Err error =>
            if capacity_limited && negb last_attempt then next else fail (capacity_error capacity_limited error)
        end
      else verify
  end.

Definition upload_verified_snapshot (pointer : RemoteSyncPointer) (expected : option RemoteSyncPointer)
    (bytes : list Z) (stage_device : bool) : M unit :=
  let! capacity := file_capacity remote in
  let capacity_limited := is_some capacity in
  let attempts := if capacity_limited then 2%nat else READBACK_VERIFY_ATTEMPTS in
  upload_attempts capacity_limited stage_device (Z.of_nat attempts) pointer expected bytes true attempts.

Definition upload_sync_snapshot (snapshot : RawPortableSnapshot) (expected : option RemoteSyncPointer) : M (list Z) :=
  let! bytes := encode_sync_snapshot local_store snapshot (master_password options) in
  let! _ := upload_verified_snapshot (pointer_from_snapshot snapshot) expected bytes true in
  ok bytes.

Definition ensure_remote_head_unchanged (expected : option RemoteSyncPointer) : M unit :=
  let! actual := load_sync_pointer_from_remote local_store remote (remote_root options) in
  if negb (bool_decide (revision_id <$> expected = revision_id <$> actual))
  then fail (ConcurrentUpdate (revision_id <$> expected) (revision_id <$> actual))
  else ok tt.

Fixpoint write_pointer_attempts (capacity_limited : bool) (attempts : Z) (pointer : RemoteSyncPointer)
    (path : str) (bytes : list Z) (first : bool) (remaining : nat) : M unit :=
  match remaining with
  | O =>
      fail (if capacity_limited then GistCapacity
            else Remote (bs "remote head write " ++ path ++ bs " could not be verified after " ++ show_u64 attempts
                         ++ bs " attempts"))
  | S remaining' =>
      let! _ := if capacity_limited || first then write remote path bytes else ok tt in
      let! actual := load_sync_pointer_from_remote local_store remote (remote_root options) in
      if bool_decide (actual = Some pointer) then ok tt
      else write_pointer_attempts capacity_limited attempts pointer path bytes false remaining'
  end.

Definition write_sync_pointer (pointer : RemoteSyncPointer) : M unit :=
  let! bytes := encode_sync_pointer local_store pointer in
  let path := remote_path (remote_root options) SYNC_LATEST_FILE in
  let! capacity := file_capacity remote in
  let capacity_limited := is_some capacity in
  let attempts := if capacity_limited then 2%nat else READBACK_VERIFY_ATTEMPTS in
  write_pointer_attempts capacity_limited (Z.of_nat attempts) pointer path bytes true attempts.

(** ** What a head refers to *)

Record RemoteSnapshotUnreadableHead := UnreadableHead { reason : str; unreadable_blocks : bool }.

Inductive RemoteSnapshotResolution :=
| Current (snapshot : RawPortableSnapshot)
| LegacyMigrated (snapshot : RawPortableSnapshot)
| Inconsistent (pointer : RemoteSyncPointer) (recovery_candidate : option RawPortableSnapshot)
    (unreadable : option RemoteSnapshotUnreadableHead).

Definition show_cause (cause : SnapshotUnreadableCause) : str :=
  match cause with
  | PayloadNotAuthentic => bs "it was written with a different master password (for example by another device) or altered in transit, and this device verified that the configured master password is correct"
  | MasterPasswordMismatch => bs "the configured master password does not match this device's local state, so the cloud copy is most likely still valid; fix the master password instead of overwriting the cloud"
  | UnknownCause => bs "it was either written with a different master password or altered in transit"
  end.

Definition unreadable_head (error : CloudSyncError) : RemoteSnapshotUnreadableHead :=
  match error with
  | RemoteSnapshotUnreadable revision path bytes digest cause _ =>
      UnreadableHead (bs "The remote snapshot " ++ revision ++ bs " at '" ++ path ++ bs "' (" ++ show_u64 bytes
        ++ bs " bytes, sha256 " ++ digest ++ bs ") could not be decrypted: " ++ show_cause cause ++ bs ".")
        (blocks_remote_overwrite cause)
  | _ => UnreadableHead (bs "The remote snapshot could not be read: " ++ show_error error) false
  end.

Definition recoverable_head (error : CloudSyncError) : bool :=
  match error with
  | SnapshotMissing _ | CorruptedSnapshot _ _ | RevisionMismatch _ _ | HashMismatch _ _
  | RemoteSnapshotUnreadable _ _ _ _ _ _ => true
  | _ => false
  end.

(** The current file cannot be read either. *)
Definition current_failure (pointer : RemoteSyncPointer) (unreadable : RemoteSnapshotUnreadableHead)
    (error : CloudSyncError) : res RemoteSnapshotResolution :=
  match error with
  | CorruptedSnapshot _ _ => Ok (Inconsistent pointer None (Some unreadable))
  | RemoteSnapshotUnreadable _ _ _ _ _ _ =>
      let current := unreadable_head error in
      Ok (Inconsistent pointer None
            (Some (UnreadableHead (reason unreadable ++ 32 :: reason current)
                     (unreadable_blocks unreadable || unreadable_blocks current))))
  | _ => Err error
  end.

(** The head itself is unusable; the current file may still hold its snapshot. *)
Definition resolve_from_current (pointer : RemoteSyncPointer) (unreadable : RemoteSnapshotUnreadableHead) :
    M RemoteSnapshotResolution :=
  let~ compat := read_current_sync_snapshot_compat local_store remote options in
  match compat with
  | Ok None => ok (Inconsistent pointer None (Some unreadable))
  | Err error => lift (current_failure pointer unreadable error)
  | Ok (Some current) =>
      if is_ok (validate_snapshot_against_pointer pointer current) then
        let! read := read_if_exists remote (remote_path (remote_root options) SYNC_CURRENT_FILE) in
        let! current_bytes := lift (ok_or read (SnapshotMissing (bs "current"))) in
        let! _ := upload_verified_snapshot pointer (Some pointer) current_bytes false in
        let! _ := read_snapshot_for_pointer local_store remote options pointer in
        ok (LegacyMigrated current)
      else ok (Inconsistent pointer (Some current) (Some unreadable))
  end.

Definition resolve_remote_snapshot (pointer : RemoteSyncPointer) : M RemoteSnapshotResolution :=
  let~ read := read_snapshot_for_pointer local_store remote options pointer in
  match read with
  | Ok snapshot => ok (Current snapshot)
  | Err error =>
      if recoverable_head error then resolve_from_current pointer (unreadable_head error) else fail error
  end.

(** Publish a verified snapshot: the device head decides, the pointer and the
    current file of older versions follow as well as they can. *)
Definition publish_all (pointer : RemoteSyncPointer) (uploaded : list Z) : M unit :=
  let! _ := publish remote (remote_root options) pointer in
  let~ _ := write_sync_pointer pointer in
  let~ _ := write remote (remote_path (remote_root options) SYNC_CURRENT_FILE) uploaded in
  ok tt.

Definition recover_current_remote_snapshot : M RawPortableSnapshot :=
  let! compat := read_current_sync_snapshot_compat local_store remote options in
  match compat with
  | None => fail (SnapshotMissing (bs "current"))
  | Some snapshot =>
      let! heads := read local_store remote (remote_root options) in
      let~ revision := uuid_v4 in
      let~ now := current_time_ms in
      let! clock := lift (next_clock heads None (opt_device options)) in
      let m := with_clock clock (with_identity revision (opt_device options) now (meta snapshot)) in
      let! snapshot := lift (map_err PortableSnapshot (recalculate_hash (set_meta m snapshot))) in
      let! bytes := upload_sync_snapshot snapshot (compatibility heads) in
      let pointer := pointer_from_snapshot snapshot in
      let! _ := ensure_remote_head_unchanged (compatibility heads) in
      let! _ := begin_commit in
      let! _ := publish_all pointer bytes in
      ok snapshot
  end.

End upload.
