(* ===== verification/SyncSafety.v ===== *)
(** The guard that every event of a synchronisation respects, and that the
    operations of cloud_sync/gc.rs and cloud_sync/protocol.rs respect it, for any
    remote and local store that keep their promises. *)
From stdpp Require Import base list numbers strings gmap.
From Stdlib Require Import ZArith Lia.
From S2P Require Import Prelude Text SyncTypes SyncEffects SyncLogic SyncHeads SyncHeadsSpec SyncProtocol SyncReadSpec.
From S2P Require Import SyncUpload.

(** ** The guard *)

Section guard.
Context `{L : SyncLib} (options : LocalCloudSyncOptions).
(** The head that the caller of the operation supplies. *)
Context (known : RemoteSyncPointer -> Prop).

Abbreviation root := (remote_root options).
Abbreviation password := (master_password options).

(** A pointer that commits its revision. *)
Definition commit_head (pre : history) (p : RemoteSyncPointer) : Prop :=
  published root [] pre p \/ latest_read root [] pre (Some p) \/ known p.

(** A snapshot file may be deleted: it was read and decoded in this operation; if
    it carries a clock, it is a strict ancestor of an authenticated commit (of a
    snapshot without clock no ancestry is asked, as in the code); and since the
    last change all heads and the pointer were read again and do not refer to it. *)
Definition collectable (pre : history) (path : str) : Prop :=
  exists revision s bytes,
    snapshot_revision_from_path path = Some revision /\ meta_revision (meta s) = revision /\
    since [] pre (EvRead path (Ok (Some bytes))) /\ since [] pre (EvDecode bytes password (Ok s)) /\
    (forall c, meta_clock (meta s) = Some c ->
       exists p s' c', commit_head pre p /\ authentic options p [] pre s' /\ meta_clock (meta s') = Some c' /\
                       strictly_dominates c' c = true) /\
    exists h1, quiet_since h1 pre /\ unreferenced root h1 pre revision /\
      exists o, latest_read root h1 pre o /\ forall p, o = Some p -> revision_id p <> revision.

(** ** Facts about the whole operation are kept *)

Lemma since_nil_mono h h' e : h `suffix_of` h' -> since [] h e -> since [] h' e.
Proof. by apply since_mono. Qed.

Lemma latest_read_mono h h1 h2 h3 o :
  h `suffix_of` h1 -> h2 `suffix_of` h3 -> latest_read root h1 h2 o -> latest_read root h h3 o.
Proof.
  intros H1 H2 (r & Hr & Hm). exists r. split; [by apply (since_mono h h1 h2 h3) |].
  destruct r, o; try done. by apply (since_mono h h1 h2 h3).
Qed.

Lemma unreferenced_mono h h1 h2 h3 r :
  h `suffix_of` h1 -> h2 `suffix_of` h3 -> unreferenced root h1 h2 r -> unreferenced root h h3 r.
Proof.
  intros H1 H2 (records & (paths & Hl & Hp) & Hn). exists records. split; [| done]. exists paths.
  split; [by apply (since_mono h h1 h2 h3) |]. intros path Hi Hf. destruct (Hp path Hi Hf) as (o & Ho & Hm).
  exists o. split; [by apply (since_mono h h1 h2 h3) | done].
Qed.

Lemma commit_head_mono h h' p : h `suffix_of` h' -> commit_head h p -> commit_head h' p.
Proof.
  intros Hs [H | [H | H]]; [left | right; left | by do 2 right].
  - by apply (published_mono _ [] [] h h').
  - by apply (latest_read_mono [] [] h h').
Qed.

Lemma nil_suffix (h : history) : [] `suffix_of` h.
Proof. apply suffix_nil. Qed.

(** What a scan found out about a file that it proposes for deletion. *)
Definition proposed (h : history) (path : str) (revision : str) : Prop :=
  exists s bytes,
    snapshot_revision_from_path path = Some revision /\ meta_revision (meta s) = revision /\
    since [] h (EvRead path (Ok (Some bytes))) /\ since [] h (EvDecode bytes password (Ok s)) /\
    (forall c, meta_clock (meta s) = Some c ->
       exists p s' c', commit_head h p /\ authentic options p [] h s' /\ meta_clock (meta s') = Some c' /\
                       strictly_dominates c' c = true).

Lemma proposed_mono h h' path r : h `suffix_of` h' -> proposed h path r -> proposed h' path r.
Proof.
  intros Hs (s & bytes & H1 & H2 & H3 & H4 & H5). exists s, bytes.
  split_and!; [done | done | by apply (since_nil_mono h) | by apply (since_nil_mono h) |].
  intros c Hc. destruct (H5 c Hc) as (p & s' & c' & Ha & Hb & Hd). exists p, s', c'.
  split_and!; [by apply (commit_head_mono h) | by apply (authentic_mono _ _ [] [] h h') | tauto | tauto].
Qed.

Lemma proposed_collectable h h1 h2 path r o :
  h `suffix_of` h2 -> proposed h path r -> quiet_since h1 h2 -> unreferenced root h1 h2 r ->
  latest_read root h1 h2 o -> (forall p, o = Some p -> revision_id p <> r) -> collectable h2 path.
Proof.
  intros Hs (s & bytes & H1 & H2 & H3 & H4 & H5)%(proposed_mono _ _ _ _ Hs) Hq Hu Hl Ho.
  exists r, s, bytes. split_and!; try done. exists h1. eauto.
Qed.
(** ** Publication and application *)

Definition decoded_as (pointer : RemoteSyncPointer) (bytes : list Z) (e : event) : Prop :=
  exists s, e = EvDecode bytes password (Ok s) /\ validate_snapshot_against_pointer pointer s = Ok tt.

Definition staging_head (pointer : RemoteSyncPointer) : DeviceHead :=
  Head (opt_device options) None (Some (revision_id pointer)).
Definition committed_head (pointer : RemoteSyncPointer) : DeviceHead :=
  Head (device_id pointer) (Some pointer) None.

(** The revision was registered and the registration confirmed, then its snapshot
    was written; the latest event first. *)
Definition written_chain (s : RawPortableSnapshot) (bytes pbytes : list Z) : list (event -> Prop) :=
  let pointer := pointer_from_snapshot s in
  [eq (EvWrite (snapshot_path options (revision_id pointer)) bytes (Ok tt));
   eq (EvRead (pending_head_path root (opt_device options)) (Ok (Some pbytes)));
   eq (EvWrite (pending_head_path root (opt_device options)) pbytes (Ok tt));
   eq (EvEncode s password (Ok bytes))].

(** Then exactly those bytes were read back, and decoded to what the pointer says. *)
Definition verified_chain (s : RawPortableSnapshot) (bytes pbytes : list Z) : list (event -> Prop) :=
  let pointer := pointer_from_snapshot s in
  decoded_as pointer bytes ::
  eq (EvRead (snapshot_path options (revision_id pointer)) (Ok (Some bytes))) ::
  written_chain s bytes pbytes.

(** What the remote store confirms before writing a head, and what further holds of
    a published pointer and of a snapshot that is applied. *)
Context (confirms : str -> history -> Prop)
        (may_publish : history -> RemoteSyncPointer -> Prop)
        (may_apply : history -> RawPortableSnapshot -> str -> Prop).

Definition publishable (pre : history) (path : str) (b : list Z) : Prop :=
  exists s bytes pbytes,
    let pointer := pointer_from_snapshot s in
    path = device_head_path root (device_id pointer) /\
    head_to_vec (committed_head pointer) = Ok b /\
    head_to_vec (staging_head pointer) = Ok pbytes /\
    happened (commit_event :: verified_chain s bytes pbytes) pre /\
    may_publish pre pointer.

(** A registration is removed only when the head it announced is confirmed. *)
Definition marker_obsolete (pre : history) (path : str) : Prop :=
  exists pointer b,
    path = pending_head_path root (device_id pointer) /\ head_to_vec (committed_head pointer) = Ok b /\
    happened [eq (EvRead (device_head_path root (device_id pointer)) (Ok (Some b)));
              eq (EvWrite (device_head_path root (device_id pointer)) b (Ok tt))] pre.

Definition guard (pre : history) (e : event) : Prop :=
  match e with
  | EvWrite p b _ => is_head_path root p -> publishable pre p b /\ confirms p pre
  | EvDelete p _ => marker_obsolete pre p \/ collectable pre p
  | EvApply _ _ => False
  | EvApplyChecked s hash _ _ => happened [commit_event] pre /\ may_apply pre s hash
  | EvPersist _ _ => happened [commit_event] pre
  | _ => True
  end.

Lemma guard_quiet h e : quiet e = true -> guard h e.
Proof. by destruct e. Qed.
End guard.

(** The revision is in the name of the file. *)
Lemma take_while_until {A} (f : A -> bool) l x r : forallb f l = true -> f x = false -> take_while f (l ++ x :: r) = l.
Proof.
  induction l as [| y l IH]; cbn; [by intros _ -> |]. intros [Hy Hl]%andb_true_iff Hx. rewrite Hy. f_equal. auto.
Qed.

Lemma take_while_every {A} (f : A -> bool) l : forallb f l = true -> take_while f l = l.
Proof. induction l as [| x l IH]; cbn; [done |]. intros [-> Hl]%andb_true_iff. by rewrite IH. Qed.

Lemma revision_under_prefix prefix name path revision :
  strip_prefix (prefix ++ [47]) path = Some name -> has_byte 47 name = false ->
  snapshot_revision_from_path name = Some revision -> snapshot_revision_from_path path = Some revision.
Proof.
  intros Hp Hn. apply strip_prefix_Some in Hp as ->. unfold snapshot_revision_from_path.
  assert (Hno : forallb (fun b => negb (47 =? b)) (rev name) = true).
  { apply forallb_forall. intros b Hb. apply in_rev in Hb. apply negb_true_iff, not_true_iff_false. intros E.
    apply not_true_iff_false in Hn. apply Hn. apply existsb_exists. by exists b. }
  assert (E : forall p, after_last (Z.eqb 47) (p ++ [47] ++ name) = name).
  { intros p. unfold after_last. rewrite app_assoc, rev_app_distr, rev_app_distr. cbn [rev app].
    rewrite take_while_until by done. apply rev_involutive. }
  assert (E' : after_last (Z.eqb 47) name = name).
  { unfold after_last. rewrite take_while_every by done. apply rev_involutive. }
  by rewrite <- app_assoc, E, E'.
Qed.

Section operations.
Context `{L : SyncLib} (options : LocalCloudSyncOptions) (known : RemoteSyncPointer -> Prop)
        (confirms : str -> history -> Prop) (may_publish : history -> RemoteSyncPointer -> Prop)
        (may_apply : history -> RawPortableSnapshot -> str -> Prop).
Abbreviation G := (guard options known confirms may_publish may_apply).
Context (R : CloudSyncRemote) (HR : RemoteSpec G confirms R) (P : history -> Prop) (S : CloudLocalStore) (HS : StoreSpec G P S).
Abbreviation root := (remote_root options).
Abbreviation password := (master_password options).

(** ** Collection *)

Lemma collectable_clock (given : option RemoteSyncPointer) h h' s clocks :
  (forall p, given = Some p -> commit_head options known h' p) ->
  Forall (committed_clock options given h h') clocks -> causally_collectable s clocks = true ->
  forall c, meta_clock (meta s) = Some c ->
    exists p s' c', commit_head options known h' p /\ authentic options p [] h' s' /\
      meta_clock (meta s') = Some c' /\ strictly_dominates c' c = true.
Proof.
  intros Hg Hall Hc c Ec. unfold causally_collectable in Hc. rewrite Ec in Hc.
  apply existsb_exists in Hc as (c' & Hi & Hd). rewrite Forall_forall in Hall.
  destruct (Hall c' ltac:(by apply list_elem_of_In)) as (p & s' & Hp & Ha & Hm).
  exists p, s', c'. split_and!; [| by apply (authentic_mono _ _ [] h h' h') ; [apply nil_suffix | |] | done | done].
  destruct Hp as [Hp | Hp]; [| by apply Hg]. left. by apply (published_mono _ [] h h' h'); [apply nil_suffix | |].
Qed.

(** Clocks that authorise deletions, at some point of the operation. *)
Definition trusted_clocks (h : history) (clocks : list SnapshotSyncClock) : Prop :=
  forall s, causally_collectable s clocks = true -> forall c, meta_clock (meta s) = Some c ->
    exists p s' c', commit_head options known h p /\ authentic options p [] h s' /\
      meta_clock (meta s') = Some c' /\ strictly_dominates c' c = true.

Lemma trusted_mono h h' clocks : h `suffix_of` h' -> trusted_clocks h clocks -> trusted_clocks h' clocks.
Proof.
  intros Hs Ht s Hc c Ec. destruct (Ht s Hc c Ec) as (p & s' & c' & H1 & H2 & H3). exists p, s', c'.
  split_and!; [by apply (commit_head_mono _ _ h) | by apply (authentic_mono _ _ [] [] h h') | tauto | tauto].
Qed.

Lemma authenticated_clocks_trusted given h Q :
  (forall p, given = Some p -> commit_head options known h p) ->
  (forall h' e, h `suffix_of` h' -> Q h' (Err e)) ->
  (forall h' clocks, h `suffix_of` h' -> trusted_clocks h' clocks -> Q h' (Ok clocks)) ->
  wp G (authenticated_commit_clocks S options R given) h Q.
Proof.
  intros Hg He Hok. eapply wp_sp; [by eapply authenticated_commit_clocks_spec |].
  intros h' [clocks | e] Hs Hr; [| by apply He]. destruct (Hr clocks eq_refl) as [_ Hc].
  apply Hok; [done |]. intros s Hs' c. eapply collectable_clock; [| exact Hc | done].
  intros p Hp. eapply commit_head_mono; [exact Hs | by apply Hg].
Qed.

Definition entry_ok (h : history) (e : SnapshotGcEntry) : Prop :=
  deletable e = true -> proposed options known h (gc_path e) (gc_revision e).

Lemma gc_entry_spec clocks path revision h :
  snapshot_revision_from_path path = Some revision -> trusted_clocks h clocks ->
  wp G (gc_entry S options R clocks path revision) h (fun h' e => entry_ok h' e).
Proof.
  intros Hrev Ht. unfold gc_entry. apply wp_pbind. eapply wp_sp; [apply (remote_read G) |].
  intros h1 [[bytes |] | e] Hs1 [Hq1 Hr]; try done. apply wp_pbind. eapply wp_sp; [apply (store_decode G) |].
  intros h2 [s | e] Hs2 [Hq2 Hd]; [| done]. cbn [wp]. destruct (beq _ _) eqn:Eb; [| done].
  apply beq_true in Eb. unfold entry_ok. cbn [deletable gc_path gc_revision]. intros Hdel.
  apply andb_true_iff in Hdel as [_ Hc]. exists s, bytes. split_and!; [done | done | | |].
  - apply (since_mono [] h h1 h2); [apply nil_suffix | done | by apply Hr].
  - apply (since_mono [] h1 h2 h2); [apply nil_suffix | done | by apply Hd].
  - apply (trusted_mono h h2 clocks); [by transitivity h1 | done | done].
Qed.

Lemma entry_ok_mono h h' e : h `suffix_of` h' -> entry_ok h e -> entry_ok h' e.
Proof. intros Hs He Hd. by eapply proposed_mono; [exact Hs | apply He]. Qed.

Lemma gc_scan_spec protected clocks path h entries :
  trusted_clocks h clocks /\ Forall (entry_ok h) entries ->
  wp G (gc_scan S options R protected clocks path entries) h (fun h' r => forall entries', r = Ok entries' ->
    trusted_clocks h' clocks /\ Forall (entry_ok h') entries').
Proof.
  intros [Ht He]. assert (Hkeep : forall h', h `suffix_of` h' -> trusted_clocks h' clocks /\ Forall (entry_ok h') entries).
  { intros h' Hs. split; [by apply (trusted_mono h) |]. eapply Forall_impl; [exact He |]. intros e. by apply entry_ok_mono. }
  unfold gc_scan. apply wp_let. eapply wp_sp; [apply checkpoint_spec, guard_quiet |].
  intros h1 [u | e] Hs1 _; cbn [on_ok]; [| done].
  destruct (snapshot_revision_from_path path) as [revision |] eqn:Erev; [| intros es [= <-]; by apply Hkeep].
  case_bool_decide; [intros es [= <-]; by apply Hkeep |]. apply wp_pbind.
  eapply wp_mono; [| by apply gc_entry_spec; [done | apply Hkeep]]. intros h2 e Hs2 Hent es [= <-].
  destruct (Hkeep h2) as [Ht2 He2]; [by transitivity h1 |]. split; [done |]. apply Forall_app. split; [done |].
  by apply Forall_singleton.
Qed.

Lemma plan_in entries latest now keep grace path :
  path ∈ plan_snapshot_gc entries latest now keep grace ->
  exists e, e ∈ stable_sort (fun a b => gc_created a <=? gc_created b) entries /\ deletable e = true /\ gc_path e = path.
Proof.
  unfold plan_snapshot_gc. intros H. apply list_elem_of_In, in_map_iff in H as (e & <- & H).
  apply filter_In in H as [Hi Hf]. exists e. apply list_elem_of_In in Hi. split_and!; [done | | done].
  by apply andb_true_iff in Hf as [[? _]%andb_true_iff _].
Qed.

Lemma sort_elem {A} (leb : A -> A -> bool) l x : x ∈ stable_sort leb l <-> x ∈ l.
Proof.
  assert (Hi : forall y k, x ∈ sort_insert leb y k <-> x = y \/ x ∈ k).
  { intros y k. induction k as [| z k IH]; cbn [sort_insert].
    - rewrite list_elem_of_singleton, elem_of_nil. tauto.
    - destruct (leb y z); rewrite !elem_of_cons; [done |]. rewrite IH. tauto. }
  induction l as [| y l IH]; cbn [stable_sort]; [done |]. rewrite Hi, IH, elem_of_cons. done.
Qed.

(** The last reading of the references before a deletion. *)
Lemma delete_allowed h h1 h2 h3 path revision o :
  h `suffix_of` h3 -> proposed options known h path revision -> quiet_since h1 h2 -> quiet_since h2 h3 ->
  unreferenced root h1 h2 revision -> latest_read root h1 h2 o -> (forall p, o = Some p -> revision_id p <> revision) ->
  forall r, G h3 (EvDelete path r).
Proof.
  intros Hs Hp Hq1 Hq2 Hu Hl Ho r. right. eapply (proposed_collectable _ _ h h1 h3); [done | done | | | | exact Ho].
  - by eapply quiet_since_trans.
  - apply (unreferenced_mono _ h1 h1 h2 h3); [done | by apply quiet_since_suffix | done].
  - apply (latest_read_mono _ h1 h1 h2 h3); [done | by apply quiet_since_suffix | done].
Qed.

Lemma gc_delete_spec h path revision s :
  proposed options known h path revision ->
  harmless_from G (gc_delete S options R path s) h.
Proof.
  intros Hp. destruct s as [protected first_error]. unfold gc_delete.
  eapply rd_wp; [by eapply protected_revisions_spec | done |]. intros h1 refs Hq1 Hrefs.
  eapply rd_wp; [by eapply load_sync_pointer_spec | done |]. intros h2 o Hq2 Hl.
  assert (Hrev : snapshot_revision_from_path path = Some revision) by by destruct Hp as (? & ? & ? & _).
  rewrite Hrev. case_bool_decide as Hin; [done |]. rewrite !not_elem_of_union in Hin. destruct Hin as [[_ Hn] Ho].
  apply wp_pbind. apply (remote_delete G path); [| by intros].
  intros h3 r Hq3 _. eapply (delete_allowed h h h2 h3); [| done | | exact Hq3 | | |].
  - etransitivity; [by apply quiet_since_suffix | etransitivity; by apply quiet_since_suffix].
  - by eapply quiet_since_trans.
  - apply (unreferenced_mono _ h h h1 h2); [done | by apply quiet_since_suffix | by apply Hrefs].
  - by apply (latest_read_mono _ h h1 h2 h2); [apply quiet_since_suffix | |].
  - intros p -> E. apply Ho. cbn. rewrite E. set_solver.
Qed.

(** ** Room for a snapshot *)

Definition reserve_inv (clocks : list SnapshotSyncClock) (h : history) (cs : list (Z * str * str)) : Prop :=
  trusted_clocks h clocks /\ Forall (fun c => proposed options known h (snd (fst c)) (snd c)) cs.

Lemma reserve_inv_mono clocks h h' cs : h `suffix_of` h' -> reserve_inv clocks h cs -> reserve_inv clocks h' cs.
Proof.
  intros Hs [Ht He]. split; [by apply (trusted_mono h) |]. eapply Forall_impl; [exact He |].
  intros c. by apply proposed_mono.
Qed.

Lemma reserve_scan_spec prefix0 protected clocks path h cs :
  reserve_inv clocks h cs ->
  wp G (reserve_scan S R options (prefix0 ++ [47]) protected clocks path cs) h
    (fun h' r => forall cs', r = Ok cs' -> reserve_inv clocks h' cs').
Proof.
  intros HI.
  assert (Hskip : forall h', h `suffix_of` h' ->
    wp G (ok cs) h' (fun h' r => forall cs', r = Ok cs' -> reserve_inv clocks h' cs')).
  { intros h' Hs cs' [= <-]. by apply (reserve_inv_mono clocks h). }
  unfold reserve_scan. destruct (strip_prefix (prefix0 ++ [47]) path) as [name |] eqn:Epre; [| by apply Hskip].
  destruct (has_byte 47 name) eqn:Eslash; [by apply Hskip |].
  destruct (snapshot_revision_from_path name) as [revision |] eqn:Erev; [| by apply Hskip].
  case_bool_decide; [by apply Hskip |]. apply wp_let. eapply wp_sp; [apply (remote_read G) |].
  intros h1 [[bytes |] | e] Hs1 [_ Hr]; cbn [on_ok]; [| by apply Hskip | done].
  apply wp_pbind. eapply wp_sp; [apply (store_decode G) |].
  intros h2 [s | e] Hs2 [_ Hd]; [| apply Hskip; by transitivity h1].
  destruct (_ && _) eqn:E; [| apply Hskip; by transitivity h1].
  apply andb_true_iff in E as [[Eb _]%andb_true_iff Hc]. apply beq_true in Eb.
  intros cs' [= <-]. destruct (reserve_inv_mono clocks h h2 cs) as [Ht2 He2]; [by transitivity h1 | done |].
  split; [done |]. apply Forall_app. split; [done |]. apply Forall_singleton. cbn [fst snd]. exists s, bytes. split_and!; [| done | | |].
  - by apply (revision_under_prefix prefix0 name path).
  - apply (since_mono [] h h1 h2); [apply nil_suffix | done | by apply Hr].
  - apply (since_mono [] h1 h2 h2); [apply nil_suffix | done | by apply Hd].
  - by apply Ht2.
Qed.

Lemma reserve_delete_spec cs protected freed needed h :
  Forall (fun c => proposed options known h (snd (fst c)) (snd c)) cs ->
  harmless_from G (reserve_delete S R options cs protected freed needed) h.
Proof.
  revert protected freed h. induction cs as [| [[t path] revision] cs IH]; intros protected freed h Hcs; [done |].
  cbn [reserve_delete]. apply Forall_cons in Hcs as [Hp Hcs]. cbn [fst snd] in Hp.
  assert (Hnext : forall h' protected freed, h `suffix_of` h' -> harmless_from G (reserve_delete S R options cs protected freed needed) h').
  { intros h' pr fr Hs. apply IH. eapply Forall_impl; [exact Hcs |]. intros c. by apply proposed_mono. }
  eapply rd_wp; [by eapply load_sync_pointer_spec | done |]. intros h1 o Hq1 Hl.
  eapply rd_wp; [by eapply protected_revisions_spec | done |]. intros h2 refs Hq2 Hrefs.
  assert (Hs2 : h `suffix_of` h2) by (transitivity h1; by apply quiet_since_suffix).
  case_bool_decide as Hin; [by apply Hnext |]. rewrite !not_elem_of_union in Hin. destruct Hin as [[_ Ho] Hn].
  apply wp_let. apply (remote_delete G path).
  - intros h3 r Hq3 _. eapply (delete_allowed h h h2 h3); [| done | | exact Hq3 | | |].
    + transitivity h2; [done | by apply quiet_since_suffix].
    + by eapply quiet_since_trans.
    + by apply (unreferenced_mono _ h h1 h2 h2); [apply quiet_since_suffix | | apply Hrefs].
    + by apply (latest_read_mono _ h h h1 h2); [| apply quiet_since_suffix |].
    + intros p -> E. apply Ho. cbn. rewrite E. set_solver.
  - intros h3 [u | e] Hs3 _; cbn [on_ok]; [| done]. apply wp_let. eapply wp_sp; [apply (remote_read G) |].
    intros h4 [ro | e] Hs4 _; cbn [on_ok]; [| done]. destruct (_ <=? _); [done |].
    apply Hnext. transitivity h2; [done |]. by transitivity h3.
Qed.

Lemma current_revision_spec : harmless G (current_revision S R options).
Proof.
  unfold current_revision. apply harmless_let; [by eapply asks_harmless, (remote_read G) |].
  intros [bytes |]; [| done]. apply harmless_bind; [by eapply asks_harmless, (store_decode G) |]. by intros [? | ?].
Qed.

Lemma reserve_spec expected target h :
  (forall p, expected = Some p -> commit_head options known h p) ->
  harmless_from G (reserve_snapshot_capacity S R options expected target) h.
Proof.
  intros Hexp. unfold reserve_snapshot_capacity. apply wp_let. eapply wp_sp; [apply (remote_capacity G) |].
  intros h1 [[cap |] | e] Hs1 _; cbn [on_ok]; [| done | done]. apply wp_let.
  apply (wp_for_each_in G (fun _ _ => True)); [| done |].
  { intros x h' z _ _ _. apply wp_let. eapply wp_sp; [apply (remote_read G) |]. by intros h2 [[? |] | ?]. }
  intros h2 [additional | e] Hs2 _; cbn [on_ok]; [| done]. destruct (_ =? 0); [done |].
  eapply rd_wp; [by eapply protected_revisions_spec | done |]. intros h3 refs Hq3 _.
  apply quiet_since_suffix in Hq3. apply wp_let. apply authenticated_clocks_trusted.
  { intros p Hp. eapply commit_head_mono; [| by apply Hexp]. transitivity h1; [done |]. by transitivity h2. }
  { done. }
  intros h4 clocks Hs4 Ht. cbn [on_ok]. apply wp_let. eapply wp_sp; [apply current_revision_spec |].
  intros h5 [cur | e] Hs5 _; cbn [on_ok]; [| done]. apply wp_let. eapply wp_sp; [apply (remote_list G) |].
  intros h6 [paths | e] Hs6 _; cbn [on_ok]; [| done]. apply wp_let.
  apply (wp_for_each_in G (reserve_inv clocks)).
  - intros x h' cs _ _. apply reserve_scan_spec.
  - split; [| done]. apply (trusted_mono h4); [by transitivity h5 | done].
  - intros h7 [cs | e] Hs7 Hr; cbn [on_ok]; [| done]. apply reserve_delete_spec.
    destruct (Hr cs eq_refl) as [_ Hcs]. rewrite Forall_forall in *. intros c Hc. apply Hcs. by apply sort_elem in Hc.
Qed.

(** ** Records *)

Lemma verify_record_spec path bytes n :
  sp G (verify_record R path bytes n) (fun h h' r =>
    forall u, r = Ok u -> since h h' (EvRead path (Ok (Some bytes)))).
Proof.
  induction n as [| n IH]; intros h; cbn [verify_record]; [done |].
  apply wp_let. eapply wp_sp; [apply (remote_read G) |]. intros h1 [o | e] Hs1 [_ Hr]; cbn [on_ok]; [| done].
  case_bool_decide as E; [intros u _; subst; by apply Hr |].
  eapply wp_sp; [apply IH |]. intros h2 r Hs2 Hv u Hu. apply (since_mono h h1 h2 h2); [done | done | by apply (Hv u)].
Qed.

(** A record is written and read back. *)
Lemma write_record_spec path rec h Q :
  (forall h' r bytes, quiet_since h h' -> confirms path h' -> head_to_vec rec = Ok bytes -> G h' (EvWrite path bytes r)) ->
  (forall h' e, h `suffix_of` h' -> Q h' (Err e)) ->
  (forall h' bytes, h `suffix_of` h' -> head_to_vec rec = Ok bytes ->
     (forall ps, happened ps h ->
        happened (eq (EvRead path (Ok (Some bytes))) :: eq (EvWrite path bytes (Ok tt)) :: ps) h') -> Q h' (Ok tt)) ->
  wp G (write_record R path rec) h Q.
Proof.
  intros HG He Hok. unfold write_record. apply wp_let, wp_lift.
  destruct (head_to_vec rec) as [bytes |] eqn:Eb; cbn [map_err on_ok]; [| by apply He].
  destruct (_ <? _); [by apply He |]. apply wp_let. apply (remote_write G path bytes).
  - intros h' r Hq Hc. by apply HG.
  - intros h1 [[] | e] Hs1 Hw; cbn [on_ok]; [| by apply He]. specialize (Hw tt eq_refl).
    eapply wp_sp; [apply verify_record_spec |]. intros h2 [[] | e] Hs2 Hv; [| apply He; by transitivity h1].
    apply (Hok h2 bytes); [by transitivity h1 | done |]. intros ps Hps.
    eapply happened_since; [| by apply (Hv tt) | done]. by eapply happened_since.
Qed.

Lemma stage_spec pointer h Q :
  (forall h' e, h `suffix_of` h' -> Q h' (Err e)) ->
  (forall h' bytes, h `suffix_of` h' -> head_to_vec (staging_head options pointer) = Ok bytes ->
     (forall ps, happened ps h ->
        happened (eq (EvRead (pending_head_path root (opt_device options)) (Ok (Some bytes))) ::
                  eq (EvWrite (pending_head_path root (opt_device options)) bytes (Ok tt)) :: ps) h') -> Q h' (Ok tt)) ->
  wp G (stage R root (opt_device options) (revision_id pointer)) h Q.
Proof.
  intros He Hok. apply write_record_spec; [| done | done].
  intros h' r bytes _ _ _ Hh. by apply pending_not_head in Hh.
Qed.

(** ** Uploads *)

Lemma verify_written_spec pointer bytes :
  sp G (verify_written_snapshot S R options pointer bytes) (fun h h' r => forall u, r = Ok u ->
    forall ps, happened ps h ->
      happened (decoded_as options pointer bytes ::
                eq (EvRead (snapshot_path options (revision_id pointer)) (Ok (Some bytes))) :: ps) h').
Proof.
  intros h. unfold verify_written_snapshot. apply wp_let. eapply wp_sp; [apply (remote_read G) |].
  intros h1 [[b |] | e] Hs1 [_ Hr]; cbn [on_ok]; [| done | done].
  destruct (beq b bytes) eqn:E; cbn [negb]; [| done]. apply beq_true in E as ->.
  eapply rd_wp; [by eapply decode_and_validate_spec | done |]. intros h2 s Hq (Hv & Hd & _) u _ ps Hps.
  eapply happened_since; [| exact Hd | by exists s]. eapply happened_since; [exact Hps | by apply Hr | done].
Qed.

Definition encoded (s : RawPortableSnapshot) (bytes : list Z) (h : history) : Prop :=
  happened [eq (EvEncode s password (Ok bytes))] h.
Definition written (s : RawPortableSnapshot) (bytes : list Z) (h : history) : Prop :=
  exists pb, head_to_vec (staging_head options (pointer_from_snapshot s)) = Ok pb /\
    happened (written_chain options s bytes pb) h.
Definition verified (s : RawPortableSnapshot) (bytes : list Z) (h : history) : Prop :=
  exists pb, head_to_vec (staging_head options (pointer_from_snapshot s)) = Ok pb /\
    happened (verified_chain options s bytes pb) h.

Lemma written_mono s bytes h h' : h `suffix_of` h' -> written s bytes h -> written s bytes h'.
Proof. intros Hs (pb & E & H). exists pb. split; [done | by apply (happened_mono _ h)]. Qed.
Lemma verified_mono s bytes h h' : h `suffix_of` h' -> verified s bytes h -> verified s bytes h'.
Proof. intros Hs (pb & E & H). exists pb. split; [done | by apply (happened_mono _ h)]. Qed.

(** Verification of what was written. *)
Lemma verify_upload_spec stg s pointer bytes h Q :
  (stg = true -> pointer = pointer_from_snapshot s /\ written s bytes h) ->
  (forall h' e, h `suffix_of` h' -> Q h' (Err e)) ->
  (forall h', h `suffix_of` h' -> (stg = true -> verified s bytes h') -> Q h' (Ok tt)) ->
  wp G (verify_written_snapshot S R options pointer bytes) h Q.
Proof.
  intros Hw He Hok. eapply wp_sp; [apply verify_written_spec |]. intros h' [[] | e] Hs Hv; [| by apply He].
  apply Hok; [done |]. intros Hst. destruct (Hw Hst) as [-> (pb & E & Hp)]. exists pb. split; [done |].
  by apply (Hv tt).
Qed.

(** Room, registration and the write itself. *)
Lemma prepare_upload_spec {A} stg s pointer expected bytes (k : res unit -> M A) h Q :
  (forall p, expected = Some p -> commit_head options known h p) ->
  (stg = true -> pointer = pointer_from_snapshot s /\ encoded s bytes h) ->
  (forall h' r, h `suffix_of` h' -> (r = Ok tt -> stg = true -> written s bytes h') -> wp G (k r) h' Q) ->
  (forall h' e, h `suffix_of` h' -> Q h' (Err e)) ->
  wp G (let! _ := prepare_upload S R options pointer expected stg in
        let~ w := write R (snapshot_path options (revision_id pointer)) bytes in k w) h Q.
Proof.
  intros Hexp Henc HQ He.
  assert (Hwrite : forall h1, h `suffix_of` h1 ->
    (stg = true -> exists pb, head_to_vec (staging_head options (pointer_from_snapshot s)) = Ok pb /\
       happened (tail (written_chain options s bytes pb)) h1) ->
    wp G (let~ w := write R (snapshot_path options (revision_id pointer)) bytes in k w) h1 Q).
  { intros h1 Hs1 Hst. apply wp_pbind. apply (remote_write G).
    - intros h2 r _ _ Hh. exfalso. revert Hh. apply snapshot_not_head.
    - intros h2 r Hs2 Hr. apply HQ; [by transitivity h1 |]. intros -> Hstg.
      destruct (Hst Hstg) as (pb & E & Hp). exists pb. split; [done |]. destruct (Henc Hstg) as [-> _].
      eapply happened_since; [exact Hp | by apply Hr | done]. }
  apply wp_let. unfold prepare_upload. apply wp_let. eapply wp_mono; [| by apply reserve_spec].
  intros h1 [u | e] Hs1 _; cbn [on_ok]; [| by apply He]. destruct stg.
  - destruct (Henc eq_refl) as [-> Hen]. apply stage_spec.
    + intros h2 e Hs2. cbn [on_ok]. apply He. by transitivity h1.
    + intros h2 pb Hs2 E Hp. cbn [on_ok]. apply Hwrite; [by transitivity h1 |]. intros _. exists pb.
      split; [done |]. apply Hp. by apply (happened_mono _ h).
  - cbn [wp ok on_ok]. by apply Hwrite.
Qed.

Lemma upload_attempts_spec stg s pointer expected bytes cl att n : forall first h Q,
  (forall p, expected = Some p -> commit_head options known h p) ->
  (stg = true -> pointer = pointer_from_snapshot s /\ encoded s bytes h) ->
  (cl || first = false -> stg = true -> written s bytes h) ->
  (forall h' e, h `suffix_of` h' -> Q h' (Err e)) ->
  (forall h', h `suffix_of` h' -> (stg = true -> verified s bytes h') -> Q h' (Ok tt)) ->
  wp G (upload_attempts S R options cl stg att pointer expected bytes first n) h Q.
Proof.
  induction n as [| n IH]; intros first h Q Hexp Henc Hw He Hok; cbn [upload_attempts]; [by apply He |].
  set (next := upload_attempts S R options cl stg att pointer expected bytes false n).
  assert (Hnext : forall h', h `suffix_of` h' -> (cl = false -> stg = true -> written s bytes h') -> wp G next h' Q).
  { intros h' Hs Hw'. apply IH.
    - intros p Hp. eapply commit_head_mono; [exact Hs | by apply Hexp].
    - intros Hst. destruct (Henc Hst) as [-> H]. split; [done | by apply (happened_mono _ h)].
    - rewrite orb_false_r. apply Hw'.
    - intros h2 e Hs2. apply He. by transitivity h'.
    - intros h2 Hs2. apply Hok. by transitivity h'. }
  match goal with |- context [pbind (verify_written_snapshot ?a ?b ?c ?d ?e) ?k] =>
    set (verify := pbind (verify_written_snapshot a b c d e) k) end.
  assert (Hverify : forall h', h `suffix_of` h' -> (stg = true -> written s bytes h') -> wp G verify h' Q).
  { intros h' Hs Hw'. apply wp_pbind. apply (verify_upload_spec stg s).
    - intros Hst. split; [by apply Henc | by apply Hw'].
    - intros h2 e Hs2. destruct (_ || negb _); [apply He; by transitivity h' |]. apply Hnext; [by transitivity h' |].
      intros _ Hst. apply (written_mono s bytes h'); [done | by apply Hw'].
    - intros h2 Hs2 Hv. apply Hok; [by transitivity h' | done]. }
  destruct (cl || first) eqn:Ecf; [| apply Hverify; [done | by apply Hw]].
  apply (prepare_upload_spec stg s); [done | done | | done].
  intros h1 [[] | e] Hs1 Hw1; [apply Hverify; [done | by apply Hw1] |].
  destruct (cl && _) eqn:E; [| by apply He]. apply Hnext; [done |]. intros ->. done.
Qed.

Lemma upload_verified_spec stg s pointer expected bytes h Q :
  (forall p, expected = Some p -> commit_head options known h p) ->
  (stg = true -> pointer = pointer_from_snapshot s /\ encoded s bytes h) ->
  (forall h' e, h `suffix_of` h' -> Q h' (Err e)) ->
  (forall h', h `suffix_of` h' -> (stg = true -> verified s bytes h') -> Q h' (Ok tt)) ->
  wp G (upload_verified_snapshot S R options pointer expected bytes stg) h Q.
Proof.
  intros Hexp Henc He Hok. unfold upload_verified_snapshot. apply wp_let. eapply wp_sp; [apply (remote_capacity G) |].
  intros h1 [cap | e] Hs1 _; cbn [on_ok]; [| by apply He]. apply (upload_attempts_spec stg s).
  - intros p Hp. eapply commit_head_mono; [exact Hs1 | by apply Hexp].
  - intros Hst. destruct (Henc Hst) as [-> H]. split; [done | by apply (happened_mono _ h)].
  - by rewrite orb_true_r.
  - intros h2 e Hs2. apply He. by transitivity h1.
  - intros h2 Hs2. apply Hok. by transitivity h1.
Qed.

Lemma upload_sync_snapshot_spec s expected h Q :
  (forall p, expected = Some p -> commit_head options known h p) ->
  (forall h' e, h `suffix_of` h' -> Q h' (Err e)) ->
  (forall h' bytes, h `suffix_of` h' -> verified s bytes h' -> Q h' (Ok bytes)) ->
  wp G (upload_sync_snapshot S R options s expected) h Q.
Proof.
  intros Hexp He Hok. unfold upload_sync_snapshot. apply wp_let. eapply wp_sp; [apply (store_encode G) |].
  intros h1 [bytes | e] Hs1 [_ Hr]; cbn [on_ok]; [| by apply He]. apply wp_let. apply (upload_verified_spec true s).
  - intros p Hp. eapply commit_head_mono; [exact Hs1 | by apply Hexp].
  - intros _. split; [done |]. apply (happened_since _ [] h h1 (EvEncode s password (Ok bytes))); [done | by apply Hr | done].
  - intros h2 e Hs2. cbn [on_ok]. apply He. by transitivity h1.
  - intros h2 Hs2 Hv. cbn [on_ok]. apply Hok; [by transitivity h1 | by apply Hv].
Qed.

(** ** Publication *)

(** The snapshot is verified, the commit has begun, and the pointer may be
    published from now on. *)
Definition ready (s : RawPortableSnapshot) (h : history) : Prop :=
  exists bytes pb, head_to_vec (staging_head options (pointer_from_snapshot s)) = Ok pb /\
    happened (commit_event :: verified_chain options s bytes pb) h /\
    forall h', h `suffix_of` h' -> may_publish h' (pointer_from_snapshot s).

Lemma commit_ready s bytes h Q :
  verified s bytes h -> (forall h', h `suffix_of` h' -> may_publish h' (pointer_from_snapshot s)) ->
  (forall h' e, h `suffix_of` h' -> Q h' (Err e)) ->
  (forall h', h `suffix_of` h' -> ready s h' -> Q h' (Ok tt)) ->
  wp G begin_commit h Q.
Proof.
  intros (pb & E & Hv) Hp He Hok. eapply wp_sp; [apply begin_commit_spec, guard_quiet |].
  intros h' [[] | e] Hs [_ Hc]; [| by apply He]. apply Hok; [done |]. exists bytes, pb. split_and!; [done | |].
  - by apply (Hc tt).
  - intros h2 Hs2. apply Hp. by transitivity h'.
Qed.

Lemma publish_spec s h : ready s h -> harmless_from G (publish R root (pointer_from_snapshot s)) h.
Proof.
  intros (bytes & pb & E & Hc & Hp). unfold publish. apply wp_let. apply write_record_spec; [| done |].
  - intros h' r b Hq Hconf Eb _. split; [| done]. apply quiet_since_suffix in Hq. exists s, bytes, pb. split_and!; [done.. | |].
    + by apply (happened_mono _ h).
    + by apply Hp.
  - intros h1 b Hs1 Eb Hw. cbn [on_ok]. apply wp_pbind. apply (remote_delete G); [| done].
    intros h2 r Hq2 _. left. exists (pointer_from_snapshot s), b. split_and!; [done | done |].
    eapply happened_mono; [by apply quiet_since_suffix | by apply Hw].
Qed.

Lemma load_pointer_harmless : harmless G (load_sync_pointer_from_remote S R root).
Proof. by eapply rd_harmless, load_sync_pointer_spec. Qed.

Lemma write_harmless p b : ~ is_head_path root p -> harmless G (write R p b).
Proof. intros Hp h. apply (remote_write G p b); [| done]. by intros h' r _ _ Hh. Qed.

Lemma write_pointer_attempts_spec cl att pointer bytes first n :
  harmless G (write_pointer_attempts S R options cl att pointer (remote_path root SYNC_LATEST_FILE) bytes first n).
Proof.
  revert first. induction n as [| n IH]; intros first; cbn [write_pointer_attempts]; [done |].
  apply harmless_let; [destruct (_ || _); [by apply write_harmless, latest_not_head | done] |]. intros _.
  apply harmless_let; [apply load_pointer_harmless |]. intros o. by case_bool_decide.
Qed.

Lemma write_sync_pointer_spec pointer : harmless G (write_sync_pointer S R options pointer).
Proof.
  unfold write_sync_pointer. apply harmless_let; [by eapply asks_harmless, (store_encode_pointer G) |]. intros bytes.
  apply harmless_let; [by eapply asks_harmless, (remote_capacity G) |]. intros cap. apply write_pointer_attempts_spec.
Qed.

Lemma publish_all_spec s uploaded h :
  ready s h -> harmless_from G (publish_all S R options (pointer_from_snapshot s) uploaded) h.
Proof.
  intros Hr. unfold publish_all. apply wp_let. eapply wp_mono; [| by apply publish_spec].
  intros h1 [u | e] Hs1 _; cbn [on_ok]; [| done].
  apply (harmless_bind G (write_sync_pointer S R options (pointer_from_snapshot s))); [apply write_sync_pointer_spec |].
  intros _. apply harmless_bind; [by apply write_harmless, current_not_head | done].
Qed.

Lemma ensure_unchanged_spec expected : harmless G (ensure_remote_head_unchanged S R options expected).
Proof.
  unfold ensure_remote_head_unchanged. apply harmless_let; [apply load_pointer_harmless |]. intros o. by case_match.
Qed.

(** ** Resolution of a head *)

(** The snapshot that a head resolved to: authenticated under its pointer, or the
    current copy that the pointer describes. *)
Definition resolved (pointer : RemoteSyncPointer) (h h' : history) (s : RawPortableSnapshot) : Prop :=
  validate_snapshot_against_pointer pointer s = Ok tt /\
  (authentic options pointer h h' s \/ current_read options h h' s).

Definition resolution_snapshot (r : RemoteSnapshotResolution) : option RawPortableSnapshot :=
  match r with Current s | LegacyMigrated s => Some s | Inconsistent _ _ _ => None end.

Lemma resolve_spec pointer h Q :
  commit_head options known h pointer ->
  (forall h' e, h `suffix_of` h' -> Q h' (Err e)) ->
  (forall h' r, h `suffix_of` h' -> (forall s, resolution_snapshot r = Some s -> resolved pointer h h' s) -> Q h' (Ok r)) ->
  wp G (resolve_remote_snapshot S R options pointer) h Q.
Proof.
  intros Hk He Hok. unfold resolve_remote_snapshot. apply wp_pbind.
  eapply wp_sp; [by eapply read_snapshot_for_pointer_spec |]. intros h1 [s | e] Hs1 Hr.
  { destruct (Hr s eq_refl) as [_ Ha]. apply Hok; [done |]. intros s' [= <-]. split; [by destruct Ha | by left]. }
  destruct (recoverable_head e); [| by apply He]. unfold resolve_from_current. apply wp_pbind.
  eapply wp_sp; [by eapply read_current_spec |]. intros h2 [[cur |] | e2] Hs2 Hc.
  2:{ apply Hok; [by transitivity h1 | done]. }
  2:{ apply wp_lift. destruct (current_failure _ _ e2) as [r |] eqn:E; [| apply He; by transitivity h1].
      apply Hok; [by transitivity h1 |]. intros s Hs. by destruct e2; try done; injection E as <-. }
  destruct (Hc _ eq_refl) as [_ Hcur]. specialize (Hcur cur eq_refl).
  destruct (validate_snapshot_against_pointer pointer cur) as [[] |] eqn:V; cbn [is_ok].
  2:{ apply Hok; [by transitivity h1 | done]. }
  apply wp_let. eapply wp_sp; [apply (remote_read G) |]. intros h3 [o | e3] Hs3 _; cbn [on_ok].
  2:{ apply He. transitivity h1; [done |]. by transitivity h2. }
  assert (Hs : h `suffix_of` h3) by (transitivity h1; [done | by transitivity h2]).
  apply wp_let, wp_lift. destruct o as [b |]; cbn [ok_or on_ok]; [| by apply He].
  apply wp_let. apply (upload_verified_spec false cur); [| done | intros h4 e4 Hs4; cbn [on_ok]; apply He; by transitivity h3 |].
  { intros p [= <-]. by apply (commit_head_mono _ _ h). }
  intros h4 Hs4 _. cbn [on_ok]. apply wp_let. eapply wp_sp; [by eapply read_snapshot_for_pointer_spec |].
  intros h5 [s5 | e5] Hs5 _; cbn [on_ok]; [| apply He; transitivity h3; [done | by transitivity h4]].
  apply Hok; [transitivity h3; [done | by transitivity h4] |]. intros s [= <-]. split; [done |]. right.
  destruct Hcur as (bytes & Hb1 & Hb2). exists bytes.
  split; (eapply since_mono; [exact Hs1 | | eassumption]; transitivity h3; [done | by transitivity h4]).
Qed.
End operations.
