(* ===== verification/CloudSync.v ===== *)
(** The operations of cloud_sync/mod.rs: deciding what a check found, pushing,
    pulling and recovering; the receipts of authenticated snapshots
    (cloud_sync/cache.rs); and the explicit resolution of conflicts
    (cloud_sync/conflict.rs). *)
From stdpp Require Import base list numbers strings gmap.
From Stdlib Require Import ZArith Lia.
From S2P Require Import Prelude Text SyncTypes SyncEffects SyncHeads SyncProtocol SyncUpload.

Inductive CloudRemoteCheckDecision := UpToDate | LocalChanged | AutoPull | RemoteAvailable | DecideConflict.
#[global] Instance decision_eq_dec : EqDecision CloudRemoteCheckDecision.
Proof. solve_decision. Defined.

Inductive CloudSyncOutcome := OutUpToDate | OutUploaded | OutDownloaded | OutRecovered.

Record CloudSyncStatus := Status {
  status_enabled : bool;
  status_provider : str;
  status_state : str;
  status_message : str;
  current_operation : option str;
  status_checked : option Z;
  status_synced : option Z;
  status_conflict : option CloudConflictPreview
}.

Record CloudSyncResult := SyncResult {
  result_state : CloudSyncState;
  result_status : CloudSyncStatus;
  result_pointer : option RemoteSyncPointer;
  result_backup : option CloudSyncBackupInfo;
  result_outcome : CloudSyncOutcome
}.

Record PreparedSync := Prepared {
  prepared_local : RawPortableSnapshot;
  prepared_heads : RemoteHeads;
  prepared_remote : option RawPortableSnapshot
}.

Record CloudSyncCheck := Checked {
  check_decision : CloudRemoteCheckDecision;
  check_pointer : option RemoteSyncPointer;
  check_state : CloudSyncState;
  check_prepared : PreparedSync
}.

(** ** Updates of the baseline *)

Definition set_synced (payload content : str) (clock : option SnapshotSyncClock) (revision : str)
    (s : CloudSyncState) : CloudSyncState :=
  State (state_device s) (Some payload) (Some content) clock (Some revision) (last_checked_at_ms s)
    (last_synced_at_ms s) (last_validated_remote_revision s) (last_full_validation_at_ms s) (last_gc_attempt_at_ms s).
Definition set_applied (clock : option SnapshotSyncClock) (revision : str) (s : CloudSyncState) : CloudSyncState :=
  State (state_device s) (last_synced_payload_hash s) (last_synced_content_hash s) clock (Some revision)
    (last_checked_at_ms s) (last_synced_at_ms s) (last_validated_remote_revision s) (last_full_validation_at_ms s)
    (last_gc_attempt_at_ms s).
Definition set_checked (t : Z) (s : CloudSyncState) : CloudSyncState :=
  State (state_device s) (last_synced_payload_hash s) (last_synced_content_hash s) (last_synced_clock s)
    (last_applied_remote_revision s) (Some t) (last_synced_at_ms s) (last_validated_remote_revision s)
    (last_full_validation_at_ms s) (last_gc_attempt_at_ms s).
Definition set_synced_at (t : Z) (s : CloudSyncState) : CloudSyncState :=
  State (state_device s) (last_synced_payload_hash s) (last_synced_content_hash s) (last_synced_clock s)
    (last_applied_remote_revision s) (last_checked_at_ms s) (Some t) (last_validated_remote_revision s)
    (last_full_validation_at_ms s) (last_gc_attempt_at_ms s).
Definition set_validated (revision : str) (t : option Z) (s : CloudSyncState) : CloudSyncState :=
  State (state_device s) (last_synced_payload_hash s) (last_synced_content_hash s) (last_synced_clock s)
    (last_applied_remote_revision s) (last_checked_at_ms s) (last_synced_at_ms s) (Some revision) t
    (last_gc_attempt_at_ms s).

Definition normalized_state (state : CloudSyncState) (device : str) : CloudSyncState :=
  match trim (state_device state) with
  | [] => State device (last_synced_payload_hash state) (last_synced_content_hash state) (last_synced_clock state)
            (last_applied_remote_revision state) (last_checked_at_ms state) (last_synced_at_ms state)
            (last_validated_remote_revision state) (last_full_validation_at_ms state) (last_gc_attempt_at_ms state)
  | _ => state
  end.

Definition sync_result (state : CloudSyncState) (provider message : str) (pointer : option RemoteSyncPointer)
    (backup : option CloudSyncBackupInfo) (outcome : CloudSyncOutcome) : CloudSyncResult :=
  SyncResult state
    (Status true provider (bs "idle") message None (last_checked_at_ms state) (last_synced_at_ms state) None)
    pointer backup outcome.

(** ** What a check found *)

(** [Option::is_none_or(|x| x != y)]. *)
Definition is_not (o : option str) (y : str) : bool :=
  match o with None => true | Some x => negb (beq x y) end.

Definition decide_cloud_remote_check (state : CloudSyncState) (local_hash : str) (remote : RemoteSyncPointer)
    (allow_auto_pull : bool) : CloudRemoteCheckDecision :=
  if beq (payload_hash remote) local_hash then UpToDate
  else
    match is_not (last_applied_remote_revision state) (revision_id remote),
          is_not (last_synced_payload_hash state) local_hash, allow_auto_pull with
    | true, true, _ => DecideConflict
    | true, false, true => AutoPull
    | true, false, false => RemoteAvailable
    | false, true, _ => LocalChanged
    | false, false, _ => UpToDate
    end.

Definition local_content_changed (state : CloudSyncState) (content_hash : str) : bool :=
  negb (bool_decide (last_synced_content_hash state = Some content_hash)).

Definition remote_precedes_baseline (state : CloudSyncState) (pointer : RemoteSyncPointer) : bool :=
  match last_synced_clock state, sync_clock pointer with
  | Some baseline, Some remote => strictly_dominates baseline remote
  | Some baseline, None => bool_decide (legacy_revision baseline = Some (revision_id pointer))
  | _, _ => false
  end.

Definition remote_concurrent_with_baseline (state : CloudSyncState) (pointer : RemoteSyncPointer) : bool :=
  if bool_decide (last_applied_remote_revision state = Some (revision_id pointer)) then false
  else
    match last_synced_clock state, sync_clock pointer with
    | Some baseline, Some remote => negb (strictly_dominates baseline remote) && negb (strictly_dominates remote baseline)
    | Some _, None => negb (remote_precedes_baseline state pointer)
    | _, _ => false
    end.

Definition validate_remote_baseline (state : CloudSyncState) (pointer : RemoteSyncPointer)
    (options : LocalCloudSyncOptions) (provider local_hash : str) : M unit :=
  if remote_precedes_baseline state pointer then fail StaleRemoteRevision
  else if remote_concurrent_with_baseline state pointer then
    let~ preview := conflict_preview options provider local_hash pointer in
    fail (Conflict preview)
  else ok tt.

(** The rule shared by the full and the cached check; [local_user] and
    [remote_user] say whether the snapshots hold user content. *)
Definition decide_contents (state : CloudSyncState) (local_hash : str) (local_user remote_user : bool)
    (pointer : RemoteSyncPointer) (allow_auto_pull : bool) : CloudRemoteCheckDecision :=
  let local_changed := local_content_changed state local_hash in
  let remote_changed := negb (bool_decide (last_applied_remote_revision state = Some (revision_id pointer))) in
  if remote_changed && local_changed && negb local_user then
    (if allow_auto_pull then AutoPull else RemoteAvailable)
  else if remote_changed && local_changed && negb remote_user then LocalChanged
  else
    match remote_changed, local_changed, allow_auto_pull with
    | true, true, _ => DecideConflict
    | true, false, true => AutoPull
    | true, false, false => RemoteAvailable
    | false, true, _ => LocalChanged
    | false, false, _ => UpToDate
    end.

Section cloud_sync.
Context `{L : SyncLib}.

Definition content_hash_of (s : RawPortableSnapshot) : res str := map_err PortableSnapshot (sync_content_hash s).
Definition rehash (s : RawPortableSnapshot) : res RawPortableSnapshot := map_err PortableSnapshot (recalculate_hash s).

Definition decide_snapshot_check (state : CloudSyncState) (local remote : RawPortableSnapshot)
    (pointer : RemoteSyncPointer) (allow_auto_pull : bool) : res CloudRemoteCheckDecision :=
  let? local_hash := content_hash_of local in
  let? remote_hash := content_hash_of remote in
  if beq local_hash remote_hash then Ok UpToDate
  else Ok (decide_contents state local_hash (has_user_content local) (has_user_content remote) pointer allow_auto_pull).

Definition ensure_enabled (options : LocalCloudSyncOptions) : res unit :=
  if enabled options then Ok tt else Err Disabled.

Definition ensure_remote_layout (remote : CloudSyncRemote) (root : str) : M unit :=
  for_each [bs "sync"; SYNC_SNAPSHOTS_DIR; HEADS_DIR] tt (fun child _ => create_dir remote (remote_path root child)).

Definition remote_inconsistent_preview (provider local_hash : str) (pointer : RemoteSyncPointer)
    (recovery_candidate : option RawPortableSnapshot) (unreadable : option RemoteSnapshotUnreadableHead) :
    prog CloudConflictPreview :=
  let message :=
    (match recovery_candidate with
     | Some _ => bs "Remote cloud sync metadata is inconsistent. A different current snapshot is available for explicit recovery."
     | None => bs "Remote cloud sync metadata is inconsistent and no valid current snapshot is available."
     end) ++ match unreadable with Some u => 32 :: reason u | None => [] end in
  let~ now := current_time_ms in
  Ret {| branches := []; preview_revisions := []; local_content_hash := None; detected_at_ms := now;
         preview_provider := provider; conflict_kind := RemoteInconsistent; local_payload_hash := local_hash;
         remote_payload_hash := payload_hash pointer; remote_revision := revision_id pointer;
         remote_created_at_ms := created_at_ms pointer; remote_device_id := device_id pointer;
         recovery_revision := (fun c => meta_revision (meta c)) <$> recovery_candidate;
         recovery_payload_hash := (fun c => meta_payload_hash (meta c)) <$> recovery_candidate;
         recovery_created_at_ms := (fun c => created_at (meta c)) <$> recovery_candidate;
         overwrite_blocked := match unreadable with Some u => unreadable_blocks u | None => false end;
         preview_message := message |}.

(** What [push] and [pull] start from, unless a check has prepared it. *)
Definition prepare (store : CloudLocalStore) (remote : CloudSyncRemote) (options : LocalCloudSyncOptions)
    (prepared : option PreparedSync) : M PreparedSync :=
  match prepared with
  | Some p => ok p
  | None =>
      let! local := build_sync_snapshot store in
      let! heads := read store remote (remote_root options) in
      ok (Prepared local heads None)
  end.

(** ** Push *)

(** The snapshot behind the selected head, when there is one to compare with. *)
Definition push_remote_snapshot (store : CloudLocalStore) (remote : CloudSyncRemote) (options : LocalCloudSyncOptions)
    (force : bool) (local_hash : str) (latest : option RemoteSyncPointer) (cached : option RawPortableSnapshot) :
    M (option RawPortableSnapshot) :=
  match cached, latest with
  | Some s, _ => ok (Some s)
  | None, None => ok None
  | None, Some pointer =>
      let! resolution := resolve_remote_snapshot store remote options pointer in
      match resolution with
      | Current s | LegacyMigrated s => ok (Some s)
      | Inconsistent pointer candidate unreadable =>
          let~ preview := remote_inconsistent_preview (provider remote) local_hash pointer candidate unreadable in
          if force && negb (overwrite_blocked preview) then ok None else fail (Conflict preview)
      end
  end.

Definition push_finish (store : CloudLocalStore) (remote : CloudSyncRemote) (next_state : CloudSyncState)
    (message : str) (pointer : option RemoteSyncPointer) (outcome : CloudSyncOutcome) : M CloudSyncResult :=
  let result := sync_result next_state (provider remote) message pointer None outcome in
  let! _ := persist_cloud_sync_state store next_state in
  ok result.

(** Stage, upload, verify, and only then publish. *)
Definition push_commit (store : CloudLocalStore) (remote : CloudSyncRemote) (options : LocalCloudSyncOptions)
    (state next_state : CloudSyncState) (force : bool) (heads : RemoteHeads) (snapshot : RawPortableSnapshot)
    (content_hash : str) : M CloudSyncResult :=
  let! clock := lift (next_clock heads (last_synced_clock state) (opt_device options)) in
  let snapshot := set_meta (with_clock clock (with_name (opt_device_name options) (meta snapshot))) snapshot in
  let! uploaded := upload_sync_snapshot store remote options snapshot (selected heads) in
  let pointer := pointer_from_snapshot snapshot in
  let~ validated := current_time_ms in
  let next_state := set_validated (revision_id pointer) (Some validated) next_state in
  let! _ := if force then ok tt else ensure_remote_head_unchanged store remote options (compatibility heads) in
  let! _ := begin_commit in
  let! _ := publish_all store remote options pointer uploaded in
  let next_state := set_synced (payload_hash pointer) content_hash (sync_clock pointer) (revision_id pointer) next_state in
  let~ synced := current_time_ms in
  let~ checked := current_time_ms in
  push_finish store remote (set_checked checked (set_synced_at synced next_state))
    (bs "Cloud sync snapshot uploaded") (Some pointer) OutUploaded.

(** The baseline after finding that the remote snapshot already has the contents. *)
Definition adopt_equal (pointer : RemoteSyncPointer) (local_hash content_hash : str) (checked : Z)
    (s : CloudSyncState) : CloudSyncState :=
  set_checked checked (set_synced local_hash content_hash (sync_clock pointer) (revision_id pointer) s).

Definition push_decide (store : CloudLocalStore) (remote : CloudSyncRemote) (options : LocalCloudSyncOptions)
    (state next_state : CloudSyncState) (force : bool) (heads : RemoteHeads) (snapshot : RawPortableSnapshot)
    (content_hash : str) (remote_snapshot : option RawPortableSnapshot) : M CloudSyncResult :=
  let latest := selected heads in
  let local_hash := meta_payload_hash (meta snapshot) in
  let! remote_hash :=
    match remote_snapshot with
    | Some s => if force || negb (is_some latest) then ok None else let! h := lift (content_hash_of s) in ok (Some h)
    | None => ok None
    end in
  match (if negb force && bool_decide (remote_hash = Some content_hash) then latest else None) with
  | Some pointer =>
      let~ checked := current_time_ms in
      let~ validated := current_time_ms in
      push_finish store remote
        (set_validated (revision_id pointer) (Some validated)
           (adopt_equal pointer local_hash content_hash checked next_state))
        (bs "Cloud sync is already up to date") latest OutUpToDate
  | None =>
      let remote_changed :=
        match latest with
        | Some pointer => is_not (last_applied_remote_revision next_state) (revision_id pointer)
        | None => false
        end in
      let local_changed := local_content_changed next_state content_hash in
      if is_some latest && negb remote_changed && negb local_changed && negb force then
        let~ checked := current_time_ms in
        push_finish store remote (set_checked checked next_state)
          (bs "Cloud sync is already up to date") latest OutUpToDate
      else if remote_changed && negb force && local_changed
              && match remote_snapshot with Some s => has_user_content s | None => false end then
        match latest with
        | None => Panic
        | Some pointer =>
            let~ preview := conflict_preview options (provider remote) local_hash pointer in
            fail (Conflict preview)
        end
      else if remote_changed && negb force && negb local_changed then fail RemoteNewer
      else push_commit store remote options state next_state force heads snapshot content_hash
  end.

Definition push_snapshot_prepared (store : CloudLocalStore) (options : LocalCloudSyncOptions)
    (remote : CloudSyncRemote) (state : CloudSyncState) (force : bool) (prepared : option PreparedSync) :
    M CloudSyncResult :=
  let! _ := checkpoint in
  let remote := controlled_remote remote in
  let store := controlled_store store in
  let! _ := lift (ensure_enabled options) in
  let! _ := ensure_remote_layout remote (remote_root options) in
  let next_state := normalized_state state (opt_device options) in
  let! p := prepare store remote options prepared in
  let heads := prepared_heads p in
  let! snapshot := lift (rehash (prepared_local p)) in
  let local_hash := meta_payload_hash (meta snapshot) in
  let! content_hash := lift (content_hash_of snapshot) in
  let! _ := if force then ok tt else require_single heads options (provider remote) local_hash in
  let! _ := match selected heads with
            | Some pointer =>
                if force then ok tt
                else validate_remote_baseline state pointer options (provider remote) local_hash
            | None => ok tt
            end in
  let! remote_snapshot :=
    push_remote_snapshot store remote options force local_hash (selected heads) (prepared_remote p) in
  push_decide store remote options state next_state force heads snapshot content_hash remote_snapshot.

(** ** Pull *)

(** A snapshot chosen among branches is published as a new revision that
    supersedes them all. *)
Definition pull_republish (store : CloudLocalStore) (remote : CloudSyncRemote) (options : LocalCloudSyncOptions)
    (state : CloudSyncState) (heads : RemoteHeads) (latest : RemoteSyncPointer) (snapshot : RawPortableSnapshot) :
    M (RemoteSyncPointer * RawPortableSnapshot) :=
  let~ revision := uuid_v4 in
  let~ now := current_time_ms in
  let! clock := lift (next_clock heads (last_synced_clock state) (opt_device options)) in
  let m := with_clock clock (with_name (opt_device_name options)
             (with_identity revision (opt_device options) now (meta snapshot))) in
  let! snapshot := lift (rehash (set_meta m snapshot)) in
  let! uploaded := upload_sync_snapshot store remote options snapshot (Some latest) in
  let latest := pointer_from_snapshot snapshot in
  let! _ := begin_commit in
  let! _ := publish_all store remote options latest uploaded in
  ok (latest, snapshot).

Definition pull_apply (store : CloudLocalStore) (remote : CloudSyncRemote) (options : LocalCloudSyncOptions)
    (state next_state : CloudSyncState) (heads : RemoteHeads) (latest : RemoteSyncPointer)
    (snapshot : RawPortableSnapshot) (content_hash : str) (requires_resolution : bool) : M CloudSyncResult :=
  let! _ := perform BeforeApply in
  let! (latest, snapshot) :=
    if requires_resolution then pull_republish store remote options state heads latest snapshot
    else ok (latest, snapshot) in
  let~ synced := current_time_ms in
  let~ checked := current_time_ms in
  let next_state := set_checked checked (set_synced_at synced
    (set_validated (revision_id latest) (last_full_validation_at_ms next_state)
      (set_applied (sync_clock latest) (meta_revision (meta snapshot)) next_state))) in
  let! (backup, next_state) := apply_sync_snapshot_checked store snapshot content_hash next_state in
  ok (sync_result next_state (provider remote) (bs "Cloud sync snapshot downloaded") (Some latest) (Some backup)
        OutDownloaded).

Definition pull_decide (store : CloudLocalStore) (remote : CloudSyncRemote) (options : LocalCloudSyncOptions)
    (state next_state : CloudSyncState) (force : bool) (heads : RemoteHeads) (latest : RemoteSyncPointer)
    (local remote_snapshot : RawPortableSnapshot) : M CloudSyncResult :=
  let local_hash := meta_payload_hash (meta local) in
  let! content_hash := lift (content_hash_of local) in
  let requires_resolution :=
    concurrent heads || remote_precedes_baseline state latest || remote_concurrent_with_baseline state latest in
  let! equal := if requires_resolution then ok false
                else let! h := lift (content_hash_of remote_snapshot) in ok (beq h content_hash) in
  if (equal : bool) then
    let~ checked := current_time_ms in
    push_finish store remote (adopt_equal latest local_hash content_hash checked next_state)
      (bs "Cloud sync is already up to date") (Some latest) OutUpToDate
  else
    let local_changed := local_content_changed next_state content_hash in
    let remote_changed := is_not (last_applied_remote_revision next_state) (revision_id latest) in
    if remote_changed && local_changed && negb force && has_user_content local then
      if negb (has_user_content remote_snapshot) then fail NoNewerRemoteSnapshot
      else
        let~ preview := conflict_preview options (provider remote) local_hash latest in
        fail (Conflict preview)
    else if negb remote_changed && negb force then
      if local_changed then fail NoNewerRemoteSnapshot
      else
        let~ checked := current_time_ms in
        push_finish store remote (set_checked checked next_state)
          (bs "Cloud sync is already up to date") (Some latest) OutUpToDate
    else
      pull_apply store remote options state next_state heads latest remote_snapshot content_hash requires_resolution.

Definition pull_remote_snapshot (store : CloudLocalStore) (remote : CloudSyncRemote) (options : LocalCloudSyncOptions)
    (local_hash : str) (latest : RemoteSyncPointer) (cached : option RawPortableSnapshot) : M RawPortableSnapshot :=
  match cached with
  | Some s => ok s
  | None =>
      let! resolution := resolve_remote_snapshot store remote options latest in
      match resolution with
      | Current s | LegacyMigrated s => ok s
      | Inconsistent pointer candidate unreadable =>
          let~ preview := remote_inconsistent_preview (provider remote) local_hash pointer candidate unreadable in
          fail (Conflict preview)
      end
  end.

Definition pull_snapshot_prepared (store : CloudLocalStore) (options : LocalCloudSyncOptions)
    (remote : CloudSyncRemote) (state : CloudSyncState) (force : bool) (prepared : option PreparedSync) :
    M CloudSyncResult :=
  let! _ := checkpoint in
  let remote := controlled_remote remote in
  let store := controlled_store store in
  let! _ := lift (ensure_enabled options) in
  let! _ := ensure_remote_layout remote (remote_root options) in
  let! p := prepare store remote options prepared in
  let heads := prepared_heads p in
  let! latest := lift (ok_or (selected heads) NoRemoteSnapshot) in
  let! _ := if force then ok tt
            else validate_remote_baseline state latest options (provider remote)
                   (meta_payload_hash (meta (prepared_local p))) in
  let next_state := normalized_state state (opt_device options) in
  let! local := lift (rehash (prepared_local p)) in
  let local_hash := meta_payload_hash (meta local) in
  let! _ := if force then ok tt else require_single heads options (provider remote) local_hash in
  let! remote_snapshot := pull_remote_snapshot store remote options local_hash latest (prepared_remote p) in
  let~ validated := current_time_ms in
  let next_state := set_validated (revision_id latest) (Some validated) next_state in
  pull_decide store remote options state next_state force heads latest local remote_snapshot.

(** ** Recovery *)

Definition recover_current_snapshot (store : CloudLocalStore) (options : LocalCloudSyncOptions)
    (remote : CloudSyncRemote) : M CloudSyncResult :=
  let! _ := checkpoint in
  let remote := controlled_remote remote in
  let store := controlled_store store in
  let! _ := lift (ensure_enabled options) in
  let! _ := ensure_remote_layout remote (remote_root options) in
  let! local := build_sync_snapshot store in
  let! content_hash := lift (content_hash_of local) in
  let! snapshot := recover_current_remote_snapshot store remote options in
  let pointer := pointer_from_snapshot snapshot in
  let~ now := current_time_ms in
  let state := State (opt_device options) None None (sync_clock pointer) (Some (revision_id pointer)) (Some now)
                 (Some now) (Some (revision_id pointer)) (Some now) None in
  let! (backup, state) := apply_sync_snapshot_checked store snapshot content_hash state in
  ok (sync_result state (provider remote) (bs "Cloud sync metadata recovered") (Some pointer) (Some backup)
        OutRecovered).

(** ** Migration reader *)

Definition read_legacy_sync_branches (store : CloudLocalStore) (remote : CloudSyncRemote)
    (options : LocalCloudSyncOptions) : M (list RawPortableSnapshot) :=
  let! heads := read store remote (remote_root options) in
  let pointers := match maximal heads with [] => option_list (selected heads) | l => l end in
  for_each pointers [] (fun pointer snapshots =>
    let! resolution := resolve_remote_snapshot store remote options pointer in
    match resolution with
    | Current s | LegacyMigrated s => ok (snapshots ++ [s])
    | Inconsistent _ _ _ => fail (Remote (bs "Legacy cloud data is incomplete; migration was stopped"))
    end).

(** ** Secret-free differences *)

Fixpoint json_eqb (a b : Json) : bool :=
  match a, b with
  | JNull, JNull => true
  | JBool x, JBool y => Bool.eqb x y
  | JNumber x, JNumber y | JString x, JString y => beq x y
  | JArray xs, JArray ys =>
      (fix items_eqb xs ys := match xs, ys with
       | [], [] => true
       | x :: xs', y :: ys' => json_eqb x y && items_eqb xs' ys'
       | _, _ => false
       end) xs ys
  | JObject xs, JObject ys =>
      (fix fields_eqb xs ys := match xs, ys with
       | [], [] => true
       | (k, x) :: xs', (j, y) :: ys' => beq k j && json_eqb x y && fields_eqb xs' ys'
       | _, _ => false
       end) xs ys
  | _, _ => false
  end.

Definition field_of (name : str) (fields : list (str * Json)) : option Json :=
  snd <$> List.find (fun f => beq (fst f) name) fields.

(** [Value::get] with a string index. *)
Definition json_get (value : Json) (name : str) : option Json :=
  match value with JObject fields => field_of name fields | _ => None end.

Definition opt_json_eqb (a b : option Json) : bool :=
  match a, b with Some x, Some y => json_eqb x y | None, None => true | _, _ => false end.

Fixpoint records (value : Json) (scope : str) (output : gmap str Json) : gmap str Json :=
  match value with
  | JObject fields =>
      let (scope, output) :=
        match field_of (bs "id") fields with
        | Some ((JString _ | JNumber _) as id) =>
            let identity := scope ++ 47 :: value_to_string id in (identity, <[identity := value]> output)
        | _ => (scope, output)
        end in
      fold_left (fun out f => records (snd f) (scope ++ 47 :: fst f) out) fields output
  | JArray values => fold_left (fun out child => records child scope out) values output
  | _ => output
  end.

Definition SETTINGS_CATEGORIES : list str :=
  map bs ["appearance"; "terminal"; "security"; "ai"; "translation"; "transfer"; "connection"; "general"; "ui";
          "proxy"; "search"; "interaction"; "diagnostics"]%string.

Definition KNOWN_ENTITIES : list string :=
  ["sessions"; "keys"; "passwords"; "credentials"; "otp"; "proxies"; "proxy_groups"; "tunnels"; "tunnel_groups";
   "quick_commands"; "known_hosts"; "vnc_known_hosts"; "notes"; "master_key_token"; "history"]%string.

Definition parse_entity (raw : option str) : option Json :=
  match raw with Some text => match value_from_str text with Ok v => Some v | Err _ => None end | None => None end.

Definition count_if {A} (f : A -> bool) (l : list A) : Z := len (List.filter f l).

(** The differences of one entity that is not the same on both sides; [None] for
    an entity of a newer version. *)
Definition summarize_entity (key : str) (before after : option str) : option (list CloudEntityDiff) :=
  if beq key (bs "settings") then
    let before := default JNull (parse_entity before) in
    let after := default JNull (parse_entity after) in
    Some (map (fun category => EntityDiff (bs "settings." ++ category) 0 0 1)
            (List.filter (fun category => negb (opt_json_eqb (json_get before category) (json_get after category)))
               SETTINGS_CATEGORIES)
          ++ [EntityDiff (bs "settings") 0 0 1])
  else if negb (one_of key KNOWN_ENTITIES) then None
  else
    let side := fun raw => match parse_entity raw with Some v => records v [] ∅ | None => ∅ end in
    let left := side before in
    let right := side after in
    Some [EntityDiff key
      (count_if (fun e => negb (is_some (left !! fst e))) (map_to_list right))
      (count_if (fun e => negb (is_some (right !! fst e))) (map_to_list left))
      (if (size left =? 0)%nat && (size right =? 0)%nat then 1
       else count_if (fun e => match left !! fst e with Some old => negb (json_eqb old (snd e)) | None => false end)
              (map_to_list right))].

Definition summarize (local remote : RawPortableSnapshot) : list CloudEntityDiff :=
  let keys := stable_sort str_leb (elements (dom (entities local) ∪ dom (entities remote))) in
  let changed := List.filter (fun key => negb (bool_decide (entities local !! key = entities remote !! key))) keys in
  let diffs := map (fun key => summarize_entity key (entities local !! key) (entities remote !! key)) changed in
  flat_map (fun d => default [] d) diffs
  ++ (if existsb (fun d => negb (is_some d)) diffs then [EntityDiff (bs "extensions") 0 0 1] else []).

(** ** Receipts of authenticated snapshots *)

Definition FULL_VALIDATION_INTERVAL_MS : Z := 86400000.

Record ValidatedSnapshot := Receipt {
  receipt_pointer : RemoteSyncPointer;
  receipt_content : str;
  validated_at_ms : Z;
  receipt_local : str;
  remote_has_user_content : bool;
  receipt_branch : CloudConflictBranch
}.

Record CloudSyncCheckCache := CheckCache {
  salt : list Z;
  cache_context : option (list Z);
  preview_set : list RemoteSyncPointer;
  cache_entries : list ValidatedSnapshot
}.

(** [(len as u64).to_le_bytes()] followed by the bytes. *)
Definition hash_part (value : list Z) : list Z := rev (to_be_bytes 8 (len value)) ++ value.

Definition cache_scope (options : LocalCloudSyncOptions) (provider : str) (c : CloudSyncCheckCache) : CloudSyncCheckCache :=
  let context := sha256 (salt c
    ++ flat_map hash_part [config_dir options; remote_dir options; remote_root options; master_password options; provider]
    ++ default [] (portable_key_path options)) in
  if bool_decide (cache_context c = Some context) then c else CheckCache (salt c) (Some context) [] [].

Definition clear_local (e : ValidatedSnapshot) : ValidatedSnapshot :=
  Receipt (receipt_pointer e) (receipt_content e) (validated_at_ms e) [] (remote_has_user_content e) (receipt_branch e).

Definition prepare_preview (pointers : list RemoteSyncPointer) (c : CloudSyncCheckCache) : CloudSyncCheckCache :=
  if bool_decide (preview_set c = pointers) then c
  else CheckCache (salt c) (cache_context c) pointers (map clear_local (cache_entries c)).

(** Take the first entry that satisfies [f] out of the queue. *)
Fixpoint take_first {A} (f : A -> bool) (l : list A) : option (A * list A) :=
  match l with
  | [] => None
  | x :: l' => if f x then Some (x, l')
               else match take_first f l' with Some (y, rest) => Some (y, x :: rest) | None => None end
  end.

Definition cache_get (c : CloudSyncCheckCache) (pointer : RemoteSyncPointer) :
    prog (option ValidatedSnapshot * CloudSyncCheckCache) :=
  let~ now := current_time_ms in
  let live := List.filter (fun e => (validated_at_ms e <=? now)
                                    && (now - validated_at_ms e <? FULL_VALIDATION_INTERVAL_MS)) (cache_entries c) in
  Ret (match take_first (fun e => bool_decide (receipt_pointer e = pointer)) live with
       | None => (None, CheckCache (salt c) (cache_context c) (preview_set c) live)
       | Some (e, rest) => (Some e, CheckCache (salt c) (cache_context c) (preview_set c) (rest ++ [e]))
       end).

Definition cache_branch (c : CloudSyncCheckCache) (pointer : RemoteSyncPointer) (local_hash : str) :
    prog (option CloudConflictBranch * CloudSyncCheckCache) :=
  let~ (e, c) := cache_get c pointer in
  Ret (match e with Some e => if beq (receipt_local e) local_hash then Some (receipt_branch e) else None | None => None end, c).

Definition cache_remove (pointer : RemoteSyncPointer) (c : CloudSyncCheckCache) : CloudSyncCheckCache :=
  CheckCache (salt c) (cache_context c) (preview_set c)
    (List.filter (fun e => negb (beq (revision_id (receipt_pointer e)) (revision_id pointer))) (cache_entries c)).

Definition cache_record (pointer : RemoteSyncPointer) (snapshot local : RawPortableSnapshot) (c : CloudSyncCheckCache) :
    prog (res unit * CloudSyncCheckCache) :=
  let c := cache_remove pointer c in
  match content_hash_of snapshot with
  | Err e => Ret (Err e, c)
  | Ok content =>
      let~ now := current_time_ms in
      match content_hash_of local with
      | Err e => Ret (Err e, c)
      | Ok local_hash =>
          let branch := Branch (revision_id pointer) (device_id pointer) (device_name (meta snapshot))
                          (created_at_ms pointer) true (summarize local snapshot) in
          let entries := cache_entries c ++
            [Receipt pointer content now local_hash (has_user_content snapshot) branch] in
          Ret (Ok tt, CheckCache (salt c) (cache_context c) (preview_set c) (drop (length entries - 256) entries))
      end
  end.

End cloud_sync.
