(* ===== verification/CloudSafety.v ===== *)
(** The operations of cloud_sync/mod.rs respect the guard: what they publish
    supersedes the heads they read, an unforced push does not overwrite unseen
    user data, and what they apply locally is an authenticated snapshot that
    replaces exactly the local data that was looked at. *)
From stdpp Require Import base list numbers strings gmap.
From Stdlib Require Import ZArith Lia.
From S2P Require Import Prelude Text SyncTypes SyncEffects SyncLogic SyncHeads SyncHeadsSpec SyncProtocol SyncReadSpec.
From S2P Require Import SyncUpload SyncSafety CloudSync.

(** ** Rules for publishing and applying *)

Section rules.
Context `{L : SyncLib} (options : LocalCloudSyncOptions).
Abbreviation root := (remote_root options).

(** The pointer is the next commit after the heads [H], which were read. *)
Definition next_commit (previous : option SnapshotSyncClock) (pre : history) (H : RemoteHeads)
    (pointer : RemoteSyncPointer) : Prop :=
  heads_read root [] pre H /\
  exists clock, next_clock H previous (opt_device options) = Ok clock /\ sync_clock pointer = Some clock.

(** Without force there is one branch; it is not older than the baseline and not
    concurrent with it; and it was applied here before, or holds no user data. *)
Definition unforced (state : CloudSyncState) (pre : history) (H : RemoteHeads) : Prop :=
  heads_choice H /\ concurrent H = false /\
  forall latest, selected H = Some latest ->
    remote_precedes_baseline state latest = false /\ remote_concurrent_with_baseline state latest = false /\
    (last_applied_remote_revision state = Some (revision_id latest) \/
     exists s, resolved options latest [] pre s /\ has_user_content s = false).

Definition push_from (state : CloudSyncState) (force : bool) (H : RemoteHeads) (pre : history)
    (pointer : RemoteSyncPointer) : Prop :=
  next_commit (last_synced_clock state) pre H pointer /\ (force = false -> unforced state pre H).

Definition push_rule (state : CloudSyncState) (force : bool) (pre : history) (pointer : RemoteSyncPointer) : Prop :=
  exists H, push_from state force H pre pointer.

Definition commit_rule (previous : option SnapshotSyncClock) (pre : history) (pointer : RemoteSyncPointer) : Prop :=
  exists H, next_commit previous pre H pointer.

(** The local data was built in this operation and has the expected hash. *)
Definition local_seen (pre : history) (hash : str) (built : RawPortableSnapshot) : Prop :=
  since [] pre (EvBuild (Ok built)) /\ content_hash_of built = Ok hash.

(** The selected head is the only branch, it is neither behind nor beside the
    baseline, and it was not applied here before. *)
Definition news (state : CloudSyncState) (H : RemoteHeads) (latest : RemoteSyncPointer) : Prop :=
  selected H = Some latest /\ concurrent H = false /\ remote_precedes_baseline state latest = false /\
  remote_concurrent_with_baseline state latest = false /\
  last_applied_remote_revision state <> Some (revision_id latest).

(** What is applied has the contents of a remote snapshot of a head; without force
    the head is news, and the local data is unchanged since the baseline, or no
    user data. *)
Definition pull_from (state : CloudSyncState) (force : bool) (H : RemoteHeads) (pre : history)
    (s : RawPortableSnapshot) (hash : str) : Prop :=
  exists built latest s0,
    local_seen pre hash built /\ heads_read root [] pre H /\ latest ∈ heads H /\
    resolved options latest [] pre s0 /\ entities s = entities s0 /\
    (force = false -> news state H latest /\
       (last_synced_content_hash state = Some hash \/ has_user_content built = false)).

Definition pull_rule (state : CloudSyncState) (force : bool) (pre : history) (s : RawPortableSnapshot) (hash : str) : Prop :=
  exists H, pull_from state force H pre s hash.

(** The state that a check passes on: that of the caller, or the baseline moved to
    the selected head, when the check found this device up to date with it. *)
Definition checked_state (state : CloudSyncState) (H : RemoteHeads) (state' : CloudSyncState) : Prop :=
  (last_synced_content_hash state' = last_synced_content_hash state /\ last_synced_clock state' = last_synced_clock state /\
   last_applied_remote_revision state' = last_applied_remote_revision state) \/
  exists latest, selected H = Some latest /\ last_synced_clock state' = sync_clock latest /\
    last_applied_remote_revision state' = Some (revision_id latest).

(** A pull after a check follows the rule for the state that the check was given. *)
Lemma checked_pull state state' H pre s hash :
  checked_state state H state' -> pull_from state' false H pre s hash -> pull_from state false H pre s hash.
Proof.
  intros Hst (built & latest & s0 & H1 & H2 & H3 & H4 & H5 & Hn). exists built, latest, s0. split_and!; try done.
  intros Hf. destruct (Hn Hf) as [(Ha & Hb & Hc & Hd & He) Hg]. destruct Hst as [(E1 & E2 & E3) | (p & Es & _ & Ep)].
  - rewrite E1 in Hg. split; [split_and!; try done | done].
    + unfold remote_precedes_baseline in *. by rewrite <- E2.
    + unfold remote_concurrent_with_baseline, remote_precedes_baseline in *. by rewrite <- E2, <- E3.
    + by rewrite <- E3.
  - rewrite Ha in Es. injection Es as <-. by destruct He.
Qed.

(** Recovery applies the copy in the current file. *)
Definition recover_rule (pre : history) (s : RawPortableSnapshot) (hash : str) : Prop :=
  exists built s0, local_seen pre hash built /\ current_read options [] pre s0 /\ entities s = entities s0.

(** *** They persist *)

Lemma heads_read_mono h h1 h2 h3 H :
  h `suffix_of` h1 -> h2 `suffix_of` h3 -> heads_read root h1 h2 H -> heads_read root h h3 H.
Proof.
  intros Ha Hb (H1 & H2 & H3 & records & (paths & Hl & Hp) & Hr). split_and!; [done | | |].
  - intros p Hi. destruct (H2 p Hi) as [|]; [left | by right]. by apply (published_mono _ h h1 h2 h3).
  - by apply (latest_read_mono _ h h1 h2 h3).
  - exists records. split; [| done]. exists paths. split; [by apply (since_mono h h1 h2 h3) |].
    intros path Hi Hf. destruct (Hp path Hi Hf) as (o & Ho & Hm). exists o. split; [| done].
    by apply (since_mono h h1 h2 h3).
Qed.

Lemma resolved_mono pointer h h1 h2 h3 s :
  h `suffix_of` h1 -> h2 `suffix_of` h3 -> resolved options pointer h1 h2 s -> resolved options pointer h h3 s.
Proof.
  intros Ha Hb [Hv [H | (b & H1 & H2)]]; (split; [done |]).
  - left. by apply (authentic_mono _ _ h h1 h2 h3).
  - right. exists b. split; by apply (since_mono h h1 h2 h3).
Qed.

Lemma push_rule_mono state force pre pre' pointer :
  pre `suffix_of` pre' -> push_rule state force pre pointer -> push_rule state force pre' pointer.
Proof.
  intros Hs (H & [Hr Hc] & Hu). exists H. unfold push_from. split; [split; [| done] |].
  - by apply (heads_read_mono [] [] pre pre').
  - intros Hf. destruct (Hu Hf) as (H1 & H2 & H3). split_and!; [done | done |]. intros latest Hl.
    destruct (H3 latest Hl) as (Ha & Hb & [Hd | (s & Hd & He)]); split_and!; [done | done | by left | done | done |].
    right. exists s. split; [| done]. by apply (resolved_mono _ [] [] pre pre').
Qed.

Lemma commit_rule_mono previous pre pre' pointer :
  pre `suffix_of` pre' -> commit_rule previous pre pointer -> commit_rule previous pre' pointer.
Proof.
  intros Hs (H & Hr & Hc). exists H. split; [| done]. by apply (heads_read_mono [] [] pre pre').
Qed.

Lemma local_seen_mono pre pre' hash built : pre `suffix_of` pre' -> local_seen pre hash built -> local_seen pre' hash built.
Proof. intros Hs [H1 H2]. split; [by apply (since_mono [] [] pre pre') | done]. Qed.

Lemma pull_rule_mono state force pre pre' s hash :
  pre `suffix_of` pre' -> pull_rule state force pre s hash -> pull_rule state force pre' s hash.
Proof.
  intros Hs (H & built & latest & s0 & H1 & H2 & H3 & H4 & H5). exists H, built, latest, s0.
  split_and!; [by apply (local_seen_mono pre) | by apply (heads_read_mono [] [] pre pre') | done |
               by apply (resolved_mono _ [] [] pre pre') | tauto..].
Qed.

Lemma recover_rule_mono pre pre' s hash : pre `suffix_of` pre' -> recover_rule pre s hash -> recover_rule pre' s hash.
Proof.
  intros Hs (built & s0 & H1 & (b & H2 & H3) & H4). exists built, s0. split_and!; [by apply (local_seen_mono pre) | | done].
  exists b. split; by apply (since_mono [] [] pre pre').
Qed.
End rules.

(** Hashes and user data depend on the entities only. *)
Section entities.
Context `{L : SyncLib}.

Lemma content_hash_entities s s' : entities s = entities s' -> content_hash_of s = content_hash_of s'.
Proof. intros E. unfold content_hash_of, sync_content_hash. by rewrite E. Qed.

Lemma user_content_entities s s' : entities s = entities s' -> has_user_content s = has_user_content s'.
Proof. intros E. unfold has_user_content. by rewrite E. Qed.

Lemma rehash_entities s s' : rehash s = Ok s' ->
  entities s' = entities s /\ meta_revision (meta s') = meta_revision (meta s) /\
  meta_clock (meta s') = meta_clock (meta s) /\ meta_device (meta s') = meta_device (meta s).
Proof.
  unfold rehash, recalculate_hash. destruct (calculate_v3_raw_payload_hash _) as [a |]; [| done]. cbn [result_bind].
  destruct (calculate_entities_hash _) as [b |]; [| done]. cbn. by intros [= <-].
Qed.
End entities.

Section operations.
Context `{L : SyncLib} (options : LocalCloudSyncOptions) (known : RemoteSyncPointer -> Prop)
        (confirms : str -> history -> Prop) (may_publish : history -> RemoteSyncPointer -> Prop)
        (may_apply : history -> RawPortableSnapshot -> str -> Prop).
Abbreviation G := (guard options known confirms may_publish may_apply).
Context (R : CloudSyncRemote) (HR : RemoteSpec G confirms R).
Context (S : CloudLocalStore) (HS : StoreSpec G (happened [commit_event]) S).
Abbreviation root := (remote_root options).

(** ** Small steps *)

Lemma now_harmless : harmless G current_time_ms.
Proof. eapply sp_harmless, (quiet_perform G (guard_quiet _ _ _ _ _) Now). done. Qed.

Lemma uuid_harmless : harmless G uuid_v4.
Proof. eapply sp_harmless, (quiet_perform G (guard_quiet _ _ _ _ _) NewUuid). done. Qed.

Lemma checkpoint_harmless : harmless G checkpoint.
Proof. eapply sp_harmless, checkpoint_spec, guard_quiet. Qed.

Lemma preview_harmless provider hash pointer : harmless G (conflict_preview options provider hash pointer).
Proof. apply harmless_bind; [apply now_harmless | done]. Qed.

Lemma inconsistent_preview_harmless provider hash pointer c u :
  harmless G (remote_inconsistent_preview provider hash pointer c u).
Proof. apply harmless_bind; [apply now_harmless | done]. Qed.

Lemma require_single_spec H provider hash h Q :
  (concurrent H = true -> is_Some (selected H)) ->
  (forall h' e, h `suffix_of` h' -> Q h' (Err e)) ->
  (concurrent H = false -> Q h (Ok tt)) ->
  wp G (require_single H options provider hash) h Q.
Proof.
  intros Hsel He Hok. unfold require_single. destruct (concurrent H); [| by apply Hok].
  destruct (Hsel eq_refl) as [p ->]. apply wp_pbind. eapply wp_sp; [apply preview_harmless |].
  intros h' pr Hs _. by apply He.
Qed.

Lemma validate_baseline_spec state pointer provider hash h Q :
  (forall h' e, h `suffix_of` h' -> Q h' (Err e)) ->
  (remote_precedes_baseline state pointer = false -> remote_concurrent_with_baseline state pointer = false ->
     Q h (Ok tt)) ->
  wp G (validate_remote_baseline state pointer options provider hash) h Q.
Proof.
  intros He Hok. unfold validate_remote_baseline. destruct (remote_precedes_baseline _ _); [by apply He |].
  destruct (remote_concurrent_with_baseline _ _); [| by apply Hok].
  apply wp_pbind. eapply wp_sp; [apply preview_harmless |]. intros h' pr Hs _. by apply He.
Qed.

Lemma layout_harmless : harmless G (ensure_remote_layout R root).
Proof. apply harmless_for_each. intros x s. by eapply asks_harmless, (remote_mkdir G). Qed.

(** What a check prepared, or the operation reads itself. *)
Definition prepared_ok (h : history) (p : PreparedSync) : Prop :=
  (exists built, since [] h (EvBuild (Ok built)) /\ entities (prepared_local p) = entities built) /\
  heads_read root [] h (prepared_heads p) /\
  (forall latest, selected (prepared_heads p) = Some latest -> latest ∈ heads (prepared_heads p)) /\
  (forall s, prepared_remote p = Some s ->
     exists latest, selected (prepared_heads p) = Some latest /\ resolved options latest [] h s).

Lemma prepared_ok_mono h h' p : h `suffix_of` h' -> prepared_ok h p -> prepared_ok h' p.
Proof.
  intros Hs ((built & H1 & H2) & H3 & H4 & H5). split_and!; [| by apply (heads_read_mono _ [] [] h h') | done |].
  - exists built. split; [by apply (since_mono [] [] h h') | done].
  - intros s E. destruct (H5 s E) as (latest & Hl & Hr). exists latest. split; [done |].
    by apply (resolved_mono _ _ [] [] h h').
Qed.

Lemma head_commits h H p : heads_read root [] h H -> p ∈ heads H -> commit_head options known h p.
Proof.
  intros (_ & H2 & H3 & _) Hp. destruct (H2 p Hp) as [Hpub | E]; [by left |]. right. left. by rewrite E in H3.
Qed.

Lemma choice_in H latest : heads_choice H -> selected H = Some latest -> latest ∈ heads H.
Proof.
  intros HC E. rewrite (shape_selected _ HC) in E. apply select_head_in in E. by apply elem_of_maximal in E as [? _].
Qed.

Lemma prepare_spec prepared h Q :
  (forall p, prepared = Some p -> prepared_ok h p) ->
  (forall h' e, h `suffix_of` h' -> Q h' (Err e)) ->
  (forall h' p, h `suffix_of` h' -> prepared_ok h' p ->
     (prepared = Some p \/ prepared = None /\ heads_choice (prepared_heads p)) -> Q h' (Ok p)) ->
  wp G (prepare S R options prepared) h Q.
Proof.
  intros Hp He Hok. unfold prepare. destruct prepared as [p |]; [apply Hok; [done | by apply Hp | by left] |].
  apply wp_let. eapply wp_sp; [apply (store_build G) |]. intros h1 [built | e] Hs1 [_ Hb]; cbn [on_ok]; [| by apply He].
  specialize (Hb built eq_refl). apply wp_let. eapply wp_sp; [by eapply read_spec |].
  intros h2 [H | e] Hs2 Hr; cbn [on_ok]; [| apply He; by transitivity h1]. destruct (Hr H eq_refl) as (_ & Hread & HC).
  apply Hok; [by transitivity h1 | | by right]. split_and!; cbn [prepared_local prepared_heads prepared_remote].
  - exists built. split; [| done]. by apply (since_mono [] h h1 h2); [apply nil_suffix | |].
  - by apply (heads_read_mono _ [] h1 h2 h2); [apply nil_suffix | |].
  - intros latest. by apply choice_in.
  - done.
Qed.

Lemma finish_harmless state message pointer outcome : harmless G (push_finish S R state message pointer outcome).
Proof.
  intros h. unfold push_finish. apply wp_let. apply (store_persist G); [by intros h' r _ |].
  by intros h' [u | e] _ _.
Qed.

(** ** Push *)

Lemma push_commit_spec state next force H snapshot content h :
  (forall latest, selected H = Some latest -> commit_head options known h latest) ->
  (forall h' pointer clock, h `suffix_of` h' -> next_clock H (last_synced_clock state) (opt_device options) = Ok clock ->
     sync_clock pointer = Some clock -> may_publish h' pointer) ->
  harmless_from G (push_commit S R options state next force H snapshot content) h.
Proof.
  intros Hsel Hpub. unfold push_commit. apply wp_let, wp_lift.
  destruct (next_clock _ _ _) as [clock |] eqn:Ec; cbn [on_ok]; [| done].
  set (s := set_meta _ snapshot). apply wp_let. apply (upload_sync_snapshot_spec _ known confirms may_publish may_apply R HR _ S HS); [done | done |].
  intros h1 bytes Hs1 Hv. cbn [on_ok]. apply wp_pbind. eapply wp_sp; [apply now_harmless |]. intros h2 t Hs2 _.
  apply wp_let. eapply wp_mono; [| instantiate (1 := fun _ _ => True); destruct force; [done |]; by eapply ensure_unchanged_spec].
  intros h3 [u | e] Hs3 _; cbn [on_ok]; [| done]. apply wp_let.
  eapply (commit_ready _ _ _ _ _ s bytes); [| | done |].
  - eapply verified_mono; [| exact Hv]. by transitivity h2.
  - intros h4 Hs4. apply (Hpub h4 _ clock); [| done | done]. transitivity h1; [done |]. transitivity h2; [done |]. by transitivity h3.
  - intros h4 Hs4 Hready. cbn [on_ok]. apply wp_let. eapply wp_mono; [| by eapply publish_all_spec].
    intros h5 [u5 | e] Hs5 _; cbn [on_ok]; [| done].
    apply (harmless_bind G current_time_ms); [apply now_harmless |]. intros t1.
    apply harmless_bind; [apply now_harmless |]. intros t2. apply finish_harmless.
Qed.

Lemma is_not_false o y : is_not o y = false -> o = Some y.
Proof. destruct o as [x |]; [| done]. cbn. intros H%negb_false_iff%beq_true. by subst. Qed.

Lemma is_not_refl y : is_not (Some y) y = false.
Proof. cbn. apply negb_false_iff. by apply beq_true. Qed.

Lemma push_decide_spec state next force H snapshot content rs h :
  heads_read root [] h H -> (forall latest, selected H = Some latest -> latest ∈ heads H) ->
  last_applied_remote_revision next = last_applied_remote_revision state ->
  (force = false -> heads_choice H /\ concurrent H = false /\ forall latest, selected H = Some latest ->
     remote_precedes_baseline state latest = false /\ remote_concurrent_with_baseline state latest = false /\
     exists s, rs = Some s /\ resolved options latest [] h s) ->
  (forall h' pointer, push_from options state force H h' pointer -> may_publish h' pointer) ->
  harmless_from G (push_decide S R options state next force H snapshot content rs) h.
Proof.
  intros Hread Hin Happ Hun Hrule. unfold push_decide. apply wp_let.
  eapply wp_mono; [| instantiate (1 := fun h' _ => h' = h); destruct rs as [s |]; [destruct (_ || _); [done |] |]; [| done]; cbn;
    unfold lift; by destruct (content_hash_of s)].
  intros h0 [rh | e] _ ->; cbn [on_ok]; [| done].
  destruct (if negb force && _ then selected H else None) as [pointer |].
  { apply (harmless_bind G current_time_ms); [apply now_harmless |]. intros t1.
    apply harmless_bind; [apply now_harmless |]. intros t2. apply finish_harmless. }
  set (remote_changed := match selected H with Some _ => _ | None => false end).
  set (local_changed := local_content_changed next content).
  destruct (is_some (selected H) && _ && _ && _).
  { apply (harmless_bind G current_time_ms); [apply now_harmless |]. intros t1. apply finish_harmless. }
  destruct (remote_changed && negb force && local_changed && _) eqn:Econf.
  { destruct (selected H) as [pointer |]; [| by apply andb_true_iff in Econf as [[[? _]%andb_true_iff _]%andb_true_iff _]].
    apply (harmless_bind G (conflict_preview _ _ _ _)); [apply preview_harmless | done]. }
  destruct (remote_changed && negb force && negb local_changed) eqn:Enew; [done |].
  apply push_commit_spec; [intros latest Hl; by eapply head_commits, Hin |].
  intros h' pointer clock Hs Hc Hp. apply Hrule. split.
  { split; [by apply (heads_read_mono _ [] [] h h') | by exists clock]. }
  intros ->. destruct (Hun eq_refl) as (HC & Hconc & Hl). split_and!; [done | done |]. intros latest El.
  destruct (Hl latest El) as (H1 & H2 & s & -> & Hres). split_and!; [done | done |].
  unfold remote_changed in *. rewrite El in *. rewrite Happ in *.
  destruct (is_not (last_applied_remote_revision state) (revision_id latest)) eqn:En; [| left; by apply is_not_false].
  right. exists s. split; [by apply (resolved_mono _ _ [] [] h h') |].
  clearbody local_changed. destruct local_changed; cbn [andb negb] in Econf, Enew; congruence.
Qed.

Lemma push_remote_spec force hash H cached h Q :
  heads_read root [] h H -> (forall latest, selected H = Some latest -> latest ∈ heads H) ->
  (forall s, cached = Some s -> exists latest, selected H = Some latest /\ resolved options latest [] h s) ->
  (forall h' e, h `suffix_of` h' -> Q h' (Err e)) ->
  (forall h' rs, h `suffix_of` h' ->
     (force = false -> forall latest, selected H = Some latest -> exists s, rs = Some s /\ resolved options latest [] h' s) ->
     Q h' (Ok rs)) ->
  wp G (push_remote_snapshot S R options force hash (selected H) cached) h Q.
Proof.
  intros Hread Hin Hcached He Hok. unfold push_remote_snapshot. destruct cached as [s |].
  { apply Hok; [done |]. intros _ latest El. destruct (Hcached s eq_refl) as (l' & El' & Hr). exists s.
    split; [done |]. congruence. }
  destruct (selected H) as [latest |]; [| by apply Hok].
  apply wp_let. eapply (resolve_spec _ _ _ _ _ R HR _ S HS); [by eapply head_commits, Hin | intros h1 e Hs1; cbn; by apply He |].
  intros h1 r Hs1 Hr. cbn [on_ok].
  assert (Hsome : forall s, resolution_snapshot r = Some s -> Q h1 (Ok (Some s))).
  { intros s Es. apply Hok; [done |]. intros _ l' [= <-]. exists s. split; [done |].
    by apply (resolved_mono _ _ [] h h1 h1); [apply nil_suffix | | apply Hr]. }
  destruct r as [s | s | p c u]; [by apply Hsome | by apply Hsome |].
  apply wp_pbind. eapply wp_sp; [apply inconsistent_preview_harmless |]. intros h2 pr Hs2 _.
  destruct (force && _) eqn:E; [| apply He; by transitivity h1].
  apply Hok; [by transitivity h1 |]. by intros ->.
Qed.

(** ** Pull *)

Lemma pull_republish_spec state H latest s h Q :
  commit_head options known h latest ->
  heads_read root [] h H ->
  (forall h' pointer, commit_rule options (last_synced_clock state) h' pointer -> may_publish h' pointer) ->
  (forall h' e, h `suffix_of` h' -> Q h' (Err e)) ->
  (forall h' latest' s', h `suffix_of` h' -> entities s' = entities s -> Q h' (Ok (latest', s'))) ->
  wp G (pull_republish S R options state H latest s) h Q.
Proof.
  intros Hl Hread Hrule He Hok. unfold pull_republish.
  apply wp_pbind. eapply wp_sp; [apply uuid_harmless |]. intros h1 u Hs1 _.
  apply wp_pbind. eapply wp_sp; [apply now_harmless |]. intros h2 t Hs2 _.
  assert (Hs : h `suffix_of` h2) by by transitivity h1.
  apply wp_let, wp_lift. destruct (next_clock _ _ _) as [clock |] eqn:Ec; cbn [on_ok]; [| by apply He].
  apply wp_let, wp_lift. set (s1 := set_meta _ s). destruct (rehash s1) as [s2 |] eqn:Er; cbn [on_ok]; [| by apply He].
  apply rehash_entities in Er as (Ee & _ & Eclock & _).
  apply wp_let. apply (upload_sync_snapshot_spec _ known confirms may_publish may_apply R HR _ S HS).
  - intros p [= <-]. by apply (commit_head_mono _ _ h).
  - intros h3 e Hs3. cbn [on_ok]. apply He. by transitivity h2.
  - intros h3 bytes Hs3 Hv. cbn [on_ok]. apply wp_let. eapply (commit_ready _ _ _ _ _ s2 bytes); [done | | |].
    + intros h4 Hs4. apply Hrule. exists H. split.
      * apply (heads_read_mono _ [] [] h h4); [done | transitivity h2; [done | by transitivity h3] | done].
      * exists clock. split; [done |]. cbn. rewrite Eclock. done.
    + intros h4 e Hs4. cbn [on_ok]. apply He. transitivity h2; [done |]. by transitivity h3.
    + intros h4 Hs4 Hready. cbn [on_ok]. apply wp_let. eapply wp_mono; [| by eapply publish_all_spec].
      intros h5 [u5 | e] Hs5 _; cbn [on_ok];
        (assert (Hs5' : h `suffix_of` h5) by (transitivity h2; [done |]; transitivity h3; [done |]; by transitivity h4)).
      * apply Hok; [done |]. by rewrite Ee.
      * by apply He.
Qed.

Lemma pull_apply_spec state next H latest s content resolution h :
  commit_head options known h latest -> heads_read root [] h H ->
  (resolution = true -> forall h' pointer, commit_rule options (last_synced_clock state) h' pointer -> may_publish h' pointer) ->
  (forall h' s', h `suffix_of` h' -> entities s' = entities s -> may_apply h' s' content) ->
  harmless_from G (pull_apply S R options state next H latest s content resolution) h.
Proof.
  intros Hl Hread Hrule Happly. unfold pull_apply. apply wp_let.
  eapply wp_sp; [by apply (asks_perform G (guard_quiet _ _ _ _ _) BeforeApply) |].
  intros h1 [u | e] Hs1 _; cbn [on_ok]; [| done]. apply wp_let.
  assert (Hgo : forall h2 latest' s', h `suffix_of` h2 -> entities s' = entities s ->
    harmless_from G
      (let~ synced := current_time_ms in
       let~ checked := current_time_ms in
       let next_state := set_checked checked (set_synced_at synced
         (set_validated (revision_id latest') (last_full_validation_at_ms next)
           (set_applied (sync_clock latest') (meta_revision (meta s')) next))) in
       let! (backup, next_state) := apply_sync_snapshot_checked S s' content next_state in
       ok (sync_result next_state (provider R) (bs "Cloud sync snapshot downloaded") (Some latest') (Some backup)
             OutDownloaded)) h2).
  { intros h2 latest' s' Hs2 Ee. apply wp_pbind. eapply wp_sp; [apply now_harmless |]. intros h3 t1 Hs3 _.
    apply wp_pbind. eapply wp_sp; [apply now_harmless |]. intros h4 t2 Hs4 _. apply wp_let. apply (store_apply G).
    - intros h5 r Hq HP. split; [done |]. apply Happly; [| done]. transitivity h2; [done |].
      transitivity h3; [done |]. transitivity h4; [done |]. by apply quiet_since_suffix.
    - by intros h5 [[b st] | e] _ _. }
  destruct resolution.
  - apply pull_republish_spec; [by apply (commit_head_mono _ _ h) | by apply (heads_read_mono _ [] [] h h1) | by apply Hrule | done |].
    intros h2 latest' s' Hs2 Ee. apply Hgo; [by transitivity h1 | done].
  - by apply Hgo.
Qed.

Lemma pull_decide_spec state next force H latest local rs h :
  heads_read root [] h H -> latest ∈ heads H -> resolved options latest [] h rs ->
  last_applied_remote_revision next = last_applied_remote_revision state /\
  last_synced_content_hash next = last_synced_content_hash state ->
  (exists built, since [] h (EvBuild (Ok built)) /\ entities local = entities built) ->
  (force = false -> selected H = Some latest /\ concurrent H = false /\ remote_precedes_baseline state latest = false /\
     remote_concurrent_with_baseline state latest = false) ->
  (force = true -> forall h' pointer, commit_rule options (last_synced_clock state) h' pointer -> may_publish h' pointer) ->
  (forall h' s hash, pull_from options state force H h' s hash -> may_apply h' s hash) ->
  harmless_from G (pull_decide S R options state next force H latest local rs) h.
Proof.
  intros Hread Hl Hres [Eapp Enext] (built & Hb & Eb) Hun Hpub Happly. unfold pull_decide. apply wp_let, wp_lift.
  destruct (content_hash_of local) as [content |] eqn:Ec; cbn [on_ok]; [| done].
  match goal with |- context [pull_apply _ _ _ _ _ _ _ _ _ ?x] => set (resolution := x) end.
  apply wp_let. eapply wp_mono; [| instantiate (1 := fun h' _ => h' = h); destruct resolution; [done |]; cbn; unfold lift; by destruct (content_hash_of rs)].
  intros h0 [equal | e] _ ->; cbn [on_ok]; [| done]. destruct equal.
  { apply (harmless_bind G current_time_ms); [apply now_harmless |]. intros t1. apply finish_harmless. }
  destruct (_ && _ && _ && has_user_content local) eqn:Econf.
  { destruct (negb (has_user_content rs)); [done |].
    apply (harmless_bind G (conflict_preview _ _ _ _)); [apply preview_harmless | done]. }
  destruct (negb (is_not _ _) && negb force) eqn:Enot.
  { destruct (local_content_changed next content); [done |].
    apply (harmless_bind G current_time_ms); [apply now_harmless |]. intros t1. apply finish_harmless. }
  apply pull_apply_spec; [by eapply head_commits | done | |].
  { intros Er. apply Hpub. destruct force; [done |]. destruct (Hun eq_refl) as (_ & H1 & H2 & H3).
    subst resolution. by rewrite H1, H2, H3 in Er. }
  intros h' s' Hs Ee. apply Happly. exists built, latest, rs. split_and!.
  - split; [by apply (since_mono [] [] h h') |]. rewrite <- Ec. symmetry. by apply content_hash_entities.
  - by apply (heads_read_mono _ [] [] h h').
  - done.
  - by apply (resolved_mono _ _ [] [] h h').
  - done.
  - intros ->. rewrite (user_content_entities _ _ Eb) in Econf. unfold local_content_changed in Econf. rewrite Enext in Econf.
    rewrite andb_true_r in Enot. apply negb_false_iff in Enot. rewrite Enot in Econf. rewrite Eapp in Enot.
    destruct (Hun eq_refl) as (H1 & H2 & H3 & H4). split; [split_and!; try done; intros E; by rewrite E, is_not_refl in Enot |].
    case_bool_decide; [by left | right]. by cbn [andb negb] in Econf.
Qed.

Lemma pull_remote_spec hash latest cached h Q :
  commit_head options known h latest ->
  (forall s, cached = Some s -> resolved options latest [] h s) ->
  (forall h' e, h `suffix_of` h' -> Q h' (Err e)) ->
  (forall h' s, h `suffix_of` h' -> resolved options latest [] h' s -> Q h' (Ok s)) ->
  wp G (pull_remote_snapshot S R options hash latest cached) h Q.
Proof.
  intros Hl Hcached He Hok. unfold pull_remote_snapshot. destruct cached as [s |]; [apply Hok; [done | by apply Hcached] |].
  apply wp_let. eapply (resolve_spec _ _ _ _ _ R HR _ S HS); [done | intros h1 e Hs1; cbn; by apply He |].
  intros h1 r Hs1 Hr. cbn [on_ok].
  assert (Hsome : forall s, resolution_snapshot r = Some s -> Q h1 (Ok s)).
  { intros s Es. apply Hok; [done |]. by apply (resolved_mono _ _ [] h h1 h1); [apply nil_suffix | | apply Hr]. }
  destruct r as [s | s | p c u]; [by apply Hsome | by apply Hsome |].
  apply wp_pbind. eapply wp_sp; [apply inconsistent_preview_harmless |]. intros h2 pr Hs2 _.
  apply He. by transitivity h1.
Qed.

(** ** Recovery *)

Lemma recover_remote_spec h Q :
  (forall h' pointer, commit_rule options None h' pointer -> may_publish h' pointer) ->
  (forall h' e, h `suffix_of` h' -> Q h' (Err e)) ->
  (forall h' s s0, h `suffix_of` h' -> current_read options [] h' s0 -> entities s = entities s0 -> Q h' (Ok s)) ->
  wp G (recover_current_remote_snapshot S R options) h Q.
Proof.
  intros Hrule He Hok. unfold recover_current_remote_snapshot. apply wp_let.
  eapply wp_sp; [by eapply read_current_spec |]. intros h1 [[cur |] | e] Hs1 Hc; cbn [on_ok]; [| by apply He | by apply He].
  destruct (Hc _ eq_refl) as [_ Hcur]. specialize (Hcur cur eq_refl).
  apply wp_let. eapply wp_sp; [by eapply read_spec |]. intros h2 [H | e] Hs2 Hr; cbn [on_ok]; [| apply He; by transitivity h1].
  destruct (Hr H eq_refl) as (_ & Hread & _).
  apply wp_pbind. eapply wp_sp; [apply uuid_harmless |]. intros h3 u Hs3 _.
  apply wp_pbind. eapply wp_sp; [apply now_harmless |]. intros h4 t Hs4 _.
  assert (Hs24 : h2 `suffix_of` h4) by by transitivity h3.
  assert (Hs : h `suffix_of` h4) by (transitivity h1; [done | by transitivity h2]).
  apply wp_let, wp_lift. destruct (next_clock _ _ _) as [clock |] eqn:Ec; cbn [on_ok]; [| by apply He].
  apply wp_let, wp_lift. set (s1 := set_meta _ cur). fold (rehash s1). destruct (rehash s1) as [s2 |] eqn:Er; cbn [on_ok]; [| by apply He].
  apply rehash_entities in Er as (Ee & _ & Eclock & _).
  assert (Hread4 : heads_read root [] h4 H).
  { apply (heads_read_mono _ [] h1 h2 h4); [apply nil_suffix | done | done]. }
  apply wp_let. apply (upload_sync_snapshot_spec _ known confirms may_publish may_apply R HR _ S HS).
  { intros p Hp. eapply head_commits; [done |]. by apply (shape_compat _ (proj1 Hread)). }
  { intros h5 e Hs5. cbn [on_ok]. apply He. by transitivity h4. }
  intros h5 bytes Hs5 Hv. cbn [on_ok]. apply wp_let. eapply wp_sp; [by eapply ensure_unchanged_spec |].
  intros h6 [u6 | e] Hs6 _; cbn [on_ok]; [| apply He; transitivity h4; [done | by transitivity h5]].
  assert (Hs46 : h4 `suffix_of` h6) by by transitivity h5.
  apply wp_let. eapply (commit_ready _ _ _ _ _ s2 bytes); [eapply verified_mono; [exact Hs6 | exact Hv] | | |].
  - intros h7 Hs7. apply Hrule. exists H. split.
    + apply (heads_read_mono _ [] [] h4 h7); [done | by transitivity h6 | done].
    + exists clock. split; [done |]. cbn. by rewrite Eclock.
  - intros h7 e Hs7. cbn [on_ok]. apply He. transitivity h4; [done |]. by transitivity h6.
  - intros h7 Hs7 Hready. cbn [on_ok]. apply wp_let. eapply wp_mono; [| by eapply publish_all_spec].
    intros h8 [u8 | e] Hs8 _; cbn [on_ok];
      (assert (Hs8' : h4 `suffix_of` h8) by (transitivity h6; [done |]; by transitivity h7)).
    + apply (Hok h8 s2 cur); [by transitivity h4 | | by rewrite Ee].
      destruct Hcur as (b & Hb1 & Hb2). exists b.
      split; (eapply since_mono; [apply nil_suffix | | eassumption]; transitivity h2; [done | by transitivity h4]).
    + apply He. by transitivity h4.
Qed.
End operations.

Section wholes.
Context `{L : SyncLib} (options : LocalCloudSyncOptions) (known : RemoteSyncPointer -> Prop)
        (confirms : str -> history -> Prop) (may_publish : history -> RemoteSyncPointer -> Prop)
        (may_apply : history -> RawPortableSnapshot -> str -> Prop).
Abbreviation G := (guard options known confirms may_publish may_apply).
Context (R : CloudSyncRemote) (HR : RemoteSpec G confirms R) (P : history -> Prop) (S : CloudLocalStore) (HS : StoreSpec G P S).
Abbreviation root := (remote_root options).

#[local] Instance wrapped_remote : RemoteSpec G confirms (controlled_remote R).
Proof. apply controlled_remote_spec; [apply guard_quiet | done]. Qed.
#[local] Instance wrapped_store : StoreSpec G (happened [commit_event]) (controlled_store S).
Proof. eapply controlled_store_spec; [apply guard_quiet | done]. Qed.

Lemma normalized_keeps state device :
  last_applied_remote_revision (normalized_state state device) = last_applied_remote_revision state /\
  last_synced_content_hash (normalized_state state device) = last_synced_content_hash state.
Proof. unfold normalized_state. by destruct (trim _). Qed.

(** The local snapshot and the heads are known; the baseline is checked. *)
Lemma push_from_heads_spec state force p s content h :
  prepared_ok options h p -> (force = false -> heads_choice (prepared_heads p) /\ concurrent (prepared_heads p) = false) ->
  (forall h' pointer, push_from options state force (prepared_heads p) h' pointer -> may_publish h' pointer) ->
  harmless_from G
    (let! _ := match selected (prepared_heads p) with
               | Some pointer =>
                   if force then ok tt
                   else validate_remote_baseline state pointer options (provider (controlled_remote R))
                          (meta_payload_hash (meta s))
               | None => ok tt
               end in
     let! remote_snapshot :=
       push_remote_snapshot (controlled_store S) (controlled_remote R) options force
         (meta_payload_hash (meta s)) (selected (prepared_heads p)) (prepared_remote p) in
     push_decide (controlled_store S) (controlled_remote R) options state
       (normalized_state state (opt_device options)) force (prepared_heads p) s content remote_snapshot) h.
Proof.
  intros (_ & Hread & Hin & Hcached) Hchoice Hrule. set (H := prepared_heads p) in *. apply wp_let.
  assert (Hgo : (force = false -> forall latest, selected H = Some latest ->
      remote_precedes_baseline state latest = false /\ remote_concurrent_with_baseline state latest = false) ->
    wp G (let! rs := push_remote_snapshot (controlled_store S) (controlled_remote R) options force
            (meta_payload_hash (meta s)) (selected H) (prepared_remote p) in
          push_decide (controlled_store S) (controlled_remote R) options state
            (normalized_state state (opt_device options)) force H s content rs) h (fun _ _ => True)).
  { intros Hbase. apply wp_let. eapply push_remote_spec; [apply _ | apply _ | done | done | done | done |].
    intros h1 rs Hs1 Hrs. cbn [on_ok].
    eapply push_decide_spec; [apply _ | apply _ | | done | apply normalized_keeps | | done].
    { by apply (heads_read_mono _ [] [] h h1). }
    intros Hf. destruct (Hchoice Hf). split_and!; [done | done |]. intros latest El.
    destruct (Hbase Hf latest El). split_and!; [done | done | by apply (Hrs Hf)]. }
  destruct (selected H) as [pointer |] eqn:Esel; [| by apply Hgo].
  destruct force; [by apply Hgo |]. apply validate_baseline_spec; [done |].
  intros H1 H2. apply Hgo. by intros _ latest [= <-].
Qed.

Lemma push_prepared_spec state force prepared h :
  (forall p, prepared = Some p -> prepared_ok options h p /\ (force = false -> heads_choice (prepared_heads p))) ->
  (forall h' H pointer, push_from options state force H h' pointer ->
     (forall p, prepared = Some p -> H = prepared_heads p) -> may_publish h' pointer) ->
  harmless_from G (push_snapshot_prepared S options R state force prepared) h.
Proof.
  intros Hp Hrule. unfold push_snapshot_prepared. apply wp_let. eapply wp_sp; [apply checkpoint_harmless |].
  intros h1 [u | e] Hs1 _; cbn [on_ok]; [| done]. apply wp_let, wp_lift.
  destruct (ensure_enabled options); cbn [on_ok]; [| done].
  apply wp_let. eapply wp_sp; [eapply layout_harmless; apply _ |]. intros h2 [u2 | e] Hs2 _; cbn [on_ok]; [| done].
  apply wp_let. eapply prepare_spec; [apply _ | apply _ | | done |].
  { intros p Ep. eapply prepared_ok_mono; [| by apply Hp]. by transitivity h1. }
  intros h3 p Hs3 Hok Hsrc. cbn [on_ok].
  assert (Hchoice : force = false -> heads_choice (prepared_heads p)).
  { intros Hf. destruct Hsrc as [E | [_ ?]]; [by apply (Hp p E) | done]. }
  assert (Hsame : forall p', prepared = Some p' -> prepared_heads p = prepared_heads p') by (intros p' E; destruct Hsrc as [| [? _]]; congruence).
  apply wp_let, wp_lift. destruct (rehash (prepared_local p)) as [s |]; cbn [on_ok]; [| done].
  apply wp_let, wp_lift. destruct (content_hash_of s) as [content |]; cbn [on_ok]; [| done].
  apply wp_let. destruct force; [apply (push_from_heads_spec state true); by eauto |].
  apply require_single_spec; [| done |].
  - intros Hc. by apply selected_some; [apply Hchoice |].
  - intros Hc. apply (push_from_heads_spec state false); [done | | by eauto]. intros _. split; [by apply Hchoice | done].
Qed.

(** The snapshot of the selected head is fetched and compared. *)
Lemma pull_from_heads_spec state force p local latest h :
  prepared_ok options h p -> entities local = entities (prepared_local p) -> selected (prepared_heads p) = Some latest ->
  (force = false -> concurrent (prepared_heads p) = false /\ remote_precedes_baseline state latest = false /\
     remote_concurrent_with_baseline state latest = false) ->
  (force = true -> forall h' pointer, commit_rule options (last_synced_clock state) h' pointer -> may_publish h' pointer) ->
  (forall h' s hash, pull_from options state force (prepared_heads p) h' s hash -> may_apply h' s hash) ->
  harmless_from G
    (let! remote_snapshot :=
       pull_remote_snapshot (controlled_store S) (controlled_remote R) options (meta_payload_hash (meta local)) latest
         (prepared_remote p) in
     let~ validated := current_time_ms in
     let next_state := set_validated (revision_id latest) (Some validated)
                         (normalized_state state (opt_device options)) in
     pull_decide (controlled_store S) (controlled_remote R) options state next_state force (prepared_heads p) latest
       local remote_snapshot) h.
Proof.
  intros ((built & Hb & Eb) & Hread & Hin & Hcached) El Esel Hun Hpub Happly. apply wp_let.
  eapply pull_remote_spec; [apply _ | apply _ | by eapply head_commits, Hin | | done |].
  { intros s Es. destruct (Hcached s Es) as (l' & El' & Hr). congruence. }
  intros h1 rs Hs1 Hr. cbn [on_ok]. apply wp_pbind. eapply wp_sp; [apply now_harmless |]. intros h2 t Hs2 _.
  assert (Hs : h `suffix_of` h2) by by transitivity h1.
  eapply pull_decide_spec; [apply _ | apply _ | | by apply Hin | | apply normalized_keeps | | by intros Hf; split; [| apply Hun] | done | done].
  - by apply (heads_read_mono _ [] [] h h2).
  - by apply (resolved_mono _ _ [] [] h1 h2).
  - exists built. split; [by apply (since_mono [] [] h h2) | congruence].
Qed.

Lemma pull_prepared_spec state force prepared h :
  (forall p, prepared = Some p -> prepared_ok options h p /\ (force = false -> heads_choice (prepared_heads p))) ->
  (force = true -> forall h' pointer, commit_rule options (last_synced_clock state) h' pointer -> may_publish h' pointer) ->
  (forall h' H s hash, pull_from options state force H h' s hash ->
     (forall p, prepared = Some p -> H = prepared_heads p) -> may_apply h' s hash) ->
  harmless_from G (pull_snapshot_prepared S options R state force prepared) h.
Proof.
  intros Hp Hpub Happly. unfold pull_snapshot_prepared. apply wp_let. eapply wp_sp; [apply checkpoint_harmless |].
  intros h1 [u | e] Hs1 _; cbn [on_ok]; [| done]. apply wp_let, wp_lift.
  destruct (ensure_enabled options); cbn [on_ok]; [| done].
  apply wp_let. eapply wp_sp; [eapply layout_harmless; apply _ |]. intros h2 [u2 | e] Hs2 _; cbn [on_ok]; [| done].
  apply wp_let. eapply prepare_spec; [apply _ | apply _ | | done |].
  { intros p Ep. eapply prepared_ok_mono; [| by apply Hp]. by transitivity h1. }
  intros h3 p Hs3 Hok Hsrc. cbn [on_ok].
  assert (Hchoice : force = false -> heads_choice (prepared_heads p)).
  { intros Hf. destruct Hsrc as [E | [_ ?]]; [by apply (Hp p E) | done]. }
  assert (Hsame : forall p', prepared = Some p' -> prepared_heads p = prepared_heads p') by (intros p' E; destruct Hsrc as [| [? _]]; congruence).
  apply wp_let, wp_lift. destruct (selected (prepared_heads p)) as [latest |] eqn:Esel; cbn [ok_or on_ok]; [| done].
  assert (Hgo : forall local, rehash (prepared_local p) = Ok local ->
    (force = false -> concurrent (prepared_heads p) = false /\ remote_precedes_baseline state latest = false /\
       remote_concurrent_with_baseline state latest = false) -> harmless_from G
    (let! remote_snapshot :=
       pull_remote_snapshot (controlled_store S) (controlled_remote R) options (meta_payload_hash (meta local)) latest
         (prepared_remote p) in
     let~ validated := current_time_ms in
     let next_state := set_validated (revision_id latest) (Some validated)
                         (normalized_state state (opt_device options)) in
     pull_decide (controlled_store S) (controlled_remote R) options state next_state force (prepared_heads p) latest
       local remote_snapshot) h3).
  { intros local [El _]%rehash_entities Hun. apply pull_from_heads_spec; by eauto. }
  apply wp_let. destruct force.
  - cbn [wp ok on_ok]. apply wp_let, wp_lift. destruct (rehash _) as [local |]; cbn [on_ok]; [| done]. by apply Hgo.
  - apply validate_baseline_spec; [done |]. intros Hb1 Hb2. cbn [on_ok]. apply wp_let, wp_lift.
    destruct (rehash _) as [local |]; cbn [on_ok]; [| done]. apply wp_let.
    apply require_single_spec; [| done |]; [by eexists | intros Hc; by apply Hgo].
Qed.

Lemma recover_spec h :
  (forall h' pointer, commit_rule options None h' pointer -> may_publish h' pointer) ->
  (forall h' s hash, recover_rule options h' s hash -> may_apply h' s hash) ->
  harmless_from G (recover_current_snapshot S options R) h.
Proof.
  intros Hpub Happly. unfold recover_current_snapshot. apply wp_let. eapply wp_sp; [apply checkpoint_harmless |].
  intros h1 [u | e] Hs1 _; cbn [on_ok]; [| done]. apply wp_let, wp_lift.
  destruct (ensure_enabled options); cbn [on_ok]; [| done].
  apply wp_let. eapply wp_sp; [eapply layout_harmless; apply _ |]. intros h2 [u2 | e] Hs2 _; cbn [on_ok]; [| done].
  apply wp_let. eapply wp_sp; [apply (store_build G) |]. intros h3 [built | e] Hs3 [_ Hb]; cbn [on_ok]; [| done].
  specialize (Hb built eq_refl). apply wp_let, wp_lift.
  destruct (content_hash_of built) as [hash |] eqn:Eh; cbn [on_ok]; [| done].
  apply wp_let. eapply recover_remote_spec; [apply _ | apply _ | done | done |].
  intros h4 s s0 Hs4 Hcur Ee. cbn [on_ok]. apply wp_pbind. eapply wp_sp; [apply now_harmless |]. intros h5 t Hs5 _.
  apply wp_let. apply (store_apply G); [| by intros h6 [[b st] | e] _ _].
  intros h6 r Hq HP. split; [done |]. apply Happly. apply quiet_since_suffix in Hq.
  assert (Hs46 : h4 `suffix_of` h6) by by transitivity h5.
  apply (recover_rule_mono _ h4); [done |]. exists built, s0. split_and!; [split; [| done] | done | done].
  apply (since_mono [] h2 h3 h4); [apply nil_suffix | done | done].
Qed.

(** ** Collection *)

Lemma cleanup_safe latest h :
  (forall p, latest = Some p -> known p) ->
  harmless_from G (cleanup_sync_snapshots S options R latest) h.
Proof.
  intros Hk. unfold cleanup_sync_snapshots. apply wp_let. eapply wp_sp; [apply checkpoint_harmless |].
  intros h1 [u | e] Hs1 _; cbn [on_ok]; [| done].
  eapply rd_wp; [eapply protected_revisions_spec; apply _ | done |]. intros h2 refs Hq2 _.
  apply wp_let. eapply authenticated_clocks_trusted; [apply _ | apply _ | | done |].
  { intros p Hp. right. right. by apply Hk. }
  intros h3 clocks Hs3 Ht. cbn [on_ok]. apply wp_let. eapply wp_sp; [apply (remote_list G) |].
  intros h4 [paths | e] Hs4 _; cbn [on_ok]; [| done].
  apply wp_let. apply (wp_for_each_in G (fun h' es => trusted_clocks options known h' clocks /\ Forall (entry_ok options known h') es)).
  { intros path h' es _ _ HI. eapply gc_scan_spec; [apply _ | apply _ | done]. }
  { split; [by eapply trusted_mono | done]. }
  intros h5 [es | e] Hs5 Hes; cbn [on_ok]; [| done]. destruct (Hes es eq_refl) as [_ Hent]. rewrite Forall_forall in Hent.
  apply wp_pbind. eapply wp_sp; [apply now_harmless |]. intros h6 now Hs6 _. apply wp_let.
  apply (wp_for_each_in G (fun _ _ => True)); [| done |].
  - intros path h7 s Hs7 Hp _. apply plan_in in Hp as (entry & He & Hd & <-). apply sort_elem in He.
    eapply wp_mono; [by intros; exact I |]. eapply gc_delete_spec; [apply _ | apply _ |].
    eapply proposed_mono; [| by apply (Hent entry He)]. by transitivity h6.
  - intros h7 [s | e] Hs7 _; cbn [on_ok]; [| done].
    apply (harmless_let G checkpoint); [apply checkpoint_harmless |]. intros _. by destruct (snd s).
Qed.
End wholes.
