(* ===== verification/CloudConflict.v ===== *)
(** Inspecting and resolving conflicts (cloud_sync/conflict.rs), the check of the
    remote state with its receipts, and the public operations of
    cloud_sync/mod.rs. *)
From stdpp Require Import base list numbers strings gmap.
From Stdlib Require Import ZArith Lia.
From S2P Require Import Prelude Text SyncTypes SyncEffects SyncHeads SyncProtocol SyncUpload CloudSync.

Section conflict.
Context `{L : SyncLib}.

(** ** Details of a conflict *)

Definition blocks_overwrite (error : CloudSyncError) : bool :=
  match error with
  | RemoteSnapshotUnreadable _ _ _ _ cause _ => blocks_remote_overwrite cause
  | PortableSnapshot (MissingMasterPassword | UnsupportedEncryptionVersion _ | InvalidEncryptionEnvelope
                      | UnsupportedVersion _) => true
  | _ => false
  end.

Definition describe_branch (store : CloudLocalStore) (remote : CloudSyncRemote) (options : LocalCloudSyncOptions)
    (local : RawPortableSnapshot) (local_hash : str) (pointer : RemoteSyncPointer)
    (cache : option CloudSyncCheckCache) : prog (CloudConflictBranch * bool * option CloudSyncCheckCache) :=
  let~ (known, cache) :=
    match cache with
    | Some c => let~ (b, c) := cache_branch c pointer local_hash in Ret (b, Some c)
    | None => Ret (None, None)
    end in
  match known with
  | Some branch => Ret (branch, false, cache)
  | None =>
      let cache := cache_remove pointer <$> cache in
      let~ decoded := read_snapshot_for_pointer store remote options pointer in
      let blocked := match decoded with Err e => blocks_overwrite e | Ok _ => false end in
      let snapshot := match decoded with Ok s => Some s | Err _ => None end in
      let~ cache :=
        match snapshot, cache with
        | Some s, Some c => let~ (_, c) := cache_record pointer s local c in Ret (Some c)
        | _, _ => Ret cache
        end in
      Ret (Branch (revision_id pointer) (device_id pointer)
             (match snapshot with Some s => device_name (meta s) | None => None end)
             (created_at_ms pointer) (is_some snapshot)
             (match snapshot with Some s => summarize local s | None => [] end), blocked, cache)
  end.

Fixpoint describe_branches (store : CloudLocalStore) (remote : CloudSyncRemote) (options : LocalCloudSyncOptions)
    (local : RawPortableSnapshot) (local_hash : str) (pointers : list RemoteSyncPointer)
    (cache : option CloudSyncCheckCache) : prog (list CloudConflictBranch * bool * option CloudSyncCheckCache) :=
  match pointers with
  | [] => Ret ([], false, cache)
  | pointer :: pointers' =>
      let~ (branch, blocked, cache) := describe_branch store remote options local local_hash pointer cache in
      let~ (rest, blocked', cache) := describe_branches store remote options local local_hash pointers' cache in
      Ret (branch :: rest, blocked || blocked', cache)
  end.

Definition detailed (bs : list CloudConflictBranch) (revisions : list str) (local_hash : option str) (blocked : bool)
    (p : CloudConflictPreview) : CloudConflictPreview :=
  Preview bs revisions local_hash (detected_at_ms p) (preview_provider p) (conflict_kind p) (local_payload_hash p)
    (remote_payload_hash p) (remote_revision p) (remote_created_at_ms p) (remote_device_id p) (recovery_revision p)
    (recovery_payload_hash p) (recovery_created_at_ms p) (overwrite_blocked p || blocked) (preview_message p).

Definition details {T} (result : res T) (store : CloudLocalStore) (remote : CloudSyncRemote)
    (options : LocalCloudSyncOptions) (cache : option CloudSyncCheckCache) :
    prog (res T * option CloudSyncCheckCache) :=
  match result with
  | Err (Conflict preview) =>
      let~ local := build_sync_snapshot store in
      let~ heads := read store remote (remote_root options) in
      match local, heads with
      | Ok local, Ok heads =>
          let local_hash := match content_hash_of local with Ok h => Some h | Err _ => None end in
          let pointers := maximal heads in
          let cache := prepare_preview pointers <$> cache in
          let~ (branches, blocked, cache) :=
            describe_branches store remote options local (default [] local_hash) pointers cache in
          Ret (Err (Conflict (detailed branches (observed_revisions heads) local_hash blocked preview)), cache)
      | _, _ => Ret (Err (Conflict preview), cache)
      end
  | _ => Ret (result, cache)
  end.

Definition with_details {T} (m : M T) (store : CloudLocalStore) (remote : CloudSyncRemote)
    (options : LocalCloudSyncOptions) : M T :=
  let~ result := m in
  let~ (result, _) := details result store remote options None in
  Ret result.

(** ** The check *)

Definition check_up_to_date (pointer : RemoteSyncPointer) (payload content : str) (s : CloudSyncState) : CloudSyncState :=
  set_synced payload content (sync_clock pointer) (revision_id pointer) s.

(** The decision from a receipt: the snapshot was authenticated within a day. *)
Definition check_cached (options : LocalCloudSyncOptions) (provider : str) (state checked : CloudSyncState)
    (allow_auto_pull : bool) (local : RawPortableSnapshot) (heads : RemoteHeads) (pointer : RemoteSyncPointer)
    (receipt : ValidatedSnapshot) : M CloudSyncCheck :=
  let! local_hash := lift (content_hash_of local) in
  let decision :=
    if beq local_hash (receipt_content receipt) then UpToDate
    else decide_contents state local_hash (has_user_content local) (remote_has_user_content receipt) pointer
           allow_auto_pull in
  if bool_decide (decision = DecideConflict) then
    let~ preview := conflict_preview options provider (meta_payload_hash (meta local)) pointer in
    fail (Conflict preview)
  else
    let checked :=
      if bool_decide (decision = UpToDate)
      then check_up_to_date pointer (meta_payload_hash (meta local)) local_hash checked else checked in
    ok (Checked decision (Some pointer)
          (set_validated (revision_id pointer) (Some (validated_at_ms receipt)) checked)
          (Prepared local heads None)).

Definition check_decoded (options : LocalCloudSyncOptions) (provider : str) (state checked : CloudSyncState)
    (allow_auto_pull : bool) (local : RawPortableSnapshot) (heads : RemoteHeads) (pointer : RemoteSyncPointer)
    (remote_snapshot : RawPortableSnapshot) : M CloudSyncCheck :=
  let! decision := lift (decide_snapshot_check state local remote_snapshot pointer allow_auto_pull) in
  if bool_decide (decision = DecideConflict) then
    let~ preview := conflict_preview options provider (meta_payload_hash (meta local)) pointer in
    fail (Conflict preview)
  else
    let! checked :=
      if bool_decide (decision = UpToDate) then
        let! content := lift (content_hash_of local) in
        ok (set_validated (revision_id pointer) (last_checked_at_ms checked)
              (check_up_to_date pointer (meta_payload_hash (meta local)) content checked))
      else ok checked in
    ok (Checked decision (Some pointer) checked (Prepared local heads (Some remote_snapshot))).

(** The remote snapshot is read, authenticated and noted in the cache. *)
Definition check_remote (store : CloudLocalStore) (options : LocalCloudSyncOptions) (remote : CloudSyncRemote)
    (state checked : CloudSyncState) (allow_auto_pull : bool) (local : RawPortableSnapshot) (heads : RemoteHeads)
    (pointer : RemoteSyncPointer) (cache : option CloudSyncCheckCache) :
    prog (res CloudSyncCheck * option CloudSyncCheckCache) :=
  let~ resolution := resolve_remote_snapshot store remote options pointer in
  match resolution with
  | Err e => Ret (Err e, cache)
  | Ok (Inconsistent p candidate unreadable) =>
      let~ preview := remote_inconsistent_preview (provider remote) (meta_payload_hash (meta local)) p candidate
                        unreadable in
      Ret (Err (Conflict preview), cache)
  | Ok (Current s) | Ok (LegacyMigrated s) =>
      let~ (recorded, cache) :=
        match cache with
        | Some c => let~ (r, c) := cache_record pointer s local c in Ret (r, Some c)
        | None => Ret (Ok tt, None)
        end in
      match recorded with
      | Err e => Ret (Err e, cache)
      | Ok _ =>
          let~ r := check_decoded options (provider remote) state checked allow_auto_pull local heads pointer s in
          Ret (r, cache)
      end
  end.

(** The part of the check that does not depend on the cache. *)
Definition check_start (store : CloudLocalStore) (options : LocalCloudSyncOptions) (remote : CloudSyncRemote)
    (state : CloudSyncState) : M (RawPortableSnapshot * CloudSyncState * RemoteHeads) :=
  let! _ := lift (ensure_enabled options) in
  let! built := build_sync_snapshot store in
  let! local := lift (rehash built) in
  let~ now := current_time_ms in
  let! heads := read store remote (remote_root options) in
  ok (local, set_checked now state, heads).

Definition check_head (options : LocalCloudSyncOptions) (provider : str) (state : CloudSyncState)
    (local : RawPortableSnapshot) (heads : RemoteHeads) : M (option RemoteSyncPointer) :=
  let! _ := require_single heads options provider (meta_payload_hash (meta local)) in
  match selected heads with
  | None => ok None
  | Some pointer =>
      let! _ := validate_remote_baseline state pointer options provider (meta_payload_hash (meta local)) in
      ok (Some pointer)
  end.

Definition check_snapshot_inner (store : CloudLocalStore) (options : LocalCloudSyncOptions) (remote : CloudSyncRemote)
    (state : CloudSyncState) (allow_auto_pull : bool) (cache : option CloudSyncCheckCache) :
    prog (res CloudSyncCheck * option CloudSyncCheckCache) :=
  let~ started := check_start store options remote state in
  match started with
  | Err e => Ret (Err e, cache)
  | Ok (local, checked, heads) =>
      let cache := prepare_preview (maximal heads) <$> cache in
      let~ head := check_head options (provider remote) state local heads in
      match head with
      | Err e => Ret (Err e, cache)
      | Ok None => Ret (Ok (Checked LocalChanged None checked (Prepared local heads None)), cache)
      | Ok (Some pointer) =>
          let~ (receipt, cache) :=
            match cache with
            | Some c => let~ (e, c) := cache_get c pointer in Ret (e, Some c)
            | None => Ret (None, None)
            end in
          match receipt with
          | Some receipt =>
              let~ r := check_cached options (provider remote) state checked allow_auto_pull local heads pointer receipt in
              Ret (r, cache)
          | None =>
              check_remote store options remote state checked allow_auto_pull local heads pointer
                (cache_remove pointer <$> cache)
          end
      end
  end.

Definition check_snapshot_with_remote_state (store : CloudLocalStore) (options : LocalCloudSyncOptions)
    (remote : CloudSyncRemote) (state : CloudSyncState) (allow_auto_pull : bool) : M CloudSyncCheck :=
  with_details (let~ (r, _) := check_snapshot_inner store options remote state allow_auto_pull None in Ret r)
    store remote options.

Definition check_snapshot_with_remote_cached (store : CloudLocalStore) (options : LocalCloudSyncOptions)
    (remote : CloudSyncRemote) (state : CloudSyncState) (allow_auto_pull : bool) (cache : CloudSyncCheckCache) :
    prog (res CloudSyncCheck * option CloudSyncCheckCache) :=
  let cache := cache_scope options (provider remote) cache in
  let~ (r, cache) := check_snapshot_inner store options remote state allow_auto_pull (Some cache) in
  details r store remote options cache.

(** ** The public operations *)

Definition push_snapshot_with_remote (store : CloudLocalStore) (options : LocalCloudSyncOptions)
    (remote : CloudSyncRemote) (state : CloudSyncState) (force : bool) : M CloudSyncResult :=
  with_details (push_snapshot_prepared store options remote state force None)
    (controlled_store store) (controlled_remote remote) options.

Definition pull_snapshot_with_remote (store : CloudLocalStore) (options : LocalCloudSyncOptions)
    (remote : CloudSyncRemote) (state : CloudSyncState) (force : bool) : M CloudSyncResult :=
  with_details (pull_snapshot_prepared store options remote state force None)
    (controlled_store store) (controlled_remote remote) options.

Definition check_push (self : CloudSyncCheck) (store : CloudLocalStore) (options : LocalCloudSyncOptions)
    (remote : CloudSyncRemote) : M CloudSyncResult :=
  with_details (push_snapshot_prepared store options remote (check_state self) false (Some (check_prepared self)))
    (controlled_store store) (controlled_remote remote) options.

Definition check_pull (self : CloudSyncCheck) (store : CloudLocalStore) (options : LocalCloudSyncOptions)
    (remote : CloudSyncRemote) : M CloudSyncResult :=
  with_details (pull_snapshot_prepared store options remote (check_state self) false (Some (check_prepared self)))
    (controlled_store store) (controlled_remote remote) options.

(** ** Resolution of a conflict *)

Record CloudResolutionRequest := ResolutionRequest {
  expected_revisions : list str;
  selected_revision : option str;
  request_local_hash : str
}.

Definition changed_preview (store : CloudLocalStore) (remote : CloudSyncRemote) (options : LocalCloudSyncOptions) :
    prog CloudSyncError :=
  let~ local := build_sync_snapshot store in
  match local with
  | Err _ => Ret LocalChangedDuringSync
  | Ok local =>
      let~ heads := read store remote (remote_root options) in
      let pointer := default (pointer_from_snapshot local)
                       (match heads with Ok heads => selected heads | Err _ => None end) in
      let~ preview := conflict_preview options (provider remote) (meta_payload_hash (meta local)) pointer in
      Ret (Conflict (set_message (bs "Cloud sync changed; review the refreshed branches before confirming again") preview))
  end.

Definition fail_changed {A} (store : CloudLocalStore) (remote : CloudSyncRemote) (options : LocalCloudSyncOptions) : M A :=
  let~ error := changed_preview store remote options in fail error.

Definition find_head (revision : str) (heads : RemoteHeads) : option RemoteSyncPointer :=
  List.find (fun p => beq (revision_id p) revision) (maximal heads).

Section resolution.
Context (store : CloudLocalStore) (inner : CloudSyncRemote) (options : LocalCloudSyncOptions)
        (request : CloudResolutionRequest).

(** [ResolutionRemote::validate]. *)
Definition validate_observed : M RemoteHeads :=
  let! heads := read store inner (remote_root options) in
  if bool_decide (observed_revisions heads = expected_revisions request) then ok heads
  else
    match selected heads with
    | Some pointer =>
        let~ preview := conflict_preview options (provider inner) [] pointer in
        fail (Conflict preview)
    | None => fail_changed store inner options
    end.

(** What must still hold when the device's head is about to be written. *)
Definition revalidate : M unit :=
  let! heads := validate_observed in
  let! local := build_sync_snapshot store in
  let! hash := lift (content_hash_of local) in
  if negb (beq hash (request_local_hash request)) then fail_changed store inner options
  else
    match selected_revision request with
    | None => ok tt
    | Some revision =>
        match find_head revision heads with
        | None => fail_changed store inner options
        | Some pointer =>
            let~ decoded := read_snapshot_for_pointer store inner options pointer in
            if is_ok decoded then ok tt else fail_changed store inner options
        end
    end.

Definition resolution_remote : CloudSyncRemote := {|
  provider := provider inner;
  file_capacity := file_capacity inner;
  create_dir := create_dir inner;
  read_if_exists := read_if_exists inner;
  write p b :=
    let! _ := if beq p (device_head_path (remote_root options) (opt_device options)) then revalidate else ok tt in
    write inner p b;
  delete := delete inner;
  list_files := list_files inner
|}.

(** Every observed branch is looked at before it is overwritten. *)
Definition check_overwrite (pointer : RemoteSyncPointer) (_ : unit) : M unit :=
  let~ decoded := read_snapshot_for_pointer store inner options pointer in
  match decoded with
  | Err e => if blocks_overwrite e then fail_changed store inner options else ok tt
  | Ok _ => ok tt
  end.

Definition resolve_inner (state : CloudSyncState) : M CloudSyncResult :=
  let! _ := checkpoint in
  let! heads := validate_observed in
  let! local := build_sync_snapshot store in
  let! hash := lift (content_hash_of local) in
  if negb (beq hash (request_local_hash request)) then fail_changed store inner options
  else
    match selected_revision request with
    | Some revision =>
        let! pointer := lift (ok_or (find_head revision heads) NoRemoteSnapshot) in
        let heads := Heads (compatibility heads) (Some pointer) (concurrent heads) (SyncHeads.heads heads) in
        let! snapshot := read_snapshot_for_pointer store inner options pointer in
        pull_snapshot_prepared store options resolution_remote state true (Some (Prepared local heads (Some snapshot)))
    | None =>
        let! _ := for_each (maximal heads) tt check_overwrite in
        push_snapshot_prepared store options resolution_remote state true (Some (Prepared local heads None))
    end.

Definition refreshable (error : CloudSyncError) : bool :=
  match error with
  | NoRemoteSnapshot | SnapshotMissing _ | LocalChangedDuringSync | RemoteSnapshotUnreadable _ _ _ _ _ _
  | CorruptedSnapshot _ _ | RevisionMismatch _ _ | HashMismatch _ _ => true
  | _ => false
  end.

Definition resolve_guarded (state : CloudSyncState) : M CloudSyncResult :=
  let~ result := resolve_inner state in
  match result with
  | Err error => if refreshable error then fail_changed store inner options else fail error
  | Ok r => ok r
  end.
End resolution.

Definition resolve_with_remote (store : CloudLocalStore) (options : LocalCloudSyncOptions) (remote : CloudSyncRemote)
    (state : CloudSyncState) (request : CloudResolutionRequest) : M CloudSyncResult :=
  let! _ := checkpoint in
  let store := controlled_store store in
  let remote := controlled_remote remote in
  with_details (resolve_guarded store remote options request state) store remote options.

End conflict.
