(* ===== verification/CloudConflictSafety.v ===== *)
(** The check, the details of a conflict and its resolution respect the guard:
    inspecting changes nothing, what a check prepares was really read, and a
    resolution publishes only what was confirmed again just before. *)
From stdpp Require Import base list numbers strings gmap.
From Stdlib Require Import ZArith Lia.
From S2P Require Import Prelude Text SyncTypes SyncEffects SyncLogic SyncHeads SyncHeadsSpec SyncProtocol SyncReadSpec.
From S2P Require Import SyncUpload SyncSafety CloudSync CloudSafety CloudConflict.

Section inspection.
Context `{L : SyncLib} (options : LocalCloudSyncOptions) (known : RemoteSyncPointer -> Prop)
        (confirms : str -> history -> Prop) (may_publish : history -> RemoteSyncPointer -> Prop)
        (may_apply : history -> RawPortableSnapshot -> str -> Prop).
Abbreviation G := (guard options known confirms may_publish may_apply).
Context (C : str -> history -> Prop) (R : CloudSyncRemote) (HR : RemoteSpec G C R) (P : history -> Prop) (S : CloudLocalStore) (HS : StoreSpec G P S).
Abbreviation root := (remote_root options).

Lemma cache_get_harmless c pointer : harmless G (cache_get c pointer).
Proof. apply harmless_bind; [apply now_harmless | done]. Qed.

Lemma cache_record_harmless pointer s local c : harmless G (cache_record pointer s local c).
Proof.
  unfold cache_record. destruct (content_hash_of s); [| done]. apply harmless_bind; [apply now_harmless |].
  intros t. by destruct (content_hash_of local).
Qed.

Lemma read_pointer_harmless pointer : harmless G (read_snapshot_for_pointer S R options pointer).
Proof. by eapply rd_harmless, read_snapshot_for_pointer_spec. Qed.

Lemma read_heads_harmless : harmless G (read S R root).
Proof. by eapply rd_harmless, read_spec. Qed.

Lemma build_harmless : harmless G (build_sync_snapshot S).
Proof. by eapply asks_harmless, (store_build G). Qed.

Lemma describe_branch_harmless local hash pointer cache :
  harmless G (describe_branch S R options local hash pointer cache).
Proof.
  unfold describe_branch. apply harmless_bind.
  { destruct cache as [c |]; [| done]. apply harmless_bind; [| by intros [b c']].
    apply harmless_bind; [apply cache_get_harmless | by intros [e c']]. }
  intros [[branch |] cache']; [done |]. apply harmless_bind; [apply read_pointer_harmless |]. intros decoded.
  apply harmless_bind; [| done]. destruct decoded as [s |]; cbn; [| done]. destruct cache' as [c |]; cbn; [| done].
  apply harmless_bind; [apply cache_record_harmless | by intros [r c']].
Qed.

Lemma describe_branches_harmless local hash pointers cache :
  harmless G (describe_branches S R options local hash pointers cache).
Proof.
  revert cache. induction pointers as [| p pointers IH]; intros cache; cbn [describe_branches]; [done |].
  apply harmless_bind; [apply describe_branch_harmless |]. intros [[b blocked] c].
  apply harmless_bind; [apply IH |]. by intros [[rest blocked'] c'].
Qed.

Lemma details_harmless {T} (r : res T) cache : harmless G (details r S R options cache).
Proof.
  unfold details. destruct r as [t | e]; [done |]. destruct e; try done.
  apply harmless_bind; [apply build_harmless |]. intros local. apply harmless_bind; [apply read_heads_harmless |].
  intros H. destruct local as [local |]; [| done]. destruct H as [H |]; [| done].
  apply harmless_bind; [apply describe_branches_harmless |]. by intros [[bs blocked] c].
Qed.

(** Details are added to errors only. *)
Lemma details_spec {T} (r : res T) cache h :
  wp G (details r S R options cache) h (fun h' r' => forall t, fst r' = Ok t -> r = Ok t).
Proof.
  destruct r as [t | e]; [by intros t' E |]. unfold details. destruct e; try (by intros t' E).
  apply wp_pbind. eapply wp_sp; [apply build_harmless |]. intros h1 local _ _.
  apply wp_pbind. eapply wp_sp; [apply read_heads_harmless |]. intros h2 H _ _.
  destruct local as [local |]; [| done]. destruct H as [H |]; [| done].
  apply wp_pbind. eapply wp_sp; [apply describe_branches_harmless |]. by intros h3 [[bs blocked] c] _ _.
Qed.

Lemma with_details_harmless {T} (m : M T) h : harmless_from G m h -> harmless_from G (with_details m S R options) h.
Proof.
  intros Hm. apply wp_pbind. eapply wp_mono; [| exact Hm]. intros h' r _ _.
  apply (harmless_bind G (details r S R options None)); [apply details_harmless | by intros [r' c]].
Qed.

End inspection.

(** ** The check *)

Section check.
Context `{L : SyncLib} (options : LocalCloudSyncOptions) (known : RemoteSyncPointer -> Prop)
        (confirms : str -> history -> Prop) (may_publish : history -> RemoteSyncPointer -> Prop)
        (may_apply : history -> RawPortableSnapshot -> str -> Prop).
Abbreviation G := (guard options known confirms may_publish may_apply).
Context (R : CloudSyncRemote) (HR : RemoteSpec G confirms R) (P : history -> Prop) (S : CloudLocalStore) (HS : StoreSpec G P S).
Abbreviation root := (remote_root options).

Lemma check_cached_spec state t auto local H pointer receipt provider h :
  selected H = Some pointer ->
  wp G (check_cached options provider state (set_checked t state) auto local H pointer receipt) h
    (fun h' r => forall c, r = Ok c -> check_prepared c = Prepared local H None /\ checked_state state H (check_state c)).
Proof.
  intros Hst. unfold check_cached. apply wp_let, wp_lift. destruct (content_hash_of local); cbn [on_ok]; [| done].
  case_bool_decide; [| intros c [= <-]; split; [done |]; case_bool_decide; [right; by exists pointer | by left]].
  apply wp_pbind. eapply wp_sp; [apply preview_harmless |]. done.
Qed.

Lemma check_decoded_spec state t auto local H pointer rs provider h :
  selected H = Some pointer ->
  wp G (check_decoded options provider state (set_checked t state) auto local H pointer rs) h
    (fun h' r => h `suffix_of` h' /\ forall c, r = Ok c ->
       check_prepared c = Prepared local H (Some rs) /\ checked_state state H (check_state c)).
Proof.
  intros Hst. unfold check_decoded. apply wp_let, wp_lift. destruct (decide_snapshot_check _ _ _ _ _); cbn [on_ok]; [| done].
  case_bool_decide.
  { apply wp_pbind. eapply wp_sp; [apply preview_harmless |]. done. }
  apply wp_let. eapply wp_mono; [| instantiate (1 := fun h' r => h' = h /\ forall c, r = Ok c -> checked_state state H c);
    case_bool_decide; [| by split; [| intros c [= <-]; left]]; cbn; unfold lift; destruct (content_hash_of local);
    (split; [done |]); [intros c [= <-]; right; by exists pointer | done]].
  intros h' [c |] _ [-> Hc]; cbn [on_ok]; [| done]. split; [done |]. intros c' [= <-]. split; [done | by apply Hc].
Qed.

(** What a check prepares for the operation that follows it. *)
Definition check_post (state : CloudSyncState) (h : history) (r : res CloudSyncCheck * option CloudSyncCheckCache) : Prop :=
  forall c, fst r = Ok c ->
    prepared_ok options h (check_prepared c) /\ heads_choice (prepared_heads (check_prepared c)) /\
    checked_state state (prepared_heads (check_prepared c)) (check_state c).

Lemma check_remote_spec state t auto local H pointer cache h :
  (exists built, since [] h (EvBuild (Ok built)) /\ entities local = entities built) ->
  heads_read root [] h H -> heads_choice H -> selected H = Some pointer ->
  wp G (check_remote S options R state (set_checked t state) auto local H pointer cache) h (check_post state).
Proof.
  intros (built & Hb & El) Hread HC Esel. unfold check_remote. apply wp_pbind.
  eapply (resolve_spec _ _ _ _ _ R HR _ S HS); [eapply head_commits; [done | by apply choice_in] | done |].
  intros h1 r Hs1 Hres.
  assert (Hgo : forall s, resolution_snapshot r = Some s -> wp G
    (let~ (recorded, cache) :=
      match cache with
      | Some c => let~ (r, c) := cache_record pointer s local c in Ret (r, Some c)
      | None => Ret (Ok tt, None)
      end in
    match recorded with
    | Err e => Ret (Err e, cache)
    | Ok _ =>
        let~ r := check_decoded options (provider R) state (set_checked t state) auto local H pointer s in Ret (r, cache)
    end) h1 (check_post state)).
  { intros s Es. apply wp_pbind. eapply wp_sp; [destruct cache as [c |]; [| apply harmless_ret];
      apply harmless_bind; [apply cache_record_harmless | by intros [e c']] |].
    intros h2 [recorded c2] Hs2 _. destruct recorded as [u |]; [| done]. apply wp_pbind.
    eapply wp_mono; [| by apply check_decoded_spec]. intros h3 r3 Hs3 [_ Hc] c Ec. cbn [fst] in Ec.
    destruct (Hc c Ec) as [-> Hst].
    assert (Hs : h1 `suffix_of` h3) by by transitivity h2.
    assert (Hs0 : h `suffix_of` h3) by by transitivity h1.
    split; [| by split]. split_and!; cbn [prepared_local prepared_heads prepared_remote].
    - exists built. split; [by apply (since_mono [] [] h h3) | done].
    - by apply (heads_read_mono _ [] [] h h3).
    - intros latest. by apply choice_in.
    - intros s' [= <-]. exists pointer. split; [done |].
      apply (resolved_mono _ _ [] h h1 h3); [apply nil_suffix | done | by apply Hres]. }
  destruct r as [s | s | p c u]; [by apply Hgo | by apply Hgo |].
  apply wp_pbind. eapply wp_sp; [apply inconsistent_preview_harmless |]. done.
Qed.

Lemma check_inner_spec state auto cache h :
  wp G (check_snapshot_inner S options R state auto cache) h (check_post state).
Proof.
  unfold check_snapshot_inner, check_start. apply wp_pbind. apply wp_let, wp_lift.
  destruct (ensure_enabled options); cbn [on_ok]; [| done].
  apply wp_let. eapply wp_sp; [apply (store_build G) |]. intros h1 [built | e] Hs1 [_ Hb]; cbn [on_ok]; [| done].
  specialize (Hb built eq_refl). apply wp_let, wp_lift. destruct (rehash built) as [local |] eqn:Er; cbn [on_ok]; [| done].
  apply rehash_entities in Er as [El _]. apply wp_pbind. eapply wp_sp; [apply now_harmless |]. intros h2 t Hs2 _.
  apply wp_let. eapply wp_sp; [by eapply read_spec |]. intros h3 [H | e] Hs3 Hr; cbn [on_ok]; [| done].
  destruct (Hr H eq_refl) as (_ & Hread & HC).
  assert (Hb' : forall h', h3 `suffix_of` h' ->
    (exists built, since [] h' (EvBuild (Ok built)) /\ entities local = entities built) /\ heads_read root [] h' H).
  { intros h' Hs. split.
    - exists built. split; [| done]. apply (since_mono [] h h1 h'); [apply nil_suffix | | done].
      transitivity h2; [done |]. by transitivity h3.
    - apply (heads_read_mono _ [] h2 h3 h'); [apply nil_suffix | done | done]. }
  assert (Hok : forall h', h3 `suffix_of` h' -> prepared_ok options h' (Prepared local H None) /\ heads_choice H).
  { intros h' Hs. split; [| done]. destruct (Hb' h' Hs). split_and!; [done | done | | done]. intros latest. by apply choice_in. }
  cbn [wp ok]. apply wp_pbind. unfold check_head. apply wp_let. apply require_single_spec; [by apply selected_some | done |].
  intros _. cbn [on_ok]. destruct (selected H) as [pointer |] eqn:Esel; [| intros c [= <-]; destruct (Hok h3 ltac:(done)); split_and!; [done | done | by left]].
  apply wp_let. apply validate_baseline_spec; [done |]. intros _ _. cbn [on_ok wp ok].
  apply wp_pbind. eapply wp_sp; [destruct (prepare_preview _ <$> cache) as [c |]; [| apply harmless_ret];
    apply harmless_bind; [apply cache_get_harmless | by intros [e c']] |].
  intros h4 [receipt cache'] Hs4 _. destruct receipt as [receipt |].
  - apply wp_pbind. eapply wp_mono; [| by apply check_cached_spec]. intros h5 r Hs5 Hc c Ec. cbn [fst] in Ec.
    destruct (Hc c Ec) as [-> Hst]. destruct (Hok h5 ltac:(by transitivity h4)). by split_and!.
  - destruct (Hb' h4 Hs4). by apply check_remote_spec.
Qed.
End check.

(** ** Resolution *)

Section resolution.
Context `{L : SyncLib} (options : LocalCloudSyncOptions) (request : CloudResolutionRequest).
Abbreviation root := (remote_root options).

(** Since the last change the heads were read again and are the observed ones, the
    local data was built again and has the agreed hash, and the selected branch
    was authenticated again. *)
Definition confirmed_since (h pre : history) : Prop :=
  exists H built, heads_read root h pre H /\ observed_revisions H = expected_revisions request /\
    since h pre (EvBuild (Ok built)) /\ content_hash_of built = Ok (request_local_hash request) /\
    forall revision, selected_revision request = Some revision ->
      exists pointer s, pointer ∈ maximal H /\ revision_id pointer = revision /\ authentic options pointer h pre s.

Definition confirmed (path : str) (pre : history) : Prop :=
  path = device_head_path root (opt_device options) -> exists h, quiet_since h pre /\ confirmed_since h pre.

Lemma confirmed_since_later h h1 h2 : quiet_since h1 h2 -> confirmed_since h h1 -> confirmed_since h h2.
Proof.
  intros Hq%quiet_since_suffix (H & built & H1 & H2 & H3 & H4 & H5). exists H, built.
  split_and!; [by apply (heads_read_mono _ h h h1 h2) | done | by apply (since_mono h h h1 h2) | done |].
  intros revision Hr. destruct (H5 revision Hr) as (p & s & Ha & Hb & Hc). exists p, s. split_and!; [done | done |].
  by apply (authentic_mono _ _ h h h1 h2).
Qed.

Lemma confirmed_later path h h' : quiet_since h h' -> confirmed path h -> confirmed path h'.
Proof.
  intros Hq Hc Hp. destruct (Hc Hp) as (h0 & Hq0 & Hs). exists h0. split; [by eapply quiet_since_trans |].
  by apply (confirmed_since_later h0 h).
Qed.

Context (known : RemoteSyncPointer -> Prop) (may_publish : history -> RemoteSyncPointer -> Prop)
        (may_apply : history -> RawPortableSnapshot -> str -> Prop).
Abbreviation G := (guard options known confirmed may_publish may_apply).
Context (R : CloudSyncRemote) (HR : RemoteSpec G (fun _ _ => True) R).
Context (P : history -> Prop) (S : CloudLocalStore) (HS : StoreSpec G P S).

Lemma changed_preview_harmless : harmless G (changed_preview S R options).
Proof.
  unfold changed_preview. apply harmless_bind; [by eapply build_harmless |]. intros [local |]; [| done].
  apply harmless_bind; [by eapply read_heads_harmless |]. intros H. apply harmless_bind; [apply preview_harmless | done].
Qed.

Lemma fail_changed_spec {A} (F : history -> history -> A -> Prop) : rd G (fail_changed S R options) F.
Proof.
  intros h. apply wp_pbind. eapply wp_sp; [apply changed_preview_harmless |]. done.
Qed.

Lemma validate_observed_spec :
  rd G (validate_observed S R options request) (fun h h' H =>
    heads_read root h h' H /\ heads_choice H /\ observed_revisions H = expected_revisions request).
Proof.
  intros h. unfold validate_observed. eapply rd_wp; [by eapply read_spec | done |]. intros h1 H Hq [Hread HC].
  case_bool_decide as E; [by intros H' [= <-] |]. destruct (selected H) as [p |].
  - apply wp_pbind. eapply wp_sp; [apply preview_harmless |]. done.
  - eapply wp_sp; [apply (fail_changed_spec (fun _ _ _ => False)) |]. intros h2 r _ Hr a Ha. by destruct (Hr a Ha) as [_ []].
Qed.

Lemma rd_impossible {A} (m : M A) h (Q : A -> Prop) h0 (F : history -> A -> Prop) :
  rd G m (fun _ _ _ => False) -> wp G m h (fun h' r => forall a, r = Ok a -> quiet_since h0 h' /\ F h' a).
Proof. intros Hm. eapply wp_sp; [exact Hm |]. intros h' r _ Hr a Ha. by destruct (Hr a Ha) as [_ []]. Qed.

Lemma revalidate_spec : rd G (revalidate S R options request) (fun h h' _ => confirmed_since h h').
Proof.
  intros h. unfold revalidate. eapply rd_wp; [apply validate_observed_spec | done |]. intros h1 H Hq1 (Hread & _ & Eobs).
  apply wp_let. eapply wp_sp; [apply (store_build G) |]. intros h2 [built | e] Hs2 [Hq2 Hb]; cbn [on_ok]; [| done].
  specialize (Hb built eq_refl). apply wp_let, wp_lift. destruct (content_hash_of built) as [hash |] eqn:Eh; cbn [on_ok]; [| done].
  destruct (beq hash (request_local_hash request)) eqn:Eb; cbn [negb]; [| apply rd_impossible; [exact (fun _ => True) | apply fail_changed_spec]].
  apply beq_true in Eb. subst hash.
  assert (Hq : quiet_since h h2) by by eapply quiet_since_trans.
  assert (Hbase : forall h', quiet_since h2 h' ->
    (forall revision, selected_revision request = Some revision ->
      exists pointer s, pointer ∈ maximal H /\ revision_id pointer = revision /\ authentic options pointer h h' s) ->
    confirmed_since h h').
  { intros h' Hq' Hsel. exists H, built. split_and!; [| done | | done | done].
    - apply (heads_read_mono _ h h h1 h'); [done | | done]. by apply quiet_since_suffix; eapply quiet_since_trans.
    - apply (since_mono h h1 h2 h'); [by apply quiet_since_suffix | by apply quiet_since_suffix | done]. }
  destruct (selected_revision request) as [revision |] eqn:Esel.
  2:{ intros u _. split; [done |]. apply Hbase; [apply quiet_since_refl | done]. }
  unfold find_head. destruct (List.find _ (maximal H)) as [pointer |] eqn:Ef.
  2:{ apply rd_impossible; [exact (fun _ => True) | apply fail_changed_spec]. }
  apply find_some in Ef as [Hin Er]. apply list_elem_of_In in Hin. apply beq_true in Er.
  apply wp_pbind. eapply wp_sp; [by eapply read_snapshot_for_pointer_spec |]. intros h3 [s | e] Hs3 Hr; cbn [is_ok].
  - destruct (Hr s eq_refl) as [Hq3 Ha]. intros u _. split; [by eapply quiet_since_trans |]. apply Hbase; [done |].
    intros r [= <-]. exists pointer, s. split_and!; [done | done |].
    apply (authentic_mono _ _ h h2 h3 h3); [by apply quiet_since_suffix | done | done].
  - apply rd_impossible; [exact (fun _ => True) | apply fail_changed_spec].
Qed.

#[export] Instance resolution_remote_spec : RemoteSpec G confirmed (resolution_remote S R options request).
Proof.
  split; intros; try apply HR. cbn [resolution_remote write].
  eapply (changes_let _ (fun _ => True)); [intros h h'; apply confirmed_later | | intros _; exact (@remote_write G _ R HR p b)].
  intros h. destruct (beq p _) eqn:E.
  - eapply wp_sp; [apply revalidate_spec |]. intros h' r _ Hr u Hu. destruct (Hr u Hu) as [Hq Hc]. split; [done |].
    intros _. by exists h.
  - intros u _. split; [apply quiet_since_refl |]. intros ->. unfold beq in E. by rewrite bool_decide_eq_true_2 in E.
Qed.

Lemma heads_read_select h h' H sel :
  heads_read root h h' H -> heads_read root h h' (Heads (compatibility H) sel (concurrent H) (SyncHeads.heads H)).
Proof. intros ([H1 H2] & H3 & H4 & H5). by split_and!; [split | ..]. Qed.

Lemma resolve_inner_spec state h :
  (forall h' pointer, push_rule options state true h' pointer -> may_publish h' pointer) ->
  (forall h' pointer, commit_rule options (last_synced_clock state) h' pointer -> may_publish h' pointer) ->
  (forall h' s hash, pull_rule options state true h' s hash -> may_apply h' s hash) ->
  harmless_from G (resolve_inner S R options request state) h.
Proof.
  intros Hpush Hcommit Happly. unfold resolve_inner. apply wp_let. eapply wp_sp; [apply checkpoint_harmless |].
  intros h1 [u | e] Hs1 _; cbn [on_ok]; [| done].
  eapply rd_wp; [apply validate_observed_spec | done |]. intros h2 H Hq2 (Hread & HC & _).
  apply wp_let. eapply wp_sp; [apply (store_build G) |]. intros h3 [built | e] Hs3 [_ Hb]; cbn [on_ok]; [| done].
  specialize (Hb built eq_refl). apply wp_let, wp_lift. destruct (content_hash_of built) as [hash |]; cbn [on_ok]; [| done].
  destruct (negb _); [eapply wp_sp; [apply (fail_changed_spec (fun _ _ _ => True)) | done] |].
  assert (Hprep : forall h' sel remote, h3 `suffix_of` h' ->
    (forall latest, sel = Some latest -> latest ∈ SyncHeads.heads H) ->
    (forall s, remote = Some s -> exists latest, sel = Some latest /\ resolved options latest [] h' s) ->
    prepared_ok options h' (Prepared built (Heads (compatibility H) sel (concurrent H) (SyncHeads.heads H)) remote)).
  { intros h' sel remote Hs Hin Hrem. split_and!; cbn [prepared_local prepared_heads prepared_remote]; [| | done | done].
    - exists built. split; [| done]. by apply (since_mono [] h2 h3 h'); [apply nil_suffix | |].
    - apply heads_read_select, (heads_read_mono _ [] h1 h2 h'); [apply nil_suffix | by transitivity h3 | done]. }
  destruct (selected_revision request) as [revision |].
  - apply wp_let, wp_lift. unfold find_head. destruct (List.find _ (maximal H)) as [pointer |] eqn:Ef; cbn [ok_or on_ok]; [| done].
    apply find_some in Ef as [Hin _]. apply list_elem_of_In, elem_of_maximal in Hin as [Hin _].
    eapply rd_wp; [by eapply read_snapshot_for_pointer_spec | done |]. intros h4 s Hq4 Ha.
    eapply pull_prepared_spec; [apply _ | done | | done | by intros h' Hd s' ? Hr _; apply Happly; exists Hd].
    intros p [= <-]. split; [| done].
    apply Hprep; [by apply quiet_since_suffix | by intros l [= <-] |]. intros s' [= <-]. exists pointer. split; [done |].
    split; [by destruct Ha | left]. by apply (authentic_mono _ _ [] h3 h4 h4); [apply nil_suffix | |].
  - apply wp_let. eapply wp_sp; [apply harmless_for_each; intros p []; apply harmless_bind; [by eapply read_pointer_harmless |] |].
    + intros [s | e]; [done |]. destruct (blocks_overwrite e); [by eapply rd_harmless, (fail_changed_spec (fun _ _ _ => True)) | done].
    + intros h4 [u4 | e] Hs4 _; cbn [on_ok]; [| done]. eapply push_prepared_spec; [apply _ | done | | by intros h' Hd pointer Hr _; apply Hpush; exists Hd].
      intros p [= <-]. split; [| done]. destruct H as [c sel conc hs].
      apply (Hprep h4 sel None); [done | | done]. intros latest. by apply (choice_in (Heads c sel conc hs)).
Qed.

Lemma resolve_guarded_spec state h :
  (forall h' pointer, push_rule options state true h' pointer -> may_publish h' pointer) ->
  (forall h' pointer, commit_rule options (last_synced_clock state) h' pointer -> may_publish h' pointer) ->
  (forall h' s hash, pull_rule options state true h' s hash -> may_apply h' s hash) ->
  harmless_from G (resolve_guarded S R options request state) h.
Proof.
  intros H1 H2 H3. apply wp_pbind. eapply wp_mono; [| by apply resolve_inner_spec]. intros h' [r | e] _ _; [done |].
  destruct (refreshable e); [| done]. by eapply rd_harmless, (fail_changed_spec (fun _ _ _ => True)).
Qed.
End resolution.
