(* ===== verification/SyncWorld.v ===== *)
(** A well-behaved environment for synchronisation programs: a remote store that
    keeps files, a local store that keeps one snapshot, a clock that advances.
    Programs are executed in it by [interp], whose runs are among the [runs] of
    the program.  The file ends with an instance of the libraries and the codecs
    in which whole operations can be evaluated. *)
From stdpp Require Import base list numbers strings gmap.
From Stdlib Require Import ZArith Lia.
From S2P Require Import Prelude Text SyncTypes SyncEffects SyncLogic SyncHeads.

(** ** Codecs of the local store *)

Class SyncCodec := {
  snapshot_encode : RawPortableSnapshot -> str -> list Z;
  snapshot_decode : list Z -> str -> res RawPortableSnapshot;
  pointer_encode : RemoteSyncPointer -> list Z;
  pointer_decode : list Z -> res RemoteSyncPointer
}.

(** ** The environment *)

Record world := World {
  files : gmap str (list Z);
  local_data : RawPortableSnapshot;
  baseline : option CloudSyncState;
  time : Z;
  next_uuid : Z;
  cell : control_state
}.

Definition set_files (f : gmap str (list Z)) (w : world) : world :=
  World f (local_data w) (baseline w) (time w) (next_uuid w) (cell w).
Definition set_local (s : RawPortableSnapshot) (st : option CloudSyncState) (w : world) : world :=
  World (files w) s st (time w) (next_uuid w) (cell w).

Section environment.
Context `{C : SyncCodec} `{L : SyncLib}.

(** The files below a prefix. *)
Definition list_prefix (prefix : str) (f : gmap str (list Z)) : list str :=
  List.filter (fun p => starts_with prefix p) (map fst (map_to_list f)).

Definition answer {X} (o : op X) (w : world) : X * world :=
  match o in op X return X * world with
  | ReadIfExists p => (Ok (files w !! p), w)
  | Write p b => (Ok tt, set_files (<[p := b]> (files w)) w)
  | Delete p => (Ok tt, set_files (base.delete p (files w)) w)
  | ListFiles p => (Ok (list_prefix p (files w)), w)
  | FileCapacity => (Ok None, w)
  | MakeDir _ => (Ok tt, w)
  | EncodeSnapshot s pw => (Ok (snapshot_encode s pw), w)
  | DecodeSnapshot b pw => (snapshot_decode b pw, w)
  | EncodePointer p => (Ok (pointer_encode p), w)
  | DecodePointer b => (pointer_decode b, w)
  | BuildSnapshot => (Ok (local_data w), w)
  | ApplySnapshot s => (Ok (Backup [] None), set_local s (baseline w) w)
  | ApplyChecked s hash st =>
      match sync_content_hash (local_data w) with
      | Ok h => if beq h hash then (Ok (Backup [] None, st), set_local s (Some st) w)
                else (Err LocalChangedDuringSync, w)
      | Err e => (Err (PortableSnapshot e), w)
      end
  | PersistState st => (Ok tt, set_local (local_data w) (Some st) w)
  | VerifyPassword _ => (Ok None, w)
  | AtomicLoad => (cell w, w)
  | AtomicCas new =>
      let (c, previous) := compare_exchange new (cell w) in
      (previous, World (files w) (local_data w) (baseline w) (time w) (next_uuid w) c)
  | Now => (time w, World (files w) (local_data w) (baseline w) (time w + 1) (next_uuid w) (cell w))
  | NewUuid => (show_u64 (next_uuid w), World (files w) (local_data w) (baseline w) (time w) (next_uuid w + 1) (cell w))
  | BeforeApply => (Ok tt, w)
  end.

Fixpoint interp {A} (m : prog A) (w : world) (h : history) : option (A * world * history) :=
  match m with
  | Ret a => Some (a, w, h)
  | Panic => None
  | Do o k => let (x, w') := answer o w in interp (k x) w' (event_of o x :: h)
  end.

Lemma interp_runs {A} (m : prog A) w h a w' h' : interp m w h = Some (a, w', h') -> runs m h h' a.
Proof.
  revert w h. induction m as [a0 | | X o k IH]; cbn [interp runs]; intros w h E; [by injection E as -> -> -> | done |].
  destruct (answer o w) as [x w1]. exists x. by apply (IH x w1).
Qed.
End environment.

(** The latest event with a property, with what comes after it and before it. *)
Fixpoint latest_event (f : event -> bool) (h : history) : option (history * event * history) :=
  match h with
  | [] => None
  | e :: pre =>
      if f e then Some ([], e, pre)
      else match latest_event f pre with Some (later, e', pre') => Some (e :: later, e', pre') | None => None end
  end.

Lemma latest_event_split f h later e pre :
  latest_event f h = Some (later, e, pre) -> h = later ++ e :: pre /\ f e = true.
Proof.
  revert later. induction h as [| e0 h IH]; cbn [latest_event]; intros later E; [done |].
  destruct (f e0) eqn:F; [by injection E as <- <- <- |].
  destruct (latest_event f h) as [[[l e'] p] |]; [| done]. injection E as <- <- <-.
  destruct (IH l eq_refl) as [-> Hf]. done.
Qed.

(** ** An instance

    Values are written as self-delimiting sequences of numbers. *)
Module Sample.

Definition put_str (s : str) : list Z := len s :: s.
Definition put_opt {A} (f : A -> list Z) (o : option A) : list Z :=
  match o with None => [0] | Some a => 1 :: f a end.
Definition put_list {A} (f : A -> list Z) (l : list A) : list Z := len l :: flat_map f l.

Abbreviation get A := (list Z -> option (A * list Z)).
Definition get_z : get Z := fun l => match l with x :: r => Some (x, r) | [] => None end.
Definition get_str : get str := fun l =>
  match l with
  | n :: r => if (0 <=? n) && (n <=? len r) then Some (take (Z.to_nat n) r, drop (Z.to_nat n) r) else None
  | [] => None
  end.
Definition get_opt {A} (f : get A) : get (option A) := fun l =>
  match l with
  | 0 :: r => Some (None, r)
  | 1 :: r => match f r with Some (a, r') => Some (Some a, r') | None => None end
  | _ => None
  end.
Fixpoint get_many {A} (f : get A) (n : nat) : get (list A) := fun l =>
  match n with
  | O => Some ([], l)
  | S n' =>
      match f l with
      | Some (a, r) => match get_many f n' r with Some (rest, r') => Some (a :: rest, r') | None => None end
      | None => None
      end
  end.
Definition get_list {A} (f : get A) : get (list A) := fun l =>
  match l with n :: r => get_many f (Z.to_nat n) r | [] => None end.

(** A printer and a reader that agree. *)
Definition agree {A} (f : A -> list Z) (g : get A) : Prop := forall a r, g (f a ++ r) = Some (a, r).

Lemma agree_str : agree put_str get_str.
Proof.
  intros s r. unfold put_str, get_str. cbn [app]. rewrite length_app.
  assert ((0 <=? len s) && (len s <=? Z.of_nat (length s + length r)) = true) as -> by (rewrite andb_true_iff, !Z.leb_le; lia).
  rewrite Nat2Z.id. by rewrite take_app_length, drop_app_length.
Qed.

Lemma agree_z : agree (fun x => [x]) get_z.
Proof. done. Qed.

Lemma agree_opt {A} (f : A -> list Z) g : agree f g -> agree (put_opt f) (get_opt g).
Proof. intros H [a |] r; cbn; [by rewrite H | done]. Qed.

Lemma agree_list {A} (f : A -> list Z) g : agree f g -> agree (put_list f) (get_list g).
Proof.
  intros H l r. unfold put_list, get_list. cbn [app]. rewrite Nat2Z.id.
  induction l as [| a l IH]; cbn [flat_map get_many length]; [done |]. rewrite <- app_assoc, H. by rewrite IH.
Qed.

Definition put_pair (e : str * str) : list Z := put_str (fst e) ++ put_str (snd e).
Definition put_count (e : str * Z) : list Z := put_str (fst e) ++ [snd e].
Definition get_pair : get (str * str) := fun l =>
  let* (k, r) := get_str l in let* (v, r) := get_str r in Some ((k, v), r).
Definition get_count : get (str * Z) := fun l =>
  let* (k, r) := get_str l in let* (v, r) := get_z r in Some ((k, v), r).

Lemma agree_pair : agree put_pair get_pair.
Proof. intros [k v] r. unfold put_pair, get_pair. rewrite <- app_assoc. cbn [fst snd]. by rewrite !agree_str. Qed.
Lemma agree_count : agree put_count get_count.
Proof. intros [k v] r. unfold put_count, get_count. rewrite <- app_assoc. cbn [fst snd]. by rewrite !agree_str. Qed.

Definition put_clock (c : SnapshotSyncClock) : list Z :=
  put_list put_count (map_to_list (counters c)) ++ put_opt put_str (legacy_revision c).
Definition get_clock : get SnapshotSyncClock := fun l =>
  let* (es, r) := get_list get_count l in let* (legacy, r) := get_opt get_str r in
  Some (Clock (list_to_map es) legacy, r).

Lemma agree_clock : agree put_clock get_clock.
Proof.
  intros [m l] r. unfold put_clock, get_clock. cbn [counters legacy_revision].
  rewrite <- app_assoc, (agree_list _ _ agree_count), (agree_opt _ _ agree_str). by rewrite list_to_map_to_list.
Qed.

Definition put_pointer (p : RemoteSyncPointer) : list Z :=
  pointer_schema p :: created_at_ms p :: put_str (revision_id p) ++ put_str (payload_hash p) ++
  put_str (device_id p) ++ put_str (app_version p) ++ put_opt put_clock (sync_clock p).
Definition get_pointer : get RemoteSyncPointer := fun l =>
  let* (schema, r) := get_z l in let* (created, r) := get_z r in let* (revision, r) := get_str r in
  let* (hash, r) := get_str r in let* (device, r) := get_str r in let* (version, r) := get_str r in
  let* (clock, r) := get_opt get_clock r in
  Some (Pointer schema revision created hash device version clock, r).

Lemma agree_pointer : agree put_pointer get_pointer.
Proof.
  intros [schema revision created hash device version clock] r. unfold put_pointer, get_pointer.
  cbn [get_z app pointer_schema revision_id created_at_ms payload_hash device_id app_version sync_clock].
  rewrite <- !app_assoc, !agree_str. by rewrite (agree_opt _ _ agree_clock).
Qed.

Definition put_head (h : DeviceHead) : list Z :=
  put_str (head_device h) ++ put_opt put_pointer (committed h) ++ put_opt put_str (pending_revision h).
Definition get_head : get DeviceHead := fun l =>
  let* (device, r) := get_str l in let* (pointer, r) := get_opt get_pointer r in
  let* (pending, r) := get_opt get_str r in Some (Head device pointer pending, r).

Lemma agree_head : agree put_head get_head.
Proof.
  intros [device pointer pending] r. unfold put_head, get_head. cbn [head_device committed pending_revision].
  by rewrite <- !app_assoc, agree_str, (agree_opt _ _ agree_pointer), (agree_opt _ _ agree_str).
Qed.

Definition put_kind (k : PortableSnapshotKind) : Z := match k with KindSync => 0 | KindBackup => 1 end.
Definition get_kind (z : Z) : PortableSnapshotKind := if z =? 0 then KindSync else KindBackup.

(** The hash of the source is not stored. *)
Definition put_snapshot (s : RawPortableSnapshot) : list Z :=
  let m := meta s in
  90 :: 84 :: schema_version m :: put_kind (snapshot_kind m) :: created_at m ::
  put_str (meta_revision m) ++ put_str (meta_device m) ++ put_opt put_str (device_name m) ++
  put_str (meta_payload_hash m) ++ put_opt put_str (entities_hash m) ++ put_opt put_clock (meta_clock m) ++
  put_str (meta_app_version m) ++ put_list put_pair (map_to_list (entities s)).
Definition get_snapshot : get RawPortableSnapshot := fun l =>
  let* (_, r) := get_z l in let* (_, r) := get_z r in
  let* (schema, r) := get_z r in let* (kind, r) := get_z r in let* (created, r) := get_z r in
  let* (revision, r) := get_str r in let* (device, r) := get_str r in let* (name, r) := get_opt get_str r in
  let* (hash, r) := get_str r in let* (all, r) := get_opt get_str r in let* (clock, r) := get_opt get_clock r in
  let* (version, r) := get_str r in let* (es, r) := get_list get_pair r in
  Some (Snapshot (Meta schema (get_kind kind) revision device name created hash all clock version) (list_to_map es) None, r).

Lemma agree_snapshot s r : source_hash s = None -> get_snapshot (put_snapshot s ++ r) = Some (s, r).
Proof.
  destruct s as [[schema kind revision device name created hash all clock version] es source]. cbn [source_hash]. intros ->.
  unfold put_snapshot, get_snapshot.
  cbn [get_z app meta entities schema_version snapshot_kind created_at meta_revision meta_device device_name
       meta_payload_hash entities_hash meta_clock meta_app_version].
  rewrite <- !app_assoc, !agree_str, (agree_opt _ _ agree_str), agree_str, (agree_opt _ _ agree_str),
    (agree_opt _ _ agree_clock), agree_str, (agree_list _ _ agree_pair), list_to_map_to_list.
  by destruct kind.
Qed.

Definition whole {A E} (f : get A) (e : E) (l : list Z) : result A E :=
  match f l with Some (a, []) => Ok a | _ => Err e end.

Lemma whole_agree {A E} (f : A -> list Z) (g : get A) (e : E) a : agree f g -> whole g e (f a) = Ok a.
Proof. intros H. unfold whole. by rewrite <- (app_nil_r (f a)), H. Qed.

#[export] Instance lib : SyncLib := {
  sha256 b := [Z.land (foldl (fun a x => 31 * a + x) 7 b) 255];
  head_to_vec h := Ok (put_head h);
  head_from_slice := whole get_head (bs "invalid head");
  entities_to_vec es := Ok (put_list put_pair (map_to_list es));
  raw_value_from_string s := Ok s;
  raw_object_to_vec fields := Ok (put_list put_pair fields);
  value_from_str s := if beq s (bs "[]") then Ok (JArray []) else Ok (JString s);
  value_to_string v := match v with JString s => s | _ => bs "null" end;
  show_error _ := bs "error"
}.

#[export] Instance lib_laws : SyncLibLaws.
Proof. split. intros h b [= <-]. apply (whole_agree put_head), agree_head. Qed.

#[export] Instance codec : SyncCodec := {
  snapshot_encode s pw := put_str pw ++ put_snapshot s;
  snapshot_decode l pw :=
    match get_str l with
    | Some (pw', r) =>
        if beq pw pw' then whole get_snapshot (PortableSnapshot CorruptPayload) r
        else Err (PortableSnapshot (Decrypt [] []))
    | None => Err (PortableSnapshot CorruptPayload)
    end;
  pointer_encode := put_pointer;
  pointer_decode := whole get_pointer (JsonError [])
}.

(** Two devices: [a] has a session, [b] has nothing yet. *)
Definition data (sessions : str) : gmap str str :=
  list_to_map ((bs "sessions", sessions) :: map (fun k => (bs k, bs "[]"))
    ["settings"; "keys"; "passwords"; "credentials"; "otp"; "proxies"; "tunnels"; "quick_commands"; "history";
     "master_key_token"; "known_hosts"]%string).
Definition snapshot (revision device sessions : str) : RawPortableSnapshot :=
  Snapshot (Meta 3 KindSync revision device None 900 [] None None (bs "1")) (data sessions) None.
Definition options (device : str) : LocalCloudSyncOptions :=
  Options [] None (bs "zz") (bs "zz") device None (bs "1") (bs "pw") true.
Definition fresh (device : str) : CloudSyncState := State device None None None None None None None None None.

Definition world_a : world := World ∅ (snapshot (bs "r1") (bs "a") (bs "host")) None 1000 1 PREPARING.
(** Device [b] with the files that another device left. *)
Definition world_b (f : gmap str (list Z)) : world :=
  World f (snapshot (bs "r2") (bs "b") (bs "[]")) None 5000 100 PREPARING.
End Sample.
