(* ===== verification/SyncTotal.v ===== *)
(** What synchronisation achieves in the well-behaved environment of SyncWorld.v.
    A triple describes a program by the files and the local data before it, its
    result, and the files and the local data after it; it always returns. *)
From stdpp Require Import base list numbers strings gmap.
From Stdlib Require Import ZArith Lia.
From S2P Require Import Prelude Text SyncTypes SyncEffects SyncLogic SyncHeads SyncHeadsSpec SyncProtocol SyncReadSpec.
From S2P Require Import SyncUpload SyncSafety CloudSync SyncWorld.

(** ** Triples *)

Section triples.
Context `{C : SyncCodec} `{L : SyncLib}.

Fixpoint does {A : Type} (m : prog A) (w : world) (Q : A -> world -> Prop) : Prop :=
  match m with
  | Ret a => Q a w
  | Panic => False
  | Do o k => does (k (fst (answer o w))) (snd (answer o w)) Q
  end.

Lemma does_interp {A : Type} (m : prog A) w Q h : does m w Q ->
  exists a w' h', interp m w h = Some (a, w', h') /\ Q a w'.
Proof.
  revert w h. induction m as [a | | X o k IH]; cbn [does interp]; intros w h H; [by exists a, w, h | done |].
  destruct (answer o w) as [x w1]. by apply IH.
Qed.

Lemma does_mono {A : Type} (m : prog A) w (P Q : A -> world -> Prop) :
  does m w P -> (forall a w', P a w' -> Q a w') -> does m w Q.
Proof. revert w. induction m; cbn [does]; intros w HP HQ; eauto. Qed.

Lemma does_bind {A B : Type} (m : prog A) (k : A -> prog B) w Q :
  does m w (fun a w' => does (k a) w' Q) -> does (pbind m k) w Q.
Proof. revert w. induction m; cbn [does pbind]; intros w Hm; auto. Qed.

(** The operation is not cancelled. *)
Definition live (w : world) : Prop := cell w <> CANCELLED.
Definition holds (f : gmap str (list Z)) (s : RawPortableSnapshot) (w : world) : Prop :=
  files w = f /\ local_data w = s /\ live w.

Definition triple {A : Type} (f : gmap str (list Z)) (s : RawPortableSnapshot) (m : prog A) (P : A -> Prop)
    (f' : gmap str (list Z)) (s' : RawPortableSnapshot) : Prop :=
  forall w, holds f s w -> does m w (fun a w' => P a /\ holds f' s' w').

Lemma triple_ret {A : Type} f s (a : A) (P : A -> Prop) : P a -> triple f s (Ret a) P f s.
Proof. intros HP w Hw. by split. Qed.

Lemma triple_bind {A B : Type} f s (m : prog A) P f1 s1 (k : A -> prog B) Q f2 s2 :
  triple f s m P f1 s1 -> (forall a, P a -> triple f1 s1 (k a) Q f2 s2) -> triple f s (pbind m k) Q f2 s2.
Proof.
  intros Hm Hk w Hw. apply does_bind. eapply does_mono; [by apply Hm |]. intros a w' [HP Hw']. by apply Hk.
Qed.

Lemma triple_let {A B : Type} f s (m : M A) a f1 s1 (k : A -> M B) Q f2 s2 :
  triple f s m (eq (Ok a)) f1 s1 -> triple f1 s1 (k a) Q f2 s2 -> triple f s (mbind_ok m k) Q f2 s2.
Proof. intros Hm Hk. eapply triple_bind; [exact Hm |]. by intros r <-. Qed.

Lemma triple_mono {A : Type} f s (m : prog A) (P Q : A -> Prop) f' s' :
  triple f s m P f' s' -> (forall a, P a -> Q a) -> triple f s m Q f' s'.
Proof. intros Hm HQ w Hw. eapply does_mono; [by apply Hm |]. intros a w' [? ?]. auto. Qed.

Lemma triple_lift {A B : Type} f s (r : res A) a (k : A -> M B) Q f' s' :
  r = Ok a -> triple f s (k a) Q f' s' -> triple f s (mbind_ok (lift r) k) Q f' s'.
Proof. intros ->. by intros H. Qed.

Lemma triple_now {B : Type} f s (k : Z -> prog B) Q f' s' :
  (forall t, triple f s (k t) Q f' s') -> triple f s (pbind current_time_ms k) Q f' s'.
Proof. intros Hk w (H1 & H2 & H3). cbn. by apply Hk. Qed.

Lemma triple_checkpoint f s : triple f s checkpoint (eq (Ok tt)) f s.
Proof. intros w (H1 & H2 & H3). cbn. unfold live in H3. destruct (cell w) eqn:E; cbn; try done; by repeat split; try congruence; unfold live; rewrite E. Qed.

Lemma triple_begin_commit f s : triple f s begin_commit (eq (Ok tt)) f s.
Proof.
  intros w (H1 & H2 & H3). cbn. unfold live in H3. destruct (cell w) eqn:E; cbn; try done; by repeat split; try congruence; unfold live; rewrite E.
Qed.

(** ** Well-behaved stores *)

Class HonestRemote (R : CloudSyncRemote) : Prop := {
  honest_read p f s : triple f s (read_if_exists R p) (eq (Ok (f !! p))) f s;
  honest_write p b f s : triple f s (write R p b) (eq (Ok tt)) (<[p := b]> f) s;
  honest_delete p f s : triple f s (delete R p) (eq (Ok tt)) (base.delete p f) s;
  honest_list p f s : triple f s (list_files R p) (eq (Ok (list_prefix p f))) f s;
  honest_capacity f s : triple f s (file_capacity R) (eq (Ok None)) f s;
  honest_dir p f s : triple f s (create_dir R p) (eq (Ok tt)) f s
}.

Class HonestStore (S : CloudLocalStore) : Prop := {
  honest_encode x pw f s : triple f s (encode_sync_snapshot S x pw) (eq (Ok (snapshot_encode x pw))) f s;
  honest_decode b pw f s : triple f s (decode_sync_snapshot S b pw) (eq (snapshot_decode b pw)) f s;
  honest_encode_pointer p f s : triple f s (encode_sync_pointer S p) (eq (Ok (pointer_encode p))) f s;
  honest_decode_pointer b f s : triple f s (decode_sync_pointer S b) (eq (pointer_decode b)) f s;
  honest_build f s : triple f s (build_sync_snapshot S) (eq (Ok s)) f s;
  honest_persist st f s : triple f s (persist_cloud_sync_state S st) (eq (Ok tt)) f s;
  honest_apply x hash st f s : sync_content_hash s = Ok hash ->
    triple f s (apply_sync_snapshot_checked S x hash st) (fun r => exists b, r = Ok (b, st)) f x
}.

#[export] Instance raw_remote_honest name : HonestRemote (raw_remote name).
Proof. split; intros; intros w (<- & <- & Hl); by repeat split. Qed.

#[export] Instance raw_store_honest : HonestStore raw_store.
Proof.
  split; [intros; intros w (<- & <- & Hl); by repeat split..|].
  intros x hash st f s Hh w (<- & <- & Hl). cbn. rewrite Hh, beq_refl. cbn. split; [by eexists | by repeat split].
Qed.

#[export] Instance controlled_remote_honest R : HonestRemote R -> HonestRemote (controlled_remote R).
Proof.
  intros [H1 H2 H3 H4 H5 H6]. split; intros; (eapply triple_let; [apply triple_checkpoint |]); try done;
    (eapply triple_let; [done |]); (eapply triple_let; [apply triple_checkpoint |]); by apply triple_ret.
Qed.

#[export] Instance controlled_store_honest S : HonestStore S -> HonestStore (controlled_store S).
Proof.
  intros [H1 H2 H3 H4 H5 H6 H7].
  split; intros; (eapply triple_let; [first [apply triple_checkpoint | apply triple_begin_commit] |]); auto.
  eapply triple_let; [apply H5 |]. eapply triple_let; [apply triple_checkpoint |]. by apply triple_ret.
Qed.
End triples.

(** ** Heads in a store *)

Section stored.
Context `{C : SyncCodec} `{L : SyncLib} (root : str).

Definition heads_prefix : str := remote_path root HEADS_DIR.
Definition latest_path : str := remote_path root SYNC_LATEST_FILE.

(** The record in a head file. *)
Definition record_at (f : gmap str (list Z)) (path : str) : option DeviceHead :=
  if head_file root path then
    match f !! path with
    | Some bytes => match decode_record bytes with Ok record => Some record | Err _ => None end
    | None => None
    end
  else None.

Definition records_in (f : gmap str (list Z)) : list DeviceHead := omap (record_at f) (list_prefix heads_prefix f).

Definition pointer_in (f : gmap str (list Z)) : option RemoteSyncPointer :=
  match f !! latest_path with
  | Some bytes => match pointer_decode bytes with Ok p => Some p | Err _ => None end
  | None => None
  end.

Definition stored_heads (f : gmap str (list Z)) : list RemoteSyncPointer :=
  omap committed (records_in f) ++ option_list (pointer_in f).

Definition heads_in (f : gmap str (list Z)) : res RemoteHeads :=
  let? unique := unique_heads (stored_heads f) [] in
  let hs := map snd unique in
  Ok (Heads (pointer_in f) (select_head (pointer_in f) (maximal_of hs)) (1 <? len (maximal_of hs)) hs).

(** The files can be read. *)
Record files_ok (f : gmap str (list Z)) : Prop := {
  few_heads : len (list_prefix heads_prefix f) <= MAX_DEVICES * 2;
  head_files path bytes : f !! path = Some bytes -> head_file root path = true ->
    exists record, decode_record bytes = Ok record /\ path = expected_head_path root record;
  pointer_file bytes : f !! latest_path = Some bytes -> exists p, pointer_decode bytes = Ok p
}.

Lemma list_prefix_elem prefix f path :
  path ∈ list_prefix prefix f <-> is_Some (f !! path) /\ starts_with prefix path = true.
Proof.
  unfold list_prefix. rewrite list_elem_of_In, filter_In, in_map_iff. split.
  - intros [([k v] & <- & Hi) Hs]. split; [| done]. apply list_elem_of_In, elem_of_map_to_list in Hi. by eexists.
  - intros [[v Hv] Hs]. split; [| done]. exists (path, v). split; [done |]. by apply list_elem_of_In, elem_of_map_to_list.
Qed.

Lemma records_in_elem f record :
  record ∈ records_in f <-> exists path bytes, f !! path = Some bytes /\ head_file root path = true /\
                                                decode_record bytes = Ok record.
Proof.
  unfold records_in. rewrite list_elem_of_omap. split.
  - intros (path & _ & E). unfold record_at in E. destruct (head_file root path) eqn:Eh; [| done].
    destruct (f !! path) as [b |] eqn:Eb; [| done]. destruct (decode_record b) eqn:Ed; [| done].
    injection E as ->. eauto 6.
  - intros (path & b & Eb & Eh & Ed). exists path. split.
    + apply list_prefix_elem. split; [by eexists |]. by apply andb_true_iff in Eh as [? _].
    + unfold record_at. by rewrite Eh, Eb, Ed.
Qed.

Context (S : CloudLocalStore) (R : CloudSyncRemote) `{HS : !HonestStore S} `{HR : !HonestRemote R}.

Lemma read_records_total f s : files_ok f -> triple f s (read_records R root) (eq (Ok (records_in f))) f s.
Proof.
  intros Hf. eapply triple_let; [apply (honest_list (R := R)) |]. fold heads_prefix.
  destruct (Z.ltb_spec (MAX_DEVICES * 2) (len (list_prefix heads_prefix f))) as [Hlt |]; [pose proof (few_heads _ Hf); lia |].
  unfold records_in.
  assert (Hin : forall path, path ∈ list_prefix heads_prefix f -> is_Some (f !! path)) by (intros p Hp; by apply list_prefix_elem in Hp as [? _]).
  assert (Hgo : forall acc paths, (forall path, path ∈ paths -> is_Some (f !! path)) ->
    triple f s (for_each paths acc (read_record R root)) (eq (Ok (acc ++ omap (record_at f) paths))) f s).
  2:{ by apply (Hgo [] (list_prefix heads_prefix f)). }
  intros acc paths. revert acc. induction paths as [| path paths IH]; intros acc Hp; cbn [for_each omap list_omap].
  { apply triple_ret. by rewrite app_nil_r. }
  destruct (Hp path) as [b Hb]; [left |].
  assert (Hstep : triple f s (read_record R root path acc) (eq (Ok (acc ++ option_list (record_at f path)))) f s).
  { unfold read_record, record_at, head_file. rewrite <- negb_andb. fold (head_file root path).
    destruct (head_file root path) eqn:Eh; cbn [negb]; [| apply triple_ret; by rewrite app_nil_r].
    eapply triple_let; [apply (honest_read (R := R)) |]. rewrite Hb.
    destruct (head_files _ Hf path b Hb Eh) as (record & Ed & Ep). eapply triple_lift; [exact Ed |].
    rewrite <- Ep, beq_refl, Ed. by apply triple_ret. }
  eapply triple_let; [exact Hstep |]. cbn.
  replace (acc ++ match record_at f path with Some y => y :: omap (record_at f) paths | None => omap (record_at f) paths end)
    with ((acc ++ option_list (record_at f path)) ++ omap (record_at f) paths)
    by (rewrite <- app_assoc; by destruct (record_at f path)).
  apply IH. intros p Hi. apply Hp. by right.
Qed.

Lemma load_pointer_total f s : (forall b, f !! latest_path = Some b -> exists p, pointer_decode b = Ok p) ->
  triple f s (load_sync_pointer_from_remote S R root) (eq (Ok (pointer_in f))) f s.
Proof.
  intros Hf. eapply triple_let; [apply (honest_read (R := R)) |]. fold latest_path. unfold pointer_in.
  destruct (f !! latest_path) as [b |] eqn:Eb; [| by apply triple_ret].
  destruct (Hf b eq_refl) as [p Ep]. rewrite Ep.
  eapply triple_let; [rewrite <- Ep; apply (honest_decode_pointer (S := S)) |]. by apply triple_ret.
Qed.

Lemma read_total f s H : files_ok f -> heads_in f = Ok H -> triple f s (read S R root) (eq (Ok H)) f s.
Proof.
  intros Hf EH. eapply triple_let; [by apply load_pointer_total, pointer_file |].
  eapply triple_let; [eapply triple_let; [by apply read_records_total |]; by apply triple_ret |].
  unfold heads_in in EH. fold (stored_heads f). destruct (unique_heads _ _) as [u |] eqn:Eu; [| done].
  eapply triple_lift; [done |]. injection EH as <-. by apply triple_ret.
Qed.

Lemma verify_record_total f s path bytes n : f !! path = Some bytes ->
  triple f s (verify_record R path bytes (Datatypes.S n)) (eq (Ok tt)) f s.
Proof.
  intros E. cbn [verify_record]. eapply triple_let; [apply (honest_read (R := R)) |].
  rewrite bool_decide_eq_true_2 by done. by apply triple_ret.
Qed.

Lemma write_record_total f s path record bytes : head_to_vec record = Ok bytes -> len bytes <= MAX_HEAD_BYTES ->
  triple f s (write_record R path record) (eq (Ok tt)) (<[path := bytes]> f) s.
Proof.
  intros E Hl. unfold write_record. eapply triple_lift; [by rewrite E |].
  destruct (Z.ltb_spec MAX_HEAD_BYTES (len bytes)); [lia |].
  eapply triple_let; [apply (honest_write (R := R)) |]. apply verify_record_total. by rewrite lookup_insert_eq.
Qed.
End stored.

(** ** Upload and publication *)

(** What is written can be read again (a snapshot passes its own checks). *)
Class SyncCodecLaws `{C : SyncCodec} `{L : SyncLib} : Prop := {
  snapshot_roundtrip s pw : source_hash s = None -> validate_raw_snapshot s = Ok tt ->
    snapshot_decode (snapshot_encode s pw) pw = Ok s;
  pointer_roundtrip p : pointer_decode (pointer_encode p) = Ok p
}.

Section upload.
Context `{HC : SyncCodecLaws} (options : LocalCloudSyncOptions).
Abbreviation root := (remote_root options).
Abbreviation password := (master_password options).

(** The snapshot behind a head. *)
Definition holds_snapshot (f : gmap str (list Z)) (p : RemoteSyncPointer) (s : RawPortableSnapshot) : Prop :=
  exists bytes, f !! snapshot_path options (revision_id p) = Some bytes /\
    MIN_ENCRYPTED_SNAPSHOT_BYTES <= len bytes <= MAX_ENCRYPTED_SNAPSHOT_BYTES /\
    snapshot_decode bytes password = Ok s /\ validate_snapshot_against_pointer p s = Ok tt.

(** A snapshot that can be uploaded. *)
Record uploadable (x : RawPortableSnapshot) : Prop := {
  upload_unmigrated : source_hash x = None;
  upload_valid : validate_raw_snapshot x = Ok tt;
  upload_size : MIN_ENCRYPTED_SNAPSHOT_BYTES <= len (snapshot_encode x password) <= MAX_ENCRYPTED_SNAPSHOT_BYTES
}.

Lemma pointer_validates x : validate_snapshot_against_pointer (pointer_from_snapshot x) x = Ok tt.
Proof.
  unfold validate_snapshot_against_pointer, pointer_from_snapshot. cbn [revision_id sync_clock payload_hash].
  by rewrite !beq_refl, bool_decide_eq_true_2.
Qed.

Context (S : CloudLocalStore) (R : CloudSyncRemote) `{HS : !HonestStore S} `{HR : !HonestRemote R}.

Lemma decode_and_validate_total f s bytes path p x :
  MIN_ENCRYPTED_SNAPSHOT_BYTES <= len bytes <= MAX_ENCRYPTED_SNAPSHOT_BYTES ->
  snapshot_decode bytes password = Ok x -> validate_snapshot_against_pointer p x = Ok tt ->
  triple f s (decode_and_validate_remote_snapshot S bytes options path p) (eq (Ok x)) f s.
Proof.
  intros Hl Hd Hv. eapply triple_lift.
  { unfold validate_remote_snapshot_size. by rewrite (proj2 (andb_true_iff _ _)) by (rewrite !Z.leb_le; lia). }
  eapply triple_let.
  { eapply triple_bind; [apply (honest_decode (S := S)) |]. intros r <-. rewrite Hd. by apply triple_ret. }
  eapply triple_lift; [exact Hv |]. by apply triple_ret.
Qed.

Lemma read_snapshot_total f s p x : holds_snapshot f p x ->
  triple f s (read_snapshot_for_pointer S R options p) (eq (Ok x)) f s.
Proof.
  intros (bytes & E & Hl & Hd & Hv). eapply triple_let; [apply (honest_read (R := R)) |]. rewrite E.
  by apply decode_and_validate_total.
Qed.

Lemma resolve_total f s p x : holds_snapshot f p x ->
  triple f s (resolve_remote_snapshot S R options p) (eq (Ok (Current x))) f s.
Proof.
  intros Hx. eapply triple_bind; [by apply read_snapshot_total |]. intros r <-. by apply triple_ret.
Qed.

Lemma verify_written_total f s x : uploadable x ->
  f !! snapshot_path options (meta_revision (meta x)) = Some (snapshot_encode x password) ->
  triple f s (verify_written_snapshot S R options (pointer_from_snapshot x) (snapshot_encode x password)) (eq (Ok tt)) f s.
Proof.
  intros [H1 H2 H3] E. eapply triple_let; [apply (honest_read (R := R)) |]. cbn [pointer_from_snapshot revision_id]. rewrite E, beq_refl.
  eapply triple_let; [apply (decode_and_validate_total _ _ _ _ _ x); [done | by apply snapshot_roundtrip | apply pointer_validates] |].
  by apply triple_ret.
Qed.

(** The files after registering and uploading a snapshot... *)
Definition staged (x : RawPortableSnapshot) (marker : list Z) (f : gmap str (list Z)) : gmap str (list Z) :=
  <[snapshot_path options (meta_revision (meta x)) := snapshot_encode x password]>
    (<[pending_head_path root (opt_device options) := marker]> f).

Lemma upload_total f s x expected marker : uploadable x ->
  head_to_vec (staging_head options (pointer_from_snapshot x)) = Ok marker -> len marker <= MAX_HEAD_BYTES ->
  triple f s (upload_sync_snapshot S R options x expected) (eq (Ok (snapshot_encode x password))) (staged x marker f) s.
Proof.
  intros Hx Em Hm. eapply triple_let; [apply (honest_encode (S := S)) |].
  eapply triple_let; [| by apply triple_ret]. eapply triple_let; [apply (honest_capacity (R := R)) |].
  cbn [is_some READBACK_VERIFY_ATTEMPTS upload_attempts orb].
  eapply triple_let.
  { eapply triple_let; [eapply triple_let; [apply (honest_capacity (R := R)) | by apply triple_ret] |].
    by apply (write_record_total R). }
  eapply triple_bind; [apply (honest_write (R := R)) |]. intros r <-.
  eapply triple_bind; [apply verify_written_total; [done |]; by rewrite lookup_insert_eq |]. intros r <-. by apply triple_ret.
Qed.

(** ... and after publishing it. *)
Definition published_files (x : RawPortableSnapshot) (head : list Z) (f : gmap str (list Z)) : gmap str (list Z) :=
  let p := pointer_from_snapshot x in
  <[remote_path root SYNC_CURRENT_FILE := snapshot_encode x password]>
    (<[remote_path root SYNC_LATEST_FILE := pointer_encode p]>
      (base.delete (pending_head_path root (device_id p)) (<[device_head_path root (device_id p) := head]> f))).

Lemma write_pointer_total f s p :
  triple f s (write_sync_pointer S R options p) (eq (Ok tt)) (<[remote_path root SYNC_LATEST_FILE := pointer_encode p]> f) s.
Proof.
  eapply triple_let; [apply (honest_encode_pointer (S := S)) |]. eapply triple_let; [apply (honest_capacity (R := R)) |].
  cbn [is_some READBACK_VERIFY_ATTEMPTS write_pointer_attempts orb].
  eapply triple_let; [apply (honest_write (R := R)) |].
  eapply triple_let.
  { eapply triple_let; [apply (honest_read (R := R)) |]. rewrite lookup_insert_eq.
    eapply triple_let; [rewrite <- (pointer_roundtrip p); apply (honest_decode_pointer (S := S)) |]. by apply triple_ret. }
  rewrite bool_decide_eq_true_2 by done. by apply triple_ret.
Qed.

Lemma publish_all_total f s x head :
  head_to_vec (committed_head (pointer_from_snapshot x)) = Ok head -> len head <= MAX_HEAD_BYTES ->
  triple f s (publish_all S R options (pointer_from_snapshot x) (snapshot_encode x password)) (eq (Ok tt))
    (published_files x head f) s.
Proof.
  intros E Hl. eapply triple_let.
  { eapply triple_let; [by apply (write_record_total R) |]. eapply triple_bind; [apply (honest_delete (R := R)) |].
    intros r _. by apply triple_ret. }
  eapply triple_bind; [apply write_pointer_total |]. intros r _.
  eapply triple_bind; [apply (honest_write (R := R)) |]. intros r' _. by apply triple_ret.
Qed.
End upload.
