(* ===== verification/SyncConverge.v ===== *)
(** Convergence: in the well-behaved environment a push makes its snapshot the only
    current one, keeps the store readable, and a pull on another device brings the
    same data there. *)
From stdpp Require Import base list numbers strings gmap sorting.
From Stdlib Require Import ZArith Lia.
From S2P Require Import Prelude Text SyncTypes SyncEffects SyncLogic SyncHeads SyncHeadsSpec SyncProtocol SyncReadSpec.
From S2P Require Import SyncUpload SyncSafety CloudSync CloudSafety CloudConflict SyncWorld SyncTotal.

(** ** Ordered keys *)

Lemma str_leb_total a b : str_leb a b = true \/ str_leb b a = true.
Proof.
  revert b. induction a as [| x a IH]; intros [| y b]; cbn [str_leb]; auto.
  destruct (Z.ltb_spec x y), (Z.ltb_spec y x), (Z.eqb_spec x y), (Z.eqb_spec y x); cbn; auto; lia.
Qed.

Lemma str_leb_trans a b c : str_leb a b = true -> str_leb b c = true -> str_leb a c = true.
Proof.
  revert b c. induction a as [| x a IH]; intros [| y b] [| z c]; cbn [str_leb]; try done.
  destruct (Z.ltb_spec x y), (Z.ltb_spec y z), (Z.ltb_spec x z), (Z.eqb_spec x y), (Z.eqb_spec y z), (Z.eqb_spec x z);
    cbn; try done; try lia. apply IH.
Qed.

Lemma str_leb_antisym a b : str_leb a b = true -> str_leb b a = true -> a = b.
Proof.
  revert b. induction a as [| x a IH]; intros [| y b]; cbn [str_leb]; try done.
  destruct (Z.ltb_spec x y), (Z.ltb_spec y x), (Z.eqb_spec x y), (Z.eqb_spec y x); cbn; try done; try lia.
  intros H1 H2. subst. f_equal. by apply IH.
Qed.

Definition str_lt (a b : str) : Prop := str_leb a b = true /\ a <> b.

Lemma str_lt_trans a b c : str_lt a b -> str_lt b c -> str_lt a c.
Proof.
  intros [H1 H2] [H3 H4]. split; [by apply (str_leb_trans a b c) |]. intros ->. apply H2. by apply str_leb_antisym.
Qed.

(** The entries of the map are ordered and filed under their revisions. *)
Definition keyed (u : list (str * RemoteSyncPointer)) : Prop :=
  StronglySorted str_lt (map fst u) /\ Forall (fun e => fst e = revision_id (snd e)) u.

Lemma btree_insert_keys {V} key (v : V) m k :
  k ∈ map fst (snd (btree_insert key v m)) -> k = key \/ k ∈ map fst m.
Proof.
  induction m as [| [k0 old] m IH]; cbn [btree_insert].
  - cbn. rewrite list_elem_of_singleton. auto.
  - destruct (beq k0 key) eqn:Eb; [| destruct (str_leb key k0)].
    + apply beq_true in Eb as ->. cbn. auto.
    + cbn. rewrite !elem_of_cons. tauto.
    + destruct (btree_insert key v m) as [previous rest]. cbn [map fst snd] in *. rewrite !elem_of_cons. tauto.
Qed.

Lemma btree_insert_keyed p u : keyed u ->
  keyed (snd (btree_insert (revision_id p) p u)) /\
  (forall old, fst (btree_insert (revision_id p) p u) = Some old -> old ∈ map snd u /\ revision_id old = revision_id p).
Proof.
  induction u as [| [k old] u IH]; intros [Hs Hf]; cbn [btree_insert].
  - split; [| done]. split; cbn; repeat constructor.
  - cbn [map fst] in Hs. apply StronglySorted_inv in Hs as [Hs Hk]. apply Forall_cons in Hf as [He Hf]. cbn [fst snd] in He.
    destruct (beq k (revision_id p)) eqn:Eb; [| destruct (str_leb (revision_id p) k) eqn:El].
    + apply beq_true in Eb. cbn [fst snd]. split; [| intros o [= <-]; split; [left | congruence]].
      split; [rewrite Eb in Hk; by constructor | by constructor].
    + cbn [fst snd]. split; [| done]. assert (Hlt : str_lt (revision_id p) k) by (split; [done | intros E; by rewrite E, beq_refl in Eb]).
      split; [| by repeat constructor]. cbn [map fst]. constructor; [by constructor |]. constructor; [done |].
      eapply Forall_impl; [exact Hk |]. intros z Hz. by apply (str_lt_trans _ k).
    + destruct (IH (conj Hs Hf)) as [[Hs' Hf'] Ho]. pose proof (btree_insert_keys (revision_id p) p u) as Hkeys.
      destruct (btree_insert (revision_id p) p u) as [previous rest]. cbn [fst snd] in *.
      assert (Hlt : str_lt k (revision_id p)).
      { destruct (str_leb_total k (revision_id p)) as [|]; [| congruence]. split; [done |]. intros ->. by rewrite beq_refl in Eb. }
      split; [split; [| by constructor] |].
      * cbn [map fst]. constructor; [done |]. apply Forall_forall. intros z Hz.
        destruct (Hkeys z Hz) as [-> |]; [done |]. rewrite Forall_forall in Hk. by apply Hk.
      * intros o Eo. destruct (Ho o Eo). split; [by right | done].
Qed.

Lemma keyed_nodup u : keyed u -> NoDup (map snd u).
Proof.
  intros [Hs Hf]. induction u as [| [k p] u IH]; cbn [map snd]; [constructor |].
  cbn [map fst] in Hs. apply StronglySorted_inv in Hs as [Hs Hk]. apply Forall_cons in Hf as [He Hf].
  constructor; [| by apply IH]. intros Hin. apply list_elem_of_In, in_map_iff in Hin as ([k' p'] & E & Hi). cbn in E, He. subst p'.
  rewrite Forall_forall in Hf. rewrite Forall_forall in Hk. assert (Hk' : k' = revision_id p) by (apply (Hf (k', p)); by apply list_elem_of_In).
  destruct (Hk k') as [_ Hne]; [| congruence]. apply list_elem_of_In, in_map_iff. by exists (k', p).
Qed.

(** Heads that agree about their revisions have a map. *)
Definition agreeing (hs : list RemoteSyncPointer) : Prop :=
  forall p q, p ∈ hs -> q ∈ hs -> revision_id p = revision_id q -> p = q.

Lemma unique_heads_total hs u : keyed u -> agreeing (hs ++ map snd u) ->
  exists u', unique_heads hs u = Ok u' /\ keyed u'.
Proof.
  revert u. induction hs as [| p hs IH]; intros u Hu Ha; cbn [unique_heads]; [by exists u |].
  destruct (btree_insert_keyed p u Hu) as [Hu' Ho].
  assert (Helem : forall x, x ∈ map snd (snd (btree_insert (revision_id p) p u)) -> x = p \/ x ∈ map snd u).
  { intros x. pose proof (btree_insert_elem (revision_id p) p u x) as Hb. destruct (btree_insert _ _ _). by destruct Hb. }
  destruct (btree_insert (revision_id p) p u) as [previous u1]. cbn [fst snd] in *.
  assert (Hgo : exists u', unique_heads hs u1 = Ok u' /\ keyed u').
  { apply IH; [done |]. intros a b. rewrite !elem_of_app. intros Hain Hbin. apply Ha; rewrite elem_of_app, elem_of_cons;
      [destruct Hain as [| Hi] | destruct Hbin as [| Hi]]; auto; destruct (Helem _ Hi); auto. }
  destruct previous as [old |]; [| done]. destruct (Ho old eq_refl) as [Hin Hr].
  rewrite bool_decide_eq_true_2; [done |]. apply Ha; [apply elem_of_app; by right | by left | done].
Qed.

(** ** The files of a push *)

Section store.
Context `{HC : SyncCodecLaws} {HL : SyncLibLaws} (options : LocalCloudSyncOptions).
Abbreviation root := (remote_root options).
Abbreviation password := (master_password options).

(** Every file of the protocol can be read, the heads agree, and every head has its
    snapshot.  An empty store is so. *)
Record store_ok (f : gmap str (list Z)) : Prop := {
  ok_files : files_ok root f;
  ok_agree : agreeing (stored_heads root f);
  ok_readable p : p ∈ stored_heads root f -> exists s, holds_snapshot options f p s;
  ok_counters : Forall pointer_ok (stored_heads root f)
}.

Lemma store_ok_empty : store_ok ∅.
Proof.
  assert (E : stored_heads root ∅ = []).
  { unfold stored_heads, records_in, list_prefix, pointer_in. by rewrite map_to_list_empty, lookup_empty. }
  split; [split | ..]; rewrite ?E.
  - unfold list_prefix. by rewrite map_to_list_empty.
  - intros path b. by rewrite lookup_empty.
  - intros b. by rewrite lookup_empty.
  - intros p q []%not_elem_of_nil.
  - intros p []%not_elem_of_nil.
  - constructor.
Qed.

Lemma heads_prefix_eq : heads_prefix root = path_prefix root ++ bs "sync/heads/".
Proof.
  exact (remote_path_between root 115 (bs "ync/heads") [] [] 47
    ltac:(unfold word_byte; lia) ltac:(done) ltac:(unfold word_byte; lia)).
Qed.

Lemma under_heads path : starts_with (heads_prefix root) path = true ->
  exists rest, path = path_prefix root ++ bs "sync/heads/" ++ rest.
Proof.
  unfold starts_with. destruct (strip_prefix _ _) as [rest |] eqn:E; [| done]. intros _. exists rest.
  apply strip_prefix_Some in E. by rewrite E, heads_prefix_eq, <- app_assoc.
Qed.

Lemma ends_with_app l suffix : ends_with suffix (l ++ suffix) = true.
Proof. unfold ends_with. rewrite rev_app_distr. apply starts_with_app. Qed.

Lemma head_path_file d : head_file root (device_head_path root d) = true.
Proof.
  unfold head_file. apply andb_true_iff. split; rewrite device_head_path_eq.
  - fold (heads_prefix root). rewrite heads_prefix_eq, app_assoc. apply starts_with_app.
  - rewrite !app_assoc. apply ends_with_app.
Qed.

Lemma single_element {A} (l : list A) a : NoDup l -> (forall q, q ∈ l <-> q = a) -> l = [a].
Proof.
  intros Hn Hl. destruct l as [| b [| c l]].
  - by destruct (not_elem_of_nil a (proj2 (Hl a) eq_refl)).
  - f_equal. apply Hl. left.
  - assert (b = a) as -> by (apply Hl; left). assert (c = a) as -> by (apply Hl; right; left).
    apply NoDup_cons in Hn as [Hn _]. by destruct Hn; left.
Qed.

Lemma maximal_nodup H : NoDup (heads H) -> NoDup (maximal H).
Proof. intros Hn. unfold maximal, maximal_of. by apply NoDup_ListNoDup, List.NoDup_filter, NoDup_ListNoDup. Qed.

(** The heads of a readable store. *)
Lemma heads_in_total f : store_ok f -> exists H, heads_in root f = Ok H /\
  (forall q, q ∈ heads H <-> q ∈ stored_heads root f) /\ NoDup (heads H) /\ heads_shape H /\ heads_choice H /\
  compatibility H = pointer_in root f.
Proof.
  intros Hf. destruct (unique_heads_total (stored_heads root f) []) as (u & Eu & Hk).
  { split; constructor. }
  { cbn [map]. rewrite app_nil_r. apply (ok_agree _ Hf). }
  unfold heads_in. rewrite Eu. cbn [result_bind]. eexists. split; [done |]. cbn [heads compatibility].
  assert (Hin : forall q, q ∈ map snd u <-> q ∈ stored_heads root f).
  { intros q. rewrite (unique_heads_elem _ _ _ _ Eu). cbn [map]. rewrite elem_of_nil. tauto. }
  split_and!; [done | by apply keyed_nodup | | done | done]. split; cbn [heads compatibility].
  - intros q Hq Hc. apply Hin, elem_of_app in Hq as [Hq | Hq].
    + apply list_elem_of_omap in Hq as (record & Hr & E). apply records_in_elem in Hr as (path & b & _ & _ & Ed).
      destruct (decode_record_clock _ _ _ Ed E). congruence.
    + destruct (pointer_in root f); cbn in Hq; [by apply list_elem_of_singleton in Hq as -> | by apply elem_of_nil in Hq].
  - intros q Eq. apply Hin, elem_of_app. right. rewrite Eq. left.
Qed.

Context (x : RawPortableSnapshot) (marker head : list Z) (f : gmap str (list Z)).
Abbreviation p := (pointer_from_snapshot x).
Abbreviation pushed := (published_files options x head (staged options x marker f)).
Context (Hdevice : meta_device (meta x) = opt_device options).

Lemma pushed_heads path : starts_with (heads_prefix root) path = true ->
  pushed !! path =
    if decide (path = pending_head_path root (device_id p)) then None
    else if decide (path = device_head_path root (device_id p)) then Some head else f !! path.
Proof.
  intros (rest & ->)%under_heads. unfold published_files, staged, snapshot_path.
  rewrite (lookup_insert_ne _ (remote_path root SYNC_CURRENT_FILE))
    by (rewrite current_path_eq; intros E%app_inv_head; done).
  rewrite (lookup_insert_ne _ (remote_path root SYNC_LATEST_FILE))
    by (rewrite latest_path_eq; intros E%app_inv_head; done).
  destruct (decide _) as [-> | Hp]; [by rewrite lookup_delete_eq |]. rewrite lookup_delete_ne by congruence.
  destruct (decide _) as [-> | Hh]; [by rewrite lookup_insert_eq |]. rewrite lookup_insert_ne by congruence.
  rewrite lookup_insert_ne by (rewrite snapshot_file_path_eq; intros E%app_inv_head; done).
  rewrite lookup_insert_ne; [done |]. intros E. apply Hp. by rewrite <- E, <- Hdevice.
Qed.

Lemma pushed_snapshot revision : pushed !! snapshot_path options revision =
  if decide (revision = meta_revision (meta x)) then Some (snapshot_encode x password)
  else f !! snapshot_path options revision.
Proof.
  unfold published_files, staged, snapshot_path.
  rewrite (lookup_insert_ne _ (remote_path root SYNC_CURRENT_FILE))
    by (rewrite current_path_eq, snapshot_file_path_eq; intros E%app_inv_head; done).
  rewrite (lookup_insert_ne _ (remote_path root SYNC_LATEST_FILE))
    by (rewrite latest_path_eq, snapshot_file_path_eq; intros E%app_inv_head; done).
  rewrite lookup_delete_ne by (rewrite pending_head_path_eq, snapshot_file_path_eq; intros E%app_inv_head; done).
  rewrite lookup_insert_ne by (rewrite device_head_path_eq, snapshot_file_path_eq; intros E%app_inv_head; done).
  destruct (decide _) as [-> | Hr]; [by rewrite lookup_insert_eq |].
  rewrite lookup_insert_ne.
  - apply lookup_insert_ne. rewrite pending_head_path_eq, snapshot_file_path_eq. by intros E%app_inv_head.
  - rewrite !snapshot_file_path_eq. intros E%app_inv_head. apply (app_inv_head (bs "sync/snapshots/")), app_inv_tail in E. congruence.
Qed.

Lemma pushed_pointer : pointer_in root pushed = Some p.
Proof.
  unfold pointer_in, published_files.
  rewrite lookup_insert_ne by (unfold latest_path; rewrite latest_path_eq, current_path_eq; intros E%app_inv_head; done).
  by rewrite lookup_insert_eq, pointer_roundtrip.
Qed.

(** The push is well formed: its clock is the next one after the heads of the store,
    its revision is new, and its records and its snapshot have the right sizes. *)
Context (Hup : uploadable options x)
  (Hhead : head_to_vec (committed_head p) = Ok head) (Hsize : len head <= MAX_HEAD_BYTES)
  (Hok : store_ok f)
  (Hroom : len (list_prefix (heads_prefix root) f) < MAX_DEVICES * 2)
  (Hfresh : forall q, q ∈ stored_heads root f -> revision_id q <> meta_revision (meta x))
  (clock : SnapshotSyncClock) (Hclock : meta_clock (meta x) = Some clock)
  (Hclock_ok : clock_ok clock) (Hvalid : validate_clock clock = Ok tt).

Lemma pushed_decodes : decode_record head = Ok (committed_head p).
Proof.
  unfold decode_record. destruct (Z.ltb_spec MAX_HEAD_BYTES (len head)); [lia |].
  rewrite (head_roundtrip _ _ Hhead). cbn [map_err result_bind committed committed_head head_device].
  rewrite beq_refl. cbn [negb sync_clock pointer_from_snapshot]. by rewrite Hclock; cbn; rewrite Hvalid.
Qed.

Lemma head_file_under path : head_file root path = true -> starts_with (heads_prefix root) path = true.
Proof. by intros [? _]%andb_true_iff. Qed.

Lemma pushed_records record : record ∈ records_in root pushed -> record = committed_head p \/ record ∈ records_in root f.
Proof.
  intros (path & b & Eb & Eh & Ed)%records_in_elem. rewrite pushed_heads in Eb by by apply head_file_under.
  destruct (decide _) as [| _]; [done |]. destruct (decide _) as [-> | _].
  - injection Eb as <-. left. rewrite pushed_decodes in Ed. congruence.
  - right. apply records_in_elem. eauto.
Qed.

Lemma pushed_stored q : q ∈ stored_heads root pushed <-> q = p \/ q ∈ omap committed (records_in root pushed).
Proof. unfold stored_heads. rewrite pushed_pointer, elem_of_app. cbn. rewrite list_elem_of_singleton. tauto. Qed.

Lemma pushed_stored_old q : q ∈ stored_heads root pushed -> q = p \/ q ∈ stored_heads root f.
Proof.
  intros [-> | Hq]%pushed_stored; [by left |]. apply list_elem_of_omap in Hq as (record & Hr & E).
  apply pushed_records in Hr as [-> | Hr]; [left; by injection E |]. right. apply elem_of_app. left.
  apply list_elem_of_omap. eauto.
Qed.

Lemma list_prefix_nodup prefix g : NoDup (list_prefix prefix g).
Proof. unfold list_prefix. apply NoDup_ListNoDup, List.NoDup_filter, NoDup_ListNoDup, NoDup_fst_map_to_list. Qed.

Lemma pushed_files_ok : files_ok root pushed.
Proof.
  pose proof (ok_files _ Hok) as [Hfew Hheads Hptr]. split.
  - assert (Hs : list_prefix (heads_prefix root) pushed ⊆+
                 device_head_path root (device_id p) :: list_prefix (heads_prefix root) f).
    { apply NoDup_submseteq; [apply list_prefix_nodup |]. intros path [[b Eb] Hs]%list_prefix_elem.
      rewrite pushed_heads in Eb by done. destruct (decide _); [done |]. destruct (decide _) as [-> | _]; [by left |].
      right. apply list_prefix_elem. split; [by eexists | done]. }
    apply submseteq_length in Hs. cbn [length] in Hs. lia.
  - intros path b Eb Eh. rewrite pushed_heads in Eb by by apply head_file_under.
    destruct (decide _); [done |]. destruct (decide _) as [-> | _]; [| by apply Hheads].
    injection Eb as <-. exists (committed_head p). split; [apply pushed_decodes | done].
  - intros b Eb. pose proof pushed_pointer as Hp. unfold pointer_in in Hp. rewrite Eb in Hp.
    destruct (pointer_decode b) as [q |]; [by exists q | done].
Qed.

Lemma pushed_holds : holds_snapshot options pushed p x.
Proof.
  exists (snapshot_encode x password). destruct Hup as [H1 H2 H3]. split_and!; [| lia | lia | by apply snapshot_roundtrip | apply pointer_validates].
  rewrite pushed_snapshot. cbn [revision_id pointer_from_snapshot]. by rewrite decide_True.
Qed.

(** A push keeps the store readable. *)
Lemma pushed_store_ok : store_ok pushed.
Proof.
  split; [apply pushed_files_ok | ..].
  - intros a b [-> | Ha]%pushed_stored_old [-> | Hb]%pushed_stored_old E; [done | | | by apply (ok_agree _ Hok)].
    + by destruct (Hfresh b Hb).
    + by destruct (Hfresh a Ha).
  - intros q [-> | Hq]%pushed_stored_old; [exists x; apply pushed_holds |].
    destruct (ok_readable _ Hok q Hq) as (s & b & Hb & Hrest). exists s, b. split; [| done].
    rewrite pushed_snapshot, decide_False; [done | by apply Hfresh].
  - apply Forall_forall. intros q [-> | Hq]%pushed_stored_old.
    + unfold pointer_ok. cbn [sync_clock pointer_from_snapshot]. by rewrite Hclock.
    + pose proof (ok_counters _ Hok) as Hc. rewrite Forall_forall in Hc. by apply Hc.
Qed.

(** The pushed head supersedes the others and is the one that is selected. *)
Lemma pushed_selected H :
  (forall q, q ∈ stored_heads root f -> dominates p q = true) -> heads_in root pushed = Ok H ->
  selected H = Some p /\ concurrent H = false.
Proof.
  intros Hd EH. destruct (heads_in_total _ pushed_store_ok) as (H' & EH' & Hin & Hnd & _ & HCh & HCo).
  assert (H' = H) as -> by congruence.
  assert (Hpin : p ∈ heads H) by (apply Hin, pushed_stored; by left).
  assert (Hm : maximal H = [p]).
  { apply single_element; [by apply maximal_nodup |]. intros q. unfold maximal. rewrite elem_of_maximal. split.
    - intros [Hq Hmax]. apply Hin, pushed_stored_old in Hq as [| Hq]; [done |].
      specialize (Hmax p Hpin). by rewrite (Hd q Hq) in Hmax.
    - intros ->. split; [done |]. intros q Hq. apply Hin, pushed_stored_old in Hq as [-> | Hq]; [apply dominates_irrefl |].
      apply dominates_asym; [| | by eexists | by apply Hd].
      + unfold pointer_ok. cbn [sync_clock pointer_from_snapshot]. by rewrite Hclock.
      + pose proof (ok_counters _ Hok) as Hc. rewrite Forall_forall in Hc. by apply Hc. }
  rewrite (shape_selected _ HCh), (shape_concurrent _ HCh), Hm, HCo, pushed_pointer. split; [| done].
  unfold select_head. cbn [List.find]. by rewrite beq_refl.
Qed.
End store.

(** ** Push *)

(** Hashing a snapshot makes it valid. *)
Lemma rehash_valid `{L : SyncLib} s s' : rehash s = Ok s' -> schema_version (meta s) = PORTABLE_SNAPSHOT_SCHEMA_VERSION ->
  validate_raw_snapshot s' = Ok tt /\ source_hash s' = None /\ entities s' = entities s /\
  meta_device (meta s') = meta_device (meta s) /\ meta_revision (meta s') = meta_revision (meta s).
Proof.
  unfold rehash, recalculate_hash, validate_raw_snapshot.
  destruct (calculate_v3_raw_payload_hash (entities s)) as [payload |] eqn:E1; [| done].
  destruct (calculate_entities_hash (entities s)) as [all |] eqn:E2; [| done]. cbn. intros [= <-] Hv. cbn.
  rewrite Hv, E1. cbn. rewrite beq_refl, E2. cbn. by rewrite beq_refl.
Qed.

Lemma content_hash_total `{L : SyncLib} s s' : rehash s = Ok s' -> exists h, content_hash_of s' = Ok h.
Proof.
  unfold rehash, recalculate_hash, content_hash_of, sync_content_hash.
  destruct (calculate_v3_raw_payload_hash (entities s)); [| done].
  destruct (calculate_entities_hash (entities s)) eqn:E; [| done]. cbn. intros [= <-]. cbn. rewrite E. cbn. by eexists.
Qed.

Lemma normalized_fields state device :
  last_applied_remote_revision (normalized_state state device) = last_applied_remote_revision state /\
  last_synced_content_hash (normalized_state state device) = last_synced_content_hash state.
Proof. unfold normalized_state. by destruct (trim _). Qed.

Section push.
Context `{HC : SyncCodecLaws} {HL : SyncLibLaws} (options : LocalCloudSyncOptions).
Abbreviation root := (remote_root options).
Abbreviation password := (master_password options).

(** The snapshot that a push of the local data uploads. *)
Definition new_snapshot (clock : SnapshotSyncClock) (local : RawPortableSnapshot) : RawPortableSnapshot :=
  set_meta (with_clock clock (with_name (opt_device_name options) (meta local))) local.

(** What a push needs: a readable store with room, local data of this device under a
    new revision that can be hashed, a clock that is not exhausted, and sizes within
    the limits. *)
Record push_ready (state : CloudSyncState) (f : gmap str (list Z)) (built : RawPortableSnapshot) (H : RemoteHeads)
    (local : RawPortableSnapshot) (clock : SnapshotSyncClock) (marker head : list Z) : Prop := {
  ready_enabled : enabled options = true;
  ready_store : store_ok options f;
  ready_room : len (list_prefix (heads_prefix root) f) < MAX_DEVICES * 2;
  ready_heads : heads_in root f = Ok H;
  ready_schema : schema_version (meta built) = PORTABLE_SNAPSHOT_SCHEMA_VERSION;
  ready_device : meta_device (meta built) = opt_device options;
  ready_fresh q : q ∈ stored_heads root f -> revision_id q <> meta_revision (meta built);
  ready_local : rehash built = Ok local;
  ready_baseline c : last_synced_clock state = Some c -> clock_ok c;
  ready_clock : next_clock H (last_synced_clock state) (opt_device options) = Ok clock;
  ready_marker : head_to_vec (staging_head options (pointer_from_snapshot (new_snapshot clock local))) = Ok marker;
  ready_marker_size : len marker <= MAX_HEAD_BYTES;
  ready_head : head_to_vec (committed_head (pointer_from_snapshot (new_snapshot clock local))) = Ok head;
  ready_head_size : len head <= MAX_HEAD_BYTES;
  ready_size : MIN_ENCRYPTED_SNAPSHOT_BYTES <= len (snapshot_encode (new_snapshot clock local) password)
                 <= MAX_ENCRYPTED_SNAPSHOT_BYTES
}.

(** Without force there is one branch, which was applied here, and both sides differ
    from what is pushed. *)
Definition push_allowed (state : CloudSyncState) (force : bool) (f : gmap str (list Z)) (H : RemoteHeads) (content : str) : Prop :=
  force = true \/
  (concurrent H = false /\
   forall latest, selected H = Some latest ->
     remote_precedes_baseline state latest = false /\ remote_concurrent_with_baseline state latest = false /\
     last_applied_remote_revision state = Some (revision_id latest) /\ last_synced_content_hash state <> Some content /\
     forall s, holds_snapshot options f latest s -> exists h, content_hash_of s = Ok h /\ h <> content).

Definition uploaded_as (p : RemoteSyncPointer) (r : res CloudSyncResult) : Prop :=
  exists result, r = Ok result /\ result_outcome result = OutUploaded /\ result_pointer result = Some p.

Context (S : CloudLocalStore) (R : CloudSyncRemote) `{HS : !HonestStore S} `{HR : !HonestRemote R}.
Context (state : CloudSyncState) (f : gmap str (list Z)) (built local : RawPortableSnapshot) (H : RemoteHeads)
  (clock : SnapshotSyncClock) (marker head : list Z) (Hready : push_ready state f built H local clock marker head).
Abbreviation x := (new_snapshot clock local).
Abbreviation p := (pointer_from_snapshot x).
Abbreviation pushed := (published_files options x head (staged options x marker f)).

Lemma ready_uploadable : uploadable options x.
Proof.
  destruct (rehash_valid _ _ (ready_local _ _ _ _ _ _ _ _ Hready) (ready_schema _ _ _ _ _ _ _ _ Hready)) as (H1 & H2 & _).
  split; [done | done | apply (ready_size _ _ _ _ _ _ _ _ Hready)].
Qed.

Lemma finish_total g s next message o outcome :
  triple g s (push_finish S R next message o outcome)
    (fun r => exists result, r = Ok result /\ result_outcome result = outcome /\ result_pointer result = o) g s.
Proof. eapply triple_let; [apply (honest_persist (S := S)) |]. apply triple_ret. by eexists. Qed.

Lemma ensure_unchanged_total s : 
  triple (staged options x marker f) s (ensure_remote_head_unchanged S R options (pointer_in root f)) (eq (Ok tt)) (staged options x marker f) s.
Proof.
  assert (E : staged options x marker f !! latest_path root = f !! latest_path root).
  { unfold staged, snapshot_path, latest_path. rewrite !lookup_insert_ne; [done | |];
      rewrite latest_path_eq, ?snapshot_file_path_eq, ?pending_head_path_eq; by intros E%app_inv_head. }
  eapply triple_let; [apply (load_pointer_total root S R) |].
  - intros b Eb. rewrite E in Eb. by apply (pointer_file _ _ (ok_files _ _ (ready_store _ _ _ _ _ _ _ _ Hready)) b).
  - assert (pointer_in root (staged options x marker f) = pointer_in root f) as -> by (unfold pointer_in; by rewrite E).
    rewrite bool_decide_eq_true_2 by done. by apply triple_ret.
Qed.

Lemma push_commit_total s next force content : compatibility H = pointer_in root f ->
  triple f s (push_commit S R options state next force H local content) (uploaded_as p) pushed s.
Proof.
  intros Hcomp. destruct Hready. unfold push_commit. eapply triple_lift; [done |].
  eapply triple_let; [by apply (upload_total options S R); [apply ready_uploadable | |] |]. apply triple_now. intros t.
  apply (triple_let _ _ _ tt (staged options x marker f) s).
  { destruct force; [by apply triple_ret |]. rewrite Hcomp. apply ensure_unchanged_total. }
  eapply triple_let; [apply triple_begin_commit |]. eapply triple_let; [by apply (publish_all_total options S R) |].
  apply triple_now. intros t1. apply triple_now. intros t2. apply finish_total.
Qed.

Lemma ready_in : (forall q, q ∈ heads H <-> q ∈ stored_heads root f) /\ heads_shape H /\ heads_choice H /\
  compatibility H = pointer_in root f.
Proof.
  destruct Hready. destruct (heads_in_total _ _ ready_store0) as (H' & E & ? & _ & ? & ? & ?).
  assert (H' = H) as -> by congruence. done.
Qed.

Definition found (latest : option RemoteSyncPointer) (o : option RawPortableSnapshot) : Prop :=
  match latest, o with
  | None, None => True
  | Some q, Some y => holds_snapshot options f q y
  | _, _ => False
  end.

Lemma push_remote_snapshot_total s force hash :
  triple f s (push_remote_snapshot S R options force hash (selected H) None)
    (fun r => exists o, r = Ok o /\ found (selected H) o) f s.
Proof.
  unfold push_remote_snapshot. destruct (selected H) as [q |] eqn:E; [| apply triple_ret; by exists None].
  destruct ready_in as (Hin & _ & HCh & _). destruct Hready.
  destruct (ok_readable _ _ ready_store0 q) as [y Hy]; [apply Hin; by apply choice_in |].
  eapply triple_let; [by apply (resolve_total options S R) |]. apply triple_ret. by exists (Some y).
Qed.

Lemma push_decide_total s force content o : push_allowed state force f H content -> found (selected H) o ->
  triple f s (push_decide S R options state (normalized_state state (opt_device options)) force H local content o)
    (uploaded_as p) pushed s.
Proof.
  intros Ha Ho. destruct ready_in as (_ & _ & _ & Hcomp). pose proof (fun n g => push_commit_total s n g content Hcomp) as Hcommit.
  destruct (normalized_fields state (opt_device options)) as [N1 N2]. unfold push_decide, local_content_changed. rewrite N1, N2.
  destruct force.
  - apply (triple_let f s _ None f s); [destruct o; by apply triple_ret |].
    cbn [negb andb]. rewrite !andb_false_r. cbn [andb]. apply Hcommit.
  - destruct Ha as [| [Hc Ha]]; [done |]. destruct (selected H) as [q |], o as [y |]; try done.
    + destruct (Ha q eq_refl) as (_ & _ & Happ & Hsync & Hy). destruct (Hy y Ho) as (h & Eh & Hne).
      eapply triple_let; [eapply triple_lift; [exact Eh |]; by apply triple_ret |]. cbn [negb andb is_some].
      rewrite bool_decide_eq_false_2 by congruence. rewrite Happ. cbn [is_not]. rewrite beq_refl.
      rewrite (bool_decide_eq_false_2 (last_synced_content_hash state = Some content)) by done. apply Hcommit.
    + eapply triple_let; [by apply triple_ret |]. cbn [negb andb is_some]. rewrite bool_decide_eq_false_2 by done. apply Hcommit.
Qed.
End push.

Section operations.
Context `{HC : SyncCodecLaws} {HL : SyncLibLaws} (name : str).
Abbreviation remote := (raw_remote name).
Abbreviation store := raw_store.

Lemma layout_total R `{HR : !HonestRemote R} root f s : triple f s (ensure_remote_layout R root) (eq (Ok tt)) f s.
Proof.
  unfold ensure_remote_layout. cbn [for_each].
  do 3 (eapply triple_let; [apply (honest_dir (R := R)) |]). by apply triple_ret.
Qed.

Lemma details_ok {T} f s (m : M T) P st R options f' s' :
  triple f s m (fun r => exists a, r = Ok a /\ P a) f' s' ->
  triple f s (with_details m st R options) (fun r => exists a, r = Ok a /\ P a) f' s'.
Proof.
  intros Hm. eapply triple_bind; [exact Hm |]. intros r (a & -> & HP). apply triple_ret. by exists a.
Qed.

Lemma prepare_total options f s H S R `{HS : !HonestStore S} `{HR : !HonestRemote R} :
  files_ok (remote_root options) f -> heads_in (remote_root options) f = Ok H ->
  triple f s (prepare S R options None) (eq (Ok (Prepared s H None))) f s.
Proof.
  intros Hf EH. eapply triple_let; [apply (honest_build (S := S)) |].
  eapply triple_let; [by apply (read_total (remote_root options) S R) |]. by apply triple_ret.
Qed.

Lemma push_total options state force f built H local clock marker head content :
  push_ready options state f built H local clock marker head ->
  content_hash_of local = Ok content -> push_allowed options state force f H content ->
  triple f built (push_snapshot_with_remote store options remote state force)
    (uploaded_as (pointer_from_snapshot (new_snapshot options clock local)))
    (published_files options (new_snapshot options clock local) head
       (staged options (new_snapshot options clock local) marker f)) built.
Proof.
  intros Hready Hcontent Ha. pose proof Hready as Hr. destruct Hr. unfold push_snapshot_with_remote. apply details_ok.
  eapply triple_let; [apply triple_checkpoint |]. cbn zeta.
  eapply triple_lift; [unfold ensure_enabled; by rewrite ready_enabled0 |].
  eapply triple_let; [apply layout_total; apply _ |].
  eapply triple_let; [by apply prepare_total; [apply _ | apply _ | by apply ok_files |] |]. cbn [prepared_heads prepared_local prepared_remote].
  eapply triple_lift; [done |]. eapply triple_lift; [done |].
  apply (triple_let _ _ _ tt f built).
  { destruct force; [by apply triple_ret |]. destruct Ha as [| [Hc _]]; [done |]. unfold require_single. rewrite Hc. by apply triple_ret. }
  apply (triple_let _ _ _ tt f built).
  { destruct (selected H) as [q |] eqn:Eq; [| by apply triple_ret]. destruct force; [by apply triple_ret |].
    destruct Ha as [| [_ Ha]]; [done |]. destruct (Ha q Eq) as (H1 & H2 & _). unfold validate_remote_baseline.
    rewrite H1, H2. by apply triple_ret. }
  eapply triple_bind; [eapply push_remote_snapshot_total; [apply _ | apply _ | exact Hready] |].
  intros r (o & -> & Ho). eapply push_decide_total; try done; apply _.
Qed.

(** ** Pull *)

Definition downloaded_as (p : RemoteSyncPointer) (r : res CloudSyncResult) : Prop :=
  exists result, r = Ok result /\ result_outcome result = OutDownloaded /\ result_pointer result = Some p.

Lemma built_hash built local content : rehash built = Ok local -> content_hash_of local = Ok content ->
  sync_content_hash built = Ok content.
Proof.
  intros El Ec. assert (E : entities local = entities built).
  { unfold rehash, recalculate_hash in El. destruct (calculate_v3_raw_payload_hash _); [| done].
    destruct (calculate_entities_hash _); [| done]. by injection El as <-. }
  unfold content_hash_of, sync_content_hash in *. rewrite E in Ec.
  destruct (calculate_entities_hash (entities built)); cbn [map_err result_bind] in *; [congruence | done].
Qed.

(** A pull replaces the local data when it differs from the pushed data and may be
    given up: by force, or because it is what was synchronised last, or because it
    holds nothing of the user. *)
Definition pull_replaces (state : CloudSyncState) (force : bool) (local : RawPortableSnapshot) (other content : str) : bool :=
  negb (beq content other) &&
  (force || bool_decide (last_synced_content_hash state = Some other) || negb (has_user_content local)).

(** What a pull answers: up to date, downloaded, or that it leaves the local edits to
    the user. *)
Definition pull_answer (state : CloudSyncState) (force : bool) (p : RemoteSyncPointer) (local : RawPortableSnapshot)
    (other content : str) (remote_user : bool) (r : res CloudSyncResult) : Prop :=
  if beq content other then
    exists result, r = Ok result /\ result_outcome result = OutUpToDate /\ result_pointer result = Some p
  else if pull_replaces state force local other content then downloaded_as p r
  else if remote_user then exists preview, r = Err (Conflict preview)
  else r = Err NoNewerRemoteSnapshot.

Lemma is_not_true o y : o <> Some y -> is_not o y = true.
Proof.
  destruct o as [r |]; [| done]. cbn. intros Hne. destruct (beq r y) eqn:E; [| done]. apply beq_true in E. congruence.
Qed.

Lemma pull_apply_total options state next f built local H p x content S R `{HS : !HonestStore S} `{HR : !HonestRemote R} :
  rehash built = Ok local -> content_hash_of local = Ok content ->
  triple f built (pull_apply S R options state next H p x content false) (downloaded_as p) f x.
Proof.
  intros El Ec. unfold pull_apply. eapply triple_let; [intros w (H1 & H2 & H3); by split |].
  eapply triple_let; [by apply triple_ret |]. cbn beta iota. apply triple_now. intros t1. apply triple_now. intros t2.
  eapply triple_bind; [apply (honest_apply (S := S)); by apply (built_hash built local) |].
  intros r (b & ->). cbn beta iota. apply triple_ret. by eexists.
Qed.

Lemma pull_decide_total options state next force f built local H p x content other S R
    `{HS : !HonestStore S} `{HR : !HonestRemote R} :
  concurrent H = false -> remote_precedes_baseline state p = false -> remote_concurrent_with_baseline state p = false ->
  rehash built = Ok local -> content_hash_of local = Ok other -> content_hash_of x = Ok content ->
  last_applied_remote_revision next <> Some (revision_id p) ->
  last_synced_content_hash next = last_synced_content_hash state ->
  triple f built (pull_decide S R options state next force H p local x)
    (pull_answer state force p local other content (has_user_content x)) f
    (if pull_replaces state force local other content then x else built).
Proof.
  intros Hcon Hb1 Hb2 El Eo Ec Happ Esync. unfold pull_decide. eapply triple_lift; [done |].
  rewrite Hcon, Hb1, Hb2. cbn [orb]. eapply triple_let; [eapply triple_lift; [exact Ec |]; by apply triple_ret |]. cbn zeta.
  unfold pull_answer. unfold pull_replaces at 2. destruct (beq content other) eqn:Eb.
  { cbn [negb andb]. apply triple_now. intros t. by apply finish_total. }
  rewrite (is_not_true _ _ Happ). cbn [negb andb]. unfold local_content_changed. rewrite Esync.
  pose proof (pull_apply_total options state next f built local H p x other S R El Eo) as Hgo.
  unfold pull_replaces. rewrite Eb. cbn [negb andb].
  destruct force; cbn [orb andb negb]; [by rewrite andb_false_r |]. rewrite andb_true_r.
  case_bool_decide; cbn [orb andb negb]; [done |]. destruct (has_user_content local); cbn [negb]; [| done].
  destruct (has_user_content x); cbn [negb]; [| by apply triple_ret].
  apply triple_now. intros t. apply triple_ret. by eexists.
Qed.

Lemma describe_branches_total options f s local hash pointers S R `{HS : !HonestStore S} `{HR : !HonestRemote R} :
  (forall q, q ∈ pointers -> exists y, holds_snapshot options f q y) ->
  triple f s (describe_branches S R options local hash pointers None) (fun _ => True) f s.
Proof.
  induction pointers as [| q pointers IH]; intros Hq; cbn [describe_branches]; [by apply triple_ret |].
  apply (triple_bind _ _ _ (fun r => snd r = None) f s).
  - destruct (Hq q) as [y Hy]; [left |]. unfold describe_branch. cbn.
    eapply triple_bind; [by apply (read_snapshot_total options S R) |]. intros r <-. by apply triple_ret.
  - intros [[b blocked] c] [= ->]. apply (triple_bind _ _ _ (fun _ => True) f s); [| by intros [[? ?] ?] _; apply triple_ret].
    apply IH. intros q' Hq'. apply Hq. by right.
Qed.

(** Describing the branches keeps the files, the data and the kind of the answer. *)
Lemma details_total {T} options f s (m : M T) (P : res T -> Prop) f' s' H S R `{HS : !HonestStore S} `{HR : !HonestRemote R} :
  triple f s m P f' s' -> store_ok options f' -> heads_in (remote_root options) f' = Ok H ->
  (forall a b, P (Err (Conflict a)) -> P (Err (Conflict b))) ->
  triple f s (with_details m S R options) P f' s'.
Proof.
  intros Hm Hok EH HP. eapply triple_bind; [exact Hm |]. intros r Hr.
  eapply (triple_bind _ _ _ (fun o => P (fst o)) f' s'); [| intros [r' c] Hr'; by apply triple_ret].
  destruct r as [t | e]; [by apply triple_ret |]. destruct e; try by apply triple_ret.
  eapply triple_bind; [apply (honest_build (S := S)) |]. intros l <-.
  eapply triple_bind; [by apply (read_total (remote_root options) S R); [apply ok_files |] |]. intros h <-. cbn beta iota zeta.
  eapply triple_bind; [eapply describe_branches_total; [apply _ | apply _ |] |].
  - intros q Hq. apply elem_of_maximal in Hq as [Hq _]. apply (ok_readable _ _ Hok).
    destruct (heads_in_total _ _ Hok) as (H' & E & Hin & _). assert (H' = H) as -> by congruence. by apply Hin.
  - intros [[b blocked] c] _. apply triple_ret. by eapply HP.
Qed.

Lemma pull_total options state force f built local H p x content other :
  enabled options = true -> store_ok options f -> heads_in (remote_root options) f = Ok H ->
  selected H = Some p -> concurrent H = false -> holds_snapshot options f p x ->
  rehash built = Ok local -> content_hash_of local = Ok other -> content_hash_of x = Ok content ->
  remote_precedes_baseline state p = false -> remote_concurrent_with_baseline state p = false ->
  last_applied_remote_revision state <> Some (revision_id p) ->
  triple f built (pull_snapshot_with_remote store options remote state force)
    (pull_answer state force p local other content (has_user_content x)) f
    (if pull_replaces state force local other content then x else built).
Proof.
  intros Hen Hok EH Hsel Hcon Hx El Eo Ec Hb1 Hb2 Happ. unfold pull_snapshot_with_remote.
  eapply (details_total options); [apply _ | apply _ | | done | done |].
  2: { intros a b. unfold pull_answer. destruct (beq _ _); [by intros (? & ? & _) |].
       destruct (pull_replaces _ _ _ _ _); [by intros (? & ? & _) |]. destruct (has_user_content x); [by eexists | done]. }
  eapply triple_let; [apply triple_checkpoint |]. cbn zeta.
  eapply triple_lift; [unfold ensure_enabled; by rewrite Hen |]. eapply triple_let; [apply layout_total; apply _ |].
  eapply triple_let; [by apply prepare_total; [apply _ | apply _ | by apply ok_files |] |]. cbn [prepared_heads prepared_local prepared_remote].
  eapply triple_lift; [by rewrite Hsel |].
  apply (triple_let _ _ _ tt f built).
  { destruct force; [by apply triple_ret |]. unfold validate_remote_baseline. rewrite Hb1, Hb2. by apply triple_ret. }
  eapply triple_lift; [done |].
  apply (triple_let _ _ _ tt f built).
  { destruct force; [by apply triple_ret |]. unfold require_single. rewrite Hcon. by apply triple_ret. }
  eapply triple_let.
  { unfold pull_remote_snapshot. eapply triple_let; [by eapply resolve_total; [apply _ | apply _ |] |]. by apply triple_ret. }
  apply triple_now. intros t. eapply pull_decide_total; try done; try apply _;
    cbn [set_validated last_applied_remote_revision last_synced_content_hash]; destruct (normalized_fields state (opt_device options)); congruence.
Qed.

(** ** Two devices *)

(** The same account on another device. *)
Definition on_device (device : str) (label : option str) (o : LocalCloudSyncOptions) : LocalCloudSyncOptions :=
  Options (config_dir o) (portable_key_path o) (remote_dir o) (remote_root o) device label (opt_app_version o)
    (master_password o) (enabled o).

Lemma store_ok_device options device label f : store_ok options f -> store_ok (on_device device label options) f.
Proof. intros [H1 H2 H3 H4]. by split. Qed.

(** The other device has not seen the push, and what it synchronised last, if
    anything, is superseded by the push; its data can be hashed. *)
Record pull_ready (state : CloudSyncState) (pushed : RemoteSyncPointer) (built local : RawPortableSnapshot) (other : str) : Prop := {
  pull_baseline c : last_synced_clock state = Some c ->
    clock_ok c /\ exists clock, sync_clock pushed = Some clock /\ strictly_dominates clock c = true;
  pull_unseen : last_applied_remote_revision state <> Some (revision_id pushed);
  pull_local : rehash built = Ok local;
  pull_hash : content_hash_of local = Ok other
}.

Lemma pull_ready_baseline state pushed clock built local other :
  pull_ready state pushed built local other -> sync_clock pushed = Some clock -> clock_ok clock ->
  remote_precedes_baseline state pushed = false /\ remote_concurrent_with_baseline state pushed = false.
Proof.
  intros Hp Ec Hok. unfold remote_precedes_baseline, remote_concurrent_with_baseline. rewrite Ec.
  rewrite (bool_decide_eq_false_2 _ (pull_unseen _ _ _ _ _ Hp)).
  destruct (last_synced_clock state) as [c |] eqn:E; [| done].
  destruct (pull_baseline _ _ _ _ _ Hp c E) as (Hc & clock' & Ec' & Hd). rewrite Ec in Ec'. injection Ec' as <-.
  by rewrite Hd, (strictly_dominates_asym clock c) by done.
Qed.

Section converge.
Context (options : LocalCloudSyncOptions) (state : CloudSyncState) (f : gmap str (list Z)) (built local : RawPortableSnapshot)
  (H : RemoteHeads) (clock : SnapshotSyncClock) (marker head : list Z)
  (Hready : push_ready options state f built H local clock marker head).
Abbreviation x := (new_snapshot options clock local).
Abbreviation p := (pointer_from_snapshot x).
Abbreviation pushed := (published_files options x head (staged options x marker f)).

Lemma ready_above : clock_ok clock /\ forall q c, q ∈ stored_heads (remote_root options) f -> sync_clock q = Some c ->
  strictly_dominates clock c = true.
Proof.
  destruct (ready_in _ _ _ _ _ _ _ _ _ Hready) as (Hin & _ & _ & _). destruct Hready.
  assert (Hbase : match last_synced_clock state with Some c => clock_ok c | None => True end)
    by (destruct (last_synced_clock state); auto).
  assert (Hheads : Forall pointer_ok (heads H)).
  { apply Forall_forall. intros q Hq. apply Hin in Hq. pose proof (ok_counters _ _ ready_store0) as Hc. rewrite Forall_forall in Hc. by apply Hc. }
  destruct (next_clock_above _ _ _ _ Hheads Hbase ready_clock0) as (Hc1 & _ & _ & Hc2). split; [done |].
  intros q c Hq Ec. apply Hc2, elem_of_app. right. apply list_elem_of_omap. exists q. split; [by apply Hin | done].
Qed.

Lemma ready_pushed : store_ok options pushed /\ holds_snapshot options pushed p x /\ entities x = entities built /\
  exists H', heads_in (remote_root options) pushed = Ok H' /\ selected H' = Some p /\ concurrent H' = false.
Proof.
  pose proof (ready_uploadable _ _ _ _ _ _ _ _ _ Hready) as Hup. destruct (ready_in _ _ _ _ _ _ _ _ _ Hready) as (Hin & Hsh & _ & _).
  destruct Hready. destruct (rehash_valid _ _ ready_local0 ready_schema0) as (_ & _ & He & Hd & Hrev).
  assert (Hbase : match last_synced_clock state with Some c => clock_ok c | None => True end)
    by (destruct (last_synced_clock state); auto).
  assert (Hheads : Forall pointer_ok (heads H)).
  { apply Forall_forall. intros q Hq. apply Hin in Hq. pose proof (ok_counters _ _ ready_store0) as Hc. rewrite Forall_forall in Hc. by apply Hc. }
  destruct (next_clock_above _ _ _ _ Hheads Hbase ready_clock0) as (Hc1 & Hc2 & _).
  assert (Hdev : meta_device (meta x) = opt_device options) by (cbn; by rewrite Hd).
  assert (Hfresh : forall q, q ∈ stored_heads (remote_root options) f -> revision_id q <> meta_revision (meta x))
    by (intros q Hq; cbn; rewrite Hrev; by apply ready_fresh0).
  assert (Hok' : store_ok options pushed) by by apply (pushed_store_ok options) with (clock := clock).
  split_and!; [done | by apply pushed_holds | done |].
  destruct (heads_in_total _ _ Hok') as (H' & E & _). exists H'. split; [done |].
  assert (Hdom : forall q, q ∈ stored_heads (remote_root options) f -> dominates p q = true)
    by (intros q Hq; eapply next_clock_dominates; try done; by apply Hin).
  by apply (pushed_selected options) with (marker := marker) (head := head) (f := f) (clock := clock).
Qed.

(** C3: in a well-behaved environment synchronisation converges.  A push by a device
    that may push (forced, or up to date with the only branch) returns, uploads, and
    leaves a store that can be read, in which its pointer is selected, there is no
    concurrent branch, and its clock is above that of every head left there before.
    Then let another device pull, one that has not seen the push and that never
    synchronised or whose last synchronisation has a clock below that of the push.
    The pull returns and leaves the store as it is.  It finds both sides equal and
    keeps the data; or it downloads, and the data is exactly the pushed data, when
    it is forced, when the local data is that of the last synchronisation, or when
    it holds nothing of the user; and otherwise it keeps the local edits and reports
    a conflict, or that there is nothing newer when the pushed data holds nothing of
    the user. *)
Theorem sync_push_then_pull force content w :
  holds f built w -> content_hash_of local = Ok content -> push_allowed options state force f H content ->
  exists r w' h, interp (push_snapshot_with_remote store options remote state force) w [] = Some (r, w', h) /\
    uploaded_as p r /\ store_ok options (files w') /\
    (exists H', heads_in (remote_root options) (files w') = Ok H' /\ selected H' = Some p /\ concurrent H' = false) /\
    (forall q c, q ∈ stored_heads (remote_root options) f -> sync_clock q = Some c -> strictly_dominates clock c = true) /\
    forall device label state' force' wb local' other,
      files wb = files w' -> live wb -> pull_ready state' p (local_data wb) local' other ->
      exists r' wb' h', interp (pull_snapshot_with_remote store (on_device device label options) remote state' force') wb [] =
        Some (r', wb', h') /\ files wb' = files w' /\
        pull_answer state' force' p local' other content (has_user_content (local_data w)) r' /\
        if pull_replaces state' force' local' other content then entities (local_data wb') = entities (local_data w)
        else local_data wb' = local_data wb.
Proof.
  intros Hw Hcontent Ha. destruct ready_pushed as (Hok & Hx & He & H' & EH & Hsel & Hcon). destruct ready_above as [Hck Habove].
  destruct (does_interp _ _ _ [] (push_total options state force f built H local clock marker head content Hready Hcontent Ha w Hw))
    as (r & w' & h & E & Hr & Ef & El & _).
  exists r, w', h. rewrite Ef. split_and!; [done | done | done | by exists H' | done |].
  intros device label state' force' wb local' other Efb Hlive Hp. destruct Hw as (_ & -> & _).
  destruct (pull_ready_baseline _ _ clock _ _ _ Hp ltac:(done) Hck) as [Hb1 Hb2]. destruct Hp as [_ Hp2 Hp3 Hp4].
  pose proof (pull_total (on_device device label options) state' force' pushed (local_data wb) local' H' p x content other
    (ready_enabled _ _ _ _ _ _ _ _ _ Hready) (store_ok_device _ _ _ _ Hok) EH Hsel Hcon Hx Hp3 Hp4 Hcontent Hb1 Hb2 Hp2) as Hpull.
  destruct (does_interp _ _ _ [] (Hpull wb (conj Efb (conj eq_refl Hlive)))) as (r' & wb' & h' & E' & Hr' & Ef' & El' & _).
  exists r', wb', h'. rewrite <- (user_content_entities _ _ He). split_and!; [done | done | done |].
  destruct (pull_replaces _ _ _ _ _); [by rewrite El' | done].
Qed.
End converge.
End operations.

(** Device [a] pushes to the empty store and [b] pulls. *)
Module TwoDevices.
Import Sample.

#[local] Instance sample_codec_laws : SyncCodecLaws.
Proof.
  split.
  - intros s pw Hs _. unfold snapshot_decode, snapshot_encode, codec. rewrite agree_str, beq_refl. unfold whole.
    by rewrite <- (app_nil_r (put_snapshot s)), agree_snapshot.
  - intros p. apply (whole_agree put_pointer), agree_pointer.
Qed.

Definition value {A} (d : A) (r : res A) : A := match r with Ok a => a | Err _ => d end.
Definition nothing : RemoteHeads := Heads None None false [].
Definition clock_a : SnapshotSyncClock := value default_clock (next_clock nothing None (bs "a")).
Definition hashed : RawPortableSnapshot := value (local_data world_a) (rehash (local_data world_a)).
Definition upload_a : RawPortableSnapshot := new_snapshot (options (bs "a")) clock_a hashed.

Lemma push_a_ready : push_ready (options (bs "a")) (fresh (bs "a")) ∅ (local_data world_a) nothing hashed clock_a
  (put_head (staging_head (options (bs "a")) (pointer_from_snapshot upload_a)))
  (put_head (committed_head (pointer_from_snapshot upload_a))).
Proof.
  assert (Hnone : stored_heads (bs "zz") ∅ = []) by (vm_compute; reflexivity).
  split; [reflexivity | apply store_ok_empty | vm_compute; reflexivity | vm_compute; reflexivity | reflexivity | reflexivity | |
          vm_compute; reflexivity | discriminate | vm_compute; reflexivity | reflexivity | vm_compute; discriminate | reflexivity |
          vm_compute; discriminate | split; vm_compute; discriminate].
  intros q Hq. change (remote_root (options (bs "a"))) with (bs "zz") in Hq. rewrite Hnone in Hq. by apply elem_of_nil in Hq.
Qed.

(** Device [b] once synchronised, when nothing had been counted yet. *)
Definition joined : CloudSyncState :=
  State (bs "b") None None (Some default_clock) (Some (bs "r0")) None None None None None.

Lemma push_then_pull_witness :
  exists r w' h r' wb' h',
    interp (push_snapshot_with_remote raw_store (options (bs "a")) (raw_remote (bs "webdav")) (fresh (bs "a")) false) world_a [] =
      Some (r, w', h) /\
    interp (pull_snapshot_with_remote raw_store (on_device (bs "b") None (options (bs "a"))) (raw_remote (bs "webdav"))
              joined false) (world_b (files w')) [] = Some (r', wb', h') /\
    files wb' = files w' /\ entities (local_data wb') = entities (local_data world_a).
Proof.
  destruct (sync_push_then_pull (bs "webdav") _ _ _ _ _ _ _ _ _ push_a_ready false (value [] (content_hash_of hashed)) world_a)
    as (r & w' & h & E & _ & _ & _ & _ & Hpull).
  - repeat split. discriminate.
  - vm_compute. reflexivity.
  - right. split; [reflexivity |]. intros latest Hl. discriminate Hl.
  - destruct (Hpull (bs "b") None joined false (world_b (files w'))
      (value (local_data world_a) (rehash (local_data (world_b ∅)))) (value [] (content_hash_of (local_data (world_b ∅))))
      eq_refl ltac:(discriminate)) as (r' & wb' & h' & E' & Ef & _ & He).
    + split; [| discriminate | vm_compute; reflexivity | vm_compute; reflexivity].
      intros c [= <-]. split; [apply default_clock_ok |]. exists clock_a. split; [reflexivity | vm_compute; reflexivity].
    + exists r, w', h, r', wb', h'. split; [exact E |]. split; [exact E' |]. split; [exact Ef |].
      replace (pull_replaces _ _ _ _ _) with true in He by (vm_compute; reflexivity). exact He.
Defined.
End TwoDevices.
