(* ===== verification/SyncSpec.v ===== *)
(** What every synchronisation operation guarantees, whatever the remote store,
    the other devices, the local store and the user do meanwhile.  The statements
    quantify over all runs of the operations against arbitrary answers. *)
From stdpp Require Import base list numbers strings gmap sorting.
From Stdlib Require Import ZArith Lia.
From S2P Require Import Prelude Text SyncTypes SyncEffects SyncLogic SyncHeads SyncHeadsSpec SyncProtocol SyncReadSpec.
From S2P Require Import SyncUpload SyncSafety CloudSync CloudSafety CloudConflict CloudConflictSafety SyncWorld.

(** ** The control cell

    The cell of an operation starts as [PREPARING].  The operation's events read and
    change it; the thread that may cancel does so at any time. *)

Definition cell_step (c : control_state) (e : event) (c' : control_state) : Prop :=
  match e with
  | EvLoad v => v = c /\ c' = c
  | EvCas new v => (c', v) = compare_exchange new c
  | _ => c' = c
  end.

Inductive cell_after : history -> control_state -> Prop :=
| cell_start : cell_after [] PREPARING
| cell_cancel h c : cell_after h c -> cell_after h (fst (request_cancel c))
| cell_event h c e c' : cell_after h c -> cell_step c e c' -> cell_after (e :: h) c'.

(** Once the commit has begun it is not cancelled any more. *)
Lemma commit_is_final h c : cell_after h c -> happened [commit_event] h -> c = COMMITTING.
Proof.
  induction 1 as [| h c Hc IH | h c e c' Hc IH Hstep]; intros (e0 & h0 & Hs & He & _).
  - by apply suffix_nil_inv in Hs.
  - rewrite IH; [done |]. by exists e0, h0.
  - apply suffix_cons_inv in Hs as [[= -> ->] | Hs].
    + destruct He as (v & -> & Hv). cbn [cell_step] in Hstep. by destruct c; injection Hstep as -> ->.
    + assert (c = COMMITTING) as -> by (apply IH; by exists e0, h0).
      destruct e; cbn [cell_step] in Hstep; try done; [by destruct Hstep |]. by injection Hstep.
Qed.

(** ** The operations *)

Inductive operation :=
| PushOp (state : CloudSyncState) (force : bool)
| PullOp (state : CloudSyncState) (force : bool)
| CheckPushOp (state : CloudSyncState) (allow_auto_pull : bool) (cache : CloudSyncCheckCache)
| CheckPullOp (state : CloudSyncState) (allow_auto_pull : bool) (cache : CloudSyncCheckCache)
| RecoverOp
| ResolveOp (state : CloudSyncState) (request : CloudResolutionRequest)
| CleanupOp (latest : option RemoteSyncPointer)
| LegacyOp.

Section operations.
Context `{L : SyncLib} (options : LocalCloudSyncOptions) (name : str).
Abbreviation root := (remote_root options).
Abbreviation remote := (raw_remote name).
Abbreviation store := raw_store.

Definition run_operation (o : operation) : prog unit :=
  match o with
  | PushOp state force => let~ _ := push_snapshot_with_remote store options remote state force in Ret tt
  | PullOp state force => let~ _ := pull_snapshot_with_remote store options remote state force in Ret tt
  | CheckPushOp state auto cache =>
      let~ (r, _) := check_snapshot_with_remote_cached store options remote state auto cache in
      match r with Ok c => let~ _ := check_push c store options remote in Ret tt | Err _ => Ret tt end
  | CheckPullOp state auto cache =>
      let~ (r, _) := check_snapshot_with_remote_cached store options remote state auto cache in
      match r with Ok c => let~ _ := check_pull c store options remote in Ret tt | Err _ => Ret tt end
  | RecoverOp => let~ _ := recover_current_snapshot store options remote in Ret tt
  | ResolveOp state request => let~ _ := resolve_with_remote store options remote state request in Ret tt
  | CleanupOp latest => let~ _ := cleanup_sync_snapshots store options remote latest in Ret tt
  | LegacyOp => let~ _ := read_legacy_sync_branches store remote options in Ret tt
  end.

(** What holds of the pointer that an operation publishes.  A check may have moved
    the baseline to the head it found this device up to date with; a pull publishes
    only to join branches, which takes force... *)
Definition publish_rule (o : operation) (pre : history) (pointer : RemoteSyncPointer) : Prop :=
  match o with
  | PushOp state force => push_rule options state force pre pointer
  | CheckPushOp state _ _ => exists H state', checked_state state H state' /\ push_from options state' false H pre pointer
  | PullOp state force => force = true /\ commit_rule options (last_synced_clock state) pre pointer
  | ResolveOp state _ => commit_rule options (last_synced_clock state) pre pointer
  | RecoverOp => commit_rule options None pre pointer
  | CheckPullOp _ _ _ | CleanupOp _ | LegacyOp => False
  end.

(** ... and of the snapshot that it applies locally.  A pull after a check is never
    forced, and the state is the one that the check was given. *)
Definition apply_rule (o : operation) (pre : history) (s : RawPortableSnapshot) (hash : str) : Prop :=
  match o with
  | PullOp state force => pull_rule options state force pre s hash
  | CheckPullOp state _ _ => pull_rule options state false pre s hash
  | ResolveOp state _ => pull_rule options state true pre s hash
  | RecoverOp => recover_rule options pre s hash
  | _ => False
  end.

Definition confirm_rule (o : operation) : str -> history -> Prop :=
  match o with ResolveOp _ request => confirmed options request | _ => fun _ _ => True end.

(** The head that the caller of a collection supplies. *)
Definition supplied (o : operation) (p : RemoteSyncPointer) : Prop :=
  match o with CleanupOp latest => latest = Some p | _ => False end.

Abbreviation op_guard o := (guard options (supplied o) (confirm_rule o) (publish_rule o) (apply_rule o)).

#[local] Instance op_remote o : (forall p h, confirm_rule o p h) -> RemoteSpec (op_guard o) (confirm_rule o) remote.
Proof.
  intros Hc. assert (HR : RemoteSpec (op_guard o) (fun _ _ => True) remote) by (apply raw_remote_spec, guard_quiet).
  destruct HR as [H1 H2 H3 H4 H5 H6]. split; [done.. | | done]. intros p b h Q HG HQ. apply (H5 p b h Q); [| done].
  intros h' r Hq _. by apply HG.
Qed.
#[local] Instance op_store o : StoreSpec (op_guard o) (fun _ => True) store.
Proof. apply raw_store_spec, guard_quiet. Qed.

Lemma legacy_safe : harmless_from (op_guard LegacyOp) (read_legacy_sync_branches store remote options) [].
Proof.
  assert (HR : RemoteSpec (op_guard LegacyOp) (confirm_rule LegacyOp) remote) by by apply op_remote.
  unfold read_legacy_sync_branches. eapply rd_wp; [eapply read_spec; apply _ | done |]. intros h1 H Hq1 [Hread HC].
  apply (wp_for_each_in _ (fun _ _ => True)); [| done | done].
  intros p h2 ss Hs2 Hp _. apply wp_let.
  eapply (resolve_spec _ _ _ _ _ remote HR _ store (op_store LegacyOp)); [| done | by intros h3 [s | s | ? ? ?] _ _].
  eapply head_commits; [by apply (heads_read_mono _ [] [] h1 h2) |].
  destruct (maximal H) as [| q ms] eqn:Em.
  - destruct (selected H) as [q |] eqn:Es; cbn in Hp; [| by destruct (not_elem_of_nil _ Hp)].
    apply list_elem_of_singleton in Hp as ->. by apply choice_in.
  - rewrite <- Em in Hp. by apply elem_of_maximal in Hp as [? _].
Qed.

Lemma quiet_end o {A} (m : prog A) : harmless_from (op_guard o) m [] -> harmless_from (op_guard o) (let~ _ := m in Ret tt) [].
Proof. intros Hm. apply wp_pbind. eapply wp_mono; [| exact Hm]. done. Qed.

(** The check and what follows it. *)
Lemma check_then_safe o state auto cache (m : CloudSyncCheck -> M CloudSyncResult) :
  (forall p h, confirm_rule o p h) ->
  (forall c h, prepared_ok options h (check_prepared c) -> heads_choice (prepared_heads (check_prepared c)) ->
     checked_state state (prepared_heads (check_prepared c)) (check_state c) ->
     harmless_from (op_guard o) (m c) h) ->
  harmless_from (op_guard o)
    (let~ (r, _) := check_snapshot_with_remote_cached store options remote state auto cache in
     match r with Ok c => let~ _ := m c in Ret tt | Err _ => Ret tt end) [].
Proof.
  intros Hc Hm. pose proof (op_remote o Hc) as HR. apply wp_pbind. unfold check_snapshot_with_remote_cached.
  apply wp_pbind. eapply wp_mono; [| eapply check_inner_spec; [exact HR | apply op_store]].
  intros h1 [r cache1] _ Hr. eapply wp_mono; [| eapply details_spec; [exact HR | apply op_store]].
  intros h2 [r2 cache2] Hs2 Hd. destruct r2 as [c |]; [| done]. specialize (Hd c eq_refl). subst r.
  destruct (Hr c eq_refl) as (Hp & HC & Hst). apply wp_pbind. eapply wp_mono; [| apply (Hm c h2)]; [done | | done | done].
  by apply (prepared_ok_mono _ h1).
Qed.

Lemma resolve_safe st request :
  harmless_from (op_guard (ResolveOp st request)) (resolve_with_remote store options remote st request) [].
Proof.
  set (g := op_guard (ResolveOp st request)).
  assert (HR : RemoteSpec g (fun _ _ => True) (controlled_remote remote))
    by (apply controlled_remote_spec, raw_remote_spec; apply guard_quiet).
  assert (HS : StoreSpec g (happened [commit_event]) (controlled_store store))
    by (eapply controlled_store_spec; [apply guard_quiet | apply op_store]).
  apply wp_let. eapply wp_sp; [apply checkpoint_harmless |]. intros h1 [u | e] _ _; cbn [on_ok]; [| done].
  eapply with_details_harmless; [exact HR | exact HS |].
  eapply resolve_guarded_spec; [exact HR | exact HS | | done | done].
  intros h' pointer (H & Hn & _). by exists H.
Qed.

Lemma operation_safe o : harmless_from (op_guard o) (run_operation o) [].
Proof.
  destruct o as [st f | st f | st auto cache | st auto cache | | st request | latest |]; cbn [run_operation].
  - apply quiet_end. eapply with_details_harmless.
    + apply controlled_remote_spec; [apply guard_quiet | by apply (op_remote (PushOp st f))].
    + eapply controlled_store_spec; [apply guard_quiet | apply op_store].
    + eapply push_prepared_spec; [by apply (op_remote (PushOp st f)) | apply op_store | done |].
      intros h' H pointer Hr _. by exists H.
  - apply quiet_end. eapply with_details_harmless.
    + apply controlled_remote_spec; [apply guard_quiet | by apply (op_remote (PullOp st f))].
    + eapply controlled_store_spec; [apply guard_quiet | apply op_store].
    + eapply pull_prepared_spec; [by apply (op_remote (PullOp st f)) | apply op_store | done | done |].
      intros h' H s hash Hr _. by exists H.
  - apply check_then_safe; [done |]. intros c h Hp HC Hst. eapply with_details_harmless.
    + apply controlled_remote_spec; [apply guard_quiet | by apply (op_remote (CheckPushOp st auto cache))].
    + eapply controlled_store_spec; [apply guard_quiet | apply op_store].
    + eapply push_prepared_spec; [by apply (op_remote (CheckPushOp st auto cache)) | apply op_store | by intros p [= <-] |].
      intros h' H pointer Hr Eh. exists H, (check_state c). by rewrite (Eh _ eq_refl) in Hr |- *.
  - apply check_then_safe; [done |]. intros c h Hp HC Hst. eapply with_details_harmless.
    + apply controlled_remote_spec; [apply guard_quiet | by apply (op_remote (CheckPullOp st auto cache))].
    + eapply controlled_store_spec; [apply guard_quiet | apply op_store].
    + eapply pull_prepared_spec; [by apply (op_remote (CheckPullOp st auto cache)) | apply op_store | by intros p [= <-] | done |].
      intros h' H s hash Hr Eh. exists H. eapply checked_pull; [| exact Hr]. by rewrite (Eh _ eq_refl).
  - apply quiet_end. by eapply recover_spec; [apply (op_remote RecoverOp) | apply op_store | |].
  - apply quiet_end, resolve_safe.
  - apply quiet_end. by eapply cleanup_safe; [apply (op_remote (CleanupOp latest)) | apply op_store |].
  - apply quiet_end, legacy_safe.
Qed.

(** ** What holds of every run *)

Lemma run_guarded o h' later e pre :
  runs (run_operation o) [] h' tt -> h' = later ++ e :: pre -> op_guard o pre e.
Proof.
  intros Hr E. destruct (wp_adequate _ _ _ _ _ _ (operation_safe o) Hr) as (_ & _ & H).
  apply (H later); [done | apply suffix_nil].
Qed.

(** C2: whatever the remote store answers, an operation writes a device's head only
    as the last step of a complete upload.  The revision was registered under the
    device and the registration read back; then the encoded snapshot was written,
    read back byte for byte and decoded, and the decoded snapshot agrees with the
    pointer; then the commit began, after which it cannot be cancelled; and the
    rule of the operation for publishing (see [publish_rule]) holds. *)
Theorem sync_publishes_only_verified o h' later path bytes r pre :
  runs (run_operation o) [] h' tt -> h' = later ++ EvWrite path bytes r :: pre -> is_head_path root path ->
  publishable options (publish_rule o) pre path bytes.
Proof. intros Hr E Hp. by destruct (run_guarded _ _ _ _ _ Hr E Hp). Qed.

(** C13: an operation deletes a file only when nothing is lost.  The file is the
    registration of an upload whose head was written and read back; or it is a
    snapshot that was read and decoded in this operation, that is a strict ancestor
    of a commit whose snapshot was authenticated in this operation or that carries no
    clock at all (a snapshot of an older version, whose ancestry cannot be told and
    is not asked for), and that no head and no pointer refer to: all of them were
    read again after the operation's last change. *)
Theorem sync_deletes_only_superseded o h' later path r pre :
  runs (run_operation o) [] h' tt -> h' = later ++ EvDelete path r :: pre ->
  marker_obsolete options pre path \/ collectable options (supplied o) pre path.
Proof. intros Hr E. exact (run_guarded _ _ _ _ _ Hr E). Qed.

(** C12: local data is replaced only through the checked application, which replaces
    exactly the data with the given hash; this data was built in the operation, and
    the commit has begun before.  A pull, also one that follows a check and the one
    of a resolution, applies the entities of a snapshot that was validated against
    a head that was read.  Without force, which a pull after a check never has, the
    replaced data has the hash of the last synchronisation that the caller knew or
    holds nothing of the user; and the head is the only branch, neither behind nor
    beside that synchronisation, and was not applied before.  Recovery, which the
    user asks for when the heads are damaged, applies the entities of the current
    file, which was read and decoded but is compared with no head. *)
Theorem sync_apply_keeps_local_edits o h' later e pre :
  runs (run_operation o) [] h' tt -> h' = later ++ e :: pre ->
  match e with
  | EvApply _ _ => False
  | EvApplyChecked s hash _ _ => happened [commit_event] pre /\ apply_rule o pre s hash
  | EvPersist _ _ => happened [commit_event] pre
  | _ => True
  end.
Proof. intros Hr E. pose proof (run_guarded _ _ _ _ _ Hr E) as HG. by destruct e. Qed.

(** C20: a push publishes a pointer that supersedes every head it read, the
    compatibility pointer included: of all of them it is the only maximal one.
    Without force there was one branch, it was neither behind nor beside the state
    of the last synchronisation, and it had been applied on this device or holds
    nothing of the user, so that a push never replaces data that this device has
    not seen. *)
Theorem sync_push_supersedes state force h' later path bytes r pre :
  runs (run_operation (PushOp state force)) [] h' tt ->
  h' = later ++ EvWrite path bytes r :: pre -> is_head_path root path ->
  (forall c, last_synced_clock state = Some c -> clock_ok c) ->
  exists pointer H,
    path = device_head_path root (device_id pointer) /\ head_to_vec (committed_head pointer) = Ok bytes /\
    heads_read root [] pre H /\ (force = false -> unforced options state pre H) /\
    (Forall pointer_ok (heads H) -> maximal_of (pointer :: heads H) = [pointer]).
Proof.
  intros Hr E Hp Hc. destruct (run_guarded _ _ _ _ _ Hr E Hp) as [(s & b & pb & -> & Hb & _ & _ & Hrule) _].
  destruct Hrule as (H & [Hread (clock & Hn & Hs)] & Hu). exists (pointer_from_snapshot s), H.
  split_and!; [done | done | done | done |]. intros Hok. destruct Hread as [Hshape _].
  assert (Hbase : match last_synced_clock state with Some c => clock_ok c | None => True end)
    by (destruct (last_synced_clock state); auto).
  apply maximal_dominated; [| by eexists | done | by eapply next_clock_dominates].
  unfold pointer_ok. rewrite Hs. by destruct (next_clock_above _ _ _ _ Hok Hbase Hn).
Qed.

(** C23: the resolution of a conflict writes this device's head only when, after its
    last change, the heads were read again and are those that the user saw, the
    local data was built again and has the hash that the user saw, and the selected
    branch was read and authenticated again. *)
Theorem sync_resolution_confirmed state request h' later bytes r pre :
  runs (run_operation (ResolveOp state request)) [] h' tt ->
  h' = later ++ EvWrite (device_head_path root (opt_device options)) bytes r :: pre ->
  exists h, quiet_since h pre /\ confirmed_since options request h pre.
Proof.
  intros Hr E. destruct (run_guarded _ _ _ _ _ Hr E) as [_ Hc]; [by eexists |]. by apply Hc.
Qed.

(** C24: cancelling works until the commit begins and only until then.  If at the end
    of a run the cell is cancelled, whenever that happened, the operation published
    no head, applied nothing locally and did not touch the state of the last
    synchronisation. *)
Theorem sync_cancel_is_effective o h' :
  runs (run_operation o) [] h' tt -> cell_after h' CANCELLED ->
  Forall (fun e => match e with
                   | EvWrite path _ _ => ~ is_head_path root path
                   | EvApply _ _ | EvApplyChecked _ _ _ _ | EvPersist _ _ => False
                   | _ => True
                   end) h'.
Proof.
  intros Hr Hc. apply Forall_forall. intros e Hin. apply list_elem_of_split in Hin as (later & pre & E).
  assert (Hno : ~ happened [commit_event] pre).
  { intros Hh. enough (CANCELLED = COMMITTING) by done. apply (commit_is_final h'); [done |].
    rewrite E. apply (happened_mono _ pre); [| done]. exists (later ++ [e]). by rewrite <- app_assoc. }
  pose proof (run_guarded _ _ _ _ _ Hr E) as HG. destruct e; try done; cbn [guard] in HG.
  - intros Hp. destruct (HG Hp) as [(s & b & pb & _ & _ & _ & Hh & _) _]. apply Hno.
    destruct Hh as (e0 & h0 & ? & ? & _). by exists e0, h0.
  - by destruct HG.
Qed.

(** No operation panics, whatever the remote store and the local store answer. *)
Theorem sync_never_panics o : ~ may_panic (run_operation o).
Proof. exact (wp_no_panic _ _ _ _ (operation_safe o)). Qed.
End operations.

(** ** What a collection keeps *)
Section collection.

Abbreviation newer := (fun a b : SnapshotGcEntry => gc_created a <=? gc_created b).
Abbreviation ordered := (StronglySorted (fun a b : SnapshotGcEntry => gc_created a <= gc_created b)).

Lemma sort_insert_perm x l : sort_insert newer x l ≡ₚ x :: l.
Proof.
  induction l as [| y l IH]; cbn [sort_insert]; [done |]. destruct (newer x y); [done |]. rewrite IH. apply perm_swap.
Qed.

Lemma stable_sort_perm l : stable_sort newer l ≡ₚ l.
Proof. induction l as [| x l IH]; cbn [stable_sort]; [done |]. by rewrite sort_insert_perm, IH. Qed.

Lemma sort_insert_ordered x l : ordered l -> ordered (sort_insert newer x l).
Proof.
  induction 1 as [| y l Hl IH Hy]; cbn [sort_insert]; [by repeat constructor |].
  destruct (Z.leb_spec (gc_created x) (gc_created y)) as [Hle | Hlt].
  - constructor; [by constructor |]. constructor; [done |]. eapply Forall_impl; [exact Hy |]. intros z Hz. cbn in Hz. lia.
  - constructor; [done |]. rewrite sort_insert_perm. constructor; [lia | done].
Qed.

Lemma stable_sort_ordered l : ordered (stable_sort newer l).
Proof. induction l as [| x l IH]; cbn [stable_sort]; [constructor | by apply sort_insert_ordered]. Qed.

(** The last entries of an ordered list are the newest. *)
Lemma ordered_last n l x y : ordered l -> x ∈ take n (rev l) -> y ∈ drop n (rev l) -> gc_created y <= gc_created x.
Proof.
  intros Ho Hx Hy. pose proof (take_drop n (rev l)) as E. apply (f_equal (@rev _)) in E.
  rewrite rev_involutive, rev_app_distr in E. rewrite <- E in Ho.
  apply list_elem_of_In, in_rev, list_elem_of_In in Hx. apply list_elem_of_In, in_rev, list_elem_of_In in Hy.
  by apply (StronglySorted_app_1_elem_of _ _ _ y x Ho).
Qed.

Lemma list_filter_all {A} (P : A -> Prop) `{!forall x, Decision (P x)} (l : list A) : (forall x, x ∈ l -> P x) -> filter P l = l.
Proof.
  induction l as [| x l IH]; [done |]. intros Hl. rewrite filter_cons_True by (apply Hl; left). f_equal.
  apply IH. intros y Hy. apply Hl. by right.
Qed.

(** A collection plans to delete only snapshots that it may delete, that are not
    the latest revision, that are older than the grace period, and for which as
    many other revisions as it keeps are at least as new. *)
Theorem snapshot_gc_keeps_recent entries latest now keep grace path :
  0 <= grace -> path ∈ plan_snapshot_gc entries latest now keep grace ->
  exists e, e ∈ entries /\ gc_path e = path /\ deletable e = true /\ latest <> Some (gc_revision e) /\
    grace < now - gc_created e /\
    (keep <= length (filter (fun x => gc_revision x <> gc_revision e /\ (gc_created e <= gc_created x)%Z) entries))%nat.
Proof.
  intros Hg Hin. unfold plan_snapshot_gc in Hin. set (l := stable_sort _ entries) in *.
  apply list_elem_of_In, in_map_iff in Hin as (e & <- & H). apply filter_In in H as [Hi Hf].
  rewrite !andb_true_iff, negb_true_iff, bool_decide_eq_false, Z.ltb_lt in Hf. destruct Hf as [[Hd Hn] Hgr].
  rewrite elem_of_list_to_set, elem_of_app in Hn. apply list_elem_of_In in Hi.
  assert (Hnew : forall x, x ∈ take keep (rev l) -> gc_revision x <> gc_revision e).
  { intros x Hx E. apply Hn. right. rewrite <- E. by apply list_elem_of_fmap_2. }
  assert (Hdrop : e ∈ drop keep (rev l)).
  { assert (He : e ∈ rev l) by by apply list_elem_of_In, in_rev; rewrite rev_involutive; apply list_elem_of_In.
    rewrite <- (take_drop keep (rev l)), elem_of_app in He. destruct He as [He | He]; [| done]. by destruct (Hnew e He). }
  exists e. split_and!; [by apply sort_elem in Hi | done | done | | unfold saturating_sub in Hgr; lia |].
  - intros ->. apply Hn. left. by left.
  - rewrite <- (stable_sort_perm entries). fold l. rewrite (Permutation_rev l), <- (take_drop keep (rev l)), filter_app, length_app.
    assert (length (take keep (rev l)) = keep) as Hlen.
    { apply length_take_le. destruct (le_dec keep (length (rev l))); [done |]. rewrite drop_ge in Hdrop by lia.
      by apply not_elem_of_nil in Hdrop. }
    rewrite (list_filter_all _ (take keep (rev l))); [lia |]. intros x Hx. split; [by apply Hnew |].
    by apply (ordered_last keep l); [apply stable_sort_ordered | |].
Qed.

Lemma snapshot_gc_keeps_recent_witness :
  exists e, e ∈ [GcEntry (bs "old") (bs "1") 10 true; GcEntry (bs "new") (bs "2") 20 true] /\ gc_path e = bs "old" /\
    deletable e = true /\ Some (bs "2") <> Some (gc_revision e) /\ 5 < 100 - gc_created e /\
    (1 <= length (filter (fun x => gc_revision x <> gc_revision e /\ (gc_created e <= gc_created x)%Z)
       [GcEntry (bs "old") (bs "1") 10 true; GcEntry (bs "new") (bs "2") 20 true]))%nat.
Proof.
  apply (snapshot_gc_keeps_recent [GcEntry (bs "old") (bs "1") 10 true; GcEntry (bs "new") (bs "2") 20 true]
    (Some (bs "2")) 100 1 5 (bs "old")); [lia |]. vm_compute. left.
Defined.
End collection.

(** ** Runs *)
Module Runs.
Import Sample.

(** The last world and the history of an operation in an environment. *)
Definition executed (device : str) (o : operation) (w : world) : world * history :=
  match interp (run_operation (options device) (bs "webdav") o) w [] with
  | Some (_, w', h) => (w', h)
  | None => (w, [])
  end.

Definition occurs (f : event -> bool) (h : history) : bool := match latest_event f h with Some _ => true | None => false end.

Lemma executed_runs device o w f : occurs f (snd (executed device o w)) = true ->
  runs (run_operation (options device) (bs "webdav") o) [] (snd (executed device o w)) tt.
Proof.
  unfold executed. destruct (interp _ w []) as [[[[] w'] h] |] eqn:E; [| done]. intros _. by apply interp_runs in E.
Qed.

(** Device [a] pushes to an empty store; then [b] pulls. *)
Definition push_a : world * history := executed (bs "a") (PushOp (fresh (bs "a")) false) world_a.
Definition pull_b : world * history := executed (bs "b") (PullOp (fresh (bs "b")) false) (world_b (files (fst push_a))).
(** Device [b] pushed at the same time, and resolves the conflict by keeping its data. *)
Definition push_b : world * history := executed (bs "b") (PushOp (fresh (bs "b")) false) (world_b ∅).
Definition keep_local : CloudResolutionRequest :=
  ResolutionRequest [bs "r1"; bs "r2"] None
    (match content_hash_of (local_data (fst push_b)) with Ok h => h | Err _ => [] end).
Definition world_conflict : world :=
  World (files (fst push_a) ∪ files (fst push_b))
    (Snapshot (with_identity (bs "r3") (bs "b") 6000 (meta (local_data (fst push_b)))) (entities (local_data (fst push_b))) None)
    (baseline (fst push_b)) 7000 200 PREPARING.
Definition resolve_b : world * history := executed (bs "b")
  (ResolveOp (default (fresh (bs "b")) (baseline (fst push_b))) keep_local) world_conflict.
(** Device [a] is cancelled at once. *)
Definition cancelled_a : world * history := executed (bs "a") (PushOp (fresh (bs "a")) false)
  (World ∅ (local_data world_a) None 1000 1 CANCELLED).

Definition writes_head (device : str) (e : event) : bool :=
  match e with EvWrite path _ _ => beq path (device_head_path (bs "zz") device) | _ => false end.
Definition deletes (e : event) : bool := match e with EvDelete _ _ => true | _ => false end.
Definition applies (e : event) : bool := match e with EvApplyChecked _ _ _ _ => true | _ => false end.


Lemma latest_head_write device h : occurs (writes_head device) h = true ->
  exists later bytes r pre, h = later ++ EvWrite (device_head_path (bs "zz") device) bytes r :: pre.
Proof.
  unfold occurs. destruct (latest_event _ _) as [[[later e] pre] |] eqn:E; [| done]. intros _.
  apply latest_event_split in E as [-> He]. destruct e; try done. apply beq_true in He as ->. eauto.
Qed.
Lemma latest_delete h : occurs deletes h = true -> exists later path r pre, h = later ++ EvDelete path r :: pre.
Proof.
  unfold occurs. destruct (latest_event _ _) as [[[later e] pre] |] eqn:E; [| done]. intros _.
  apply latest_event_split in E as [-> He]. destruct e; try done. eauto.
Qed.
Lemma latest_apply h : occurs applies h = true ->
  exists later s hash st r pre, h = later ++ EvApplyChecked s hash st r :: pre.
Proof.
  unfold occurs. destruct (latest_event _ _) as [[[later e] pre] |] eqn:E; [| done]. intros _.
  apply latest_event_split in E as [-> He]. destruct e; try done. eauto 10.
Qed.

Lemma push_a_writes : occurs (writes_head (bs "a")) (snd push_a) = true.
Proof. vm_compute. reflexivity. Qed.
Lemma push_a_deletes : occurs deletes (snd push_a) = true.
Proof. vm_compute. reflexivity. Qed.
Lemma pull_b_applies : occurs applies (snd pull_b) = true.
Proof. vm_compute. reflexivity. Qed.
Lemma resolve_b_writes : occurs (writes_head (bs "b")) (snd resolve_b) = true.
Proof. vm_compute. reflexivity. Qed.

Lemma publishes_only_verified_witness :
  exists later path bytes r pre, snd push_a = later ++ EvWrite path bytes r :: pre /\
    publishable (options (bs "a")) (publish_rule (options (bs "a")) (PushOp (fresh (bs "a")) false)) pre path bytes.
Proof.
  destruct (latest_head_write (bs "a") (snd push_a) push_a_writes) as (later & bytes & r & pre & E).
  exists later, (device_head_path (bs "zz") (bs "a")), bytes, r, pre. split; [exact E |].
  exact (sync_publishes_only_verified (options (bs "a")) (bs "webdav") (PushOp (fresh (bs "a")) false) (snd push_a) later _ bytes r pre
    (executed_runs (bs "a") _ _ _ push_a_writes) E (ex_intro _ (bs "a") eq_refl)).
Defined.

Lemma deletes_only_superseded_witness :
  exists later path r pre, snd push_a = later ++ EvDelete path r :: pre /\
    (marker_obsolete (options (bs "a")) pre path \/
     collectable (options (bs "a")) (supplied (PushOp (fresh (bs "a")) false)) pre path).
Proof.
  destruct (latest_delete (snd push_a) push_a_deletes) as (later & path & r & pre & E).
  exists later, path, r, pre. split; [exact E |].
  exact (sync_deletes_only_superseded (options (bs "a")) (bs "webdav") (PushOp (fresh (bs "a")) false) (snd push_a) later path r pre
    (executed_runs (bs "a") _ _ _ push_a_deletes) E).
Defined.

Lemma apply_keeps_local_edits_witness :
  exists later s hash st r pre, snd pull_b = later ++ EvApplyChecked s hash st r :: pre /\
    happened [commit_event] pre /\ pull_rule (options (bs "b")) (fresh (bs "b")) false pre s hash.
Proof.
  destruct (latest_apply (snd pull_b) pull_b_applies) as (later & s & hash & st & r & pre & E).
  exists later, s, hash, st, r, pre. split; [exact E |].
  exact (sync_apply_keeps_local_edits (options (bs "b")) (bs "webdav") (PullOp (fresh (bs "b")) false) (snd pull_b) later
    (EvApplyChecked s hash st r) pre (executed_runs (bs "b") _ _ _ pull_b_applies) E).
Defined.

Lemma push_supersedes_witness :
  exists later path bytes r pre, snd push_a = later ++ EvWrite path bytes r :: pre /\
    exists pointer H, path = device_head_path (bs "zz") (device_id pointer) /\
      head_to_vec (committed_head pointer) = Ok bytes /\ heads_read (bs "zz") [] pre H /\
      (false = false -> unforced (options (bs "a")) (fresh (bs "a")) pre H) /\
      (Forall pointer_ok (heads H) -> maximal_of (pointer :: heads H) = [pointer]).
Proof.
  destruct (latest_head_write (bs "a") (snd push_a) push_a_writes) as (later & bytes & r & pre & E).
  exists later, (device_head_path (bs "zz") (bs "a")), bytes, r, pre. split; [exact E |].
  refine (sync_push_supersedes (options (bs "a")) (bs "webdav") (fresh (bs "a")) false (snd push_a) later _ bytes r pre
    (executed_runs (bs "a") _ _ _ push_a_writes) E (ex_intro _ (bs "a") eq_refl) _).
  intros c Hc. discriminate Hc.
Defined.

Lemma resolution_confirmed_witness :
  exists later path bytes r pre, snd resolve_b = later ++ EvWrite path bytes r :: pre /\
    exists h, quiet_since h pre /\ confirmed_since (options (bs "b")) keep_local h pre.
Proof.
  destruct (latest_head_write (bs "b") (snd resolve_b) resolve_b_writes) as (later & bytes & r & pre & E).
  exists later, (device_head_path (bs "zz") (bs "b")), bytes, r, pre. split; [exact E |].
  exact (sync_resolution_confirmed (options (bs "b")) (bs "webdav") (default (fresh (bs "b")) (baseline (fst push_b))) keep_local
    (snd resolve_b) later bytes r pre (executed_runs (bs "b") _ _ _ resolve_b_writes) E).
Defined.

Lemma cancelled_a_cell : cell_after (snd cancelled_a) CANCELLED.
Proof.
  assert (snd cancelled_a = [EvLoad CANCELLED]) as -> by (vm_compute; reflexivity).
  by apply (cell_event _ CANCELLED); [apply (cell_cancel [] PREPARING), cell_start |].
Qed.
Lemma cancelled_a_stops : occurs (fun _ => true) (snd cancelled_a) = true.
Proof. vm_compute. reflexivity. Qed.

Lemma cancel_is_effective_witness :
  Forall (fun e => match e with
                   | EvWrite path _ _ => ~ is_head_path (bs "zz") path
                   | EvApply _ _ | EvApplyChecked _ _ _ _ | EvPersist _ _ => False
                   | _ => True
                   end) (snd cancelled_a).
Proof.
  exact (sync_cancel_is_effective (options (bs "a")) (bs "webdav") (PushOp (fresh (bs "a")) false) (snd cancelled_a)
    (executed_runs (bs "a") _ _ _ cancelled_a_stops) cancelled_a_cell).
Defined.
End Runs.
