(* ===== verification/AutoSync.v ===== *)
(** When synchronisation runs by itself: the coordinator of
    zzclawterm-desktop/src/app_shell/controller/auto_sync/coordinator.rs, with the
    triggers and results of features/sync/auto_sync.rs.  Instants and durations are
    nanoseconds; what the code reads from the clock is an argument.  The registry of
    running operations that the coordinator owns is not part of its state here. *)
From stdpp Require Import base list numbers strings gmap.
From Stdlib Require Import ZArith Lia.
From S2P Require Import Prelude Text SyncTypes CloudSync.

Inductive AutoSyncTrigger := Startup | Periodic | Focus | Settings | Change | DeferredPull | Retry.

#[global] Instance trigger_eq_dec : EqDecision AutoSyncTrigger.
Proof. solve_decision. Defined.

Definition history_name (t : AutoSyncTrigger) : str :=
  match t with
  | Startup => bs "auto_startup"
  | Periodic => bs "auto_periodic"
  | Focus => bs "auto_focus"
  | Settings => bs "auto_settings"
  | Change => bs "auto_change"
  | DeferredPull => bs "auto_deferred_pull"
  | Retry => bs "auto_retry"
  end.

Record SyncReport := Report {
  report_conflicts : Z;
  report_deferred : Z;
  verified : bool;
  publication_error : option str
}.

Inductive AutoSyncResult :=
| V4 (report : SyncReport)
| AutoDisabled
| Skipped
| Debouncing (remaining : Z)
| Busy
| AutoRemoteAvailable (retry_when_safe : bool) (revision : option str)
| AutoUpToDate (state : CloudSyncState)
| Synced (result : CloudSyncResult).

Definition SEC : Z := 1000000000.

(** ** Errors *)

Definition is_permanent (kind : CloudStorageErrorKind) : bool :=
  match kind with Tls | PermissionDenied | Unsupported | InvalidConfiguration => true | _ => false end.

Definition kind_classification (kind : CloudStorageErrorKind) : str :=
  match kind with
  | Dns => bs "dns"
  | Connect => bs "connect"
  | Tls => bs "tls"
  | Timeout => bs "timeout"
  | ConnectionReset => bs "connection_reset"
  | PermissionDenied => bs "permission_denied"
  | NotFound => bs "not_found"
  | StorageConflict => bs "conflict"
  | Unsupported => bs "unsupported"
  | InvalidConfiguration => bs "invalid_configuration"
  | Unexpected => bs "remote"
  end.

(** The arms of the source are tried in their order. *)
Definition http_classification (status : Z) (retry : option Z) : str :=
  if ((status =? 403) || (status =? 429)) && match retry with Some _ => true | None => false end then bs "rate_limited"
  else if status =? 401 then bs "authentication"
  else if status =? 403 then bs "permission_denied"
  else if status =? 404 then bs "not_found"
  else if (status =? 409) || (status =? 412) then bs "conflict"
  else if status =? 501 then bs "unsupported"
  else if status =? 429 then bs "rate_limited"
  else if (500 <=? status) && (status <=? 599) then bs "server"
  else bs "http".

Definition classification (error : CloudSyncError) : str :=
  match error with
  | Storage _ _ kind => kind_classification kind
  | Authentication _ _ _ => bs "authentication"
  | Http _ _ status retry => http_classification status retry
  | Conflict _ => bs "conflict"
  | CredentialsChanged => bs "credentials_changed"
  | CredentialPersistence => bs "credential_persistence"
  | Cancelled => bs "cancelled"
  | GistCapacity => bs "gist_capacity"
  | LocalChangedDuringSync => bs "local_changed"
  | StaleRemoteRevision => bs "stale_remote"
  | IoError _ => bs "io"
  | LocalStore _ => bs "store"
  | PortableSnapshot _ => bs "snapshot"
  | _ => bs "sync"
  end.

Definition retry_after (error : CloudSyncError) : option Z :=
  match error with Http _ _ _ (Some seconds) => Some (seconds * SEC) | _ => None end.

Definition PERMANENT_MARKERS : list str :=
  map bs ["401"; "403"; "unauthorized"; "forbidden"; "invalid token"; "missing token"; "access token is required";
          "endpoint is required"; "bucket is required"; "credential is required"]%string.

Definition permanent_auto_sync_error (error : CloudSyncError) : bool :=
  match error with
  | Storage _ _ kind => is_permanent kind
  | Authentication _ _ _ | CredentialPersistence | Disabled => true
  | Http _ _ status None => (status =? 401) || (status =? 403) || (status =? 501)
  | LocalStore message => beq message (bs "crypto") || beq message (bs "invalid_data")
  | PortableSnapshot MissingMasterPassword
  | PortableSnapshot (UnsupportedEncryptionVersion _)
  | PortableSnapshot InvalidEncryptionEnvelope
  | PortableSnapshot (UnsupportedVersion _)
  | PortableSnapshot (Decrypt _ _) => true
  | Remote message => existsb (fun marker => contains marker (to_ascii_lowercase message)) PERMANENT_MARKERS
  | _ => false
  end.

Definition auto_sync_backoff (failures : Z) : Z :=
  nth (Z.to_nat (Z.min failures 3)) [1; 5; 15; 60] 60 * 60 * SEC.

(** ** The coordinator *)

Record AutoSyncCoordinator := Coordinator {
  running : bool;
  pending : option AutoSyncTrigger;
  next_due : Z;
  next_periodic : Z;
  last_focus : option Z;
  last_remote_check : option Z;
  mutation_generation : Z;
  in_flight_generation : Z;
  change_since : option Z;
  remote_available : bool;
  failures : Z;
  paused : bool;
  retry_not_before : option Z;
  started_at : option Z;
  history_errors : gmap str Z;
  had_error : bool
}.

Record AutoSyncJob := Job { job_trigger : AutoSyncTrigger; change_elapsed : Z; pull_safe : bool }.

(** Assignments to fields. *)
Section fields.
Context (c : AutoSyncCoordinator).
Definition set_running (b : bool) := Coordinator b (pending c) (next_due c) (next_periodic c) (last_focus c) (last_remote_check c)
  (mutation_generation c) (in_flight_generation c) (change_since c) (remote_available c) (failures c) (paused c)
  (retry_not_before c) (started_at c) (history_errors c) (had_error c).
Definition set_pending (p : option AutoSyncTrigger) := Coordinator (running c) p (next_due c) (next_periodic c) (last_focus c)
  (last_remote_check c) (mutation_generation c) (in_flight_generation c) (change_since c) (remote_available c) (failures c)
  (paused c) (retry_not_before c) (started_at c) (history_errors c) (had_error c).
Definition schedule (p : option AutoSyncTrigger) (due : Z) := Coordinator (running c) p due (next_periodic c) (last_focus c)
  (last_remote_check c) (mutation_generation c) (in_flight_generation c) (change_since c) (remote_available c) (failures c)
  (paused c) (retry_not_before c) (started_at c) (history_errors c) (had_error c).
Definition set_check (at_ periodic : Z) := Coordinator (running c) (pending c) (next_due c) periodic (last_focus c)
  (Some at_) (mutation_generation c) (in_flight_generation c) (change_since c) (remote_available c) (failures c) (paused c)
  (retry_not_before c) (started_at c) (history_errors c) (had_error c).
Definition set_focus (t : Z) := Coordinator (running c) (pending c) (next_due c) (next_periodic c) (Some t)
  (last_remote_check c) (mutation_generation c) (in_flight_generation c) (change_since c) (remote_available c) (failures c)
  (paused c) (retry_not_before c) (started_at c) (history_errors c) (had_error c).
Definition set_mutation (g : Z) (since : Z) := Coordinator (running c) (pending c) (next_due c) (next_periodic c) (last_focus c)
  (last_remote_check c) g (in_flight_generation c) (Some since) (remote_available c) (failures c) (paused c)
  (retry_not_before c) (started_at c) (history_errors c) (had_error c).
Definition clear_change := Coordinator (running c) (pending c) (next_due c) (next_periodic c) (last_focus c)
  (last_remote_check c) (mutation_generation c) (in_flight_generation c) None (remote_available c) (failures c) (paused c)
  (retry_not_before c) (started_at c) (history_errors c) (had_error c).
Definition set_available (b : bool) := Coordinator (running c) (pending c) (next_due c) (next_periodic c) (last_focus c)
  (last_remote_check c) (mutation_generation c) (in_flight_generation c) (change_since c) b (failures c) (paused c)
  (retry_not_before c) (started_at c) (history_errors c) (had_error c).
Definition set_retry (n : Z) (deadline : option Z) := Coordinator (running c) (pending c) (next_due c) (next_periodic c)
  (last_focus c) (last_remote_check c) (mutation_generation c) (in_flight_generation c) (change_since c) (remote_available c) n
  (paused c) deadline (started_at c) (history_errors c) (had_error c).
Definition set_paused (b : bool) := Coordinator (running c) (pending c) (next_due c) (next_periodic c) (last_focus c)
  (last_remote_check c) (mutation_generation c) (in_flight_generation c) (change_since c) (remote_available c) (failures c) b
  (retry_not_before c) (started_at c) (history_errors c) (had_error c).
Definition begin_flight (t : Z) := Coordinator true (pending c) (next_due c) (next_periodic c) (last_focus c)
  (last_remote_check c) (mutation_generation c) (mutation_generation c) (change_since c) (remote_available c) (failures c)
  (paused c) (retry_not_before c) (Some t) (history_errors c) (had_error c).
Definition set_history (start : option Z) (errors : gmap str Z) (err : bool) := Coordinator (running c) (pending c) (next_due c)
  (next_periodic c) (last_focus c) (last_remote_check c) (mutation_generation c) (in_flight_generation c) (change_since c)
  (remote_available c) (failures c) (paused c) (retry_not_before c) start errors err.
End fields.

(** [matches!(pending, None | Some(Change | Focus))]. *)
Definition replaceable (p : option AutoSyncTrigger) : bool :=
  match p with None | Some Change | Some Focus => true | _ => false end.

Definition new (generation now : Z) : AutoSyncCoordinator :=
  Coordinator false (Some Startup) (now + 3 * SEC) (now + 15 * 60 * SEC) None None generation generation None false 0 false
    None None ∅ false.

Definition cancel_for_shutdown (c : AutoSyncCoordinator) (now : Z) : AutoSyncCoordinator :=
  schedule (set_running c false) (Some Retry) now.

Definition record_sync_mutation (c : AutoSyncCoordinator) (generation now : Z) : AutoSyncCoordinator :=
  if generation <=? mutation_generation c then c
  else
    let c := set_mutation c generation now in
    if replaceable (pending c) then schedule c (Some Change) (now + SEC) else c.

Definition settings_changed (c : AutoSyncCoordinator) (now : Z) : AutoSyncCoordinator :=
  schedule (set_retry (set_paused c false) 0 None) (Some Settings) now.

Definition observed_remote_check (c : AutoSyncCoordinator) (at_ : Z) : AutoSyncCoordinator :=
  if match last_remote_check c with None => true | Some old => old <? at_ end then
    let c := set_check c at_ (at_ + 15 * 60 * SEC) in
    let c := if bool_decide (pending c = Some Focus) then set_pending c None else c in
    if bool_decide (pending c = Some Periodic)
    then schedule c (match change_since c with Some _ => Some Change | None => None end) (at_ + SEC)
    else c
  else c.

Definition focused (c : AutoSyncCoordinator) (now : Z) : AutoSyncCoordinator :=
  if match last_remote_check c with Some last => saturating_sub now last <? 120 * SEC | None => false end then c
  else if match last_focus c with None => true | Some last => 120 * SEC <=? saturating_sub now last end then
    let c := set_focus c now in
    match pending c with None => schedule c (Some Focus) now | Some _ => c end
  else c.

(** [now] is the caller's instant, [t] the one that [record_sync_mutation] reads;
    [safe] is what [pull_safe] answers if it is asked. *)
Definition next_job (c : AutoSyncCoordinator) (now t generation : Z) (safe : bool) : AutoSyncCoordinator * option AutoSyncJob :=
  if running c then (c, None)
  else
    let c := record_sync_mutation c generation t in
    let c := if (next_periodic c <=? now) && replaceable (pending c) then schedule c (Some Periodic) now else c in
    if paused c || match retry_not_before c with Some deadline => now <? deadline | None => false end then (c, None)
    else
      let idle := match pending c with None => true | Some _ => false end in
      let deferred_pull := remote_available c && idle in
      if negb deferred_pull && ((now <? next_due c) || idle) then (c, None)
      else
        let c := if deferred_pull && safe then schedule c (Some DeferredPull) now else c in
        if now <? next_due c then (c, None)
        else
          match pending c with
          | None => (c, None)
          | Some trigger =>
              (begin_flight (set_pending c None) now,
               Some (Job trigger (match change_since c with
                                  | None => 0
                                  | Some since => Z.max (saturating_sub now since) 1
                                  end) safe))
          end.

(** The results after which a remote check is known to have happened. *)
Definition checked_remote (trigger : AutoSyncTrigger) (result : res AutoSyncResult) : bool :=
  match result with
  | Ok (AutoRemoteAvailable _ _) | Ok (Synced _) | Ok (AutoUpToDate _) | Ok (V4 _) => true
  | Ok (Debouncing _) => negb (bool_decide (trigger = Change))
  | Err (Conflict _) => true
  | _ => false
  end.

(** The changes that the job saw are dealt with. *)
Definition settle_changes (c : AutoSyncCoordinator) : AutoSyncCoordinator :=
  if mutation_generation c =? in_flight_generation c then
    let c := clear_change c in
    if bool_decide (pending c = Some Change) then set_pending c None else c
  else c.

Definition complete (instant_max : Z) (c : AutoSyncCoordinator) (trigger : AutoSyncTrigger) (result : res AutoSyncResult)
    (observed_generation : option Z) (t now : Z) : AutoSyncCoordinator :=
  let c := match observed_generation with Some g => record_sync_mutation c g t | None => c end in
  let c := set_running c false in
  let c := if checked_remote trigger result then observed_remote_check c now else c in
  let settled := fun c => settle_changes (set_retry (set_available c false) 0 None) in
  match result with
  | Ok (V4 report) =>
      if negb (verified report) then
        let due := now + auto_sync_backoff (failures c) in
        set_retry (schedule c (Some Retry) due) (saturating_add USIZE_MAX (failures c) 1) (Some due)
      else settled c
  | Ok (Debouncing remaining) =>
      if replaceable (pending c) then schedule c (Some Change) (now + remaining) else c
  | Ok Skipped => if bool_decide (trigger = Change) then settle_changes c else c
  | Ok Busy => schedule c (Some trigger) (now + 5 * SEC)
  | Ok (AutoRemoteAvailable retry_when_safe _) => set_retry (set_available c retry_when_safe) 0 None
  | Ok (Synced _) | Ok (AutoUpToDate _) => settled c
  | Err (Conflict preview) =>
      let c := set_available c false in
      if overwrite_blocked preview then set_paused c true else c
  | Err error =>
      let backoff := Z.max (auto_sync_backoff (failures c)) (default 0 (retry_after error)) in
      let due := if now + backoff <=? instant_max then now + backoff else now + 86400 * 365 * 100 * SEC in
      set_retry (schedule (set_paused c (permanent_auto_sync_error error)) (Some Retry) due)
        (saturating_add USIZE_MAX (failures c) 1) (Some due)
  | Ok AutoDisabled => set_paused c true
  end.

(** ** The log of operations *)

Record CloudSyncHistoryEntry := HistoryEntry {
  entry_id : str;
  timestamp_ms : Z;
  entry_kind : str;
  entry_status : str;
  entry_trigger : str;
  entry_provider : option str;
  entry_revision : option str;
  duration_ms : option Z;
  entry_message : str
}.

Definition history_key (trigger : AutoSyncTrigger) (error : CloudSyncError) (revision : option str) : str :=
  history_name trigger ++ [58] ++ classification error ++ [58] ++ default [] revision.

Definition result_revision (result : res AutoSyncResult) : option str :=
  match result with
  | Ok (AutoUpToDate state) => last_applied_remote_revision state
  | Ok (Synced sync) => revision_id <$> result_pointer sync
  | Ok (AutoRemoteAvailable _ revision) => revision
  | _ => None
  end.

(** [id] and [timestamp] are those that [CloudSyncHistoryEntry::sync] generates. *)
Definition history_entry (c : AutoSyncCoordinator) (trigger : AutoSyncTrigger) (result : res AutoSyncResult)
    (now : Z) (id : str) (timestamp : Z) : AutoSyncCoordinator * option CloudSyncHistoryEntry :=
  let duration := (fun start => saturating_sub now start / 1000000) <$> started_at c in
  let entry := fun status provider revision message =>
    HistoryEntry id timestamp (bs "sync") status (history_name trigger) provider revision duration message in
  let recovered := (set_history c None (history_errors c) false,
                    Some (entry (bs "success") None (result_revision result) (bs "Cloud synchronization recovered"))) in
  let nothing := (set_history c None (history_errors c) (had_error c), None) in
  match result with
  | Ok (Synced sync) =>
      match result_outcome sync with
      | OutUpToDate => if had_error c then recovered else nothing
      | outcome =>
          (set_history c None (history_errors c) false,
           Some (entry (bs "success") (Some (status_provider (result_status sync))) (revision_id <$> result_pointer sync)
             (match outcome with
              | OutUploaded => bs "Cloud snapshot uploaded"
              | OutDownloaded => bs "Cloud snapshot downloaded"
              | _ => bs "Cloud snapshot recovered"
              end)))
      end
  | Ok (AutoUpToDate _) | Ok (AutoRemoteAvailable _ _) => if had_error c then recovered else nothing
  | Err error =>
      let revision := match error with Conflict p => Some (remote_revision p) | _ => None end in
      let key := history_key trigger error revision in
      let errors := filter (fun e => saturating_sub now e.2 < 900 * SEC) (history_errors c) in
      if bool_decide (is_Some (errors !! key)) then (set_history c None errors true, None)
      else
        (set_history c None (<[key := now]> errors) true,
         Some (entry (match error with Conflict _ => bs "conflict" | _ => bs "failed" end) None revision (classification error)))
  | _ => nothing
  end.

(** ** Runs *)

Inductive activity :=
| Tick (now t generation : Z) (safe : bool)
| Completed (trigger : AutoSyncTrigger) (result : res AutoSyncResult) (observed : option Z) (t now : Z)
| Logged (trigger : AutoSyncTrigger) (result : res AutoSyncResult) (now : Z) (id : str) (timestamp : Z)
| Mutated (generation now : Z)
| SettingsChanged (now : Z)
| Focused (now : Z)
| Observed (at_ : Z)
| ShutDown (now : Z).

Definition perform_activity (instant_max : Z) (c : AutoSyncCoordinator) (a : activity) : AutoSyncCoordinator :=
  match a with
  | Tick now t generation safe => fst (next_job c now t generation safe)
  | Completed trigger result observed t now => complete instant_max c trigger result observed t now
  | Logged trigger result now id timestamp => fst (history_entry c trigger result now id timestamp)
  | Mutated generation now => record_sync_mutation c generation now
  | SettingsChanged now => settings_changed c now
  | Focused now => focused c now
  | Observed at_ => observed_remote_check c at_
  | ShutDown now => cancel_for_shutdown c now
  end.

(** The results after which the changes that the job had seen count as settled. *)
Definition covers (a : activity) : bool :=
  match a with
  | Completed trigger (Ok result) _ _ _ =>
      match result with
      | V4 report => verified report
      | Synced _ | AutoUpToDate _ => true
      | Skipped => bool_decide (trigger = Change)
      | _ => false
      end
  | _ => false
  end.

(** Only a running job completes. *)
Definition possible (c : AutoSyncCoordinator) (a : activity) : Prop :=
  match a with Completed _ _ _ _ _ => running c = true | _ => True end.

(** The states after activities that satisfy [ok], with the newest generation that a
    finished job had seen when it started. *)
Inductive reached (ok : activity -> Prop) (instant_max first start : Z) : AutoSyncCoordinator -> Z -> Prop :=
| reached_new : reached ok instant_max first start (new first start) first
| reached_step c k a : reached ok instant_max first start c k -> ok a -> possible c a ->
    reached ok instant_max first start (perform_activity instant_max c a) (if covers a then Z.max k (in_flight_generation c) else k).

(** ** Changes are not forgotten *)

Record tracks (c : AutoSyncCoordinator) (k : Z) : Prop := {
  tracks_none : change_since c = None -> mutation_generation c = k;
  tracks_le : k <= mutation_generation c;
  tracks_flight : in_flight_generation c <= mutation_generation c;
  tracks_running : running c = true -> in_flight_generation c < mutation_generation c -> change_since c <> None
}.

(** The fields that matter, and the operations that leave them alone. *)
Definition same_changes (c c' : AutoSyncCoordinator) : Prop :=
  change_since c' = change_since c /\ mutation_generation c' = mutation_generation c /\
  in_flight_generation c' = in_flight_generation c /\ (running c' = true -> running c = true).

Lemma same_changes_refl c : same_changes c c.
Proof. done. Qed.
Lemma same_changes_trans a b c : same_changes a b -> same_changes b c -> same_changes a c.
Proof. unfold same_changes. intuition congruence. Qed.

Lemma tracks_same c c' k : same_changes c c' -> tracks c k -> tracks c' k.
Proof. intros (E1 & E2 & E3 & E4) [H1 H2 H3 H4]. split; rewrite ?E1, ?E2, ?E3; auto. Qed.

Lemma observed_same c t : same_changes c (observed_remote_check c t).
Proof.
  unfold observed_remote_check. cbn zeta. repeat case_match; done.
Qed.

Lemma focused_same c t : same_changes c (focused c t).
Proof.
  unfold focused. cbn zeta. repeat case_match; done.
Qed.

Lemma history_same c trigger result now id ts : same_changes c (fst (history_entry c trigger result now id ts)).
Proof.
  unfold history_entry. destruct result as [[] | e]; try done; try (by destruct (had_error c)).
  - destruct (result_outcome _); try done. by destruct (had_error c).
  - cbn zeta. by destruct (bool_decide _).
Qed.

Lemma record_tracks c k g t : tracks c k -> tracks (record_sync_mutation c g t) k.
Proof.
  intros [H1 H2 H3 H4]. unfold record_sync_mutation. destruct (Z.leb_spec g (mutation_generation c)); [done |].
  cbn zeta. destruct (replaceable _); split; cbn; intros; try done; lia.
Qed.

Lemma next_job_tracks c k now t g safe : tracks c k -> tracks (fst (next_job c now t g safe)) k.
Proof.
  intros Hc. unfold next_job. destruct (running c); [done |]. cbn zeta. apply (record_tracks c k g t) in Hc.
  set (c1 := record_sync_mutation c g t) in *. clearbody c1. clear c.
  set (c2 := if (next_periodic c1 <=? now) && _ then _ else c1).
  assert (Hc2 : tracks c2 k) by (unfold c2; destruct (_ && _); [by apply (tracks_same c1) | done]).
  clearbody c2. destruct (paused c2 || _); [done |]. destruct (_ && (_ || _)); [done |].
  set (c3 := if _ && safe then _ else c2).
  assert (Hc3 : tracks c3 k) by (unfold c3; destruct (_ && safe); [by apply (tracks_same c2) | done]).
  clearbody c3. destruct (_ <? next_due c3); [done |]. destruct (pending c3); [| done].
  destruct Hc3 as [H1 H2 H3 H4]. split; cbn; intros; auto; lia.
Qed.

Lemma settle_tracks c k : tracks c k -> (running c = true -> False) ->
  (in_flight_generation c < mutation_generation c -> change_since c <> None) ->
  tracks (settle_changes c) (Z.max k (in_flight_generation c)).
Proof.
  intros [H1 H2 H3 H4] Hr Hf. unfold settle_changes. destruct (Z.eqb_spec (mutation_generation c) (in_flight_generation c)) as [E | E].
  - assert (Hk : Z.max k (in_flight_generation c) = mutation_generation c) by lia. cbn zeta.
    destruct (bool_decide _); split; cbn; intros; try done; try lia; by destruct Hr.
  - split; intros; try lia; [| by destruct Hr]. destruct Hf; [lia | done].
Qed.

(** After a job, before its result is looked at. *)
Lemma completed_tracks c k g t now trigger result : tracks c k -> running c = true ->
  let c1 := match g with Some g => record_sync_mutation c g t | None => c end in
  let c2 := set_running c1 false in
  let c3 := if checked_remote trigger result then observed_remote_check c2 now else c2 in
  tracks c3 k /\ (running c3 = true -> False) /\ in_flight_generation c3 = in_flight_generation c /\
  (in_flight_generation c3 < mutation_generation c3 -> change_since c3 <> None).
Proof.
  intros Hc Hrun. cbn zeta. set (c1 := match g with Some g => _ | None => c end).
  assert (Hc1 : tracks c1 k /\ running c1 = true /\ in_flight_generation c1 = in_flight_generation c).
  { unfold c1. destruct g as [g |]; [| done]. split; [by apply record_tracks |]. unfold record_sync_mutation.
    destruct (_ <=? _); [done |]. cbn zeta. by destruct (replaceable _). }
  clearbody c1. destruct Hc1 as (Hc1 & Hr1 & Hf1).
  assert (Hs : same_changes (set_running c1 false) (if checked_remote trigger result then observed_remote_check (set_running c1 false) now else set_running c1 false))
    by (destruct (checked_remote _ _); [apply observed_same | done]).
  destruct Hs as (E1 & E2 & E3 & E4). split_and!.
  - destruct Hc1 as [H1 H2 H3 H4]. split; rewrite ?E1, ?E2, ?E3; cbn; auto.
  - intros Hr. by apply E4 in Hr.
  - by rewrite E3.
  - rewrite E1, E2, E3. cbn. intros Hlt. by apply (tracks_running _ _ Hc1).
Qed.

Lemma complete_tracks m c k trigger result g t now : tracks c k -> running c = true ->
  tracks (complete m c trigger result g t now)
    (if covers (Completed trigger result g t now) then Z.max k (in_flight_generation c) else k).
Proof.
  intros Hc Hrun. destruct (completed_tracks c k g t now trigger result Hc Hrun) as (H3 & Hr3 & Hf3 & Hn3).
  unfold complete. cbn zeta. set (c3 := if checked_remote trigger result then _ else _) in *. rewrite <- Hf3. clearbody c3.
  assert (Hset : tracks (settle_changes (set_retry (set_available c3 false) 0 None)) (Z.max k (in_flight_generation c3)))
    by (apply (settle_tracks (set_retry (set_available c3 false) 0 None)); [by apply (tracks_same c3) | done | done]).
  destruct result as [[] | e]; cbn [covers]; try done; try (by apply (tracks_same c3)).
  - destruct (verified report); cbn [negb]; [done | by apply (tracks_same c3)].
  - destruct (bool_decide (trigger = Change)); [by apply settle_tracks | done].
  - by destruct (replaceable _); [apply (tracks_same c3) |].
  - destruct e; try (by apply (tracks_same c3)). destruct (overwrite_blocked preview); by apply (tracks_same c3).
Qed.

(** ** It does not starve *)

Definition HOUR : Z := 3600 * SEC.

(** The activity is not later than [T], and does not ask to wait longer than [P]. *)
Definition timely (P T : Z) (a : activity) : Prop :=
  match a with
  | Tick now t _ _ => now <= T /\ t <= T
  | Completed _ result _ t now =>
      t <= T /\ now <= T /\
      match result with
      | Ok (Debouncing remaining) => remaining <= P
      | Err error => default 0 (retry_after error) <= P
      | _ => True
      end
  | Logged _ _ _ _ _ => True
  | Mutated _ now | SettingsChanged now | Focused now | Observed now | ShutDown now => now <= T
  end.

Record soon (D : Z) (c : AutoSyncCoordinator) : Prop := {
  soon_due : next_due c <= D;
  soon_periodic : next_periodic c <= D;
  soon_retry d : retry_not_before c = Some d -> d <= D;
  soon_failures : 0 <= failures c
}.

Lemma backoff_hour n : 0 <= n -> 0 <= auto_sync_backoff n <= HOUR.
Proof.
  intros Hn. unfold auto_sync_backoff, HOUR, SEC.
  assert (Hz : Z.min n 3 = 0 \/ Z.min n 3 = 1 \/ Z.min n 3 = 2 \/ Z.min n 3 = 3) by lia.
  destruct Hz as [-> | [-> | [-> | ->]]]; split; vm_compute; discriminate.
Qed.

Ltac coordinator_fields :=
  cbn [running pending next_due next_periodic last_focus last_remote_check mutation_generation in_flight_generation change_since
       remote_available failures paused retry_not_before started_at history_errors had_error set_running set_pending schedule
       set_check set_focus set_mutation clear_change set_available set_retry set_paused begin_flight set_history].

Section soon.
Context (P T : Z) (HP : HOUR <= P).

Lemma soon_schedule c p d : d <= T + P -> soon (T + P) c -> soon (T + P) (schedule c p d).
Proof. intros Hd [H1 H2 H3 H4]. by split. Qed.

Lemma soon_record c g t : t <= T -> soon (T + P) c -> soon (T + P) (record_sync_mutation c g t).
Proof.
  intros Ht [H1 H2 H3 H4]. unfold record_sync_mutation. destruct (_ <=? _); [done |]. cbn zeta.
  unfold HOUR, SEC in *. destruct (replaceable _); split; coordinator_fields; try done; unfold SEC; lia.
Qed.

Lemma soon_observed c t : t <= T -> soon (T + P) c -> soon (T + P) (observed_remote_check c t).
Proof.
  intros Ht [H1 H2 H3 H4]. unfold observed_remote_check. cbn zeta. unfold HOUR, SEC in *.
  repeat case_match; split; coordinator_fields; try done; unfold SEC; lia.
Qed.

Lemma soon_focused c t : t <= T -> soon (T + P) c -> soon (T + P) (focused c t).
Proof.
  intros Ht [H1 H2 H3 H4]. unfold focused. cbn zeta. unfold HOUR, SEC in *.
  repeat case_match; split; coordinator_fields; try done; lia.
Qed.

Lemma soon_next_job c now t g safe : now <= T -> t <= T -> soon (T + P) c -> soon (T + P) (fst (next_job c now t g safe)).
Proof.
  intros Hn Ht Hc. unfold next_job. destruct (running c); [done |]. cbn zeta. apply (soon_record c g t) in Hc; [| done].
  set (c1 := record_sync_mutation c g t) in *. clearbody c1. clear c. assert (Hd : now <= T + P) by (unfold HOUR, SEC in *; lia).
  set (c2 := if (next_periodic c1 <=? now) && _ then _ else c1).
  assert (Hc2 : soon (T + P) c2) by (unfold c2; destruct (_ && _); [by apply soon_schedule | done]).
  clearbody c2. destruct (paused c2 || _); [done |]. destruct (_ && (_ || _)); [done |].
  set (c3 := if _ && safe then _ else c2).
  assert (Hc3 : soon (T + P) c3) by (unfold c3; destruct (_ && safe); [by apply soon_schedule | done]).
  clearbody c3. destruct (_ <? next_due c3); [done |]. destruct (pending c3); [| done].
  destruct Hc3 as [H1 H2 H3 H4]. by split.
Qed.

Lemma soon_settle c : soon (T + P) c -> soon (T + P) (settle_changes c).
Proof. intros [H1 H2 H3 H4]. unfold settle_changes. cbn zeta. repeat case_match; by split. Qed.

Lemma soon_retry_at c n d : 0 <= n -> d <= T + P -> soon (T + P) c -> soon (T + P) (set_retry c n (Some d)).
Proof. intros Hn Hd [H1 H2 H3 H4]. split; cbn; try done. by intros ? [= <-]. Qed.

Lemma soon_complete m c trigger result g t now : T + P <= m -> timely P T (Completed trigger result g t now) ->
  soon (T + P) c -> soon (T + P) (complete m c trigger result g t now).
Proof.
  intros Hm (Ht & Hn & Hr) Hc. unfold complete. cbn zeta.
  set (c1 := match g with Some g => record_sync_mutation c g t | None => c end).
  assert (Hc1 : soon (T + P) (set_running c1 false)).
  { assert (H : soon (T + P) c1) by (unfold c1; destruct g; [by apply soon_record | done]). by destruct H. }
  set (c3 := if checked_remote trigger result then _ else _).
  assert (Hc3 : soon (T + P) c3) by (unfold c3; destruct (checked_remote _ _); [by apply soon_observed | done]).
  clearbody c3. pose proof (backoff_hour (failures c3) (soon_failures _ _ Hc3)) as Hb.
  assert (Hf : 0 <= saturating_add USIZE_MAX (failures c3) 1) by (pose proof (soon_failures _ _ Hc3); unfold saturating_add; lia).
  assert (Hzero : soon (T + P) (set_retry (set_available c3 false) 0 None)) by (destruct Hc3; by split).
  destruct result as [[] | e]; try done; try (by apply soon_settle); try (by destruct Hc3; split).
  - destruct (verified report); cbn [negb]; [by apply soon_settle |]. apply soon_retry_at; [done | lia |]. apply soon_schedule; [lia | done].
  - case_bool_decide; [by apply soon_settle | done].
  - destruct (replaceable _); [apply soon_schedule; [lia | done] | done].
  - apply soon_schedule; [unfold HOUR, SEC in *; lia | done].
  - assert (Herr : soon (T + P)
      (let due := if now + Z.max (auto_sync_backoff (failures c3)) (default 0 (retry_after e)) <=? m
                  then now + Z.max (auto_sync_backoff (failures c3)) (default 0 (retry_after e))
                  else now + 86400 * 365 * 100 * SEC in
       set_retry (schedule (set_paused c3 (permanent_auto_sync_error e)) (Some Retry) due)
         (saturating_add USIZE_MAX (failures c3) 1) (Some due))).
    { cbn zeta. destruct (Z.leb_spec (now + Z.max (auto_sync_backoff (failures c3)) (default 0 (retry_after e))) m); [| lia].
      apply soon_retry_at; [done | lia |]. apply soon_schedule; [lia |]. destruct Hc3. by split. }
    destruct e; try exact Herr. cbn zeta. destruct (overwrite_blocked preview); destruct Hc3; by split.
Qed.

Lemma reached_soon m first start c k : T + P <= m -> start <= T ->
  reached (timely P T) m first start c k -> soon (T + P) c.
Proof.
  intros Hm Hs H. induction H as [| c k a H IH Hok Hp].
  - unfold HOUR, SEC in *. unfold new. split; coordinator_fields; unfold SEC; try lia; done.
  - destruct a; cbn [perform_activity].
    + destruct Hok. by apply soon_next_job.
    + by apply soon_complete.
    + unfold history_entry. destruct IH. cbn zeta. repeat case_match; by split.
    + by apply soon_record.
    + cbn in Hok. unfold settings_changed, HOUR, SEC in *. destruct IH. split; coordinator_fields; try done; lia.
    + by apply soon_focused.
    + by apply soon_observed.
    + cbn in Hok. apply soon_schedule; [unfold HOUR, SEC in *; lia |]. destruct IH. by split.
Qed.
End soon.

(** When all deadlines have passed there is a job. *)
Lemma due_job c now t g safe : running c = false -> paused c = false -> soon now c ->
  exists c' job, next_job c now t g safe = (c', Some job).
Proof.
  intros Hr Hp [H1 H2 H3 H4]. unfold next_job. rewrite Hr. cbn zeta.
  assert (Hc1 : let c1 := record_sync_mutation c g t in paused c1 = false /\ next_periodic c1 <= now /\
    (forall d, retry_not_before c1 = Some d -> d <= now) /\ (replaceable (pending c1) = false -> next_due c1 <= now)).
  { cbn zeta. unfold record_sync_mutation. destruct (_ <=? _); [done |]. cbn zeta.
    destruct (replaceable (pending (set_mutation c g t))) eqn:Er; cbn [paused next_periodic retry_not_before pending next_due schedule set_mutation].
    - split_and!; try done.
    - split_and!; done. }
  cbn zeta in Hc1. set (c1 := record_sync_mutation c g t) in *. clearbody c1. destruct Hc1 as (Hp1 & Hn1 & Hr1 & Hd1).
  rewrite (proj2 (Z.leb_le _ _) Hn1). cbn [andb].
  set (c2 := if replaceable (pending c1) then _ else c1).
  assert (Hc2 : paused c2 = false /\ (forall d, retry_not_before c2 = Some d -> d <= now) /\ next_due c2 <= now /\ is_Some (pending c2)).
  { unfold c2. destruct (replaceable (pending c1)) eqn:Er; cbn; [split_and!; try done; by eexists |].
    split_and!; [done | done | auto |]. destruct (pending c1); [by eexists | done]. }
  clearbody c2. destruct Hc2 as (Hp2 & Hr2 & Hd2 & [trigger Ht]). rewrite Hp2, Ht. cbn [orb andb].
  assert (match retry_not_before c2 with Some d => now <? d | None => false end = false) as ->.
  { destruct (retry_not_before c2) as [d |]; [| done]. apply Z.ltb_ge. auto. }
  rewrite andb_false_r. cbn [negb andb orb]. rewrite (proj2 (Z.ltb_ge now (next_due c2)) Hd2), Ht. eauto.
Qed.

(** C34: a coordinator that is not paused does not starve.  If nothing that happened up
    to [T] asked it to wait longer than [P], at least an hour, then a tick at [T + P]
    or later starts a job unless one is running. *)
Theorem auto_sync_never_starves P T instant_max first start c k now t generation safe :
  HOUR <= P -> T + P <= instant_max -> start <= T -> reached (timely P T) instant_max first start c k ->
  running c = false -> paused c = false -> T + P <= now ->
  exists c' job, next_job c now t generation safe = (c', Some job).
Proof.
  intros HP Hm Hs H Hr Hp Hn. apply due_job; [done | done |].
  destruct (reached_soon P T HP instant_max first start c k Hm Hs H) as [H1 H2 H3 H4].
  split; [lia | lia | | done]. intros d Hd. specialize (H3 d Hd). lia.
Qed.

(** ** Runs *)
Module Trial.

Definition advance (max : Z) (s : AutoSyncCoordinator * Z) (a : activity) : AutoSyncCoordinator * Z :=
  (perform_activity max (fst s) a, if covers a then Z.max (snd s) (in_flight_generation (fst s)) else snd s).
Definition everything (max first start : Z) (activities : list activity) : AutoSyncCoordinator * Z :=
  fold_left (advance max) activities (new first start, first).

Fixpoint all_possible (max : Z) (c : AutoSyncCoordinator) (activities : list activity) : Prop :=
  match activities with
  | [] => True
  | a :: rest => possible c a /\ all_possible max (perform_activity max c a) rest
  end.

Lemma everything_reached ok max first start activities :
  Forall ok activities -> all_possible max (new first start) activities ->
  reached ok max first start (fst (everything max first start activities)) (snd (everything max first start activities)).
Proof.
  unfold everything. assert (Hgen : forall c k, reached ok max first start c k -> Forall ok activities -> all_possible max c activities ->
    reached ok max first start
      (fst (fold_left (advance max) activities (c, k)))
      (snd (fold_left (advance max) activities (c, k)))).
  { induction activities as [| a rest IH]; intros c k Hc Ha Hp; [done |]. cbn [fold_left].
    apply Forall_cons in Ha as [Ha Hrest]. destruct Hp as [Hp Hprest]. apply IH; [by apply reached_step | done | done]. }
  intros Ha Hp. apply Hgen; [constructor | done | done].
Qed.

(** A change at generation 8, a job that synchronises it. *)
Definition one_change : list activity :=
  [Mutated 8 10; Tick (4 * SEC) (4 * SEC) 8 true;
   Completed Startup (Ok (AutoUpToDate (State [] None None None None None None None None None))) (Some 8) (5 * SEC) (5 * SEC)].

Lemma never_starves_witness :
  exists c' job, next_job (fst (everything (10 * HOUR) 7 0 one_change)) (5 * SEC + HOUR) 0 8 true = (c', Some job).
Proof.
  apply (auto_sync_never_starves HOUR (5 * SEC) (10 * HOUR) 7 0 _ (snd (everything (10 * HOUR) 7 0 one_change)));
    [lia | vm_compute; discriminate | vm_compute; discriminate | | reflexivity | reflexivity | lia].
  apply everything_reached; [| cbn; done]. unfold one_change, timely, SEC. repeat constructor; lia.
Defined.
End Trial.
