(* ===== verification/AutoSyncRun.v ===== *)
(** The job that the coordinator of [AutoSync] starts,
    zzclawterm-desktop/src/features/sync/auto_sync.rs ([run_auto_sync_inner] and
    [auto_sync_skip]), and what its result says about the changes it has seen.
    The operations the job calls are modelled in [CloudSync] and [CloudConflict];
    here [Calls] holds what they return.  The collection of old snapshots after a
    synchronisation ([cleanup_if_due]) does not change the result. *)
From stdpp Require Import base list numbers strings gmap.
From Stdlib Require Import ZArith Lia.
From S2P Require Import Prelude Text SyncTypes CloudSync AutoSync.

(** The settings the job looks at. *)
Record AutoSettings := Settings' {
  sync_enabled : bool;
  protocol_version : Z;
  auto_check_on_startup : bool;
  auto_push_on_change : bool;
  auto_pull_remote_changes : bool;
  sync_debounce_seconds : Z
}.

(** What the preview of protocol 4 tells: the document of the local replica and
    the planned one, the digest last published, and what is still open. *)
Record V4Preview := MkPreview {
  migration : bool;
  replica_document : option str;
  planned_document : str;
  published_document : option str;
  planned_digest : str;
  publication_pending : bool;
  deferred_empty : bool;
  applied_generation : Z;
  preview_generation : Z
}.

(** The results of the calls of a job, in their order. *)
Record Calls := MkCalls {
  checkpoint : res unit;
  lock_taken : bool;
  load : res (AutoSettings * CloudSyncState * option str);
  preview_v4 : res V4Preview;
  before_apply : res unit;
  apply_and_publish : res SyncReport;
  pending_remote : res bool;
  local_content : res str;
  checkpoint_unchanged : res unit;
  check_provider : res CloudSyncCheck;
  push_checked : res CloudSyncResult;
  pull_checked : res CloudSyncResult;
  begin_commit : res unit;
  save_state : res unit
}.

(** [?] in a function that can also panic. *)
#[local] Notation "'let^' x ':=' r 'in' k" :=
  (match r with Ok x => k | Err e => Some (Err e) end) (at level 10, x pattern, r at level 100, k at level 200).

Definition debounce (s : AutoSettings) : Z := Z.max 1 (Z.min (sync_debounce_seconds s) 3600) * SEC.

Definition auto_sync_skip (s : AutoSettings) (trigger : AutoSyncTrigger) (change_elapsed : Z) : option AutoSyncResult :=
  if negb (sync_enabled s) then Some AutoDisabled
  else if bool_decide (trigger = Startup) && negb (auto_check_on_startup s) then Some Skipped
  else if bool_decide (trigger = Change) then
    if negb (auto_push_on_change s) then Some Skipped
    else if change_elapsed <? debounce s then Some (Debouncing (debounce s - change_elapsed)) else None
  else None.

(** Nothing to apply and nothing to publish. *)
Definition v4_unchanged (p : V4Preview) : bool :=
  bool_decide (replica_document p = Some (planned_document p))
  && bool_decide (published_document p = Some (planned_digest p))
  && negb (publication_pending p)
  && (deferred_empty p || (applied_generation p =? preview_generation p)).

Definition run_v4 (e : Calls) (s : AutoSettings) (pull_safe : bool) : option (res AutoSyncResult) :=
  let^ preview := preview_v4 e in
  if migration preview || negb pull_safe || negb (auto_pull_remote_changes s) || negb (auto_push_on_change s)
  then Some (Ok (AutoRemoteAvailable (negb pull_safe) None))
  else if v4_unchanged preview then Some (Ok Skipped)
  else
    let^ _ := before_apply e in
    let^ report := apply_and_publish e in
    Some (Ok (V4 report)).

(** The decision of the check; [Conflict] is [unreachable!]. *)
Definition run_checked (e : Calls) (s : AutoSettings) (change_elapsed : Z) (pull_safe : bool) (checked : CloudSyncCheck) :
    option (res AutoSyncResult) :=
  let revision := revision_id <$> check_pointer checked in
  let save :=
    let^ _ := begin_commit e in
    let^ _ := save_state e in
    Some (Ok (AutoUpToDate (check_state checked))) in
  match check_decision checked with
  | LocalChanged =>
      if auto_push_on_change s then
        if negb (change_elapsed =? 0) && (change_elapsed <? debounce s)
        then Some (Ok (Debouncing (debounce s - change_elapsed)))
        else let^ result := push_checked e in Some (Ok (Synced result))
      else save
  | AutoPull =>
      if pull_safe then
        match pull_checked e with
        | Err AutoPullDeferred => Some (Ok (AutoRemoteAvailable true revision))
        | Err error => Some (Err error)
        | Ok result => Some (Ok (Synced result))
        end
      else Some (Ok (AutoRemoteAvailable true revision))
  | RemoteAvailable => Some (Ok (AutoRemoteAvailable false revision))
  | DecideConflict => None
  | UpToDate => save
  end.

(** A change that leaves the content as it was last synchronised; it is asked only
    when no remote change is known to wait. *)
Definition content_unchanged (e : Calls) (state : CloudSyncState) : res bool :=
  let? pending := pending_remote e in
  if pending then Ok false
  else
    let? content := local_content e in
    Ok (bool_decide (last_synced_content_hash state = Some content)).

Definition run_auto_sync_inner (e : Calls) (trigger : AutoSyncTrigger) (change_elapsed : Z) (pull_safe : bool) :
    option (res AutoSyncResult) :=
  let^ _ := checkpoint e in
  if lock_taken e then Some (Ok Busy)
  else
    let^ (s, state, password) := load e in
    match auto_sync_skip s trigger change_elapsed with
    | Some skipped => Some (Ok skipped)
    | None =>
        if negb ((protocol_version s =? 3) || (protocol_version s =? 4))
        then Some (Err (Remote (bs "Unsupported cloud sync protocol")))
        else
          match password with
          | None => Some (Err (PortableSnapshot MissingMasterPassword))
          | Some _ =>
              if protocol_version s =? 4 then run_v4 e s pull_safe
              else
                let^ unchanged := if bool_decide (trigger = Change) then content_unchanged e state else Ok false in
                if unchanged then let^ _ := checkpoint_unchanged e in Some (Ok Skipped)
                else
                  let^ checked := check_provider e in
                  run_checked e s change_elapsed pull_safe checked
          end
    end.

(** ** What a job has done about the changes it has seen *)

Inductive dealt_with (e : Calls) : Prop :=
(** It uploaded them. *)
| dealt_pushed checked result :
    check_provider e = Ok checked -> check_decision checked = LocalChanged -> push_checked e = Ok result -> dealt_with e
(** It took over the remote data. *)
| dealt_pulled checked result :
    check_provider e = Ok checked -> check_decision checked = AutoPull -> pull_checked e = Ok result -> dealt_with e
(** It applied and published them, and the publication was verified. *)
| dealt_published report : apply_and_publish e = Ok report -> verified report = true -> dealt_with e
(** The content is the one last synchronised. *)
| dealt_unchanged s state password content :
    load e = Ok (s, state, password) -> pending_remote e = Ok false -> local_content e = Ok content ->
    last_synced_content_hash state = Some content -> dealt_with e
(** All of it is in the published document. *)
| dealt_published_before preview : preview_v4 e = Ok preview -> v4_unchanged preview = true -> dealt_with e
(** The remote check found both sides equal. *)
| dealt_equal checked : check_provider e = Ok checked -> check_decision checked = UpToDate -> dealt_with e
(** The user has switched off that changes are pushed: they wait for a manual synchronisation. *)
| dealt_manual s state password : load e = Ok (s, state, password) -> auto_push_on_change s = false -> dealt_with e.

Lemma run_v4_dealt e s safe trigger result g t now :
  run_v4 e s safe = Some result -> covers (Completed trigger result g t now) = true -> dealt_with e.
Proof.
  unfold run_v4. destruct (preview_v4 e) as [preview |] eqn:Ep; [| by intros [= <-]].
  destruct (_ || negb (auto_push_on_change s)); [by intros [= <-] |].
  destruct (v4_unchanged preview) eqn:Eu; [intros _ _; by eapply dealt_published_before |].
  destruct (before_apply e); [| by intros [= <-]]. destruct (apply_and_publish e) as [report |] eqn:Er; [| by intros [= <-]].
  intros [= <-] Hv. by eapply dealt_published.
Qed.

Lemma run_checked_dealt e s state password elapsed safe checked trigger result g t now :
  load e = Ok (s, state, password) -> check_provider e = Ok checked -> run_checked e s elapsed safe checked = Some result ->
  covers (Completed trigger result g t now) = true -> dealt_with e.
Proof.
  intros Hl Hc. unfold run_checked. destruct (check_decision checked) eqn:Ed; [.. | done].
  - intros _ _. by eapply dealt_equal.
  - destruct (auto_push_on_change s) eqn:Ea; [| intros _ _; by eapply dealt_manual].
    destruct (_ && _); [by intros [= <-] |]. destruct (push_checked e) eqn:Ep; [| by intros [= <-]].
    intros _ _. by eapply dealt_pushed.
  - destruct safe; [| by intros [= <-]]. destruct (pull_checked e) as [r | error] eqn:Ep; [intros _ _; by eapply dealt_pulled |].
    by destruct error; intros [= <-].
  - by intros [= <-].
Qed.

(** A result after which the changes count as settled is backed by what the job did. *)
Lemma run_dealt e trigger elapsed safe result g t now :
  run_auto_sync_inner e trigger elapsed safe = Some result -> covers (Completed trigger result g t now) = true -> dealt_with e.
Proof.
  unfold run_auto_sync_inner. destruct (checkpoint e); [| by intros [= <-]]. destruct (lock_taken e); [by intros [= <-] |].
  destruct (load e) as [[[s state] password] |] eqn:El; [| by intros [= <-]].
  destruct (auto_sync_skip s trigger elapsed) as [skipped |] eqn:Es.
  { intros [= <-]. unfold auto_sync_skip in Es. destruct (sync_enabled s); [| by injection Es as <-]. cbn [negb] in Es.
    destruct (bool_decide (trigger = Change)) eqn:Ec.
    - apply bool_decide_eq_true in Ec as ->. cbn in Es. destruct (auto_push_on_change s) eqn:Ea; [| intros _; by eapply dealt_manual].
      cbn in Es. destruct (_ <? _); [by injection Es as <- | done].
    - destruct (_ && _); [injection Es as <- | done]. cbn. by rewrite Ec. }
  destruct (negb _); [by intros [= <-] |]. destruct password as [password |]; [| by intros [= <-]].
  destruct (protocol_version s =? 4); [by apply (run_v4_dealt e s safe trigger result g t now) |].
  destruct (bool_decide (trigger = Change)); cbn.
  - unfold content_unchanged. destruct (pending_remote e) as [[] |] eqn:Ep; cbn; [| | by intros [= <-]].
    + destruct (check_provider e) as [checked |] eqn:Ec; [| by intros [= <-]]. by apply (run_checked_dealt e s state (Some password) elapsed safe checked trigger result g t now).
    + destruct (local_content e) as [content |] eqn:Eh; cbn; [| by intros [= <-]]. case_bool_decide as Eq.
      * intros _ _. by eapply dealt_unchanged.
      * destruct (check_provider e) as [checked |] eqn:Ec; [| by intros [= <-]]. by apply (run_checked_dealt e s state (Some password) elapsed safe checked trigger result g t now).
  - destruct (check_provider e) as [checked |] eqn:Ec; [| by intros [= <-]]. by apply (run_checked_dealt e s state (Some password) elapsed safe checked trigger result g t now).
Qed.

(** ** The coordinator and its jobs *)

(** The coordinator's life with its jobs: the job under way, with the newest
    generation known when it started, and the jobs that have finished, with
    theirs.  A job ends once: with the result of [run_auto_sync_inner] for the
    trigger, the elapsed time and the answer it was started with, or with an error
    (it timed out, panicked or was not accepted), or by the shutdown. *)
Inductive life (instant_max first start : Z) :
    AutoSyncCoordinator -> option (Z * AutoSyncJob) -> list (Z * Calls) -> Prop :=
| life_new : life instant_max first start (new first start) None []
| life_tick c jobs now t generation safe c' :
    life instant_max first start c None jobs -> next_job c now t generation safe = (c', None) ->
    life instant_max first start c' None jobs
| life_start c jobs now t generation safe c' job :
    life instant_max first start c None jobs -> next_job c now t generation safe = (c', Some job) ->
    life instant_max first start c' (Some (mutation_generation c', job)) jobs
| life_done c jobs g job e result observed t now :
    life instant_max first start c (Some (g, job)) jobs ->
    run_auto_sync_inner e (job_trigger job) (change_elapsed job) (pull_safe job) = Some result ->
    life instant_max first start (complete instant_max c (job_trigger job) result observed t now) None ((g, e) :: jobs)
| life_failed c jobs g job error observed t now :
    life instant_max first start c (Some (g, job)) jobs ->
    life instant_max first start (complete instant_max c (job_trigger job) (Err error) observed t now) None jobs
| life_shut_down c jobs current now :
    life instant_max first start c current jobs -> life instant_max first start (cancel_for_shutdown c now) None jobs
| life_other c current jobs a :
    life instant_max first start c current jobs ->
    match a with Logged _ _ _ _ _ | Mutated _ _ | SettingsChanged _ | Focused _ | Observed _ => True | _ => False end ->
    life instant_max first start (perform_activity instant_max c a) current jobs.

(** The newest generation that is settled. *)
Definition settled_at (first : Z) (jobs : list (Z * Calls)) (k : Z) : Prop :=
  k = first \/ exists e, In (k, e) jobs /\ dealt_with e.

Definition flight_ok (c : AutoSyncCoordinator) (current : option (Z * AutoSyncJob)) : Prop :=
  match current with
  | Some (g, _) => running c = true /\ in_flight_generation c = g
  | None => True
  end.

Lemma settled_more first jobs j k : settled_at first jobs k -> settled_at first (j :: jobs) k.
Proof. intros [? | (e & Hin & He)]; [by left |]. right. exists e. split; [by right | done]. Qed.

Lemma start_flight c now t g safe c' job :
  next_job c now t g safe = (c', Some job) -> running c' = true /\ in_flight_generation c' = mutation_generation c'.
Proof.
  unfold next_job. destruct (running c); [done |]. cbn zeta.
  set (c2 := if _ && replaceable _ then _ else _). clearbody c2. destruct (paused c2 || _); [done |].
  destruct (_ && (_ || _)); [done |]. set (c3 := if _ && safe then _ else c2). clearbody c3.
  destruct (_ <? next_due c3); [done |]. destruct (pending c3); [| done]. by intros [= <- _].
Qed.

(** What is no job's end or start leaves the flight alone. *)
Lemma other_flight m c current a :
  match a with Logged _ _ _ _ _ | Mutated _ _ | SettingsChanged _ | Focused _ | Observed _ => True | _ => False end ->
  flight_ok c current -> flight_ok (perform_activity m c a) current.
Proof.
  intros Ha. unfold flight_ok. destruct current as [[g job] |]; [| done]. intros [Hr <-].
  destruct a; try done; cbn [perform_activity].
  - unfold history_entry. cbn zeta. repeat case_match; done.
  - unfold record_sync_mutation. cbn zeta. repeat case_match; done.
  - unfold focused. cbn zeta. repeat case_match; done.
  - unfold observed_remote_check. cbn zeta. repeat case_match; done.
Qed.

Lemma other_tracks m c k a :
  match a with Logged _ _ _ _ _ | Mutated _ _ | SettingsChanged _ | Focused _ | Observed _ => True | _ => False end ->
  tracks c k -> tracks (perform_activity m c a) k.
Proof.
  intros Ha Ht. destruct a; try done; cbn [perform_activity].
  - eapply tracks_same; [apply history_same | done].
  - by apply record_tracks.
  - by apply (tracks_same c).
  - eapply tracks_same; [apply focused_same | done].
  - eapply tracks_same; [apply observed_same | done].
Qed.

Lemma life_tracks m first start c current jobs :
  life m first start c current jobs -> flight_ok c current /\ exists k, tracks c k /\ settled_at first jobs k.
Proof.
  induction 1 as [| c jobs now t g safe c' _ (_ & k & Ht & Hk) E | c jobs now t g safe c' job _ (_ & k & Ht & Hk) E
    | c jobs g job e result o t now _ ((Hr & Hg) & k & Ht & Hk) E | c jobs g job error o t now _ ((Hr & Hg) & k & Ht & Hk)
    | c jobs current now _ (_ & k & Ht & Hk) | c current jobs a _ (Hf & k & Ht & Hk) Ha].
  - split; [done |]. exists first. split; [split; cbn; intros; try done; lia | by left].
  - split; [done |]. exists k. split; [| done]. pose proof (next_job_tracks c k now t g safe Ht) as H. by rewrite E in H.
  - split; [by eapply start_flight |]. exists k. split; [| done]. pose proof (next_job_tracks c k now t g safe Ht) as H.
    by rewrite E in H.
  - split; [done |]. pose proof (complete_tracks m c k (job_trigger job) result o t now Ht Hr) as H. eexists. split; [exact H |].
    destruct (covers _) eqn:Ec; [| by apply settled_more]. rewrite Hg. destruct (Z.max_spec k g) as [[_ ->] | [_ ->]].
    + right. exists e. split; [by left |]. by eapply run_dealt.
    + by apply settled_more.
  - split; [done |]. pose proof (complete_tracks m c k (job_trigger job) (Err error) o t now Ht Hr) as H. by exists k.
  - split; [done |]. exists k. split; [| done]. by apply (tracks_same c).
  - split; [by apply other_flight |]. exists k. split; [by apply other_tracks | done].
Qed.

(** C14: the coordinator does not forget changes.  Whenever it believes that there is
    nothing to synchronise, the newest change it knows of was known when it was
    made, or had been known when a job started that pushed the local data, took
    over the remote data, published them with verification, found the content to
    be the one last synchronised or published, found both sides equal, or found
    that the user does not want changes to be pushed automatically. *)
Theorem auto_sync_keeps_changes instant_max first start c current jobs :
  life instant_max first start c current jobs -> change_since c = None ->
  mutation_generation c = first \/ exists e, In (mutation_generation c, e) jobs /\ dealt_with e.
Proof.
  intros Hl Hc. destruct (life_tracks _ _ _ _ _ _ Hl) as (_ & k & [H1 _ _ _] & Hk). by rewrite (H1 Hc).
Qed.

Module Demo.
Definition settings : AutoSettings := Settings' true 3 false true true 1.
Definition state : CloudSyncState := State (bs "d") None (Some (bs "h")) None None None None None None None.

(** A start without a check, and a change that leaves the content as it was. *)
Definition calls : Calls :=
  MkCalls (Ok tt) false (Ok (settings, state, Some (bs "secret"))) (Err Cancelled) (Err Cancelled) (Err Cancelled)
    (Ok false) (Ok (bs "h")) (Ok tt) (Err Cancelled) (Err Cancelled) (Err Cancelled) (Err Cancelled) (Err Cancelled).

Definition c0 : AutoSyncCoordinator := new 7 0.
Definition c1 : AutoSyncCoordinator := fst (next_job c0 (4 * SEC) (4 * SEC) 7 true).
Definition c2 : AutoSyncCoordinator := complete (100 * SEC) c1 Startup (Ok Skipped) (Some 7) (5 * SEC) (5 * SEC).
Definition c3 : AutoSyncCoordinator := record_sync_mutation c2 8 (6 * SEC).
Definition c4 : AutoSyncCoordinator := fst (next_job c3 (8 * SEC) (8 * SEC) 8 true).
Definition c5 : AutoSyncCoordinator := complete (100 * SEC) c4 Change (Ok Skipped) (Some 8) (9 * SEC) (9 * SEC).

Lemma demo_life : life (100 * SEC) 7 0 c5 None [(8, calls); (7, calls)].
Proof.
  apply (life_done _ _ _ c4 [(7, calls)] 8 (Job Change (2 * SEC) true)); [| vm_compute; reflexivity].
  apply (life_start _ _ _ c3 [(7, calls)] (8 * SEC) (8 * SEC) 8 true); [| vm_compute; reflexivity].
  apply (life_other _ _ _ c2 None _ (Mutated 8 (6 * SEC))); [| done].
  apply (life_done _ _ _ c1 [] 7 (Job Startup 0 true)); [| vm_compute; reflexivity].
  apply (life_start _ _ _ c0 [] (4 * SEC) (4 * SEC) 7 true); [| vm_compute; reflexivity].
  apply life_new.
Qed.

Lemma keeps_changes_witness : change_since c3 <> None /\ change_since c5 = None
  /\ (mutation_generation c5 = 7 \/ exists e, In (mutation_generation c5, e) [(8, calls); (7, calls)] /\ dealt_with e).
Proof.
  split; [vm_compute; discriminate |]. split; [vm_compute; reflexivity |].
  apply (auto_sync_keeps_changes (100 * SEC) 7 0 c5 None _ demo_life). vm_compute. reflexivity.
Defined.
End Demo.
