(* ===== verification/BlockingJobs.v ===== *)
(** The bounded scheduler of blocking jobs, zzclawterm-desktop/src/blocking_jobs.rs.
    Submitting threads, workers and shutting-down threads interleave; one [advance]
    of a thread is one atomic operation of the source (an access to an atomic, to
    the channel, or to a locked field).  What a job or a callback does is a choice:
    it returns or it panics.  [queue_depth] wraps as a 64-bit [usize] does; the ids and
    the three statistics are unbounded (the source counts in a [u64]).  Spawning and
    joining threads and the measured shutdown time are not modelled: a scheduler
    starts with its workers. *)
From stdpp Require Import base list numbers gmap.
From Stdlib Require Import ZArith Lia.
From S2P Require Import Prelude.

Inductive JobFailure := Panicked.
Inductive JobOutcome := Completed | Cancelled | Failed (failure : JobFailure).
Inductive JobRejected := QueueFull | ShuttingDown.
Inductive JobExecutionError := ExecCancelled | ExecFailed (failure : JobFailure).

Definition DEFAULT_QUEUE_CAPACITY : nat := 256.

(** A task also has a channel for its result. *)
Record QueuedJob := Queued { job_id : Z; is_task : bool }.

#[global] Instance job_eq_dec : EqDecision QueuedJob.
Proof. solve_decision. Defined.

(** Where a thread is. *)
Inductive phase :=
(** [submit_inner]: before the check of [stopping]; before the id; before the sender
    is cloned; with a sender: before the depth is raised; before [try_send]; after
    it; before a rejection is counted; returned. *)
| SubmitCheck (task : bool)
| SubmitId (task : bool)
| SubmitClone (job : QueuedJob)
| SubmitCount (job : QueuedJob)
| SubmitSend (job : QueuedJob)
| SubmitAccepted (job : QueuedJob)
| SubmitUndo (reason : JobRejected)
| SubmitReject (reason : JobRejected) (sender : bool)
| Submitted (result : QueuedJob + JobRejected)
(** [worker_loop]: before [recv]; before the depth is lowered; before the first and the
    second load of [is_cancelled]; in the job; a task before it reads [is_cancelled]
    (two loads) and sends its result; after the job before [is_cancelled] (two loads);
    before the panic is counted; before the outcome is sent; before the callback. *)
| Receiving
| Received (job : QueuedJob)
| CheckJob (job : QueuedJob)
| CheckStop (job : QueuedJob)
| Running (job : QueuedJob)
| TaskJob (job : QueuedJob)
| TaskStop (job : QueuedJob)
| TaskSend (job : QueuedJob) (cancelled : bool)
| RecheckJob (job : QueuedJob)
| RecheckStop (job : QueuedJob)
| CountPanic (job : QueuedJob)
| Sending (job : QueuedJob) (outcome : JobOutcome)
| Reporting (job : QueuedJob) (outcome : JobOutcome)
| Exited
| Died
(** [take_shutdown_workers]: before the swap of [stopping]; before the sender is taken;
    after it, when the workers are joined. *)
| ShutSwap
| ShutSender
| ShutDone.

Record scheduler := Scheduler {
  stopping : bool;
  has_sender : bool;
  senders : nat;
  queue : list QueuedJob;
  queue_depth : Z;
  submitted : Z;
  rejected : Z;
  panicked : Z;
  next_job_id : Z;
  receivers : nat;
  cancelled : gset Z;
  (** What has happened: jobs enqueued, jobs started, outcomes sent, results of tasks. *)
  accepted : list QueuedJob;
  started : list QueuedJob;
  outcomes : list (QueuedJob * JobOutcome);
  results : list (QueuedJob * (unit + JobExecutionError))
}.

Section fields.
Context (s : scheduler).
Definition set_stopping (b : bool) := Scheduler b (has_sender s) (senders s) (queue s) (queue_depth s) (submitted s) (rejected s)
  (panicked s) (next_job_id s) (receivers s) (cancelled s) (accepted s) (started s) (outcomes s) (results s).
Definition set_senders (b : bool) (n : nat) := Scheduler (stopping s) b n (queue s) (queue_depth s) (submitted s) (rejected s)
  (panicked s) (next_job_id s) (receivers s) (cancelled s) (accepted s) (started s) (outcomes s) (results s).
Definition set_queue (q : list QueuedJob) (a : list QueuedJob) := Scheduler (stopping s) (has_sender s) (senders s) q (queue_depth s)
  (submitted s) (rejected s) (panicked s) (next_job_id s) (receivers s) (cancelled s) a (started s) (outcomes s) (results s).
Definition set_depth (d : Z) := Scheduler (stopping s) (has_sender s) (senders s) (queue s) d (submitted s) (rejected s)
  (panicked s) (next_job_id s) (receivers s) (cancelled s) (accepted s) (started s) (outcomes s) (results s).
Definition set_counts (sub rej pan : Z) := Scheduler (stopping s) (has_sender s) (senders s) (queue s) (queue_depth s) sub rej pan
  (next_job_id s) (receivers s) (cancelled s) (accepted s) (started s) (outcomes s) (results s).
Definition set_next_id (n : Z) := Scheduler (stopping s) (has_sender s) (senders s) (queue s) (queue_depth s) (submitted s)
  (rejected s) (panicked s) n (receivers s) (cancelled s) (accepted s) (started s) (outcomes s) (results s).
Definition set_receivers (n : nat) := Scheduler (stopping s) (has_sender s) (senders s) (queue s) (queue_depth s) (submitted s)
  (rejected s) (panicked s) (next_job_id s) n (cancelled s) (accepted s) (started s) (outcomes s) (results s).
Definition set_cancelled (c : gset Z) := Scheduler (stopping s) (has_sender s) (senders s) (queue s) (queue_depth s) (submitted s)
  (rejected s) (panicked s) (next_job_id s) (receivers s) c (accepted s) (started s) (outcomes s) (results s).
Definition log_start (job : QueuedJob) := Scheduler (stopping s) (has_sender s) (senders s) (queue s) (queue_depth s) (submitted s)
  (rejected s) (panicked s) (next_job_id s) (receivers s) (cancelled s) (accepted s) (job :: started s) (outcomes s) (results s).
Definition log_outcome (job : QueuedJob) (o : JobOutcome) := Scheduler (stopping s) (has_sender s) (senders s) (queue s) (queue_depth s)
  (submitted s) (rejected s) (panicked s) (next_job_id s) (receivers s) (cancelled s) (accepted s) (started s)
  ((job, o) :: outcomes s) (results s).
Definition log_result (job : QueuedJob) (r : unit + JobExecutionError) := Scheduler (stopping s) (has_sender s) (senders s) (queue s)
  (queue_depth s) (submitted s) (rejected s) (panicked s) (next_job_id s) (receivers s) (cancelled s) (accepted s) (started s)
  (outcomes s) ((job, r) :: results s).
End fields.

Definition USIZE : Z := 2 ^ 64.
Definition fetch_add (depth : Z) : Z := (depth + 1) mod USIZE.
Definition fetch_sub (depth : Z) : Z := (depth - 1) mod USIZE.

(** [send_task_result]: only the first result is sent. *)
Definition send_task_result (s : scheduler) (job : QueuedJob) (r : unit + JobExecutionError) : scheduler :=
  if is_task job && negb (bool_decide (job ∈ map fst (results s))) then log_result s job r else s.

(** The callback of a task. *)
Definition outcome_error (outcome : JobOutcome) : JobExecutionError :=
  match outcome with Failed failure => ExecFailed failure | Completed | Cancelled => ExecCancelled end.

(** [SchedulerInner::submit_inner]. *)
Definition submit_inner (capacity : nat) (s : scheduler) (p : phase) : option (scheduler * phase) :=
  match p with
  | SubmitCheck task =>
      if stopping s then Some (s, SubmitReject ShuttingDown false) else Some (s, SubmitId task)
  | SubmitId task => Some (set_next_id s (next_job_id s + 1), SubmitClone (Queued (next_job_id s) task))
  | SubmitClone job =>
      if has_sender s then Some (set_senders s true (S (senders s)), SubmitCount job)
      else Some (s, SubmitReject ShuttingDown false)
  | SubmitCount job => Some (set_depth s (fetch_add (queue_depth s)), SubmitSend job)
  | SubmitSend job =>
      if (receivers s =? 0)%nat then Some (s, SubmitUndo ShuttingDown)
      else if (length (queue s) <? capacity)%nat
      then Some (set_queue s (queue s ++ [job]) (job :: accepted s), SubmitAccepted job)
      else Some (s, SubmitUndo QueueFull)
  | SubmitAccepted job =>
      Some (set_senders (set_counts s (submitted s + 1) (rejected s) (panicked s)) (has_sender s) (pred (senders s)), Submitted (inl job))
  | SubmitUndo reason => Some (set_depth s (fetch_sub (queue_depth s)), SubmitReject reason true)
  | SubmitReject reason sender =>
      let s := set_counts s (submitted s) (rejected s + 1) (panicked s) in
      Some (if sender then set_senders s (has_sender s) (pred (senders s)) else s, Submitted (inr reason))
  | _ => None
  end.

(** [worker_loop]; [panics] says whether the job or the callback panics.  A panicking
    callback ends its worker.  When it was the last one, the source drops the channel
    with the jobs in it; here they stay in [queue], where nobody receives them and
    where [SubmitSend] does not add to them: a job that is queued without receivers
    is one that was dropped, and it has no outcome in either case. *)
Definition worker_loop (s : scheduler) (p : phase) (panics : bool) : option (scheduler * phase) :=
  match p with
  | Receiving =>
      match queue s with
      | job :: rest => Some (set_queue s rest (accepted s), Received job)
      | [] => if (senders s =? 0)%nat then Some (set_receivers s (pred (receivers s)), Exited) else None
      end
  | Received job => Some (set_depth s (fetch_sub (queue_depth s)), CheckJob job)
  | CheckJob job => Some (s, if bool_decide (job_id job ∈ cancelled s) then Sending job Cancelled else CheckStop job)
  | CheckStop job => if stopping s then Some (s, Sending job Cancelled) else Some (log_start s job, Running job)
  | Running job => Some (s, if panics then CountPanic job else if is_task job then TaskJob job else RecheckJob job)
  | TaskJob job => Some (s, if bool_decide (job_id job ∈ cancelled s) then TaskSend job true else TaskStop job)
  | TaskStop job => Some (s, TaskSend job (stopping s))
  | TaskSend job c => Some (send_task_result s job (if c then inr ExecCancelled else inl tt), RecheckJob job)
  | RecheckJob job => Some (s, if bool_decide (job_id job ∈ cancelled s) then Sending job Cancelled else RecheckStop job)
  | RecheckStop job => Some (s, Sending job (if stopping s then Cancelled else Completed))
  | CountPanic job => Some (set_counts s (submitted s) (rejected s) (panicked s + 1), Sending job (Failed Panicked))
  | Sending job outcome => Some (log_outcome s job outcome, Reporting job outcome)
  | Reporting job outcome =>
      if is_task job then Some (send_task_result s job (inr (outcome_error outcome)), Receiving)
      else if panics then Some (set_receivers s (pred (receivers s)), Died)
      else Some (s, Receiving)
  | _ => None
  end.

(** [SchedulerInner::take_shutdown_workers]. *)
Definition take_shutdown_workers (s : scheduler) (p : phase) : option (scheduler * phase) :=
  match p with
  | ShutSwap => if stopping s then Some (s, ShutDone) else Some (set_stopping s true, ShutSender)
  | ShutSender =>
      Some (if has_sender s then set_senders s false (pred (senders s)) else s, ShutDone)
  | _ => None
  end.

Definition submitting (p : phase) : bool :=
  match p with
  | SubmitCheck _ | SubmitId _ | SubmitClone _ | SubmitCount _ | SubmitSend _ | SubmitAccepted _ | SubmitUndo _ | SubmitReject _ _ => true
  | _ => false
  end.

Definition advance (capacity : nat) (s : scheduler) (p : phase) (panics : bool) : option (scheduler * phase) :=
  if submitting p then submit_inner capacity s p
  else match p with ShutSwap | ShutSender => take_shutdown_workers s p | _ => worker_loop s p panics end.

Definition with_limits (worker_count : nat) : scheduler * list phase :=
  (Scheduler false true 1 [] 0 0 0 0 1 worker_count ∅ [] [] [] [], replicate worker_count Receiving).

(** One atomic operation of a thread. *)
Inductive thread_step (capacity : nat) : scheduler * list phase -> scheduler * list phase -> Prop :=
| thread_step_at s l1 p l2 panics s' p' : advance capacity s p panics = Some (s', p') ->
    thread_step capacity (s, l1 ++ p :: l2) (s', l1 ++ p' :: l2).

(** Also a call by a new thread, and [JobHandle::cancel]. *)
Inductive step (capacity : nat) : scheduler * list phase -> scheduler * list phase -> Prop :=
| step_thread st st' : thread_step capacity st st' -> step capacity st st'
| step_call s l p : p = SubmitCheck true \/ p = SubmitCheck false \/ p = ShutSwap -> step capacity (s, l) (s, p :: l)
| step_cancel s l id : step capacity (s, l) (set_cancelled s ({[id]} ∪ cancelled s), l).

Definition reachable (capacity workers : nat) (st : scheduler * list phase) : Prop :=
  rtc (step capacity) (with_limits workers) st.

(** ** What threads hold *)

Definition count (f : phase -> bool) (l : list phase) : Z := len (List.filter f l).

(** A unit of [queue_depth] that is not an entry of the queue. *)
Definition counted (p : phase) : bool := match p with SubmitSend _ | SubmitUndo _ | Received _ => true | _ => false end.
(** A clone of the sender. *)
Definition holds_sender (p : phase) : bool :=
  match p with SubmitCount _ | SubmitSend _ | SubmitAccepted _ | SubmitUndo _ | SubmitReject _ true => true | _ => false end.
(** A job that is not enqueued yet. *)
Definition offered (p : phase) : option QueuedJob :=
  match p with SubmitClone job | SubmitCount job | SubmitSend job => Some job | _ => None end.
(** A job that was received and has no outcome yet... *)
Definition in_hand (p : phase) : option QueuedJob :=
  match p with
  | Received job | CheckJob job | CheckStop job | Running job | TaskJob job | TaskStop job | TaskSend job _
  | RecheckJob job | RecheckStop job | CountPanic job | Sending job _ => Some job
  | _ => None
  end.
(** ... and one that has not been started. *)
Definition waiting (p : phase) : option QueuedJob :=
  match p with Received job | CheckJob job | CheckStop job => Some job | _ => None end.

(** A job whose outcome was sent and whose callback has not run. *)
Definition reporting (p : phase) : option QueuedJob := match p with Reporting job _ => Some job | _ => None end.
Definition exited (p : phase) : bool := match p with Exited => true | _ => false end.
Definition shutting (p : phase) : bool := match p with ShutSender => true | _ => false end.

Record inv (s : scheduler) (l : list phase) : Prop := {
  inv_depth : queue_depth s = (len (queue s) + count counted l) mod USIZE;
  inv_senders : Z.of_nat (senders s) = (if has_sender s then 1 else 0) + count holds_sender l;
  inv_ids : NoDup (map job_id (accepted s ++ omap offered l));
  inv_fresh : Forall (fun job => job_id job < next_job_id s) (accepted s ++ omap offered l);
  inv_flow : accepted s ≡ₚ queue s ++ omap in_hand l ++ map fst (outcomes s);
  inv_start : queue s ++ omap waiting l ++ started s ⊆+ accepted s;
  inv_reports : omap reporting l ⊆+ map fst (outcomes s);
  inv_results : NoDup (map fst (results s));
  inv_tasks job : job ∈ map fst (outcomes s) -> is_task job = true ->
    job ∈ map fst (results s) ++ omap reporting l;
  inv_exit : 0 < count exited l -> has_sender s = false /\ senders s = 0%nat /\ queue s = [];
  inv_stop : has_sender s = false -> stopping s = true;
  inv_shut : 0 < count shutting l -> stopping s = true
}.

(** The order of the threads does not matter. *)
Lemma inv_perm s l l' : l ≡ₚ l' -> inv s l -> inv s l'.
Proof.
  intros Hl [H1 H2 H3 H4 H5 H6 H11 H7 H8 H9 H10 H12].
  assert (Hc : forall f, count f l' = count f l).
  { intros f. unfold count. f_equal. apply Permutation_length. symmetry.
    clear -Hl. induction Hl as [| p l l' Hl IH | p q l | l1 l2 l3 _ IH1 _ IH2]; cbn.
    - done.
    - destruct (f p); [by constructor | done].
    - destruct (f p), (f q); try done. apply perm_swap.
    - by transitivity (List.filter f l2). }
  assert (Ho : forall A (f : phase -> option A), omap f l' ≡ₚ omap f l) by (intros A f; by rewrite Hl).
  split; rewrite ?Hc; try done.
  - eapply NoDup_Permutation_proper; [| exact H3]. apply Permutation_map. by rewrite Ho.
  - by rewrite (Ho _ offered).
  - by rewrite H5, (Ho _ in_hand).
  - by rewrite (Ho _ waiting).
  - by rewrite (Ho _ reporting).
  - intros job Hj Ht. rewrite (Ho _ reporting). by apply H8.
Qed.

Lemma count_cons f p l : count f (p :: l) = (if f p then 1 else 0) + count f l.
Proof. unfold count. cbn [List.filter]. destruct (f p); cbn [length]; lia. Qed.
Lemma count_bound f l : 0 <= count f l.
Proof. unfold count. lia. Qed.

(** An atomic update of the depth follows the number it counts. *)
Lemma fetch_add_mod n : fetch_add (n mod USIZE) = (n + 1) mod USIZE.
Proof. unfold fetch_add. by rewrite Zplus_mod_idemp_l. Qed.
Lemma fetch_sub_mod n : fetch_sub (n mod USIZE) = (n - 1) mod USIZE.
Proof. unfold fetch_sub. by rewrite Zminus_mod_idemp_l. Qed.

(** A job leaves the offered ones, or is enqueued. *)
Create HintDb jobs.
Lemma nodup_move (job : QueuedJob) l l' : NoDup (map job_id (l ++ job :: l')) -> NoDup (job_id job :: map job_id (l ++ l')).
Proof. apply NoDup_Permutation_proper. change (job_id job :: ?m) with (map job_id (job :: l ++ l')). apply Permutation_map. by rewrite Permutation_middle. Qed.
Lemma nodup_drop (job : QueuedJob) l l' : NoDup (map job_id (l ++ job :: l')) -> NoDup (map job_id (l ++ l')).
Proof. by intros [_ H]%nodup_move%NoDup_cons. Qed.
Lemma forall_move (P : QueuedJob -> Prop) job l l' : Forall P (l ++ job :: l') -> Forall P (job :: l ++ l').
Proof. by rewrite Permutation_middle. Qed.
Lemma forall_drop (P : QueuedJob -> Prop) job l l' : Forall P (l ++ job :: l') -> Forall P (l ++ l').
Proof. by intros [_ H]%forall_move%Forall_cons. Qed.
Lemma flow_push (job : QueuedJob) a q r : a ≡ₚ q ++ r -> job :: a ≡ₚ (q ++ [job]) ++ r.
Proof. intros ->. rewrite <- app_assoc. cbn [app]. by rewrite <- Permutation_middle. Qed.
Lemma start_push (job : QueuedJob) a q r : q ++ r ⊆+ a -> (q ++ [job]) ++ r ⊆+ job :: a.
Proof. intros H. rewrite <- app_assoc. cbn [app]. rewrite <- Permutation_middle. by apply submseteq_skip. Qed.

Lemma nodup_new (n : Z) (task : bool) l l' :
  Forall (fun job => job_id job < n) (l ++ l') -> NoDup (map job_id (l ++ l')) -> NoDup (map job_id (l ++ Queued n task :: l')).
Proof.
  intros Hf Hn. apply (NoDup_Permutation_proper _ (map job_id (Queued n task :: l ++ l'))).
  { apply Permutation_map. symmetry. apply Permutation_middle. }
  apply NoDup_cons. split; [| done]. intros [job [Hj Hin]]%list_elem_of_fmap. cbn in Hj.
  rewrite Forall_forall in Hf. specialize (Hf _ Hin). cbn in Hf. lia.
Qed.
Lemma forall_new (n : Z) (task : bool) l l' :
  Forall (fun job => job_id job < n) (l ++ l') -> Forall (fun job => job_id job < n + 1) (l ++ Queued n task :: l').
Proof.
  intros Hf. rewrite <- Permutation_middle. constructor; [cbn; lia |].
  eapply Forall_impl; [exact Hf | cbn; lia].
Qed.

(** The fields of an updated scheduler, and what the first thread contributes. *)
Ltac fields :=
  cbn [stopping has_sender senders queue queue_depth submitted rejected panicked next_job_id receivers cancelled accepted
       started outcomes results set_stopping set_senders set_queue set_depth set_counts set_next_id set_receivers
       set_cancelled log_start log_outcome log_result counted holds_sender offered in_hand waiting reporting exited shutting omap list_omap
       app map fst snd job_id is_task] in *.

(** The branches of one operation. *)
Ltac branches H :=
  repeat match type of H with
  | context [if ?b then _ else _] => destruct b eqn:?
  | context [match queue ?s with _ => _ end] => destruct (queue s) eqn:?
  end; simplify_eq.

(** The two counters and the end of the channel, at a step of the first thread. *)
Ltac counters :=
  match goal with
  | |- _ = _ mod USIZE =>
      try match goal with H : queue_depth _ = _ mod USIZE |- _ => rewrite H end;
      rewrite ?fetch_add_mod, ?fetch_sub_mod, ?length_app; cbn [length]; f_equal; lia
  | |- Z.of_nat _ = _ =>
      repeat match goal with |- context [if has_sender ?s then _ else _] => destruct (has_sender s) eqn:? end; lia
  | |- _ -> stopping _ = true =>
      let He := fresh in intros He;
      match goal with
      | H : has_sender _ = false -> stopping _ = true |- _ => by rewrite H
      | H : 0 < _ -> stopping _ = true |- _ => rewrite H by lia; done
      | H : 0 < _ -> false = true |- _ => discriminate (H ltac:(lia))
      | H : has_sender _ = false -> false = true |- _ => by destruct (H He)
      end
  | |- 0 < _ -> _ =>
      let He := fresh in intros He;
      match goal with H : 0 < _ -> _ /\ _ |- _ => destruct H as (? & ? & ?); [lia |] end;
      try discriminate;
      try match goal with H : Z.of_nat _ = (if ?b then _ else _) + _, E : ?b = false |- _ => rewrite E in H end;
      repeat split; first [done | lia]
  end.
#[local] Hint Resolve nodup_move nodup_new forall_move forall_new flow_push start_push | 0 : jobs.
#[local] Hint Resolve nodup_drop forall_drop | 5 : jobs.
Ltac frame := rewrite ?count_cons in *; fields; first [done | assumption | counters | solve [eauto with jobs]].

Lemma inv_submit capacity s p l s' p' :
  submit_inner capacity s p = Some (s', p') -> inv s (p :: l) -> inv s' (p' :: l).
Proof.
  intros Ha [H1 H2 H3 H4 H5 H6 H11 H7 H8 H9 H10 H12]. pose proof (count_bound holds_sender l).
  destruct p; try discriminate Ha; cbn [submit_inner] in Ha; branches Ha; split; by frame.
Qed.

Lemma inv_send s job r l : inv s l -> inv (send_task_result s job r) l.
Proof.
  unfold send_task_result. intros Hi. destruct (is_task job), (bool_decide (job ∈ map fst (results s))) eqn:E; try exact Hi.
  apply bool_decide_eq_false in E. destruct Hi as [H1 H2 H3 H4 H5 H6 H11 H7 H8 H9 H10 H12]. split; try done.
  - by constructor.
  - intros j Hj Ht. apply elem_of_cons. right. by apply H8.
Qed.

Lemma send_task_result_in s job r : is_task job = true -> job ∈ map fst (results (send_task_result s job r)).
Proof.
  intros Ht. unfold send_task_result. rewrite Ht. case_bool_decide; [done |]. cbn. left.
Qed.

(** The callback of a job that is not a task, or of a task with a result. *)
Lemma inv_report s job o l p' :
  (is_task job = true -> job ∈ map fst (results s)) -> p' = Receiving \/ p' = Died -> inv s (Reporting job o :: l) -> inv s (p' :: l).
Proof.
  intros Hr Hp [H1 H2 H3 H4 H5 H6 H11 H7 H8 H9 H10 H12].
  destruct Hp; subst p'; split; try (by frame); fields.
  1,3: etrans; [| exact H11]; apply submseteq_cons; reflexivity.
  all: intros j Hj Ht; specialize (H8 j Hj Ht); rewrite elem_of_app, elem_of_cons in H8; rewrite elem_of_app;
    destruct H8 as [| [-> |]]; auto.
Qed.

Lemma inv_shutdown s p l s' p' :
  take_shutdown_workers s p = Some (s', p') -> inv s (p :: l) -> inv s' (p' :: l).
Proof.
  intros Ha [H1 H2 H3 H4 H5 H6 H11 H7 H8 H9 H10 H12].
  pose proof (count_bound holds_sender l). pose proof (count_bound shutting l).
  destruct p; try discriminate Ha; cbn [take_shutdown_workers] in Ha; branches Ha; split; by frame.
Qed.

(** The operations of a worker that move a job. *)
Lemma inv_receive s job rest l : queue s = job :: rest -> inv s (Receiving :: l) -> inv (set_queue s rest (accepted s)) (Received job :: l).
Proof.
  intros Hq [H1 H2 H3 H4 H5 H6 H11 H7 H8 H9 H10 H12]. rewrite Hq in *. split; try (by frame); fields.
  - rewrite H5. apply Permutation_middle.
  - rewrite <- H6. cbn. by rewrite <- Permutation_middle.
Qed.

Lemma inv_end s l : queue s = [] -> senders s = 0%nat -> inv s (Receiving :: l) -> inv (set_receivers s (pred (receivers s))) (Exited :: l).
Proof.
  intros Hq Hs [H1 H2 H3 H4 H5 H6 H11 H7 H8 H9 H10 H12]. pose proof (count_bound holds_sender l). split; try (by frame); fields.
  intros _. rewrite count_cons in H2. cbn in H2. destruct (has_sender s); [lia | done].
Qed.

Lemma inv_skip s job l : inv s (CheckJob job :: l) \/ inv s (CheckStop job :: l) -> inv s (Sending job Cancelled :: l).
Proof.
  intros [[H1 H2 H3 H4 H5 H6 H11 H7 H8 H9 H10 H12] | [H1 H2 H3 H4 H5 H6 H11 H7 H8 H9 H10 H12]]; split; try (by frame); fields;
    rewrite <- H6; apply submseteq_skips_l, submseteq_cons; reflexivity.
Qed.

Lemma inv_begin s job l : inv s (CheckStop job :: l) -> inv (log_start s job) (Running job :: l).
Proof.
  intros [H1 H2 H3 H4 H5 H6 H11 H7 H8 H9 H10 H12]. split; try (by frame); fields.
  rewrite <- H6. apply submseteq_skips_l. by rewrite <- Permutation_middle.
Qed.

Lemma inv_outcome s job o l : inv s (Sending job o :: l) -> inv (log_outcome s job o) (Reporting job o :: l).
Proof.
  intros [H1 H2 H3 H4 H5 H6 H11 H7 H8 H9 H10 H12]. split; try (by frame); fields.
  - rewrite H5. apply Permutation_app_head, Permutation_middle.
  - by apply submseteq_skip.
  - intros j Hj Ht. rewrite elem_of_app, elem_of_cons. apply elem_of_cons in Hj as [-> | Hj]; [auto |].
    specialize (H8 j Hj Ht). rewrite elem_of_app in H8. tauto.
Qed.

Lemma inv_worker s p panics l s' p' :
  worker_loop s p panics = Some (s', p') -> inv s (p :: l) -> inv s' (p' :: l).
Proof.
  intros Ha Hi. destruct p; try discriminate Ha; cbn [worker_loop] in Ha.
  1: { destruct (queue s) eqn:Hq; branches Ha; [| by apply inv_receive]. apply inv_end; try done. by apply Nat.eqb_eq. }
  2: { branches Ha; [by apply inv_skip; left | destruct Hi; split; by frame]. }
  2: { branches Ha; [by apply inv_skip; right | by apply inv_begin]. }
  5: { simplify_eq. apply inv_send. destruct Hi; split; by frame. }
  8: { simplify_eq. by apply inv_outcome. }
  8: { destruct (is_task job) eqn:Et; branches Ha.
       - apply (inv_report _ job outcome); [intros _; by apply send_task_result_in | by left | by apply inv_send].
       - assert (Hd : inv s (Died :: l)) by (apply (inv_report s job outcome); [congruence | by right | done]).
         destruct Hd; split; by frame.
       - apply (inv_report s' job outcome); [congruence | by left | done]. }
  all: branches Ha; destruct Hi; split; by frame.
Qed.

Lemma inv_advance capacity s p panics l s' p' :
  advance capacity s p panics = Some (s', p') -> inv s (p :: l) -> inv s' (p' :: l).
Proof.
  unfold advance. destruct (submitting p) eqn:E; [apply inv_submit |].
  destruct p; try apply inv_worker; apply inv_shutdown.
Qed.

Lemma inv_step capacity st st' : step capacity st st' -> inv st.1 st.2 -> inv st'.1 st'.2.
Proof.
  intros [_ _ [s l1 p l2 panics s' p' Ha] | s l p Hp | s l id] Hi; cbn [fst snd] in *.
  - apply (inv_perm _ (p' :: l1 ++ l2)); [apply Permutation_middle |]. eapply inv_advance; [exact Ha |].
    eapply inv_perm; [| exact Hi]. symmetry. apply Permutation_middle.
  - destruct Hp as [-> | [-> | ->]]; destruct Hi; split; by frame.
  - destruct Hi; split; by frame.
Qed.

Lemma inv_start_state workers : inv (with_limits workers).1 (with_limits workers).2.
Proof.
  cbn [with_limits fst snd].
  assert (Hc : forall f, f Receiving = false -> count f (replicate workers Receiving) = 0).
  { intros f Hf. induction workers as [| n IH]; [done |]. cbn [replicate]. by rewrite count_cons, Hf, IH. }
  assert (Ho : forall f : phase -> option QueuedJob, f Receiving = None -> omap f (replicate workers Receiving) = []).
  { intros f Hf. clear Hc. induction workers as [| n IH]; [done |]. cbn [replicate omap list_omap]. rewrite Hf. exact IH. }
  split; cbn [queue_depth queue senders has_sender accepted outcomes started results stopping next_job_id map fst app];
    rewrite ?Hc, ?Ho by done; try done; try lia; try (by constructor).
Qed.

Lemma inv_reachable capacity workers st : reachable capacity workers st -> inv st.1 st.2.
Proof.
  revert st. apply (rtc_ind_r (fun st => inv st.1 st.2)); [apply inv_start_state |].
  intros st st' _ Hs IH. by eapply inv_step.
Qed.
