(* ===== verification/BlockingJobsSpec.v ===== *)
(** What the scheduler of BlockingJobs.v promises: every accepted job has one outcome
    that fits what happened to it, every task one result that fits its outcome, the
    queue stays within its capacity and its depth is exact, and a scheduler that is
    shutting down finishes with nothing left. *)
From stdpp Require Import base list numbers gmap.
From Stdlib Require Import ZArith Lia.
From S2P Require Import Prelude BlockingJobs.

(** ** Fates of jobs *)

Definition is_cancelled (s : scheduler) (job : QueuedJob) : Prop := job_id job ∈ cancelled s \/ stopping s = true.

(** What an outcome says of a job. *)
Definition outcome_ok (s : scheduler) (job : QueuedJob) (o : JobOutcome) : Prop :=
  match o with Completed | Failed _ => job ∈ started s | Cancelled => is_cancelled s job end.

(** The results of a task that fit its outcome. *)
Definition result_fits (o : JobOutcome) (r : unit + JobExecutionError) : Prop :=
  match o with
  | Completed => r = inl tt
  | Cancelled => r = inl tt \/ r = inr ExecCancelled
  | Failed failure => r = inr (ExecFailed failure)
  end.

Definition unanswered (s : scheduler) (job : QueuedJob) : Prop := job ∉ map fst (results s).

(** What a thread may rely on about the job it holds. *)
Definition thread_ok (s : scheduler) (p : phase) : Prop :=
  match p with
  | Received job | CheckJob job | CheckStop job => unanswered s job
  | Running job | TaskJob job | TaskStop job | CountPanic job => unanswered s job /\ job ∈ started s
  | TaskSend job c => unanswered s job /\ job ∈ started s /\ (c = true -> is_cancelled s job)
  | RecheckJob job => job ∈ started s /\ (is_task job = true ->
      (job, inl tt) ∈ results s \/ (job, inr ExecCancelled) ∈ results s /\ is_cancelled s job)
  | RecheckStop job => job ∈ started s /\ (is_task job = true ->
      (job, inl tt) ∈ results s \/ (job, inr ExecCancelled) ∈ results s /\ stopping s = true)
  | Sending job o | Reporting job o => outcome_ok s job o /\ (is_task job = true ->
      match o with
      | Completed => (job, inl tt) ∈ results s
      | Failed _ => unanswered s job
      | Cancelled => forall r, (job, r) ∈ results s -> r = inl tt \/ r = inr ExecCancelled
      end)
  | _ => True
  end.

Record fates (s : scheduler) (l : list phase) : Prop := {
  fates_threads : Forall (thread_ok s) l;
  fates_results job r : (job, r) ∈ results s -> job ∈ omap in_hand l ++ map fst (outcomes s);
  fates_outcomes job o : (job, o) ∈ outcomes s -> outcome_ok s job o /\
    (is_task job = true -> (exists r, (job, r) ∈ results s /\ result_fits o r) \/ Reporting job o ∈ l)
}.

(** The job a thread works on, until its callback has run. *)
Definition held (p : phase) : option QueuedJob :=
  match in_hand p with Some job => Some job | None => reporting p end.

Lemma omap_held l : omap held l ≡ₚ omap in_hand l ++ omap reporting l.
Proof.
  induction l as [| p l IH]; [done |]. destruct p; cbn; try exact IH; by rewrite IH, ?Permutation_middle.
Qed.

Lemma nodup_submseteq {A : Type} (l k : list A) : l ⊆+ k -> NoDup k -> NoDup l.
Proof. intros [m Hm]%submseteq_Permutation Hk. rewrite Hm in Hk. by apply NoDup_app in Hk as [? _]. Qed.

Lemma accepted_nodup s l : inv s l -> NoDup (accepted s).
Proof. intros Hi. apply (NoDup_fmap_1 job_id). apply inv_ids in Hi. rewrite map_app, NoDup_app in Hi. by destruct Hi. Qed.

(** No two threads work on one job, and a job in the queue is nobody's. *)
Lemma held_nodup s l : inv s l -> NoDup (omap held l).
Proof.
  intros Hi. apply (nodup_submseteq _ (accepted s)); [| by eapply accepted_nodup].
  rewrite omap_held, (inv_flow s l Hi). apply submseteq_inserts_l, submseteq_app; [done | by eapply inv_reports].
Qed.

Lemma queued_unanswered s l job : inv s l -> fates s l -> job ∈ queue s -> unanswered s job.
Proof.
  intros Hi Hf Hq [[j r] [-> Hr]]%list_elem_of_fmap. apply (fates_results s l Hf) in Hr. cbn in *.
  pose proof (accepted_nodup s l Hi) as Hn.
  rewrite (inv_flow s l Hi) in Hn. apply NoDup_app in Hn as (_ & Hn & _). by apply (Hn j).
Qed.

(** What a step may do to the threads that do not take it: [job] is the one it works on. *)
Record extends (s s' : scheduler) (job : option QueuedJob) : Prop := {
  ext_started j : j ∈ started s -> j ∈ started s';
  ext_cancelled j : is_cancelled s j -> is_cancelled s' j;
  ext_stopping : stopping s = true -> stopping s' = true;
  ext_grow e : e ∈ results s -> e ∈ results s';
  ext_results j r : (j, r) ∈ results s' -> (j, r) ∈ results s \/ Some j = job
}.

Lemma extends_unanswered s s' job j : extends s s' job -> Some j <> job -> unanswered s j -> unanswered s' j.
Proof.
  intros He Hj Hu [[j' r] [-> Hr]]%list_elem_of_fmap. cbn in *. apply (ext_results _ _ _ He) in Hr as [Hr | Hr]; [| done].
  apply Hu. by apply (list_elem_of_fmap_2 fst) in Hr.
Qed.

Lemma extends_outcome s s' job j o : extends s s' job -> outcome_ok s j o -> outcome_ok s' j o.
Proof. intros He. destruct o; cbn; [apply (ext_started _ _ _ He) | apply (ext_cancelled _ _ _ He) | apply (ext_started _ _ _ He)]. Qed.

Lemma extends_thread s s' job p : extends s s' job -> (forall j, held p = Some j -> Some j <> job) -> thread_ok s p -> thread_ok s' p.
Proof.
  intros He Hj. assert (Hu := fun j => extends_unanswered s s' job j He). assert (Ho := fun j o => extends_outcome s s' job j o He).
  destruct He as [H1 H2 H3 H4 H5]. destruct p; cbn; try done; specialize (Hj _ eq_refl); intros Hp; destruct_and?; split_and?; auto.
  1,2: intros Ht; destruct (H0 Ht) as [| []]; auto.
  all: intros Ht; specialize (H0 Ht); destruct outcome; auto; intros r [Hr | Hr]%H5; auto; congruence.
Qed.

Lemma owned_cons p l (out : list QueuedJob) j :
  j ∈ omap in_hand (p :: l) ++ out <-> (in_hand p = Some j \/ j ∈ out) \/ j ∈ omap in_hand l.
Proof. cbn. destruct (in_hand p); rewrite ?elem_of_app, ?elem_of_cons; split; intuition congruence. Qed.

(** A step that leaves the other threads alone keeps the fates. *)
Lemma fates_frame s p l s' p' :
  inv s (p :: l) -> fates s (p :: l) -> extends s s' (held p) -> thread_ok s' p' ->
  (forall j, in_hand p = Some j \/ j ∈ map fst (outcomes s) -> in_hand p' = Some j \/ j ∈ map fst (outcomes s')) ->
  (forall j o, (j, o) ∈ outcomes s' -> (j, o) ∈ outcomes s \/ p' = Reporting j o) ->
  (forall j o, p = Reporting j o -> is_task j = true -> exists r, (j, r) ∈ results s' /\ result_fits o r) ->
  fates s' (p' :: l).
Proof.
  intros Hi [Ht Hr Ho] He Hp Hh Hn Hs. apply Forall_cons in Ht as [_ Ht]. split.
  - apply Forall_cons. split; [done |]. rewrite Forall_forall in *. intros q Hq.
    eapply extends_thread; [exact He | | by apply Ht]. intros j Hj Hp'.
    pose proof (held_nodup _ _ Hi) as Hd. cbn in Hd. rewrite <- Hp' in Hd. apply NoDup_cons in Hd as [Hd _].
    apply Hd, list_elem_of_omap. by exists q.
  - intros j r [Hj | Hj]%(ext_results _ _ _ He).
    + apply Hr, owned_cons in Hj. apply owned_cons. destruct Hj as [Hj |]; [left; by apply Hh | by right].
    + apply owned_cons. left. apply Hh. unfold held in Hj. destruct (in_hand p) eqn:Eh; [left; congruence | right].
      eapply elem_of_submseteq; [| exact (inv_reports _ _ Hi)]. cbn. rewrite <- Hj. left.
  - intros j o [Hj | ->]%Hn; [| destruct Hp as [Hp _]; split; [exact Hp | intros _; right; left]].
    apply Ho in Hj as [Hj Hx]. split; [by eapply extends_outcome |]. intros Ht'.
    destruct (Hx Ht') as [[r [Hin Hf]] | [Hin | Hin]%elem_of_cons].
    + left. exists r. split; [by apply (ext_grow _ _ _ He) | done].
    + left. by apply Hs.
    + right. by right.
Qed.

Lemma send_results s job r e :
  e ∈ results (send_task_result s job r) <-> e ∈ results s \/ (is_task job = true /\ unanswered s job /\ e = (job, r)).
Proof.
  unfold send_task_result, unanswered. destruct (is_task job); cbn; [| intuition congruence].
  case_bool_decide; cbn; rewrite ?elem_of_cons; intuition congruence.
Qed.

Lemma extends_same s s' job : (forall j, j ∈ started s -> j ∈ started s') -> cancelled s ⊆ cancelled s' ->
  (stopping s = true -> stopping s' = true) -> results s' = results s -> extends s s' job.
Proof.
  intros H1 H2 H3 H4. split; rewrite ?H4; auto.
  intros j [Hj | Hj]; [left; by apply H2 | right; by apply H3].
Qed.

Lemma extends_send s job r : extends s (send_task_result s job r) (Some job).
Proof.
  assert (Hs : started (send_task_result s job r) = started s /\ cancelled (send_task_result s job r) = cancelled s /\
               stopping (send_task_result s job r) = stopping s).
  { unfold send_task_result. by destruct (_ && _). }
  destruct Hs as (H1 & H2 & H3). split; unfold is_cancelled; rewrite ?H1, ?H2, ?H3; auto.
  - intros e He. apply send_results. by left.
  - intros j r' [Hj | (_ & _ & Hj)]%send_results; [by left | right; congruence].
Qed.

Lemma answered s job : ~ unanswered s job -> exists r, (job, r) ∈ results s.
Proof.
  intros Hn. destruct (decide (job ∈ map fst (results s))) as [[[j r] [-> Hr]]%list_elem_of_fmap | Hx]; [by exists r | done].
Qed.

(** The callback of a task leaves it with a result that fits. *)
Lemma report_settles s job o :
  thread_ok s (Reporting job o) -> is_task job = true ->
  exists r, (job, r) ∈ results (send_task_result s job (inr (outcome_error o))) /\ result_fits o r.
Proof.
  intros [_ Hp] Ht. specialize (Hp Ht). setoid_rewrite send_results. destruct o as [| | f]; cbn.
  - exists (inl tt). auto.
  - destruct (decide (job ∈ map fst (results s))) as [Ha | Hu].
    + destruct (answered s job) as [r Hr]; [by intros [] |]. exists r. auto.
    + exists (inr ExecCancelled). auto 10.
  - exists (inr (ExecFailed f)). auto 10.
Qed.

(** The branches of the operation a thread performs. *)
Ltac operation H :=
  unfold advance in H;
  match type of H with context [submitting ?p] => destruct p; cbn [submitting submit_inner worker_loop take_shutdown_workers] in H end;
  try discriminate H; branches H.

Lemma advance_extends capacity s p panics s' p' : advance capacity s p panics = Some (s', p') -> extends s s' (held p).
Proof.
  intros Ha. operation Ha; try apply extends_send; apply extends_same; cbn; auto; try done; try set_solver.
Qed.

Lemma send_outcomes s job r : outcomes (send_task_result s job r) = outcomes s.
Proof. unfold send_task_result. by destruct (_ && _). Qed.

Lemma advance_owned capacity s p panics s' p' j : advance capacity s p panics = Some (s', p') ->
  in_hand p = Some j \/ j ∈ map fst (outcomes s) -> in_hand p' = Some j \/ j ∈ map fst (outcomes s').
Proof.
  intros Ha. operation Ha; rewrite ?send_outcomes; cbn; try tauto; try (intros [|]; [congruence | tauto]).
  all: rewrite ?elem_of_cons; intros [|]; [right; left; congruence | tauto].
Qed.

Lemma advance_outcomes capacity s p panics s' p' j o : advance capacity s p panics = Some (s', p') ->
  (j, o) ∈ outcomes s' -> (j, o) ∈ outcomes s \/ p' = Reporting j o.
Proof.
  intros Ha. operation Ha; rewrite ?send_outcomes; cbn; try tauto.
  intros [|]%elem_of_cons; [right; congruence | tauto].
Qed.

Lemma result_unique s l job r r' : inv s l -> (job, r) ∈ results s -> (job, r') ∈ results s -> r' = r.
Proof.
  intros Hi%inv_results. generalize (results s), Hi. clear. intros k Hk. induction k as [| [j q] k IH]; [by intros []%not_elem_of_nil |].
  cbn in Hk. apply NoDup_cons in Hk as [Hj Hk]. rewrite !elem_of_cons.
  assert (Hx : forall x, (j, x) ∉ k) by (intros x Hx; apply Hj; by apply (list_elem_of_fmap_2 fst) in Hx).
  intros [? | H1] [? | H2]; simplify_eq; try done; [by destruct (Hx r') | by destruct (Hx r) | by apply IH].
Qed.

(** A cancelled job: without a result, or with one that fits. *)
Lemma unanswered_none s job r : unanswered s job -> (job, r) ∈ results s -> False.
Proof. intros Hu Hr. apply Hu. by apply (list_elem_of_fmap_2 fst) in Hr. Qed.

Lemma advance_thread_ok capacity s p panics l s' p' : advance capacity s p panics = Some (s', p') ->
  inv s (p :: l) -> fates s (p :: l) -> thread_ok s' p'.
Proof.
  intros Ha Hi Hf. pose proof (fates_threads _ _ Hf) as Hp. apply Forall_cons in Hp as [Hp _].
  pose proof (fun job r r' => result_unique s (p :: l) job r r' Hi) as Hr.
  pose proof (fun job => queued_unanswered s (p :: l) job Hi Hf) as Hq.
  pose proof (unanswered_none s) as Hn.
  destruct (advance_extends _ _ _ _ _ _ Ha) as [E1 E2 _ _ _].
  operation Ha; cbn in *; try done; try (apply Hq; rewrite Heql0; left);
    repeat match goal with H : bool_decide _ = _ |- _ => apply bool_decide_eq_true in H || apply bool_decide_eq_false in H end;
    destruct_and?; split_and?; try done; try (by left); try (by right); auto.
  all: try (intros Ht r Hin; by destruct (Hn _ _ Hp Hin)).
  all: try (intros Ht; rewrite !send_results; auto 10).
  1,2: apply Hq; left.
  1: congruence.
  1,3: intros Ht r Hin; destruct (H0 Ht) as [Hx | [Hx _]]; rewrite (Hr _ _ _ Hx Hin); auto.
  all: intros Ht; destruct (H0 Ht) as [| [? Hx]]; auto; try congruence. destruct Hx; [done | auto].
Qed.

Lemma fates_advance capacity s p panics l s' p' :
  advance capacity s p panics = Some (s', p') -> inv s (p :: l) -> fates s (p :: l) -> fates s' (p' :: l).
Proof.
  intros Ha Hi Hf. pose proof (fates_threads _ _ Hf) as Hp. apply Forall_cons in Hp as [Hp _].
  apply (fates_frame s p l s' p' Hi Hf).
  - by eapply advance_extends.
  - by eapply advance_thread_ok.
  - intros j. by eapply advance_owned.
  - intros j o. by eapply advance_outcomes.
  - intros j o -> Ht. cbn in Ha. rewrite Ht in Ha. simplify_eq. by apply report_settles.
Qed.

Lemma fates_perm s l l' : l ≡ₚ l' -> fates s l -> fates s l'.
Proof. intros Hl [H1 H2 H3]. by split; setoid_rewrite <- Hl. Qed.

Lemma fates_step capacity st st' : step capacity st st' -> inv st.1 st.2 -> fates st.1 st.2 -> fates st'.1 st'.2.
Proof.
  intros [_ _ [s l1 p l2 panics s' p' Ha] | s l p Hp | s l id] Hi Hf; cbn [fst snd] in *.
  - assert (Hl : forall q, l1 ++ q :: l2 ≡ₚ q :: l1 ++ l2) by (intros q; symmetry; apply Permutation_middle).
    apply (fates_perm _ (p' :: l1 ++ l2)); [by rewrite Hl |].
    apply (fates_advance _ _ _ _ _ _ _ Ha); [apply (inv_perm _ _ _ (Hl p) Hi) | apply (fates_perm _ _ _ (Hl p) Hf)].
  - destruct Hf as [H1 H2 H3]. split; [by constructor; [destruct Hp as [-> | [-> | ->]] |] | |].
    + intros j r Hr. apply owned_cons. specialize (H2 j r Hr). rewrite elem_of_app in H2. tauto.
    + intros j o Ho. destruct (H3 j o Ho) as [Ha Hb]. split; [done |]. intros Ht.
      destruct (Hb Ht); [by left | right; by right].
  - assert (He : extends s (set_cancelled s ({[id]} ∪ cancelled s)) None) by (apply extends_same; cbn; auto; set_solver).
    destruct Hf as [H1 H2 H3]. split.
    + eapply Forall_impl; [exact H1 |]. intros p. by apply (extends_thread _ _ _ _ He).
    + exact H2.
    + intros j o Ho. destruct (H3 j o Ho). split; [by eapply extends_outcome | done].
Qed.

Lemma reachable_fates capacity workers st : reachable capacity workers st -> inv st.1 st.2 /\ fates st.1 st.2.
Proof.
  intros Hr. split; [by eapply inv_reachable |]. revert st Hr. apply (rtc_ind_r (fun st => fates st.1 st.2)).
  - cbn. split; cbn; [| by intros ? ? []%not_elem_of_nil | by intros ? ? []%not_elem_of_nil].
    apply Forall_forall. by intros p [-> _]%elem_of_replicate.
  - intros st st' Hr Hs IH. eapply fates_step; [exact Hs | by eapply inv_reachable | exact IH].
Qed.

(** ** Bounds *)

(** A job that is in the queue and not yet in the statistics. *)
Definition unbooked (p : phase) : bool := match p with SubmitAccepted _ => true | _ => false end.

Record booked (capacity : nat) (s : scheduler) (l : list phase) : Prop := {
  booked_capacity : (length (queue s) <= capacity)%nat;
  booked_submitted : len (accepted s) = submitted s + count unbooked l
}.

Lemma count_perm f l l' : l ≡ₚ l' -> count f l = count f l'.
Proof.
  intros Hl. induction Hl as [| p l l' _ IH | p q l | l1 l2 l3 _ IH1 _ IH2]; rewrite ?count_cons; lia.
Qed.

Lemma booked_advance capacity s p panics l s' p' :
  advance capacity s p panics = Some (s', p') -> booked capacity s (p :: l) -> booked capacity s' (p' :: l).
Proof.
  intros Ha [H1 H2]. rewrite count_cons in H2.
  operation Ha; unfold send_task_result; try destruct (_ && _); split; rewrite ?count_cons;
    fields; cbn [unbooked length] in *; rewrite ?Heql0; cbn [length]; try lia.
  all: apply Nat.ltb_lt in Heqb0; rewrite length_app; cbn [length]; lia.
Qed.

Lemma reachable_booked capacity workers st : reachable capacity workers st -> booked capacity st.1 st.2.
Proof.
  revert st. apply (rtc_ind_r (fun st => booked capacity st.1 st.2)).
  - split; cbn; [lia |]. induction workers as [| n IH]; [done |]. cbn [replicate]. by rewrite count_cons.
  - intros st st' _ [_ _ [s l1 p l2 panics s' p' Ha] | s l p Hp | s l id] Hb; cbn [fst snd] in *.
    + assert (Hl : forall q, count unbooked (l1 ++ q :: l2) = count unbooked (q :: l1 ++ l2))
        by (intros q; apply count_perm; symmetry; apply Permutation_middle).
      destruct Hb as [H1 H2]. rewrite Hl in H2.
      destruct (booked_advance _ _ _ _ (l1 ++ l2) _ _ Ha) as [H3 H4]; [by split |]. split; [done |]. by rewrite Hl.
    + destruct Hb as [H1 H2]. split; [done |]. rewrite count_cons. by destruct Hp as [-> | [-> | ->]].
    + by destruct Hb.
Qed.

(** ** Termination *)

(** A bound on the operations a thread has left, jobs still to be received apart. *)
Definition remaining (p : phase) : nat :=
  match p with
  | SubmitCheck _ => 24 | SubmitId _ => 23 | SubmitClone _ => 22 | SubmitCount _ => 21 | SubmitSend _ => 20
  | SubmitAccepted _ => 4 | SubmitUndo _ => 4 | SubmitReject _ _ => 3 | Submitted _ => 0
  | Receiving => 1 | Received _ => 15 | CheckJob _ => 14 | CheckStop _ => 13 | Running _ => 12 | TaskJob _ => 11
  | TaskStop _ => 10 | TaskSend _ _ => 9 | RecheckJob _ => 8 | RecheckStop _ => 7 | CountPanic _ => 7
  | Sending _ _ => 4 | Reporting _ _ => 3 | Exited => 0 | Died => 0
  | ShutSwap => 2 | ShutSender => 1 | ShutDone => 0
  end%nat.

Definition work (st : scheduler * list phase) : nat := (15 * length (queue st.1) + sum_list_with remaining st.2)%nat.

Lemma advance_works capacity s p panics s' p' : advance capacity s p panics = Some (s', p') ->
  (15 * length (queue s') + remaining p' < 15 * length (queue s) + remaining p)%nat.
Proof.
  intros Ha. operation Ha; unfold send_task_result; try destruct (_ && _); fields; cbn [remaining];
    try match goal with E : queue _ = _ |- _ => rewrite E end; rewrite ?length_app; cbn [length]; lia.
Qed.

Lemma thread_step_works capacity st st' : thread_step capacity st st' -> (work st' < work st)%nat.
Proof.
  intros [s l1 p l2 panics s' p' Ha%advance_works]. unfold work. cbn [fst snd]. rewrite !sum_list_with_app.
  cbn [sum_list_with]. lia.
Qed.

Lemma thread_steps_work capacity n st st' : nsteps (thread_step capacity) n st st' -> (n + work st' <= work st)%nat.
Proof. induction 1 as [| n st1 st2 st3 Hs%thread_step_works _ IH]; lia. Qed.

(** ** Shutting down *)

Definition finished (p : phase) : bool :=
  match p with Submitted _ | Exited | Died | ShutDone => true | _ => false end.

(** Only a worker that waits for a job can be unable to go on. *)
Lemma advance_ready capacity s p : finished p = false -> p = Receiving \/ is_Some (advance capacity s p false).
Proof.
  intros Hf. destruct p; try discriminate Hf; try (by left); right;
    unfold advance; cbn [submitting submit_inner worker_loop take_shutdown_workers];
    repeat match goal with |- context [if ?b then _ else _] => destruct b end; eauto.
Qed.

Lemma count_zero f l : (forall p, p ∈ l -> f p = false) -> count f l = 0.
Proof.
  induction l as [| p l IH]; intros Hf; [done |]. rewrite count_cons, (Hf p), IH; [done | | left].
  intros q Hq. apply Hf. by right.
Qed.

Lemma stuck_finished capacity s l :
  inv s l -> has_sender s = false -> (forall st, ~ thread_step capacity (s, l) st) -> Forall (fun p => finished p = true) l.
Proof.
  intros Hi Hs Hstuck.
  assert (Hgo : forall p, p ∈ l -> ~ is_Some (advance capacity s p false)).
  { intros p [l1 [l2 ->]]%list_elem_of_split [[s' p'] Ha]. by apply (Hstuck (s', l1 ++ p' :: l2)), (thread_step_at _ _ _ _ _ false). }
  assert (Hw : forall p, p ∈ l -> finished p = false -> p = Receiving).
  { intros p Hp Hf. destruct (advance_ready capacity s p Hf) as [| Ha]; [done |]. by destruct (Hgo p Hp). }
  apply Forall_forall. intros p Hp. destruct (finished p) eqn:Ef; [done |]. destruct (Hgo p Hp).
  rewrite (Hw p Hp Ef). cbn. destruct (queue s); [| by eexists].
  pose proof (inv_senders _ _ Hi) as Hn. rewrite Hs, count_zero in Hn.
  - replace (senders s =? 0)%nat with true; [by eexists | symmetry; apply Nat.eqb_eq; lia].
  - intros q Hq. destruct (finished q) eqn:Eq; [by destruct q | by rewrite (Hw q Hq Eq)].
Qed.

Lemma advance_closed capacity s p panics s' p' :
  advance capacity s p panics = Some (s', p') -> has_sender s = false -> has_sender s' = false.
Proof. intros Ha Hs. operation Ha; unfold send_task_result; try destruct (_ && _); fields; congruence. Qed.

Lemma thread_steps_closed capacity n st st' :
  nsteps (thread_step capacity) n st st' -> has_sender st.1 = false -> has_sender st'.1 = false.
Proof. induction 1 as [| n st1 st2 st3 [s l1 p l2 panics s' p' Ha] _ IH]; [done |]. intros Hs. by eapply IH, advance_closed. Qed.

Lemma thread_steps_reachable capacity workers n st st' :
  reachable capacity workers st -> nsteps (thread_step capacity) n st st' -> reachable capacity workers st'.
Proof.
  intros Hr Hn. unfold reachable in *. etrans; [exact Hr |]. apply (rtc_nsteps_2 n).
  clear Hr. induction Hn; [constructor | econstructor; [by apply step_thread | done]].
Qed.

(** What the jobs of a scheduler that has stopped look like. *)
Lemma finished_drained s l : inv s l -> fates s l -> Forall (fun p => finished p = true) l -> Exited ∈ l ->
  queue s = [] /\ queue_depth s = 0 /\ accepted s ≡ₚ map fst (outcomes s) /\
  (forall job, job ∈ accepted s -> is_task job = true -> exists r, (job, r) ∈ results s).
Proof.
  intros Hi Hf Hl He. rewrite Forall_forall in Hl.
  assert (Hq : queue s = []).
  { apply (inv_exit _ _ Hi). apply list_elem_of_split in He as [l1 [l2 ->]].
    rewrite (count_perm _ _ (Exited :: l1 ++ l2)) by (symmetry; apply Permutation_middle).
    rewrite count_cons. cbn. pose proof (count_bound exited (l1 ++ l2)). lia. }
  assert (Ho : forall f : phase -> option QueuedJob, (forall p, finished p = true -> f p = None) -> omap f l = []).
  { intros f Hn. apply elem_of_nil_inv. intros j [p [Hp Hj]]%list_elem_of_omap. by rewrite Hn in Hj by auto. }
  assert (Hacc : accepted s ≡ₚ map fst (outcomes s)).
  { by rewrite (inv_flow _ _ Hi), Hq, (Ho in_hand) by (by intros []). }
  split_and!; [done | | done |].
  - rewrite (inv_depth _ _ Hi), Hq, count_zero; [done |]. intros p Hp. specialize (Hl p Hp). by destruct p.
  - intros job Hj Ht. rewrite Hacc in Hj. pose proof (inv_tasks _ _ Hi job Hj Ht) as Hr.
    rewrite (Ho reporting), app_nil_r in Hr by (by intros []).
    apply list_elem_of_fmap in Hr as [[j r] [-> Hr]]. by exists r.
Qed.

(** C4: In every state the scheduler of blocking jobs can reach, whatever the interleaving of submitting
    threads, workers, cancellations and shutdown: the accepted jobs have distinct ids and are exactly the jobs in the
    queue, in the hands of a worker, or with an outcome, each once; every job is started at most once and only if it
    was accepted; and an outcome tells the truth: a completed or failed job was started, and a cancelled one
    was cancelled or met the shutdown. *)
Theorem job_scheduler_exactly_once capacity workers s l : reachable capacity workers (s, l) ->
  NoDup (map job_id (accepted s)) /\
  accepted s ≡ₚ queue s ++ omap in_hand l ++ map fst (outcomes s) /\
  NoDup (started s) /\ (forall job, job ∈ started s -> job ∈ accepted s) /\
  (forall job o, (job, o) ∈ outcomes s -> outcome_ok s job o).
Proof.
  intros [Hi Hf]%reachable_fates. cbn [fst snd] in *.
  assert (Hs : started s ⊆+ accepted s).
  { rewrite <- (inv_start _ _ Hi). apply submseteq_inserts_l, submseteq_inserts_l. reflexivity. }
  split_and!.
  - pose proof (inv_ids _ _ Hi) as Hn. rewrite map_app in Hn. by apply NoDup_app in Hn as [? _].
  - apply (inv_flow _ _ Hi).
  - eapply nodup_submseteq; [exact Hs | by eapply accepted_nodup].
  - intros job Hj. by eapply elem_of_submseteq.
  - intros job o Ho. by apply (fates_outcomes _ _ Hf).
Qed.

(** A task whose outcome was sent and whose callback has run has exactly one result, and it fits the
    outcome: the value if the task completed, the failure if it panicked, and after a cancellation the value (when it
    was ready before the cancellation was seen) or the cancellation. *)
Theorem job_task_result capacity workers s l job o : reachable capacity workers (s, l) ->
  (job, o) ∈ outcomes s -> is_task job = true -> Reporting job o ∉ l ->
  exists r, (job, r) ∈ results s /\ result_fits o r /\ (forall r', (job, r') ∈ results s -> r' = r).
Proof.
  intros [Hi Hf]%reachable_fates Ho Ht Hn. cbn [fst snd] in *.
  destruct (fates_outcomes _ _ Hf job o Ho) as [_ Hx]. destruct (Hx Ht) as [[r [Hr Hfit]] |]; [| done].
  exists r. split_and!; [done | done |]. intros r'. by eapply result_unique.
Qed.

(** C32: The queue never holds more than its capacity.  As long as capacity and threads together fit the
    counter, the reported depth never wraps: it is the number of queued jobs and of jobs on their way into or
    out of the queue.  The number of submitted jobs that is reported is the number of accepted jobs, but for the
    submissions that have not counted theirs yet. *)
Theorem job_queue_bounded capacity workers s l : reachable capacity workers (s, l) -> Z.of_nat capacity + len l < USIZE ->
  (length (queue s) <= capacity)%nat /\
  queue_depth s = len (queue s) + count counted l /\ queue_depth s <= Z.of_nat capacity + len l /\
  len (accepted s) = submitted s + count unbooked l.
Proof.
  intros Hr Hc. pose proof (inv_reachable _ _ _ Hr) as Hi. destruct (reachable_booked _ _ _ Hr) as [H1 H2]. cbn [fst snd] in *.
  assert (Hb : 0 <= count counted l <= len l).
  { split; [apply count_bound |]. unfold count. pose proof (List.filter_length_le counted l). lia. }
  rewrite (inv_depth _ _ Hi), Z.mod_small by lia. split_and!; lia.
Qed.

(** C11: Once the shutdown has dropped the sender, the scheduler finishes: from any state it can reach then, its
    threads perform at most [work] operations, and when none can go on every thread has returned; if a worker is left
    to have ended its loop, the queue is empty and its depth zero, every accepted job has its one outcome, and every
    task a result. *)
Theorem job_scheduler_drains capacity workers st n st' :
  reachable capacity workers st -> has_sender st.1 = false -> nsteps (thread_step capacity) n st st' ->
  (n <= work st)%nat /\
  ((forall st'', ~ thread_step capacity st' st'') ->
   Forall (fun p => finished p = true) st'.2 /\
   (Exited ∈ st'.2 ->
    queue st'.1 = [] /\ queue_depth st'.1 = 0 /\ accepted st'.1 ≡ₚ map fst (outcomes st'.1) /\
    (forall job, job ∈ accepted st'.1 -> is_task job = true -> exists r, (job, r) ∈ results st'.1))).
Proof.
  intros Hr Hs Hn. split; [pose proof (thread_steps_work _ _ _ _ Hn); lia |]. intros Hstuck.
  destruct (reachable_fates capacity workers st') as [Hi Hf]; [by eapply thread_steps_reachable |].
  assert (Hl : Forall (fun p => finished p = true) st'.2).
  { apply (stuck_finished capacity st'.1); [done | by eapply thread_steps_closed | by destruct st']. }
  split; [done |]. by apply finished_drained.
Qed.

(** ** A run *)

Module Trial.

Inductive action := Move (thread : nat) (panics : bool) | Enter (call : phase) | Cancel (id : Z).

Definition perform (capacity : nat) (st : scheduler * list phase) (a : action) : option (scheduler * list phase) :=
  match a with
  | Move i panics =>
      match st.2 !! i with
      | Some p => match advance capacity st.1 p panics with Some (s, p') => Some (s, <[i := p']> st.2) | None => None end
      | None => None
      end
  | Enter ((SubmitCheck _ | ShutSwap) as p) => Some (st.1, p :: st.2)
  | Enter _ => None
  | Cancel id => Some (set_cancelled st.1 ({[id]} ∪ cancelled st.1), st.2)
  end.

Fixpoint perform_all (capacity : nat) (st : scheduler * list phase) (l : list action) : option (scheduler * list phase) :=
  match l with
  | [] => Some st
  | a :: l => match perform capacity st a with Some st => perform_all capacity st l | None => None end
  end.

Lemma move_step capacity st i panics st' : perform capacity st (Move i panics) = Some st' -> thread_step capacity st st'.
Proof.
  destruct st as [s l]. cbn [perform fst snd].
  destruct (l !! i) as [p |] eqn:E; [| done]. destruct (advance capacity s p panics) as [[s' p'] |] eqn:Ea; [| done].
  intros [= <-]. rewrite (insert_take_drop l i p') by (by eapply lookup_lt_Some).
  rewrite <- (take_drop_middle l i p E) at 1. by eapply thread_step_at.
Qed.

Lemma perform_step capacity st a st' : perform capacity st a = Some st' -> step capacity st st'.
Proof.
  destruct a as [i panics | p | id]; [intros H; by eapply step_thread, move_step | |]; destruct st as [s l]; cbn [perform fst snd].
  - destruct p; intros [= <-]; apply step_call; [destruct task |]; auto.
  - intros [= <-]. apply step_cancel.
Qed.

Lemma perform_reachable capacity workers l st :
  perform_all capacity (with_limits workers) l = Some st -> reachable capacity workers st.
Proof.
  unfold reachable. generalize (with_limits workers) as st0. induction l as [| a l IH]; intros st0; cbn [perform_all].
  - intros [= ->]. constructor.
  - destruct (perform capacity st0 a) as [st1 |] eqn:E; [| done]. intros Hl.
    eapply rtc_l; [by eapply perform_step | by apply IH].
Qed.

(** One worker: a task runs to its end, another is queued when the shutdown begins. *)
Definition moves (i n : nat) : list action := repeat (Move i false) n.
Definition script : list action :=
  [Enter (SubmitCheck true)] ++ moves 0 6 ++ moves 1 12 ++ [Enter (SubmitCheck true)] ++ moves 0 6 ++
  [Enter ShutSwap] ++ moves 0 2.

Definition halfway : scheduler * list phase := Eval vm_compute in
  match perform_all 2 (with_limits 1) script with Some st => st | None => with_limits 1 end.

Lemma halfway_reachable : reachable 2 1 halfway.
Proof. apply (perform_reachable _ _ script). vm_compute. reflexivity. Qed.

Lemma exactly_once_witness :
  length (accepted halfway.1) = 2%nat /\ NoDup (map job_id (accepted halfway.1)) /\ NoDup (started halfway.1).
Proof.
  split; [vm_compute; reflexivity |].
  destruct (job_scheduler_exactly_once 2 1 halfway.1 halfway.2 halfway_reachable) as (H1 & _ & H2 & _). split; assumption.
Defined.

Lemma task_result_witness :
  exists r, (Queued 1 true, r) ∈ results halfway.1 /\ result_fits Completed r.
Proof.
  destruct (job_task_result 2 1 halfway.1 halfway.2 (Queued 1 true) Completed halfway_reachable) as (r & H1 & H2 & _).
  - vm_compute. left.
  - reflexivity.
  - intros H. repeat (apply elem_of_cons in H as [H | H]; [discriminate H |]). by apply not_elem_of_nil in H.
  - exists r. split; assumption.
Defined.

Lemma bounded_witness : (length (queue halfway.1) <= 2)%nat /\ queue_depth halfway.1 = len (queue halfway.1) + count counted halfway.2.
Proof.
  destruct (job_queue_bounded 2 1 halfway.1 halfway.2 halfway_reachable) as (H1 & H2 & _).
  - vm_compute. reflexivity.
  - split; assumption.
Defined.

(** The worker meets the shutdown with a job in the queue, and ends. *)
Definition drained : scheduler * list phase := Eval vm_compute in
  match perform_all 2 halfway (moves 3 7) with Some st => st | None => halfway end.

Lemma moves_steps capacity st i n st' :
  perform_all capacity st (moves i n) = Some st' -> nsteps (thread_step capacity) n st st'.
Proof.
  revert st. induction n as [| n IH]; intros st; cbn [moves repeat perform_all]; [intros [= ->]; constructor |].
  destruct (perform capacity st (Move i false)) as [st1 |] eqn:E; [| done]. intros Hl.
  econstructor; [by eapply move_step | by apply IH].
Qed.

Lemma drains_witness : accepted drained.1 ≡ₚ map fst (outcomes drained.1) /\ (7 <= work halfway)%nat.
Proof.
  destruct (job_scheduler_drains 2 1 halfway 7 drained halfway_reachable) as [H1 H2].
  - reflexivity.
  - apply (moves_steps _ _ 3). vm_compute. reflexivity.
  - split; [| exact H1]. apply H2; [| vm_compute; right; right; right; left].
    intros st Hs. apply thread_step_works in Hs. revert Hs. vm_compute (work drained). lia.
Defined.

End Trial.
