(* ===== verification/RemoteFrame.v ===== *)
(** The framebuffer of a remote desktop, zzclawterm-remote-desktop/src/frame.rs and
    pixel_memory.rs: limits, updates of rectangles, merging of dirty rectangles and
    the budget of pixel memory that all sessions share.  A panic (a slice or an
    arithmetic result out of range) is [None].  Pixels are immutable and shared
    in the source; here they are their bytes. *)
From stdpp Require Import base list numbers.
From Stdlib Require Import ZArith Lia.
From S2P Require Import Prelude.

Inductive PixelFormat := Bgra8 | Rgba8.

Inductive RemoteFrameEvent :=
| Reset (epoch width height : Z)
| Bitmap (epoch : Z) (full : bool) (x y width height stride : Z) (format : PixelFormat) (pixels : list Z).

(** ** Batches *)

Definition frame_byte_cost (frame : RemoteFrameEvent) : Z :=
  match frame with Bitmap _ _ _ _ _ _ _ _ pixels => len pixels | Reset _ _ _ => 0 end.

Definition BATCH_BYTES : Z := 8 * 1024 * 1024.

Fixpoint batch_loop (frames : list RemoteFrameEvent) (bytes : Z) (count : nat) : nat :=
  match frames with
  | [] => count
  | frame :: rest =>
      let cost := frame_byte_cost frame in
      if (0 <? count)%nat && (BATCH_BYTES <? saturating_add USIZE_MAX bytes cost) then count
      else batch_loop rest (saturating_add USIZE_MAX bytes cost) (S count)
  end.

Definition frame_batch_len (frames : list RemoteFrameEvent) : nat := batch_loop (take 8 frames) 0 0.

(** ** Limits *)

Record FramebufferLimits := Limits { max_width : Z; max_height : Z; max_bytes : Z }.

Definition RDP_FRAMEBUFFER_LIMITS := Limits 8192 8192 (256 * 1024 * 1024).
Definition VNC_FRAMEBUFFER_LIMITS := Limits 7680 4320 (128 * 1024 * 1024).

Inductive FramebufferError :=
| StaleEpoch (expected actual : Z)
| OutOfBounds
| InvalidPayload
| SizeOverflow
| DimensionsTooLarge (width height : Z)
| AllocationFailed (bytes : Z).

Definition checked (mx n : Z) : option Z := if n <=? mx then Some n else None.

Definition validate_framebuffer_dimensions (width height : Z) (limits : FramebufferLimits) : result Z FramebufferError :=
  if (width =? 0) || (height =? 0) || (max_width limits <? width) || (max_height limits <? height)
  then Err (DimensionsTooLarge width height)
  else
    let? len := ok_or (let* pixels := checked USIZE_MAX (width * height) in checked USIZE_MAX (pixels * 4)) SizeOverflow in
    if max_bytes limits <? len then Err (DimensionsTooLarge width height) else Ok len.

(** ** The budget of pixel memory *)

Definition PIXEL_MEMORY_LIMIT : Z := 1024 * 1024 * 1024.

(** One round of [PixelBudget::reserve] after [used] was loaded: the total to store. *)
Definition reserve_total (limit used bytes : Z) : option Z :=
  let* total := checked USIZE_MAX (used + bytes) in
  if total <=? limit then Some total else None.

(** ** The framebuffer *)

Record Framebuffer := Buffer { fb_width : Z; fb_height : Z; fb_epoch : Z; bgra : list Z }.

(** [Framebuffer::new]; [reserve] and [allocate] say whether the budget and the allocator
    grant the bytes. *)
Definition new (reserve allocate : Z -> bool) (epoch width height : Z) (limits : FramebufferLimits) : result Framebuffer FramebufferError :=
  let? len := validate_framebuffer_dimensions width height limits in
  if negb (reserve len) then Err (AllocationFailed len)
  else if negb (allocate len) then Err (AllocationFailed len)
  else Ok (Buffer width height epoch (replicate (Z.to_nat len) 0)).

Definition reset (reserve allocate : Z -> bool) (fb : Framebuffer) (epoch width height : Z) (limits : FramebufferLimits)
    : Framebuffer * result unit FramebufferError :=
  match new reserve allocate epoch width height limits with
  | Ok fb' => (fb', Ok tt)
  | Err e => (fb, Err e)
  end.

Record DirtyRect := Rect { rx : Z; ry : Z; rwidth : Z; rheight : Z }.

(** [&l[a..a + n]], and [l[a..a + n].copy_from_slice(source)]. *)
Definition slice (l : list Z) (a n : Z) : option (list Z) :=
  if a + n <=? len l then Some (take (Z.to_nat n) (drop (Z.to_nat a) l)) else None.
Definition splice (l : list Z) (a : Z) (source : list Z) : list Z :=
  take (Z.to_nat a) l ++ source ++ drop (Z.to_nat a + length source) l.
Definition copy_from_slice (l : list Z) (a n : Z) (source : list Z) : option (list Z) :=
  if (a + n <=? len l) && (len source =? n) then Some (splice l a source) else None.

(** The conversion of whole pixels of a row; what is left of the destination stays. *)
Fixpoint swap_red_blue (source destination : list Z) : list Z :=
  match source, destination with
  | r :: g :: b :: a :: source, _ :: _ :: _ :: _ :: destination => b :: g :: r :: a :: swap_red_blue source destination
  | _, _ => destination
  end.

(** An arithmetic result that must fit a [usize]. *)
Definition usize (n : Z) : option Z := if (0 <=? n) && (n <=? USIZE_MAX) then Some n else None.

Definition copy_row (format : PixelFormat) (pixels : list Z) (x y row source_stride row_bytes destination_stride : Z) (bgra : list Z)
    : option (list Z) :=
  let* from := usize (row * source_stride) in
  let* source := slice pixels from row_bytes in
  let* line := usize ((y + row) * destination_stride) in
  let* offset := usize (line + x * 4) in
  let* destination := slice bgra offset row_bytes in
  match format with
  | Bgra8 => copy_from_slice bgra offset row_bytes source
  | Rgba8 => Some (splice bgra offset (swap_red_blue source destination))
  end.

Fixpoint copy_rows (format : PixelFormat) (pixels : list Z) (x y : Z) (rows : list nat) (source_stride row_bytes destination_stride : Z)
    (bgra : list Z) : option (list Z) :=
  match rows with
  | [] => Some bgra
  | row :: rows =>
      let* bgra := copy_row format pixels x y (Z.of_nat row) source_stride row_bytes destination_stride bgra in
      copy_rows format pixels x y rows source_stride row_bytes destination_stride bgra
  end.

Definition is_bgra (format : PixelFormat) : bool := match format with Bgra8 => true | Rgba8 => false end.

(** [Framebuffer::apply]. *)
Definition apply (fb : Framebuffer) (frame : RemoteFrameEvent) : option (Framebuffer * result (option DirtyRect) FramebufferError) :=
  match frame with
  | Reset _ _ _ => Some (fb, Ok None)
  | Bitmap epoch _ x y width height stride format pixels =>
      if negb (epoch =? fb_epoch fb) then Some (fb, Err (StaleEpoch (fb_epoch fb) epoch))
      else if (width =? 0) || (height =? 0)
              || match checked U32_MAX (x + width) with Some edge => fb_width fb <? edge | None => true end
              || match checked U32_MAX (y + height) with Some edge => fb_height fb <? edge | None => true end
      then Some (fb, Err OutOfBounds)
      else
        match checked USIZE_MAX (width * 4) with
        | None => Some (fb, Err InvalidPayload)
        | Some row_bytes =>
            if stride <? row_bytes then Some (fb, Err InvalidPayload)
            else
              match (let* offset := checked USIZE_MAX ((height - 1) * stride) in checked USIZE_MAX (offset + row_bytes)) with
              | None => Some (fb, Err InvalidPayload)
              | Some required =>
                  if negb (len pixels =? required) then Some (fb, Err InvalidPayload)
                  else
                    let* destination_stride := usize (fb_width fb * 4) in
                    let* copied :=
                      (if is_bgra format && (stride =? destination_stride) && (row_bytes =? destination_stride) then
                         let* start := usize (y * destination_stride) in
                         let* source := slice pixels 0 required in
                         copy_from_slice (bgra fb) start required source
                       else
                         copy_rows format pixels x y (seq 0 (Z.to_nat height)) stride row_bytes destination_stride (bgra fb)) in
                    Some (Buffer (fb_width fb) (fb_height fb) (fb_epoch fb) copied, Ok (Some (Rect x y width height)))
              end
        end
  end.

(** ** What an update paints *)

Record fb_ok (fb : Framebuffer) : Prop := {
  fb_width_ok : 0 < fb_width fb <= U32_MAX;
  fb_height_ok : 0 < fb_height fb <= U32_MAX;
  fb_bytes : len (bgra fb) = fb_height fb * (fb_width fb * 4);
  fb_addressable : len (bgra fb) <= USIZE_MAX
}.

Definition u32 (n : Z) : Prop := 0 <= n <= U32_MAX.

(** The fields of an update are [u32]s, and its pixels are in memory. *)
Definition frame_ok (frame : RemoteFrameEvent) : Prop :=
  match frame with
  | Reset _ width height => u32 width /\ u32 height
  | Bitmap _ _ x y width height stride _ pixels =>
      u32 x /\ u32 y /\ u32 width /\ u32 height /\ u32 stride /\ len pixels <= USIZE_MAX
  end.

(** Where a colour channel of the screen is in a source pixel. *)
Definition channel (format : PixelFormat) (c : Z) : Z :=
  match format with Bgra8 => c | Rgba8 => if c =? 0 then 2 else if c =? 2 then 0 else c end.

Definition byte_at (fb : Framebuffer) (px py c : Z) : option Z := bgra fb !! Z.to_nat (py * (fb_width fb * 4) + (px * 4 + c)).
Definition source_at (pixels : list Z) (stride : Z) (format : PixelFormat) (px py c : Z) : option Z :=
  pixels !! Z.to_nat (py * stride + (px * 4 + channel format c)).
Definition inside (x y width height px py : Z) : bool := (x <=? px) && (px <? x + width) && (y <=? py) && (py <? y + height).

Lemma length_splice l a source : 0 <= a -> a + len source <= len l -> length (splice l a source) = length l.
Proof. intros. unfold splice. rewrite !length_app, length_take, length_drop. lia. Qed.

Lemma lookup_splice l a source i : 0 <= a -> 0 <= i -> a + len source <= len l ->
  splice l a source !! Z.to_nat i = if (a <=? i) && (i <? a + len source) then source !! Z.to_nat (i - a) else l !! Z.to_nat i.
Proof.
  intros Ha Hi Hl. unfold splice. destruct (Z.leb_spec a i), (Z.ltb_spec i (a + len source)); cbn [andb]; try lia.
  - rewrite lookup_app_r by (rewrite length_take; lia). rewrite lookup_app_l by (rewrite length_take; lia).
    f_equal. rewrite length_take. lia.
  - rewrite lookup_app_r by (rewrite length_take; lia). rewrite lookup_app_r by (rewrite length_take; lia).
    rewrite lookup_drop. f_equal. rewrite length_take. lia.
  - rewrite lookup_app_l by (rewrite length_take; lia). by rewrite lookup_take_lt by lia.
Qed.

Lemma slice_some l a n : 0 <= a -> 0 <= n -> a + n <= len l ->
  exists s, slice l a n = Some s /\ len s = n /\ (forall i, 0 <= i < n -> s !! Z.to_nat i = l !! Z.to_nat (a + i)).
Proof.
  intros Ha Hn Hl. unfold slice. rewrite (proj2 (Z.leb_le _ _) Hl). eexists. split_and!; [done | |].
  - rewrite length_take, length_drop. lia.
  - intros i Hi. rewrite lookup_take_lt, lookup_drop by lia. f_equal. lia.
Qed.

(** Whole pixels are converted one by one. *)
Lemma swap_pixels n source destination : length source = (4 * n)%nat -> length destination = (4 * n)%nat ->
  length (swap_red_blue source destination) = (4 * n)%nat /\
  (forall k c, 0 <= k < Z.of_nat n -> 0 <= c < 4 ->
   swap_red_blue source destination !! Z.to_nat (k * 4 + c) = source !! Z.to_nat (k * 4 + channel Rgba8 c)).
Proof.
  revert source destination. induction n as [| n IH]; intros source destination Hs Hd.
  { destruct source, destination; try done. }
  destruct source as [| r [| g [| b [| a source]]]], destination as [| r' [| g' [| b' [| a' destination]]]]; cbn in Hs, Hd; try lia.
  destruct (IH source destination) as [Hl Hk]; [lia | lia |]. cbn [swap_red_blue length]. split; [lia |].
  intros k c Hk' Hc. destruct (decide (k = 0)) as [-> | Hk0].
  - assert (c = 0 \/ c = 1 \/ c = 2 \/ c = 3) as [-> | [-> | [-> | ->]]] by lia; done.
  - assert (Hch : 0 <= channel Rgba8 c < 4) by (unfold channel; repeat case_match; lia).
    replace (Z.to_nat (k * 4 + c)) with (4 + Z.to_nat ((k - 1) * 4 + c))%nat by lia.
    replace (Z.to_nat (k * 4 + channel Rgba8 c)) with (4 + Z.to_nat ((k - 1) * 4 + channel Rgba8 c))%nat by lia.
    cbn. apply Hk; lia.
Qed.

(** The bytes of a row of the destination, and whether a copied row covers them. *)
Definition covers (D x y row width py o : Z) : bool := (py =? y + row) && (x * 4 <=? o) && (o <? x * 4 + width * 4).

Lemma row_offset D x y row width py o : 0 <= o < D -> 0 <= x -> x * 4 + width * 4 <= D ->
  covers D x y row width py o = ((y + row) * D + x * 4 <=? py * D + o) && (py * D + o <? (y + row) * D + x * 4 + width * 4).
Proof.
  intros Ho Hx Hw. unfold covers. apply eq_bool_prop_intro. rewrite !andb_True, !Is_true_true, !Z.leb_le, !Z.ltb_lt, Z.eqb_eq.
  destruct (Z.lt_trichotomy py (y + row)) as [Hp | [-> | Hp]]; [| lia |].
  - split; [lia |]. intros [H1 _]. nia.
  - split; [lia |]. intros [_ H1]. nia.
Qed.

(** Copying one row of an update. *)
Section row.
Context (format : PixelFormat) (pixels : list Z) (x y width height stride D : Z) (l : list Z).
Context (Hx : 0 <= x) (Hy : 0 <= y) (Hw : 0 < width) (Hs : width * 4 <= stride) (HD : x * 4 + width * 4 <= D).
Context (Hp : len pixels = (height - 1) * stride + width * 4) (Hpu : len pixels <= USIZE_MAX).

Lemma copy_row_paints row (H : Z) : 0 <= row < height -> y + height <= H -> len l = H * D -> len l <= USIZE_MAX ->
  exists l', copy_row format pixels x y row stride (width * 4) D l = Some l' /\ length l' = length l /\
    (forall px py c, 0 <= px -> px * 4 + c < D -> 0 <= c < 4 -> 0 <= py ->
     l' !! Z.to_nat (py * D + (px * 4 + c)) =
     if inside x (y + row) width 1 px py then source_at pixels stride format (px - x) row c
     else l !! Z.to_nat (py * D + (px * 4 + c))).
Proof.
  intros Hr Hh Hl Hu. unfold copy_row.
  assert (H1 : 0 <= row * stride) by nia. assert (H2 : row * stride + width * 4 <= len pixels) by nia.
  assert (H3 : 0 <= (y + row) * D) by nia. assert (H4 : (y + row) * D + x * 4 + width * 4 <= len l) by nia.
  unfold usize. rewrite !(proj2 (Z.leb_le _ _)) by lia. cbn [andb].
  destruct (slice_some pixels (row * stride) (width * 4)) as (src & -> & Hsl & Hsi); [lia | lia | lia |].
  rewrite !(proj2 (Z.leb_le _ _)) by lia. cbn [andb].
  destruct (slice_some l ((y + row) * D + x * 4) (width * 4)) as (dst & -> & Hdl & Hdi); [lia | lia | lia |].
  set (new := match format with Bgra8 => src | Rgba8 => swap_red_blue src dst end).
  assert (Hn : len new = width * 4 /\ (forall k c, 0 <= k < width -> 0 <= c < 4 ->
    new !! Z.to_nat (k * 4 + c) = src !! Z.to_nat (k * 4 + channel format c))).
  { unfold new. destruct format; [done |]. destruct (swap_pixels (Z.to_nat width) src dst) as [H5 H6]; [lia | lia |].
    split; [lia |]. intros k c Hk Hc. apply H6; lia. }
  destruct Hn as [Hnl Hni].
  exists (splice l ((y + row) * D + x * 4) new). split_and!.
  - unfold new. destruct format; [| done]. unfold copy_from_slice.
    by rewrite (proj2 (Z.leb_le _ _)), (proj2 (Z.eqb_eq _ _)) by lia.
  - apply length_splice; lia.
  - intros px py c Hpx Hpc Hc Hpy. rewrite lookup_splice by nia. rewrite Hnl, <- (row_offset D x y row width py) by lia.
    assert (Hb : covers D x y row width py (px * 4 + c) = inside x (y + row) width 1 px py).
    { unfold covers, inside. apply eq_bool_prop_intro. rewrite !andb_True, !Is_true_true, !Z.leb_le, !Z.ltb_lt, Z.eqb_eq. lia. }
    rewrite Hb. destruct (inside _ _ _ _ _ _) eqn:E; [| done].
    unfold inside in E. rewrite !andb_true_iff, !Z.leb_le, !Z.ltb_lt in E.
    replace (py * D + (px * 4 + c) - ((y + row) * D + x * 4)) with ((px - x) * 4 + c) by nia.
    rewrite Hni by lia. unfold source_at. rewrite Hsi; [f_equal; lia |].
    unfold channel. destruct format; repeat case_match; lia.
Qed.
End row.

Section update.
Context (format : PixelFormat) (pixels : list Z) (x y width height stride D H : Z).
Context (Hx : 0 <= x) (Hy : 0 <= y) (Hw : 0 < width) (Hh : 0 < height) (Hs : width * 4 <= stride) (HD : x * 4 + width * 4 <= D).
Context (HH : y + height <= H) (Hp : len pixels = (height - 1) * stride + width * 4) (Hpu : len pixels <= USIZE_MAX).

Definition painted (k n : Z) (l l' : list Z) : Prop :=
  length l' = length l /\
  (forall px py c, 0 <= px -> px * 4 + c < D -> 0 <= c < 4 -> 0 <= py ->
   l' !! Z.to_nat (py * D + (px * 4 + c)) =
   if inside x (y + k) width n px py then source_at pixels stride format (px - x) (py - y) c
   else l !! Z.to_nat (py * D + (px * 4 + c))).

Lemma copy_rows_paint n k l : len l = H * D -> len l <= USIZE_MAX -> Z.of_nat k + Z.of_nat n <= height ->
  exists l', copy_rows format pixels x y (seq k n) stride (width * 4) D l = Some l' /\ painted (Z.of_nat k) (Z.of_nat n) l l'.
Proof.
  revert k l. induction n as [| n IH]; intros k l Hl Hu Hk.
  - exists l. split; [done |]. split; [done |]. intros px py c Hpx Hpc Hc Hpy.
    destruct (inside _ _ _ _ _ _) eqn:E; [| done]. unfold inside in E. rewrite !andb_true_iff, !Z.leb_le, !Z.ltb_lt in E. lia.
  - cbn [seq copy_rows].
    destruct (copy_row_paints format pixels x y width height stride D l Hx Hy Hw Hs HD Hp Hpu (Z.of_nat k) H) as (l1 & -> & Hl1 & Hr1);
      [lia | lia | lia | lia |].
    destruct (IH (S k) l1) as (l2 & -> & Hl2 & Hr2); [lia | lia | lia |]. exists l2. split; [done |].
    split; [lia |]. intros px py c Hpx Hpc Hc Hpy. rewrite Hr2, Hr1 by done.
    unfold inside. destruct (x <=? px) eqn:E1, (px <? x + width) eqn:E2; cbn [andb]; try done.
    destruct (Z.leb_spec (y + Z.of_nat (S k)) py), (Z.ltb_spec py (y + Z.of_nat (S k) + Z.of_nat n)),
      (Z.leb_spec (y + Z.of_nat k) py), (Z.ltb_spec py (y + Z.of_nat k + 1)), (Z.ltb_spec py (y + Z.of_nat k + Z.of_nat (S n)));
      cbn [andb]; try lia; try done. f_equal. lia.
Qed.

Lemma line_order (a b o : Z) : 0 <= o < D -> (a * D <= b * D + o <-> a <= b) /\ (b * D + o < a * D <-> b < a).
Proof. clear. intros Ho. split; split; intros; nia. Qed.

(** Rows as wide as the buffer are copied at once. *)
Lemma copy_block_paints l : format = Bgra8 -> stride = D -> width * 4 = D -> len l = H * D -> len l <= USIZE_MAX ->
  exists l', (let* source := slice pixels 0 (len pixels) in copy_from_slice l (y * D) (len pixels) source) = Some l' /\ painted 0 height l l'.
Proof.
  intros Hf Hst Hfull Hl Hu. assert (Hx0 : x = 0) by lia.
  destruct (slice_some pixels 0 (len pixels)) as (src & -> & Hsl & Hsi); [lia | lia | lia |].
  unfold copy_from_slice. rewrite (proj2 (Z.leb_le _ _)) by nia. rewrite (proj2 (Z.eqb_eq _ _)) by lia. cbn [andb].
  eexists. split; [done |]. split; [apply length_splice; nia |].
  intros px py c Hpx Hpc Hc Hpy. rewrite lookup_splice by nia. rewrite Hsl.
  assert (Hb : ((y * D <=? py * D + (px * 4 + c)) && (py * D + (px * 4 + c) <? y * D + len pixels)) = inside x (y + 0) width height px py).
  { unfold inside. apply eq_bool_prop_intro. rewrite !andb_True, !Is_true_true, !Z.leb_le, !Z.ltb_lt.
    destruct (line_order y py (px * 4 + c)) as [-> _]; [lia |].
    replace (y * D + len pixels) with ((y + height) * D) by nia.
    destruct (line_order (y + height) py (px * 4 + c)) as [_ ->]; [lia |]. lia. }
  rewrite Hb. destruct (inside _ _ _ _ _ _) eqn:E; [| done]. unfold inside in E. rewrite !andb_true_iff, !Z.leb_le, !Z.ltb_lt in E.
  assert (Hrow : py * D + (px * 4 + c) < (y + height) * D) by (apply line_order; lia).
  assert (Hrow' : y * D <= py * D + (px * 4 + c)) by (apply line_order; lia).
  rewrite Hsi by nia. unfold source_at. rewrite Hx0, Hf, Hst. cbn [channel].
  by replace (0 + (py * D + (px * 4 + c) - y * D)) with ((py - y) * D + ((px - 0) * 4 + c)) by ring.
Qed.
End update.

(** What [apply] checks, in the order it checks it. *)
Definition applicable (fb : Framebuffer) (frame : RemoteFrameEvent) : result (option DirtyRect) FramebufferError :=
  match frame with
  | Reset _ _ _ => Ok None
  | Bitmap epoch _ x y width height stride format pixels =>
      if negb (epoch =? fb_epoch fb) then Err (StaleEpoch (fb_epoch fb) epoch)
      else if negb ((0 <? width) && (0 <? height) && (x + width <=? fb_width fb) && (y + height <=? fb_height fb)) then Err OutOfBounds
      else if negb ((width * 4 <=? stride) && (len pixels =? (height - 1) * stride + width * 4)) then Err InvalidPayload
      else Ok (Some (Rect x y width height))
  end.

(** The screen after a successful update. *)
Definition shows (fb : Framebuffer) (frame : RemoteFrameEvent) (px py c : Z) : option Z :=
  match frame with
  | Bitmap _ _ x y width height stride format pixels =>
      if inside x y width height px py then source_at pixels stride format (px - x) (py - y) c else byte_at fb px py c
  | Reset _ _ _ => byte_at fb px py c
  end.

Lemma checked_or mx n (f : Z -> bool) : match checked mx n with Some m => f m | None => true end = (mx <? n) || f n.
Proof. unfold checked. rewrite Z.leb_antisym. by destruct (mx <? n). Qed.

(** The guards of [apply], without the overflow tests that cannot fire. *)
Lemma outside_spec fb x y width height : fb_ok fb -> u32 x -> u32 y -> u32 width -> u32 height ->
  ((width =? 0) || (height =? 0)
   || match checked U32_MAX (x + width) with Some edge => fb_width fb <? edge | None => true end
   || match checked U32_MAX (y + height) with Some edge => fb_height fb <? edge | None => true end)
  = negb ((0 <? width) && (0 <? height) && (x + width <=? fb_width fb) && (y + height <=? fb_height fb)).
Proof.
  intros [Hw Hh _ _] Hx Hy [Hw' _] [Hh' _]. rewrite !checked_or. apply eq_bool_prop_intro.
  rewrite !orb_True, negb_True, !andb_True, !Is_true_true, !Z.eqb_eq, !Z.ltb_lt, !Z.leb_le. lia.
Qed.

Lemma apply_guarded fb x y width height stride format pixels epoch full : fb_ok fb ->
  frame_ok (Bitmap epoch full x y width height stride format pixels) ->
  0 < width -> 0 < height -> x + width <= fb_width fb -> y + height <= fb_height fb ->
  width * 4 <= stride -> len pixels = (height - 1) * stride + width * 4 ->
  exists l, (let* start := usize (fb_width fb * 4) in
             if is_bgra format && (stride =? start) && (width * 4 =? start) then
               let* start' := usize (y * start) in
               let* source := slice pixels 0 (len pixels) in copy_from_slice (bgra fb) start' (len pixels) source
             else copy_rows format pixels x y (seq 0 (Z.to_nat height)) stride (width * 4) start (bgra fb)) = Some l /\
            painted format pixels x y width stride (fb_width fb * 4) 0 height (bgra fb) l.
Proof.
  intros [Hw Hh Hb Hu] (Hx & Hy & _ & _ & _ & Hp) Hw0 Hh0 Hr Hbot Hs Hl. unfold u32 in *.
  unfold usize at 1. rewrite !(proj2 (Z.leb_le _ _)) by lia. cbn [andb].
  destruct (is_bgra format && (stride =? fb_width fb * 4) && (width * 4 =? fb_width fb * 4)) eqn:E.
  - rewrite !andb_true_iff, !Z.eqb_eq in E. destruct E as [[Hf Hst] Hfull].
    unfold usize. rewrite !(proj2 (Z.leb_le _ _)) by nia. cbn [andb].
    apply (copy_block_paints format pixels x y width height stride (fb_width fb * 4) (fb_height fb)); try lia. by destruct format.
  - destruct (copy_rows_paint format pixels x y width height stride (fb_width fb * 4) (fb_height fb)) with (n := Z.to_nat height) (k := 0%nat)
      (l := bgra fb) as (l & Hl1 & Hl2); try lia.
    exists l. split; [done |]. by rewrite Z2Nat.id in Hl2 by lia.
Qed.

Lemma apply_paints fb frame : fb_ok fb -> frame_ok frame ->
  exists fb', apply fb frame = Some (fb', applicable fb frame) /\ fb_ok fb' /\
    fb_width fb' = fb_width fb /\ fb_height fb' = fb_height fb /\ fb_epoch fb' = fb_epoch fb /\
    match applicable fb frame with
    | Ok (Some _) => forall px py c, 0 <= px < fb_width fb -> 0 <= py < fb_height fb -> 0 <= c < 4 ->
        byte_at fb' px py c = shows fb frame px py c
    | _ => fb' = fb
    end.
Proof.
  intros Hfb Hfr. destruct frame as [epoch w h | epoch full x y width height stride format pixels]; [by exists fb |].
  pose proof Hfr as Hfr'. cbn [frame_ok] in Hfr. destruct Hfr as (Hx & Hy & Hw & Hh & Hs & Hp).
  cbn [apply applicable]. destruct (negb (epoch =? fb_epoch fb)); [by exists fb |].
  rewrite outside_spec by done. destruct (negb _) eqn:Eo; [by exists fb |].
  rewrite negb_false_iff, !andb_true_iff, !Z.ltb_lt, !Z.leb_le in Eo. destruct Eo as [[[Hw0 Hh0] Hr] Hb].
  unfold u32 in *. unfold checked. rewrite (proj2 (Z.leb_le (width * 4) _)) by lia.
  rewrite Z.ltb_antisym. destruct (Z.leb_spec (width * 4) stride) as [Hst |]; cbn [negb andb]; [| by exists fb].
  destruct (Z.eqb_spec (len pixels) ((height - 1) * stride + width * 4)) as [Hl | Hl].
  - rewrite !(proj2 (Z.leb_le _ _)) by nia. cbn [negb]. rewrite <- Hl, Z.eqb_refl. cbn [negb].
    destruct (apply_guarded fb x y width height stride format pixels epoch full) as (l & Hc & Hlen & Hpaint); try done.
    destruct (usize (fb_width fb * 4)) as [D |] eqn:ED; [| done]. rewrite Hc.
    eexists. split; [done |]. destruct Hfb as [Hfw Hfh Hfbytes Hfa]. split; [by split; cbn; rewrite ?Hlen |].
    split_and!; [done .. |]. intros px py c Hpx Hpy Hc'. unfold byte_at, shows. cbn [bgra fb_width].
    rewrite Hpaint by lia. by rewrite Z.add_0_r.
  - destruct (Z.leb_spec ((height - 1) * stride) USIZE_MAX); [| by exists fb].
    destruct (Z.leb_spec ((height - 1) * stride + width * 4) USIZE_MAX); [| by exists fb].
    rewrite (proj2 (Z.eqb_neq _ _) Hl). by exists fb.
Qed.

(** C27: [Framebuffer::apply] never panics on a buffer of its size, whatever the update.  It accepts exactly the updates
    of the current epoch that lie inside the buffer and carry exactly the bytes of their rows, reports the others with
    the first reason, and leaves the buffer alone then.  An accepted update changes exactly its rectangle: every pixel in
    it shows its source pixel, in the buffer's channel order, and every other pixel is unchanged. *)
Theorem framebuffer_apply_paints fb frame : fb_ok fb -> frame_ok frame ->
  exists fb', apply fb frame = Some (fb', applicable fb frame) /\ fb_ok fb' /\
    fb_width fb' = fb_width fb /\ fb_height fb' = fb_height fb /\ fb_epoch fb' = fb_epoch fb /\
    match applicable fb frame with
    | Ok (Some _) => forall px py c, 0 <= px < fb_width fb -> 0 <= py < fb_height fb -> 0 <= c < 4 ->
        byte_at fb' px py c = shows fb frame px py c
    | _ => fb' = fb
    end.
Proof. apply apply_paints. Qed.

Module FrameTrial.
(** A screen of two by two pixels, and a red pixel for its corner, with rows of six bytes. *)
Definition screen : Framebuffer := Buffer 2 2 7 (replicate 16 0).
Definition red : RemoteFrameEvent := Bitmap 7 false 1 1 1 1 6 Rgba8 [255; 0; 0; 128].

Lemma framebuffer_paints_witness : exists fb', apply screen red = Some (fb', Ok (Some (Rect 1 1 1 1))) /\
  byte_at fb' 1 1 2 = shows screen red 1 1 2 /\ byte_at fb' 0 0 2 = shows screen red 0 0 2.
Proof.
  destruct (framebuffer_apply_paints screen red) as (fb' & H1 & _ & _ & _ & _ & H2).
  - vm_compute. repeat split; intro; discriminate.
  - vm_compute. repeat split; intro; discriminate.
  - exists fb'. assert (Ha : applicable screen red = Ok (Some (Rect 1 1 1 1))) by reflexivity. rewrite Ha in *. split; [exact H1 |].
    split; apply H2; cbn; lia.
Defined.
End FrameTrial.
