(* ===== verification/RemoteRects.v ===== *)
(** Dirty rectangles, batches of frames and framebuffer limits of a remote desktop:
    the rest of zzclawterm-remote-desktop/src/frame.rs. *)
From stdpp Require Import base list numbers gmap.
From Stdlib Require Import ZArith Lia.
From S2P Require Import Prelude RemoteFrame.

(** ** Merging *)

Definition right_edge (r : DirtyRect) : Z := saturating_add U32_MAX (rx r) (rwidth r).
Definition bottom_edge (r : DirtyRect) : Z := saturating_add U32_MAX (ry r) (rheight r).

Definition intersects_or_touches (a b : DirtyRect) : bool :=
  (rx a <=? right_edge b) && (rx b <=? right_edge a) && (ry a <=? bottom_edge b) && (ry b <=? bottom_edge a).

Definition union (a b : DirtyRect) : DirtyRect :=
  let x := Z.min (rx a) (rx b) in
  let y := Z.min (ry a) (ry b) in
  let right := Z.max (right_edge a) (right_edge b) in
  let bottom := Z.max (bottom_edge a) (bottom_edge b) in
  Rect x y (right - x) (bottom - y).

(** [Vec::swap_remove]: the last element takes the place of the removed one. *)
Definition swap_remove (l : list DirtyRect) (i : nat) : option (DirtyRect * list DirtyRect) :=
  match l !! i, last l with
  | Some r, Some e => Some (r, removelast (<[i := e]> l))
  | _, _ => None
  end.

(** The loop over the merged rectangles; [None] is a panic or fuel that ran out. *)
Fixpoint merge_loop (fuel : nat) (rect : DirtyRect) (merged : list DirtyRect) (index : nat) : option (DirtyRect * list DirtyRect) :=
  if (index <? length merged)%nat then
    match fuel with
    | O => None
    | S fuel =>
        match merged !! index with
        | None => None
        | Some other =>
            if intersects_or_touches rect other then
              match swap_remove merged index with
              | Some (removed, merged) => merge_loop fuel (union rect removed) merged 0
              | None => None
              end
            else merge_loop fuel rect merged (S index)
        end
    end
  else Some (rect, merged).

(** Every removal starts the scan again. *)
Definition merge_fuel (merged : list DirtyRect) : nat := (S (length merged) * S (length merged))%nat.

Fixpoint merge_into (merged : list DirtyRect) (rects : list DirtyRect) : option (list DirtyRect) :=
  match rects with
  | [] => Some merged
  | rect :: rects =>
      match merge_loop (merge_fuel merged) rect merged 0 with
      | Some (rect, merged) => merge_into (merged ++ [rect]) rects
      | None => None
      end
  end.

Definition merge_dirty_rects (rects : list DirtyRect) : option (list DirtyRect) := merge_into [] rects.

(** ** What merging keeps *)

Definition rect_ok (r : DirtyRect) : Prop := u32 (rx r) /\ u32 (ry r) /\ u32 (rwidth r) /\ u32 (rheight r).

(** The pixels of a rectangle. *)
Definition has (r : DirtyRect) (px py : Z) : Prop := rx r <= px < right_edge r /\ ry r <= py < bottom_edge r.
Definition covered (l : list DirtyRect) (px py : Z) : Prop := exists r, r ∈ l /\ has r px py.

(** The rectangle lies in [0..width] by [0..height]. *)
Definition within (width height : Z) (r : DirtyRect) : Prop := right_edge r <= width /\ bottom_edge r <= height.

(** No two rectangles of the list touch. *)
Definition apart (l : list DirtyRect) : Prop := ForallOrdPairs (fun a b => intersects_or_touches a b = false) l.

Lemma edge_bounds r : rect_ok r -> rx r <= right_edge r <= U32_MAX /\ ry r <= bottom_edge r <= U32_MAX.
Proof. intros (Hx & Hy & Hw & Hh). unfold right_edge, bottom_edge, saturating_add, u32 in *. lia. Qed.

Lemma union_edges a b : rect_ok a -> rect_ok b ->
  right_edge (union a b) = Z.max (right_edge a) (right_edge b) /\ bottom_edge (union a b) = Z.max (bottom_edge a) (bottom_edge b).
Proof.
  intros Ha%edge_bounds Hb%edge_bounds. unfold right_edge at 1, bottom_edge at 1, union. cbn [rx ry rwidth rheight].
  unfold saturating_add. lia.
Qed.

Lemma union_ok a b : rect_ok a -> rect_ok b -> rect_ok (union a b).
Proof.
  intros Ha Hb. pose proof (edge_bounds a Ha). pose proof (edge_bounds b Hb).
  destruct Ha as (? & ? & ? & ?), Hb as (? & ? & ? & ?). unfold rect_ok, union, u32 in *. cbn [rx ry rwidth rheight]. lia.
Qed.

Lemma union_has a b px py : rect_ok a -> rect_ok b -> has a px py \/ has b px py -> has (union a b) px py.
Proof.
  intros Ha Hb. unfold has. destruct (union_edges a b Ha Hb) as [-> ->]. cbn [rx ry union]. lia.
Qed.

Lemma union_within w h a b : rect_ok a -> rect_ok b -> within w h a -> within w h b -> within w h (union a b).
Proof. intros Ha Hb. unfold within. destruct (union_edges a b Ha Hb) as [-> ->]. lia. Qed.

Lemma touches_sym a b : intersects_or_touches a b = intersects_or_touches b a.
Proof. unfold intersects_or_touches. destruct (rx a <=? _), (rx b <=? _), (ry a <=? _), (ry b <=? _); done. Qed.

(** Removing one element permutes the others. *)
Lemma swap_remove_spec l i r : l !! i = Some r -> exists l', swap_remove l i = Some (r, l') /\ l ≡ₚ r :: l'.
Proof.
  intros Hi. unfold swap_remove. rewrite Hi. destruct (last l) as [e |] eqn:He.
  2: { apply last_None in He. by subst. }
  eexists. split; [done |]. apply last_Some in He as [k ->].
  destruct (decide (i < length k)%nat) as [Hk | Hk].
  - rewrite insert_app_l by done. rewrite removelast_last. rewrite lookup_app_l in Hi by done.
    rewrite <- (take_drop_middle k i r Hi) at 1. rewrite (insert_take_drop k i) by done.
    rewrite <- app_assoc. cbn [app]. rewrite <- Permutation_middle. apply Permutation_skip, Permutation_app_head.
    by rewrite Permutation_app_comm.
  - assert (i = length k) as -> by (apply lookup_lt_Some in Hi; rewrite length_app in Hi; cbn in Hi; lia).
    rewrite lookup_app_r, Nat.sub_diag in Hi by lia. cbn in Hi. simplify_eq.
    rewrite insert_app_r_alt, Nat.sub_diag by lia. cbn. rewrite removelast_last. by rewrite Permutation_app_comm.
Qed.

(** The loop ends within the fuel, and leaves the rectangles it did not join. *)
Lemma merge_loop_spec fuel rect merged index :
  (length merged * S (length merged) <= fuel + index)%nat -> (index <= length merged)%nat ->
  (forall i r, (i < index)%nat -> merged !! i = Some r -> intersects_or_touches rect r = false) ->
  exists rect' merged' joined, merge_loop fuel rect merged index = Some (rect', merged') /\ merged ≡ₚ joined ++ merged' /\
    rect' = fold_left union joined rect /\ Forall (fun r => intersects_or_touches rect' r = false) merged'.
Proof.
  revert rect merged index. induction fuel as [| fuel IH]; intros rect merged index Hfuel Hindex Hscan; cbn [merge_loop];
    destruct (Nat.ltb_spec index (length merged)) as [Hlt | Hge].
  1: nia.
  1,3: exists rect, merged, []; split_and!; [done | done | done |]; apply Forall_lookup_2; intros i r Hi;
       apply (Hscan i); [apply lookup_lt_Some in Hi; lia | done].
  destruct (lookup_lt_is_Some_2 merged index Hlt) as [other Ho]. rewrite Ho.
  destruct (intersects_or_touches rect other) eqn:Et.
  - destruct (swap_remove_spec merged index other Ho) as (rest & -> & Hp).
    assert (Hlen : length merged = S (length rest)) by (by rewrite Hp).
    destruct (IH (union rect other) rest 0%nat) as (rect' & merged' & joined & -> & Hj & -> & Hf); [nia | lia | lia |].
    exists (fold_left union joined (union rect other)), merged', (other :: joined). split_and!; [done | | done | done].
    by rewrite Hp, Hj.
  - apply IH; [lia | lia |]. intros i r Hi Hr. destruct (decide (i = index)) as [-> | Hn]; [by simplify_eq |].
    apply (Hscan i); [lia | done].
Qed.

Lemma apart_perm l l' : l ≡ₚ l' -> apart l -> apart l'.
Proof.
  intros Hp. induction Hp as [| r l l' Hp IH | a b l | l1 l2 l3 _ IH1 _ IH2]; intros Hl; [done | | | by apply IH2, IH1].
  - inversion_clear Hl as [| ? ? Hr Hl']. constructor; [by rewrite <- Hp | by apply IH].
  - inversion_clear Hl as [| ? ? Ha Hl']. inversion_clear Hl' as [| ? ? Hb Hl'']. inversion_clear Ha as [| ? ? Hab Ha'].
    constructor; [constructor; [by rewrite touches_sym | done] | by constructor].
Qed.

Lemma apart_app l k : apart (l ++ k) -> apart k.
Proof. induction l as [| r l IH]; [done |]. intros H. inversion_clear H. by apply IH. Qed.

(** Joining rectangles covers all of them, and stays within what they stay within. *)
Lemma join_spec joined rect w h : rect_ok rect -> Forall rect_ok joined ->
  rect_ok (fold_left union joined rect) /\
  (forall px py, has rect px py \/ covered joined px py -> has (fold_left union joined rect) px py) /\
  (within w h rect -> Forall (within w h) joined -> within w h (fold_left union joined rect)).
Proof.
  revert rect. induction joined as [| r joined IH]; intros rect Hr Hj; cbn [fold_left].
  { split_and!; [done | | done]. intros px py [Hh | [r [[]%not_elem_of_nil _]]]. done. }
  apply Forall_cons in Hj as [Hr' Hj]. destruct (IH (union rect r)) as (H1 & H2 & H3); [by apply union_ok | done |].
  split_and!; [done | |].
  - intros px py Hh. apply H2. destruct Hh as [Hh | [r' [[-> | Hin]%elem_of_cons Hh]]].
    + left. apply union_has; auto.
    + left. apply union_has; auto.
    + right. by exists r'.
  - intros Hw [Hw' Hj']%Forall_cons. apply H3; [by apply union_within | done].
Qed.

Lemma merge_into_spec merged rects w h : Forall rect_ok (merged ++ rects) -> apart merged ->
  exists out, merge_into merged rects = Some out /\ apart out /\ Forall rect_ok out /\
    (forall px py, covered (merged ++ rects) px py -> covered out px py) /\
    (Forall (within w h) (merged ++ rects) -> Forall (within w h) out) /\ (length out <= length merged + length rects)%nat.
Proof.
  revert merged. induction rects as [| rect rects IH]; intros merged Hok Ha; cbn [merge_into].
  { rewrite app_nil_r in *. exists merged. split_and!; auto with lia. }
  destruct (merge_loop_spec (merge_fuel merged) rect merged 0) as (rect' & merged' & joined & -> & Hp & -> & Hf);
    [unfold merge_fuel; lia | lia | lia |].
  rewrite Hp in Hok. rewrite <- app_assoc, !Forall_app in Hok. destruct Hok as (Hj & Hm & [Hr Hrs]%Forall_cons).
  destruct (join_spec joined rect w h Hr Hj) as (H1 & H2 & H3).
  destruct (IH (merged' ++ [fold_left union joined rect])) as (out & -> & H4 & H5 & H6 & H7 & H8).
  - rewrite !Forall_app. split_and!; [done | by constructor | done].
  - apply (apart_perm (fold_left union joined rect :: merged')); [by rewrite Permutation_app_comm |].
    constructor; [done |]. eapply apart_app, apart_perm; [exact Hp | done].
  - exists out. split_and!; [done | done | done | | |].
    + intros px py [r [Hin Hh]]. apply H6. rewrite Hp in Hin. rewrite !elem_of_app, elem_of_cons in Hin. unfold covered.
      setoid_rewrite elem_of_app. setoid_rewrite elem_of_app. setoid_rewrite list_elem_of_singleton.
      destruct Hin as [[Hin | Hin] | [-> | Hin]]; [| by eauto | | by eauto].
      * exists (fold_left union joined rect). split; [auto |]. apply H2. right. by exists r.
      * exists (fold_left union joined rect). split; [auto |]. apply H2. by left.
    + rewrite Hp, !Forall_app, Forall_cons. intros [[Hwj Hwm] [Hwr Hwrs]]. apply H7. rewrite !Forall_app. split_and!; [done | | done].
      constructor; [by apply H3 | done].
    + rewrite Hp. rewrite !length_app in *. cbn [length] in *. lia.
Qed.

(** Merging dirty rectangles ends, never panics, and is safe to paint from: the result has no more
    rectangles than there were, no two of them overlap or touch, they cover every pixel that was dirty, and they stay
    inside any framebuffer that the given ones are inside of. *)
Theorem merge_dirty_rects_covers rects w h : Forall rect_ok rects ->
  exists out, merge_dirty_rects rects = Some out /\ apart out /\ (length out <= length rects)%nat /\
    (forall px py, covered rects px py -> covered out px py) /\
    (Forall (within w h) rects -> Forall (within w h) out).
Proof.
  intros Hok. destruct (merge_into_spec [] rects w h Hok) as (out & H1 & H2 & H3 & H4 & H5 & H6); [constructor |].
  exists out. split_and!; auto.
Qed.

Module RectsTrial.
(** Three rectangles: the third joins the first two, which do not touch. *)
Definition dirty : list DirtyRect := [Rect 0 0 2 2; Rect 10 0 2 2; Rect 2 0 8 1].

Lemma merge_witness : exists out, merge_dirty_rects dirty = Some out /\ apart out /\ covered out 11 1 /\ Forall (within 12 2) out.
Proof.
  destruct (merge_dirty_rects_covers dirty 12 2) as (out & H1 & H2 & _ & H3 & H4).
  - repeat constructor; vm_compute; intro; discriminate.
  - exists out. split; [exact H1 |]. split; [exact H2 |]. split.
    + apply H3. exists (Rect 10 0 2 2). split; [right; left | vm_compute; repeat split; intro; discriminate].
    + apply H4. repeat constructor; vm_compute; intro; discriminate.
Defined.
End RectsTrial.
