(* ===== verification/RemoteBudget.v ===== *)
(** The budget of pixel memory, zzclawterm-remote-desktop/src/pixel_memory.rs, as
    threads use it: one step is one access to the atomic counter.  A weak
    compare-exchange may fail although the value is the expected one. *)
From stdpp Require Import base list numbers gmap.
From Stdlib Require Import ZArith Lia.
From S2P Require Import Prelude RemoteFrame.

(** Where a thread is: before the first load of [reserve]; with the value it last saw; with
    a lease; refused; after the lease was dropped. *)
Inductive borrower :=
| Wants (bytes : Z)
| Saw (used bytes : Z)
| Leased (bytes : Z)
| Refused (bytes : Z)
| Released (bytes : Z).

(** One access by a thread; [lucky] says whether a weak exchange of the expected value succeeds. *)
Definition access (limit used : Z) (b : borrower) (lucky : bool) : option (Z * borrower) :=
  match b with
  | Wants bytes => Some (used, Saw used bytes)
  | Saw seen bytes =>
      match reserve_total limit seen bytes with
      | None => Some (used, Refused bytes)
      | Some total => if (used =? seen) && lucky then Some (total, Leased bytes) else Some (used, Saw used bytes)
      end
  | Leased bytes => Some (wrap 64 (used - bytes), Released bytes)
  | Refused _ | Released _ => None
  end.

Inductive budget_step (limit : Z) : Z * list borrower -> Z * list borrower -> Prop :=
| budget_access used l1 b l2 lucky used' b' : access limit used b lucky = Some (used', b') ->
    budget_step limit (used, l1 ++ b :: l2) (used', l1 ++ b' :: l2)
| budget_ask used l bytes : 0 <= bytes <= USIZE_MAX -> budget_step limit (used, l) (used, Wants bytes :: l).

Definition budget_reaches (limit : Z) (st : Z * list borrower) : Prop := rtc (budget_step limit) (0, []) st.

Definition leased (b : borrower) : Z := match b with Leased bytes => bytes | _ => 0 end.
Definition asked (b : borrower) : Z :=
  match b with Wants bytes | Saw _ bytes | Leased bytes | Refused bytes | Released bytes => bytes end.
Definition total (f : borrower -> Z) (l : list borrower) : Z := foldr (fun b n => f b + n) 0 l.

Lemma total_cons f b l : total f (b :: l) = f b + total f l.
Proof. done. Qed.
Lemma total_app f l k : total f (l ++ k) = total f l + total f k.
Proof. induction l as [| b l IH]; cbn [app]; rewrite ?total_cons; [done | lia]. Qed.

(** What a thread knows: a value it saw was within the limit and left room among all requests for its own; it is refused only
    when all requests together exceed the limit. *)
Definition borrower_ok (limit requests : Z) (b : borrower) : Prop :=
  0 <= asked b <= USIZE_MAX /\
  match b with
  | Saw seen bytes => 0 <= seen <= limit /\ seen + bytes <= requests
  | Refused _ => limit < requests
  | _ => True
  end.

Record budget_ok (limit : Z) (st : Z * list borrower) : Prop := {
  budget_threads : Forall (borrower_ok limit (total asked st.2)) st.2;
  budget_sum : st.1 = total leased st.2;
  budget_limit : st.1 <= limit
}.

Lemma borrower_ok_more limit n m b : n <= m -> borrower_ok limit n b -> borrower_ok limit m b.
Proof. intros Hn [H1 H2]. split; [done |]. destruct b; try done; lia. Qed.

Lemma leased_range limit n l : Forall (borrower_ok limit n) l -> 0 <= total leased l <= total asked l.
Proof. induction 1 as [| b l [Hb _] _ IH]; [done |]. rewrite !total_cons. destruct b; cbn in *; lia. Qed.

Lemma access_ok limit used b lucky used' b' requests others :
  0 <= limit <= USIZE_MAX -> access limit used b lucky = Some (used', b') -> borrower_ok limit requests b ->
  used = leased b + others -> 0 <= others -> used <= limit -> others + asked b <= requests ->
  asked b' = asked b /\ borrower_ok limit requests b' /\ used' = leased b' + others /\ used' <= limit.
Proof.
  intros Hl Ha [Hb Hk] Hu Ho Hlim Hroom. destruct b as [bytes | seen bytes | bytes | bytes | bytes]; cbn [access] in Ha; try discriminate Ha;
    cbn [asked leased] in *.
  - simplify_eq. unfold borrower_ok. cbn [asked leased]. lia.
  - unfold reserve_total, checked in Ha. unfold borrower_ok.
    destruct (Z.leb_spec (seen + bytes) USIZE_MAX), (Z.leb_spec (seen + bytes) limit); try lia;
      [destruct ((used =? seen) && lucky) eqn:E | ..]; simplify_eq; cbn [asked leased]; try lia.
  - simplify_eq. unfold borrower_ok, wrap. cbn [asked leased]. rewrite Z.mod_small by lia. lia.
Qed.

Lemma budget_step_ok limit st st' : 0 <= limit <= USIZE_MAX -> budget_step limit st st' -> budget_ok limit st -> budget_ok limit st'.
Proof.
  intros Hl Hs [H1 H2 H3]. destruct Hs as [used l1 b l2 lucky used' b' Ha | used l bytes Hb]; cbn [fst snd] in *.
  - rewrite total_app, total_cons in H2. pose proof H1 as H1'. rewrite Forall_app, Forall_cons in H1. destruct H1 as (Hs1 & Hsb & Hs2).
    pose proof (leased_range _ _ _ Hs1). pose proof (leased_range _ _ _ Hs2).
    assert (Ht : total asked (l1 ++ b :: l2) = total asked l1 + (asked b + total asked l2)) by (by rewrite total_app, total_cons).
    destruct (access_ok limit used b lucky used' b' (total asked (l1 ++ b :: l2)) (total leased l1 + total leased l2)) as (Hk & Hb' & Hu & Hlim);
      try done; try lia.
    assert (Hsame : total asked (l1 ++ b' :: l2) = total asked (l1 ++ b :: l2)) by (rewrite !total_app, !total_cons; lia).
    split; cbn [fst snd]; rewrite ?Hsame; [| rewrite total_app, total_cons; lia | done].
    rewrite Forall_app, Forall_cons. by split_and!.
  - assert (Hm : total asked l <= total asked (Wants bytes :: l)) by (rewrite total_cons; cbn; lia).
    split; cbn [fst snd]; [| done | done]. apply Forall_cons. split; [by split |].
    eapply Forall_impl; [exact H1 |]. intros b. by apply borrower_ok_more.
Qed.

(** The pixel memory of all remote desktops together stays within the limit at every moment, whatever the interleaving
    of reservations and releases: the counter is exactly the sum of the live leases, never above the limit and never
    below zero, and a reservation is refused only when all requests together exceed the limit. *)
Theorem pixel_budget_respected limit used l : 0 <= limit <= USIZE_MAX -> budget_reaches limit (used, l) ->
  used = total leased l /\ 0 <= used <= limit /\ (forall bytes, Refused bytes ∈ l -> limit < total asked l).
Proof.
  intros Hl Hr. assert (Hok : budget_ok limit (used, l)).
  { revert Hr. generalize (used, l). apply (rtc_ind_r (budget_ok limit)).
    - split; cbn; [constructor | done | lia].
    - intros st st' _ Hs IH. by eapply budget_step_ok. }
  destruct Hok as [H1 H2 H3]. cbn [fst snd] in *. pose proof (leased_range _ _ _ H1). split_and!; [done | lia | lia |].
  intros bytes Hb. rewrite Forall_forall in H1. by destruct (H1 _ Hb).
Qed.

(** Three threads share ten bytes: one leases six and gives them back, one is refused, and one leases after that. *)
Module BudgetTrial.

Definition accesses : list (nat * bool) :=
  [(0, true); (1, true); (0, true); (1, true); (1, true); (0, true); (2, true); (2, false); (2, true)]%nat.

Fixpoint run (limit : Z) (st : Z * list borrower) (moves : list (nat * bool)) : option (Z * list borrower) :=
  match moves with
  | [] => Some st
  | (i, lucky) :: moves =>
      match st.2 !! i with
      | Some b => match access limit st.1 b lucky with Some (used, b') => run limit (used, <[i := b']> st.2) moves | None => None end
      | None => None
      end
  end.

Lemma run_reaches limit st moves st' : budget_reaches limit st -> run limit st moves = Some st' -> budget_reaches limit st'.
Proof.
  revert st. induction moves as [| [i lucky] moves IH]; intros [used l] Hr; cbn [run fst snd]; [by intros [= <-] |].
  destruct (l !! i) as [b |] eqn:E; [| done]. destruct (access limit used b lucky) as [[used' b'] |] eqn:Ea; [| done].
  apply IH. eapply rtc_r; [exact Hr |]. rewrite (insert_take_drop l i b') by (by eapply lookup_lt_Some).
  rewrite <- (take_drop_middle l i b E) at 1. by eapply budget_access.
Qed.

Definition shared : Z * list borrower := Eval vm_compute in
  match run 10 (0, [Wants 6; Wants 5; Wants 5]) accesses with Some st => st | None => (0, []) end.

Lemma pixel_budget_witness : shared.1 = 5 /\ shared.1 = total leased shared.2 /\ 10 < total asked shared.2.
Proof.
  assert (Hr : budget_reaches 10 (shared.1, shared.2)).
  { apply (run_reaches 10 (0, [Wants 6; Wants 5; Wants 5]) accesses).
    - do 3 (eapply rtc_r; [| apply budget_ask; lia]). constructor.
    - vm_compute. reflexivity. }
  destruct (pixel_budget_respected 10 shared.1 shared.2 ltac:(lia) Hr) as (H1 & _ & H2).
  split; [reflexivity |]. split; [exact H1 |]. apply (H2 5). right. left.
Defined.

End BudgetTrial.
