(* ===== verification/RemoteIpc.v ===== *)
(** Packets between the application and its remote desktop helpers,
    zzclawterm-remote-desktop/src/ipc.rs: framing, reading from a stream and
    incrementally, and the encoding of frames and cursors.  The JSON of control
    messages is third-party and not modelled. *)
From stdpp Require Import base list numbers strings gmap.
From Stdlib Require Import ZArith Lia.
From S2P Require Import Prelude RemoteFrame.

(** [to_le_bytes] and [from_le_bytes]. *)
Fixpoint to_le_bytes (n : nat) (x : Z) : list Z :=
  match n with O => [] | S n => wrap 8 x :: to_le_bytes n (Z.shiftr x 8) end.
Fixpoint from_le_bytes (l : list Z) : Z :=
  match l with [] => 0 | b :: l => b + 256 * from_le_bytes l end.

Inductive ErrorKind := InvalidData | InvalidInput | UnexpectedEof | OutOfMemory | OtherKind.
Record io_error := IoError { kind : ErrorKind; message : list Z }.
Abbreviation io A := (result A io_error).
Definition bail {A} (k : ErrorKind) (m : string) : io A := Err (IoError k (bs m)).

Definition HEADER_LEN : nat := 5.
Definition CONTROL_PAYLOAD_LIMIT : Z := 1024 * 1024.
Definition FRAME_PAYLOAD_LIMIT : Z := 160 * 1024 * 1024.
Definition CURSOR_PAYLOAD_LIMIT : Z := 4 * 1024 * 1024.

Inductive PacketType := Control | Frame | Cursor.

#[global] Instance packet_type_eq_dec : EqDecision PacketType.
Proof. solve_decision. Defined.

Definition type_code (t : PacketType) : Z := match t with Control => 1 | Frame => 2 | Cursor => 3 end.

Definition try_from (value : Z) : io PacketType :=
  if value =? 1 then Ok Control else if value =? 2 then Ok Frame else if value =? 3 then Ok Cursor
  else bail InvalidData "unknown helper IPC packet type".

Record Packet := Pack { packet_type : PacketType; payload : list Z; body : list Z }.

Definition payload_len (p : Packet) : io Z :=
  ok_or (checked USIZE_MAX (len (payload p) + len (body p))) (IoError InvalidInput (bs "packet length overflow")).

Definition payload_limit (t : PacketType) : Z :=
  match t with Control => CONTROL_PAYLOAD_LIMIT | Frame => FRAME_PAYLOAD_LIMIT | Cursor => CURSOR_PAYLOAD_LIMIT end.

(** ** Reading from a stream *)

(** What the stream has still to give: a read returns at most one piece, and nothing at its end.  A piece [Broken] is an
    error of the operating system. *)
Inductive piece := Bytes (l : list Z) | Broken (e : io_error).

Definition read (stream : list piece) (n : nat) : io (list Z) * list piece :=
  match stream with
  | [] => (Ok [], [])
  | Broken e :: stream => (Err e, stream)
  | Bytes l :: stream => if (length l <=? n)%nat then (Ok l, stream) else (Ok (take n l), Bytes (drop n l) :: stream)
  end.

(** The loop for the header; [None] is the end of the stream before its first byte. *)
Fixpoint read_header (fuel : nat) (stream : list piece) (header : list Z) : io (option (list Z)) * list piece :=
  if (length header <? HEADER_LEN)%nat then
    match fuel with
    | O => (Ok None, stream)
    | S fuel =>
        let (r, stream) := read stream (HEADER_LEN - length header) in
        match r with
        | Err e => (Err e, stream)
        | Ok [] => if (length header =? 0)%nat then (Ok None, stream) else (bail UnexpectedEof "truncated helper IPC header", stream)
        | Ok bytes => read_header fuel stream (header ++ bytes)
        end
    end
  else (Ok (Some header), stream).

(** [Read::read_exact]. *)
Fixpoint read_exact (fuel : nat) (stream : list piece) (n : nat) (got : list Z) : io (list Z) * list piece :=
  if (length got <? n)%nat then
    match fuel with
    | O => (Ok got, stream)
    | S fuel =>
        let (r, stream) := read stream (n - length got) in
        match r with
        | Err e => (Err e, stream)
        | Ok [] => (bail UnexpectedEof "failed to fill whole buffer", stream)
        | Ok bytes => read_exact fuel stream n (got ++ bytes)
        end
    end
  else (Ok got, stream).

(** [read_packet_inner]; [budget] and [allocate] grant the memory of a payload. *)
Definition read_packet_inner (budget : option (Z -> bool)) (allocate : Z -> bool) (stream : list piece) : io (option Packet) * list piece :=
  let (r, stream) := read_header HEADER_LEN stream [] in
  match r with
  | Err e => (Err e, stream)
  | Ok None => (Ok None, stream)
  | Ok (Some header) =>
      match try_from (default 0 (header !! 0%nat)) with
      | Err e => (Err e, stream)
      | Ok t =>
          let length := from_le_bytes (take 4 (drop 1 header)) in
          if payload_limit t <? length then (bail InvalidData "helper IPC payload exceeds limit", stream)
          else if negb (bool_decide (t = Control)) && match budget with Some reserve => negb (reserve length) | None => false end
          then (bail OutOfMemory "remote desktop CPU pixel memory budget exhausted", stream)
          else if negb (allocate length) then (bail OutOfMemory "failed to allocate helper IPC payload", stream)
          else
            let (r, stream) := read_exact (Z.to_nat length) stream (Z.to_nat length) [] in
            match r with
            | Err e => (Err e, stream)
            | Ok bytes => (Ok (Some (Pack t bytes [])), stream)
            end
      end
  end.

(** ** Writing *)

(** [write_packet_into], to a writer that accepts everything. *)
Definition write_packet_into (written : list Z) (p : Packet) : io (list Z) :=
  let? n := payload_len p in
  if payload_limit (packet_type p) <? n then bail InvalidInput "helper IPC payload exceeds limit"
  else
    let? length := ok_or (checked U32_MAX n) (IoError InvalidInput (bs "helper IPC payload is too large")) in
    Ok (written ++ [type_code (packet_type p)] ++ to_le_bytes 4 length ++ payload p ++ body p).

(** ** Incremental reading *)

(** The loop of [PacketReader::push] over what is buffered from [offset] on. *)
Fixpoint push_loop (fuel : nat) (buffer : list Z) (offset : nat) (packets : list Packet) : io (list Packet * nat) :=
  if (HEADER_LEN <=? length buffer - offset)%nat then
    match fuel with
    | O => Ok (packets, offset)
    | S fuel =>
        let? t := try_from (default 0 (buffer !! offset)) in
        let length := from_le_bytes (take 4 (drop (offset + 1) buffer)) in
        if payload_limit t <? length then bail InvalidData "helper IPC payload exceeds limit"
        else
          let? packet_len := ok_or (checked USIZE_MAX (Z.of_nat HEADER_LEN + length)) (IoError InvalidData (bs "helper IPC length overflow")) in
          if len buffer - Z.of_nat offset <? packet_len then Ok (packets, offset)
          else
            push_loop fuel buffer (offset + Z.to_nat packet_len)
              (packets ++ [Pack t (take (Z.to_nat length) (drop (offset + HEADER_LEN) buffer)) []])
    end
  else Ok (packets, offset).

(** [PacketReader::push]: the new buffer and the packets. *)
Definition push (buffer : list Z) (bytes : list Z) : list Z * io (list Packet) :=
  let buffer := buffer ++ bytes in
  match push_loop (length buffer) buffer 0 [] with
  | Err e => (buffer, Err e)
  | Ok (packets, offset) => (drop offset buffer, Ok packets)
  end.

(** ** Fields *)

Definition put_session (payload session_id : list Z) : io (list Z) :=
  let? length := ok_or (checked U16_MAX (len session_id)) (IoError InvalidInput (bs "helper IPC session id is too long")) in
  Ok (payload ++ to_le_bytes 2 length ++ session_id).

Definition put_u32 (payload : list Z) (value : Z) : list Z := payload ++ to_le_bytes 4 value.

(** [take::<N>]: the bytes and the new offset. *)
Definition take_bytes (n : nat) (payload : list Z) (offset : nat) : io (list Z * nat) :=
  let? e := ok_or (checked USIZE_MAX (Z.of_nat (offset + n))) (IoError InvalidData (bs "helper IPC packet offset overflow")) in
  if e <=? len payload then Ok (take n (drop offset payload), (offset + n)%nat)
  else bail UnexpectedEof "truncated helper IPC packet".

Definition take_session (payload : list Z) (offset : nat) : io (list Z * nat) :=
  let? (l, offset) := take_bytes 2 payload offset in
  let length := from_le_bytes l in
  let? e := ok_or (checked USIZE_MAX (Z.of_nat offset + length)) (IoError InvalidData (bs "helper IPC session id length overflow")) in
  if e <=? len payload then
    let bytes := take (Z.to_nat length) (drop offset payload) in
    if utf8_valid bytes then Ok (bytes, (offset + Z.to_nat length)%nat)
    else bail InvalidData "helper IPC session id is not UTF-8"
  else bail UnexpectedEof "truncated helper IPC session id".

Definition take_int (n : nat) (payload : list Z) (offset : nat) : io (Z * nat) :=
  let? (l, offset) := take_bytes n payload offset in Ok (from_le_bytes l, offset).
Definition take_u32 := take_int 4.

(** ** Frames *)

Definition format_code (format : PixelFormat) : Z := match format with Bgra8 => 1 | Rgba8 => 2 end.
Definition bool_byte (b : bool) : Z := if b then 1 else 0.

(** The part before the pixels. *)
Definition frame_header (session_id : list Z) (epoch : Z) (full : bool) (x y width height stride : Z) (format : PixelFormat) (pixels : list Z)
    : io (list Z) :=
  let? payload := put_session [] session_id in
  let payload := payload ++ to_le_bytes 8 epoch ++ [bool_byte full] ++ [format_code format] in
  let payload := fold_left put_u32 [x; y; width; height; stride] payload in
  let? length := ok_or (checked U32_MAX (len pixels)) (IoError InvalidInput (bs "frame is too large")) in
  Ok (put_u32 payload length).

Definition encode_frame_packet (session_id : list Z) (event : RemoteFrameEvent) : io Packet :=
  match event with
  | Reset _ _ _ => bail InvalidInput "event is not a bitmap"
  | Bitmap epoch full x y width height stride format pixels =>
      let? payload := frame_header session_id epoch full x y width height stride format pixels in
      let payload := payload ++ pixels in
      if FRAME_PAYLOAD_LIMIT <? len payload then bail InvalidInput "frame exceeds limit"
      else Ok (Pack Frame payload [])
  end.

Definition encode_frame_packet_owned (session_id : list Z) (event : RemoteFrameEvent) : io Packet :=
  match event with
  | Reset _ _ _ => bail InvalidInput "event is not a bitmap"
  | Bitmap epoch full x y width height stride format pixels =>
      let? payload := frame_header session_id epoch full x y width height stride format pixels in
      if FRAME_PAYLOAD_LIMIT <? saturating_add USIZE_MAX (len payload) (len pixels) then bail InvalidInput "frame exceeds limit"
      else Ok (Pack Frame payload pixels)
  end.

Record FrameHeader := Header {
  h_epoch : Z; h_full : bool; h_x : Z; h_y : Z; h_width : Z; h_height : Z; h_stride : Z; h_format : PixelFormat
}.

Definition decode_frame_header (p : Packet) : io (list Z * FrameHeader * nat) :=
  if negb (bool_decide (packet_type p = Frame)) then bail InvalidInput "packet is not a frame"
  else
    let? (session_id, offset) := take_session (payload p) 0 in
    let? (epoch, offset) := take_int 8 (payload p) offset in
    let? (full, offset) := take_int 1 (payload p) offset in
    let? (code, offset) := take_int 1 (payload p) offset in
    let? format := if code =? 1 then Ok Bgra8 else if code =? 2 then Ok Rgba8 else bail InvalidData "unknown pixel format" in
    let? (x, offset) := take_u32 (payload p) offset in
    let? (y, offset) := take_u32 (payload p) offset in
    let? (width, offset) := take_u32 (payload p) offset in
    let? (height, offset) := take_u32 (payload p) offset in
    let? (stride, offset) := take_u32 (payload p) offset in
    let? (data_len, offset) := take_u32 (payload p) offset in
    let? required := ok_or (let* base := checked USIZE_MAX (saturating_sub height 1 * stride) in checked USIZE_MAX (base + width * 4))
                           (IoError InvalidData (bs "frame dimensions overflow")) in
    let inline_data_len := saturating_sub (len (payload p)) (Z.of_nat offset) in
    let? actual_data_len :=
      match body p with
      | [] => Ok inline_data_len
      | _ => if inline_data_len =? 0 then Ok (len (body p)) else bail InvalidData "frame pixels are split across inline and owned payloads"
      end in
    if (width =? 0) || (height =? 0) || (stride <? saturating_mul U32_MAX width 4) || negb (data_len =? required)
       || negb (actual_data_len =? data_len)
    then bail InvalidData "invalid frame dimensions or payload length"
    else Ok (session_id, Header epoch (negb (full =? 0)) x y width height stride format, offset).

Definition decode_frame_packet_owned (p : Packet) : io (list Z * RemoteFrameEvent) :=
  let? (found, offset) := decode_frame_header p in
  let (session_id, h) := found : list Z * FrameHeader in
  let pixels := match body p with [] => drop offset (payload p) | body => body end in
  Ok (session_id, Bitmap (h_epoch h) (h_full h) (h_x h) (h_y h) (h_width h) (h_height h) (h_stride h) (h_format h) pixels).

(** ** Cursors *)

Record CursorShape := Shape_of {
  shape_id : Z; c_width : Z; c_height : Z; hotspot_x : Z; hotspot_y : Z; c_pixels : list Z
}.
Inductive RemoteCursorEvent := Shape (shape : CursorShape) | Position (x y : Z) | Visibility (visible : bool).

Definition encode_cursor_packet (session_id : list Z) (event : RemoteCursorEvent) : io Packet :=
  let? payload := put_session [] session_id in
  let? payload :=
    match event with
    | Shape shape =>
        let payload := payload ++ [1] ++ to_le_bytes 8 (shape_id shape) in
        let payload := fold_left put_u32 [c_width shape; c_height shape; hotspot_x shape; hotspot_y shape] payload in
        let? length := ok_or (checked U32_MAX (len (c_pixels shape))) (IoError InvalidInput (bs "cursor is too large")) in
        Ok (put_u32 payload length ++ c_pixels shape)
    | Position x y => Ok (put_u32 (put_u32 (payload ++ [2]) x) y)
    | Visibility visible => Ok (payload ++ [3] ++ [bool_byte visible])
    end in
  if CURSOR_PAYLOAD_LIMIT <? len payload then bail InvalidInput "cursor exceeds limit"
  else Ok (Pack Cursor payload []).

Definition is_shape (event : RemoteCursorEvent) : bool := match event with Shape _ => true | _ => false end.

Definition decode_cursor_payload (p : Packet) : io (list Z * RemoteCursorEvent * nat) :=
  if negb (bool_decide (packet_type p = Cursor)) then bail InvalidInput "packet is not a cursor"
  else
    let? (session_id, offset) := take_session (payload p) 0 in
    let? (kind, offset) := take_int 1 (payload p) offset in
    let? (event, offset) :=
      if kind =? 1 then
        let? (id, offset) := take_int 8 (payload p) offset in
        let? (width, offset) := take_u32 (payload p) offset in
        let? (height, offset) := take_u32 (payload p) offset in
        let? (x, offset) := take_u32 (payload p) offset in
        let? (y, offset) := take_u32 (payload p) offset in
        let? (data_len, offset) := take_u32 (payload p) offset in
        let? expected := ok_or (let* pixels := checked USIZE_MAX (width * height) in checked USIZE_MAX (pixels * 4))
                               (IoError InvalidData (bs "cursor dimensions overflow")) in
        if negb (data_len =? expected) || negb (saturating_sub (len (payload p)) (Z.of_nat offset) =? data_len)
        then bail InvalidData "invalid cursor payload length"
        else Ok (Shape (Shape_of id width height x y []), offset)
      else if kind =? 2 then
        let? (x, offset) := take_u32 (payload p) offset in
        let? (y, offset) := take_u32 (payload p) offset in
        Ok (Position x y, offset)
      else if kind =? 3 then
        let? (visible, offset) := take_int 1 (payload p) offset in
        Ok (Visibility (negb (visible =? 0)), offset)
      else bail InvalidData "unknown cursor event kind" in
    if negb (is_shape event) && negb (offset =? length (payload p))%nat then bail InvalidData "trailing cursor event payload"
    else Ok (session_id, event, offset).

Definition decode_cursor_packet (p : Packet) : io (list Z * RemoteCursorEvent) :=
  let? (found, offset) := decode_cursor_payload p in
  let (session_id, event) := found : list Z * RemoteCursorEvent in
  Ok (session_id, match event with
                  | Shape s => Shape (Shape_of (shape_id s) (c_width s) (c_height s) (hotspot_x s) (hotspot_y s) (drop offset (payload p)))
                  | event => event
                  end).
