(* ===== verification/RemoteIpcSpec.v ===== *)
(** What the packets of RemoteIpc.v promise: streams are read back however they are cut into
    pieces, frames and cursors survive encoding, and what is decoded fits the
    framebuffer's checks. *)
From stdpp Require Import base list numbers strings gmap.
From Stdlib Require Import ZArith Lia.
From S2P Require Import Prelude RemoteFrame RemoteIpc.

(** ** Integers *)

Lemma length_to_le n x : length (to_le_bytes n x) = n.
Proof. revert x. induction n as [| n IH]; intros x; cbn; [done | by rewrite IH]. Qed.

Lemma from_to_le n x : 0 <= x < 256 ^ Z.of_nat n -> from_le_bytes (to_le_bytes n x) = x.
Proof.
  revert x. induction n as [| n IH]; intros x Hx; cbn [to_le_bytes from_le_bytes]; [cbn in Hx; lia |].
  rewrite Nat2Z.inj_succ, Z.pow_succ_r in Hx by lia. unfold wrap. rewrite Z.shiftr_div_pow2 by lia. change (2 ^ 8) with 256 in *.
  rewrite IH.
  - pose proof (Z.div_mod x 256 ltac:(lia)). lia.
  - split; [apply Z.div_pos; lia | apply Z.div_lt_upper_bound; lia].
Qed.

Lemma from_le_range l : bytes_ok l -> 0 <= from_le_bytes l < 256 ^ len l.
Proof.
  induction 1 as [| b l Hb _ IH]; [cbn; lia |]. cbn [from_le_bytes length]. rewrite Nat2Z.inj_succ, Z.pow_succ_r by lia.
  unfold byte_ok in Hb. lia.
Qed.

Lemma to_from_le l : bytes_ok l -> to_le_bytes (length l) (from_le_bytes l) = l.
Proof.
  induction 1 as [| b l Hb Hl IH]; [done |]. cbn [length to_le_bytes from_le_bytes]. unfold byte_ok in Hb. unfold wrap.
  rewrite Z.shiftr_div_pow2 by lia. change (2 ^ 8) with 256.
  replace (b + 256 * from_le_bytes l) with (from_le_bytes l * 256 + b) by lia.
  rewrite Z.add_comm, Z_mod_plus_full, Z.mod_small, Z.div_add, Z.div_small, Z.add_0_l, IH by lia. done.
Qed.

(** ** Fields *)

Lemma take_bytes_at n payload offset l rest : drop offset payload = l ++ rest -> length l = n -> (0 < n)%nat -> len payload <= USIZE_MAX ->
  take_bytes n payload offset = Ok (l, (offset + n)%nat) /\ drop (offset + n) payload = rest.
Proof.
  intros Hd Hl Hn Hp.
  assert (Hlen : (offset + n <= length payload)%nat).
  { apply (f_equal length) in Hd. rewrite length_drop, length_app in Hd. lia. }
  unfold take_bytes, checked. rewrite (proj2 (Z.leb_le _ _)) by lia. cbn [ok_or result_bind].
  rewrite (proj2 (Z.leb_le _ _)) by lia. rewrite Hd, take_app_le, take_ge by lia. split; [done |].
  rewrite <- drop_drop, Hd. rewrite drop_app_ge by lia. by rewrite Hl, Nat.sub_diag.
Qed.

Lemma take_int_at n payload offset x rest : drop offset payload = to_le_bytes n x ++ rest -> 0 <= x < 256 ^ Z.of_nat n -> (0 < n)%nat ->
  len payload <= USIZE_MAX -> take_int n payload offset = Ok (x, (offset + n)%nat) /\ drop (offset + n) payload = rest.
Proof.
  intros Hd Hx Hn Hp. destruct (take_bytes_at n payload offset _ rest Hd (length_to_le n x) Hn Hp) as [H1 H2].
  unfold take_int. rewrite H1. cbn [result_bind]. by rewrite from_to_le.
Qed.

Lemma take_session_at payload session_id rest : payload = to_le_bytes 2 (len session_id) ++ session_id ++ rest ->
  len session_id <= U16_MAX -> utf8_valid session_id = true -> len payload <= USIZE_MAX ->
  take_session payload 0 = Ok (session_id, (2 + length session_id)%nat) /\ drop (2 + length session_id) payload = rest.
Proof.
  intros Hpay Hs Hu Hp. unfold take_session.
  destruct (take_bytes_at 2 payload 0 (to_le_bytes 2 (len session_id)) (session_id ++ rest)) as [-> Hd]; [done | done | lia | done |].
  cbn [result_bind]. rewrite from_to_le by (cbn; lia). rewrite Nat.add_0_l in *.
  assert (Hlen : (2 + length session_id <= length payload)%nat) by (rewrite Hpay, !length_app, length_to_le; lia).
  unfold checked. rewrite (proj2 (Z.leb_le _ _)) by lia. cbn [ok_or result_bind]. rewrite (proj2 (Z.leb_le _ _)) by lia.
  rewrite Hd, Nat2Z.id, take_app_le, take_ge by lia. rewrite Hu. split; [done |].
  rewrite <- drop_drop, Hd, drop_app_ge by lia. by rewrite Nat.sub_diag.
Qed.

(** ** Frames *)

Definition u64 (n : Z) : Prop := 0 <= n <= U64_MAX.

(** A frame that can be sent: its numbers have their widths, and it carries exactly the bytes of its rows. *)
Definition sendable (session_id : list Z) (event : RemoteFrameEvent) : Prop :=
  match event with
  | Bitmap epoch _ x y width height stride _ pixels =>
      utf8_valid session_id = true /\ u64 epoch /\ frame_ok event /\
      0 < width /\ 0 < height /\ width * 4 <= stride /\ len pixels = (height - 1) * stride + width * 4
  | Reset _ _ _ => False
  end.

(** The bytes of a frame. *)
Definition frame_bytes (session_id : list Z) (epoch : Z) (full : bool) (x y width height stride : Z) (format : PixelFormat) (n : Z) : list Z :=
  to_le_bytes 2 (len session_id) ++ session_id ++ to_le_bytes 8 epoch ++ to_le_bytes 1 (bool_byte full) ++
  to_le_bytes 1 (format_code format) ++ to_le_bytes 4 x ++ to_le_bytes 4 y ++ to_le_bytes 4 width ++ to_le_bytes 4 height ++
  to_le_bytes 4 stride ++ to_le_bytes 4 n.

Lemma frame_header_bytes session_id epoch full x y width height stride format pixels h :
  frame_header session_id epoch full x y width height stride format pixels = Ok h ->
  len session_id <= U16_MAX /\ len pixels <= U32_MAX /\ h = frame_bytes session_id epoch full x y width height stride format (len pixels).
Proof.
  unfold frame_header, put_session, checked. destruct (Z.leb_spec (len session_id) U16_MAX); [| done]. cbn [ok_or result_bind].
  destruct (Z.leb_spec (len pixels) U32_MAX); [| done]. cbn [ok_or result_bind]. intros [= <-]. split_and!; [done | done |].
  unfold frame_bytes, put_u32. cbn [fold_left app]. rewrite <- !app_assoc. cbn [app].
  assert (Hf : to_le_bytes 1 (bool_byte full) = [bool_byte full]) by (by destruct full).
  assert (Hc : to_le_bytes 1 (format_code format) = [format_code format]) by (by destruct format).
  by rewrite Hf, Hc.
Qed.

(** One field after another. *)
Ltac field Hd :=
  match type of Hd with
  | drop ?o ?p = to_le_bytes ?n ?x ++ ?rest =>
      let H := fresh in
      destruct (take_int_at n p o x rest Hd) as [H Hd']; [cbn; try lia | lia | lia |];
      first [rewrite H | change (take_int 4) with take_u32 in H; rewrite H]; clear Hd H; rename Hd' into Hd; cbn [result_bind]
  end.

Lemma decode_frame_at p session_id epoch full x y width height stride format pixels :
  sendable session_id (Bitmap epoch full x y width height stride format pixels) ->
  len session_id <= U16_MAX -> len pixels <= U32_MAX -> packet_type p = Frame -> len (payload p) <= USIZE_MAX ->
  payload p ++ body p = frame_bytes session_id epoch full x y width height stride format (len pixels) ++ pixels ->
  body p = [] \/ body p = pixels ->
  decode_frame_packet_owned p = Ok (session_id, Bitmap epoch full x y width height stride format pixels).
Proof.
  intros (Hu & He & (Hx & Hy & Hw & Hh & Hs & _) & Hw0 & Hh0 & Hst & Hl) Hsid Hpl Ht Hp Hbytes Hbody.
  unfold u64, u32 in *.
  set (fixed := frame_bytes session_id epoch full x y width height stride format (len pixels)) in *.
  assert (Hpay : exists inline, payload p = fixed ++ inline /\ (body p = [] /\ inline = pixels \/ body p = pixels /\ inline = [])).
  { destruct Hbody as [Hb | Hb]; rewrite Hb in *.
    - exists pixels. rewrite app_nil_r in Hbytes. auto.
    - exists []. rewrite app_nil_r. apply app_inv_tail in Hbytes. auto. }
  destruct Hpay as (inline & Hpay & Hinline).
  assert (Hpos : 0 < len pixels) by nia.
  unfold decode_frame_packet_owned, decode_frame_header. rewrite bool_decide_true by done. cbn [negb].
  unfold fixed, frame_bytes in Hpay. rewrite <- !app_assoc in Hpay.
  destruct (take_session_at _ _ _ Hpay Hsid Hu Hp) as [-> Hd]. cbn [result_bind].
  assert (Hfull : 0 <= bool_byte full < 256) by (destruct full; cbn; lia).
  assert (Hcode : 0 <= format_code format < 256) by (destruct format; cbn; lia).
  do 3 field Hd.
  assert (Hformat : (if format_code format =? 1 then Ok Bgra8 else if format_code format =? 2 then Ok Rgba8 else bail InvalidData "unknown pixel format")
                    = (Ok format : io PixelFormat)) by (by destruct format).
  rewrite Hformat. cbn [result_bind]. do 6 field Hd.
  set (o := (2 + length session_id + 8 + 1 + 1 + 4 + 4 + 4 + 4 + 4 + 4)%nat) in *.
  assert (Hreq : (let* base := checked USIZE_MAX (saturating_sub height 1 * stride) in checked USIZE_MAX (base + width * 4)) = Some (len pixels)).
  { unfold checked, saturating_sub. rewrite Z.max_r by lia. rewrite (proj2 (Z.leb_le _ _)) by nia.
    rewrite <- Hl. by rewrite (proj2 (Z.leb_le _ _)) by lia. }
  rewrite Hreq. cbn [ok_or result_bind].
  assert (Hrest : saturating_sub (len (payload p)) (Z.of_nat o) = len inline).
  { rewrite Hpay, !length_app, !length_to_le. unfold saturating_sub, o. lia. }
  rewrite Hrest.
  assert (Hactual : (match body p with [] => Ok (len inline) | _ => if len inline =? 0 then Ok (len (body p))
      else bail InvalidData "frame pixels are split across inline and owned payloads" end) = (Ok (len pixels) : io Z)).
  { destruct Hinline as [[-> ->] | [-> ->]]; [done |]. by destruct pixels. }
  rewrite Hactual. cbn [result_bind].
  rewrite (proj2 (Z.eqb_neq width 0)), (proj2 (Z.eqb_neq height 0)), !Z.eqb_refl by lia.
  replace (stride <? saturating_mul U32_MAX width 4) with false by (unfold saturating_mul; symmetry; apply Z.ltb_ge; lia).
  cbn [orb negb result_bind h_epoch h_full h_x h_y h_width h_height h_stride h_format]. rewrite Hd.
  replace (negb (bool_byte full =? 0)) with full by (by destruct full).
  do 3 f_equal. destruct Hinline as [[-> ->] | [-> ->]]; [done | by destruct pixels].
Qed.

(** The payload of an encoded frame, and the packet as it arrives. *)
Lemma encoded_frame session_id event p :
  encode_frame_packet session_id event = Ok p \/ encode_frame_packet_owned session_id event = Ok p ->
  exists epoch full x y width height stride format pixels,
    event = Bitmap epoch full x y width height stride format pixels /\ packet_type p = Frame /\
    len session_id <= U16_MAX /\ len pixels <= U32_MAX /\ len (payload p) + len (body p) <= FRAME_PAYLOAD_LIMIT /\
    payload p ++ body p = frame_bytes session_id epoch full x y width height stride format (len pixels) ++ pixels /\
    (body p = [] \/ body p = pixels).
Proof.
  destruct event as [| epoch full x y width height stride format pixels]; [by intros [|] |]. cbn [encode_frame_packet encode_frame_packet_owned].
  destruct (frame_header _ _ _ _ _ _ _ _ _ _) as [h |] eqn:E; [| by intros [|]]. cbn [result_bind].
  apply frame_header_bytes in E as (H1 & H2 & ->).
  set (fixed := frame_bytes session_id epoch full x y width height stride format (len pixels)).
  intros Hp. exists epoch, full, x, y, width, height, stride, format, pixels. split; [done |].
  destruct Hp as [Hp | Hp].
  - destruct (Z.ltb_spec FRAME_PAYLOAD_LIMIT (len (fixed ++ pixels))); [done |]. simplify_eq. cbn [packet_type payload body length].
    rewrite app_nil_r. split_and!; auto with lia.
  - unfold saturating_add in Hp. destruct (Z.ltb_spec FRAME_PAYLOAD_LIMIT (Z.min USIZE_MAX (len fixed + len pixels))) as [| Hlim]; [done |].
    unfold FRAME_PAYLOAD_LIMIT in *. simplify_eq. cbn [packet_type payload body length]. split_and!; auto with lia.
Qed.

(** A frame survives the way to the application.  A frame whose numbers fit their widths and that carries exactly the bytes of
    its rows is decoded from its packet as it was, with its session, whether the pixels were copied into the payload or
    handed over beside it, and also after the packet was written and its payload read back in one piece. *)
Theorem ipc_frame_roundtrip session_id event p : sendable session_id event ->
  encode_frame_packet session_id event = Ok p \/ encode_frame_packet_owned session_id event = Ok p ->
  decode_frame_packet_owned p = Ok (session_id, event) /\
  decode_frame_packet_owned (Pack (packet_type p) (payload p ++ body p) []) = Ok (session_id, event).
Proof.
  intros Hs (epoch & full & x & y & width & height & stride & format & pixels & -> & Ht & H1 & H2 & H3 & H4 & H5)%encoded_frame.
  unfold FRAME_PAYLOAD_LIMIT in H3. split; apply decode_frame_at; cbn [packet_type payload body]; rewrite ?length_app, ?app_nil_r; auto; lia.
Qed.

(** ** What is decoded *)

Lemma take_bytes_ok n payload offset l o : bytes_ok payload -> take_bytes n payload offset = Ok (l, o) ->
  bytes_ok l /\ length l = n /\ o = (offset + n)%nat /\ (o <= length payload)%nat.
Proof.
  intros Hb. unfold take_bytes, checked. destruct (Z.leb_spec (Z.of_nat (offset + n)) USIZE_MAX); [| done]. cbn [ok_or result_bind].
  destruct (Z.leb_spec (Z.of_nat (offset + n)) (len payload)); [| done]. intros [= <- <-].
  split_and!; [by apply Forall_take, Forall_drop | rewrite length_take, length_drop; lia | done | lia].
Qed.

Lemma take_int_ok n payload offset x o : bytes_ok payload -> take_int n payload offset = Ok (x, o) ->
  0 <= x < 256 ^ Z.of_nat n /\ o = (offset + n)%nat /\ (o <= length payload)%nat.
Proof.
  intros Hb. unfold take_int. destruct (take_bytes n payload offset) as [[l o'] |] eqn:E; [| done]. cbn [result_bind]. intros [= <- <-].
  apply take_bytes_ok in E as (Hl & <- & -> & Ho); [| done]. split_and!; [apply from_le_range | apply from_le_range | done | done]; done.
Qed.

Lemma take_session_ok payload offset s o : take_session payload offset = Ok (s, o) -> utf8_valid s = true.
Proof.
  unfold take_session. destruct (take_bytes 2 payload offset) as [[l o'] |]; [| done]. cbn [result_bind].
  destruct (checked _ _); [| done]. cbn [ok_or result_bind]. repeat case_match; [| done | done]. by intros [= <- <-].
Qed.

(** The next field that was read. *)
Ltac read_field Hb H :=
  match type of H with
  | context [result_bind (take_int ?n ?p ?o) _] =>
      let x := fresh "x" in let o' := fresh "o" in let E := fresh "E" in
      destruct (take_int n p o) as [[x o'] |] eqn:E; [| discriminate H]; cbn [result_bind] in H;
      apply (take_int_ok n p o x o' Hb) in E as (? & ? & ?)
  end.

Lemma decoded_frame_sendable p session_id event : bytes_ok (payload p) -> len (body p) <= USIZE_MAX -> len (payload p) <= USIZE_MAX ->
  decode_frame_packet_owned p = Ok (session_id, event) -> sendable session_id event.
Proof.
  intros Hb Hbody Hpay. unfold decode_frame_packet_owned, decode_frame_header, take_u32. intros H.
  destruct (bool_decide _); [cbn [negb] in H | discriminate H].
  destruct (take_session (payload p) 0) as [[s o] |] eqn:Es; [| discriminate H]. cbn [result_bind] in H. apply take_session_ok in Es.
  do 3 read_field Hb H.
  destruct (if x1 =? 1 then _ else _) as [format |]; [| discriminate H]. cbn [result_bind] in H.
  do 6 read_field Hb H.
  unfold checked in H. destruct (Z.leb_spec (saturating_sub x5 1 * x6) USIZE_MAX); [| discriminate H].
  destruct (Z.leb_spec (saturating_sub x5 1 * x6 + x4 * 4) USIZE_MAX); [| discriminate H]. cbn [ok_or result_bind] in H.
  set (pixels := match body p with [] => drop o8 (payload p) | b => b end) in H.
  set (actual := match body p with [] => Ok _ | _ => _ end) in H.
  assert (Ha : forall n, actual = Ok n -> n = len pixels /\ len pixels <= USIZE_MAX).
  { intros n. unfold actual, pixels, saturating_sub. destruct (body p) as [| b l]; [intros [= <-]; rewrite length_drop; lia |].
    destruct (_ =? 0); [| done]. intros [= <-]. done. }
  destruct actual as [n |]; [| discriminate H]. destruct (Ha n eq_refl) as [-> Hn]. cbn [result_bind] in H.
  destruct (_ || _) eqn:Ec; [discriminate H |]. cbn [result_bind h_epoch h_full h_x h_y h_width h_height h_stride h_format] in H. simplify_eq.
  rewrite !orb_false_iff, !negb_false_iff, !Z.eqb_neq, !Z.eqb_eq, Z.ltb_ge in Ec. unfold saturating_mul, saturating_sub in *.
  change (256 ^ Z.of_nat 4) with 4294967296 in *. change (256 ^ Z.of_nat 8) with 18446744073709551616 in *.
  cbn [sendable frame_ok]. unfold u64, u32. split_and!; try done; try lia.
  fold pixels. rewrite Z.max_r in Ec by lia. lia.
Qed.

(** What arrives can be painted.  A frame that was decoded from any packet is one that the framebuffer's checks expect: applying it
    never panics, and it is painted unless it belongs to another epoch or lies outside the buffer. *)
Theorem received_frame_paints p session_id event fb : bytes_ok (payload p) -> len (payload p) <= USIZE_MAX -> len (body p) <= USIZE_MAX ->
  decode_frame_packet_owned p = Ok (session_id, event) -> fb_ok fb ->
  exists fb' r, apply fb event = Some (fb', r) /\ fb_ok fb' /\
    match r with
    | Ok (Some _) => forall px py c, 0 <= px < fb_width fb -> 0 <= py < fb_height fb -> 0 <= c < 4 -> byte_at fb' px py c = shows fb event px py c
    | Err (StaleEpoch _ _) | Err OutOfBounds => fb' = fb
    | _ => False
    end.
Proof.
  intros Hb Hp Hbo Hd Hfb. apply decoded_frame_sendable in Hd; [| done ..].
  destruct event as [| epoch full x y width height stride format pixels]; [done |]. destruct Hd as (_ & _ & Hok & Hw & Hh & Hs & Hl).
  destruct (apply_paints fb _ Hfb Hok) as (fb' & -> & Hfb' & _ & _ & _ & Hr). exists fb', (applicable fb (Bitmap epoch full x y width height stride format pixels)).
  split; [done |]. split; [done |]. revert Hr. unfold applicable.
  rewrite (proj2 (Z.leb_le _ _) Hs), (proj2 (Z.eqb_eq _ _) Hl). cbn [andb negb]. by repeat case_match.
Qed.

(** ** Streams *)

Definition packet_ok (p : Packet) : Prop := len (payload p) + len (body p) <= payload_limit (packet_type p).

(** The bytes of a packet, and the packet as it is received. *)
Definition wire (p : Packet) : list Z :=
  [type_code (packet_type p)] ++ to_le_bytes 4 (len (payload p) + len (body p)) ++ payload p ++ body p.
Definition flat (p : Packet) : Packet := Pack (packet_type p) (payload p ++ body p) [].

Lemma limit_small t : 0 < payload_limit t <= 160 * 1024 * 1024.
Proof. destruct t; cbn; unfold CONTROL_PAYLOAD_LIMIT, FRAME_PAYLOAD_LIMIT, CURSOR_PAYLOAD_LIMIT; lia. Qed.

Lemma write_wire written p : packet_ok p -> write_packet_into written p = Ok (written ++ wire p).
Proof.
  intros Hp. unfold packet_ok in Hp. pose proof (limit_small (packet_type p)).
  unfold write_packet_into, payload_len, checked. rewrite (proj2 (Z.leb_le _ USIZE_MAX)) by lia. cbn [ok_or result_bind].
  rewrite (proj2 (Z.ltb_ge _ _)) by lia. rewrite (proj2 (Z.leb_le _ U32_MAX)) by lia. done.
Qed.

Lemma length_wire p : length (wire p) = (5 + length (payload p) + length (body p))%nat.
Proof. unfold wire. rewrite !length_app, length_to_le. cbn. lia. Qed.

Lemma try_from_code t : try_from (type_code t) = Ok t.
Proof. by destruct t. Qed.

(** The header that starts the bytes of a packet. *)
Lemma wire_header p rest : packet_ok p ->
  default 0 ((wire p ++ rest) !! 0%nat) = type_code (packet_type p) /\
  from_le_bytes (take 4 (drop 1 (wire p ++ rest))) = len (payload p) + len (body p) /\
  drop HEADER_LEN (wire p ++ rest) = payload p ++ body p ++ rest.
Proof.
  intros Hp. unfold packet_ok in Hp. pose proof (limit_small (packet_type p)). unfold wire. rewrite <- !app_assoc. cbn [app]. split; [done |].
  change (drop 1 (?c :: ?l)) with l. change (drop HEADER_LEN (?c :: ?l)) with (drop 4 l).
  rewrite take_app_le, take_ge, from_to_le by (rewrite ?length_to_le; cbn; lia). split; [done |].
  rewrite drop_app_ge, length_to_le by (rewrite length_to_le; lia). done.
Qed.

(** *** Reading *)

Definition pieces_ok (stream : list piece) : Prop := Forall (fun c => match c with Bytes l => l <> [] | Broken _ => False end) stream.
Definition piece_bytes (c : piece) : list Z := match c with Bytes l => l | Broken _ => [] end.
Definition content (stream : list piece) : list Z := concat (map piece_bytes stream).

Lemma read_piece_spec stream n : pieces_ok stream -> (0 < n)%nat ->
  exists l stream', read stream n = (Ok l, stream') /\ pieces_ok stream' /\ content stream = l ++ content stream' /\
    (length l <= n)%nat /\ (l = [] -> content stream = []).
Proof.
  intros Hs Hn. destruct stream as [| [l | e] stream]; cbn [read].
  - exists [], []. split_and!; try done. cbn. lia.
  - apply Forall_cons in Hs as [Hl Hs]. destruct (Nat.leb_spec (length l) n) as [Hle | Hgt].
    + exists l, stream. split_and!; try done.
    + exists (take n l), (Bytes (drop n l) :: stream). split_and!; try done.
      * constructor; [| done]. intros Hd%(f_equal length). rewrite length_drop in Hd. cbn in Hd. lia.
      * unfold content. cbn. by rewrite app_assoc, take_drop.
      * rewrite length_take. lia.
      * intros Ht%(f_equal length). rewrite length_take in Ht. cbn in Ht. lia.
  - apply Forall_cons in Hs as [[] _].
Qed.

Lemma read_header_spec fuel stream header : pieces_ok stream -> (length header <= HEADER_LEN <= fuel + length header)%nat ->
  exists stream', pieces_ok stream' /\
  if (HEADER_LEN <=? length header + length (content stream))%nat
  then read_header fuel stream header = (Ok (Some (take HEADER_LEN (header ++ content stream))), stream') /\
       content stream' = drop HEADER_LEN (header ++ content stream)
  else if (length header + length (content stream) =? 0)%nat then read_header fuel stream header = (Ok None, stream')
  else read_header fuel stream header = (bail UnexpectedEof "truncated helper IPC header", stream').
Proof.
  revert stream header. induction fuel as [| fuel IH]; intros stream header Hs Hh; cbn [read_header];
    destruct (Nat.ltb_spec (length header) HEADER_LEN) as [Hlt | Hge]; try lia.
  1,3: exists stream; split; [done |]; rewrite (proj2 (Nat.leb_le _ _)) by lia;
       rewrite take_app_le, take_ge, drop_app_ge by lia; by replace (HEADER_LEN - length header)%nat with 0%nat by lia.
  destruct (read_piece_spec stream (HEADER_LEN - length header) Hs) as (l & stream1 & -> & Hs1 & Hc & Hl & Hnil); [lia |].
  destruct l as [| b l].
  - rewrite (Hnil eq_refl) in *. cbn [length] in *. exists stream1. rewrite Nat.add_0_r.
    rewrite (proj2 (Nat.leb_gt _ _)) by lia. by destruct (length header =? 0)%nat.
  - destruct (IH stream1 (header ++ b :: l)) as (stream2 & Hs2 & H); [done | rewrite length_app; cbn [length] in *; lia |].
    exists stream2. split; [done |]. rewrite Hc. rewrite !length_app in *. rewrite <- app_assoc in H. cbn [length] in *.
    replace (length header + (S (length l) + length (content stream1)))%nat with (length header + S (length l) + length (content stream1))%nat by lia.
    exact H.
Qed.

Lemma read_exact_spec fuel stream n got : pieces_ok stream -> (length got <= n <= fuel + length got)%nat ->
  (n <= length got + length (content stream))%nat ->
  exists stream', read_exact fuel stream n got = (Ok (take n (got ++ content stream)), stream') /\ pieces_ok stream' /\
    content stream' = drop n (got ++ content stream).
Proof.
  revert stream got. induction fuel as [| fuel IH]; intros stream got Hs Hg Hn; cbn [read_exact];
    destruct (Nat.ltb_spec (length got) n) as [Hlt | Hge]; try lia.
  1,3: exists stream; rewrite take_app_le, take_ge, drop_app_ge by lia; split_and!; [done | done |];
       by replace (n - length got)%nat with 0%nat by lia.
  destruct (read_piece_spec stream (n - length got) Hs) as (l & stream1 & -> & Hs1 & Hc & Hl & Hnil); [lia |].
  destruct l as [| b l]; [rewrite (Hnil eq_refl) in Hn; cbn in Hn; lia |].
  rewrite Hc in *. rewrite length_app in Hn. cbn [length] in *.
  destruct (IH stream1 (got ++ b :: l)) as (stream2 & -> & Hs2 & H); [done | rewrite length_app; cbn [length]; lia .. |].
  exists stream2. rewrite <- app_assoc in *. by split_and!.
Qed.

(** One packet is read, whatever follows it and however the bytes arrive. *)
Lemma read_packet_spec budget allocate stream p rest :
  (forall n, allocate n = true) -> (forall reserve n, budget = Some reserve -> reserve n = true) ->
  pieces_ok stream -> packet_ok p -> content stream = wire p ++ rest ->
  exists stream', read_packet_inner budget allocate stream = (Ok (Some (flat p)), stream') /\ pieces_ok stream' /\ content stream' = rest.
Proof.
  intros Ha Hb Hs Hp Hc. unfold read_packet_inner.
  destruct (read_header_spec HEADER_LEN stream []) as (stream1 & Hs1 & Hh); [done | unfold HEADER_LEN; cbn [length]; lia |].
  cbn [length app] in Hh. destruct (Nat.leb_spec HEADER_LEN (0 + length (content stream))) as [_ | Hx].
  2: { rewrite Hc, length_app, length_wire in Hx. unfold HEADER_LEN in Hx. lia. }
  destruct Hh as [-> Hc1]. destruct (wire_header p rest Hp) as (H1 & H2 & H3).
  assert (H0 : take HEADER_LEN (content stream) !! 0%nat = (wire p ++ rest) !! 0%nat) by (rewrite Hc; done).
  rewrite H0, H1, try_from_code.
  assert (Ht : take 4 (drop 1 (take HEADER_LEN (content stream))) = take 4 (drop 1 (wire p ++ rest))).
  { by rewrite Hc, !take_drop_commute, take_take. }
  rewrite Ht, H2. unfold packet_ok in Hp. rewrite (proj2 (Z.ltb_ge _ _)) by lia.
  replace (negb (bool_decide (packet_type p = Control)) && match budget with Some reserve => negb (reserve _) | None => false end) with false.
  2: { destruct budget as [reserve |]; [rewrite (Hb reserve) by done; by rewrite andb_false_r | by rewrite andb_false_r]. }
  rewrite Ha. cbn [negb]. rewrite Hc, H3 in Hc1.
  destruct (read_exact_spec (Z.to_nat (len (payload p) + len (body p))) stream1 (Z.to_nat (len (payload p) + len (body p))) [])
    as (stream2 & -> & Hs2 & Hc2); [done | cbn; lia | rewrite Hc1, !length_app; cbn; lia |].
  exists stream2. cbn [app] in *. rewrite Hc1 in *. unfold flat.
  rewrite app_assoc in *. replace (Z.to_nat (len (payload p) + len (body p))) with (length (payload p ++ body p)) in * by (rewrite length_app; lia).
  rewrite take_app_length, drop_app_length in *. by split_and!.
Qed.

(** The packets that a reader gets until the stream ends. *)
Fixpoint read_packets (fuel : nat) (budget : option (Z -> bool)) (allocate : Z -> bool) (stream : list piece) : io (list Packet) :=
  match fuel with
  | O => Ok []
  | S fuel =>
      match read_packet_inner budget allocate stream with
      | (Err e, _) => Err e
      | (Ok None, _) => Ok []
      | (Ok (Some p), stream) => let? ps := read_packets fuel budget allocate stream in Ok (p :: ps)
      end
  end.

Lemma read_packets_more fuel budget allocate stream : read_packets (S fuel) budget allocate stream =
  match read_packet_inner budget allocate stream with
  | (Err e, _) => Err e
  | (Ok None, _) => Ok []
  | (Ok (Some p), stream) => let? ps := read_packets fuel budget allocate stream in Ok (p :: ps)
  end.
Proof. done. Qed.

Lemma read_end budget allocate stream : pieces_ok stream -> content stream = [] -> exists s, read_packet_inner budget allocate stream = (Ok None, s).
Proof.
  intros Hs Hc. unfold read_packet_inner.
  destruct (read_header_spec HEADER_LEN stream []) as (stream1 & Hs1 & Hh); [done | unfold HEADER_LEN; cbn [length]; lia |].
  rewrite Hc in Hh. change (HEADER_LEN <=? _)%nat with false in Hh. change (_ =? 0)%nat with true in Hh. rewrite Hh. by exists stream1.
Qed.

Lemma read_packets_spec budget allocate stream ps :
  (forall n, allocate n = true) -> (forall reserve n, budget = Some reserve -> reserve n = true) ->
  pieces_ok stream -> Forall packet_ok ps -> content stream = concat (map wire ps) ->
  read_packets (S (length ps)) budget allocate stream = Ok (map flat ps).
Proof.
  intros Ha Hb. revert stream. induction ps as [| p ps IH]; intros stream Hs Hp Hc.
  - destruct (read_end budget allocate stream Hs Hc) as [s Hr]. cbn [read_packets length]. by rewrite Hr.
  - apply Forall_cons in Hp as [Hp Hps].
    destruct (read_packet_spec budget allocate stream p (concat (map wire ps)) Ha Hb Hs Hp Hc) as (s & Hr & Hs' & Hc').
    change (S (length (p :: ps))) with (S (S (length ps))). rewrite read_packets_more, Hr.
    by rewrite (IH s Hs' Hps Hc').
Qed.

(** *** Incremental reading *)

(** What is left in the buffer: not yet a packet. *)
Definition partial (t : list Z) : Prop := t = [] \/ exists p rest, packet_ok p /\ wire p = t ++ rest /\ rest <> [].

Lemma push_loop_partial fuel buffer offset packets t : partial t -> drop offset buffer = t ->
  push_loop fuel buffer offset packets = Ok (packets, offset).
Proof.
  intros Ht Hd. assert (Hlen : (length buffer - offset)%nat = length t) by (by rewrite <- Hd, length_drop).
  destruct fuel as [| fuel]; cbn [push_loop]; destruct (Nat.leb_spec HEADER_LEN (length buffer - offset)) as [Hh |]; try done.
  destruct Ht as [-> | (p & rest & Hp & Hw & Hr)]; [cbn in Hlen; unfold HEADER_LEN in Hh; lia |].
  destruct (wire_header p [] Hp) as (H1 & H2 & _). rewrite app_nil_r, Hw in H1, H2. unfold HEADER_LEN in Hh.
  assert (Hb0 : buffer !! offset = t !! 0%nat) by (by rewrite <- Hd, lookup_drop, Nat.add_0_r).
  rewrite lookup_app_l in H1 by lia. rewrite Hb0, H1, try_from_code. cbn [result_bind].
  assert (Hb1 : take 4 (drop (offset + 1) buffer) = take 4 (drop 1 (t ++ rest))).
  { rewrite <- drop_drop, Hd, drop_app_le by lia. rewrite take_app_le; [done |]. rewrite length_drop. lia. }
  rewrite Hb1, H2. unfold packet_ok in Hp. rewrite (proj2 (Z.ltb_ge _ _)) by lia.
  pose proof (limit_small (packet_type p)). unfold checked, HEADER_LEN. rewrite (proj2 (Z.leb_le _ _)) by lia. cbn [ok_or result_bind].
  rewrite (proj2 (Z.ltb_lt _ _)); [done |].
  assert (Hrest : (0 < length rest)%nat) by (destruct rest; [done | cbn; lia]).
  pose proof (length_wire p) as Hlw. rewrite Hw, length_app in Hlw. lia.
Qed.

Lemma push_loop_spec ps fuel buffer offset packets t : Forall packet_ok ps -> partial t ->
  drop offset buffer = concat (map wire ps) ++ t -> (length buffer - offset <= fuel)%nat ->
  push_loop fuel buffer offset packets = Ok (packets ++ map flat ps, (offset + length (concat (map wire ps)))%nat).
Proof.
  intros Hps Ht. revert fuel offset packets. induction Hps as [| p ps Hp _ IH]; intros fuel offset packets Hd Hf.
  - cbn [map concat length]. rewrite app_nil_r, Nat.add_0_r. by apply (push_loop_partial _ _ _ _ t).
  - cbn [map concat] in *. rewrite <- app_assoc in Hd.
    assert (Hlen : (length buffer - offset)%nat = (length (wire p) + length (concat (map wire ps) ++ t))%nat)
      by (rewrite <- length_drop, Hd, length_app; done).
    rewrite length_wire in Hlen. destruct fuel as [| fuel]; [lia |]. cbn [push_loop].
    rewrite (proj2 (Nat.leb_le _ _)) by (unfold HEADER_LEN; lia).
    destruct (wire_header p (concat (map wire ps) ++ t) Hp) as (H1 & H2 & H3). rewrite <- Hd in *.
    rewrite lookup_drop, Nat.add_0_r in H1. rewrite drop_drop in H2, H3. rewrite H1, try_from_code. cbn [result_bind].
    rewrite H2, H3. pose proof (limit_small (packet_type p)). pose proof Hp as Hp'. unfold packet_ok in Hp'.
    rewrite (proj2 (Z.ltb_ge _ _)) by lia. unfold checked. rewrite (proj2 (Z.leb_le _ _)) by (unfold HEADER_LEN; lia).
    cbn [ok_or result_bind]. rewrite (proj2 (Z.ltb_ge _ _)) by (unfold HEADER_LEN; lia).
    assert (Hpk : take (Z.to_nat (len (payload p) + len (body p))) (payload p ++ body p ++ concat (map wire ps) ++ t) = payload p ++ body p).
    { rewrite app_assoc, take_app_le, take_ge by (rewrite length_app; lia). done. }
    assert (Hwl : length (wire p) = Z.to_nat (Z.of_nat HEADER_LEN + (len (payload p) + len (body p))))
      by (rewrite length_wire; unfold HEADER_LEN; lia).
    rewrite Hpk, <- Hwl. rewrite IH.
    + rewrite <- app_assoc, length_app. cbn [app]. unfold flat. f_equal. f_equal. lia.
    + by rewrite <- drop_drop, Hd, drop_app_length.
    + rewrite length_wire. lia.
Qed.

Lemma push_spec ps buffer bytes t : Forall packet_ok ps -> partial t -> buffer ++ bytes = concat (map wire ps) ++ t ->
  push buffer bytes = (t, Ok (map flat ps)).
Proof.
  intros Hps Ht Hb. unfold push. rewrite (push_loop_spec ps _ _ _ _ t); [| done | done | done | lia]. cbn [app].
  by rewrite Hb, Nat.add_0_l, drop_app_length.
Qed.

(** All the packets a [PacketReader] returns for the pieces it is given, until an error. *)
Fixpoint push_all (buffer : list Z) (chunks : list (list Z)) : list Z * io (list Packet) :=
  match chunks with
  | [] => (buffer, Ok [])
  | bytes :: chunks =>
      let (buffer, r) := push buffer bytes in
      match r with
      | Err e => (buffer, Err e)
      | Ok packets => let (buffer, r) := push_all buffer chunks in (buffer, let? more := r in Ok (packets ++ more))
      end
  end.

(** Where a prefix of a stream ends. *)
Lemma cut_stream ps pre post : Forall packet_ok ps -> pre ++ post = concat (map wire ps) ->
  exists ps1 ps2 t, ps = ps1 ++ ps2 /\ pre = concat (map wire ps1) ++ t /\ partial t /\ t ++ post = concat (map wire ps2).
Proof.
  intros Hps. revert pre. induction Hps as [| p ps Hp Hps IH]; intros pre Hc; cbn [map concat] in Hc.
  - apply app_nil in Hc as [-> ->]. exists [], [], []. split_and!; try done. by left.
  - destruct (decide (length pre < length (wire p))%nat) as [Hl | Hl].
    + exists [], (p :: ps), pre. split_and!; try done. right. exists p, (drop (length pre) (wire p)).
      assert (Hw : wire p = pre ++ drop (length pre) (wire p)).
      { rewrite <- (take_drop (length pre) (wire p)) at 1. f_equal.
        apply (f_equal (take (length pre))) in Hc. rewrite take_app_length, take_app_le in Hc by lia. done. }
      split_and!; [done | done |]. intros Hd%(f_equal length). rewrite length_drop in Hd. cbn [length] in Hd. lia.
    + assert (Hpre : pre = wire p ++ drop (length (wire p)) pre).
      { rewrite <- (take_drop (length (wire p)) pre) at 1. f_equal.
        apply (f_equal (take (length (wire p)))) in Hc. rewrite take_app_length, take_app_le in Hc by lia. done. }
      rewrite Hpre, <- app_assoc in Hc. apply app_inv_head in Hc. apply IH in Hc as (ps1 & ps2 & t & -> & H1 & H2 & H3).
      exists (p :: ps1), ps2, t. split_and!; try done. cbn [map concat]. by rewrite <- app_assoc, <- H1.
Qed.

(** A packet is not the beginning of another. *)
Lemma partial_none t ps : partial t -> Forall packet_ok ps -> t = concat (map wire ps) -> ps = [].
Proof.
  intros Ht Hps Hc. destruct ps as [| p ps]; [done | exfalso]. apply Forall_cons in Hps as [Hp _]. cbn [map concat] in Hc.
  destruct Ht as [-> | (p' & rest & Hp' & Hw & Hr)]; [apply (f_equal length) in Hc; rewrite length_app, length_wire in Hc; discriminate Hc |].
  rewrite Hc, <- app_assoc in Hw. destruct (wire_header p (concat (map wire ps) ++ rest) Hp) as (_ & H1 & _).
  destruct (wire_header p' [] Hp') as (_ & H2 & _). rewrite app_nil_r, Hw in H2.
  apply (f_equal length) in Hw. rewrite !length_app, !length_wire in Hw. destruct rest; [done | cbn [length] in Hw; lia].
Qed.

Lemma push_all_spec chunks t ps : Forall packet_ok ps -> partial t -> t ++ concat chunks = concat (map wire ps) ->
  push_all t chunks = ([], Ok (map flat ps)).
Proof.
  revert t ps. induction chunks as [| bytes chunks IH]; intros t ps Hps Ht Hc; cbn [push_all concat] in *.
  - rewrite app_nil_r in Hc. assert (ps = []) as -> by (by apply (partial_none t)). by cbn in Hc; subst.
  - rewrite app_assoc in Hc. destruct (cut_stream ps (t ++ bytes) (concat chunks) Hps Hc) as (ps1 & ps2 & t' & -> & H1 & H2 & H3).
    apply Forall_app in Hps as [Hps1 Hps2]. rewrite (push_spec ps1 t bytes t') by done. rewrite (IH t' ps2) by done.
    cbn [result_bind]. by rewrite map_app.
Qed.

Definition write_all (ps : list Packet) : io (list Z) :=
  fold_left (fun r p => let? written := r in write_packet_into written p) ps (Ok []).

Lemma write_all_wire ps : Forall packet_ok ps -> write_all ps = Ok (concat (map wire ps)).
Proof.
  unfold write_all. change (concat (map wire ps)) with ([] ++ concat (map wire ps)). generalize (@nil Z) as written.
  induction ps as [| p ps IH]; intros written Hps; cbn [fold_left map concat]; [by rewrite app_nil_r |].
  apply Forall_cons in Hps as [Hp Hps]. cbn [result_bind]. rewrite write_wire, IH by done. by rewrite app_assoc.
Qed.

(** C26: packets survive the pipe between the application and a helper.  Whatever packets within the limits are written one after another,
    and however the operating system cuts the bytes into pieces, a reader gets exactly these packets in their order and then
    the end of the stream, and an incremental reader returns exactly them and keeps nothing back. *)
Theorem ipc_stream_roundtrip ps budget allocate stream chunks :
  Forall packet_ok ps -> (forall n, allocate n = true) -> (forall reserve n, budget = Some reserve -> reserve n = true) ->
  pieces_ok stream -> write_all ps = Ok (content stream) -> concat chunks = content stream ->
  read_packets (S (length ps)) budget allocate stream = Ok (map flat ps) /\ push_all [] chunks = ([], Ok (map flat ps)).
Proof.
  intros Hps Ha Hb Hs Hw Hc. rewrite write_all_wire in Hw by done. simplify_eq. split; [by apply read_packets_spec |].
  apply push_all_spec; [done | by left | cbn [app]; congruence].
Qed.

(** ** Cursors *)

Definition cursor_ok (event : RemoteCursorEvent) : Prop :=
  match event with
  | Shape s => u64 (shape_id s) /\ u32 (c_width s) /\ u32 (c_height s) /\ u32 (hotspot_x s) /\ u32 (hotspot_y s) /\
      len (c_pixels s) = c_width s * c_height s * 4
  | Position x y => u32 x /\ u32 y
  | Visibility _ => True
  end.

(** The bytes of a cursor after its session. *)
Definition cursor_bytes (event : RemoteCursorEvent) : list Z :=
  match event with
  | Shape s => to_le_bytes 1 1 ++ to_le_bytes 8 (shape_id s) ++ to_le_bytes 4 (c_width s) ++ to_le_bytes 4 (c_height s) ++
      to_le_bytes 4 (hotspot_x s) ++ to_le_bytes 4 (hotspot_y s) ++ to_le_bytes 4 (len (c_pixels s)) ++ c_pixels s
  | Position x y => to_le_bytes 1 2 ++ to_le_bytes 4 x ++ to_le_bytes 4 y
  | Visibility visible => to_le_bytes 1 3 ++ to_le_bytes 1 (bool_byte visible)
  end.

#[local] Instance ok_inj A E : Inj (=) (=) (@Ok A E).
Proof. by intros x y [= ->]. Qed.

Lemma encoded_cursor session_id event p : encode_cursor_packet session_id event = Ok p ->
  len session_id <= U16_MAX /\ match event with Shape s => len (c_pixels s) <= U32_MAX | _ => True end /\
  p = Pack Cursor (to_le_bytes 2 (len session_id) ++ session_id ++ cursor_bytes event) [] /\ len (payload p) <= CURSOR_PAYLOAD_LIMIT.
Proof.
  unfold encode_cursor_packet, put_session, checked. destruct (Z.leb_spec (len session_id) U16_MAX); [| done]. cbn [ok_or result_bind app].
  intros H'. split; [done |]. destruct event as [s | x y | visible]; cbn [result_bind] in H'.
  - destruct (Z.leb_spec (len (c_pixels s)) U32_MAX); [| done]. cbn [ok_or result_bind] in H'.
    destruct (_ <? _) eqn:E; [done |]. apply Z.ltb_ge in E. apply (inj Ok) in H' as <-. split_and!; [done | | done].
    unfold put_u32, cursor_bytes. cbn [fold_left]. by rewrite <- !app_assoc.
  - destruct (_ <? _) eqn:E; [done |]. apply Z.ltb_ge in E. apply (inj Ok) in H' as <-. split_and!; [done | | done].
    unfold put_u32, cursor_bytes. by rewrite <- !app_assoc.
  - destruct (_ <? _) eqn:E; [done |]. apply Z.ltb_ge in E. apply (inj Ok) in H' as <-. split_and!; [done | | done].
    unfold cursor_bytes. rewrite <- !app_assoc. by destruct visible.
Qed.

(** A cursor survives the way to the application. *)
Lemma cursor_roundtrip session_id event p : utf8_valid session_id = true -> cursor_ok event ->
  encode_cursor_packet session_id event = Ok p -> decode_cursor_packet p = Ok (session_id, event).
Proof.
  intros Hu Hok (Hs & Hpix & -> & Hlim)%encoded_cursor. unfold CURSOR_PAYLOAD_LIMIT in Hlim. cbn [payload] in Hlim.
  unfold decode_cursor_packet, decode_cursor_payload. rewrite bool_decide_true by done. cbn [negb payload].
  set (pay := to_le_bytes 2 (len session_id) ++ session_id ++ cursor_bytes event) in *.
  destruct (take_session_at pay session_id (cursor_bytes event)) as [-> Hd]; [done | done | done | lia |]. cbn [result_bind].
  assert (Hlen : length pay = (2 + length session_id + length (cursor_bytes event))%nat)
    by (unfold pay; rewrite !length_app, length_to_le; lia).
  assert (Hp : len pay <= USIZE_MAX) by lia. clearbody pay.
  destruct event as [[id w h hx hy pixels] | x y | visible]; cbn [cursor_bytes shape_id c_width c_height hotspot_x hotspot_y c_pixels] in *;
    cbn [cursor_ok shape_id c_width c_height hotspot_x hotspot_y c_pixels] in Hok; unfold u32, u64 in *.
  - field Hd. change (1 =? 1) with true. cbn iota. do 6 field Hd.
    unfold checked. rewrite !(proj2 (Z.leb_le _ USIZE_MAX)) by nia. cbn [ok_or result_bind].
    destruct Hok as (_ & _ & _ & _ & _ & Hl). rewrite <- Hl, Z.eqb_refl. unfold saturating_sub.
    rewrite (proj2 (Z.eqb_eq _ _)) by (rewrite Hlen, !length_app, !length_to_le; lia). cbn [negb orb andb is_shape result_bind].
    cbn [shape_id c_width c_height hotspot_x hotspot_y]. by rewrite Hd.
  - rewrite <- (app_nil_r (to_le_bytes 4 y)) in Hd. field Hd. change (2 =? 1) with false. change (2 =? 2) with true. cbn iota.
    do 2 field Hd. cbn [is_shape negb andb].
    rewrite !length_app, !length_to_le in Hlen.
    match goal with |- context [(?o =? length pay)%nat] => replace (o =? length pay)%nat with true by (symmetry; apply Nat.eqb_eq; lia) end. done.
  - assert (Hv : 0 <= bool_byte visible < 256) by (destruct visible; cbn; lia).
    rewrite <- (app_nil_r (to_le_bytes 1 (bool_byte visible))) in Hd. field Hd.
    change (3 =? 1) with false. change (3 =? 2) with false. change (3 =? 3) with true. cbn iota. field Hd. cbn [is_shape negb andb].
    rewrite !length_app, !length_to_le in Hlen.
    match goal with |- context [(?o =? length pay)%nat] => replace (o =? length pay)%nat with true by (symmetry; apply Nat.eqb_eq; lia) end.
    by destruct visible.
Qed.

Module IpcTrial.
(** The session [s], and two red pixels for it. *)
Definition session : list Z := [115].
Definition event : RemoteFrameEvent := Bitmap 7 true 0 1 2 1 8 Rgba8 [255; 0; 0; 255; 255; 0; 0; 255].
Definition packet : Packet := Eval vm_compute in match encode_frame_packet session event with Ok p => p | Err _ => Pack Control [] [] end.
Definition screen : Framebuffer := Buffer 2 2 7 (replicate 16 0).

Lemma event_sendable : sendable session event.
Proof. vm_compute. repeat split; intro; discriminate. Qed.

Lemma frame_roundtrip_witness : decode_frame_packet_owned packet = Ok (session, event).
Proof. apply (ipc_frame_roundtrip session event packet event_sendable). left. vm_compute. reflexivity. Defined.

Lemma received_frame_witness : exists fb' r, apply screen event = Some (fb', r) /\ fb_ok fb'.
Proof.
  destruct (received_frame_paints packet session event screen) as (fb' & r & H1 & H2 & _).
  - repeat constructor; vm_compute; intro; discriminate.
  - vm_compute. intro; discriminate.
  - vm_compute. intro; discriminate.
  - vm_compute. reflexivity.
  - vm_compute. repeat split; intro; discriminate.
  - exists fb', r. split; [exact H1 | exact H2].
Defined.

(** Two packets whose bytes arrive as three and then the rest, or one by one. *)
Definition packets : list Packet := [packet; Pack Control [123; 125] []].
Definition bytes : list Z := Eval vm_compute in concat (map wire packets).
Definition pipe : list piece := [Bytes (take 3 bytes); Bytes (drop 3 bytes)].

Lemma stream_witness : read_packets 3 None (fun _ => true) pipe = Ok (map flat packets) /\
  push_all [] (map (fun b => [b]) bytes) = ([], Ok (map flat packets)).
Proof.
  apply (ipc_stream_roundtrip packets None (fun _ => true) pipe (map (fun b => [b]) bytes)).
  - repeat constructor; vm_compute; intro; discriminate.
  - intros n. reflexivity.
  - intros reserve n. discriminate.
  - repeat constructor; discriminate.
  - vm_compute. reflexivity.
  - vm_compute. reflexivity.
Defined.
End IpcTrial.
