(* ===== verification/RemoteQueue.v ===== *)
(** The queue between the reader of a remote desktop helper and the view,
    zzclawterm-remote-desktop/src/session.rs ([EventQueue]) with the events of
    protocol.rs.  Every operation is what happens while the queue's lock is held;
    a push that has to wait for space is one that gives [None], and it is tried
    again when the queue has changed.  Waking the view is not modelled. *)
From stdpp Require Import base list numbers strings gmap.
From Stdlib Require Import ZArith Lia.
From S2P Require Import Prelude RemoteFrame RemoteIpc.

(** ** Events *)

Inductive RdpErrorKind :=
| ResourceExhausted | Authentication | CertificateRejected | TimedOut | ConnectionRefused | Tls | Transport | SessionEnded
| ClipboardKind | Negotiation | HelperMissing | HelperCrashed | Ipc | Protocol | Unsupported.

Record RdpError := RdpError_new { error_kind : RdpErrorKind; error_message : list Z }.

Inductive RdpSessionState :=
| Idle | Connecting | Connected | Reconnecting | Disconnecting | Disconnected | Failed (error : RdpError) | Active | Closed.

Inductive RdpClipboardTransferStatus := Running | Completed | TransferFailed | Cancelled.

Record RdpClipboardTransferProgress := Progress {
  transfer_id : list Z; transfer_name : list Z; transfer_status : RdpClipboardTransferStatus; total_bytes : Z;
  transferred_bytes : Z; total_files : Z; completed_files : Z; transfer_error : option (list Z) }.

Record RdpCertificateRequest := CertificateRequest {
  request_id : list Z; host : list Z; port : Z; sha256_fingerprint : list Z; subject : option (list Z);
  issuer : option (list Z); valid_from : option (list Z); valid_to : option (list Z) }.

Inductive RdpCapability := DynamicResizeUnavailable.

Inductive RdpRuntimeEvent :=
| EvState (session_id : list Z) (state : RdpSessionState) (message : option (list Z))
| EvFrame (session_id : list Z) (event : RemoteFrameEvent)
| EvCursor (session_id : list Z) (event : RemoteCursorEvent)
| EvClipboard (session_id text : list Z) (generation : Z)
| EvClipboardTransfer (session_id : list Z) (progress : RdpClipboardTransferProgress)
| EvCertificateRequest (request : RdpCertificateRequest)
| EvCapability (session_id : list Z) (capability : RdpCapability)
| EvError (session_id : list Z) (error : RdpError) (fatal : bool).

(** ** Costs and limits *)

Definition FRAME_QUEUE_LIMIT : Z := 64.
Definition FRAME_QUEUE_BYTE_LIMIT : Z := FRAME_PAYLOAD_LIMIT.
Definition CONTROL_QUEUE_LIMIT : Z := 256.
Definition CONTROL_QUEUE_BYTE_LIMIT : Z := 4 * 1024 * 1024.

(** [map_or(0, String::len)]. *)
Definition text_len (text : option (list Z)) : Z := match text with Some text => len text | None => 0 end.

Definition control_byte_cost (event : RdpRuntimeEvent) : Z :=
  match event with
  | EvState session_id _ message => len session_id + text_len message + 64
  | EvFrame session_id _ => len session_id + 64
  | EvCursor session_id event =>
      len session_id + match event with Shape shape => len (c_pixels shape) + 64 | Position _ _ | Visibility _ => 32 end
  | EvClipboard session_id text _ => len session_id + len text + 64
  | EvClipboardTransfer session_id progress =>
      len session_id + len (transfer_id progress) + len (transfer_name progress) + text_len (transfer_error progress) + 128
  | EvCertificateRequest request =>
      len (request_id request) + len (host request) + len (sha256_fingerprint request) + text_len (subject request) +
      text_len (issuer request) + text_len (valid_from request) + text_len (valid_to request) + 128
  | EvCapability session_id _ => len session_id + 32
  | EvError session_id error _ => len session_id + len (error_message error) + 64
  end.

(** ** The queue *)

Record EventQueueState := Queue {
  control : list RdpRuntimeEvent;
  control_bytes : Z;
  frames : list RemoteFrameEvent;
  frame_bytes : Z;
  cursor_shape : option CursorShape;
  cursor_position : option (Z * Z);
  cursor_visibility : option bool;
  current_epoch : option Z;
  closed : bool }.

Definition empty_queue : EventQueueState := Queue [] 0 [] 0 None None None None false.

Definition with_control (q : EventQueueState) (events : list RdpRuntimeEvent) (bytes : Z) : EventQueueState :=
  Queue events bytes (frames q) (frame_bytes q) (cursor_shape q) (cursor_position q) (cursor_visibility q) (current_epoch q) (closed q).
Definition with_frames (q : EventQueueState) (fs : list RemoteFrameEvent) (bytes : Z) : EventQueueState :=
  Queue (control q) (control_bytes q) fs bytes (cursor_shape q) (cursor_position q) (cursor_visibility q) (current_epoch q) (closed q).
Definition with_cursor (q : EventQueueState) (shape : option CursorShape) (position : option (Z * Z)) (visibility : option bool) : EventQueueState :=
  Queue (control q) (control_bytes q) (frames q) (frame_bytes q) shape position visibility (current_epoch q) (closed q).

Definition control_full (q : EventQueueState) (cost : Z) : bool :=
  (CONTROL_QUEUE_LIMIT <=? len (control q)) || (CONTROL_QUEUE_BYTE_LIMIT <? saturating_add USIZE_MAX (control_bytes q) cost).

Definition push_control (event : RdpRuntimeEvent) (q : EventQueueState) : option (EventQueueState * bool) :=
  let cost := control_byte_cost event in
  if negb (closed q) && control_full q cost then None
  else if closed q then Some (q, false)
  else Some (with_control q (control q ++ [event]) (control_bytes q + cost), true).

Definition push_control_force (event : RdpRuntimeEvent) (q : EventQueueState) : EventQueueState :=
  with_control q (control q ++ [event]) (saturating_add USIZE_MAX (control_bytes q) (control_byte_cost event)).

Definition push_cursor (cursor : RemoteCursorEvent) (q : EventQueueState) : EventQueueState * bool :=
  if closed q then (q, false)
  else (match cursor with
        | Shape shape => with_cursor q (Some shape) (cursor_position q) (cursor_visibility q)
        | Position x y => with_cursor q (cursor_shape q) (Some (x, y)) (cursor_visibility q)
        | Visibility visible => with_cursor q (cursor_shape q) (cursor_position q) (Some visible)
        end, true).

(** The first part of [push_reset]; the second is a [push_control] of the reset. *)
Definition push_reset (epoch : Z) (q : EventQueueState) : option EventQueueState :=
  if closed q then None else Some (Queue (control q) (control_bytes q) [] 0 None None None (Some epoch) (closed q)).

Definition frame_epoch (frame : RemoteFrameEvent) : option Z :=
  match frame with Bitmap epoch _ _ _ _ _ _ _ _ => Some epoch | Reset _ _ _ => None end.

(** [epoch.is_some() && state.current_epoch != epoch]. *)
Definition stale (frame : RemoteFrameEvent) (q : EventQueueState) : bool :=
  match frame_epoch frame with Some epoch => negb (bool_decide (current_epoch q = Some epoch)) | None => false end.

Definition frames_full (item_limit byte_limit : Z) (q : EventQueueState) (cost : Z) : bool :=
  (item_limit <=? len (frames q)) || (byte_limit <? saturating_add USIZE_MAX (frame_bytes q) cost).

Definition push_frame (item_limit byte_limit : Z) (frame : RemoteFrameEvent) (q : EventQueueState) : option (EventQueueState * bool) :=
  let cost := frame_byte_cost frame in
  if byte_limit <? cost then Some (q, false)
  else if stale frame q then Some (q, false)
  else if negb (closed q) && frames_full item_limit byte_limit q cost then None
  else if closed q then Some (q, false)
  else Some (with_frames q (frames q ++ [frame]) (frame_bytes q + cost), true).

Record RdpSessionDrain := Drain { d_control : list RdpRuntimeEvent; d_frames : list RemoteFrameEvent; d_cursors : list RemoteCursorEvent }.

Definition frames_cost (fs : list RemoteFrameEvent) : Z := foldr (fun frame total => frame_byte_cost frame + total) 0 fs.

Definition drain_with_limit (bounded : bool) (q : EventQueueState) : EventQueueState * RdpSessionDrain :=
  let count := if bounded then frame_batch_len (frames q) else length (frames q) in
  let taken := take count (frames q) in
  let cursors :=
    match cursor_shape q with Some shape => [Shape shape] | None => [] end ++
    match cursor_position q with Some (x, y) => [Position x y] | None => [] end ++
    match cursor_visibility q with Some visible => [Visibility visible] | None => [] end in
  (Queue [] 0 (drop count (frames q)) (saturating_sub (frame_bytes q) (frames_cost taken)) None None None (current_epoch q) (closed q),
   Drain (control q) taken cursors).

Definition close (q : EventQueueState) : EventQueueState := Queue [] 0 [] 0 None None None (current_epoch q) true.

(** [drain_events]: everything in the order in which the view applies it. *)
Definition drain_events (session_id : list Z) (q : EventQueueState) : EventQueueState * list RdpRuntimeEvent :=
  let (q, drain) := drain_with_limit false q in
  (q, d_control drain ++ map (EvFrame session_id) (d_frames drain) ++ map (EvCursor session_id) (d_cursors drain)).

(** ** What every queue keeps to *)

Definition events_cost (events : list RdpRuntimeEvent) : Z := foldr (fun event total => control_byte_cost event + total) 0 events.

Record queue_ok (q : EventQueueState) : Prop := {
  ok_frame_bytes : frame_bytes q = frames_cost (frames q);
  ok_frame_cost : frames_cost (frames q) <= FRAME_QUEUE_BYTE_LIMIT;
  ok_frame_items : len (frames q) <= FRAME_QUEUE_LIMIT;
  ok_epoch : Forall (fun frame => is_Some (frame_epoch frame) /\ frame_epoch frame = current_epoch q) (frames q);
  ok_control : closed q = false ->
    control_bytes q = events_cost (control q) /\ events_cost (control q) <= CONTROL_QUEUE_BYTE_LIMIT /\ len (control q) <= CONTROL_QUEUE_LIMIT;
  ok_closed : closed q = true ->
    frames q = [] /\ cursor_shape q = None /\ cursor_position q = None /\ cursor_visibility q = None }.

Lemma frames_cost_nonneg fs : 0 <= frames_cost fs.
Proof.
  induction fs as [| f fs IH]; cbn [frames_cost foldr]; [lia |]. unfold frames_cost in IH.
  assert (0 <= frame_byte_cost f) by (destruct f; cbn [frame_byte_cost]; lia). lia.
Qed.

Lemma frames_cost_app fs gs : frames_cost (fs ++ gs) = frames_cost fs + frames_cost gs.
Proof. induction fs as [| f fs IH]; [done |]. cbn [app frames_cost foldr] in *. unfold frames_cost in *. lia. Qed.

Lemma control_byte_cost_nonneg event : 0 <= control_byte_cost event.
Proof.
  assert (Ht : forall t, 0 <= text_len t) by (intros [t |]; cbn [text_len]; lia).
  destruct event as [? ? m | | ? [] | | ? [] | [] | |]; cbn [control_byte_cost transfer_id transfer_name transfer_error request_id host
    sha256_fingerprint subject issuer valid_from valid_to]; repeat match goal with |- context [text_len ?t] => pose proof (Ht t); generalize dependent (text_len t); intros end; lia.
Qed.

Lemma events_cost_nonneg events : 0 <= events_cost events.
Proof. induction events as [| e es IH]; cbn [events_cost foldr]; [lia |]. unfold events_cost in IH. pose proof (control_byte_cost_nonneg e). lia. Qed.

Lemma events_cost_app es fs : events_cost (es ++ fs) = events_cost es + events_cost fs.
Proof. induction es as [| e es IH]; [done |]. cbn [app events_cost foldr] in *. unfold events_cost in *. lia. Qed.

Lemma frames_cost_snoc fs f : frames_cost (fs ++ [f]) = frames_cost fs + frame_byte_cost f.
Proof. rewrite frames_cost_app. unfold frames_cost at 2. cbn [foldr]. lia. Qed.

Lemma events_cost_snoc es e : events_cost (es ++ [e]) = events_cost es + control_byte_cost e.
Proof. rewrite events_cost_app. unfold events_cost at 2. cbn [foldr]. lia. Qed.

Lemma queue_ok_empty : queue_ok empty_queue.
Proof. split; cbn; try done; try lia; unfold FRAME_QUEUE_BYTE_LIMIT, FRAME_PAYLOAD_LIMIT; lia. Qed.

Lemma push_control_cases event q q' pushed : push_control event q = Some (q', pushed) ->
  closed q = true /\ q' = q /\ pushed = false \/
  closed q = false /\ control_full q (control_byte_cost event) = false /\ pushed = true /\
    q' = with_control q (control q ++ [event]) (control_bytes q + control_byte_cost event).
Proof.
  unfold push_control. destruct (closed q) eqn:Hc; cbn [negb andb]; [intros [= <- <-]; auto |].
  destruct (control_full q _) eqn:Hf; [done |]. intros [= <- <-]. right. auto.
Qed.

Lemma queue_ok_push_control event q q' pushed : queue_ok q -> push_control event q = Some (q', pushed) -> queue_ok q'.
Proof.
  intros Hq [(_ & -> & _) | (Hc & Hf & _ & ->)]%push_control_cases; [done |].
  apply orb_false_iff in Hf as [H1%Z.leb_gt H2%Z.ltb_ge]. destruct Hq. destruct (ok_control0 Hc) as (Hb & Hl & Hn).
  unfold saturating_add, CONTROL_QUEUE_BYTE_LIMIT, CONTROL_QUEUE_LIMIT in *. assert (4 * 1024 * 1024 < USIZE_MAX) by (vm_compute; done).
  split; cbn [with_control frame_bytes frames control control_bytes current_epoch closed cursor_shape cursor_position cursor_visibility]; auto.
  - intros _. rewrite events_cost_snoc, length_app. cbn [length]. unfold CONTROL_QUEUE_BYTE_LIMIT, CONTROL_QUEUE_LIMIT. split_and!; lia.
Qed.

Lemma queue_ok_force event q : queue_ok q -> closed q = true -> queue_ok (push_control_force event q).
Proof. intros [] Hc. split; cbn; auto. congruence. Qed.

Lemma queue_ok_push_cursor cursor q : queue_ok q -> queue_ok (fst (push_cursor cursor q)).
Proof.
  intros Hq. unfold push_cursor. destruct (closed q) eqn:Hc; [done |]. destruct Hq.
  destruct cursor; split; cbn [fst with_cursor frame_bytes frames control control_bytes current_epoch closed]; auto; congruence.
Qed.

Lemma queue_ok_push_reset epoch q q' : queue_ok q -> push_reset epoch q = Some q' -> queue_ok q'.
Proof.
  intros Hq. unfold push_reset. destruct (closed q) eqn:Hc; [done |]. intros [= <-]. destruct Hq.
  split; cbn [frame_bytes frames control control_bytes current_epoch closed frames_cost foldr length]; auto; try done.
Qed.

Lemma push_frame_cases item byte frame q q' pushed : push_frame item byte frame q = Some (q', pushed) ->
  q' = q /\ pushed = false /\ (byte < frame_byte_cost frame \/ stale frame q = true \/ closed q = true) \/
  closed q = false /\ stale frame q = false /\ frames_full item byte q (frame_byte_cost frame) = false /\ pushed = true /\
    q' = with_frames q (frames q ++ [frame]) (frame_bytes q + frame_byte_cost frame).
Proof.
  unfold push_frame. destruct (byte <? frame_byte_cost frame) eqn:Hb; [intros [= <- <-]; left; split_and!; auto; left; lia |].
  destruct (stale frame q) eqn:Hs; [intros [= <- <-]; left; auto |].
  destruct (closed q) eqn:Hc; cbn [negb andb]; [intros [= <- <-]; left; auto |].
  destruct (frames_full item byte q _) eqn:Hf; [done |]. intros [= <- <-]. right. auto.
Qed.

Lemma fresh_epoch frame q epoch : frame_epoch frame = Some epoch -> stale frame q = false -> current_epoch q = Some epoch.
Proof. unfold stale. intros ->. by intros ?%negb_false_iff%bool_decide_eq_true. Qed.

Lemma queue_ok_push_frame frame q q' pushed : queue_ok q -> is_Some (frame_epoch frame) ->
  push_frame FRAME_QUEUE_LIMIT FRAME_QUEUE_BYTE_LIMIT frame q = Some (q', pushed) -> queue_ok q'.
Proof.
  intros Hq [epoch He] [(-> & _) | (Hc & Hs & Hf & _ & ->)]%push_frame_cases; [done |].
  pose proof (fresh_epoch _ _ _ He Hs) as Hce. apply orb_false_iff in Hf as [H1%Z.leb_gt H2%Z.ltb_ge]. destruct Hq.
  unfold saturating_add in H2. rewrite ok_frame_bytes0 in *. assert (FRAME_QUEUE_BYTE_LIMIT < USIZE_MAX) by (vm_compute; done).
  split; cbn [with_frames frame_bytes frames control control_bytes current_epoch closed cursor_shape cursor_position cursor_visibility]; auto.
  - rewrite frames_cost_snoc. lia.
  - rewrite frames_cost_snoc. lia.
  - rewrite length_app. cbn [length]. lia.
  - apply Forall_app. split; [done |]. constructor; [| done]. rewrite He. split; [by eexists | done].
  - congruence.
Qed.

Lemma queue_ok_drain bounded q q' drain : queue_ok q -> drain_with_limit bounded q = (q', drain) -> queue_ok q'.
Proof.
  intros []. unfold drain_with_limit. intros [= <- _]. revert ok_frame_bytes0. generalize (if bounded then frame_batch_len (frames q) else length (frames q)). intros n ok_frame_bytes0.
  assert (Hsum : frames_cost (frames q) = frames_cost (take n (frames q)) + frames_cost (drop n (frames q))).
  { by rewrite <- frames_cost_app, take_drop. }
  pose proof (frames_cost_nonneg (take n (frames q))). pose proof (frames_cost_nonneg (drop n (frames q))).
  split; cbn [fst frame_bytes frames control control_bytes current_epoch closed cursor_shape cursor_position cursor_visibility events_cost foldr length].
  - rewrite ok_frame_bytes0. unfold saturating_sub. lia.
  - lia.
  - rewrite length_drop. lia.
  - by apply Forall_drop.
  - intros _. unfold CONTROL_QUEUE_BYTE_LIMIT, CONTROL_QUEUE_LIMIT. lia.
  - intros Hc. destruct (ok_closed0 Hc) as (-> & _). by rewrite drop_nil.
Qed.

Lemma queue_ok_close q : queue_ok (close q).
Proof.
  split; cbn [close frame_bytes frames control closed cursor_shape cursor_position cursor_visibility frames_cost foldr length]; try done;
    unfold FRAME_QUEUE_BYTE_LIMIT, FRAME_PAYLOAD_LIMIT, FRAME_QUEUE_LIMIT; lia.
Qed.

Lemma closed_push_control event q q' pushed : push_control event q = Some (q', pushed) -> closed q' = closed q.
Proof. by intros [(_ & -> & _) | (_ & _ & _ & ->)]%push_control_cases. Qed.

Lemma closed_push_cursor cursor q : closed (fst (push_cursor cursor q)) = closed q.
Proof. unfold push_cursor. destruct (closed q) eqn:Hc; [done |]. by destruct cursor. Qed.

Lemma closed_push_reset epoch q q' : push_reset epoch q = Some q' -> closed q' = closed q.
Proof. unfold push_reset. destruct (closed q) eqn:Hc; [done |]. by intros [= <-]. Qed.

Lemma closed_push_frame item byte frame q q' pushed : push_frame item byte frame q = Some (q', pushed) -> closed q' = closed q.
Proof. by intros [(-> & _) | (_ & _ & _ & _ & ->)]%push_frame_cases. Qed.

Lemma closed_drain bounded q q' drain : drain_with_limit bounded q = (q', drain) -> closed q' = closed q.
Proof. by intros [= <- _]. Qed.

Lemma control_push_cursor cursor q : control (fst (push_cursor cursor q)) = control q.
Proof. unfold push_cursor. destruct (closed q); [done |]. by destruct cursor. Qed.

Lemma control_push_reset epoch q q' : push_reset epoch q = Some q' -> control q' = control q.
Proof. unfold push_reset. destruct (closed q); [done |]. by intros [= <-]. Qed.

Lemma control_push_frame item byte frame q q' pushed : push_frame item byte frame q = Some (q', pushed) -> control q' = control q.
Proof. by intros [(-> & _) | (_ & _ & _ & _ & ->)]%push_frame_cases. Qed.

Create HintDb remote_queue.
#[export] Hint Resolve queue_ok_empty queue_ok_push_control queue_ok_force queue_ok_push_cursor queue_ok_push_reset queue_ok_push_frame
  queue_ok_drain queue_ok_close : remote_queue.

(** Whether a queue is closed after an operation. *)
Ltac closed_simpl :=
  rewrite ?closed_push_cursor in *;
  repeat match goal with
    | H : push_control _ _ = Some (?q, _) |- context [closed ?q] => rewrite (closed_push_control _ _ _ _ H)
    | H : push_reset _ _ = Some ?q |- context [closed ?q] => rewrite (closed_push_reset _ _ _ H)
    | H : push_frame _ _ _ _ = Some (?q, _) |- context [closed ?q] => rewrite (closed_push_frame _ _ _ _ _ _ H)
    | H : drain_with_limit _ _ = (?q, _) |- context [closed ?q] => rewrite (closed_drain _ _ _ _ H)
    end.
