(* ===== verification/RemoteReader.v ===== *)
(** A session of the remote desktop manager, zzclawterm-remote-desktop/src/session.rs:
    the reader of the helper's packets, the supervisor that gives up on a silent
    helper, the application that opens, drains and closes the session, and what they
    share.  Every step is one section under a lock.  The JSON of control messages is
    third-party: [decode_json] gives the message of a payload.  The configuration of
    a session and the events of its input are never looked at. *)
From stdpp Require Import base list numbers strings gmap.
From Stdlib Require Import ZArith Lia.
From S2P Require Import Prelude RemoteFrame RemoteIpc RemoteQueue.

Definition PROTOCOL_VERSION : Z := 12.

Record RdpServerCapabilities := Capabilities { committed_unicode_text : bool; secure_attention : bool }.

Record RdpDisplayMetrics := Metrics { m_width : Z; m_height : Z; desktop_scale_factor : Z; physical_size_mm : option (Z * Z) }.

Inductive RdpCertificateResponse := Reject | TrustOnce | TrustAndRemember.

Inductive RdpControlMessage (Config Input : Type) :=
| MPing (sequence : Z)
| MPong (sequence : Z)
| MClientHello (version : Z)
| MServerHello (version : Z) (capabilities : RdpServerCapabilities)
| MConnect (session_id : list Z) (config : Config)
| MDesktopReset (session_id : list Z) (epoch width height : Z)
| MState (session_id : list Z) (state : RdpSessionState) (message : option (list Z))
| MInput (session_id : list Z) (events : list Input)
| MSecureAttention (session_id : list Z)
| MResize (session_id : list Z) (metrics : RdpDisplayMetrics)
| MClipboard (session_id text : list Z) (generation : Z)
| MClipboardTransfer (session_id : list Z) (progress : RdpClipboardTransferProgress)
| MClipboardTransferCancel (session_id transfer_id : list Z)
| MCertificateRequest (request : RdpCertificateRequest)
| MCertificateResponse (request_id : list Z) (response : RdpCertificateResponse)
| MCapability (session_id : list Z) (capability : RdpCapability)
| MError (session_id : list Z) (error : RdpError) (fatal : bool)
| MRequestFullFrame (session_id : list Z)
| MDisconnect (session_id : list Z).

Arguments MPing {_ _}. Arguments MPong {_ _}. Arguments MClientHello {_ _}. Arguments MServerHello {_ _}.
Arguments MConnect {_ _}. Arguments MDesktopReset {_ _}. Arguments MState {_ _}. Arguments MInput {_ _}.
Arguments MSecureAttention {_ _}. Arguments MResize {_ _}. Arguments MClipboard {_ _}. Arguments MClipboardTransfer {_ _}.
Arguments MClipboardTransferCancel {_ _}. Arguments MCertificateRequest {_ _}. Arguments MCertificateResponse {_ _}.
Arguments MCapability {_ _}. Arguments MError {_ _}. Arguments MRequestFullFrame {_ _}. Arguments MDisconnect {_ _}.

(** Where [push_reader_error] is. *)
Inductive fail_stage := FailOnce | FailClose | FailState | FailForce.

(** Where the reader is.  [Pushing] waits in [push_control], for a certificate prompt with the id it has registered;
    [Failing] is in [push_reader_error], after which the reader returns when [last] is set. *)
Inductive reader_pc :=
| Reading
| SetState (state : RdpSessionState) (event : RdpRuntimeEvent)
| Resetting (epoch width height : Z)
| Gate (request : RdpCertificateRequest)
| Pushing (event : RdpRuntimeEvent) (prompt : option (list Z))
| Unregister (prompt : list Z)
| PushingFrame (frame : RemoteFrameEvent)
| PushingCursor (cursor : RemoteCursorEvent)
| Failing (stage : fail_stage) (error : RdpError) (last : bool)
| Settle (r : result unit RdpError)
| Ending
| Stopped.

(** Where the supervisor and the application are. *)
Inductive supervisor_pc := Watching | TimingOut (stage : fail_stage) | Retired.
Inductive app_pc := Opening | Open | Closing (detached : bool) | Gating (detached : bool) | Joining | Finishing | Forcing
  | Forgetting (detached : bool) | Gone (detached : bool).

(** Where the packets of a session stand. *)
Record world (Config : Type) := World {
  queue : EventQueueState;
  state : RdpSessionState;
  capabilities : option RdpServerCapabilities;
  pending_certificates : gmap (list Z) (list Z);
  failed : bool;
  greeted : bool;
  pc : reader_pc;
  hello_received : bool;
  pending_config : option Config;
  supervisor : supervisor_pc;
  app : app_pc;
  received : list Packet;
  delivered : list RdpSessionDrain;
  connects : list Config }.
Arguments World {_}. Arguments queue {_}. Arguments state {_}. Arguments capabilities {_}.
Arguments pending_certificates {_}. Arguments failed {_}. Arguments greeted {_}. Arguments pc {_}. Arguments hello_received {_}.
Arguments pending_config {_}. Arguments supervisor {_}. Arguments app {_}. Arguments received {_}. Arguments delivered {_}.
Arguments connects {_}.

Section Session.
Context {Config Input : Type} (decode_json : list Z -> io (RdpControlMessage Config Input)) (session_id : list Z).

Abbreviation Message := (RdpControlMessage Config Input).
Abbreviation W := (world Config).

Definition decode_control (packet : Packet) : io Message :=
  if negb (bool_decide (packet_type packet = Control)) then bail InvalidInput "packet is not an RDP control packet"
  else decode_json (payload packet).

(** ** Changing one part of the world *)

Definition set_queue (w : W) (q : EventQueueState) : W :=
  World q (state w) (capabilities w) (pending_certificates w) (failed w) (greeted w) (pc w) (hello_received w) (pending_config w)
    (supervisor w) (app w) (received w) (delivered w) (connects w).
Definition set_state (w : W) (s : RdpSessionState) : W :=
  World (queue w) s (capabilities w) (pending_certificates w) (failed w) (greeted w) (pc w) (hello_received w) (pending_config w)
    (supervisor w) (app w) (received w) (delivered w) (connects w).
Definition set_pending (w : W) (m : gmap (list Z) (list Z)) : W :=
  World (queue w) (state w) (capabilities w) m (failed w) (greeted w) (pc w) (hello_received w) (pending_config w)
    (supervisor w) (app w) (received w) (delivered w) (connects w).
Definition set_failed (w : W) : W :=
  World (queue w) (state w) (capabilities w) (pending_certificates w) true (greeted w) (pc w) (hello_received w) (pending_config w)
    (supervisor w) (app w) (received w) (delivered w) (connects w).
Definition goto (w : W) (p : reader_pc) : W :=
  World (queue w) (state w) (capabilities w) (pending_certificates w) (failed w) (greeted w) p (hello_received w) (pending_config w)
    (supervisor w) (app w) (received w) (delivered w) (connects w).
Definition set_supervisor (w : W) (s : supervisor_pc) : W :=
  World (queue w) (state w) (capabilities w) (pending_certificates w) (failed w) (greeted w) (pc w) (hello_received w) (pending_config w)
    s (app w) (received w) (delivered w) (connects w).
Definition set_app (w : W) (a : app_pc) : W :=
  World (queue w) (state w) (capabilities w) (pending_certificates w) (failed w) (greeted w) (pc w) (hello_received w) (pending_config w)
    (supervisor w) a (received w) (delivered w) (connects w).

(** ** Messages *)

Definition protocol_error (m : list Z) : RdpError := RdpError_new Protocol m.

Definition require_server_hello (received : bool) (packet_kind : string) : result unit RdpError :=
  if received then Ok tt
  else Err (protocol_error (bs "RDP helper sent " ++ bs packet_kind ++ bs " before ServerHello")).

(** [handle_control] before the handshake: what [hello_received] and the confirmed capabilities become. *)
Definition handle_hello (caps : option RdpServerCapabilities) (message : Message) : result (option RdpServerCapabilities) RdpError :=
  match message with
  | MServerHello version confirmed =>
      if negb (version =? PROTOCOL_VERSION) then
        Err (protocol_error (bs "RDP helper protocol version " ++ show_u64 version ++ bs " does not match " ++ show_u64 PROTOCOL_VERSION ++
                             bs "; rebuild the helper matching this application"))
      else match caps with
           | Some _ => Err (protocol_error (bs "RDP helper capabilities were already confirmed"))
           | None => Ok (Some confirmed)
           end
  | _ => Err (protocol_error (bs "RDP helper's first control message must be ServerHello"))
  end.

(** The rest of [handle_control]: where the reader goes on. *)
Definition handle_message (message : Message) : reader_pc :=
  match message with
  | MServerHello _ _ => Settle (Err (protocol_error (bs "RDP helper sent duplicate ServerHello")))
  | MPing _ | MClientHello _ | MConnect _ _ | MInput _ _ | MSecureAttention _ | MResize _ _ | MClipboardTransferCancel _ _
  | MCertificateResponse _ _ | MRequestFullFrame _ | MDisconnect _ =>
      Settle (Err (protocol_error (bs "RDP helper sent an application-only control message")))
  | MDesktopReset event_session epoch width height =>
      if beq event_session session_id then Resetting epoch width height else Settle (Ok tt)
  | MState event_session new_state message =>
      if beq event_session session_id then SetState new_state (EvState session_id new_state message) else Settle (Ok tt)
  | MClipboard event_session text generation =>
      if beq event_session session_id then Pushing (EvClipboard session_id text generation) None else Settle (Ok tt)
  | MClipboardTransfer event_session progress =>
      if beq event_session session_id then Pushing (EvClipboardTransfer session_id progress) None else Settle (Ok tt)
  | MCertificateRequest request => Gate request
  | MCapability event_session capability =>
      if beq event_session session_id then Pushing (EvCapability session_id capability) None else Settle (Ok tt)
  | MError event_session error fatal =>
      if beq event_session session_id then
        if fatal then Failing FailOnce error false else Pushing (EvError session_id error fatal) None
      else Settle (Ok tt)
  | MPong _ => Settle (Ok tt)
  end.

(** What the reader does with a packet: the handshake, and where it goes on.  The clock that a pong resets is in
    RemoteHeartbeat.v. *)
Definition handle_packet (hello : bool) (caps : option RdpServerCapabilities) (packet : Packet)
    : bool * option RdpServerCapabilities * reader_pc :=
  match packet_type packet with
  | Control =>
      match decode_control packet with
      | Err error => (hello, caps, Settle (Err (protocol_error (message error))))
      | Ok (MPong _) => (hello, caps, Settle (require_server_hello hello "Pong"))
      | Ok message =>
          if hello then (hello, caps, handle_message message)
          else match handle_hello caps message with
               | Ok caps => (true, caps, Settle (Ok tt))
               | Err error => (hello, caps, Settle (Err error))
               end
      end
  | Frame =>
      (hello, caps,
       match require_server_hello hello "frame packet" with
       | Err error => Settle (Err error)
       | Ok _ =>
           match decode_frame_packet_owned packet with
           | Err error => Settle (Err (protocol_error (message error)))
           | Ok (frame_session, frame) => if beq frame_session session_id then PushingFrame frame else Settle (Ok tt)
           end
       end)
  | Cursor =>
      (hello, caps,
       match require_server_hello hello "cursor packet" with
       | Err error => Settle (Err error)
       | Ok _ =>
           match decode_cursor_packet packet with
           | Err error => Settle (Err (protocol_error (message error)))
           | Ok (cursor_session, cursor) => if beq cursor_session session_id then PushingCursor cursor else Settle (Ok tt)
           end
       end)
  end.

(** ** Failing *)

(** One section of [push_reader_error]; [None] when it is over. *)
Definition fail_step (stage : fail_stage) (error : RdpError) (w : W) : W * option fail_stage :=
  match stage with
  | FailOnce => if failed w then (w, None) else (set_failed w, Some FailClose)
  | FailClose => (set_queue w (close (queue w)), Some FailState)
  | FailState => (set_state w (Failed error), Some FailForce)
  | FailForce => (set_queue w (push_control_force (EvError session_id error true) (queue w)), None)
  end.

(** ** The reader *)

Definition is_over (s : RdpSessionState) : bool :=
  match s with Disconnecting | Disconnected | Failed _ => true | _ => false end.

Definition read_error_kind (error : io_error) : RdpErrorKind :=
  match kind error with OutOfMemory => ResourceExhausted | _ => Ipc end.

Definition receive (w : W) (packet : Packet) : W :=
  let '(hello, caps, p) := handle_packet (hello_received w) (capabilities w) packet in
  World (queue w) (state w) caps (pending_certificates w) (failed w) (greeted w) p hello (pending_config w)
    (supervisor w) (app w) (received w ++ [packet]) (delivered w) (connects w).

(** The end of the loop's body; [sent] is what the writer says to the configuration. *)
Definition settle (sent : result unit RdpError) (w : W) : W :=
  let w' config connects p :=
    World (queue w) (state w) (capabilities w) (pending_certificates w) (failed w) true p (hello_received w) config
      (supervisor w) (app w) (received w) (delivered w) connects in
  if hello_received w then
    match pending_config w with
    | Some config =>
        match sent with
        | Ok _ => w' None (connects w ++ [config]) Reading
        | Err error => w' None (connects w) (Failing FailOnce error true)
        end
    | None => w' None (connects w) Reading
    end
  else goto w Reading.

Definition NO_HANDSHAKE : list Z :=
  bs "RDP helper ended before IPC " ++ show_u64 PROTOCOL_VERSION ++ bs " handshake; rebuild the helper matching this application".

(** A step of the reader; it waits when there is none.  [r] is what reading gives, [sent] what sending gives. *)
Definition reader_step (r : io (option Packet)) (sent : result unit RdpError) (w : W) : option W :=
  match pc w with
  | Reading =>
      match r with
      | Err error => Some (goto w (Failing FailOnce (RdpError_new (read_error_kind error) (message error)) true))
      | Ok None => Some (goto w Ending)
      | Ok (Some packet) => Some (receive w packet)
      end
  | SetState s event => Some (goto (set_state w s) (Pushing event None))
  | Resetting epoch width height =>
      match push_reset epoch (queue w) with
      | None => Some (goto w (Settle (Ok tt)))
      | Some q => Some (goto (set_queue w q) (Pushing (EvFrame session_id (Reset epoch width height)) None))
      end
  | Gate request =>
      if closed (queue w) then Some (goto w (Settle (Ok tt)))
      else Some (goto (set_pending w (<[request_id request := session_id]> (pending_certificates w)))
                   (Pushing (EvCertificateRequest request) (Some (request_id request))))
  | Pushing event prompt =>
      let* (q, pushed) := push_control event (queue w) in
      match prompt with
      | Some id => Some (goto (set_queue w q) (if pushed : bool then Settle (Ok tt) else Unregister id))
      | None => Some (goto (set_queue w q) (Settle (Ok tt)))
      end
  | Unregister id => Some (goto (set_pending w (delete id (pending_certificates w))) (Settle (Ok tt)))
  | PushingFrame frame =>
      let* (q, _) := push_frame FRAME_QUEUE_LIMIT FRAME_QUEUE_BYTE_LIMIT frame (queue w) in
      Some (goto (set_queue w q) (Settle (Ok tt)))
  | PushingCursor cursor => Some (goto (set_queue w (fst (push_cursor cursor (queue w)))) (Settle (Ok tt)))
  | Failing stage error last =>
      let (w, next) := fail_step stage error w in
      Some (goto w match next with
                   | Some stage => Failing stage error last
                   | None => if last : bool then Stopped else Settle (Ok tt)
                   end)
  | Settle (Err error) => Some (goto w (Failing FailOnce error true))
  | Settle (Ok _) => Some (settle sent w)
  | Ending =>
      if negb (hello_received w) then Some (goto w (Failing FailOnce (protocol_error NO_HANDSHAKE) true))
      else if negb (is_over (state w)) then
        Some (goto w (Failing FailOnce (RdpError_new HelperCrashed (bs "RDP helper exited unexpectedly")) true))
      else Some (goto (set_failed w) Stopped)
  | Stopped => None
  end.

(** ** The supervisor *)

Definition TIMEOUT_ERROR : RdpError :=
  RdpError_new TimedOut (bs "helper handshake/control loop did not respond within 10 seconds; check that the helper matches this application").

(** [fire] is a tick that gives up; otherwise the supervisor may notice that it was stopped or that the session failed. *)
Definition supervisor_step (fire : bool) (w : W) : option W :=
  match supervisor w with
  | Watching =>
      if fire then Some (set_supervisor w (TimingOut FailOnce))
      else if failed w || match app w with Joining | Gone true => true | _ => false end then Some (set_supervisor w Retired) else None
  | TimingOut stage =>
      let (w, next) := fail_step stage TIMEOUT_ERROR w in
      Some (set_supervisor w match next with Some stage => TimingOut stage | None => Retired end)
  | Retired => None
  end.

(** ** The application *)

(** [retain(|_, pending_session| pending_session != session_id)]. *)
Definition forget (m : gmap (list Z) (list Z)) : gmap (list Z) (list Z) :=
  filter (fun entry => negb (beq (snd entry) session_id) = true) m.

(** Opening a session ends with the event [Connecting]; closing it is [close_detached], after which
    the reaper closes the queue once more, or [close], which waits for the threads. *)
Definition app_step (detached : bool) (w : W) : option W :=
  match app w with
  | Opening =>
      let* (q, _) := push_control (EvState session_id Connecting None) (queue w) in
      Some (set_app (set_queue w q) Open)
  | Open => Some (set_app w (Closing detached))
  | Closing d => Some (set_app (set_state w Disconnecting) (Gating d))
  | Gating d => Some (set_app (set_queue w (close (queue w))) (if d then Forgetting d else Joining))
  | Joining =>
      match supervisor w, pc w with Retired, Stopped => Some (set_app w Finishing) | _, _ => None end
  | Finishing => Some (set_app (set_state w Disconnected) Forcing)
  | Forcing => Some (set_app (set_queue w (push_control_force (EvState session_id Disconnected None) (queue w))) (Forgetting false))
  | Forgetting d => Some (set_app (set_pending w (forget (pending_certificates w))) (Gone d))
  | Gone true => Some (set_queue w (close (queue w)))
  | Gone false => None
  end.

(** [drain] and [drain_batch], while the session is registered. *)
Definition drain_step (bounded : bool) (w : W) : option W :=
  match app w with
  | Open | Gone false =>
      let (q, drain) := drain_with_limit bounded (queue w) in
      Some (World q (state w) (capabilities w) (pending_certificates w) (failed w) (greeted w) (pc w) (hello_received w) (pending_config w)
              (supervisor w) (app w) (received w) (delivered w ++ [drain]) (connects w))
  | _ => None
  end.

(** ** Together *)

Definition opened (config : Config) (pending : gmap (list Z) (list Z)) : W :=
  World empty_queue Connecting None pending false false Reading false (Some config) Watching Opening [] [] [].

(** What reading a helper's pipe can give. *)
Definition readable (r : io (option Packet)) : Prop :=
  exists reserve allocate stream rest, read_packet_inner (Some reserve) allocate stream = (r, rest).

Inductive step (w : W) : W -> Prop :=
| step_reader r sent w' : readable r -> reader_step r sent w = Some w' -> step w w'
| step_supervisor fire w' : supervisor_step fire w = Some w' -> step w w'
| step_app detached w' : app_step detached w = Some w' -> step w w'
| step_drain bounded w' : drain_step bounded w = Some w' -> step w w'
| step_others m : (forall id, m !! id = Some session_id -> pending_certificates w !! id = Some session_id) ->
    step w (set_pending w m).

Definition reachable (config : Config) (w : W) : Prop :=
  exists pending, (forall id, pending !! id <> Some session_id) /\ rtc step (opened config pending) w.
End Session.
