(* ===== verification/RemoteReaderSpec.v ===== *)
(** What a session of RemoteReader.v promises: the view replays exactly what the
    helper drew since its last reset, the queues stay within their limits, credentials
    leave only after the handshake, a session fails once and quietly after that, and a
    closed session leaves no certificate prompt behind. *)
From stdpp Require Import base list numbers strings gmap.
From Stdlib Require Import ZArith Lia.
From S2P Require Import Prelude RemoteFrame RemoteIpc RemoteQueue RemoteReader.

(** ** Steps by cases *)

Ltac world_simpl :=
  cbn [queue state capabilities pending_certificates failed greeted pc hello_received pending_config supervisor app received delivered
       connects set_queue set_state set_pending set_failed goto set_supervisor set_app opened fst snd] in *.

(** Takes a step of [World ..] apart; a goal for each branch of the code. *)
Ltac branches H := world_simpl; repeat (case_match; try discriminate H; world_simpl); 
  repeat match goal with Hp : (_, _) = (_, _) |- _ => apply pair_equal_spec in Hp as [? ?]; subst; try discriminate; world_simpl end;
  repeat match goal with Hp : @Some fail_stage _ = Some _ |- _ => injection Hp as <- end;
  apply (inj Some) in H as <-; world_simpl.
Ltac step_cases H :=
  destruct H as [r sent w' Hr H | fire w' H | d w' H | bounded w' H | m Hm];
  [ unfold reader_step, receive, settle, fail_step in H; branches H
  | unfold supervisor_step, fail_step in H; branches H
  | unfold app_step in H; branches H
  | unfold drain_step in H; branches H
  | world_simpl ].

Section Spec.
Context {Config Input : Type} (decode_json : list Z -> io (RdpControlMessage Config Input)) (session_id : list Z).

Abbreviation W := (world Config).
Abbreviation step := (step decode_json session_id).

(** ** Where the reader can be *)

(** What the reader pushes as it is: no frame, and no error that ends the session. *)
Definition ordinary (event : RdpRuntimeEvent) : bool :=
  match event with EvFrame _ _ | EvError _ _ true => false | _ => true end.

Definition is_reset (frame : RemoteFrameEvent) : bool := match frame with Reset _ _ _ => true | _ => false end.

(** What the reader pushes as control: something ordinary, or a reset. *)
Definition pushable (event : RdpRuntimeEvent) : bool :=
  match event with EvFrame _ frame => is_reset frame | event => ordinary event end.

Definition pc_ok (p : reader_pc) : Prop :=
  match p with
  | SetState _ event => ordinary event = true
  | Pushing event _ => pushable event = true
  | PushingFrame frame => is_reset frame = false
  | _ => True
  end.

(** Where a packet can lead. *)
Definition led (p : reader_pc) : Prop :=
  match p with
  | Reading | Unregister _ | Ending | Stopped => False
  | Failing stage _ last => stage = FailOnce /\ last = false
  | Pushing event prompt => ordinary event = true /\ prompt = None
  | p => pc_ok p
  end.

Lemma decoded_bitmap packet s frame : decode_frame_packet_owned packet = Ok (s, frame) -> is_reset frame = false.
Proof.
  unfold decode_frame_packet_owned. destruct (decode_frame_header packet) as [[h o] |]; cbn [result_bind]; [| done].
  intros H. repeat (case_match; try discriminate H); by injection H as <- <-.
Qed.

Lemma handle_message_led (m : RdpControlMessage Config Input) : led (handle_message session_id m).
Proof. destruct m; cbn [handle_message]; repeat case_match; done. Qed.

Lemma handle_packet_led hello caps packet h c p :
  handle_packet decode_json session_id hello caps packet = (h, c, p) -> led p.
Proof.
  unfold handle_packet, require_server_hello. pose proof handle_message_led as Hm.
  destruct (packet_type packet).
  - destruct (decode_control decode_json packet) as [m |]; [| by intros [= <- <- <-]].
    destruct m; try destruct hello; try destruct (handle_hello _ _);
      intros [_ <-]%pair_equal_spec; try done; apply Hm.
  - intros [= <- <- <-]. destruct hello; [| done]. destruct (decode_frame_packet_owned packet) as [[s f] |] eqn:Hd; [| done].
    destruct (beq s session_id); [| done]. exact (decoded_bitmap _ _ _ Hd).
  - intros [= <- <- <-]. destruct hello; [| done]. destruct (decode_cursor_packet packet) as [[s f] |]; [| done]. by destruct (beq s session_id).
Qed.

Lemma led_ok p : led p -> pc_ok p.
Proof. destruct p; cbn; try done. intros [H _]. by destruct event. Qed.

Lemma pc_ok_step w w' : pc_ok (pc w) -> step w w' -> pc_ok (pc w').
Proof.
  intros Hp H. destruct w as [q st caps pend fl gr p hello cfg sup ap rec del con]. step_cases H; try done.
  - eapply led_ok, handle_packet_led. eassumption.
  - by destruct event.
Qed.

(** ** The queue *)

Definition stage_closes (stage : fail_stage) : bool := match stage with FailState | FailForce => true | _ => false end.

Definition reader_shut (p : reader_pc) : bool := match p with Failing stage _ _ => stage_closes stage | _ => false end.
Definition supervisor_shut (p : supervisor_pc) : bool := match p with TimingOut stage => stage_closes stage | _ => false end.
Definition app_shut (p : app_pc) : bool := match p with Opening | Open | Closing _ | Gating _ => false | _ => true end.

(** From some places a session is known to be closed. *)
Definition shut (w : W) : Prop := reader_shut (pc w) = true \/ supervisor_shut (supervisor w) = true \/ app_shut (app w) = true.

Record queue_inv (w : W) : Prop := {
  qi_pc : pc_ok (pc w);
  qi_ok : queue_ok (queue w);
  qi_shut : shut w -> closed (queue w) = true }.

Lemma led_not_shut p : led p -> reader_shut p = false.
Proof. destruct p; try done. by intros [-> _]. Qed.

Lemma shut_step w w' : (shut w -> closed (queue w) = true) -> step w w' -> shut w' -> closed (queue w') = true.
Proof.
  intros Hs H. destruct w as [q st caps pend fl gr p hello cfg sup ap rec del con]. unfold shut in *.
  step_cases H; try done; closed_simpl; try done; try (intros; apply Hs; cbn in *; intuition (subst; done)).
  - apply handle_packet_led, led_not_shut in H3. rewrite H3. intros [? | ?]; [done |]. by apply Hs; right.
  - intros [? | ?]; [done |]. exfalso. enough (false = true) by done. by apply Hs; right.
Qed.

Lemma queue_inv_step w w' : queue_inv w -> step w w' -> queue_inv w'.
Proof.
  intros [Hp Hq Hs] H. pose proof (pc_ok_step _ _ Hp H) as Hp'. pose proof (shut_step _ _ Hs H) as Hs'. split; [done | | done].
  destruct w as [q st caps pend fl gr p hello cfg sup ap rec del con]. unfold shut in *.
  step_cases H; try assumption; try (eauto 2 with remote_queue nocore).
  all: try (apply queue_ok_force; [done | apply Hs; cbn; tauto]).
  eapply queue_ok_push_frame; [done | | eassumption]. by destruct frame.
Qed.

Lemma queue_inv_opened config pending : queue_inv (opened config pending).
Proof. split; [done | apply queue_ok_empty |]. by intros [? | [? | ?]]. Qed.

(** Invariants of reachable worlds. *)
Lemma reachable_ind (P : W -> Prop) config w :
  (forall pending, (forall id, pending !! id <> Some session_id) -> P (opened config pending)) ->
  (forall w w', queue_inv w -> P w -> step w w' -> P w') -> reachable decode_json session_id config w -> queue_inv w /\ P w.
Proof.
  intros H0 Hstep (pending & Hp & H). revert w H. apply (rtc_ind_r (fun w => queue_inv w /\ P w)).
  - split; [apply queue_inv_opened | by apply H0].
  - intros w w' _ H [Hq HP]. split; [by eapply queue_inv_step | by eapply Hstep].
Qed.

(** ** What is drawn *)

(** What a packet of the helper draws on this session's desktop. *)
Definition frame_of (packet : Packet) : option RemoteFrameEvent :=
  match packet_type packet with
  | Control =>
      match decode_control decode_json packet with
      | Ok (MDesktopReset s epoch width height) => if beq s session_id then Some (Reset epoch width height) else None
      | _ => None
      end
  | Frame =>
      match decode_frame_packet_owned packet with
      | Ok (s, frame) => if beq s session_id then Some frame else None
      | Err _ => None
      end
  | Cursor => None
  end.

(** The desktop that the helper means: the last reset and the updates of its epoch since. *)
Definition scene_step (scene : list RemoteFrameEvent) (frame : RemoteFrameEvent) : list RemoteFrameEvent :=
  match frame, scene with
  | Reset _ _ _, _ => [frame]
  | Bitmap epoch _ _ _ _ _ _ _ _, Reset current _ _ :: _ => if epoch =? current then scene ++ [frame] else scene
  | _, _ => scene
  end.
Definition scene (told : list RemoteFrameEvent) : list RemoteFrameEvent := foldl scene_step [] told.

(** What a view shows that starts again at every reset and paints everything else it gets. *)
Definition replay_step (shown : list RemoteFrameEvent) (frame : RemoteFrameEvent) : list RemoteFrameEvent :=
  if is_reset frame then [frame] else shown ++ [frame].
Definition replay (seen : list RemoteFrameEvent) : list RemoteFrameEvent := foldl replay_step [] seen.

(** The view applies the control events of a drain first, and then its frames. *)
Definition frame_event (event : RdpRuntimeEvent) : option RemoteFrameEvent :=
  match event with EvFrame _ frame => Some frame | _ => None end.
Definition drawn_by (drain : RdpSessionDrain) : list RemoteFrameEvent := omap frame_event (d_control drain) ++ d_frames drain.
Definition shown (w : W) : list RemoteFrameEvent := concat (map drawn_by (delivered w)).
Definition ahead (q : EventQueueState) : list RemoteFrameEvent := omap frame_event (control q) ++ frames q.

(** What the reader holds, and whether it still follows the helper. *)
Definition flight (p : reader_pc) : list RemoteFrameEvent :=
  match p with
  | Resetting epoch width height => [Reset epoch width height]
  | Pushing (EvFrame _ frame) _ | PushingFrame frame => [frame]
  | _ => []
  end.
Definition follows (p : reader_pc) : bool :=
  match p with Settle (Err _) | Failing _ _ true | Ending | Stopped => false | _ => true end.

Definition scene_epoch (scene : list RemoteFrameEvent) : option Z :=
  match scene with Reset epoch _ _ :: _ => Some epoch | _ => None end.

Lemma handle_packet_flight hello caps packet h c p : handle_packet decode_json session_id hello caps packet = (h, c, p) ->
  follows p = true -> flight p = option_list (frame_of packet).
Proof.
  unfold handle_packet, frame_of, require_server_hello. destruct (packet_type packet).
  - destruct (decode_control decode_json packet) as [m |]; [| by intros [= <- <- <-]].
    destruct m; try destruct hello; try destruct (handle_hello _ _) eqn:Hh; intros [_ <-]%pair_equal_spec; cbn [handle_message];
      repeat case_match; try done.
  - intros [_ <-]%pair_equal_spec. destruct hello; [| done]. by repeat case_match.
  - intros [_ <-]%pair_equal_spec. by repeat case_match.
Qed.

Lemma replay_snoc l f : replay (l ++ [f]) = replay_step (replay l) f.
Proof. unfold replay. by rewrite foldl_app. Qed.
Lemma scene_snoc l f : scene (l ++ [f]) = scene_step (scene l) f.
Proof. unfold scene. by rewrite foldl_app. Qed.

Lemma ahead_drain bounded q q' drain : drain_with_limit bounded q = (q', drain) -> drawn_by drain ++ ahead q' = ahead q.
Proof.
  unfold drain_with_limit, drawn_by, ahead. intros [= <- <-]. cbn [d_control d_frames control frames omap list_omap app].
  rewrite <- app_assoc. f_equal. apply take_drop.
Qed.

Lemma shown_snoc (l : list RdpSessionDrain) d : concat (map drawn_by (l ++ [d])) = concat (map drawn_by l) ++ drawn_by d.
Proof. rewrite map_app, concat_app. cbn. by rewrite app_nil_r. Qed.

(** *** What can be read fits *)

Lemma read_exact_length fuel n : forall stream got bytes rest, (length got <= n)%nat ->
  read_exact fuel stream n got = (Ok bytes, rest) -> (length bytes <= n)%nat.
Proof.
  induction fuel as [| fuel IH]; intros stream got bytes rest Hg; cbn [read_exact].
  - destruct (length got <? n)%nat; by intros [= <- _].
  - destruct (Nat.ltb_spec (length got) n); [| by intros [= <- _]]. destruct (read stream (n - length got)) as [r stream'] eqn:Hr.
    assert (Hb : forall b, r = Ok b -> (length b <= n - length got)%nat).
    { intros b ->. unfold read in Hr. destruct stream as [| [l |] stream]; [injection Hr as <- _; cbn; lia | | done].
      destruct (Nat.leb_spec (length l) (n - length got)); injection Hr as <- _; [done |]. rewrite length_take. lia. }
    destruct r as [[| b bs] |]; [done | | done]. apply IH. specialize (Hb _ eq_refl). rewrite length_app. lia.
Qed.

Lemma readable_fits packet : readable (Ok (Some packet)) -> body packet = [] /\ len (payload packet) <= payload_limit (packet_type packet).
Proof.
  intros (reserve & allocate & stream & rest & H). unfold read_packet_inner in H.
  destruct (read_header _ _ _) as [[[header |] |] stream']; [| done | done].
  destruct (try_from _) as [t |]; [| done]. destruct (Z.ltb_spec (payload_limit t) (from_le_bytes (take 4 (drop 1 header)))); [done |].
  destruct (negb _ && _); [done |]. destruct (negb _); [done |]. destruct (read_exact _ _ _ _) as [[bytes |] rest'] eqn:Hr; [| done].
  injection H as <- _. apply read_exact_length in Hr; [| cbn; lia]. cbn [body payload packet_type]. split; [done |].
  assert (0 <= payload_limit t) by by destruct t. lia.
Qed.

Lemma decoded_fits packet s frame : readable (Ok (Some packet)) -> packet_type packet = Frame ->
  decode_frame_packet_owned packet = Ok (s, frame) -> frame_byte_cost frame <= FRAME_QUEUE_BYTE_LIMIT.
Proof.
  intros [Hb Hl]%readable_fits Ht. rewrite Ht in Hl. unfold decode_frame_packet_owned. rewrite Hb.
  destruct (decode_frame_header packet) as [[h o] |]; cbn [result_bind]; [| done]. destruct h as [s' h].
  intros [= _ <-]. cbn [frame_byte_cost]. rewrite length_drop. unfold FRAME_QUEUE_BYTE_LIMIT. cbn [payload_limit] in Hl. lia.
Qed.

Lemma handle_packet_fits hello caps packet h c frame : readable (Ok (Some packet)) ->
  handle_packet decode_json session_id hello caps packet = (h, c, PushingFrame frame) -> frame_byte_cost frame <= FRAME_QUEUE_BYTE_LIMIT.
Proof.
  intros Hr. unfold handle_packet. destruct (packet_type packet) eqn:Ht.
  - destruct (decode_control decode_json packet) as [m |]; [| discriminate].
    destruct m; try destruct hello; try destruct (handle_hello _ _); intros [_ H]%pair_equal_spec; cbn [handle_message] in H;
      repeat case_match; discriminate.
  - intros [_ H]%pair_equal_spec. destruct (require_server_hello _ _); [| discriminate].
    destruct (decode_frame_packet_owned packet) as [[s f] |] eqn:Hd; [| discriminate]. destruct (beq s session_id); [| discriminate].
    injection H as <-. by eapply decoded_fits.
  - intros [_ H]%pair_equal_spec. repeat case_match; discriminate.
Qed.

Definition fits (w : W) : Prop := forall frame, pc w = PushingFrame frame -> frame_byte_cost frame <= FRAME_QUEUE_BYTE_LIMIT.

Lemma fits_step w w' : fits w -> step w w' -> fits w'.
Proof.
  intros Hf H. destruct w as [q st caps pend fl gr p hello cfg sup ap rec del con].
  step_cases H; intros f; world_simpl; try discriminate; try apply Hf.
  intros ->. eapply handle_packet_fits; eassumption.
Qed.

(** *** Following the helper *)

(** While the queue is open: what was seen and what is ahead is the scene of what the reader was told, and that is all that is
    drawn apart from what the reader holds, as long as it follows.  While it pushes a reset, the updates before it are gone
    already. *)
Definition tracks (drawn seen : list RemoteFrameEvent) (q : EventQueueState) (p : reader_pc) : Prop :=
  closed q = false -> exists told, (follows p = true -> drawn = told ++ flight p) /\
    match p with
    | Pushing (EvFrame _ frame) _ => frames q = [] /\ current_epoch q = scene_epoch [frame]
    | _ => replay (seen ++ ahead q) = scene told /\ current_epoch q = scene_epoch (scene told)
    end.

(** The reader has nothing in its hands. *)
Definition calm (p : reader_pc) : bool := match p with Reading | Settle _ | Unregister _ | Gate _ => true | _ => false end.

Lemma tracks_calm drawn seen q p : calm p = true ->
  (closed q = false -> replay (seen ++ ahead q) = scene drawn /\ current_epoch q = scene_epoch (scene drawn)) -> tracks drawn seen q p.
Proof. intros Hp H Hc. exists drawn. by destruct p; rewrite ?app_nil_r; auto. Qed.

Lemma tracks_receive drawn seen q hello caps packet h c p : handle_packet decode_json session_id hello caps packet = (h, c, p) ->
  tracks drawn seen q Reading -> tracks (drawn ++ option_list (frame_of packet)) seen q p.
Proof.
  intros Hh Ht Hc. destruct (Ht Hc) as (told & -> & H); [| done]. rewrite app_nil_r.
  exists told. split; [by intros Hf; rewrite (handle_packet_flight _ _ _ _ _ _ Hh Hf) |].
  pose proof (handle_packet_led _ _ _ _ _ _ Hh) as Hl. destruct p; try done. by destruct event, Hl.
Qed.

Lemma ahead_push event q bytes : ahead (with_control q (control q ++ [event]) bytes) =
  omap frame_event (control q) ++ option_list (frame_event event) ++ frames q.
Proof. unfold ahead. cbn [with_control control frames]. rewrite omap_app, <- app_assoc. by destruct event. Qed.

Lemma tracks_push drawn seen q q' pushed event prompt p : pushable event = true -> calm p = true ->
  push_control event q = Some (q', pushed) -> tracks drawn seen q (Pushing event prompt) -> tracks drawn seen q' p.
Proof.
  intros He Hp [(Hc & -> & _) | (Hc & _ & _ & ->)]%push_control_cases Ht; apply tracks_calm; try done; intros Hc'; [congruence |].
  destruct (Ht Hc) as (told & -> & H); [| done]. rewrite ahead_push. destruct event as [| s [epoch width height |] | | | | | |]; try done;
    cbn [flight frame_event option_list]; rewrite ?app_nil_r; cbn [app]; [exact H | | exact H ..].
  destruct H as [-> Hce]. change (option_list (Some ?f)) with [f]. rewrite app_nil_r, app_assoc, replay_snoc, scene_snoc. done.
Qed.

Lemma tracks_announce drawn seen q q' pushed event p : frame_event event = None ->
  push_control event q = Some (q', pushed) -> tracks drawn seen q p -> tracks drawn seen q' p.
Proof.
  intros He [(_ & -> & _) | (Hc & _ & _ & ->)]%push_control_cases Ht; [done |]. intros _.
  destruct (Ht Hc) as (told & Hd & H). exists told. rewrite ahead_push, He. split; [done | exact H].
Qed.

Lemma tracks_reset drawn seen q q' epoch width height s : push_reset epoch q = Some q' ->
  tracks drawn seen q (Resetting epoch width height) -> tracks drawn seen q' (Pushing (EvFrame s (Reset epoch width height)) None).
Proof.
  unfold push_reset. destruct (closed q) eqn:Hc; [done |]. intros [= <-] Ht _. destruct (Ht Hc) as (told & -> & _); [| done]. by exists told.
Qed.

Lemma scene_fresh told frame epoch : frame_epoch frame = Some epoch -> scene_epoch (scene told) = Some epoch ->
  scene (told ++ [frame]) = scene told ++ [frame].
Proof.
  intros He Hs. rewrite scene_snoc. destruct frame; [done |]. injection He as ->. destruct (scene told) as [| [] ?]; try done.
  injection Hs as ->. cbn [scene_step]. by rewrite Z.eqb_refl.
Qed.

Lemma scene_stale told frame epoch : frame_epoch frame = Some epoch -> scene_epoch (scene told) <> Some epoch -> scene (told ++ [frame]) = scene told.
Proof.
  intros He Hs. rewrite scene_snoc. destruct frame; [done |]. injection He as ->. destruct (scene told) as [| [] ?]; try done.
  cbn [scene_step scene_epoch] in *. destruct (Z.eqb_spec epoch epoch0); [congruence | done].
Qed.

Lemma tracks_frame drawn seen q q' pushed frame p : is_reset frame = false -> frame_byte_cost frame <= FRAME_QUEUE_BYTE_LIMIT -> calm p = true ->
  push_frame FRAME_QUEUE_LIMIT FRAME_QUEUE_BYTE_LIMIT frame q = Some (q', pushed) -> tracks drawn seen q (PushingFrame frame) -> tracks drawn seen q' p.
Proof.
  intros Hr Hb Hp Hpush Ht. assert (exists epoch, frame_epoch frame = Some epoch) as [epoch He] by (destruct frame; [done | by eexists]).
  apply tracks_calm; [done |]. apply push_frame_cases in Hpush as [(-> & _ & [? | [Hs | Hc]]) | (Hc & Hs & _ & _ & ->)];
    intros Hc'; [lia | | congruence |].
  - destruct (Ht Hc') as (told & -> & H1 & H2); [| done]. cbn [flight]. unfold stale in Hs. rewrite He in Hs.
    apply negb_true_iff, bool_decide_eq_false in Hs. rewrite (scene_stale _ _ epoch) by congruence. done.
  - destruct (Ht Hc) as (told & -> & H1 & H2); [| done]. cbn [flight]. pose proof (fresh_epoch _ _ _ He Hs) as Hce.
    rewrite (scene_fresh _ _ epoch) by congruence. unfold ahead in *. cbn [with_frames control frames current_epoch].
    rewrite !app_assoc, replay_snoc, <- app_assoc, H1. unfold replay_step. rewrite Hr. split; [done |].
    rewrite H2 in *. destruct (scene told) as [| [] ?]; done.
Qed.

Lemma tracks_cursor drawn seen q cursor p : calm p = true -> tracks drawn seen q (PushingCursor cursor) ->
  tracks drawn seen (fst (push_cursor cursor q)) p.
Proof.
  intros Hp Ht. apply tracks_calm; [done |]. unfold push_cursor. destruct (closed q) eqn:Hc; [intros; cbn in *; congruence |].
  intros _. destruct (Ht Hc) as (told & -> & H); [| done]. cbn [flight]. rewrite app_nil_r. by destruct cursor.
Qed.

Lemma tracks_drain drawn drains q q' bounded drain p : drain_with_limit bounded q = (q', drain) ->
  tracks drawn (concat (map drawn_by drains)) q p -> tracks drawn (concat (map drawn_by (drains ++ [drain]))) q' p.
Proof.
  intros Hd Ht Hc. rewrite (closed_drain _ _ _ _ Hd) in Hc. destruct (Ht Hc) as (told & Hdr & H). exists told. split; [done |].
  rewrite shown_snoc, <- app_assoc, (ahead_drain _ _ _ _ Hd). injection Hd as <- _. cbn [frames current_epoch].
  destruct p; try done. destruct event; try done. by destruct H as [-> ?]; rewrite drop_nil.
Qed.

Definition scene_inv (w : W) : Prop := tracks (omap frame_of (received w)) (shown w) (queue w) (pc w).

Lemma tracks_moves drawn seen q p p' : tracks drawn seen q p -> (follows p' = true -> follows p = true /\ flight p' = flight p) ->
  (forall event prompt, p <> Pushing event prompt) -> (forall s f prompt, p' <> Pushing (EvFrame s f) prompt) -> tracks drawn seen q p'.
Proof.
  intros Ht Hm Hp Hp' Hc. destruct (Ht Hc) as (told & Hd & H). exists told.
  split; [intros Hf; destruct (Hm Hf) as [H1 ->]; auto |].
  destruct p; try (exfalso; eapply Hp; reflexivity).
  all: destruct p' as [| | | | event' ? | | | | | | |]; try exact H; destruct event'; try exact H; exfalso; eapply Hp'; reflexivity.
Qed.

Lemma scene_inv_step w w' : queue_inv w -> fits w -> scene_inv w -> step w w' -> scene_inv w'.
Proof.
  intros [Hp _ Hs] Hf Hi H. destruct w as [q st caps pend fl gr p hello cfg sup ap rec del con].
  step_cases H; unfold scene_inv, shown in *; world_simpl; try exact Hi; try (intros Hc; done).
  all: try (intros Hc; exfalso; enough (closed q = true) by (cbn in Hc; congruence); apply Hs; unfold shut; cbn; tauto).
  all: try (apply tracks_moves with (1 := Hi); try done; destruct last0; done).
  all: try (eapply tracks_drain; eassumption).
  all: try (eapply tracks_push; [.. | exact Hi]; done).
  - rewrite omap_snoc. by eapply tracks_receive.
  - apply tracks_moves with (1 := Hi); try done; by destruct event.
  - by eapply tracks_reset.
  - intros Hc. unfold push_reset in *. by rewrite Hc in *.
  - eapply tracks_frame; [.. | exact Hi]; try done. by apply Hf.
  - by eapply tracks_cursor.
  - eapply tracks_announce; [| eassumption | exact Hi]; done.
Qed.

(** *** No stale update is ever delivered *)

(** Every frame of a drain belongs to the reset that the view has seen last. *)
Definition current_frames (seen : list RemoteFrameEvent) (drain : RdpSessionDrain) : Prop :=
  Forall (fun frame => frame_epoch frame = scene_epoch (replay (seen ++ omap frame_event (d_control drain)))) (d_frames drain).
Fixpoint epochs_ok (seen : list RemoteFrameEvent) (drains : list RdpSessionDrain) : Prop :=
  match drains with
  | [] => True
  | drain :: drains => current_frames seen drain /\ epochs_ok (seen ++ drawn_by drain) drains
  end.

Lemma epochs_ok_snoc drains drain : forall seen, epochs_ok seen drains -> current_frames (seen ++ concat (map drawn_by drains)) drain ->
  epochs_ok seen (drains ++ [drain]).
Proof.
  induction drains as [| d drains IH]; intros seen; cbn [epochs_ok app map concat].
  - rewrite app_nil_r. done.
  - intros [H1 H2] H. rewrite app_assoc in H. split; [done |]. by apply IH.
Qed.

(** Frames are painted on the reset before them. *)
Lemma replay_frames seen fs : Forall (fun frame => is_reset frame = false) fs -> replay (seen ++ fs) = replay seen ++ fs.
Proof.
  induction fs as [| f fs IH] using rev_ind; [by rewrite !app_nil_r |]. intros [Hfs Hf]%Forall_app. rewrite app_assoc, replay_snoc, IH by done.
  unfold replay_step. inversion Hf as [| ? ? Hr]; subst. by rewrite Hr, app_assoc.
Qed.

Lemma scene_epoch_frames l fs : Forall (fun frame => is_reset frame = false) fs -> is_Some (scene_epoch (l ++ fs)) ->
  scene_epoch (l ++ fs) = scene_epoch l.
Proof. destruct l as [| f l]; [| done]. destruct fs as [| [] fs]; cbn; try done. by intros [? _]%Forall_cons. Qed.

Lemma waiting_bitmaps q : queue_ok q -> Forall (fun frame => is_reset frame = false) (frames q).
Proof. intros [_ _ _ He _ _]. eapply Forall_impl; [exact He |]. cbn. intros [] [[? [=]] _]. done. Qed.

(** Frames that wait belong to the last reset that was shown or is ahead. *)
Lemma waiting_current drawn seen q p : queue_ok q -> tracks drawn seen q p ->
  Forall (fun frame => frame_epoch frame = scene_epoch (replay (seen ++ omap frame_event (control q)))) (frames q).
Proof.
  intros Hq Ht. pose proof (waiting_bitmaps _ Hq) as Hb. destruct (closed q) eqn:Hc.
  { by destruct (ok_closed _ Hq Hc) as [-> _]. }
  destruct (Ht Hc) as (told & _ & H). assert (Hfr : frames q = [] \/ current_epoch q = scene_epoch (replay (seen ++ ahead q))).
  { destruct p; try (right; destruct H as [-> H]; exact H). destruct event; try (right; destruct H as [-> H]; exact H). by left; destruct H. }
  destruct Hfr as [-> | Hce]; [done |]. unfold ahead in Hce. rewrite app_assoc, replay_frames in Hce by done.
  destruct Hq as [_ _ _ He _ _]. eapply Forall_impl; [exact He |]. cbn. intros f [Hs Hf]. rewrite Hf in *. rewrite Hce in *.
  by apply scene_epoch_frames.
Qed.

Definition drains_inv (w : W) : Prop := epochs_ok [] (delivered w).

Lemma drains_inv_step w w' : queue_inv w -> scene_inv w -> drains_inv w -> step w w' -> drains_inv w'.
Proof.
  intros [_ Hq _] Hi Hd H. destruct w as [q st caps pend fl gr p hello cfg sup ap rec del con].
  step_cases H; unfold drains_inv, scene_inv, shown in *; world_simpl; try exact Hd.
  all: apply epochs_ok_snoc; [done |]; cbn [app]; unfold current_frames; pose proof (waiting_current _ _ _ _ Hq Hi) as Hw;
    match goal with Hx : drain_with_limit _ _ = _ |- _ => injection Hx as _ <- end; cbn [d_control d_frames]; by apply Forall_take.
Qed.

Lemma scene_reachable config w : reachable decode_json session_id config w -> queue_inv w /\ fits w /\ scene_inv w /\ drains_inv w.
Proof.
  apply (reachable_ind (fun w => fits w /\ scene_inv w /\ drains_inv w)).
  - intros pending _. split; [done |]. split; [| done]. intros _. by exists [].
  - intros v v' Hq (Hf & Hs & Hd) H. split_and!; [by eapply fits_step | by eapply scene_inv_step | by eapply drains_inv_step].
Qed.

(** C5: the view shows what the helper drew.  Whatever the reader, the supervisor, the view and whoever closes the session do in
    whatever order, every update that a drain hands out belongs to the reset that the view has seen last, and as long as the session
    is open, when the reader is between two packets, what the view has been given and is still to be given since that reset is
    exactly the helper's last reset and all updates of its epoch, in their order: nothing is lost, doubled, or drawn on another desktop. *)
Theorem remote_view_shows_scene config w : reachable decode_json session_id config w ->
  epochs_ok [] (delivered w) /\
  (closed (queue w) = false -> pc w = Reading -> replay (shown w ++ ahead (queue w)) = scene (omap frame_of (received w))).
Proof.
  intros (_ & _ & Hs & Hd)%scene_reachable. split; [done |]. intros Hc Hp. unfold scene_inv in Hs. rewrite Hp in Hs.
  destruct (Hs Hc) as (told & Ht & H & _). rewrite Ht, app_nil_r by done. exact H.
Qed.

(** ** Certificates *)

Definition certificates_inv (w : W) : Prop :=
  match app w with Gone _ => forall id, pending_certificates w !! id <> Some session_id | _ => True end.

Lemma forget_lookup (m : gmap (list Z) (list Z)) id : forget session_id m !! id <> Some session_id.
Proof.
  unfold forget. rewrite map_lookup_filter_Some. cbn. unfold beq. intros [_ H]. by rewrite bool_decide_eq_true_2 in H.
Qed.

Lemma certificates_inv_step w w' : queue_inv w -> certificates_inv w -> step w w' -> certificates_inv w'.
Proof.
  intros [_ _ Hs] Hc H. destruct w as [q st caps pend fl gr p hello cfg sup ap rec del con].
  step_cases H; unfold certificates_inv in *; world_simpl; try exact Hc; try done.
  - destruct ap; try done. exfalso. enough (false = true) by done. apply Hs. unfold shut. cbn. tauto.
  - destruct ap; try done. intros id [_ H]%lookup_delete_Some. by apply (Hc id).
  - apply forget_lookup.
  - destruct ap; try done. intros id H%Hm. by apply (Hc id).
Qed.

(** C22: a session that was closed, by [close] or by [close_detached], leaves no certificate prompt behind: from the moment the close has
    taken its prompts away, no prompt of its name waits for an answer, even if its reader, its supervisor and other sessions run on,
    and even if the reader was just about to register one. *)
Theorem closed_session_leaves_no_prompt config w detached id : reachable decode_json session_id config w -> app w = Gone detached ->
  pending_certificates w !! id <> Some session_id.
Proof.
  intros Hr Ha. destruct (reachable_ind certificates_inv config w) as [_ H]; try done; [by intros; eapply certificates_inv_step |].
  unfold certificates_inv in H. rewrite Ha in H. apply H.
Qed.

(** ** Failing *)

Definition fatal (event : RdpRuntimeEvent) : bool := match event with EvError _ _ true => true | _ => false end.

(** Everything that was given to the view as control, and what waits. *)
Definition log (w : W) : list RdpRuntimeEvent := concat (map d_control (delivered w)) ++ control (queue w).
Definition fatals (events : list RdpRuntimeEvent) : nat := length (List.filter fatal events).

(** What is queued after the end of a session. *)
Definition farewell (event : RdpRuntimeEvent) : bool := match event with EvState _ Disconnected None => true | _ => false end.

(** Nothing but farewells follows an error that ends the session. *)
Fixpoint quiet (events : list RdpRuntimeEvent) : Prop :=
  match events with [] => True | event :: events => if fatal event then Forall (fun e => farewell e = true) events else quiet events end.

Lemma fatals_app a b : fatals (a ++ b) = (fatals a + fatals b)%nat.
Proof. unfold fatals. by rewrite List.filter_app, length_app. Qed.

Lemma quiet_prefix a b : quiet (a ++ b) -> quiet a.
Proof.
  induction a as [| e a IH]; [done |]. cbn. destruct (fatal e); [| auto]. by intros [? _]%Forall_app.
Qed.

Lemma quiet_snoc l e : quiet l -> fatals l = 0%nat \/ farewell e = true -> quiet (l ++ [e]).
Proof.
  induction l as [| e' l IH]; simpl; [intros _ _; destruct (fatal e); [apply Forall_nil_2 | exact I] |]. unfold fatals in *. cbn [List.filter].
  destruct (fatal e'); [| auto]. intros Hl [H | H]; [done |]. apply Forall_app. auto.
Qed.

(** How much of [push_reader_error] is under way after its test of [failed]. *)
Definition engaged (stage : fail_stage) : nat := match stage with FailOnce => 0 | _ => 1 end.
Definition underway (w : W) : nat :=
  (match pc w with Failing stage _ _ => engaged stage | _ => 0 end +
   match supervisor w with TimingOut stage => engaged stage | _ => 0 end)%nat.

(** At most one error that ends the session is queued or on its way, none before the session has failed; the session is closed then,
    and nothing but farewells comes after it. *)
Definition failing_ok (drained : list RdpRuntimeEvent) (q : EventQueueState) (n : nat) (b : bool) : Prop :=
  (fatals (drained ++ control q) + n <= Nat.b2n b)%nat /\ ((0 < fatals (drained ++ control q))%nat -> closed q = true) /\ quiet (drained ++ control q).

Lemma failing_push drained q q' pushed event n b : fatal event = false -> push_control event q = Some (q', pushed) ->
  failing_ok drained q n b -> failing_ok drained q' n b.
Proof.
  intros He [(_ & -> & _) | (Hc & _ & _ & ->)]%push_control_cases (H1 & H2 & H3); [done |]. unfold failing_ok.
  assert (Hz : fatals (drained ++ control q) = 0%nat).
  { destruct (fatals (drained ++ control q)); [done |]. rewrite Hc in H2. discriminate H2. lia. }
  cbn [with_control control closed]. rewrite app_assoc. assert (fatals [event] = 0%nat) by (unfold fatals; cbn; by rewrite He).
  rewrite fatals_app. split_and!; [lia | lia |]. apply quiet_snoc; auto.
Qed.

Lemma failing_force_error drained q n b s error : closed q = true -> failing_ok drained q (S n) b ->
  failing_ok drained (push_control_force (EvError s error true) q) n b.
Proof.
  intros Hc (H1 & H2 & H3). unfold failing_ok. cbn [push_control_force with_control control closed]. rewrite app_assoc, fatals_app.
  change (fatals [EvError s error true]) with 1%nat. split_and!; [lia | done |]. apply quiet_snoc; [done |]. left. destruct b; cbn in H1; lia.
Qed.

Lemma failing_force_farewell drained q n b s : closed q = true -> failing_ok drained q n b ->
  failing_ok drained (push_control_force (EvState s Disconnected None) q) n b.
Proof.
  intros Hc (H1 & H2 & H3). unfold failing_ok. cbn [push_control_force with_control control closed]. rewrite app_assoc, fatals_app.
  change (fatals [EvState s Disconnected None]) with 0%nat. split_and!; [lia | done |]. apply quiet_snoc; auto.
Qed.

Lemma failing_close drained q n b : failing_ok drained q n b -> failing_ok drained (close q) n b.
Proof.
  intros (H1 & H2 & H3). rewrite fatals_app in H1. unfold failing_ok. cbn [close control closed]. rewrite app_nil_r.
  split_and!; [lia | done | by eapply quiet_prefix].
Qed.

Lemma failing_drain drained q q' bounded drain n b : drain_with_limit bounded q = (q', drain) -> failing_ok drained q n b ->
  failing_ok (drained ++ d_control drain) q' n b.
Proof. intros [= <- <-] H. unfold failing_ok. cbn [control closed d_control]. by rewrite app_nil_r. Qed.

Lemma failing_same drained q q' n n' b b' : control q' = control q -> closed q' = closed q -> (n' + Nat.b2n b <= n + Nat.b2n b')%nat ->
  failing_ok drained q n b -> failing_ok drained q' n' b'.
Proof. intros Hc Hd Hn (H1 & H2 & H3). unfold failing_ok. rewrite Hc, Hd. split_and!; auto. lia. Qed.

Definition failing_inv (w : W) : Prop := failing_ok (concat (map d_control (delivered w))) (queue w) (underway w) (failed w).

Lemma led_underway p : led p -> match p with Failing stage _ _ => engaged stage | _ => 0%nat end = 0%nat.
Proof. destruct p; try done. by intros [-> _]. Qed.

Lemma drained_snoc (l : list RdpSessionDrain) d : concat (map d_control (l ++ [d])) = concat (map d_control l) ++ d_control d.
Proof. rewrite map_app, concat_app. cbn. by rewrite app_nil_r. Qed.

Lemma pushable_not_fatal event : pushable event = true -> fatal event = false.
Proof. by destruct event as [| | | | | | | ? ? []]. Qed.

Lemma failing_inv_step w w' : queue_inv w -> failing_inv w -> step w w' -> failing_inv w'.
Proof.
  intros [Hp _ Hs] Hi H. destruct w as [q st caps pend fl gr p hello cfg sup ap rec del con].
  step_cases H; unfold failing_inv, underway in *; world_simpl; cbn [engaged Nat.add] in *; try exact Hi.
  all: rewrite ?Nat.add_1_r, ?Nat.add_0_r, ?drained_snoc in *.
  all: try (by apply failing_close).
  all: try (eapply failing_drain; eassumption).
  all: try (eapply failing_push; [| eassumption | exact Hi]; first [by apply pushable_not_fatal | done]).
  all: try (apply failing_force_error || apply failing_force_farewell; [apply Hs; unfold shut; cbn; tauto | exact Hi]).
  all: try (eapply failing_same; [.. | exact Hi]; cbn; lia || done).
  - by rewrite (led_underway r0) by (by eapply handle_packet_led).
  - eapply failing_same; [by eapply control_push_reset | by eapply closed_push_reset | done | exact Hi].
  - eapply failing_same; [by eapply control_push_frame | by eapply closed_push_frame | done | exact Hi].
  - eapply failing_same; [apply control_push_cursor | apply closed_push_cursor | done | exact Hi].
  - eapply failing_same; [done | done | | exact Hi]. destruct fl; cbn; lia.
Qed.

(** A drain that holds the error, or comes after it, draws nothing. *)
Definition silent (drains : list RdpSessionDrain) : Prop := forall before drain after, drains = before ++ drain :: after ->
  (0 < fatals (concat (map d_control (before ++ [drain]))))%nat -> d_frames drain = [] /\ d_cursors drain = [].

Lemma silent_snoc drains drain : silent drains ->
  ((0 < fatals (concat (map d_control (drains ++ [drain]))))%nat -> d_frames drain = [] /\ d_cursors drain = []) -> silent (drains ++ [drain]).
Proof.
  intros Hs Hd before d after. destruct after as [| a after _] using rev_ind.
  - intros [-> [= ->]]%app_inj_tail. exact Hd.
  - rewrite app_comm_cons, app_assoc. intros [Heq _]%app_inj_tail. by apply Hs in Heq.
Qed.

Lemma silent_step w w' : queue_inv w -> failing_inv w -> silent (delivered w) -> step w w' -> silent (delivered w').
Proof.
  intros [_ Hq _] (_ & Hf & _) Hi H. destruct w as [q st caps pend fl gr p hello cfg sup ap rec del con].
  step_cases H; try exact Hi.
  all: apply silent_snoc; [exact Hi |]; rewrite drained_snoc; match goal with Hx : drain_with_limit _ _ = _ |- _ => injection Hx as _ <- end;
    cbn [d_control d_frames d_cursors]; intros Hn; destruct (ok_closed _ Hq (Hf Hn)) as (-> & -> & -> & ->); by rewrite take_nil.
Qed.

Lemma failing_reachable config w : reachable decode_json session_id config w -> queue_inv w /\ failing_inv w /\ silent (delivered w).
Proof.
  apply (reachable_ind (fun w => failing_inv w /\ silent (delivered w))).
  - intros pending _. split; [split_and!; cbn; [lia | lia | done] |]. by intros [] ? ?.
  - intros v v' Hq (Hf & Hs) H. split; [by eapply failing_inv_step | by eapply silent_step].
Qed.

(** C15: a session ends with one error.  However the reader and the supervisor race to report that the helper broke the protocol, crashed,
    ended its session or went silent, the view is told of at most one error that ends the session; after it the view is given
    nothing but the farewell of a close, and no drain that brings it or comes later draws anything.  Meanwhile what waits is bounded:
    64 frames of at most 160 MiB, and 256 control events of at most 4 MiB while the session is open. *)
Theorem session_ends_with_one_error config w : reachable decode_json session_id config w ->
  (fatals (log w) <= 1)%nat /\ quiet (log w) /\ silent (delivered w) /\
  len (frames (queue w)) <= FRAME_QUEUE_LIMIT /\ frames_cost (frames (queue w)) <= FRAME_QUEUE_BYTE_LIMIT /\
  (closed (queue w) = false -> len (control (queue w)) <= CONTROL_QUEUE_LIMIT /\ events_cost (control (queue w)) <= CONTROL_QUEUE_BYTE_LIMIT).
Proof.
  intros ([_ [_ Hc Hl _ Hctl _] _] & (H1 & _ & H3) & Hs)%failing_reachable. unfold log. split_and!; try done; [destruct (failed w); cbn in H1; lia |].
  intros Ho. by destruct (Hctl Ho) as (_ & ? & ?).
Qed.
End Spec.
