(* ===== verification/RemoteHandshake.v ===== *)
(** The handshake with a remote desktop helper: what a session of RemoteReader.v lets a
    helper do, and is told by it, before and after the hello. *)
From stdpp Require Import base list numbers strings gmap.
From Stdlib Require Import ZArith Lia.
From S2P Require Import Prelude RemoteFrame RemoteIpc RemoteQueue RemoteReader RemoteReaderSpec.

Section Handshake.
Context {Config Input : Type} (decode_json : list Z -> io (RdpControlMessage Config Input)) (session_id : list Z).

Abbreviation W := (world Config).
Abbreviation step := (step decode_json session_id).

(** The helper's first packet confirmed the version and these capabilities. *)
Definition greeting (packets : list Packet) (caps : RdpServerCapabilities) : Prop :=
  exists packet rest, packets = packet :: rest /\ decode_control decode_json packet = Ok (MServerHello PROTOCOL_VERSION caps).

(** What the application says itself. *)
Definition own (event : RdpRuntimeEvent) : bool :=
  match event with EvState _ Connecting None | EvState _ Disconnected None | EvError _ _ true => true | _ => false end.

(** Where the reader can be before the hello. *)
Definition waits_for_hello (packets : list Packet) (p : reader_pc) : Prop :=
  match p with Reading => packets = [] | Settle (Err _) | Failing _ _ true | Ending | Stopped => True | _ => False end.

Definition blank (q : EventQueueState) : Prop :=
  frames q = [] /\ cursor_shape q = None /\ cursor_position q = None /\ cursor_visibility q = None.
Definition draws_nothing (drain : RdpSessionDrain) : Prop := d_frames drain = [] /\ d_cursors drain = [].

Definition greeted_inv (w : W) : Prop :=
  if hello_received w then exists caps, capabilities w = Some caps /\ greeting (received w) caps
  else capabilities w = None /\ waits_for_hello (received w) (pc w).

Definition nothing_inv (w : W) : Prop := hello_received w = false ->
  Forall (fun event => own event = true) (log w) /\ blank (queue w) /\ Forall draws_nothing (delivered w).

Definition config_inv (config : Config) (w : W) : Prop :=
  match pending_config w with
  | Some c => c = config /\ connects w = []
  | None => hello_received w = true /\ (connects w = [] \/ connects w = [config])
  end.

Lemma handle_packet_first packet h c p : handle_packet decode_json session_id false None packet = (h, c, p) ->
  h = true /\ p = Settle (Ok tt) /\ (exists caps, c = Some caps /\ decode_control decode_json packet = Ok (MServerHello PROTOCOL_VERSION caps)) \/
  h = false /\ c = None /\ exists e, p = Settle (Err e).
Proof.
  unfold handle_packet. destruct (packet_type packet); [| by intros [= <- <- <-]; right; eauto ..].
  destruct (decode_control decode_json packet) as [m |] eqn:Hd; [| by intros [= <- <- <-]; right; eauto].
  destruct m as [| | | version caps | | | | | | | | | | | | | | |]; try (by intros [= <- <- <-]; right; eauto). cbn [handle_hello].
  destruct (Z.eqb_spec version PROTOCOL_VERSION) as [-> |]; intros [= <- <- <-]; [left | right]; eauto 6.
Qed.

Lemma handle_packet_later caps packet h c p : handle_packet decode_json session_id true caps packet = (h, c, p) -> h = true /\ c = caps.
Proof.
  unfold handle_packet. destruct (packet_type packet); [| by intros [= <- <- _] ..].
  destruct (decode_control decode_json packet) as [m |]; [| by intros [= <- <- _]]. destruct m; by intros [[= <- <-] _]%pair_equal_spec.
Qed.

Lemma greeted_inv_step w w' : greeted_inv w -> step w w' -> greeted_inv w'.
Proof.
  intros Hi H. destruct w as [q st caps pend fl gr p hello cfg sup ap rec del con].
  step_cases H; unfold greeted_inv in *; world_simpl; try exact Hi.
  - destruct hello.
    + apply handle_packet_later in H3 as [-> ->]. destruct Hi as (c & -> & packet & rest & -> & Hd). exists c. split; [done |]. by eexists _, _.
    + destruct Hi as [-> ->]. apply handle_packet_first in H3 as [(-> & -> & c & -> & Hd) | (-> & -> & e & ->)]; [| done].
      exists c. split; [done |]. by eexists _, _.
  - destruct hello; [done |]. by destruct Hi.
  - destruct hello; [done |]. by destruct Hi.
  - by destruct Hi.
Qed.

Lemma config_inv_step config w w' : greeted_inv w -> config_inv config w -> step w w' -> config_inv config w'.
Proof.
  intros Hg Hi H. destruct w as [q st caps pend fl gr p hello cfg sup ap rec del con].
  step_cases H; unfold config_inv, greeted_inv in *; world_simpl; try exact Hi.
  - destruct cfg as [c |]; [done |]. destruct Hi as [-> Hi]. by apply handle_packet_later in H3 as [-> _].
  - destruct Hi as [-> ->]. auto.
  - destruct Hi as [-> ->]. auto.
Qed.

Lemma own_push drained q q' pushed event : own event = true -> push_control event q = Some (q', pushed) ->
  Forall (fun e => own e = true) (drained ++ control q) -> blank q -> Forall (fun e => own e = true) (drained ++ control q') /\ blank q'.
Proof.
  intros He [(_ & -> & _) | (_ & _ & _ & ->)]%push_control_cases Hl Hb; [done |]. split; [| exact Hb].
  cbn [with_control control]. rewrite app_assoc. apply Forall_app. auto.
Qed.

Lemma own_force drained q event : own event = true ->
  Forall (fun e => own e = true) (drained ++ control q) -> Forall (fun e => own e = true) (drained ++ control (push_control_force event q)).
Proof. intros He Hl. cbn [push_control_force with_control control]. rewrite app_assoc. apply Forall_app. auto. Qed.

Lemma own_close drained q : Forall (fun e => own e = true) (drained ++ control q) -> Forall (fun e => own e = true) (drained ++ control (close q)).
Proof. intros [H _]%Forall_app. cbn [close control]. by rewrite app_nil_r. Qed.

Lemma blank_drain bounded q q' drain : blank q -> drain_with_limit bounded q = (q', drain) ->
  blank q' /\ draws_nothing drain /\ control q' = [] /\ d_control drain = control q.
Proof.
  unfold blank, draws_nothing. intros (H1 & H2 & H3 & H4) [= <- <-]. rewrite H1, H2, H3, H4. cbn. by rewrite take_nil, drop_nil.
Qed.

Lemma nothing_inv_step w w' : greeted_inv w -> nothing_inv w -> step w w' -> nothing_inv w'.
Proof.
  intros Hg Hi H. destruct w as [q st caps pend fl gr p hello cfg sup ap rec del con].
  step_cases H; unfold nothing_inv, greeted_inv, log in *; world_simpl; try exact Hi; intros Hh; try discriminate; subst.
  all: try (by destruct Hg as [_ []]).
  all: try (destruct (Hi eq_refl) as (H1' & H2' & H3'); split_and!; first [done | by apply own_close | by apply own_force]).
  all: try (destruct (Hi eq_refl) as (H1' & H2' & H3'); match goal with Hx : drain_with_limit _ _ = _ |- _ =>
    destruct (blank_drain _ _ _ _ H2' Hx) as (? & ? & -> & Hd) end; rewrite drained_snoc, Hd, app_nil_r;
    split_and!; [done | done |]; apply Forall_app; split; [done | by apply Forall_singleton]).
  - destruct hello; [by apply handle_packet_later in H3 as [? _] | by apply Hi].
  - destruct (Hi eq_refl) as (H1' & H2' & H3'). eapply own_push in H1' as [H1'' H2'']; [| | eassumption | exact H2']; done.
Qed.

Lemma handshake_reachable config w : reachable decode_json session_id config w ->
  queue_inv w /\ greeted_inv w /\ config_inv config w /\ nothing_inv w.
Proof.
  apply (reachable_ind decode_json session_id (fun w => greeted_inv w /\ config_inv config w /\ nothing_inv w)).
  - intros pending _. done.
  - intros v v' _ (Hg & Hc & Hn) H. split_and!; [by eapply greeted_inv_step | by eapply config_inv_step | by eapply nothing_inv_step].
Qed.

(** C6: nothing goes to a helper, and nothing is taken from it, before the handshake.  The configuration of a session, with its credentials, is
    handed to the helper at most once, and only if the first packet of the helper was a hello of this very protocol version; the
    capabilities that are taken as confirmed are those of this hello.  Without it the view is told only what the application says
    itself, and nothing is drawn. *)
Theorem credentials_after_hello config w : reachable decode_json session_id config w ->
  (connects w = [] \/ connects w = [config]) /\
  (connects w <> [] -> exists caps, capabilities w = Some caps) /\
  (forall caps, capabilities w = Some caps -> greeting (received w) caps) /\
  (capabilities w = None ->
     connects w = [] /\ Forall (fun event => own event = true) (log w) /\ Forall draws_nothing (delivered w)).
Proof.
  intros (_ & Hg & Hc & Hn)%handshake_reachable. unfold config_inv, greeted_inv, nothing_inv in *.
  destruct (hello_received w) eqn:Hh.
  - destruct Hg as (caps & Hcaps & Hgr). split_and!; [| by eexists | intros ? ?; congruence | intros; congruence].
    destruct (pending_config w); [left; by destruct Hc | by destruct Hc].
  - destruct Hg as [Hcaps _]. destruct (pending_config w); [| by destruct Hc]. destruct Hc as [-> ->]. destruct (Hn eq_refl) as (? & ? & ?).
    split_and!; auto; [done | intros; congruence].
Qed.
End Handshake.
