(* ===== verification/RemoteProgress.v ===== *)
(** The reader of RemoteReader.v is never stuck: what it waits for, a view that goes on
    draining gives it.  Needed from the JSON of control messages is that no text in a
    message is longer than the message. *)
From stdpp Require Import base list numbers strings gmap.
From Stdlib Require Import ZArith Lia.
From S2P Require Import Prelude RemoteFrame RemoteIpc RemoteQueue RemoteReader RemoteReaderSpec.

(** ** Bounded drains *)

Lemma batch_loop_ge fs : forall bytes count, (count <= batch_loop fs bytes count)%nat.
Proof.
  induction fs as [| f fs IH]; intros bytes count; cbn [batch_loop]; [done |].
  destruct ((0 <? count)%nat && _); [done |]. etrans; [| apply IH]. lia.
Qed.

(** A bounded drain of a queue with frames takes at least one. *)
Lemma frame_batch_len_pos fs : fs <> [] -> (1 <= frame_batch_len fs)%nat.
Proof. destruct fs as [| f fs]; [done |]. intros _. unfold frame_batch_len. cbn [take batch_loop andb Nat.ltb Nat.leb]. apply batch_loop_ge. Qed.

Section Progress.
Context {Config Input : Type} (decode_json : list Z -> io (RdpControlMessage Config Input)) (session_id : list Z).

Abbreviation W := (world Config).
Abbreviation step := (step decode_json session_id).

(** The texts of a message that the reader passes on. *)
Definition texts (m : RdpControlMessage Config Input) : Z :=
  match m with
  | MState _ _ message => text_len message
  | MClipboard _ text _ => len text
  | MClipboardTransfer _ progress => len (transfer_id progress) + len (transfer_name progress) + text_len (transfer_error progress)
  | MCertificateRequest request =>
      len (request_id request) + len (host request) + len (sha256_fingerprint request) + text_len (subject request) +
      text_len (issuer request) + text_len (valid_from request) + text_len (valid_to request)
  | MError _ error _ => len (error_message error)
  | _ => 0
  end.

Hypothesis decoded_texts : forall payload m, decode_json payload = Ok m -> texts m <= len payload.
Hypothesis short_id : len session_id <= CONTROL_PAYLOAD_LIMIT.

(** The event that the reader is about to push. *)
Definition about_to_push (p : reader_pc) : option RdpRuntimeEvent :=
  match p with
  | SetState _ event | Pushing event _ => Some event
  | Gate request => Some (EvCertificateRequest request)
  | _ => None
  end.

Definition pushes_fit (w : W) : Prop := forall event, about_to_push (pc w) = Some event -> control_byte_cost event <= CONTROL_QUEUE_BYTE_LIMIT.

Lemma handle_message_fits m event : texts m <= CONTROL_PAYLOAD_LIMIT -> about_to_push (handle_message session_id m) = Some event ->
  control_byte_cost event <= CONTROL_QUEUE_BYTE_LIMIT.
Proof.
  unfold CONTROL_PAYLOAD_LIMIT, CONTROL_QUEUE_BYTE_LIMIT in *.
  destruct m; cbn [handle_message texts]; intros Ht; repeat case_match; cbn [about_to_push]; try discriminate;
    intros [= <-]; cbn [control_byte_cost]; lia.
Qed.

Lemma handle_packet_pushes hello caps packet h c p : readable (Ok (Some packet)) ->
  handle_packet decode_json session_id hello caps packet = (h, c, p) ->
  forall event, about_to_push p = Some event -> control_byte_cost event <= CONTROL_QUEUE_BYTE_LIMIT.
Proof.
  intros [_ Hl]%readable_fits. unfold handle_packet. destruct (packet_type packet) eqn:Ht.
  - destruct (decode_control decode_json packet) as [m |] eqn:Hd; [| by intros [= <- <- <-]].
    assert (Hm : texts m <= CONTROL_PAYLOAD_LIMIT).
    { unfold decode_control in Hd. rewrite Ht in Hd. cbn in Hd. apply decoded_texts in Hd. cbn [payload_limit] in Hl. lia. }
    destruct m; try destruct hello; try destruct (handle_hello _ _); intros [_ <-]%pair_equal_spec event; try discriminate;
      by apply handle_message_fits.
  - intros [_ <-]%pair_equal_spec event. repeat case_match; discriminate.
  - intros [_ <-]%pair_equal_spec event. repeat case_match; discriminate.
Qed.

Lemma pushes_fit_step w w' : pushes_fit w -> step w w' -> pushes_fit w'.
Proof.
  intros Hi H. destruct w as [q st caps pend fl gr p hello cfg sup ap rec del con].
  step_cases H; unfold pushes_fit in *; world_simpl; try exact Hi; try discriminate.
  - eapply handle_packet_pushes; eassumption.
  - intros event [= <-]. cbn [control_byte_cost]. unfold CONTROL_PAYLOAD_LIMIT, CONTROL_QUEUE_BYTE_LIMIT in *. lia.
Qed.

(** ** Draining *)

Fixpoint drains (n : nat) (w : W) : option W :=
  match n with O => Some w | S n => let* w := drain_step true w in drains n w end.

Definition no_control (q : EventQueueState) : Prop := control q = [] /\ control_bytes q = 0.

Lemma drains_spec n w : app w = Open -> queue_ok (queue w) -> exists w', drains n w = Some w' /\ pc w' = pc w /\ queue_ok (queue w') /\
  (length (frames (queue w')) <= length (frames (queue w)) - n)%nat /\ ((0 < n)%nat \/ no_control (queue w) -> no_control (queue w')).
Proof.
  revert w. induction n as [| n IH]; intros w Ha Hq; cbn [drains].
  { exists w. split_and!; try done; [lia |]. intros [? | ?]; [lia | done]. }
  unfold drain_step. rewrite Ha. destruct (drain_with_limit true (queue w)) as [q d] eqn:Hd.
  edestruct IH as (w' & Hr & Hp & Hok & Hl & Hn); [| | exists w'; split; [exact Hr |]]; [reflexivity | by eapply queue_ok_drain |].
  world_simpl. split_and!; [done | done | |].
  - assert (length (frames q) <= length (frames (queue w)) - 1)%nat; [| lia]. injection Hd as <- _. cbn [frames]. rewrite length_drop.
    destruct (frames (queue w)) eqn:Hf; [done |]. pose proof (frame_batch_len_pos (frames (queue w))) as Hb. rewrite Hf in Hb.
    specialize (Hb ltac:(done)). lia.
  - intros _. apply Hn. right. by injection Hd as <- _.
Qed.

(** An empty queue takes everything that fits at all. *)
Lemma push_control_empty event q : no_control q -> control_byte_cost event <= CONTROL_QUEUE_BYTE_LIMIT -> is_Some (push_control event q).
Proof.
  intros [H1 H2] Hc. unfold push_control, control_full. rewrite H1, H2. unfold saturating_add.
  assert (Hf : (CONTROL_QUEUE_BYTE_LIMIT <? Z.min USIZE_MAX (0 + control_byte_cost event)) = false) by (apply Z.ltb_ge; lia).
  rewrite Hf. destruct (closed q); cbn; by eexists.
Qed.

Lemma push_frame_empty frame q : queue_ok q -> frames q = [] -> is_Some (push_frame FRAME_QUEUE_LIMIT FRAME_QUEUE_BYTE_LIMIT frame q).
Proof.
  intros Hq Hf. unfold push_frame, frames_full. rewrite (ok_frame_bytes _ Hq), Hf. unfold saturating_add. cbn [frames_cost foldr length].
  destruct (Z.ltb_spec FRAME_QUEUE_BYTE_LIMIT (frame_byte_cost frame)); [by eexists |]. destruct (stale frame q); [by eexists |].
  assert (Hb : (FRAME_QUEUE_BYTE_LIMIT <? Z.min USIZE_MAX (0 + frame_byte_cost frame)) = false) by (apply Z.ltb_ge; lia).
  rewrite Hb. destruct (closed q); cbn; by eexists.
Qed.

(** C21: the reader is never stuck for good.  Whatever has filled the queues of an open session, after at most 64 bounded drains of the view the
    reader can go on, whatever it is at: no event is too large for an empty queue, and no bounded drain leaves a full queue as it is. *)
Theorem reader_goes_on config w r sent : reachable decode_json session_id config w -> app w = Open -> pc w <> Stopped ->
  exists w', drains 64 w = Some w' /\ is_Some (reader_step decode_json session_id r sent w').
Proof.
  intros Hr Ha Hp. destruct (reachable_ind decode_json session_id pushes_fit config w) as [[_ Hq _] Hf]; try done.
  { intros v v' _ Hi Hs. by eapply pushes_fit_step. }
  destruct (drains_spec 64 w Ha Hq) as (w' & Hd & Hpc & Hok & Hl & Hn). exists w'. split; [done |].
  assert (Hfr : frames (queue w') = []).
  { apply length_zero_iff_nil. pose proof (ok_frame_items _ Hq) as H64. unfold FRAME_QUEUE_LIMIT in H64. lia. }
  assert (Hctl : no_control (queue w')) by (apply Hn; lia). clear Hn Hl Hd. unfold pushes_fit in Hf. unfold reader_step. rewrite Hpc.
  destruct (pc w) as [| | | | event prompt | | frame | | stage e last | [] | |] eqn:Hpcw; try done; try (by eexists).
  - destruct r as [[] |]; by eexists.
  - destruct (push_reset epoch (queue w')); by eexists.
  - destruct (closed (queue w')); by eexists.
  - destruct (push_control_empty event (queue w') Hctl (Hf _ eq_refl)) as [[q b] ->]. destruct prompt; by eexists.
  - destruct (push_frame_empty frame (queue w') Hok Hfr) as [[q b] ->]. by eexists.
  - destruct (fail_step session_id stage e w'). by eexists.
  - destruct (negb _); [by eexists |]. destruct (negb _); by eexists.
Qed.
End Progress.
