(* ===== verification/RemoteTrial.v ===== *)
(** Runs of a session of RemoteReader.v with a small helper: a handshake, a desktop with a
    stale update, a certificate prompt and a crash.  The messages of its control packets are
    told apart by their first byte. *)
From stdpp Require Import base list numbers strings gmap.
From Stdlib Require Import ZArith Lia.
From S2P Require Import Prelude RemoteFrame RemoteIpc RemoteIpcSpec RemoteQueue RemoteReader RemoteReaderSpec RemoteHandshake RemoteProgress.

Module SessionTrial.
Definition session : list Z := [115].

Definition request : RdpCertificateRequest := CertificateRequest [114] [104] 3389 [102] None None None None.

(** The JSON of the trial. *)
Definition decode_json (payload : list Z) : io (RdpControlMessage nat unit) :=
  match payload with
  | [1] => Ok (MServerHello PROTOCOL_VERSION (Capabilities true false))
  | [2] => Ok (MDesktopReset session 7 2 2)
  | [3; 0; 0; 0] => Ok (MCertificateRequest request)
  | 4 :: text => Ok (MClipboard session text 1)
  | _ => bail InvalidData "unknown message"
  end.

Lemma decoded payload m : decode_json payload = Ok m -> texts m <= len payload.
Proof.
  unfold decode_json. intros H. repeat case_match; try discriminate H; injection H as <-; cbn [texts]; subst; first [cbn [length]; lia | vm_compute; intro; discriminate].
Qed.

(** ** Runs *)

(** What happens: the helper sends a packet or ends, the reader goes on, the application goes on, the view drains. *)
Inductive action := Sends (p : Packet) | Ends | Reads | Acts (detached : bool) | Drains.

Definition act (a : action) (w : world nat) : option (world nat) :=
  match a with
  | Sends p => reader_step decode_json session (Ok (Some (flat p))) (Ok tt) w
  | Ends | Reads => reader_step decode_json session (Ok None) (Ok tt) w
  | Acts detached => app_step session detached w
  | Drains => drain_step true w
  end.

Fixpoint run (l : list action) (w : world nat) : option (world nat) :=
  match l with [] => Some w | a :: l => match act a w with Some w => run l w | None => None end end.

Lemma readable_flat p : packet_ok p -> readable (Ok (Some (flat p))).
Proof.
  intros Hp. destruct (read_packet_spec (Some (fun _ => true)) (fun _ => true) [Bytes (wire p)] p []) as (rest & H & _); try done.
  - by intros reserve n [= <-].
  - by repeat constructor.
  - by exists (fun _ => true), (fun _ => true), [Bytes (wire p)], rest.
Qed.

Lemma readable_end : readable (Ok None).
Proof. by exists (fun _ => true), (fun _ => true), [], []. Qed.

Definition sendable_action (a : action) : Prop := match a with Sends p => packet_ok p | _ => True end.

Lemma act_step a w w' : sendable_action a -> act a w = Some w' -> step decode_json session w w'.
Proof.
  destruct a as [p | | | d |]; cbn [act sendable_action]; intros Hp H; [| | | by eapply step_app | by eapply step_drain];
    (eapply step_reader; [| exact H]); [by apply readable_flat | apply readable_end ..].
Qed.

Lemma run_steps l : forall w w', Forall sendable_action l -> run l w = Some w' -> rtc (step decode_json session) w w'.
Proof.
  induction l as [| a l IH]; intros w w' Hl; cbn [run]; [by intros [= <-] |]. apply Forall_cons in Hl as [Ha Hl].
  destruct (act a w) as [v |] eqn:Hv; [| done]. intros H. eapply rtc_l; [by eapply act_step | auto].
Qed.

Lemma run_reachable l w : Forall sendable_action l -> run l (opened 5%nat ∅) = Some w -> reachable decode_json session 5%nat w.
Proof. intros Hl H. exists ∅. split; [by intros id |]. by eapply run_steps. Qed.

Definition control_packet (payload : list Z) : Packet := Pack Control payload [].
Definition frame_packet (epoch : Z) : Packet :=
  match encode_frame_packet session (Bitmap epoch true 0 0 1 1 4 Bgra8 [1; 2; 3; 4]) with Ok p => p | Err _ => control_packet [] end.

(** A desktop with an update, a stale one, and an update that the view has not got yet. *)
Definition drawing : list action :=
  [Acts true; Sends (control_packet [1]); Reads; Sends (control_packet [2]); Reads; Reads; Reads; Sends (frame_packet 7); Reads; Reads; Drains;
   Sends (frame_packet 6); Reads; Reads; Sends (frame_packet 7); Reads; Reads].
(** A prompt that is registered, and then forgotten by the close while it is being pushed. *)
Definition prompting : list action :=
  [Acts true; Sends (control_packet [1]); Reads; Sends (control_packet [3; 0; 0; 0]); Reads; Acts true; Acts true; Acts true; Reads; Acts true].
(** A helper that sends nonsense. *)
Definition crashing : list action :=
  [Acts true; Sends (control_packet [1]); Reads; Sends (control_packet [9]); Reads; Reads; Reads; Reads; Reads; Drains].

Definition after (l : list action) : world nat := default (opened 5%nat ∅) (run l (opened 5%nat ∅)).

Ltac reached l := apply (run_reachable l); [repeat constructor; vm_compute; intro; discriminate | vm_compute; reflexivity].

Lemma drawing_reachable : reachable decode_json session 5%nat (after drawing).
Proof. reached drawing. Qed.
Lemma prompting_reachable : reachable decode_json session 5%nat (after prompting).
Proof. reached prompting. Qed.
Lemma crashing_reachable : reachable decode_json session 5%nat (after crashing).
Proof. reached crashing. Qed.

Lemma view_witness : length (ahead (queue (after drawing))) = 1%nat /\
  replay (shown (after drawing) ++ ahead (queue (after drawing))) = scene (omap (frame_of decode_json session) (received (after drawing))).
Proof.
  split; [vm_compute; reflexivity |]. apply (remote_view_shows_scene decode_json session 5%nat _ drawing_reachable); vm_compute; reflexivity.
Defined.

Lemma prompt_witness : pending_certificates (after prompting) !! request_id request <> Some session.
Proof. apply (closed_session_leaves_no_prompt decode_json session 5%nat _ true _ prompting_reachable). vm_compute. reflexivity. Defined.

Lemma error_witness : fatals (log (after crashing)) = 1%nat /\ quiet (log (after crashing)).
Proof.
  split; [vm_compute; reflexivity |]. apply (session_ends_with_one_error decode_json session 5%nat _ crashing_reachable).
Defined.

Lemma credentials_witness : connects (after drawing) = [5%nat] /\ greeting decode_json (received (after drawing)) (Capabilities true false).
Proof.
  split; [vm_compute; reflexivity |]. apply (credentials_after_hello decode_json session 5%nat _ drawing_reachable). vm_compute. reflexivity.
Defined.

Lemma progress_witness : exists w', drains 64 (after drawing) = Some w' /\ is_Some (reader_step decode_json session (Ok None) (Ok tt) w').
Proof.
  apply (reader_goes_on decode_json session decoded ltac:(vm_compute; intro; discriminate) 5%nat _ _ _ drawing_reachable).
  - vm_compute. reflexivity.
  - vm_compute. intro; discriminate.
Defined.
End SessionTrial.
