(* ===== verification/RemoteHeartbeat.v ===== *)
(** The heartbeat of a remote desktop helper, zzclawterm-remote-desktop/src/heartbeat.rs:
    when the supervisor asks the helper for a sign of life and when it gives up.
    Instants are milliseconds.  The flag [blocked], which the reader sets while it waits
    for the view, is read twice in a tick. *)
From stdpp Require Import base list numbers.
From Stdlib Require Import ZArith Lia.
From S2P Require Import Prelude.

Definition INTERVAL : Z := 2000.
Definition DEADLINE : Z := 10000.

Record Clock := ClockAt { hello_seen : bool; since : Z; last_tick : Z; next_ping : Z; sequence : Z; pending : option Z }.

Definition default_clock (now : Z) : Clock := ClockAt false now now now 0 None.

Definition hello (c : Clock) : Clock := ClockAt true (since c) (last_tick c) (next_ping c) (sequence c) (pending c).

(** [pong]; the clock is read twice. *)
Definition pong (seq now now' : Z) (c : Clock) : Clock :=
  if bool_decide (pending c = Some seq) then ClockAt (hello_seen c) now (last_tick c) (now' + INTERVAL) (sequence c) None else c.

(** The start of a tick: after a long gap or while the reader is blocked everything starts anew. *)
Definition refresh (blocked : bool) (now : Z) (c : Clock) : Clock :=
  if (INTERVAL * 2 <? saturating_sub now (last_tick c)) || blocked then ClockAt (hello_seen c) now now now (sequence c) None
  else ClockAt (hello_seen c) (since c) now (next_ping c) (sequence c) (pending c).

Definition tick (blocked blocked' : bool) (now : Z) (c : Clock) : Clock * result (option Z) unit :=
  let c := refresh blocked now c in
  if (negb (hello_seen c) || bool_decide (is_Some (pending c))) && (DEADLINE <=? saturating_sub now (since c)) then (c, Err tt)
  else if hello_seen c && bool_decide (pending c = None) && (next_ping c <=? now) && negb blocked' then
    let seq := wrap 64 (sequence c + 1) in
    (ClockAt (hello_seen c) now (last_tick c) (next_ping c) seq (Some seq), Ok (Some seq))
  else (c, Ok None).

(** ** Runs *)

Inductive beat := Hello | Pong (seq now now' : Z) | Tick (blocked blocked' : bool) (now : Z).

Definition beat_step (b : beat) (c : Clock) : Clock * option (result (option Z) unit) :=
  match b with
  | Hello => (hello c, None)
  | Pong seq now now' => (pong seq now now' c, None)
  | Tick blocked blocked' now => let (c, r) := tick blocked blocked' now c in (c, Some r)
  end.

(** The supervisor's loop over what happens: whether it gives up. *)
Fixpoint gives_up (beats : list beat) (c : Clock) : bool :=
  match beats with
  | [] => false
  | b :: beats => match beat_step b c with (_, Some (Err _)) => true | (c, _) => gives_up beats c end
  end.

(** ** A helper that answers *)

(** What is due of the helper: the hello, or the answer to the last ping, before an instant. *)
Record due := Due { greeted_by : option Z; answer_by : option (Z * Z) }.

(** A helper that says hello and answers every ping in time, as far as the ticks can tell. *)
Fixpoint responsive (beats : list beat) (c : Clock) (d : due) : Prop :=
  match beats with
  | [] => True
  | b :: beats =>
      match b with
      | Hello => responsive beats (hello c) (Due None (answer_by d))
      | Pong seq now now' =>
          responsive beats (pong seq now now' c)
            (Due (greeted_by d) (match answer_by d with Some (s, t) => if s =? seq then None else Some (s, t) | None => None end))
      | Tick blocked blocked' now =>
          match greeted_by d with Some t => now < t | None => True end /\
          match answer_by d with Some (_, t) => now < t | None => True end /\
          match tick blocked blocked' now c with
          | (c, Ok (Some seq)) => responsive beats c (Due (greeted_by d) (Some (seq, now + DEADLINE)))
          | (c, _) => responsive beats c d
          end
      end
  end.

(** The clock asks for no more than what is due. *)
Definition asks (c : Clock) (d : due) : Prop :=
  (hello_seen c = false -> exists t, greeted_by d = Some t /\ t <= since c + DEADLINE) /\
  (forall seq, pending c = Some seq -> hello_seen c = true /\ exists t, answer_by d = Some (seq, t) /\ t <= since c + DEADLINE).

(** Instants do not go back: not before the start of what the clock waits for. *)
Fixpoint in_order (t : Z) (beats : list beat) : Prop :=
  match beats with
  | [] => True
  | Hello :: beats => in_order t beats
  | Pong _ now now' :: beats => t <= now <= now' /\ in_order now' beats
  | Tick _ _ now :: beats => t <= now /\ in_order now beats
  end.

Lemma tick_asks blocked blocked' now c d c' r : since c <= now -> asks c d ->
  match greeted_by d with Some t => now < t | None => True end -> match answer_by d with Some (_, t) => now < t | None => True end ->
  tick blocked blocked' now c = (c', r) ->
  since c' <= now /\
  match r with
  | Err _ => False
  | Ok (Some seq) => asks c' (Due (greeted_by d) (Some (seq, now + DEADLINE)))
  | Ok None => asks c' d
  end.
Proof.
  intros Hs [Hg Ha] Hg' Ha'. unfold tick. assert (Hr : asks (refresh blocked now c) d /\ since (refresh blocked now c) <= now).
  { unfold refresh. destruct (_ || _); [| done]. split; [| done]. split; cbn; [| done]. intros (t & -> & Ht)%Hg. exists t. split; [done | lia]. }
  destruct Hr as [[Hg1 Ha1] Hs1]. generalize dependent (refresh blocked now c). intros c1 Hg1 Ha1 Hs1.
  destruct (_ && (DEADLINE <=? _)) eqn:He.
  { exfalso. apply andb_true_iff in He as [He Hd%Z.leb_le]. unfold saturating_sub, DEADLINE in *. apply orb_true_iff in He as [He | He].
    - apply negb_true_iff in He. destruct (Hg1 He) as (t & Ht & Hle). rewrite Ht in Hg'. lia.
    - apply bool_decide_eq_true in He as [seq Hp]. destruct (Ha1 _ Hp) as (_ & t & Ht & Hle). rewrite Ht in Ha'. lia. }
  destruct (hello_seen c1 && _ && _ && _) eqn:Hh; intros [= <- <-]; [| done].
  rewrite !andb_true_iff in Hh. destruct Hh as [[[Hh _] _] _]. split; [done |]. split; cbn; [congruence |].
  intros seq [= <-]. split; [done |]. eexists. split; [done | lia].
Qed.

Lemma responsive_stays beats : forall c d t, asks c d -> since c <= t -> in_order t beats -> responsive beats c d -> gives_up beats c = false.
Proof.
  induction beats as [| b beats IH]; intros c d t Ha Hs Ho Hr; [done |]. destruct b as [| seq now now' | b1 b2 now]; cbn [gives_up beat_step responsive in_order] in *.
  - eapply IH; [| | exact Ho | exact Hr]; [| exact Hs]. split; [done |]. intros seq Hp. split; [done |]. by apply (proj2 Ha).
  - destruct Ho as [Hn Ho]. eapply IH; [| | exact Ho | exact Hr].
    + destruct Ha as [Hg Hp]. unfold pong. destruct (bool_decide_reflect (pending c = Some seq)) as [Heq | Hne].
      * split; cbn; [| done]. intros (t' & -> & ?)%Hg. exists t'. split; [done | lia].
      * split; [done |]. intros s Hps. destruct (Hp _ Hps) as (Hh & t' & -> & ?). split; [done |]. exists t'.
        destruct (Z.eqb_spec s seq); [congruence | done].
    + unfold pong. destruct (bool_decide _); cbn; lia.
  - destruct Ho as [Hn Ho]. destruct Hr as (H1 & H2 & H3). destruct (tick b1 b2 now c) as [c' r] eqn:Ht.
    assert (Hsn : since c <= now) by lia. destruct (tick_asks _ _ _ _ _ _ _ Hsn Ha H1 H2 Ht) as [Hs' Hr]. destruct r as [[seq |] |]; [| | done]; by eapply IH.
Qed.

(** C35: a helper that answers is never given up.  Whatever ticks, pauses and waits of the reader come between, if the hello comes within ten seconds
    of the start and every ping is answered within ten seconds, before the next tick sees it overdue, no tick reports a timeout. *)
Theorem responsive_helper_kept start beats : in_order start beats ->
  responsive beats (default_clock start) (Due (Some (start + DEADLINE)) None) -> gives_up beats (default_clock start) = false.
Proof.
  intros Ho Hr. eapply responsive_stays; [| | exact Ho | exact Hr]; [| cbn; lia]. split; [| done]. intros _. eexists. split; [done | cbn; lia].
Qed.

(** ** A helper that is silent *)

(** Ticks that come regularly, while the reader is not blocked. *)
Definition quiet_ticks (times : list Z) : list beat := map (Tick false false) times.
Fixpoint steady (last : Z) (times : list Z) : Prop :=
  match times with [] => True | now :: times => last <= now <= last + INTERVAL * 2 /\ steady now times end.

(** When the clock has asked at the latest. *)
Definition asked_by (c : Clock) : Z :=
  if hello_seen c then match pending c with Some _ => since c | None => Z.max (next_ping c) (last_tick c) + INTERVAL * 2 end else since c.

Lemma quiet_tick now c : last_tick c <= now <= last_tick c + INTERVAL * 2 ->
  (exists c', tick false false now c = (c', Err tt)) \/
  exists c' r, tick false false now c = (c', Ok r) /\ last_tick c' = now /\ now < asked_by c + DEADLINE /\ asked_by c' <= asked_by c.
Proof.
  intros Hn. unfold tick, refresh, saturating_sub. rewrite (proj2 (Z.ltb_ge _ _)) by lia. cbn [orb].
  cbn [hello_seen since last_tick next_ping sequence pending]. unfold asked_by, DEADLINE, INTERVAL in *. destruct c as [h s l n q p].
  cbn [hello_seen since last_tick next_ping sequence pending] in *. destruct h; cbn [negb orb andb].
  - destruct p as [p |]; cbn [bool_decide andb].
    + rewrite bool_decide_true by by eexists. cbn [andb]. destruct (Z.leb_spec 10000 (Z.max 0 (now - s))); [by left; eexists |]. right.
      rewrite bool_decide_false by done. cbn [andb]. eexists _, _. split; [done |]. cbn. lia.
    + rewrite bool_decide_false by by intros [? [=]]. rewrite bool_decide_true by done. cbn [andb]. right.
      destruct (Z.leb_spec n now); eexists _, _; (split; [done |]); cbn [last_tick hello_seen pending since next_ping]; lia.
  - destruct (Z.leb_spec 10000 (Z.max 0 (now - s))); [by left; eexists |]. right. eexists _, _. split; [done |]. cbn. lia.
Qed.

(** C28: a helper that went silent is given up.  From any state of the clock, if the supervisor ticks at least every four seconds, the reader is not
    blocked and no answer arrives, a tick that comes ten seconds after the clock has asked at the latest, or an earlier one, reports the
    timeout: that is ten seconds after a pending ping or the start of the wait for the hello, and otherwise fourteen seconds after the next
    ping was due. *)
Theorem silent_helper_given_up c times now : steady (last_tick c) times -> now ∈ times -> asked_by c + DEADLINE <= now ->
  gives_up (quiet_ticks times) c = true.
Proof.
  revert c. induction times as [| t times IH]; intros c Hst Hin Hb; [by apply elem_of_nil in Hin |].
  destruct Hst as [Ht Hst]. cbn [quiet_ticks map gives_up beat_step].
  destruct (quiet_tick t c Ht) as [[c' ->] | (c' & r & -> & Hl & Hlt & Ha)]; [done |]. apply elem_of_cons in Hin as [-> | Hin]; [lia |].
  apply IH; [by rewrite Hl | done | lia].
Qed.

Module HeartbeatTrial.
(** Two pings that are answered, with a pause of a minute between them. *)
Definition beats : list beat := [Tick false false 100; Hello; Tick false false 200; Pong 1 900 901; Tick false false 3000; Pong 2 3500 3500;
  Tick false false 63000; Pong 3 64000 64001; Tick true true 65000; Tick false false 66000; Pong 4 66500 66600].

Lemma kept_witness : gives_up beats (default_clock 0) = false.
Proof. apply responsive_helper_kept; cbn; unfold DEADLINE; repeat split; lia. Defined.

(** A helper that says hello and then nothing more. *)
Lemma given_up_witness : gives_up (quiet_ticks [200; 3200; 6200; 9200; 12200; 15200]) (hello (default_clock 100)) = true.
Proof.
  apply (silent_helper_given_up _ _ 15200).
  - cbn. unfold INTERVAL. repeat split; lia.
  - by repeat constructor.
  - vm_compute. done.
Defined.
End HeartbeatTrial.
