(* ===== verification/RemoteHelper.v ===== *)
(** The output of the RDP helper, zzclawterm-rdp-helper/src/main.rs and clipboard.rs, with
    [encode_control] of zzclawterm-remote-desktop/src/ipc.rs: how messages become packets
    on its standard output.  The JSON encoder is third-party: [to_vec] gives the text of
    a message. *)
From stdpp Require Import base list numbers strings gmap.
From Stdlib Require Import ZArith Lia.
From S2P Require Import Prelude RemoteFrame RemoteIpc RemoteIpcSpec RemoteQueue RemoteReader.

Definition MAX_CLIPBOARD_TEXT_BYTES : Z := 4 * 1024 * 1024.

Section Output.
Context {Config Input : Type} (to_vec : RdpControlMessage Config Input -> io (list Z)).

Inductive Outbound := OutControl (message : RdpControlMessage Config Input) | OutPacket (packet : Packet).

Definition encode_control (message : RdpControlMessage Config Input) : io Packet :=
  let? payload := to_vec message in
  if CONTROL_PAYLOAD_LIMIT <? len payload then bail InvalidInput "RDP control payload exceeds limit" else Ok (Pack Control payload []).

Definition write_outbound (written : list Z) (outbound : Outbound) : io (list Z) :=
  let? packet := match outbound with OutControl message => encode_control message | OutPacket packet => Ok packet end in
  write_packet_into written packet.

(** The thread of [spawn_stdout_writer] over what it receives, until the senders are gone: what it has written, and how it ended. *)
Fixpoint stdout_writer (written : list Z) (outbounds : list Outbound) : list Z * io unit :=
  match outbounds with
  | [] => (written, Ok tt)
  | outbound :: outbounds =>
      match write_outbound written outbound with
      | Ok written => stdout_writer written outbounds
      | Err e => (written, Err e)
      end
  end.

(** [publish_remote_text]: the new generation and what is sent. *)
Definition publish_remote_text (session_id : list Z) (generation : Z) (text : list Z) : Z * list Outbound :=
  if MAX_CLIPBOARD_TEXT_BYTES <? len text then (generation, [])
  else let generation := wrap 64 (generation + 1) in (generation, [OutControl (MClipboard session_id text generation)]).

(** ** The clipboard's limit *)

(** JSON writes at least one byte for every byte of a text. *)
Hypothesis text_written : forall session_id text generation payload,
  to_vec (MClipboard session_id text generation) = Ok payload -> len text <= len payload.

(** C36: a text of more than 1 MiB on the remote clipboard, which is within the clipboard's limit of 4 MiB, ends the helper's output: the text is
    accepted and sent, its packet is over the limit of control packets, and the writer stops at it, so that nothing that the helper
    sends afterwards, no frame and no sign of life, is ever written. *)
Theorem large_clipboard_ends_output session_id generation text written before after :
  CONTROL_PAYLOAD_LIMIT < len text <= MAX_CLIPBOARD_TEXT_BYTES ->
  snd (stdout_writer written before) = Ok tt ->
  exists e, stdout_writer written (before ++ snd (publish_remote_text session_id generation text) ++ after) =
    (fst (stdout_writer written before), Err e).
Proof.
  intros Hl. unfold publish_remote_text. rewrite (proj2 (Z.ltb_ge _ _)) by lia. cbn [snd]. revert written.
  induction before as [| o before IH]; intros written; simpl List.app; cbn [stdout_writer].
  - intros _. unfold write_outbound, encode_control. cbn [fst]. destruct (to_vec (MClipboard _ _ _)) as [payload | e] eqn:Hv; cbn [result_bind]; [| by exists e].
    apply text_written in Hv. rewrite (proj2 (Z.ltb_lt _ _)) by lia. by eexists.
  - destruct (write_outbound written o); [apply IH | done].
Qed.

(** *** What fits arrives *)

Definition outbound_ok (outbound : Outbound) : Prop :=
  match outbound with OutControl message => exists payload, to_vec message = Ok payload /\ len payload <= CONTROL_PAYLOAD_LIMIT | OutPacket packet => packet_ok packet end.

Definition packet_of (outbound : Outbound) : list Packet :=
  match outbound with
  | OutControl message => match encode_control message with Ok packet => [packet] | Err _ => [] end
  | OutPacket packet => [packet]
  end.

Lemma outbound_packet outbound : outbound_ok outbound -> exists packet, packet_of outbound = [packet] /\ packet_ok packet /\
  forall written, write_outbound written outbound = Ok (written ++ wire packet).
Proof.
  unfold write_outbound. destruct outbound as [message | packet]; cbn [outbound_ok packet_of].
  - intros (payload & Hv & Hl). unfold encode_control. rewrite Hv. cbn [result_bind]. rewrite (proj2 (Z.ltb_ge _ _)) by done.
    exists (Pack Control payload []). split; [done |].
    assert (Hok : packet_ok (Pack Control payload [])) by (unfold packet_ok; cbn [RemoteIpc.payload body packet_type payload_limit length]; lia).
    split; [done |]. intros written. cbn [result_bind]. by apply write_wire.
  - intros Hok. exists packet. split; [done |]. split; [done |]. intros written. cbn [result_bind]. by apply write_wire.
Qed.

Lemma stdout_writer_wire outbounds : Forall outbound_ok outbounds ->
  let packets := concat (map packet_of outbounds) in
  Forall packet_ok packets /\ length packets = length outbounds /\
  forall written, stdout_writer written outbounds = (written ++ concat (map wire packets), Ok tt).
Proof.
  induction 1 as [| o os Ho Hos (IH1 & IH2 & IH3)]; cbn zeta in *; [by split_and!; [constructor | | intros; rewrite app_nil_r] |].
  destruct (outbound_packet o Ho) as (packet & Hp & Hok & Hw). cbn [map concat stdout_writer]. rewrite Hp.
  change ([packet] ++ ?l) with (packet :: l). cbn [map concat length]. split_and!; [by constructor | lia |].
  intros written. rewrite Hw, IH3. by rewrite <- app_assoc.
Qed.

(** What the helper sends arrives.  Messages and packets within their limits are all written, and however the operating system cuts
    the bytes into pieces, the application reads exactly them, in their order, and then the end of the stream. *)
Theorem helper_output_arrives outbounds budget allocate stream :
  Forall outbound_ok outbounds -> (forall n, allocate n = true) -> (forall reserve n, budget = Some reserve -> reserve n = true) ->
  pieces_ok stream -> fst (stdout_writer [] outbounds) = content stream ->
  snd (stdout_writer [] outbounds) = Ok tt /\
  read_packets (S (length outbounds)) budget allocate stream = Ok (map flat (concat (map packet_of outbounds))).
Proof.
  intros Ho Ha Hb Hs. destruct (stdout_writer_wire _ Ho) as (H1 & H2 & H3). rewrite H3. cbn [fst snd]. intros Hc. split; [done |].
  rewrite <- H2. by apply read_packets_spec.
Qed.
End Output.

Module HelperTrial.
(** An encoder that wraps a text in quotes. *)
Definition to_vec (m : RdpControlMessage unit unit) : io (list Z) :=
  match m with MClipboard _ text _ => Ok ([34] ++ text ++ [34]) | _ => Ok [123; 125] end.

Definition text : list Z := replicate (Z.to_nat (CONTROL_PAYLOAD_LIMIT + 1)) 97.

Lemma clipboard_witness : exists e, stdout_writer to_vec [] ([OutControl (MPong 1)] ++ snd (publish_remote_text [115] 0 text) ++ [OutControl (MPong 2)]) =
  (fst (stdout_writer to_vec [] [OutControl (MPong 1)]), Err e).
Proof.
  apply (large_clipboard_ends_output to_vec).
  - intros session_id t generation payload [= <-]. cbn [length]. rewrite length_app. cbn [length]. lia.
  - unfold text. rewrite length_replicate. unfold CONTROL_PAYLOAD_LIMIT, MAX_CLIPBOARD_TEXT_BYTES. lia.
  - vm_compute. reflexivity.
Defined.
End HelperTrial.
