(* ===== verification/RemoteWriter.v ===== *)
(** The application's writer to a remote desktop helper,
    zzclawterm-remote-desktop/src/helper_process.rs ([IpcWriter] and [writer_loop]): a
    bounded mailbox of control packets, input and the latest pointer move, and the
    thread that writes them.  Every packet carries the number of the call that handed it
    in; the code does not look at it. *)
From stdpp Require Import base list numbers strings gmap sorting.
From Stdlib Require Import ZArith Lia.
From S2P Require Import Prelude.

Definition RELIABLE_INPUT_LIMIT : nat := 256.
Definition CRITICAL_LIMIT : nat := 32.
Definition ORDINARY_CRITICAL_LIMIT : nat := CRITICAL_LIMIT - 1.

Section Writer.
Context {Packet : Type}.

Inductive QueuedPacket := Queued (packet : Packet) (completes_resync : bool) (age : nat).
Definition completes_resync (p : QueuedPacket) : bool := let 'Queued _ b _ := p in b.

Record WriterState := Writer {
  critical : list QueuedPacket;
  reliable : list (Packet * nat);
  latest_move : option (Packet * nat);
  resyncing : bool;
  closed : bool;
  write_error : option (list Z) }.

Definition default_writer : WriterState := Writer [] [] None false false None.

Inductive send_error := BrokenPipe (message : list Z) | WouldBlock (message : list Z).

Definition writer_ready (s : WriterState) : result unit send_error :=
  match write_error s with
  | Some error => Err (BrokenPipe error)
  | None => if closed s then Err (BrokenPipe (bs "helper IPC writer is closed")) else Ok tt
  end.

Definition RESYNC : send_error := WouldBlock (bs "remote input is waiting for state resynchronization").

Definition send_critical (packet : Packet) (age : nat) (s : WriterState) : WriterState * result unit send_error :=
  match writer_ready s with
  | Err e => (s, Err e)
  | Ok _ =>
      if (ORDINARY_CRITICAL_LIMIT <=? length (critical s))%nat then (s, Err (WouldBlock (bs "helper critical IPC queue is full")))
      else (Writer (critical s ++ [Queued packet false age]) (reliable s) (latest_move s) (resyncing s) (closed s) (write_error s), Ok tt)
  end.

Definition send_reliable (packet release_all : Packet) (age : nat) (s : WriterState) : WriterState * result unit send_error :=
  match writer_ready s with
  | Err e => (s, Err e)
  | Ok _ =>
      if resyncing s then (s, Err RESYNC)
      else if (RELIABLE_INPUT_LIMIT <=? length (reliable s))%nat then
        (Writer (Queued release_all true age :: critical s) [] None true (closed s) (write_error s),
         Err (WouldBlock (bs "remote input queue overflowed; releasing all remote input")))
      else (Writer (critical s) (reliable s ++ [(packet, age)]) (latest_move s) (resyncing s) (closed s) (write_error s), Ok tt)
  end.

Definition send_latest_move (packet : Packet) (age : nat) (s : WriterState) : WriterState * result unit send_error :=
  match writer_ready s with
  | Err e => (s, Err e)
  | Ok _ =>
      if resyncing s then (s, Err RESYNC)
      else (Writer (critical s) (reliable s) (Some (packet, age)) (resyncing s) (closed s) (write_error s), Ok tt)
  end.

Definition shutdown (s : WriterState) : WriterState :=
  Writer (critical s) (reliable s) (latest_move s) (resyncing s) true (write_error s).

(** ** The thread *)

(** Where a packet came from. *)
Inductive origin := FromCritical | FromReliable | FromMove.

(** The choice of [writer_loop] under the lock; nothing when all is empty. *)
Definition take_next (s : WriterState) : option (WriterState * origin * QueuedPacket) :=
  match critical s with
  | p :: critical => Some (Writer critical (reliable s) (latest_move s) (resyncing s) (closed s) (write_error s), FromCritical, p)
  | [] =>
      match reliable s with
      | (p, age) :: reliable => Some (Writer [] reliable (latest_move s) (resyncing s) (closed s) (write_error s), FromReliable, Queued p false age)
      | [] =>
          match latest_move s with
          | Some (p, age) => Some (Writer [] [] None (resyncing s) (closed s) (write_error s), FromMove, Queued p false age)
          | None => None
          end
      end
  end.

Inductive writer_pc := Choosing | Writing (from : origin) (p : QueuedPacket) | Completing | Returned.

(** The writer, what it has written, how many calls there were, and the input it has accepted. *)
Record world := WriterWorld {
  mailbox : WriterState; thread : writer_pc; written : list (origin * QueuedPacket); calls : nat; accepted : list nat }.

(** A step of the thread; it waits when there is none.  [broken] is an error of the write. *)
Definition thread_step (broken : option (list Z)) (w : world) : option world :=
  let s := mailbox w in
  match thread w with
  | Choosing =>
      if closed s then Some (WriterWorld s Returned (written w) (calls w) (accepted w))
      else match take_next s with
           | Some (s, from, p) => Some (WriterWorld s (Writing from p) (written w) (calls w) (accepted w))
           | None => None
           end
  | Writing from p =>
      match broken with
      | Some error =>
          Some (WriterWorld (Writer (critical s) (reliable s) (latest_move s) (resyncing s) true (Some error)) Returned (written w) (calls w) (accepted w))
      | None => Some (WriterWorld s (if completes_resync p then Completing else Choosing) (written w ++ [(from, p)]) (calls w) (accepted w))
      end
  | Completing =>
      Some (WriterWorld (Writer (critical s) (reliable s) (latest_move s) false (closed s) (write_error s)) Choosing (written w) (calls w) (accepted w))
  | Returned => None
  end.

Definition is_ok {A} (r : result A send_error) : bool := match r with Ok _ => true | Err _ => false end.

Inductive step (w : world) : world -> Prop :=
| step_thread broken w' : thread_step broken w = Some w' -> step w w'
| step_critical packet s r : send_critical packet (calls w) (mailbox w) = (s, r) ->
    step w (WriterWorld s (thread w) (written w) (S (calls w)) (accepted w))
| step_reliable packet release_all s r : send_reliable packet release_all (calls w) (mailbox w) = (s, r) ->
    step w (WriterWorld s (thread w) (written w) (S (calls w)) (accepted w ++ if is_ok r then [calls w] else []))
| step_move packet s r : send_latest_move packet (calls w) (mailbox w) = (s, r) ->
    step w (WriterWorld s (thread w) (written w) (S (calls w)) (accepted w))
| step_shutdown : step w (WriterWorld (shutdown (mailbox w)) (thread w) (written w) (calls w) (accepted w)).

Definition start : world := WriterWorld default_writer Choosing [] 0 [].

(** ** Input around an overflow *)

(** The release of an overflow, and a packet that is input: one of those, or one that was handed in as reliable. *)
Definition release_stamp (p : QueuedPacket) : option nat := let 'Queued _ b age := p in if b then Some age else None.
Definition input_stamp (e : origin * QueuedPacket) : option nat :=
  match e with (FromReliable, Queued _ _ age) => Some age | (_, p) => release_stamp p end.

Definition in_hand (p : writer_pc) : list (origin * QueuedPacket) := match p with Writing from p => [(from, p)] | _ => [] end.
Definition gone (w : world) : list (origin * QueuedPacket) := written w ++ in_hand (thread w).
Definition releases (l : list (origin * QueuedPacket)) : list nat := omap release_stamp (map snd l).
Definition waiting (w : world) : list nat := omap release_stamp (critical (mailbox w)).

(** All input in the order in which it leaves: what is written, the release that waits, and what waits behind it. *)
Definition line (w : world) : list nat := omap input_stamp (gone w) ++ waiting w ++ map snd (reliable (mailbox w)).

(** How many releases are on their way to the helper. *)
Definition resyncs (w : world) : nat :=
  (length (waiting w) + length (releases (in_hand (thread w))) + match thread w with Completing => 1 | _ => 0 end)%nat.

(** A move leaves only after the releases that came before it. *)
Definition fenced (l : list (origin * QueuedPacket)) : Prop := forall before p age after,
  l = before ++ (FromMove, Queued p false age) :: after -> Forall (fun t => t < age)%nat (releases before).

(** The releases so far, in the order in which they leave. *)
Definition all_releases (w : world) : list nat := releases (gone w) ++ waiting w.

(** Input that is lost was lost to an overflow, whose release comes after it. *)
Definition kept (l rs : list nat) (t : nat) : Prop := t ∈ l \/ exists r, r ∈ rs /\ (t < r)%nat.

(** What is in order: the input, and what is left to say about moves and about lost input. *)
Definition ordered (l rs : list nat) (n : nat) (move : option (Packet * nat)) (taken : list nat) (error : option (list Z)) : Prop :=
  StronglySorted lt l /\ Forall (fun t => t < n)%nat (l ++ rs) /\
  (forall p age, move = Some (p, age) -> Forall (fun t => t < age)%nat rs) /\ (error = None -> Forall (kept l rs) taken).

Record writer_inv (w : world) : Prop := {
  wi_critical : (length (critical (mailbox w)) <= ORDINARY_CRITICAL_LIMIT + length (waiting w))%nat;
  wi_few : (length (waiting w) <= 1)%nat;
  wi_reliable : (length (reliable (mailbox w)) <= RELIABLE_INPUT_LIMIT)%nat;
  wi_resync : closed (mailbox w) = false -> thread w <> Returned /\ resyncs w = Nat.b2n (resyncing (mailbox w));
  wi_empty : resyncing (mailbox w) = true -> reliable (mailbox w) = [] /\ latest_move (mailbox w) = None;
  wi_ordered : ordered (line w) (all_releases w) (calls w) (latest_move (mailbox w)) (accepted w) (write_error (mailbox w));
  wi_fenced : fenced (gone w) }.

(** *** Lists *)

Lemma releases_snoc l e : releases (l ++ [e]) = releases l ++ option_list (release_stamp (snd e)).
Proof. unfold releases. rewrite map_app. apply omap_snoc. Qed.

Lemma sorted_snoc l x : StronglySorted lt l -> Forall (fun t => t < x)%nat l -> StronglySorted lt (l ++ [x]).
Proof.
  induction 1 as [| y l Hs IH Hy]; intros Hx; cbn [app]; [by repeat constructor |]. apply Forall_cons in Hx as [? ?].
  constructor; [auto |]. apply Forall_app. auto.
Qed.

Lemma sorted_without (a b c : list nat) : StronglySorted lt (a ++ b ++ c) -> StronglySorted lt (a ++ c).
Proof.
  induction a as [| x a IH]; cbn [app].
  - induction b as [| y b IH]; [done |]. intros H. inversion H; auto.
  - intros H. inversion H as [| ? ? Hs Hf]; subst. constructor; [auto |]. rewrite !Forall_app in Hf. apply Forall_app. tauto.
Qed.

Lemma fenced_snoc l e : fenced l -> (forall p age, e = (FromMove, Queued p false age) -> Forall (fun t => t < age)%nat (releases l)) -> fenced (l ++ [e]).
Proof.
  intros Hf He before p age after. destruct after as [| a after _] using rev_ind.
  - intros [-> ->]%app_inj_tail. by eapply He.
  - rewrite app_comm_cons, app_assoc. intros [-> _]%app_inj_tail. by eapply Hf.
Qed.

Lemma fenced_prefix l k : fenced (l ++ k) -> fenced l.
Proof. intros Hf before p age after ->. eapply Hf. by rewrite <- app_assoc. Qed.

Lemma ordered_later l rs n n' move taken error : (n <= n')%nat -> ordered l rs n move taken error -> ordered l rs n' move taken error.
Proof. intros Hn (H1 & H2 & H3 & H4). split_and!; auto. eapply Forall_impl; [exact H2 |]. cbn. lia. Qed.

(** *** The thread *)

Lemma take_next_cases s s' from p : take_next s = Some (s', from, p) ->
  resyncing s' = resyncing s /\ closed s' = closed s /\ write_error s' = write_error s /\
  match from with
  | FromCritical => critical s = p :: critical s' /\ reliable s' = reliable s /\ latest_move s' = latest_move s
  | FromReliable => exists packet age, p = Queued packet false age /\ critical s = [] /\ critical s' = [] /\
      reliable s = (packet, age) :: reliable s' /\ latest_move s' = latest_move s
  | FromMove => exists packet age, p = Queued packet false age /\ critical s = [] /\ critical s' = [] /\
      reliable s = [] /\ reliable s' = [] /\ latest_move s = Some (packet, age) /\ latest_move s' = None
  end.
Proof.
  unfold take_next. destruct (critical s) eqn:Hc; [| by intros [= <- <- <-]].
  destruct (reliable s) as [| [packet age] rest] eqn:Hr; [| intros [= <- <- <-]; split_and!; try done; by eexists _, _].
  destruct (latest_move s) as [[packet age] |] eqn:Hm; [| done]. intros [= <- <- <-]. split_and!; try done. by eexists _, _.
Qed.

Lemma take_line w s from p : thread w = Choosing -> take_next (mailbox w) = Some (s, from, p) ->
  let w' := WriterWorld s (Writing from p) (written w) (calls w) (accepted w) in
  line w' = line w /\ all_releases w' = all_releases w /\ (forall m, latest_move s = Some m -> latest_move (mailbox w) = Some m) /\
  (length (waiting w') + length (releases (in_hand (Writing from p))) = length (waiting w))%nat /\
  (length (critical s) + length (waiting w) <= length (critical (mailbox w)) + length (waiting w'))%nat /\
  (length (reliable s) <= length (reliable (mailbox w)))%nat.
Proof.
  intros Ht Hn. apply take_next_cases in Hn as (_ & _ & _ & Hn). unfold line, all_releases, gone, waiting. rewrite Ht.
  cbn [thread written mailbox in_hand]. rewrite app_nil_r, releases_snoc, omap_snoc. cbn [snd]. unfold releases at 3. cbn [map snd].
  destruct from.
  - destruct Hn as (-> & -> & ->). rewrite !omap_head. change (input_stamp (FromCritical, p)) with (release_stamp p).
    rewrite <- !app_assoc. split_and!; try done; rewrite ?length_app; cbn [length]; destruct (release_stamp p); cbn; lia.
  - destruct Hn as (packet & age & -> & -> & -> & -> & ->). cbn. rewrite <- !app_assoc. split_and!; try done; lia.
  - destruct Hn as (packet & age & -> & -> & -> & -> & -> & Hm & ->). cbn. rewrite !app_nil_r. split_and!; try done; lia.
Qed.

Lemma inv_take w s from p : writer_inv w -> thread w = Choosing -> closed (mailbox w) = false -> take_next (mailbox w) = Some (s, from, p) ->
  writer_inv (WriterWorld s (Writing from p) (written w) (calls w) (accepted w)).
Proof.
  intros [] Ht Hc Hn. destruct (take_line _ _ _ _ Ht Hn) as (Hl & Hr & Hm & Hw & Hcr & Hre).
  pose proof (take_next_cases _ _ _ _ Hn) as (Hrs & Hcl & He & Hcase). destruct (wi_resync0 Hc) as [_ Hres]. unfold resyncs in Hres. rewrite Ht in Hres.
  split; cbn [mailbox thread calls accepted written].
  - lia.
  - lia.
  - lia.
  - intros _. split; [done |]. unfold resyncs. cbn [mailbox thread]. rewrite Hrs. cbn in Hres. lia.
  - rewrite Hrs. intros [Hx Hy]%wi_empty0. rewrite Hx in Hre. destruct (reliable s); [| cbn in Hre; lia]. split; [done |].
    destruct (latest_move s) as [m |]; [| done]. by rewrite (Hm _ eq_refl) in Hy.
  - rewrite Hl, Hr, He. destruct wi_ordered0 as (H1 & H2 & H3 & H4). split_and!; auto. intros q age Hq. by eapply H3, Hm.
  - unfold gone. cbn [written thread in_hand]. unfold gone in wi_fenced0. rewrite Ht, app_nil_r in wi_fenced0. apply fenced_snoc; [done |].
    intros q age [= -> ->]. destruct Hcase as (packet & age' & [= <- <-] & _ & _ & _ & _ & Hlm & _).
    destruct wi_ordered0 as (_ & _ & H3 & _). apply H3 in Hlm. unfold all_releases, gone in Hlm. rewrite Ht, app_nil_r in Hlm.
    by apply Forall_app in Hlm as [? _].
Qed.

Lemma inv_wrote w from p : writer_inv w -> thread w = Writing from p ->
  writer_inv (WriterWorld (mailbox w) (if completes_resync p then Completing else Choosing) (written w ++ [(from, p)]) (calls w) (accepted w)).
Proof.
  intros [] Ht. assert (Hg : gone (WriterWorld (mailbox w) (if completes_resync p then Completing else Choosing) (written w ++ [(from, p)]) (calls w) (accepted w))
    = gone w). { unfold gone. cbn [written thread]. rewrite Ht. destruct (completes_resync p); cbn; by rewrite app_nil_r. }
  split; unfold line, all_releases in *; rewrite ?Hg; try done. cbn [mailbox thread]. intros Hc.
  destruct (wi_resync0 Hc) as [_ Hr]. split; [by destruct (completes_resync p) |]. rewrite <- Hr. unfold resyncs, waiting. cbn [mailbox thread].
  rewrite Ht. destruct p as [packet [] age]; cbn; lia.
Qed.

Lemma inv_broken w from p error : writer_inv w -> thread w = Writing from p ->
  let s := mailbox w in
  writer_inv (WriterWorld (Writer (critical s) (reliable s) (latest_move s) (resyncing s) true (Some error)) Returned (written w) (calls w) (accepted w)).
Proof.
  intros [] Ht. cbn zeta. unfold gone in *. rewrite Ht in *. cbn [in_hand] in *. split; cbn; try done.
  - unfold line, all_releases, gone, waiting in *. cbn [mailbox critical reliable written thread in_hand] in *. rewrite Ht, app_nil_r in *.
    cbn [in_hand] in *. rewrite omap_snoc, releases_snoc, <- !app_assoc in wi_ordered0. destruct wi_ordered0 as (H1 & H2 & H3 & _).
    split_and!; [by eapply sorted_without | | | done].
    + rewrite !Forall_app in *. tauto.
    + intros q age Hq. specialize (H3 q age Hq). rewrite !Forall_app in *. tauto.
  - unfold gone. cbn [written thread in_hand]. rewrite app_nil_r. by eapply fenced_prefix.
Qed.

Lemma inv_complete w : writer_inv w -> thread w = Completing ->
  let s := mailbox w in
  writer_inv (WriterWorld (Writer (critical s) (reliable s) (latest_move s) false (closed s) (write_error s)) Choosing (written w) (calls w) (accepted w)).
Proof.
  intros [] Ht. cbn zeta. split; unfold line, all_releases, gone, waiting, resyncs in *; cbn [mailbox critical reliable latest_move resyncing closed write_error
    thread written calls accepted in_hand] in *; rewrite ?Ht in *; try done.
  intros Hc. destruct (wi_resync0 Hc) as [_ Hr]. split; [done |]. unfold waiting in *. cbn in *. destruct (resyncing (mailbox w)); cbn in *; lia.
Qed.

(** *** The application *)

Lemma inv_later w : writer_inv w -> writer_inv (WriterWorld (mailbox w) (thread w) (written w) (S (calls w)) (accepted w)).
Proof.
  intros []. split; try done. cbn [mailbox thread written calls accepted]. eapply ordered_later; [| exact wi_ordered0]. lia.
Qed.

Lemma inv_critical w packet s r : writer_inv w -> send_critical packet (calls w) (mailbox w) = (s, r) ->
  writer_inv (WriterWorld s (thread w) (written w) (S (calls w)) (accepted w)).
Proof.
  intros Hi. unfold send_critical. destruct (writer_ready (mailbox w)); [| intros [= <- _]; by apply inv_later].
  destruct (Nat.leb_spec ORDINARY_CRITICAL_LIMIT (length (critical (mailbox w)))); intros [= <- _]; [by apply inv_later |].
  pose proof (inv_later _ Hi) as []. clear Hi.
  split; unfold line, all_releases, resyncs, gone, waiting in *; cbn [mailbox critical reliable latest_move resyncing closed write_error
    thread written calls accepted] in *; rewrite ?omap_snoc; cbn [release_stamp option_list]; rewrite ?app_nil_r; try done.
  rewrite length_app. cbn [length]. lia.
Qed.

Lemma ready_open s : writer_ready s = Ok tt -> closed s = false /\ write_error s = None.
Proof. unfold writer_ready. destruct (write_error s); [done |]. by destruct (closed s). Qed.

Lemma kept_more l l' rs rs' t : kept l rs t -> l ⊆ l' -> rs ⊆ rs' -> kept l' rs' t.
Proof. intros [H | (r & H & Hr)] Hl Hs; [left; auto |]. right. exists r. auto. Qed.

(** An input that is accepted comes last. *)
Lemma ordered_accept l rs n move taken error : ordered l rs n move taken error -> ordered (l ++ [n]) rs (S n) move (taken ++ [n]) error.
Proof.
  intros (H1 & H2 & H3 & H4). apply Forall_app in H2 as [H2 H2']. split_and!; auto.
  - by apply sorted_snoc.
  - rewrite !Forall_app. split_and!; [| constructor; [lia | done] |]; eapply Forall_impl; try eassumption; cbn; lia.
  - intros He. apply Forall_app. split.
    + eapply Forall_impl; [by apply H4 |]. intros t Ht. eapply kept_more; [exact Ht | set_solver | done].
    + constructor; [| done]. left. set_solver.
Qed.

(** After an overflow what has not left is lost, and the release is next. *)
Lemma ordered_overflow l k rs n move taken error : ordered (l ++ k) rs n move taken error ->
  ordered (l ++ [n]) (rs ++ [n]) (S n) None taken error.
Proof.
  intros (H1 & H2 & H3 & H4). rewrite !Forall_app in H2. destruct H2 as [[H2 H2k] H2'].
  split_and!; auto; [| | done |].
  - apply sorted_snoc; [| done]. rewrite <- (app_nil_r l). eapply sorted_without. by rewrite app_nil_r.
  - rewrite !Forall_app. split_and!; try (constructor; [lia | done]); eapply Forall_impl; try eassumption; cbn; lia.
  - intros He. eapply Forall_impl; [by apply H4 |]. intros t [Ht | (r & Hr & Hlt)].
    + apply elem_of_app in Ht as [Ht | Ht]; [left; set_solver |]. right. exists n. split; [set_solver |].
      rewrite Forall_forall in H2k. auto.
    + right. exists r. split; [set_solver | done].
Qed.

Lemma inv_reliable w packet release_all s r : writer_inv w -> send_reliable packet release_all (calls w) (mailbox w) = (s, r) ->
  writer_inv (WriterWorld s (thread w) (written w) (S (calls w)) (accepted w ++ if is_ok r then [calls w] else [])).
Proof.
  intros Hi. unfold send_reliable. destruct (writer_ready (mailbox w)) as [[] |] eqn:Hw;
    [| intros [= <- <-]; cbn [is_ok]; rewrite app_nil_r; by apply inv_later].
  apply ready_open in Hw as [Hc He]. destruct (resyncing (mailbox w)) eqn:Hrs; [intros [= <- <-]; cbn [is_ok]; rewrite app_nil_r; by apply inv_later |].
  destruct Hi. destruct (wi_resync0 Hc) as [Hnr Hres]. rewrite Hrs in Hres. unfold resyncs in Hres. cbn [Nat.b2n] in Hres.
  assert (Hwait : omap release_stamp (critical (mailbox w)) = []).
  { apply length_zero_iff_nil. unfold waiting in Hres. lia. }
  unfold line, all_releases, gone, waiting in *. rewrite Hwait in *. cbn [length app] in *. rewrite app_nil_r in wi_ordered0.
  destruct (Nat.leb_spec RELIABLE_INPUT_LIMIT (length (reliable (mailbox w)))); intros [= <- <-]; cbn [is_ok].
  - split; unfold line, all_releases, resyncs, gone, waiting in *; cbn [mailbox critical reliable latest_move resyncing closed write_error
      thread written calls accepted] in *; rewrite ?omap_head, ?Hwait; cbn [release_stamp option_list app length map]; try done; try lia.
    + cbn. cbn in wi_critical0. lia.
    + intros _. split; [done |]. cbn. lia.
    + change (option_list (Some ?x)) with [x]. rewrite !app_nil_r. by eapply ordered_overflow.
  - split; unfold line, all_releases, resyncs, gone, waiting in *; cbn [mailbox critical reliable latest_move resyncing closed write_error
      thread written calls accepted] in *; rewrite ?Hwait; cbn [app length Nat.b2n]; try done.
    + rewrite length_app. cbn [length]. lia.
    + rewrite app_nil_r, map_app, app_assoc. cbn [map snd]. by apply ordered_accept.
Qed.

Lemma inv_move w packet s r : writer_inv w -> send_latest_move packet (calls w) (mailbox w) = (s, r) ->
  writer_inv (WriterWorld s (thread w) (written w) (S (calls w)) (accepted w)).
Proof.
  intros Hi. unfold send_latest_move. destruct (writer_ready (mailbox w)); [| intros [= <- _]; by apply inv_later].
  destruct (resyncing (mailbox w)) eqn:Hrs; intros [= <- _]; [by apply inv_later |].
  pose proof (wi_ordered _ Hi) as Ho. apply inv_later in Hi as []. split; try done; cbn [mailbox resyncing] in *;
    [by rewrite Hrs in wi_resync0 |].
  destruct wi_ordered0 as (H1 & H2 & H3 & H4). split_and!; try done. intros p age [= -> <-].
  destruct Ho as (_ & Ho & _). by apply Forall_app in Ho as [_ Ho].
Qed.

Lemma writer_inv_shutdown w : writer_inv w -> writer_inv (WriterWorld (shutdown (mailbox w)) (thread w) (written w) (calls w) (accepted w)).
Proof. intros []. split; try done. Qed.

Lemma writer_inv_step w w' : writer_inv w -> step w w' -> writer_inv w'.
Proof.
  intros Hi H. destruct H as [broken w' H | packet s r H | packet release_all s r H | packet s r H |].
  - unfold thread_step in H. destruct (thread w) as [| from p | |] eqn:Ht; [| | | done].
    + destruct (closed (mailbox w)) eqn:Hc.
      * injection H as <-. destruct Hi. unfold line, all_releases, gone in *. rewrite Ht in *.
        split; unfold line, all_releases, gone in *; cbn [mailbox] in *; try done. congruence.
      * destruct (take_next (mailbox w)) as [[[s from] p] |] eqn:Hn; [| done]. injection H as <-. by apply inv_take.
    + destruct broken as [error |]; injection H as <-; [by eapply inv_broken | by apply inv_wrote].
    + injection H as <-. by apply inv_complete.
  - by eapply inv_critical.
  - by eapply inv_reliable.
  - by eapply inv_move.
  - by apply writer_inv_shutdown.
Qed.

Lemma inv_start : writer_inv start.
Proof.
  split; try done; try (cbn; lia). split_and!; try done; try constructor. intros [] ? ? ?; done.
Qed.

(** While a release is on its way, a call with input is refused and changes nothing. *)
Definition refuses (w : world) : Prop := forall packet release_all,
  send_reliable packet release_all (calls w) (mailbox w) = (mailbox w, Err RESYNC) /\
  send_latest_move packet (calls w) (mailbox w) = (mailbox w, Err RESYNC).

(** Otherwise a move replaces the one that waits, and a reliable input is put last; when there is no place for it, it is refused, all input
    that waits is dropped, and the release goes before everything else. *)
Definition takes (w : world) : Prop := forall packet release_all,
  (exists s, send_latest_move packet (calls w) (mailbox w) = (s, Ok tt) /\ latest_move s = Some (packet, calls w) /\
     reliable s = reliable (mailbox w) /\ critical s = critical (mailbox w)) /\
  (exists s r, send_reliable packet release_all (calls w) (mailbox w) = (s, r) /\
     if (length (reliable (mailbox w)) <? RELIABLE_INPUT_LIMIT)%nat
     then r = Ok tt /\ reliable s = reliable (mailbox w) ++ [(packet, calls w)] /\ critical s = critical (mailbox w) /\
       latest_move s = latest_move (mailbox w)
     else is_ok r = false /\ reliable s = [] /\ latest_move s = None /\ critical s = Queued release_all true (calls w) :: critical (mailbox w)).

Lemma resync_refuses w : writer_ready (mailbox w) = Ok tt -> resyncing (mailbox w) = true -> refuses w.
Proof. intros Hw Hr packet release_all. unfold send_reliable, send_latest_move. by rewrite Hw, Hr. Qed.

Lemma settled_takes w : writer_ready (mailbox w) = Ok tt -> resyncing (mailbox w) = false -> takes w.
Proof.
  intros Hw Hr packet release_all. unfold send_reliable, send_latest_move. rewrite Hw, Hr. split; [by eexists |].
  rewrite Nat.ltb_antisym. destruct (RELIABLE_INPUT_LIMIT <=? _)%nat; by eexists _, _.
Qed.

(** C10: the writer to a helper never leaves keys pressed that it has lost the release of.  However senders and the writing thread interleave, the
    mailbox stays within its limits, with a place for the release of all input always free; input leaves in the order in which it was accepted,
    and what an overflow has lost is followed by the release of all input, after which nothing accepted before it leaves, no pointer move
    either; while the writer works, at most one release is on its way, every input and every move is refused as long as one is, and none is
    refused otherwise but the input that overflows the queue, which puts the release in front. *)
Theorem writer_fences_overflow w : rtc step start w ->
  (length (critical (mailbox w)) <= CRITICAL_LIMIT)%nat /\ (length (reliable (mailbox w)) <= RELIABLE_INPUT_LIMIT)%nat /\
  StronglySorted lt (line w) /\ fenced (gone w) /\
  (write_error (mailbox w) = None -> Forall (kept (line w) (all_releases w)) (accepted w)) /\
  (closed (mailbox w) = false -> resyncs w = Nat.b2n (resyncing (mailbox w))) /\
  (writer_ready (mailbox w) = Ok tt -> (resyncs w = 1%nat /\ refuses w) \/ (resyncs w = 0%nat /\ takes w)).
Proof.
  intros Hw. assert (Hi : writer_inv w).
  { revert w Hw. apply (rtc_ind_r (fun w => writer_inv w)); [apply inv_start |]. intros v v' _ Hs Hv. by eapply writer_inv_step. }
  destruct Hi as [Hc Hf Hr Hres _ (Hs & _ & _ & Hk) Hfe]. split_and!; try done.
  - unfold CRITICAL_LIMIT, ORDINARY_CRITICAL_LIMIT in *. cbn in *. lia.
  - intros Ho. by destruct (Hres Ho).
  - intros Hready. destruct (ready_open _ Hready) as [Ho _]. destruct (Hres Ho) as [_ ->].
    destruct (resyncing (mailbox w)) eqn:E; [left | right]; (split; [done |]); [by apply resync_refuses | by apply settled_takes].
Qed.
End Writer.

Module WriterTrial.
(** A click, a move and a control packet; the click is written while another one is handed in. *)
Inductive call := Critical (p : nat) | Reliable (p : nat) | Move (p : nat) | Thread.

Definition call_step (c : call) (w : world (Packet := nat)) : option world :=
  match c with
  | Critical p => Some (WriterWorld (fst (send_critical p (calls w) (mailbox w))) (thread w) (written w) (S (calls w)) (accepted w))
  | Reliable p =>
      let (s, r) := send_reliable p 0%nat (calls w) (mailbox w) in
      Some (WriterWorld s (thread w) (written w) (S (calls w)) (accepted w ++ if is_ok r then [calls w] else []))
  | Move p => Some (WriterWorld (fst (send_latest_move p (calls w) (mailbox w))) (thread w) (written w) (S (calls w)) (accepted w))
  | Thread => thread_step None w
  end.

Fixpoint run (l : list call) (w : world) : option world :=
  match l with [] => Some w | c :: l => match call_step c w with Some w => run l w | None => None end end.

Lemma run_calls l : forall w w', run l w = Some w' -> rtc step w w'.
Proof.
  induction l as [| c l IH]; intros w w'; cbn [run]; [by intros [= <-] |]. destruct (call_step c w) as [v |] eqn:Hv; [| done].
  intros H. eapply rtc_l; [| by apply IH]. destruct c as [p | p | p |]; cbn [call_step] in Hv.
  - injection Hv as <-. destruct (send_critical p (calls w) (mailbox w)) as [s r] eqn:E. by eapply step_critical.
  - destruct (send_reliable p 0%nat (calls w) (mailbox w)) as [s r] eqn:E. injection Hv as <-. by eapply step_reliable.
  - injection Hv as <-. destruct (send_latest_move p (calls w) (mailbox w)) as [s r] eqn:E. by eapply step_move.
  - by eapply step_thread.
Qed.

(** 258 clicks, of which the first is written, overflow; then the release is written, and a click after it. *)
Definition flood : list call :=
  ([Reliable 1; Thread; Move 2] ++ replicate 257 (Reliable 3) ++ [Critical 4; Thread; Thread; Thread; Thread; Reliable 5; Thread; Thread; Thread; Thread])%nat.
Definition flooded : world := default start (run flood start).

Lemma flood_witness : omap input_stamp (written flooded) = [0; 258; 260]%nat /\ StronglySorted lt (line flooded).
Proof.
  split; [vm_compute; reflexivity |]. apply writer_fences_overflow. apply (run_calls flood). vm_compute. reflexivity.
Defined.
End WriterTrial.
